(* ===== verification/_CoqProject ===== *)
-Q . S2P
Prelude.v
Bytes.v
PyText.v
ByteText.v
Decimal.v
Der.v
DerProofs.v
Hashing.v
Collections.v
Json.v
PosixPath.v
Gpt.v
GptCanonical.v
Verity.v
VerityProofs.v
DebControl.v
DebVersion.v
DebRelation.v
DebUniverse.v
DebResolve.v
DebLock.v
DebLockProofs.v
JsonSchema.v
Qualification.v
QualificationProofs.v
EspManifest.v
EspProofs.v
EfiAuth.v
Authenticode.v
AuthenticodeProofs.v
AuthenticodeFacts.v
RsaSignature.v
RsaProofs.v
SecureBoot.v
SecureBootSigner.v
SecureBootImage.v
SecureBootImageProofs.v
CommandLine.v
CommandLineProofs.v
ReleaseValidation.v
RepartProofs.v
ReleaseProofs.v
FunctionSize.v
FunctionSizeProofs.v
OpenPgp.v
OpenPgpProofs.v
Sysupdate.v
SysupdateSigning.v
SysupdateProofs.v
FileTree.v
ExtractTree.v
ExtractDemo.v
ExtractPaths.v
ExtractLinks.v
ExtractConfined.v
ExtractProofs.v
ExtractResult.v
ExtractSafety.v
PackageArchive.v
ArchiveProofs.v
RepoTree.v
Snapshot.v
SnapshotDemo.v
SnapshotRelease.v
SnapshotProofs.v
StageInputs.v
StageTree.v
StageProofs.v
ActionGraph.v
ActionGraphProofs.v
Launcher.v
LauncherProofs.v
MkosiContract.v
ReleasePatches.v
ReleasePatchesProofs.v
HttpDownload.v
ImageEnvironment.v
ExecutionLog.v
RunMkosi.v
