(* ===== verification/Prelude.v ===== *)
(** * rules_mkosi: a verification library

    rules_mkosi builds operating system images with mkosi under Bazel. Its Python tools run inside build actions: they parse
    untrusted binary images and package indexes, decide what a release build may read, and write the metadata, payloads and
    signatures that devices trust. This library models those tools as executable functions and proves what they promise.

    ** Method

    Every modelled function keeps its name and its order of checks. Functions that can raise return [result], whose [Err] carries
    the Python exception with the template of its message; [raises] bounds the exceptions a computation may raise. Integers are
    unbounded, as in Python; fields of binary formats are read with their width ([unpack_le], [be_decode], [pack_be]). Strings
    are lists of code points, byte strings are lists of bytes, dictionaries are lists of items with distinct keys in insertion
    order. A loop that is not structural gets fuel, and a theorem or lemma shows that the fuel given always suffices: [OutOfFuel]
    never escapes. Code outside the repository (OpenSSL's hash algorithms, mkosi's argument parser, git, sqv, liblzma, the file
    system, beyond-ASCII Unicode data) is a type class or an argument; SHA-256, CRC-32, CRC-24, UTF-8, UTF-16, base64 and JSON
    printing are defined.

    ** Files

    - Shared: [Prelude] (results, exceptions, loops, slices, tactics and hint databases), [Bytes] (bytes, fields, UUIDs,
      files), [PyText] (str methods and codecs), [ByteText] (bytes methods and base64 bodies), [Decimal] (int() and str() of integers), [Hashing] (SHA-256, CRC-32, the
      [Hashlib] interface), [Collections] (dictionaries, sorting), [Json] (values and printing).
    - The file system: [PosixPath] (os.path and PurePosixPath), [FileTree] (a tree of directories, regular files with inodes
      and symbolic links, path resolution as the kernel does it, the monad [io] of the calls the tools make, and a Hoare triple
      for it), [RepoTree] (a directory described by the finite map of the files below it).
    - [Gpt], [GptCanonical]: src/mkosi/private/partition_metadata.py and gpt_partitions.py. [project_image] validates both GPT
      copies and projects the partitions; [canonical_image_sha256] hashes an image without its GPT identity. Theorems: the
      layout of accepted images, that no entry is lost, the A/B slot invariant, that only ValueError escapes, and that the
      streamed hash equals the hash of the overwritten image and ignores the identity fields.
    - [Verity], [VerityProofs]: verity_metadata.py. The hash tree is accepted exactly when it is the reference Merkle tree,
      artifacts are determined byte for byte, and the root hash binds the data (or a collision is exhibited). The superblock
      check admits at most 32 levels, which bounds the level loop.
    - [EspManifest], [EspProofs]: esp_manifest/rules_mkosi_esp_manifest.py. The GPT lookup and FAT reader: files returned are
      the bytes of their cluster chains, listings are exactly the regular files, every failure is one of two exceptions. Fuel:
      one round per cluster of the volume for chains, one per directory entry for walks.
    - [EfiAuth]: efi_auth.py, the round trip and error behaviour of authenticated variable files.
    - [DebControl], [DebVersion], [DebRelation], [DebUniverse], [DebResolve], [DebLock], [DebLockProofs]: debian_control.py and
      src/mkosi/debian/generate_lock.py. Control data and dependency fields parse back what is printed; version comparison
      refines an order on keys; the resolver's result is closed and minimal and its loop ends within one round per package
      name; a lock is authenticated by its Release file, closed and ordered.
    - [JsonSchema], [Qualification], [QualificationProofs]: src/ci/hardware_qualification_schemas.py. The schemas, given the
      meaning of the JSON Schema standard, enforce the tables they are generated from, and demand no more.
    - [CommandLine], [CommandLineProofs]: mkosi_runner/mkosi_options.py and command_line.py. The scanner over an abstract option
      table; rewriting paths keeps what mkosi reads.
    - [ReleaseValidation], [RepartProofs], [ReleaseProofs]: mkosi_runner/release_validation.py and repart_definitions.py. A
      configuration is accepted exactly when it keeps the contract [hermetic].
    - [FunctionSize], [FunctionSizeProofs]: src/ci/check_function_size.py. Every function is counted, and success means that no
      long function appeared or grew. Fuel: one candidate name more than there are names.
    - [OpenPgp], [OpenPgpProofs]: openpgp.py. Packet data is exactly a concatenation of frames; a certificate holds no secret
      key. Fuel: the number of bytes, since every packet has at least one.
    - [Sysupdate], [SysupdateSigning], [SysupdateProofs]: image_version.py, sysupdate.py and sysupdate_signing.py. Sparse copies
      are exact, the checksums of a payload are those of its files, and an imported signature is bound to the request.
    - [ExtractTree], with [ExtractDemo], [ExtractPaths], [ExtractLinks], [ExtractConfined], [ExtractProofs], [ExtractResult] and
      [ExtractSafety]: src/mkosi/debian/extract_tree.py. Extraction changes nothing outside its output, on success or failure;
      a successful one puts every member in place; links are resolved in a bounded number of steps, the depth-first link graph
      is exact, and once the members are created, before the links of a merged /usr are replaced, the kernel follows every
      link to the resolved path below the output; an archive whose links form no cycle can be refused for one.
    - [PackageArchive], [ArchiveProofs]: src/mkosi/debian/package_archive.py. The ar reader inverts the format, and the archive
      made of authenticated packages passes the index of [ExtractTree]: its members come after their parents. Fuel: one round
      per byte of the container, enough for every header with a size that is not negative.
    - [Snapshot], with [SnapshotDemo], [SnapshotRelease] and [SnapshotProofs]: debian_snapshot.py. A staged repository holds the
      release files, the indexes that the signed release lists and the locked packages, each with its digest, and nothing else.
    - [StageInputs], [StageTree], [StageProofs]: stage_inputs.py. The entries of a declared tree are exactly its nodes, mappings
      of different owners never overlap, and a counterexample to the layout check. Fuel: the walk of a tree descends at most
      as deep as the tree has nodes.

    - [Der], [DerProofs], [Authenticode], [AuthenticodeProofs], [AuthenticodeFacts]: the DER reader, PEM certificates, PE images and
      Authenticode messages of secure_boot.py. An accepted signed image is the requested one with a certificate table whose message
      holds the image's digest; children cover their parent exactly; which exceptions a malformed image raises. Fuel: the length of
      the value for the children, the size of the table for its entries.
    - [RsaSignature], [RsaProofs], [SecureBoot], [SecureBootSigner]: requests and imports of secure_boot.py and the signer of
      secure_boot_signer.py. A message that the signer accepts is, byte for byte, one that names the certificate and carries an
      RSA signature by its key over the attributes that hold the image's digest; every entry of a signing manifest was checked
      against the files it names; an imported binary is the requested one.
    - [SecureBootImage], [SecureBootImageProofs]: secure_boot_image.py and esp_files.py. A signed image differs from the unsigned one
      only on its ESP, and the files there are the requested replacements; when keys are enrolled, every binary that the firmware
      or a boot loader entry can start is trusted by them. Fuel: the copy reads at most as often as it has bytes.
    - [ActionGraph], [ActionGraphProofs]: src/ci/action_graph_validator.py. A graph passes exactly when every action keeps the
      declared contract, exceptions included; the input walk computes reachability. Fuel: one round per pushed set, one more than the fragments
      for a path, which ends or runs in a cycle.
    - [Launcher], [LauncherProofs]: src/mkosi/debian/debian_launcher.py. Binds are accepted exactly when they are well formed, at
      permitted places and disjoint; what a validated root offers resolves to the resolved root or below it.
    - [MkosiContract]: mkosi_runner/mkosi_contract.py. An mkosi is accepted exactly when its version is reviewed and its
      internals keep that version's contract.
    - [ReleasePatches], [ReleasePatchesProofs]: mkosi_runner/release_patches.py. mkosi's parser is a program that calls the patched
      functions; the wrapper with its flag and depth counter implements its specification, and no configuration of the requested
      image reaches mkosi before one was validated.

    - [HttpDownload]: src/mkosi/debian/http_download.py. What a download tries, how long it waits and how it ends, and the header
      that breaks it. The loop is structural in the attempts.
    - [ImageEnvironment]: src/ci/image_environment_validator.py. A graph passes exactly when every image action has the expected
      environment and its command line does not make the interpreter ignore PYTHONPATH.
    - [ExecutionLog]: src/ci/execution_log.py, verify_reproducibility_execution.py and verify_two_stage_cache.py. The reader
      accepts exactly sequences of JSON values, with one round per character as fuel, and both checks decide what ran once.
    - [RunMkosi]: diagnostics.py and the decisions of run_mkosi.py. A failed build ends with a status from 1 to 255.

    Components meet at interfaces: [Hashlib] between hashing and the verity and OpenPGP code, [Ucd] for Unicode data, [Mkosi]
    with [MkosiLaws] for mkosi's options, [Host] with [HostLaws] for the file system of the release checks, [Repository] for
    git and the syntax trees, [SysupdateHost] for payloads, [LauncherHost] for the launcher's files, [Interpreter] for the importable mkosi,
    [Decoder] for the JSON decoder;
    each has a concrete instance beside the witnesses of the theorems.
    The tools that change trees share the file system of [FileTree] instead; what they call outside the repository is an
    argument: the tar decoder of the extraction, liblzma, the environment, OpenSSL, sbsign, the mtools script, and the launcher that runs
    sqv, of which the snapshot theorem assumes only that it writes nothing but its output file ([writes_only_output]).

    ** Not modelled

    The argparse and click front ends and exit codes of the tools; the ephemeral test fixture and the scratch files of secure_boot.py; the
    launcher's scratch directories and processes; the processes and modules that run_mkosi.py starts and loads, tree.py and the
    functions of release_patches.py that write sandbox files; refresh_debian_tools.py; file timestamps and the owner fields of
    tar headers; check_bazel_versions.py; small writers such as write_build_metadata. In [CommandLine], building the option table from mkosi's parser objects is
    the interface [Mkosi]. [int] has no limit on the number of digits here. *)
From stdpp Require Export base list list_numbers numbers option strings gmap sorting.
From Stdlib Require Export ZArith Lia ZifyBool.
From Stdlib Require Export Strings.Byte.

#[global] Open Scope Z_scope.
#[global] Set Default Goal Selector "!".

(** ** Text, messages and exceptions *)

(** A Python [str]: its sequence of code points. *)
Abbreviation text := (list Z).

(** The code points of an ASCII literal of the source. *)
Definition lit (s : string) : text :=
  (λ a : Ascii.ascii, Z.of_nat (Ascii.nat_of_ascii a)) <$> String.list_ascii_of_string s.

(** An argument of [str.format] or [%]: the library keeps a message as its template and its arguments. *)
Inductive arg :=
  | AText (t : text)
  | AStr (s : string)
  | AInt (z : Z)
  | ATexts (ts : list text).

(** The exceptions that the modelled code raises, with the template of the message and its arguments.
    [OutOfFuel] is no Python exception: it marks a loop whose fuel ran out, and each file proves that the fuel
    it passes is enough. *)
Inductive exn :=
  | ValueError (fmt : string) (args : list arg)
  | InvalidImageError (fmt : string) (args : list arg)
  | EspFileNotFoundError (fmt : string) (args : list arg)
  | LockError (fmt : string) (args : list arg)
  | SystemExit (fmt : string) (args : list arg)
  | UnicodeError
  | StructError
  | IndexError
  | KeyError
  | TypeError
  | AttributeError
  | OSError
  | TarError
  | LZMAError
  | CalledProcessError
  | RuntimeError (fmt : string) (args : list arg)
  | OutOfFuel.

Inductive result (A : Type) :=
  | Ok (a : A)
  | Err (e : exn).
Arguments Ok {A} _.
Arguments Err {A} _.

#[export] Instance result_ret : MRet result := @Ok.
#[export] Instance result_bind : MBind result := λ A B f m,
  match m with Ok a => f a | Err e => Err e end.
#[export] Instance result_fmap : FMap result := λ A B f m,
  match m with Ok a => Ok (f a) | Err e => Err e end.

#[export] Instance arg_eq_dec : EqDecision arg.
Proof. solve_decision. Defined.
#[export] Instance exn_eq_dec : EqDecision exn.
Proof. solve_decision. Defined.
#[export] Instance result_eq_dec {A} `{EqDecision A} : EqDecision (result A).
Proof. solve_decision. Defined.

(** [if not cond: raise e] and [if cond: raise e]. *)
Definition require (b : bool) (e : exn) : result unit := if b then Ok tt else Err e.
Definition raise_if (b : bool) (e : exn) : result unit := if b then Err e else Ok tt.

(** [try: m except E: raise wrap]: replaces the exceptions that [catches] selects. *)
Definition recast {A} (catches : exn → bool) (wrap : exn → exn) (m : result A) : result A :=
  match m with Ok a => Ok a | Err e => Err (if catches e then wrap e else e) end.

Definition of_option {A} (e : exn) (o : option A) : result A :=
  match o with Some a => Ok a | None => Err e end.

Definition is_Ok {A} (m : result A) : bool := match m with Ok _ => true | Err _ => false end.

(** A [for] loop over [l] that threads a state and may raise. *)
Fixpoint foldM {A S} (f : S → A → result S) (s : S) (l : list A) : result S :=
  match l with
  | [] => Ok s
  | x :: l => s' ← f s x; foldM f s' l
  end.

(** ** The result monad: inversion and exception lemmas *)

Lemma Ok_inj {A} (a b : A) : Ok a = Ok b → a = b.
Proof. congruence. Qed.

Section result_lemmas.
  Context {A B : Type}.
  Implicit Types (m : result A) (f : A → result B).

Lemma bind_Ok_inv m f b : m ≫= f = Ok b → ∃ a, m = Ok a ∧ f a = Ok b.
Proof. destruct m; naive_solver. Qed.

Lemma fmap_Ok_inv (g : A → B) m b : g <$> m = Ok b → ∃ a, m = Ok a ∧ b = g a.
Proof. destruct m; naive_solver. Qed.

Lemma require_Ok b e u : require b e = Ok u → b = true.
Proof. by destruct b. Qed.

Lemma raise_if_Ok b e u : raise_if b e = Ok u → b = false.
Proof. by destruct b. Qed.

Lemma of_option_Ok e (o : option A) a : of_option e o = Ok a → o = Some a.
Proof. destruct o; naive_solver. Qed.

Lemma recast_Ok c w m a : recast c w m = Ok a → m = Ok a.
Proof. destruct m; naive_solver. Qed.
End result_lemmas.

(** [raises P m]: if [m] raises, the exception satisfies [P]. *)
Definition raises {A} (P : exn → Prop) (m : result A) : Prop :=
  match m with Ok _ => True | Err e => P e end.

Section raises_lemmas.
  Context {A B : Type} (P : exn → Prop).
  Implicit Types (m : result A).

Lemma raises_ok (a : A) : raises P (Ok a).
Proof. done. Qed.
Lemma raises_err e : P e → raises P (@Err A e).
Proof. done. Qed.
Lemma raises_bind m (f : A → result B) :
  raises P m → (∀ a, m = Ok a → raises P (f a)) → raises P (m ≫= f).
Proof. destruct m; naive_solver. Qed.
Lemma raises_fmap m (f : A → B) : raises P m → raises P (f <$> m).
Proof. by destruct m. Qed.
Lemma raises_require b e : P e → raises P (require b e).
Proof. by destruct b. Qed.
Lemma raises_raise_if b e : P e → raises P (raise_if b e).
Proof. by destruct b. Qed.
Lemma raises_of_option e (o : option A) : P e → raises P (of_option e o).
Proof. by destruct o. Qed.
Lemma raises_if (b : bool) m1 m2 :
  (b = true → raises P m1) → (b = false → raises P m2) → raises P (if b then m1 else m2).
Proof. destruct b; auto. Qed.
Lemma raises_Ok_or m : raises P m → (∃ a, m = Ok a) ∨ (∃ e, m = Err e ∧ P e).
Proof. destruct m; naive_solver. Qed.
End raises_lemmas.

Lemma raises_foldM {A S} P (f : S → A → result S) l s :
  (∀ s x, x ∈ l → raises P (f s x)) → raises P (foldM f s l).
Proof.
  revert s. induction l as [|x l IH]; intros s Hf; simpl; [done|].
  apply raises_bind; [apply Hf; set_solver|]. intros s' _. apply IH. set_solver.
Qed.

Lemma raises_mapM {A B} P (f : A → result B) l :
  (∀ x, x ∈ l → raises P (f x)) → raises P (mapM f l).
Proof.
  induction l as [|x l IH]; intros Hf; simpl; [done|].
  apply raises_bind; [apply Hf; set_solver|]. intros y _.
  apply raises_bind; [apply IH; set_solver|]. done.
Qed.

Definition is_value_error (e : exn) : Prop := ∃ fmt args, e = ValueError fmt args.

(** What [LockError] handlers catch. *)
Definition is_lock_error (e : exn) : Prop := ∃ fmt args, e = LockError fmt args.

Lemma lock_error fmt args : is_lock_error (LockError fmt args).
Proof. by eexists _, _. Qed.

Lemma value_error fmt args : is_value_error (ValueError fmt args).
Proof. by exists fmt, args. Qed.
#[export] Hint Resolve value_error : core.

Create HintDb raises discriminated.
#[export] Hint Resolve raises_ok raises_err raises_bind raises_fmap raises_require raises_raise_if
  raises_of_option raises_if raises_foldM raises_mapM : raises.

Lemma foldM_app {A S} (f : S → A → result S) s l k : foldM f s (l ++ k) = foldM f s l ≫= λ s', foldM f s' k.
Proof. revert s. induction l as [|x l IH]; intros s; simpl; [done|]. destruct (f s x); simpl; [apply IH|done]. Qed.

(** ** Prefixes and boolean filters *)

Lemma prefix_snoc_inv {A} (l k : list A) x : k `prefix_of` l ++ [x] → k `prefix_of` l ∨ k = l ++ [x].
Proof.
  intros [r Hr]. destruct r as [|y r _] using rev_ind; [right; by rewrite app_nil_r in Hr|].
  left. rewrite app_assoc in Hr. apply app_inj_tail in Hr as [-> _]. by exists r.
Qed.

Lemma filter_nil_iff {A} (f : A → bool) l : List.filter f l = [] ↔ ∀ x, x ∈ l → f x = false.
Proof.
  induction l as [|x l IH]; [split; [set_solver|done]|]. cbn. destruct (f x) eqn:Hx.
  - split; [done|]. intros H. rewrite H in Hx by left. done.
  - rewrite IH. split; [|set_solver]. intros H y [->|]%elem_of_cons; auto.
Qed.

Lemma filter_all {A} (f : A → bool) l : (∀ x, x ∈ l → f x = true) → List.filter f l = l.
Proof. induction l as [|x l IH]; intros Hall; [done|]. cbn. rewrite Hall by left. f_equal. apply IH. set_solver. Qed.

Lemma elem_of_filter_bool {A} (f : A → bool) l x : x ∈ List.filter f l ↔ x ∈ l ∧ f x = true.
Proof. rewrite !list_elem_of_In. apply List.filter_In. Qed.

(** A loop invariant for [foldM]. *)
Lemma foldM_inv {A S} (I : S → Prop) (f : S → A → result S) l s s' :
  (∀ s x s', x ∈ l → I s → f s x = Ok s' → I s') → I s → foldM f s l = Ok s' → I s'.
Proof.
  revert s. induction l as [|x l IH]; intros s Hstep Hs H; simpl in *; [naive_solver|].
  apply bind_Ok_inv in H as (s1 & H1 & H2).
  eapply IH; [|eapply Hstep; [left| |]; eauto|done]. intros; eapply Hstep; eauto. by right.
Qed.

(** ** Successful checks *)

Lemma then_Ok {A} (m : result unit) (k : result A) a : (m;; k) = Ok a ↔ m = Ok tt ∧ k = Ok a.
Proof. destruct m as [[]|e]; simpl; naive_solver. Qed.

Lemma require_iff b e u : require b e = Ok u ↔ b = true.
Proof. by destruct b, u. Qed.

Lemma raise_if_iff b e u : raise_if b e = Ok u ↔ b = false.
Proof. by destruct b, u. Qed.

Lemma bind_Ok_iff {A B} (m : result A) (f : A → result B) b : m ≫= f = Ok b ↔ ∃ a, m = Ok a ∧ f a = Ok b.
Proof. destruct m; naive_solver. Qed.

Lemma of_option_iff {A} e (o : option A) a : of_option e o = Ok a ↔ o = Some a.
Proof. destruct o; naive_solver. Qed.

Lemma foldM_checks {C} (f : C → result unit) (l : list C) u : foldM (λ _ c, f c) tt l = Ok u ↔ ∀ c, c ∈ l → f c = Ok tt.
Proof.
  destruct u. induction l as [|c l IH]; simpl; [split; [set_solver|done]|]. rewrite bind_Ok_iff. split.
  - intros ([] & Hc & Hl) c' [->|Hin]%elem_of_cons; [done|]. by apply IH.
  - intros Hall. exists tt. split; [apply Hall; by left|]. apply IH. intros. apply Hall. by right.
Qed.

Create Rewrite HintDb checks.
#[export] Hint Rewrite @then_Ok @require_iff @raise_if_iff negb_true_iff negb_false_iff @bool_decide_eq_true
  @bool_decide_eq_false andb_true_iff orb_false_iff Z.eqb_eq : checks.

(** A loop invariant for a [foldM] over a range, indexed by the loop counter. *)
Lemma foldM_seqZ_inv {S} (I : Z → S → Prop) (f : S → Z → result S) a n s s' :
  0 <= n →
  (∀ i s s', a <= i < a + n → I i s → f s i = Ok s' → I (i + 1) s') →
  I a s → foldM f s (seqZ a n) = Ok s' → I (a + n) s'.
Proof.
  intros Hn. revert a s. pattern n. apply natlike_ind; [| |done]; clear n Hn.
  - intros a s _ Ha [= <-]. by rewrite Z.add_0_r.
  - intros n Hn IH a s Hstep Ha H. rewrite seqZ_cons in H by lia. simpl in H.
    apply bind_Ok_inv in H as (s1 & H1 & H2). replace (Z.pred (Z.succ n)) with n in H2 by lia.
    replace (a + Z.succ n) with (Z.succ a + n) by lia. eapply IH; [| |done].
    + intros i t t' Hi. apply Hstep. lia.
    + rewrite <- Z.add_1_r. eapply Hstep; [|done..]. lia.
Qed.

(** A loop over a range whose body checks a condition on the counter and otherwise moves along known states. *)
Lemma foldM_guarded {S} (f : S → Z → result S) (st : Z → S) (P : Z → Prop) `{∀ i, Decision (P i)} n s0 s :
  0 <= n → s0 = st 0 →
  (∀ i, 0 <= i < n → P i → f (st i) i = Ok (st (i + 1))) →
  (∀ i s, 0 <= i < n → f (st i) i = Ok s → P i) →
  foldM f s0 (seqZ 0 n) = Ok s ↔ (∀ i, 0 <= i < n → P i) ∧ s = st n.
Proof.
  intros Hn -> Hok Herr.
  assert (Hgen : ∀ k, 0 <= k → ∀ i, 0 <= i → i + k = n →
    foldM f (st i) (seqZ i k) = Ok s ↔ (∀ j, i <= j < n → P j) ∧ s = st n).
  { intros k Hk. pattern k. apply natlike_ind; [| |done]; clear k Hk.
    - intros i Hi Hk. replace i with n by lia. simpl. split; [intros [= <-]; split; [lia|done]|by intros [_ ->]].
    - intros k Hk IH i Hi Hik. rewrite seqZ_cons by lia. simpl. replace (Z.pred (Z.succ k)) with k by lia.
      destruct (decide (P i)) as [HP|HP].
      + rewrite Hok by (done || lia). simpl. rewrite <- Z.add_1_r, IH by lia. split; intros [Hj ->]; (split; [|done]).
        * intros j Hij. destruct (decide (j = i)) as [->|]; [done|]. apply Hj. lia.
        * intros j Hij. apply Hj. lia.
      + split.
        * intros (s' & H1 & _)%bind_Ok_inv. apply Herr in H1; [done|lia].
        * intros [Hj _]. destruct HP. apply Hj. lia. }
  apply Hgen; lia.
Qed.

(** Splits every hypothesis that says a monadic computation succeeded into the successes of its steps. *)
Ltac res_inv_step :=
  match goal with
  | H : mbind _ _ = Ok _ |- _ => apply bind_Ok_inv in H as (? & ? & H)
  | H : fmap _ _ = Ok _ |- _ => apply fmap_Ok_inv in H as (? & ? & H)
  | H : require _ _ = Ok _ |- _ => apply require_Ok in H
  | H : raise_if _ _ = Ok _ |- _ => apply raise_if_Ok in H
  | H : of_option _ _ = Ok _ |- _ => apply of_option_Ok in H
  | H : recast _ _ _ = Ok _ |- _ => apply recast_Ok in H
  | H : mret _ = Ok _ |- _ => injection H as H
  | H : Ok _ = Ok _ |- _ => injection H as H
  | H : Err _ = Ok _ |- _ => discriminate H
  | H : Ok _ = Err _ |- _ => discriminate H
  end.
Ltac res_inv := repeat res_inv_step; subst.

Lemma mapM_Forall2 {A B} (f : A → result B) l ys : mapM f l = Ok ys ↔ Forall2 (λ x y, f x = Ok y) l ys.
Proof.
  revert ys. induction l as [|x l IH]; intros ys; simpl.
  - split; [intros; res_inv; constructor|by inversion 1].
  - split.
    + intros H. res_inv. constructor; [done|]. by apply IH.
    + inversion 1 as [|? y ? ys' Hx Hl]; subst. rewrite Hx. simpl. apply IH in Hl. by rewrite Hl.
Qed.

(** Checks that return lists of differences: there are none exactly when every check finds none. *)
Lemma mapM_concat_nil {A B} (f : A → result (list B)) l : (∃ ms, mapM f l = Ok ms ∧ concat ms = []) ↔ ∀ x, x ∈ l → f x = Ok [].
Proof.
  setoid_rewrite mapM_Forall2. split.
  - intros (ms & Hms & Hnil). induction Hms as [|x m l ms Hx Hms IH]; [set_solver|]. cbn in Hnil. apply app_nil in Hnil as [-> Hnil].
    intros y [->|Hy]%elem_of_cons; [done|by apply IH].
  - intros Hall. induction l as [|x l IH]; [by exists []|]. destruct IH as (ms & Hms & Hnil); [set_solver|]. exists ([] :: ms).
    split; [constructor; [apply Hall; by left|done]|done].
Qed.

Lemma filter_rejects {A} (f : A → bool) l : List.filter f l = [] ↔ ∀ x, x ∈ l → f x = false.
Proof.
  induction l as [|x l IH]; [set_solver|]. cbn. destruct (f x) eqn:Hx; split.
  - done.
  - intros Hall. rewrite (Hall x) in Hx; [done|by left].
  - intros Hnil y [->|Hy]%elem_of_cons; [done|by apply IH].
  - intros Hall. apply IH. intros y Hy. apply Hall. by right.
Qed.

Lemma list_bind_nil {A B} (f : A → list B) l : l ≫= f = [] ↔ ∀ x, x ∈ l → f x = [].
Proof.
  induction l as [|x l IH]; [set_solver|]. cbn. rewrite app_nil, IH. split; [intros [? ?] y [->|?]%elem_of_cons; auto|].
  intros Hall. split; [apply Hall; by left|]. intros y Hy. apply Hall. by right.
Qed.

(** Solves [raises P m] by following the structure of [m]. *)
Ltac raises_step :=
  match goal with
  | |- raises _ (Ok _) => exact I
  | |- raises _ (mret _) => exact I
  | |- raises _ (mbind _ _) => apply raises_bind; [|intros ? ?]
  | |- raises _ (fmap _ _) => apply raises_fmap
  | |- raises _ (require _ _) => apply raises_require; eauto
  | |- raises _ (raise_if _ _) => apply raises_raise_if; eauto
  | |- raises _ (of_option _ _) => apply raises_of_option; eauto
  | |- raises _ (Err _) => apply raises_err; eauto
  | |- raises _ (if _ then _ else _) => apply raises_if; intros ?
  | |- raises _ (foldM _ _ _) => apply raises_foldM; intros ? ? ?
  | |- raises _ (mapM _ _) => apply raises_mapM; intros ? ?
  | |- raises _ (match ?x with _ => _ end) => destruct x eqn:?
  | |- raises _ _ => solve [eauto with raises]
  end.
Ltac raises_auto := repeat raises_step.

(** Turns boolean tests into propositions. *)
Ltac bool_inv :=
  repeat match goal with
  | H : andb _ _ = true |- _ => apply andb_true_iff in H as [? ?]
  | H : orb _ _ = false |- _ => apply orb_false_iff in H as [? ?]
  | H : negb _ = true |- _ => apply negb_true_iff in H
  | H : negb _ = false |- _ => apply negb_false_iff in H
  | H : bool_decide _ = true |- _ => apply bool_decide_eq_true in H
  | H : bool_decide _ = false |- _ => apply bool_decide_eq_false in H
  | H : (_ =? _) = true |- _ => apply Z.eqb_eq in H
  | H : (_ =? _) = false |- _ => apply Z.eqb_neq in H
  | H : (_ <? _) = true |- _ => apply Z.ltb_lt in H
  | H : (_ <? _) = false |- _ => apply Z.ltb_ge in H
  | H : (_ <=? _) = true |- _ => apply Z.leb_le in H
  | H : (_ <=? _) = false |- _ => apply Z.leb_gt in H
  end.

(** ** Sorted lists *)

Lemma StronglySorted_snoc {A} (R : A → A → Prop) l x :
  StronglySorted R l → Forall (λ y, R y x) l → StronglySorted R (l ++ [x]).
Proof.
  induction 1 as [|y l Hs IH Hy]; intros Hx; simpl; [repeat constructor|].
  inv Hx. constructor; [auto|]. rewrite Forall_app. auto.
Qed.

(** A relation between two loops over the same range, indexed by the loop counter. *)
Lemma foldl_seqZ_rel {S} (I : Z → S → S → Prop) (f g : S → Z → S) a n s t :
  0 <= n →
  (∀ i s t, a <= i < a + n → I i s t → I (i + 1) (f s i) (g t i)) →
  I a s t → I (a + n) (foldl f s (seqZ a n)) (foldl g t (seqZ a n)).
Proof.
  intros Hn. revert a s t. pattern n. apply natlike_ind; [| |done]; clear n Hn.
  - intros a s t _ Ha. by rewrite Z.add_0_r.
  - intros n Hn IH a s t Hstep Ha. rewrite seqZ_cons by lia. simpl.
    replace (Z.pred (Z.succ n)) with n by lia. replace (a + Z.succ n) with (Z.succ a + n) by lia.
    apply IH; [intros; apply Hstep; [lia|done]|]. rewrite <- Z.add_1_r. apply Hstep; [lia|done].
Qed.

(** ** Lists with integer positions *)

(** Python's [len]. *)
Definition len {A} (l : list A) : Z := Z.of_nat (length l).

(** Python's [l[a:b]] for [a] and [b] that are not negative; positions past the end are clamped. *)
Definition slice {A} (a b : Z) (l : list A) : list A :=
  take (Z.to_nat (Z.min b (len l) - a)) (drop (Z.to_nat (Z.min a (len l))) l).

(** Python's [l[a:]]. *)
Definition slice_from {A} (a : Z) (l : list A) : list A := drop (Z.to_nat (Z.min a (len l))) l.

(** Python's slice assignment [l[a:b] = v] for [0 <= a <= b]. *)
Definition splice {A} (a b : Z) (v : list A) (l : list A) : list A :=
  slice 0 a l ++ v ++ slice_from b l.

(** Python's [l[i]] for [i] that is not negative. *)
Definition get {A} (l : list A) (i : Z) : result A :=
  if (0 <=? i) && (i <? len l) then of_option IndexError (l !! Z.to_nat i) else Err IndexError.

(** [range(start, stop, step)] for a positive [step]. *)
Definition range_step (start stop step : Z) : list Z :=
  (λ i, start + i * step) <$> seqZ 0 ((stop - start + step - 1) / step).

Section slice_lemmas.
  Context {A : Type}.
  Implicit Types (l k v : list A).

Lemma len_nonneg l : 0 <= len l.
Proof. unfold len. lia. Qed.
Lemma len_app l k : len (l ++ k) = len l + len k.
Proof. unfold len. rewrite length_app. lia. Qed.
Lemma len_nil : len (@nil A) = 0.
Proof. done. Qed.
Lemma len_cons (x : A) l : len (x :: l) = 1 + len l.
Proof. unfold len. simpl. lia. Qed.
Lemma len_fmap {B} (f : A → B) l : len (f <$> l) = len l.
Proof. unfold len. by rewrite length_fmap. Qed.
Lemma len_replicate n (x : A) : len (replicate n x) = Z.of_nat n.
Proof. unfold len. by rewrite length_replicate. Qed.

Lemma slice_take_drop a b l :
  0 <= a → slice a b l = take (Z.to_nat (b - a)) (drop (Z.to_nat a) l).
Proof.
  intros Ha. unfold slice, len.
  destruct (decide (a ≤ Z.of_nat (length l))%Z) as [Hle|Hgt].
  - rewrite (Z.min_l a) by lia.
    destruct (decide (b ≤ Z.of_nat (length l))%Z); [by rewrite Z.min_l by lia|].
    rewrite Z.min_r by lia. rewrite !take_ge; [done|..]; rewrite length_drop; lia.
  - rewrite (Z.min_r a) by lia. rewrite !drop_ge by lia. by rewrite !take_nil.
Qed.

Lemma slice_from_drop a l : slice_from a l = drop (Z.to_nat a) l.
Proof.
  unfold slice_from, len. destruct (decide (a ≤ Z.of_nat (length l))%Z).
  - by rewrite Z.min_l by lia.
  - rewrite Z.min_r by lia. rewrite !drop_ge by lia. done.
Qed.

Lemma len_slice a b l : 0 <= a → a <= b → b <= len l → len (slice a b l) = b - a.
Proof.
  intros. rewrite slice_take_drop by lia. unfold len in *.
  rewrite length_take, length_drop. lia.
Qed.

Lemma len_slice_le a b l : 0 <= a → a <= b → len (slice a b l) <= b - a.
Proof. intros. rewrite slice_take_drop by lia. unfold len. rewrite length_take. lia. Qed.

Lemma len_slice_from a l : 0 <= a → a <= len l → len (slice_from a l) = len l - a.
Proof. intros. rewrite slice_from_drop. unfold len in *. rewrite length_drop. lia. Qed.

Lemma slice_all l b : len l <= b → slice 0 b l = l.
Proof. intros. rewrite slice_take_drop by lia. unfold len in *. apply take_ge. simpl. lia. Qed.

Lemma slice_slice_from a l : 0 <= a → slice 0 a l ++ slice_from a l = l.
Proof.
  intros. rewrite slice_take_drop, slice_from_drop by lia.
  rewrite Z.sub_0_r. apply take_drop.
Qed.

Lemma slice_app_l l k b : b <= len l → slice 0 b (l ++ k) = slice 0 b l.
Proof.
  intros. rewrite !slice_take_drop by lia. unfold len in *.
  change (Z.to_nat 0) with 0%nat. rewrite !drop_0. apply take_app_le. lia.
Qed.

Lemma slice_app_r l k a b :
  len l <= a → slice a b (l ++ k) = slice (a - len l) (b - len l) k.
Proof.
  intros. pose proof (len_nonneg l). rewrite !slice_take_drop by lia. unfold len in *.
  rewrite drop_app_ge by lia. f_equal; [lia|]. f_equal. lia.
Qed.

Lemma slice_app_mid l k a b :
  0 <= a → b <= len l → slice a b (l ++ k) = slice a b l.
Proof.
  intros. rewrite !slice_take_drop by lia. unfold len in *.
  destruct (decide (a <= Z.of_nat (length l))).
  - rewrite drop_app_le by lia. apply take_app_le. rewrite length_drop. lia.
  - replace (Z.to_nat (b - a)) with 0%nat by lia. done.
Qed.

Lemma slice_app_exact l k : slice 0 (len l) (l ++ k) = l.
Proof. rewrite slice_app_l by lia. apply slice_all. lia. Qed.

Lemma slice_from_app l k : slice_from (len l) (l ++ k) = k.
Proof. rewrite slice_from_drop. unfold len. rewrite Nat2Z.id. apply drop_app_length. Qed.

Lemma slice_from_app_r l k a :
  len l <= a → slice_from a (l ++ k) = slice_from (a - len l) k.
Proof.
  intros. rewrite !slice_from_drop. unfold len in *. rewrite drop_app_ge by lia. f_equal. lia.
Qed.

Lemma slice_lookup a b l (i : nat) :
  0 <= a → Z.of_nat i < b - a → slice a b l !! i = l !! (Z.to_nat a + i)%nat.
Proof. intros. rewrite slice_take_drop, lookup_take_lt, lookup_drop by lia. done. Qed.

Lemma slice_cons a b l x :
  0 <= a < b → l !! Z.to_nat a = Some x → slice a b l = x :: slice (a + 1) b l.
Proof.
  intros Ha Hx. rewrite !slice_take_drop by lia. rewrite (drop_S l x) by done.
  replace (Z.to_nat (b - a)) with (S (Z.to_nat (b - (a + 1)))) by lia. simpl.
  by replace (S (Z.to_nat a)) with (Z.to_nat (a + 1)) by lia.
Qed.

Lemma slice_snoc a b l x :
  0 <= a <= b → l !! Z.to_nat b = Some x → slice a (b + 1) l = slice a b l ++ [x].
Proof.
  intros Hab Hx. pose proof (lookup_lt_Some _ _ _ Hx). rewrite !slice_take_drop by lia.
  replace (Z.to_nat (b + 1 - a)) with (S (Z.to_nat (b - a))) by lia. apply take_S_r.
  rewrite lookup_drop. rewrite <- Hx. f_equal. lia.
Qed.

Lemma slice_join a b c l : 0 <= a <= b → b <= c → slice a b l ++ slice b c l = slice a c l.
Proof.
  intros. rewrite !slice_take_drop by lia. replace (Z.to_nat b) with (Z.to_nat a + Z.to_nat (b - a))%nat by lia. rewrite <- drop_drop.
  replace (Z.to_nat (c - a)) with (Z.to_nat (b - a) + Z.to_nat (c - b))%nat by lia. by rewrite <- take_take_drop.
Qed.

Lemma slice_empty a b l : 0 <= a → b <= a → slice a b l = [].
Proof. intros. rewrite slice_take_drop by lia. by replace (Z.to_nat (b - a)) with 0%nat by lia. Qed.

Lemma slice_from_slice_from a b l : 0 <= a → 0 <= b → slice_from a (slice_from b l) = slice_from (a + b) l.
Proof. intros. rewrite !slice_from_drop, drop_drop. f_equal. lia. Qed.

Lemma len_slice_min a b l : 0 <= a <= b → len (slice a b l) = Z.max 0 (Z.min b (len l) - a).
Proof. intros. rewrite slice_take_drop by lia. unfold len. rewrite length_take, length_drop. lia. Qed.

Lemma lookup_splice a b v l (i : nat) :
  0 <= a <= b → b <= len l → len v = b - a →
  splice a b v l !! i =
    if (a <=? Z.of_nat i) && (Z.of_nat i <? b) then v !! (i - Z.to_nat a)%nat else l !! i.
Proof.
  intros Ha Hb Hv. unfold splice. rewrite slice_take_drop, slice_from_drop by lia.
  rewrite Z.sub_0_r. change (Z.to_nat 0) with 0%nat. rewrite drop_0. unfold len in *.
  destruct (decide (Z.of_nat i < a)) as [Hi|Hi].
  - replace (_ && _) with false by lia. rewrite lookup_app_l by (rewrite length_take; lia).
    by rewrite lookup_take_lt by lia.
  - rewrite lookup_app_r by (rewrite length_take; lia). rewrite length_take.
    replace (i - Z.to_nat a `min` length l)%nat with (i - Z.to_nat a)%nat by lia.
    destruct (decide (Z.of_nat i < b)) as [Hib|Hib].
    + replace (_ && _) with true by lia. by rewrite lookup_app_l by lia.
    + replace (_ && _) with false by lia. rewrite lookup_app_r, lookup_drop by lia. f_equal. lia.
Qed.

Lemma len_splice a b v l : 0 <= a <= b → b <= len l → len v = b - a → len (splice a b v l) = len l.
Proof.
  intros. unfold splice. rewrite !len_app, len_slice, len_slice_from by lia. lia.
Qed.

Lemma get_Ok l i x : get l i = Ok x → 0 <= i < len l ∧ l !! Z.to_nat i = Some x.
Proof. unfold get. destruct (_ && _) eqn:E; intros; res_inv. split; [lia|done]. Qed.

Lemma get_lookup l i x : 0 <= i → l !! Z.to_nat i = Some x → get l i = Ok x.
Proof.
  intros Hi H. unfold get. assert (i < len l) by (apply lookup_lt_Some in H; unfold len; lia).
  replace (_ && _) with true by lia. by rewrite H.
Qed.

Lemma get_in_range l i : 0 <= i < len l → ∃ x, get l i = Ok x ∧ l !! Z.to_nat i = Some x.
Proof.
  intros. destruct (lookup_lt_is_Some_2 l (Z.to_nat i)) as [x Hx]; [unfold len in *; lia|].
  exists x. split; [apply get_lookup; [lia|done]|done].
Qed.
End slice_lemmas.

Create HintDb len discriminated.
Create Rewrite HintDb len.
#[export] Hint Resolve len_nonneg : len.
Hint Rewrite @len_app @len_nil @len_cons @len_fmap @len_replicate : len.
Ltac len_simpl := autorewrite with len in *.

(** Evaluates a closed decision procedure; witnesses discharge their hypotheses with it. *)
Ltac by_compute := vm_compute; reflexivity.
