(* ===== verification/Bytes.v ===== *)
(** * Bytes, [struct] fields, UUIDs and files

    Byte strings are lists of [Byte.byte]; integers read from them are unbounded [Z] values with their width given by
    the number of bytes. A file is its size and a function from positions to bytes, so a sparse multi-megabyte image
    is a small term and every read names the positions it touches. *)
From S2P Require Import Prelude.

Abbreviation bytes := (list byte).

Definition b2Z (b : byte) : Z := Z.of_N (Byte.to_N b).
Definition Z2b (z : Z) : byte :=
  match Byte.of_N (Z.to_N (z mod 256)) with Some b => b | None => x00 end.

#[export] Instance byte_eq_dec : EqDecision byte := Byte.byte_eq_dec.

(** A bytes literal of the source. *)
Definition blit (s : string) : bytes := String.list_byte_of_string s.

(** [b"\0" * n]. *)
Definition zeros (n : Z) : bytes := replicate (Z.to_nat n) x00.

Lemma b2Z_range b : 0 <= b2Z b < 256.
Proof. unfold b2Z. pose proof (Byte.to_N_bounded b). lia. Qed.

Lemma Z2b_b2Z b : Z2b (b2Z b) = b.
Proof.
  unfold Z2b. pose proof (b2Z_range b). rewrite Z.mod_small by lia. unfold b2Z.
  by rewrite N2Z.id, Byte.of_to_N.
Qed.

Lemma b2Z_Z2b z : b2Z (Z2b z) = z mod 256.
Proof.
  unfold Z2b, b2Z. pose proof (Z.mod_pos_bound z 256 ltac:(lia)).
  destruct (Byte.of_N (Z.to_N (z mod 256))) as [b|] eqn:E.
  - apply Byte.to_of_N in E. rewrite E. lia.
  - apply Byte.of_N_None_iff in E. lia.
Qed.
Lemma b2Z_Z2b_small z : 0 <= z < 256 → b2Z (Z2b z) = z.
Proof. intros. rewrite b2Z_Z2b. by apply Z.mod_small. Qed.

#[export] Instance b2Z_inj : Inj (=) (=) b2Z.
Proof. intros a b H. by rewrite <- (Z2b_b2Z a), H, Z2b_b2Z. Qed.

(** ** Little- and big-endian integers *)

Fixpoint le_decode (l : bytes) : Z :=
  match l with
  | [] => 0
  | b :: l => b2Z b + 256 * le_decode l
  end.

Fixpoint le_encode (n : nat) (z : Z) : bytes :=
  match n with
  | O => []
  | S n => Z2b z :: le_encode n (z / 256)
  end.

Definition be_decode (l : bytes) : Z := le_decode (reverse l).
Definition be_encode (n : nat) (z : Z) : bytes := reverse (le_encode n z).

Lemma length_le_encode n z : length (le_encode n z) = n.
Proof. revert z. induction n; intros; simpl; auto. Qed.

Lemma len_le_encode n z : len (le_encode n z) = Z.of_nat n.
Proof. unfold len. by rewrite length_le_encode. Qed.

Lemma len_be_encode n z : len (be_encode n z) = Z.of_nat n.
Proof. unfold len, be_encode. by rewrite length_reverse, length_le_encode. Qed.

Lemma len_zeros n : 0 <= n → len (zeros n) = n.
Proof. intros. unfold zeros. rewrite len_replicate. lia. Qed.

Lemma zeros_nil n : n <= 0 → zeros n = [].
Proof. intros Hn. unfold zeros. by replace (Z.to_nat n) with O by lia. Qed.

Lemma zeros_app a b : 0 <= a → 0 <= b → zeros (a + b) = zeros a ++ zeros b.
Proof. intros Ha Hb. unfold zeros. rewrite Z2Nat.inj_add by lia. apply replicate_add. Qed.

Lemma le_decode_range l : 0 <= le_decode l < 256 ^ len l.
Proof.
  induction l as [|b l IH]; [unfold len; simpl; lia|].
  pose proof (len_nonneg l). rewrite len_cons, Z.pow_add_r by lia. simpl le_decode.
  pose proof (b2Z_range b). change (256 ^ 1) with 256. lia.
Qed.

Lemma be_decode_range l : 0 <= be_decode l < 256 ^ len l.
Proof.
  unfold be_decode. pose proof (le_decode_range (reverse l)) as H.
  unfold len in *. by rewrite length_reverse in H.
Qed.

Lemma le_decode_encode n z : 0 <= z < 256 ^ Z.of_nat n → le_decode (le_encode n z) = z.
Proof.
  revert z. induction n as [|n IH]; intros z Hz; simpl; [lia|].
  rewrite b2Z_Z2b, IH.
  - pose proof (Z.div_mod z 256). lia.
  - rewrite Nat2Z.inj_succ, Z.pow_succ_r in Hz by lia.
    split; [apply Z.div_pos; lia|]. apply Z.div_lt_upper_bound; lia.
Qed.

Lemma be_decode_encode n z : 0 <= z < 256 ^ Z.of_nat n → be_decode (be_encode n z) = z.
Proof. intros. unfold be_decode, be_encode. rewrite reverse_involutive. by apply le_decode_encode. Qed.

Lemma le_encode_decode l : le_encode (length l) (le_decode l) = l.
Proof.
  induction l as [|b l IH]; simpl; [done|]. f_equal.
  - rewrite <- (Z2b_b2Z b) at 2. unfold Z2b. f_equal. f_equal. f_equal.
    rewrite (Z.mul_comm 256), Z.mod_add by lia. done.
  - rewrite (Z.mul_comm 256), Z.div_add by lia. pose proof (b2Z_range b).
    rewrite Z.div_small by lia. by rewrite Z.add_0_l.
Qed.

Lemma be_encode_decode l : be_encode (length l) (be_decode l) = l.
Proof. unfold be_encode, be_decode. rewrite <- (length_reverse l), le_encode_decode. apply reverse_involutive. Qed.

Lemma le_decode_inj l k : length l = length k → le_decode l = le_decode k → l = k.
Proof. intros Hl H. by rewrite <- (le_encode_decode l), <- (le_encode_decode k), Hl, H. Qed.

(** ** [struct.unpack_from] and [struct.pack], one field at a time *)

Definition unpack_le (n : Z) (raw : bytes) (off : Z) : result Z :=
  if off + n <=? len raw then Ok (le_decode (slice off (off + n) raw)) else Err StructError.

Abbreviation u16 := (unpack_le 2).
Abbreviation u32 := (unpack_le 4).
Abbreviation u64 := (unpack_le 8).

Lemma unpack_le_Ok n raw off :
  off + n <= len raw → unpack_le n raw off = Ok (le_decode (slice off (off + n) raw)).
Proof. intros. unfold unpack_le. by replace (_ <=? _) with true by lia. Qed.

Lemma unpack_le_inv n raw off v :
  unpack_le n raw off = Ok v → off + n <= len raw ∧ v = le_decode (slice off (off + n) raw).
Proof. unfold unpack_le. destruct (_ <=? _) eqn:E; intros; res_inv. split; [lia|done]. Qed.

Lemma unpack_le_range n raw off v :
  0 <= off → 0 <= n → unpack_le n raw off = Ok v → 0 <= v < 256 ^ n.
Proof.
  intros Ho Hn [Hl ->]%unpack_le_inv.
  pose proof (le_decode_range (slice off (off + n) raw)) as H.
  rewrite len_slice in H by lia. by replace (off + n - off) with n in H by lia.
Qed.

Lemma raises_unpack_le P n raw off : off + n <= len raw → raises P (unpack_le n raw off).
Proof. intros. by rewrite unpack_le_Ok. Qed.

(** Reading back a field that was packed between [pre] and [post]. *)
Lemma unpack_le_app pre post n v :
  0 <= v < 256 ^ Z.of_nat n →
  unpack_le (Z.of_nat n) (pre ++ le_encode n v ++ post) (len pre) = Ok v.
Proof.
  intros Hv. rewrite unpack_le_Ok.
  - f_equal. rewrite slice_app_r by lia. rewrite Z.sub_diag.
    replace (len pre + Z.of_nat n - len pre) with (len (le_encode n v)) by (rewrite len_le_encode; lia).
    rewrite slice_app_exact. by apply le_decode_encode.
  - len_simpl. rewrite len_le_encode. pose proof (len_nonneg post). lia.
Qed.

(** ** Hexadecimal text and UUIDs *)

Definition hex_digit (z : Z) : Z := if z <? 10 then 48 + z else 87 + z.
Definition hex_byte (b : byte) : text := [hex_digit (b2Z b / 16); hex_digit (b2Z b mod 16)].

(** [bytes.hex()]. *)
Definition hex (l : bytes) : text := l ≫= hex_byte.

Definition unhex_digit (c : Z) : option Z :=
  if (48 <=? c) && (c <=? 57) then Some (c - 48)
  else if (97 <=? c) && (c <=? 102) then Some (c - 87)
  else if (65 <=? c) && (c <=? 70) then Some (c - 55)
  else None.

(** [bytes.fromhex()] on text without white space. *)
Fixpoint unhex (t : text) : option bytes :=
  match t with
  | [] => Some []
  | [_] => None
  | a :: b :: t =>
      x ← unhex_digit a; y ← unhex_digit b; r ← unhex t; Some (Z2b (16 * x + y) :: r)
  end.

Lemma unhex_hex_digit z : 0 <= z < 16 → unhex_digit (hex_digit z) = Some z.
Proof.
  intros. unfold hex_digit, unhex_digit.
  destruct (z <? 10) eqn:E.
  - replace (_ && _) with true by lia. f_equal. lia.
  - replace (_ && _) with false by lia. replace (_ && _) with true by lia. f_equal. lia.
Qed.

Lemma hex_cons b l : hex (b :: l) = hex_byte b ++ hex l.
Proof. done. Qed.

Lemma unhex_hex l : unhex (hex l) = Some l.
Proof.
  induction l as [|b l IH]; [done|]. rewrite hex_cons. unfold hex_byte. simpl.
  pose proof (b2Z_range b).
  rewrite !unhex_hex_digit by (first [apply Z.mod_pos_bound; lia | split; [apply Z.div_pos; lia|];
    apply Z.div_lt_upper_bound; lia]).
  simpl. rewrite IH. simpl. do 2 f_equal.
  rewrite <- Z.div_mod by lia. apply Z2b_b2Z.
Qed.

#[export] Instance hex_inj : Inj (=) (=) hex.
Proof. intros a b H. apply (f_equal unhex) in H. rewrite !unhex_hex in H. by simplify_eq. Qed.

Lemma len_hex l : len (hex l) = 2 * len l.
Proof. induction l as [|b l IH]; [done|]. rewrite hex_cons. unfold hex_byte. len_simpl. lia. Qed.

(** [uuid.UUID(bytes_le=l)] as its sixteen bytes in big-endian field order. *)
Definition uuid_of_bytes_le (l : bytes) : bytes :=
  reverse (slice 0 4 l) ++ reverse (slice 4 6 l) ++ reverse (slice 6 8 l) ++ slice 8 16 l.

(** [str(uuid)] of a UUID given by its big-endian bytes. *)
Definition uuid_str (u : bytes) : text :=
  hex (slice 0 4 u) ++ lit "-" ++ hex (slice 4 6 u) ++ lit "-" ++ hex (slice 6 8 u) ++ lit "-" ++
  hex (slice 8 10 u) ++ lit "-" ++ hex (slice 10 16 u).

(** [uuid.UUID(s)] of a literal of the source. *)
Definition uuid_lit (s : string) : bytes :=
  default [] (unhex (filter (λ c, c ≠ 45) (lit s))).

(** [uuid.bytes_le]. *)
Definition uuid_bytes_le (u : bytes) : bytes := uuid_of_bytes_le u.

Lemma uuid_bytes_le_involutive l : len l = 16 → uuid_of_bytes_le (uuid_bytes_le l) = l.
Proof.
  intros Hl. unfold len in Hl.
  do 17 (destruct l as [|? l]; [try (simpl in Hl; lia)|]); [|simpl in Hl; lia]. done.
Qed.

Lemma hex_no_dash l : filter (λ c, c ≠ 45) (hex l) = hex l.
Proof.
  induction l as [|b l IH]; [done|]. rewrite hex_cons, filter_app, IH. f_equal.
  unfold hex_byte, hex_digit. pose proof (b2Z_range b).
  pose proof (Z.div_pos (b2Z b) 16). pose proof (Z.mod_pos_bound (b2Z b) 16).
  rewrite !filter_cons_True by (case_match; lia). done.
Qed.

Lemma uuid_str_inj u v : len u = 16 → len v = 16 → uuid_str u = uuid_str v → u = v.
Proof.
  intros Hu Hv. unfold len in Hu, Hv.
  do 17 (destruct u as [|? u]; [try (simpl in Hu; lia)|]); [|simpl in Hu; lia].
  do 17 (destruct v as [|? v]; [try (simpl in Hv; lia)|]); [|simpl in Hv; lia].
  clear. intros H.
  apply (f_equal (λ t : text, unhex (filter (λ c, c ≠ 45) t))) in H.
  unfold uuid_str in H. rewrite !filter_app, !hex_no_dash in H.
  replace (filter (λ c, c ≠ 45) (lit "-")) with (@nil Z) in H by done.
  rewrite !app_nil_l in H. unfold hex in H. rewrite <- !bind_app in H.
  rewrite !(unhex_hex _ : unhex (_ ≫= hex_byte) = _) in H. injection H as H. cbn in H. by simplify_eq.
Qed.

(** ** Files *)

(** A regular file that no other process writes while it is read. *)
Record file := { f_size : Z; f_byte : Z → byte }.

(** [f.seek(off); f.read(n)] for [off] and [n] that are not negative: at most [n] bytes, fewer at the end. *)
Definition fread (f : file) (off n : Z) : bytes :=
  (λ i, f_byte f (off + i)) <$> seqZ 0 (Z.min n (f_size f - off)).

(** [f.read()] of the whole file. *)
Definition contents (f : file) : bytes := fread f 0 (f_size f).

Definition file_of_bytes (l : bytes) : file :=
  {| f_size := len l; f_byte := λ i, default x00 (l !! Z.to_nat i) |}.

Lemma len_fread f off n : 0 <= n → off + n <= f_size f → len (fread f off n) = n.
Proof. intros. unfold fread, len. rewrite length_fmap, length_seqZ. lia. Qed.

Lemma len_fread_le f off n : 0 <= n → len (fread f off n) <= n.
Proof. intros. unfold fread, len. rewrite length_fmap, length_seqZ. lia. Qed.

Lemma lookup_fread f off n (i : nat) :
  Z.of_nat i < n → off + Z.of_nat i < f_size f → fread f off n !! i = Some (f_byte f (off + Z.of_nat i)).
Proof.
  intros. unfold fread. rewrite list_lookup_fmap, lookup_seqZ_lt by lia. simpl. by rewrite Z.add_0_l.
Qed.

Lemma fread_app f off n m :
  0 <= n → 0 <= m → off + n + m <= f_size f →
  fread f off (n + m) = fread f off n ++ fread f (off + n) m.
Proof.
  intros. apply list_eq. intros i. destruct (decide (Z.of_nat i < n)) as [Hi|Hi].
  - rewrite lookup_app_l by (pose proof (len_fread f off n); unfold len in *; lia).
    by rewrite !lookup_fread by lia.
  - assert (Hl : len (fread f off n) = n) by (apply len_fread; lia).
    unfold len in Hl. rewrite lookup_app_r by lia. destruct (decide (Z.of_nat i < n + m)) as [Hm|Hm].
    + rewrite !lookup_fread by lia. do 2 f_equal. lia.
    + rewrite !lookup_ge_None_2; [done|..]; unfold fread in *; rewrite ?length_fmap, ?length_seqZ in *; lia.
Qed.

Lemma fread_full f off n : 0 < n → len (fread f off n) = n → off + n <= f_size f.
Proof. intros Hn. unfold fread, len. rewrite length_fmap, length_seqZ. lia. Qed.

Lemma fread_nil f off n : n <= 0 → fread f off n = [].
Proof.
  intros. apply nil_length_inv. unfold fread. rewrite length_fmap, length_seqZ. lia.
Qed.

Lemma contents_file_of_bytes l : contents (file_of_bytes l) = l.
Proof.
  apply list_eq. intros i. unfold contents.
  destruct (decide (i < length l)%nat) as [Hi|Hi].
  - rewrite lookup_fread by (simpl; unfold len; lia).
    unfold file_of_bytes; cbn [f_byte]. rewrite Z.add_0_l, Nat2Z.id. destruct (lookup_lt_is_Some_2 l i Hi) as [x Hx]. by rewrite Hx.
  - rewrite !lookup_ge_None_2; [done|lia|].
    unfold fread. rewrite length_fmap, length_seqZ. simpl. unfold len. lia.
Qed.

Lemma slice_fread f off n a b :
  0 <= a → a <= b → b <= n → off + n <= f_size f → slice a b (fread f off n) = fread f (off + a) (b - a).
Proof.
  intros. apply list_eq. intros i. destruct (decide (Z.of_nat i < b - a)) as [Hi|Hi].
  - rewrite slice_lookup by lia. rewrite !lookup_fread by lia. do 2 f_equal. lia.
  - rewrite !lookup_ge_None_2; [done|..].
    + unfold fread. rewrite length_fmap, length_seqZ. lia.
    + pose proof (len_slice_le a b (fread f off n)). unfold len in *. lia.
Qed.

Hint Rewrite len_le_encode len_be_encode : len.
