(* ===== verification/PyText.v ===== *)
(** * Python [str] methods and codecs on code points

    A [text] is a list of code points. White space and line boundaries are the full Unicode sets of [str.isspace] and
    [str.splitlines]. Case mapping, [isdigit], [isalpha] and decimal values are exact for ASCII; beyond ASCII they are
    the interface [Ucd], the Unicode character database of the interpreter. *)
From stdpp Require Import pretty.
From S2P Require Import Prelude Bytes.

Class Ucd := {
  ucd_isdigit : Z → bool;
  ucd_isalpha : Z → bool;
  ucd_decimal : Z → option Z;
  ucd_lower : Z → text;
  ucd_upper : Z → text;
  ucd_cased : Z → bool;
  ucd_case_ignorable : Z → bool;
}.

(** An interpreter whose database knows only ASCII. *)
Definition ascii_ucd : Ucd := {|
  ucd_isdigit := λ _, false; ucd_isalpha := λ _, false; ucd_decimal := λ _, None;
  ucd_lower := λ c, [c]; ucd_upper := λ c, [c]; ucd_cased := λ _, false; ucd_case_ignorable := λ _, false |}.

(** ** Character classes *)

Definition is_ascii (c : Z) : bool := c <? 128.
Definition ascii_digit (c : Z) : bool := (48 <=? c) && (c <=? 57).
Definition ascii_lower (c : Z) : bool := (97 <=? c) && (c <=? 122).
Definition ascii_upper (c : Z) : bool := (65 <=? c) && (c <=? 90).

(** [str.isspace] of one character. *)
Definition isspace (c : Z) : bool :=
  ((9 <=? c) && (c <=? 13)) || ((28 <=? c) && (c <=? 32)) || (c =? 133) || (c =? 160) || (c =? 5760) ||
  ((8192 <=? c) && (c <=? 8202)) || (c =? 8232) || (c =? 8233) || (c =? 8239) || (c =? 8287) || (c =? 12288).

(** The line boundaries of [str.splitlines]. *)
Definition is_linebreak (c : Z) : bool :=
  ((10 <=? c) && (c <=? 13)) || ((28 <=? c) && (c <=? 30)) || (c =? 133) || (c =? 8232) || (c =? 8233).

Section ucd.
Context `{Ucd}.

(** [str.isdigit] and [str.isalpha] of one character. *)
Definition isdigit (c : Z) : bool := if is_ascii c then ascii_digit c else ucd_isdigit c.
Definition isalpha (c : Z) : bool := if is_ascii c then ascii_lower c || ascii_upper c else ucd_isalpha c.

Definition lower_char (c : Z) : text :=
  if is_ascii c then [if ascii_upper c then c + 32 else c] else ucd_lower c.
Definition upper_char (c : Z) : text :=
  if is_ascii c then [if ascii_lower c then c - 32 else c] else ucd_upper c.

Definition cased (c : Z) : bool := if is_ascii c then ascii_lower c || ascii_upper c else ucd_cased c.
Definition case_ignorable (c : Z) : bool :=
  if is_ascii c then bool_decide (c ∈ [39; 46; 58; 94; 96]) else ucd_case_ignorable c.

(** The first character that is not case-ignorable is cased. *)
Fixpoint next_cased (t : text) : bool :=
  match t with [] => false | c :: t => if case_ignorable c then next_cased t else cased c end.

(** [str.lower], [before] being the text read so far, in reverse: a capital sigma that ends a word becomes a final sigma. *)
Fixpoint lower_after (before t : text) : text :=
  match t with
  | [] => []
  | c :: t =>
      (if c =? 0x3A3 then [if next_cased before && negb (next_cased t) then 0x3C2 else 0x3C3] else lower_char c) ++
      lower_after (c :: before) t
  end.
Definition lower (t : text) : text := lower_after [] t.

(** [str.upper]. *)
Definition upper (t : text) : text := t ≫= upper_char.

(** [str.isdigit]: not empty and only digits. *)
Definition all_digits (t : text) : bool := negb (bool_decide (t = [])) && forallb isdigit t.

(** The value of a decimal digit for [int]. *)
Definition decimal_value (c : Z) : option Z :=
  if is_ascii c then (if ascii_digit c then Some (c - 48) else None) else ucd_decimal c.

Fixpoint int_digits (acc : Z) (after_digit : bool) (t : text) : option Z :=
  match t with
  | [] => if after_digit then Some acc else None
  | c :: t =>
      if c =? 95 then (if after_digit then int_digits acc false t else None)
      else d ← decimal_value c; int_digits (10 * acc + d) true t
  end.
End ucd.

(** ** Searching and splitting *)

Definition startswith (t p : text) : bool := bool_decide (p `prefix_of` t).
Definition endswith (t p : text) : bool := bool_decide (p `suffix_of` t).

(** [p in t] for strings. *)
Fixpoint contains (p t : text) : bool :=
  startswith t p || match t with [] => false | _ :: t => contains p t end.

Definition lstrip_by (f : Z → bool) : text → text :=
  fix go t := match t with [] => [] | c :: t' => if f c then go t' else t end.
(** The longest prefix of characters that satisfy [f]. *)
Definition take_while (f : Z → bool) : text → text :=
  fix go t := match t with c :: t' => if f c then c :: go t' else [] | [] => [] end.

Definition rstrip_by (f : Z → bool) (t : text) : text := reverse (lstrip_by f (reverse t)).
Definition lstrip (t : text) : text := lstrip_by isspace t.
Definition rstrip (t : text) : text := rstrip_by isspace t.
Definition strip (t : text) : text := rstrip (lstrip t).

(** [t.split(sep)] for a one-character separator: the fields, empty ones included. *)
Fixpoint split_on (sep : Z) (t : text) : list text :=
  match t with
  | [] => [[]]
  | c :: t =>
      if c =? sep then [] :: split_on sep t
      else match split_on sep t with
           | f :: fs => (c :: f) :: fs
           | [] => [[c]]
           end
  end.

(** [t.split()]: the fields between runs of white space. *)
Fixpoint split_ws_aux (cur : text) (t : text) : list text :=
  match t with
  | [] => if bool_decide (cur = []) then [] else [reverse cur]
  | c :: t =>
      if isspace c then (if bool_decide (cur = []) then split_ws_aux [] t else reverse cur :: split_ws_aux [] t)
      else split_ws_aux (c :: cur) t
  end.
Definition split_ws (t : text) : list text := split_ws_aux [] t.

(** [t.partition(sep)] for a one-character separator, with [None] when the separator is absent. *)
Fixpoint partition_on (sep : Z) (t : text) : text * option text :=
  match t with
  | [] => ([], None)
  | c :: t => if c =? sep then ([], Some t) else let '(a, b) := partition_on sep t in (c :: a, b)
  end.

(** [t.split(sep, n)] for a one-character separator. *)
Fixpoint split_max (n : nat) (sep : Z) (t : text) : list text :=
  match n with
  | O => [t]
  | S n =>
      match partition_on sep t with
      | (a, Some b) => a :: split_max n sep b
      | (a, None) => [a]
      end
  end.

(** [t.rpartition(sep)]: the text before the last separator, if any, and the text after it. *)
Definition rpartition_on (sep : Z) (t : text) : option text * text :=
  let '(a, b) := partition_on sep (reverse t) in (reverse <$> b, reverse a).

(** [str.splitlines()]; [cur] is the reversed line so far, and CR LF is one boundary. *)
Fixpoint splitlines_aux (cur : text) (t : text) : list text :=
  match t with
  | [] => if bool_decide (cur = []) then [] else [reverse cur]
  | c :: t =>
      if is_linebreak c then
        reverse cur :: match t with
                       | d :: t' => if (c =? 13) && (d =? 10) then splitlines_aux [] t' else splitlines_aux [] t
                       | [] => []
                       end
      else splitlines_aux (c :: cur) t
  end.
Definition splitlines (t : text) : list text := splitlines_aux [] t.

(** [sep.join(parts)]. *)
Fixpoint join (sep : text) (parts : list text) : text :=
  match parts with
  | [] => []
  | [p] => p
  | p :: ps => p ++ sep ++ join sep ps
  end.

(** [t.replace(c, by)] for a one-character [c]. *)
Definition replace_char (c : Z) (by_ : text) (t : text) : text := t ≫= λ x, if x =? c then by_ else [x].

Definition removesuffix (t p : text) : text := if endswith t p then take (length t - length p) t else t.

(** The white space that [int] strips: that of [str.isspace], but in ASCII text only that of C's [isspace]. *)
Definition int_space (t : text) (c : Z) : bool := if forallb is_ascii t then ((9 <=? c) && (c <=? 13)) || (c =? 32) else isspace c.
Definition int_strip (t : text) : text := rstrip_by (int_space t) (lstrip_by (int_space t) t).

(** [int(t)] for decimal text; [None] stands for its [ValueError]. *)
Definition py_int `{Ucd} (t : text) : option Z :=
  match int_strip t with
  | 43 :: t => int_digits 0 false t
  | 45 :: t => Z.opp <$> int_digits 0 false t
  | t => int_digits 0 false t
  end.

(** [str(n)] of an integer. *)
Definition dec (z : Z) : text := lit (pretty z).

(** ** Codecs *)

(** [bytes.decode("ascii")], with [None] for [UnicodeDecodeError]. *)
Definition ascii_decode (l : bytes) : option text :=
  if forallb (λ b, b2Z b <? 128) l then Some (b2Z <$> l) else None.

(** Little-endian UTF-16 code units; [None] for an odd number of bytes. *)
Fixpoint utf16_units (l : bytes) : option (list Z) :=
  match l with
  | [] => Some []
  | [_] => None
  | a :: b :: l => us ← utf16_units l; Some (b2Z a + 256 * b2Z b :: us)
  end.

Definition is_high (u : Z) : bool := (0xD800 <=? u) && (u <? 0xDC00).
Definition is_low (u : Z) : bool := (0xDC00 <=? u) && (u <? 0xE000).

(** Code points of UTF-16 units. [bad] gives what replaces an unpaired surrogate, or [None] to fail. *)
Fixpoint utf16_points (bad : option Z) (us : list Z) : option text :=
  match us with
  | [] => Some []
  | u :: us =>
      if is_high u then
        match us with
        | v :: us' =>
            if is_low v
            then ts ← utf16_points bad us'; Some (0x10000 + (u - 0xD800) * 0x400 + (v - 0xDC00) :: ts)
            else r ← bad; ts ← utf16_points bad us; Some (r :: ts)
        | [] => r ← bad; Some [r]
        end
      else if is_low u then r ← bad; ts ← utf16_points bad us; Some (r :: ts)
      else ts ← utf16_points bad us; Some (u :: ts)
  end.

(** [bytes.decode("utf-16-le")]. *)
Definition utf16le_decode (l : bytes) : option text := us ← utf16_units l; utf16_points None us.

(** The number of UTF-16 code units of a text: [len(t.encode("utf-16-le")) // 2]. *)
Definition utf16_length (t : text) : Z := foldr (λ c n, (if 0x10000 <=? c then 2 else 1) + n) 0 t.

(** [t.encode("utf-16-le")] for code points below [0x10000] that are no surrogates. *)
Definition utf16le_encode_bmp (t : text) : bytes := t ≫= le_encode 2.

(** [bytes.decode("utf-8")]. *)
Definition cont (b : byte) : option Z :=
  let z := b2Z b in if (0x80 <=? z) && (z <? 0xC0) then Some (z - 0x80) else None.

Fixpoint utf8_decode (l : bytes) : option text :=
  match l with
  | [] => Some []
  | a :: l =>
      let z := b2Z a in
      if z <? 0x80 then ts ← utf8_decode l; Some (z :: ts)
      else if (0xC2 <=? z) && (z <? 0xE0) then
        match l with
        | b :: l => x ← cont b; ts ← utf8_decode l; Some ((z - 0xC0) * 64 + x :: ts)
        | _ => None
        end
      else if (0xE0 <=? z) && (z <? 0xF0) then
        match l with
        | b :: c :: l =>
            x ← cont b; y ← cont c;
            let p := (z - 0xE0) * 4096 + x * 64 + y in
            if (p <? 0x800) || ((0xD800 <=? p) && (p <? 0xE000)) then None
            else ts ← utf8_decode l; Some (p :: ts)
        | _ => None
        end
      else if (0xF0 <=? z) && (z <? 0xF5) then
        match l with
        | b :: c :: d :: l =>
            x ← cont b; y ← cont c; w ← cont d;
            let p := (z - 0xF0) * 262144 + x * 4096 + y * 64 + w in
            if (p <? 0x10000) || (0x10FFFF <? p) then None
            else ts ← utf8_decode l; Some (p :: ts)
        | _ => None
        end
      else None
  end.

(** [bytes.decode("utf-8", "replace")]: a maximal prefix of a sequence that is cut short becomes one U+FFFD. [pending] is
    the value read so far and the ranges of the bytes that have to follow. *)
Definition utf8_lead (z : Z) : option (Z * list (Z * Z)) :=
  let any := (0x80, 0xBF) in
  if (0xC2 <=? z) && (z <? 0xE0) then Some (z - 0xC0, [any])
  else if z =? 0xE0 then Some (0, [(0xA0, 0xBF); any])
  else if z =? 0xED then Some (13, [(0x80, 0x9F); any])
  else if (0xE1 <=? z) && (z <? 0xF0) then Some (z - 0xE0, [any; any])
  else if z =? 0xF0 then Some (0, [(0x90, 0xBF); any; any])
  else if (0xF1 <=? z) && (z <? 0xF4) then Some (z - 0xF0, [any; any; any])
  else if z =? 0xF4 then Some (4, [(0x80, 0x8F); any; any])
  else None.
Fixpoint utf8_replace_from (pending : option (Z * list (Z * Z))) (l : bytes) : text :=
  match l with
  | [] => match pending with Some _ => [0xFFFD] | None => [] end
  | b :: l =>
      let z := b2Z b in
      let start :=
        if z <? 0x80 then z :: utf8_replace_from None l
        else match utf8_lead z with
             | Some p => utf8_replace_from (Some p) l
             | None => 0xFFFD :: utf8_replace_from None l
             end in
      match pending with
      | Some (acc, (lo, hi) :: more) =>
          if (lo <=? z) && (z <=? hi) then
            let acc := acc * 64 + (z - 0x80) in
            match more with
            | [] => acc :: utf8_replace_from None l
            | _ => utf8_replace_from (Some (acc, more)) l
            end
          else 0xFFFD :: start
      | _ => start
      end
  end.
Definition utf8_replace (l : bytes) : text := utf8_replace_from None l.

(** [t.encode("utf-8")] of code points that are no surrogates. *)
Definition utf8_char (c : Z) : bytes :=
  Z2b <$>
  (if c <? 0x80 then [c]
   else if c <? 0x800 then [0xC0 + c / 64; 0x80 + c mod 64]
   else if c <? 0x10000 then [0xE0 + c / 4096; 0x80 + c / 64 mod 64; 0x80 + c mod 64]
   else [0xF0 + c / 262144; 0x80 + c / 4096 mod 64; 0x80 + c / 64 mod 64; 0x80 + c mod 64]).
Definition utf8_encode (t : text) : bytes := t ≫= utf8_char.

(** A Unicode scalar value: a code point that is no surrogate. *)
Definition is_scalar (c : Z) : bool := ((0 <=? c) && (c <? 0xD800)) || ((0xE000 <=? c) && (c <? 0x110000)).

(** ** Lemmas *)

Lemma startswith_app p t : startswith (p ++ t) p = true.
Proof. apply bool_decide_eq_true. by exists t. Qed.

Lemma startswith_spec t p : startswith t p = true ↔ ∃ s, t = p ++ s.
Proof. unfold startswith. by rewrite bool_decide_eq_true. Qed.

Lemma contains_spec p t : contains p t = true ↔ ∃ a b, t = a ++ p ++ b.
Proof.
  induction t as [|c t IH]; cbn [contains]; rewrite orb_true_iff, startswith_spec.
  - split; [intros [[s Hs]|]; [by exists [], s|done]|].
    intros (a & b & Hab). left. symmetry in Hab. apply app_nil in Hab as [-> Hab].
    apply app_nil in Hab as [-> ->]. by exists [].
  - rewrite IH. split.
    + intros [[s Hs]|(a & b & ->)]; [by exists [], s|]. by exists (c :: a), b.
    + intros ([|c' a] & b & Hab); [left; by exists b|]. right. simpl in Hab. simplify_eq. by exists a, b.
Qed.

Lemma split_on_not_nil sep t : split_on sep t ≠ [].
Proof. destruct t as [|c t]; simpl; [done|]. repeat case_match; done. Qed.

Lemma join_split_on sep t : join [sep] (split_on sep t) = t.
Proof.
  induction t as [|c t IH]; [done|]. simpl.
  pose proof (split_on_not_nil sep t). destruct (split_on sep t) as [|f fs]; [done|].
  destruct (c =? sep) eqn:E.
  - apply Z.eqb_eq in E as ->. simpl in *. by rewrite IH.
  - destruct fs; simpl in *; by rewrite IH.
Qed.

Lemma split_on_no_sep sep t : Forall (λ f, sep ∉ f) (split_on sep t).
Proof.
  induction t as [|c t IH]; simpl; [repeat constructor; apply not_elem_of_nil|].
  destruct (c =? sep) eqn:E; [constructor; [apply not_elem_of_nil|done]|]. apply Z.eqb_neq in E.
  destruct (split_on sep t) as [|g gs]; inv IH; repeat constructor; auto;
    apply not_elem_of_cons; auto using not_elem_of_nil.
Qed.

Lemma split_on_absent sep t : sep ∉ t → split_on sep t = [t].
Proof.
  induction t as [|c t IH]; intros Hn; simpl; [done|].
  rewrite IH by set_solver. destruct (Z.eqb_spec c sep); [set_solver|done].
Qed.

Lemma split_on_app sep a t : sep ∉ a → split_on sep (a ++ sep :: t) = a :: split_on sep t.
Proof.
  induction a as [|c a IH]; intros Hn; simpl; [by rewrite Z.eqb_refl|].
  rewrite IH by set_solver. destruct (Z.eqb_spec c sep); [set_solver|done].
Qed.

Lemma join_cons2 sep p q ps : join sep (p :: q :: ps) = p ++ sep ++ join sep (q :: ps).
Proof. done. Qed.

Lemma join_app1 sep cs d ds : cs ≠ [] → join sep (cs ++ d :: ds) = join sep cs ++ sep ++ join sep (d :: ds).
Proof.
  induction cs as [|c [|c' cs] IH]; intros Hne; [done|done|].
  rewrite <- app_comm_cons. cbn [app] in *. rewrite !join_cons2, IH by done. by rewrite <- !app_assoc.
Qed.

Lemma split_on_join sep cs : cs ≠ [] → Forall (λ c, sep ∉ c) cs → split_on sep (join [sep] cs) = cs.
Proof.
  induction cs as [|c [|d ds] IH]; intros Hne Hcs; [done| |]; inv Hcs.
  - by apply split_on_absent.
  - rewrite join_cons2. cbn [app]. rewrite split_on_app by done. f_equal. by apply IH.
Qed.

Lemma partition_on_Some sep t a b : partition_on sep t = (a, Some b) ↔ t = a ++ sep :: b ∧ sep ∉ a.
Proof.
  revert a. induction t as [|c t IH]; intros a; simpl.
  - split; [done|]. intros [H _]. by destruct a.
  - destruct (Z.eqb_spec c sep) as [->|Hne].
    + split; [intros; simplify_eq; split; [done|set_solver]|].
      intros [Heq Hn]. destruct a as [|x a]; simpl in *; simplify_eq; [done|set_solver].
    + destruct (partition_on sep t) as [a' b'] eqn:E. split.
      * intros; simplify_eq. destruct (proj1 (IH a')) as [-> ?]; [done|]. split; [done|]. by apply not_elem_of_cons.
      * intros [Heq Hn]. destruct a as [|x a]; simpl in *; simplify_eq.
        apply not_elem_of_cons in Hn as [_ Hn]. pose proof (proj2 (IH a) (conj eq_refl Hn)). by simplify_eq.
Qed.

Lemma partition_on_None sep t a : partition_on sep t = (a, None) ↔ a = t ∧ sep ∉ t.
Proof.
  revert a. induction t as [|c t IH]; intros a; simpl; [split; [intros; simplify_eq; set_solver|naive_solver]|].
  destruct (Z.eqb_spec c sep) as [->|Hne]; [split; [done|set_solver]|].
  destruct (partition_on sep t) as [a' b'] eqn:E. split.
  - intros; simplify_eq. destruct (proj1 (IH a')) as [-> ?]; [done|]. split; [done|]. by apply not_elem_of_cons.
  - intros [-> Hn]. apply not_elem_of_cons in Hn as [_ Hn]. pose proof (proj2 (IH t) (conj eq_refl Hn)). by simplify_eq.
Qed.

Lemma lstrip_by_nil f t : lstrip_by f t = [] ↔ Forall (λ c, f c = true) t.
Proof.
  induction t as [|c t IH]; simpl; [done|]. rewrite Forall_cons. destruct (f c) eqn:E; [rewrite IH; tauto|].
  split; [done|]. by intros [? _].
Qed.

Lemma lstrip_by_suffix f t : ∃ a, t = a ++ lstrip_by f t ∧ Forall (λ c, f c = true) a.
Proof.
  induction t as [|c t (a & Ha & Hf)]; simpl; [by exists []|]. destruct (f c) eqn:E; [|by exists []].
  exists (c :: a). split; [by rewrite Ha at 1|by constructor].
Qed.

(** What is stripped, and where it ends. *)
Lemma lstrip_by_iff f t u : lstrip_by f t = u ↔ ∃ a, t = a ++ u ∧ Forall (λ c, f c = true) a ∧ ∀ c, head u = Some c → f c = false.
Proof.
  split.
  - intros <-. destruct (lstrip_by_suffix f t) as (a & Ha & Hf). exists a. split; [done|]. split; [done|]. clear Ha Hf.
    induction t as [|x t IH]; cbn; [done|]. destruct (f x) eqn:E; [done|]. by intros c [= <-].
  - intros (a & -> & Ha & Hu). induction Ha as [|x a Hx Ha IH]; cbn; [|by rewrite Hx].
    destruct u as [|y u]; [done|]. cbn. by rewrite (Hu y eq_refl).
Qed.

Lemma rstrip_by_iff f t u : rstrip_by f t = u ↔ ∃ b, t = u ++ b ∧ Forall (λ c, f c = true) b ∧ ∀ c, last u = Some c → f c = false.
Proof.
  unfold rstrip_by. rewrite <- (reverse_involutive u) at 1. rewrite (inj_iff reverse), lstrip_by_iff. setoid_rewrite head_reverse. split.
  - intros (a & Ha & Hf & Hu). exists (reverse a). split; [|split; [by apply Forall_reverse|done]].
    by rewrite <- (reverse_involutive t), Ha, reverse_app, reverse_involutive.
  - intros (b & -> & Hf & Hu). exists (reverse b). split; [by rewrite reverse_app|split; [by apply Forall_reverse|done]].
Qed.

Lemma take_while_lstrip f t : t = take_while f t ++ lstrip_by f t.
Proof. induction t as [|c t IH]; cbn; [done|]. destruct (f c); [|done]. cbn. by rewrite <- IH. Qed.

Lemma take_while_forall f t : Forall (λ c, f c = true) (take_while f t).
Proof. induction t as [|c t IH]; cbn; [done|]. destruct (f c) eqn:E; by constructor. Qed.

Lemma strip_nil t : strip t = [] ↔ Forall (λ c, isspace c = true) t.
Proof.
  unfold strip, rstrip, rstrip_by, lstrip.
  rewrite <- (reverse_involutive []), (inj_iff reverse), lstrip_by_nil, Forall_reverse.
  destruct (lstrip_by_suffix isspace t) as (a & Ha & Hf). split; intros Hall.
  - rewrite Ha. by apply Forall_app.
  - rewrite Ha in Hall. by apply Forall_app in Hall as [_ Hall].
Qed.

Lemma strip_space c t : isspace c = true → strip (c :: t) = strip t.
Proof. intros Hc. unfold strip, lstrip. simpl. by rewrite Hc. Qed.

Lemma splitlines_aux_plain cur c t : is_linebreak c = false → splitlines_aux cur (c :: t) = splitlines_aux (c :: cur) t.
Proof.
  intros Hc. simpl. by rewrite Hc.
Qed.

Lemma splitlines_line l t :
  Forall (λ c, is_linebreak c = false) l → splitlines (l ++ 10 :: t) = l :: splitlines t.
Proof.
  intros Hl. unfold splitlines.
  assert (Hgen : ∀ cur, splitlines_aux cur (l ++ 10 :: t) = (reverse cur ++ l) :: splitlines_aux [] t); [|apply Hgen].
  induction Hl as [|c l Hc Hl IH]; intros cur; [rewrite app_nil_r; by destruct t|].
  rewrite <- app_comm_cons, splitlines_aux_plain, IH by done. rewrite reverse_cons. by rewrite <- (assoc_L (++)).
Qed.

Lemma splitlines_lines (ls : list text) :
  Forall (Forall (λ c, is_linebreak c = false)) ls → splitlines (ls ≫= λ l, l ++ [10]) = ls.
Proof.
  induction 1 as [|l ls Hl Hls IH]; [done|]. rewrite bind_cons, <- (assoc_L (++)). simpl.
  by rewrite splitlines_line, IH.
Qed.

Abbreviation plain := (Forall (λ c : Z, is_linebreak c = false)).

Lemma splitlines_aux_no_breaks n cur t : (length t < n)%nat → plain cur → Forall plain (splitlines_aux cur t).
Proof.
  revert cur t. induction n as [|n IH]; intros cur t Hn Hcur; [lia|]. destruct t as [|c t]; cbn in *.
  - case_bool_decide; constructor; [|constructor]. by rewrite Forall_reverse.
  - destruct (is_linebreak c) eqn:Hc; [|apply IH; [lia|by constructor]]. constructor; [by rewrite Forall_reverse|].
    destruct t as [|d t]; [constructor|]. cbn [length] in Hn.
    destruct (_ && _); apply IH; cbn [length]; auto; lia.
Qed.

Lemma splitlines_no_breaks t : Forall plain (splitlines t).
Proof. apply (splitlines_aux_no_breaks (S (length t))); [lia|constructor]. Qed.

Lemma join_lines ls l : join [10] (ls ++ [l]) ++ [10] = (ls ++ [l]) ≫= λ l, l ++ [10].
Proof.
  induction ls as [|k ls IH]; [cbn; by rewrite app_nil_r|]. rewrite <- app_comm_cons, bind_cons, <- IH.
  destruct ls as [|k' ls]; cbn [app]; rewrite join_cons2; by rewrite <- !app_assoc.
Qed.

Lemma take_while_all f t u c : Forall (λ c, f c = true) t → f c = false → take_while f (t ++ c :: u) = t.
Proof. induction 1 as [|x t Hx Ht IH]; intros Hc; simpl; [by rewrite Hc|]. by rewrite Hx, IH. Qed.

(** What splits a text at its first non-[f] character does not see what follows it. *)
Lemma lstrip_by_app f t u : lstrip_by f (t ++ u) = if bool_decide (lstrip_by f t = []) then lstrip_by f u else lstrip_by f t ++ u.
Proof. induction t as [|c t IH]; simpl; [done|]. by destruct (f c). Qed.
Lemma take_while_app f t u :
  take_while f (t ++ u) = if bool_decide (lstrip_by f t = []) then t ++ take_while f u else take_while f t.
Proof. induction t as [|c t IH]; simpl; [done|]. destruct (f c); [|done]. rewrite IH. by case_bool_decide. Qed.
Lemma take_while_full f t : lstrip_by f t = [] → take_while f t = t.
Proof. induction t as [|c t IH]; simpl; [done|]. destruct (f c); [|done]. intros. by rewrite IH. Qed.

Lemma length_lstrip f t : (length (lstrip_by f t) ≤ length t)%nat.
Proof. induction t as [|c t IH]; simpl; [lia|]. destruct (f c); simpl; lia. Qed.

Lemma cont_Z2b x : 0 <= x < 64 → cont (Z2b (0x80 + x)) = Some x.
Proof. intros Hx. unfold cont. rewrite b2Z_Z2b_small by lia. replace (_ && _) with true by lia. f_equal. lia. Qed.

Lemma utf8_decode_char c l : is_scalar c = true → utf8_decode (utf8_char c ++ l) = ts ← utf8_decode l; Some (c :: ts).
Proof.
  unfold is_scalar, utf8_char. intros Hc.
  pose proof (Z.div_mod c 64 ltac:(lia)). pose proof (Z.mod_pos_bound c 64 ltac:(lia)).
  pose proof (Z.div_mod (c / 64) 64 ltac:(lia)). pose proof (Z.mod_pos_bound (c / 64) 64 ltac:(lia)).
  pose proof (Z.div_mod (c / 4096) 64 ltac:(lia)). pose proof (Z.mod_pos_bound (c / 4096) 64 ltac:(lia)).
  assert (c / 64 / 64 = c / 4096) by (by rewrite Z.div_div by lia).
  assert (c / 4096 / 64 = c / 262144) by (by rewrite Z.div_div by lia).
  destruct (c <? 0x80) eqn:E1; [|destruct (c <? 0x800) eqn:E2; [|destruct (c <? 0x10000) eqn:E3]];
    cbn [fmap list_fmap app utf8_decode].
  - rewrite b2Z_Z2b_small by lia. by rewrite E1.
  - rewrite b2Z_Z2b_small by lia. replace (_ <? 0x80) with false by lia. replace (_ && _) with true by lia.
    rewrite cont_Z2b by lia. cbn [mbind option_bind]. destruct (utf8_decode l); [|done]. cbn [mbind option_bind]. do 2 f_equal. lia.
  - rewrite b2Z_Z2b_small by lia. replace (_ <? 0x80) with false by lia.
    replace ((0xC2 <=? 0xE0 + _) && _) with false by lia. replace ((0xE0 <=? 0xE0 + _) && _) with true by lia.
    rewrite !cont_Z2b by lia. cbn [mbind option_bind].
    replace ((0xE0 + c / 4096 - 0xE0) * 4096 + c / 64 mod 64 * 64 + c mod 64) with c by lia.
    replace (_ || _) with false by lia. by destruct (utf8_decode l).
  - rewrite b2Z_Z2b_small by lia. replace (_ <? 0x80) with false by lia.
    replace ((0xC2 <=? 0xF0 + _) && _) with false by lia. replace ((0xE0 <=? 0xF0 + _) && _) with false by lia.
    replace ((0xF0 <=? 0xF0 + _) && _) with true by lia.
    rewrite !cont_Z2b by lia. cbn [mbind option_bind].
    replace ((0xF0 + c / 262144 - 0xF0) * 262144 + c / 4096 mod 64 * 4096 + c / 64 mod 64 * 64 + c mod 64) with c by lia.
    replace (_ || _) with false by lia. by destruct (utf8_decode l).
Qed.

Lemma utf8_round_trip t : forallb is_scalar t = true → utf8_decode (utf8_encode t) = Some t.
Proof.
  unfold utf8_encode. induction t as [|c t IH]; [done|]. cbn [forallb]. intros Ht. bool_inv.
  rewrite bind_cons, utf8_decode_char by done. by rewrite IH.
Qed.

Lemma ascii_round_trip t : Forall (λ c, 0 <= c < 128) t → ascii_decode (Z2b <$> t) = Some t.
Proof.
  intros Ht. unfold ascii_decode. replace (b2Z <$> (Z2b <$> t)) with t.
  - replace (forallb _ _) with true; [done|]. symmetry. apply forallb_forall. intros b Hb%list_elem_of_In.
    apply list_elem_of_fmap in Hb as (c & -> & Hc). rewrite Forall_forall in Ht. specialize (Ht c Hc). simpl in Ht. rewrite b2Z_Z2b_small; lia.
  - rewrite <- list_fmap_compose. symmetry. rewrite <- (list_fmap_id t) at 2. apply list_fmap_ext. intros i c Hc. simpl.
    apply list_elem_of_lookup_2 in Hc. rewrite Forall_forall in Ht. specialize (Ht c Hc). simpl in Ht. rewrite b2Z_Z2b_small by lia. done.
Qed.

(** ** The order of [sorted] on strings *)

Fixpoint text_leb (a b : text) : bool :=
  match a, b with
  | [], _ => true
  | _ :: _, [] => false
  | x :: a, y :: b => (x <? y) || ((x =? y) && text_leb a b)
  end.
Definition text_le (a b : text) : Prop := text_leb a b = true.

#[export] Instance text_le_dec a b : Decision (text_le a b).
Proof. unfold text_le. apply _. Defined.

Lemma text_le_cons x a y b : text_le (x :: a) (y :: b) ↔ x < y ∨ (x = y ∧ text_le a b).
Proof. unfold text_le. simpl. rewrite orb_true_iff, andb_true_iff. lia. Qed.

#[export] Instance text_le_refl : Reflexive text_le.
Proof. intros a. induction a; [done|]. apply text_le_cons. auto. Qed.
#[export] Instance text_le_trans : Transitive text_le.
Proof.
  intros a. induction a as [|x a IH]; intros [|y b] [|z c]; try done.
  rewrite !text_le_cons. intros [?|[-> ?]] [?|[-> ?]]; [lia..|]. right. split; [done|]. by eapply IH.
Qed.
#[export] Instance text_le_total : Total text_le.
Proof.
  intros a. induction a as [|x a IH]; intros [|y b]; try (by left); try (by right).
  rewrite !text_le_cons. destruct (Z.lt_trichotomy x y) as [?|[->|?]]; [by left; left| |by right; left].
  destruct (IH b); [left|right]; by right.
Qed.
#[export] Instance text_le_antisym : AntiSymm (=) text_le.
Proof.
  intros a. induction a as [|x a IH]; intros [|y b]; try done.
  rewrite !text_le_cons. intros [?|[-> ?]] [?|[? ?]]; try lia. f_equal. by apply IH.
Qed.

(** [sorted(ts)]. *)
Definition sorted_texts (ts : list text) : list text := merge_sort text_le ts.

(** Universal newlines of text-mode reads. *)
Fixpoint universal_newlines (t : text) : text :=
  match t with
  | [] => []
  | 13 :: 10 :: t => 10 :: universal_newlines t
  | c :: t => (if c =? 13 then 10 else c) :: universal_newlines t
  end.

(** [Path.read_text()] of a UTF-8 file. *)
Definition read_text (f : file) : result text :=
  of_option UnicodeError (universal_newlines <$> utf8_decode (contents f)).
