(* ===== verification/ByteText.v ===== *)
(** * Methods of [bytes], and base64

    White space, splitting, prefixes and indexing of byte strings, [struct] fields in network order, and the base64 alphabet of
    [base64.b64encode] and [base64.b64decode(validate=True)]. *)
From S2P Require Import Prelude Bytes PyText.

(** The white space of [bytes.strip] and [bytes.split]. *)
Definition bspace (b : byte) : bool := let c := b2Z b in ((9 <=? c) && (c <=? 13)) || (c =? 32).

Fixpoint blstrip (l : bytes) : bytes := match l with b :: l' => if bspace b then blstrip l' else l | [] => [] end.
Definition bstrip (l : bytes) : bytes := reverse (blstrip (reverse (blstrip l))).

(** [l.split()]; [cur] is the reversed word so far. *)
Fixpoint bsplit_aux (cur l : bytes) : list bytes :=
  match l with
  | [] => if bool_decide (cur = []) then [] else [reverse cur]
  | b :: l =>
      if bspace b then (if bool_decide (cur = []) then bsplit_aux [] l else reverse cur :: bsplit_aux [] l)
      else bsplit_aux (b :: cur) l
  end.
Definition bsplit (l : bytes) : list bytes := bsplit_aux [] l.

(** [bytes([z])]. *)
Definition byte_of (z : Z) : result bytes :=
  if (0 <=? z) && (z <? 256) then Ok [Z2b z] else Err (ValueError "bytes must be in range(0, 256)" []).

(** [struct.pack] of one unsigned big-endian field of [n] bytes. *)
Definition pack_be (n : nat) (z : Z) : result bytes :=
  if (0 <=? z) && (z <? 256 ^ Z.of_nat n) then Ok (be_encode n z) else Err StructError.

(** ** Base64 *)

Definition b64_value (b : byte) : option Z :=
  let c := b2Z b in
  if (65 <=? c) && (c <=? 90) then Some (c - 65)
  else if (97 <=? c) && (c <=? 122) then Some (c - 71)
  else if (48 <=? c) && (c <=? 57) then Some (c + 4)
  else if c =? 43 then Some 62 else if c =? 47 then Some 63 else None.

Definition pad_byte : byte := x3d.

(** [base64.b64decode(l, validate=True)]: groups of four characters, of which the last may end in padding. *)
Fixpoint b64decode (l : bytes) : option bytes :=
  match l with
  | [] => Some []
  | a :: b :: c :: d :: l =>
      x ← b64_value a; y ← b64_value b;
      if bool_decide (c = pad_byte) then
        if bool_decide (d = pad_byte ∧ l = []) then Some [Z2b (x * 4 + y / 16)] else None
      else
        z ← b64_value c;
        if bool_decide (d = pad_byte) then
          if bool_decide (l = []) then Some [Z2b (x * 4 + y / 16); Z2b (y mod 16 * 16 + z / 4)] else None
        else
          w ← b64_value d;
          rest ← b64decode l;
          Some (Z2b (x * 4 + y / 16) :: Z2b (y mod 16 * 16 + z / 4) :: Z2b (z mod 4 * 64 + w) :: rest)
  | _ => None
  end.

(** ** Prefixes and positions *)

Definition bprefix (p l : bytes) : option bytes := if bool_decide (p `prefix_of` l) then Some (drop (length p) l) else None.

(** The text before a suffix. *)
Definition bsuffix (s l : bytes) : option bytes :=
  if bool_decide (s `suffix_of` l) then Some (take (length l - length s) l) else None.

(** The longest prefix of bytes that satisfy [f], and the rest. *)
Fixpoint bspan (f : byte → bool) (l : bytes) : bytes * bytes :=
  match l with
  | b :: l' => if f b then let '(a, r) := bspan f l' in (b :: a, r) else ([], l)
  | [] => ([], [])
  end.

Definition byte_at (data : bytes) (i : Z) : result Z := b2Z <$> get data i.

Lemma get_shift {A} (pre d : list A) i : 0 <= i → get (pre ++ d) (len pre + i) = get d i.
Proof.
  intros Hi. unfold get. rewrite len_app. pose proof (len_nonneg pre).
  replace ((0 <=? len pre + i) && (len pre + i <? len pre + len d)) with ((0 <=? i) && (i <? len d)) by lia.
  destruct (_ && _) eqn:E; [|done]. f_equal. unfold len in *. rewrite lookup_app_r by lia. f_equal. lia.
Qed.

Lemma slice_shift {A} (pre d : list A) a b : 0 <= a → slice (len pre + a) (len pre + b) (pre ++ d) = slice a b d.
Proof. intros Ha. rewrite slice_app_r by lia. f_equal; lia. Qed.

Lemma byte_at_shift pre d i : 0 <= i → byte_at (pre ++ d) (len pre + i) = byte_at d i.
Proof. intros Hi. unfold byte_at. by rewrite get_shift. Qed.

Lemma byte_at_error data i e : byte_at data i = Err e → e = IndexError.
Proof. unfold byte_at, get. destruct (_ && _); [|by intros [= <-]]. destruct (_ !! _); by intros [= <-]. Qed.

Lemma byte_at_0 b d : byte_at (b :: d) 0 = Ok (b2Z b).
Proof. unfold byte_at, get. pose proof (len_nonneg d). rewrite len_cons. by replace ((0 <=? 0) && (0 <? 1 + len d)) with true by lia. Qed.

Lemma byte_at_S b d i : 0 <= i → byte_at (b :: d) (1 + i) = byte_at d i.
Proof. intros Hi. apply (byte_at_shift [b] d i Hi). Qed.

Lemma byte_at_inv d i z : 0 <= i → byte_at d i = Ok z → ∃ b, d !! Z.to_nat i = Some b ∧ z = b2Z b.
Proof.
  intros Hi Hb. unfold byte_at in Hb. apply fmap_Ok_inv in Hb as (b & Hb & ->). exists b. split; [|done].
  unfold get in Hb. destruct (_ && _); [|done]. by apply of_option_Ok in Hb.
Qed.

Lemma byte_at_1 b c d : byte_at (b :: c :: d) 1 = Ok (b2Z c).
Proof. change 1 with (1 + 0). rewrite (byte_at_S b (c :: d) 0) by lia. apply byte_at_0. Qed.

(** ** Searching *)

(** [p in l]. *)
Fixpoint bcontains (p l : bytes) : bool :=
  bool_decide (p `prefix_of` l) || match l with [] => false | _ :: l => bcontains p l end.

(** [l.split(p, 1)] when [p] occurs: what is before and after the first occurrence. *)
Fixpoint bpartition (p l : bytes) : option (bytes * bytes) :=
  if bool_decide (p `prefix_of` l) then Some ([], drop (length p) l)
  else match l with
  | [] => None
  | b :: l => '(before, after) ← bpartition p l; Some (b :: before, after)
  end.

(** [l.count(p)] of a [p] that is not empty: occurrences that do not overlap, from the left; [skip] bytes of an occurrence are
    still to be passed. *)
Fixpoint bcount_from (p : bytes) (skip : nat) (l : bytes) : nat :=
  match l with
  | [] => 0
  | _ :: l' =>
      match skip with
      | S skip => bcount_from p skip l'
      | O => if bool_decide (p `prefix_of` l) then S (bcount_from p (length p - 1) l') else bcount_from p 0 l'
      end
  end.
Definition bcount (p l : bytes) : nat := bcount_from p 0 l.

(** [sep.join(parts)]. *)
Fixpoint bjoin (sep : bytes) (parts : list bytes) : bytes :=
  match parts with
  | [] => []
  | [p] => p
  | p :: parts => p ++ sep ++ bjoin sep parts
  end.

(** ** Base64 encoding *)

Definition b64_char (v : Z) : byte :=
  if v <? 26 then Z2b (v + 65) else if v <? 52 then Z2b (v + 71) else if v <? 62 then Z2b (v - 4)
  else if v =? 62 then x2b else x2f.

(** [base64.b64encode]. *)
Fixpoint b64encode (l : bytes) : bytes :=
  match l with
  | [] => []
  | [a] => let a := b2Z a in [b64_char (a / 4); b64_char (a mod 4 * 16); pad_byte; pad_byte]
  | [a; b] =>
      let a := b2Z a in let b := b2Z b in
      [b64_char (a / 4); b64_char (a mod 4 * 16 + b / 16); b64_char (b mod 16 * 4); pad_byte]
  | a :: b :: c :: l =>
      let a := b2Z a in let b := b2Z b in let c := b2Z c in
      b64_char (a / 4) :: b64_char (a mod 4 * 16 + b / 16) :: b64_char (b mod 16 * 4 + c / 64) :: b64_char (c mod 64) :: b64encode l
  end.

(** ** Lemmas on searching *)

(** [p] and [l] differ at a position that both have. *)
Fixpoint mismatch (p l : bytes) : bool :=
  match p, l with
  | a :: p, b :: l => negb (bool_decide (a = b)) || mismatch p l
  | _, _ => false
  end.

(** [p] starts nowhere in [l], whatever follows. *)
Fixpoint nowhere (p l : bytes) : bool :=
  match l with [] => true | _ :: l' => mismatch p l && nowhere p l' end.

Lemma mismatch_not_prefix p l r : mismatch p l = true → bool_decide (p `prefix_of` l ++ r) = false.
Proof.
  revert l. induction p as [|a p IH]; intros l H; [by destruct l|]. destruct l as [|b l]; [done|]. cbn [mismatch app] in *.
  apply bool_decide_eq_false. intros Hp. pose proof (prefix_cons_inv_1 _ _ _ _ Hp) as <-. apply prefix_cons_inv_2 in Hp.
  rewrite bool_decide_eq_true_2 in H by done. specialize (IH l H). apply bool_decide_eq_false in IH. done.
Qed.

Lemma mismatch_cons p b l r : mismatch p (b :: l) = true → bool_decide (p `prefix_of` b :: l ++ r) = false.
Proof. exact (mismatch_not_prefix p (b :: l) r). Qed.

Lemma bcount_nowhere p a r : nowhere p a = true → bcount_from p 0 (a ++ r) = bcount_from p 0 r.
Proof.
  induction a as [|b a IH]; [done|]. cbn [nowhere]. intros [Hm Hn]%andb_true_iff. rewrite <- IH by done. cbn [app bcount_from].
  by rewrite (mismatch_cons p b a r Hm).
Qed.

Lemma bpartition_nowhere p a r : nowhere p a = true → bpartition p (a ++ r) = '(before, after) ← bpartition p r; Some (a ++ before, after).
Proof.
  induction a as [|b a IH]; [cbn [app]; by destruct (bpartition p r) as [[]|]|]. cbn [nowhere]. intros [Hm Hn]%andb_true_iff. cbn [app bpartition].
  rewrite (mismatch_cons p b a r Hm), IH by done.
  by destruct (bpartition p r) as [[]|].
Qed.

Lemma bcontains_nowhere p a r : nowhere p a = true → bcontains p (a ++ r) = bcontains p r.
Proof.
  induction a as [|b a IH]; [done|]. cbn [nowhere]. intros [Hm Hn]%andb_true_iff. rewrite <- IH by done. cbn [app bcontains].
  by rewrite (mismatch_cons p b a r Hm).
Qed.

Lemma bcontains_app p r : bcontains p (p ++ r) = true.
Proof. destruct (p ++ r) eqn:E; cbn [bcontains]; rewrite <- E, bool_decide_eq_true_2; (done || by apply prefix_app_r). Qed.

Lemma bpartition_app p r : bpartition p (p ++ r) = Some ([], r).
Proof. destruct (p ++ r) eqn:E; cbn [bpartition]; rewrite <- E, bool_decide_eq_true_2 by (by apply prefix_app_r); by rewrite drop_app_length. Qed.

Lemma bcount_skip p a r : bcount_from p (length a) (a ++ r) = bcount_from p 0 r.
Proof. induction a as [|b a IH]; [done|]. exact IH. Qed.

Lemma bcount_app p r : p ≠ [] → bcount_from p 0 (p ++ r) = S (bcount_from p 0 r).
Proof.
  destruct p as [|b p]; [done|]. intros _. cbn [app bcount_from]. rewrite (bool_decide_eq_true_2 ((b :: p) `prefix_of` b :: p ++ r)).
  - f_equal. cbn [length]. rewrite Nat.sub_succ, Nat.sub_0_r. apply bcount_skip.
  - by apply (prefix_app_r (b :: p) (b :: p)).
Qed.

(** Data without the first byte of the pattern. *)
Lemma nowhere_absent b p l : Forall (λ c, c ≠ b) l → nowhere (b :: p) l = true.
Proof.
  induction 1 as [|c l Hc Hl IH]; [done|]. cbn [nowhere mismatch]. rewrite IH, andb_true_r.
  by rewrite bool_decide_eq_false_2 by congruence.
Qed.

(** The words of a byte string are its bytes without white space. *)
Lemma concat_bsplit l : concat (bsplit l) = filter (λ b, bspace b = false) l.
Proof.
  unfold bsplit. change (filter (λ b, bspace b = false) l) with (reverse [] ++ filter (λ b, bspace b = false) l). generalize (@nil byte) as cur.
  induction l as [|b l IH]; intros cur; cbn [bsplit_aux].
  - case_bool_decide; [by subst|]. cbn [concat]. by rewrite !app_nil_r.
  - destruct (bspace b) eqn:E.
    + rewrite filter_cons_False by congruence. case_bool_decide; [by subst; rewrite IH|]. cbn [concat]. by rewrite IH.
    + rewrite filter_cons_True, IH, reverse_cons, <- app_assoc by done. done.
Qed.

(** ** Base64 *)

Lemma b64_char_value v : 0 <= v < 64 → b64_value (b64_char v) = Some v.
Proof.
  intros Hv. assert (Hall : forallb (λ v, bool_decide (b64_value (b64_char v) = Some v)) (seqZ 0 64) = true) by by_compute.
  rewrite forallb_forall in Hall. specialize (Hall v). rewrite <- list_elem_of_In, elem_of_seqZ in Hall. specialize (Hall ltac:(lia)). by bool_inv.
Qed.

Lemma b64_char_pad v : 0 <= v < 64 → bool_decide (b64_char v = pad_byte) = false.
Proof. intros Hv%b64_char_value. apply bool_decide_eq_false. intros H. by rewrite H in Hv. Qed.

Lemma Z2b_eq z b : z = b2Z b → Z2b z = b.
Proof. intros ->. apply Z2b_b2Z. Qed.

Lemma b64_round_trip l : b64decode (b64encode l) = Some l.
Proof.
  revert l. fix IH 1. intros [|a [|b [|c l]]]; cbn [b64encode b64decode].
  - done.
  - pose proof (b2Z_range a). rewrite !b64_char_value by (Z.to_euclidean_division_equations; lia). cbn [mbind option_bind].
    rewrite (bool_decide_eq_true_2 (pad_byte = pad_byte)), bool_decide_eq_true_2 by done. do 2 f_equal. apply Z2b_eq. Z.to_euclidean_division_equations; lia.
  - pose proof (b2Z_range a). pose proof (b2Z_range b). rewrite !b64_char_value by (Z.to_euclidean_division_equations; lia). cbn [mbind option_bind].
    rewrite b64_char_pad by (Z.to_euclidean_division_equations; lia). rewrite bool_decide_eq_true_2, bool_decide_eq_true_2 by done.
    do 2 f_equal; [|f_equal]; apply Z2b_eq; Z.to_euclidean_division_equations; lia.
  - pose proof (b2Z_range a). pose proof (b2Z_range b). pose proof (b2Z_range c). rewrite !b64_char_value by (Z.to_euclidean_division_equations; lia).
    cbn [mbind option_bind]. rewrite !b64_char_pad by (Z.to_euclidean_division_equations; lia). cbn [mbind option_bind]. rewrite IH.
    cbn [mbind option_bind]. do 2 f_equal; [|f_equal; [|f_equal]]; apply Z2b_eq;
      Z.to_euclidean_division_equations; lia.
Qed.

(** No white space and no dash. *)
Definition b64_plain (b : byte) : Prop := bspace b = false ∧ b ≠ x2d.

Lemma b64_char_plain v : 0 <= v < 64 → b64_plain (b64_char v).
Proof. intros Hv%b64_char_value. unfold b64_plain. by destruct (b64_char v). Qed.

Lemma b64encode_plain l : Forall b64_plain (b64encode l).
Proof.
  revert l. fix IH 1. intros [|a [|b [|c l]]]; cbn [b64encode]; [done|..].
  1: pose proof (b2Z_range a); repeat constructor; try done; apply b64_char_plain; Z.to_euclidean_division_equations; lia.
  1: pose proof (b2Z_range a); pose proof (b2Z_range b); repeat constructor; try done; apply b64_char_plain; Z.to_euclidean_division_equations; lia.
  pose proof (b2Z_range a). pose proof (b2Z_range b). pose proof (b2Z_range c).
  do 4 (constructor; [apply b64_char_plain; Z.to_euclidean_division_equations; lia|]). apply IH.
Qed.
