(* ===== verification/Decimal.v ===== *)
(** * Decimal numbers

    The digits that [str] prints for a number, and that [int] reads them back. *)
From stdpp Require Import pretty.
From S2P Require Import Prelude Bytes PyText.


Lemma lit_inj s t : lit s = lit t → s = t.
Proof.
  unfold lit. revert t. induction s as [|a s IH]; intros [|b t] Heq; try done. simpl in Heq. injection Heq as Hab Hst.
  f_equal; [|by apply IH]. apply Nat2Z.inj in Hab. rewrite <- (Ascii.ascii_nat_embedding a), <- (Ascii.ascii_nat_embedding b). by rewrite Hab.
Qed.

#[export] Instance dec_inj : Inj (=) (=) dec.
Proof. intros a b Hab. apply lit_inj in Hab. by apply (inj pretty) in Hab. Qed.

Lemma lit_String a s : lit (String a s) = Z.of_nat (Ascii.nat_of_ascii a) :: lit s.
Proof. done. Qed.

Lemma pretty_N_char_code x : (x < 10)%N → Z.of_nat (Ascii.nat_of_ascii (pretty_N_char x)) = 48 + Z.of_N x.
Proof.
  intros Hx. assert (x = 0 ∨ x = 1 ∨ x = 2 ∨ x = 3 ∨ x = 4 ∨ x = 5 ∨ x = 6 ∨ x = 7 ∨ x = 8 ∨ x = 9)%N as Hc by lia.
  repeat destruct Hc as [->|Hc]; [done..|]. by subst x.
Qed.

Lemma strip_plain t : Forall (λ c, isspace c = false) t → strip t = t.
Proof.
  intros Hf. assert (Hl : ∀ u, Forall (λ c, isspace c = false) u → lstrip_by isspace u = u).
  { intros [|c u] Hu; [done|]. apply Forall_cons in Hu as [Hc _]. cbn. by rewrite Hc. }
  unfold strip, rstrip, rstrip_by, lstrip. rewrite (Hl t) by done. rewrite Hl by (by rewrite Forall_reverse). apply reverse_involutive.
Qed.

Lemma int_strip_plain t : Forall (λ c, isspace c = false) t → int_strip t = t.
Proof.
  intros Ht. assert (Hf : Forall (λ c, int_space t c = false) t).
  { eapply Forall_impl; [done|]. intros c Hc. cbn in Hc. unfold int_space. destruct (forallb _ _); [unfold isspace in Hc; lia|done]. }
  unfold int_strip. assert (Hl : lstrip_by (int_space t) t = t).
  { apply lstrip_by_iff. exists []. split; [done|]. split; [done|]. intros c Hc. rewrite Forall_forall in Hf. apply Hf. destruct t; [done|]. injection Hc as ->. by left. }
  rewrite Hl. apply rstrip_by_iff. exists []. split; [by rewrite app_nil_r|]. split; [done|]. intros c Hc. rewrite Forall_forall in Hf. apply Hf. by apply last_Some_elem_of.
Qed.

(** Spaces behind a text that has none. *)
Lemma strip_padded t n : Forall (λ c, isspace c = false) t → strip (t ++ replicate n 32) = t.
Proof.
  intros Hf. unfold strip, rstrip, rstrip_by, lstrip.
  assert (Hsp : ∀ u, lstrip_by isspace (replicate n 32 ++ u) = lstrip_by isspace u).
  { intros u. induction n as [|n IH]; [done|]. simpl. exact IH. }
  destruct t as [|c t].
  - simpl. pose proof (Hsp []) as H0. rewrite app_nil_r in H0. rewrite H0. done.
  - inv Hf. cbn [app lstrip_by]. rewrite H1. change (c :: t ++ replicate n 32) with ((c :: t) ++ replicate n 32).
    rewrite reverse_app, reverse_replicate, Hsp.
    assert (Hp : Forall (λ c, isspace c = false) (reverse (c :: t))) by (rewrite Forall_reverse; by constructor).
    destruct (reverse (c :: t)) as [|x u] eqn:E; [by apply (f_equal reverse) in E; rewrite reverse_involutive in E|].
    inv Hp. cbn [lstrip_by]. rewrite H3, <- E. apply reverse_involutive.
Qed.

Section numbers.
Context `{Ucd}.

Lemma decimal_digit d : 0 <= d < 10 → decimal_value (48 + d) = Some d.
Proof.
  intros Hd. unfold decimal_value, is_ascii, ascii_digit. replace (48 + d <? 128) with true by lia.
  replace ((48 <=? 48 + d) && (48 + d <=? 57)) with true by lia. f_equal. lia.
Qed.

(** A string of ASCII digits and the number that [int] reads in it. *)
Definition digits_of (ds : text) (n : Z) : Prop :=
  Forall (λ c, ascii_digit c = true) ds ∧
  ∀ acc rest, int_digits acc true (ds ++ rest) = int_digits (acc * 10 ^ len ds + n) true rest.

Lemma digits_of_nil : digits_of [] 0.
Proof. split; [done|]. intros acc rest. change (len (@nil Z)) with 0. cbn [app]. rewrite Z.pow_0_r. f_equal. lia. Qed.

Lemma digits_of_snoc ds n d : digits_of ds n → 0 <= d < 10 → digits_of (ds ++ [48 + d]) (10 * n + d).
Proof.
  intros [Hf Hv] Hd. split.
  - apply Forall_app. split; [done|]. constructor; [|done]. unfold ascii_digit. lia.
  - intros acc rest. rewrite <- app_assoc, Hv. cbn [app int_digits]. replace (48 + d =? 95) with false by lia.
    rewrite decimal_digit by done. cbn [mbind option_bind]. f_equal. rewrite len_app. change (len [48 + d]) with 1.
    rewrite Z.pow_add_r by (apply len_nonneg || lia). lia.
Qed.

Lemma pretty_N_go_digits x s : ∃ ds, lit (pretty_N_go x s) = ds ++ lit s ∧ digits_of ds (Z.of_N x) ∧ (x ≠ 0%N → ds ≠ []).
Proof.
  revert s. induction (N.lt_wf_0 x) as [x _ IH]. intros s. destruct (decide (x = 0%N)) as [->|Hx].
  - exists []. rewrite pretty_N_go_0. split_and!; [done|apply digits_of_nil|done].
  - rewrite pretty_N_go_step by lia. destruct (IH (x / 10)%N ltac:(apply N.div_lt; lia) (String (pretty_N_char (x mod 10)) s)) as (ds & -> & Hd & _).
    exists (ds ++ [48 + Z.of_N (x mod 10)]). rewrite lit_String, pretty_N_char_code by (apply N.mod_lt; lia).
    split_and!; [by rewrite <- app_assoc| |by destruct ds].
    assert (Hm : (x mod 10 < 10)%N) by (apply N.mod_lt; lia).
    replace (Z.of_N x) with (10 * Z.of_N (x / 10) + Z.of_N (x mod 10)) by (rewrite (N.div_mod x 10) at 3 by lia; lia).
    apply digits_of_snoc; [done|]. rewrite N2Z.inj_mod. apply Z.mod_pos_bound. done.
Qed.

Lemma dec_digits n : 0 <= n → digits_of (dec n) n ∧ dec n ≠ [].
Proof.
  intros Hn. unfold dec. destruct n as [|p|p]; [|clear Hn|lia].
  - split; [|done]. change (lit (pretty 0)) with ([] ++ [48 + 0]). change 0 with (10 * 0 + 0) at 2. apply digits_of_snoc; [apply digits_of_nil|lia].
  - change (pretty (Z.pos p)) with (pretty_N_go (Npos p) ""). destruct (pretty_N_go_digits (Npos p) "") as (ds & -> & Hd & Hne).
    change (lit "") with (@nil Z). rewrite app_nil_r. split; [done|]. by apply Hne.
Qed.

Lemma all_digits_dec n : 0 <= n → all_digits (dec n) = true.
Proof.
  intros Hn. destruct (dec_digits n Hn) as [[Hf _] Hne]. unfold all_digits. rewrite bool_decide_eq_false_2 by done. simpl.
  apply forallb_forall. intros c Hc%list_elem_of_In. rewrite Forall_forall in Hf. specialize (Hf c Hc). unfold isdigit, is_ascii, ascii_digit in *.
  by replace (c <? 128) with true by lia.
Qed.

(** [int] reads back what [str] prints. *)
Lemma py_int_dec n : 0 <= n → py_int (dec n) = Some n.
Proof.
  intros Hn. destruct (dec_digits n Hn) as [[Hf Hv] Hne]. unfold py_int. rewrite int_strip_plain.
  2:{ eapply Forall_impl; [exact Hf|]. intros c Hc. unfold ascii_digit in Hc. unfold isspace. simpl in *. lia. }
  destruct (dec n) as [|c t] eqn:E; [done|]. assert (Hc : ascii_digit c = true) by (by inv Hf). unfold ascii_digit in Hc.
  assert (Hi : int_digits 0 false (c :: t) = Some n).
  { specialize (Hv 0 []). rewrite app_nil_r in Hv. cbn [int_digits] in *. replace (c =? 95) with false in * by lia. by rewrite Hv. }
  repeat case_match; first [done|lia].
Qed.
End numbers.
