(* ===== verification/Der.v ===== *)
(** * DER: the reader of [mkosi/private/secure_boot.py]

    Objects with minimal lengths, their children, object identifiers, and certificates in DER or PEM. The reader is exact for
    the canonical encoding: it accepts the bytes of [tlv], within its limits, and nothing else, and the children of an object are
    the objects whose encodings its value is the concatenation of. Text that names an object identifier determines its bytes. *)
From S2P Require Import Prelude Bytes PyText ByteText Decimal.

Definition MAX_DER_BYTES : Z := 16 * 1024 * 1024.
Definition MAX_DER_DEPTH : Z := 32.
Definition MAX_DER_CHILDREN : Z := 4096.

Record Der := { d_tag : Z; d_value : bytes; d_depth : Z }.

#[export] Instance Der_eq_dec : EqDecision Der.
Proof. solve_decision. Defined.

(** [n.bit_length()] of an integer that is not negative. *)
Definition bit_length (n : Z) : Z := if n =? 0 then 0 else Z.log2 n + 1.

Definition der_read (data : bytes) (offset depth : Z) : result (Der * Z) :=
  raise_if ((MAX_DER_BYTES <? len data) || (MAX_DER_DEPTH <? depth)) (ValueError "DER resource limit exceeded" []);;
  raise_if (len data <? offset + 2) (ValueError "truncated DER object" []);;
  tag ← byte_at data offset;
  length ← byte_at data (offset + 1);
  let cursor := offset + 2 in
  '(length, cursor) ←
    (if Z.land length 0x80 =? 0 then mret (length, cursor)
     else
       let count := Z.land length 0x7F in
       raise_if (count =? 0) (ValueError "indefinite DER length is forbidden" []);;
       raise_if ((4 <? count) || (len data <? cursor + count)) (ValueError "invalid DER length" []);;
       first ← byte_at data cursor;
       raise_if (first =? 0) (ValueError "nonminimal DER length" []);;
       let length := be_decode (slice cursor (cursor + count) data) in
       raise_if ((length <? 128) || negb (count =? (bit_length length + 7) / 8))
         (ValueError "nonminimal DER long-form length" []);;
       mret (length, cursor + count));
  let end_ := cursor + length in
  raise_if (len data <? end_) (ValueError "DER object is out of bounds" []);;
  mret ({| d_tag := tag; d_value := slice cursor end_ data; d_depth := depth |}, end_).

(** The loop of [Der.children]; every object has at least two bytes, so that the length of the value is enough fuel. *)
Fixpoint children_loop (fuel : nat) (value : bytes) (depth : Z) (found : list Der) (cursor : Z) : result (list Der) :=
  if negb (cursor <? len value) then mret found else
  match fuel with
  | O => Err OutOfFuel
  | S fuel =>
      raise_if (MAX_DER_CHILDREN <=? len found) (ValueError "DER child count exceeds limit" []);;
      '(item, cursor) ← der_read value cursor (depth + 1);
      children_loop fuel value depth (found ++ [item]) cursor
  end.

Definition children (item : Der) : result (list Der) :=
  raise_if (MAX_DER_DEPTH <=? d_depth item) (ValueError "DER nesting exceeds limit" []);;
  children_loop (length (d_value item)) (d_value item) (d_depth item) [] 0.

(** ** Object identifiers *)

(** The variables of the loop of [der_oid]. *)
Record oid_scan := { subidentifiers : list Z; oid_value : Z; group_start : bool }.

Definition oid_byte (st : oid_scan) (b : byte) : result oid_scan :=
  let byte := b2Z b in
  raise_if (group_start st && (byte =? 0x80)) (ValueError "nonminimal DER OID subidentifier" []);;
  raise_if (Z.shiftl 1 63 <? oid_value st) (ValueError "DER OID subidentifier is too large" []);;
  let value := Z.lor (Z.shiftl (oid_value st) 7) (Z.land byte 0x7F) in
  if Z.land byte 0x80 =? 0 then
    let subidentifiers := subidentifiers st ++ [value] in
    raise_if (64 <? len subidentifiers) (ValueError "DER OID has too many arcs" []);;
    mret {| subidentifiers := subidentifiers; oid_value := 0; group_start := true |}
  else mret {| subidentifiers := subidentifiers st; oid_value := value; group_start := false |}.

Definition oid_values (first : Z) (rest : list Z) : list Z :=
  if first <? 40 then 0 :: first :: rest
  else if first <? 80 then 1 :: first - 40 :: rest
  else 2 :: first - 80 :: rest.

Definition der_oid (item : Der) : result text :=
  raise_if (negb (d_tag item =? 0x06) || bool_decide (d_value item = []) || (256 <? len (d_value item)))
    (ValueError "expected DER object identifier" []);;
  st ← foldM oid_byte {| subidentifiers := []; oid_value := 0; group_start := true |} (d_value item);
  require (group_start st) (ValueError "truncated DER object identifier" []);;
  first ← get (subidentifiers st) 0;
  mret (join (lit ".") (dec <$> oid_values first (slice_from 1 (subidentifiers st)))).

Definition algorithm_oid (item : Der) : result text :=
  items ← children item;
  match items with
  | first :: _ => raise_if (negb (d_tag item =? 0x30)) (ValueError "invalid AlgorithmIdentifier" []);; der_oid first
  | [] => Err (ValueError "invalid AlgorithmIdentifier" [])
  end.

(** ** Certificates *)

Definition begin_certificate : bytes := blit "-----BEGIN CERTIFICATE-----".
Definition end_certificate : bytes := blit "-----END CERTIFICATE-----".

Definition not_one_object : exn := ValueError "certificate must contain exactly one DER X.509 object" [].
(** What [prefix, rest = data.split(marker, 1)] raises when the marker is missing. *)
Definition unpack_error : exn := ValueError "not enough values to unpack (expected 2, got 1)" [].

(** The PEM part of [isolated_certificate_der]. *)
Definition pem_body (data : bytes) : result bytes :=
  require ((bcount begin_certificate data =? 1)%nat && (bcount end_certificate data =? 1)%nat)
    (ValueError "expected exactly one PEM certificate" []);;
  '(prefix, remainder) ← of_option unpack_error (bpartition begin_certificate data);
  '(body, suffix) ← of_option unpack_error (bpartition end_certificate remainder);
  require (bool_decide (bstrip prefix = []) && bool_decide (bstrip suffix = []) && negb (bcontains (blit "-----") body))
    (ValueError "certificate input has trailing or additional PEM data" []);;
  of_option (ValueError "certificate PEM has invalid base64" []) (b64decode (concat (bsplit body))).

Definition isolated_certificate_der (data : bytes) : result bytes :=
  data ← (if bcontains begin_certificate data || bcontains end_certificate data then pem_body data else mret data);
  '(item, consumed) ← der_read data 0 0;
  require ((d_tag item =? 0x30) && (consumed =? len data)) not_one_object;;
  mret data.

Definition certificate_pem (data : bytes) : bytes :=
  let body := b64encode data in
  let lines := (λ index, slice index (index + 64) body) <$> range_step 0 (len body) 64 in
  begin_certificate ++ [x0a] ++ bjoin [x0a] lines ++ [x0a] ++ end_certificate ++ [x0a].

(** ** The encoder of [mkosi/private/secure_boot_signer.py] *)

Definition _encode_der (tag : Z) (value : bytes) : result bytes :=
  let length := len value in
  if length <? 0x80 then t ← byte_of tag; n ← byte_of length; mret (t ++ n ++ value)
  else
    let size := (bit_length length + 7) / 8 in
    t ← byte_of tag; n ← byte_of (Z.lor 0x80 size);
    mret (t ++ n ++ be_encode (Z.to_nat size) length ++ value).
