(* ===== verification/DerProofs.v ===== *)
(** * DER: the reader is exact for the canonical encoding *)
From S2P Require Import Prelude Bytes PyText ByteText Decimal Der.

(** ** The canonical encoding *)

(** The length octets: one byte below 128, otherwise the number of bytes and the bytes without leading zeros. *)
Definition der_length (n : Z) : bytes :=
  if n <? 128 then [Z2b n] else Z2b (128 + (bit_length n + 7) / 8) :: be_encode (Z.to_nat ((bit_length n + 7) / 8)) n.

Definition tlv (tag : Z) (value : bytes) : bytes := Z2b tag :: der_length (len value) ++ value.

(** The encoding of an object. *)
Definition der_bytes (item : Der) : bytes := tlv (d_tag item) (d_value item).

Lemma bit_length_le n k : 0 <= n → 0 <= k → bit_length n <= k ↔ n < 2 ^ k.
Proof.
  intros Hn Hk. unfold bit_length. destruct (n =? 0) eqn:E; bool_inv.
  - subst. pose proof (Z.pow_pos_nonneg 2 k). lia.
  - rewrite (Z.log2_lt_pow2 n k) by lia. lia.
Qed.

Lemma bytes_bound n c : 0 <= n → 0 <= c → (bit_length n + 7) / 8 <= c ↔ n < 256 ^ c.
Proof.
  intros Hn Hc. change 256 with (2 ^ 8). rewrite <- Z.pow_mul_r, <- (bit_length_le n (8 * c)) by lia.
  assert (0 <= bit_length n) by (unfold bit_length; destruct (n =? 0); [lia|pose proof (Z.log2_nonneg n); lia]).
  split; intros Hle; [|apply Z.lt_succ_r, Z.div_lt_upper_bound; lia].
  pose proof (Z.div_mod (bit_length n + 7) 8). pose proof (Z.mod_pos_bound (bit_length n + 7) 8). lia.
Qed.

(** The number of bytes of a field is the smallest one exactly when its first byte is not zero. *)
Lemma be_decode_cons b l : be_decode (b :: l) = b2Z b * 256 ^ len l + be_decode l.
Proof.
  unfold be_decode. rewrite reverse_cons. generalize (reverse l) as k, (length_reverse l). intros k Hk.
  unfold len. rewrite <- Hk. clear. induction k as [|x k IH]; simpl; [lia|]. rewrite IH.
  rewrite Nat2Z.inj_succ, Z.pow_succ_r by lia. lia.
Qed.

Lemma byte_size_first b l : b2Z b ≠ 0 → (bit_length (be_decode (b :: l)) + 7) / 8 = len (b :: l).
Proof.
  intros Hb. pose proof (b2Z_range b). pose proof (be_decode_range l). pose proof (len_nonneg l). pose proof (Z.pow_pos_nonneg 256 (len l)).
  pose proof (be_decode_range (b :: l)) as Hr. rewrite len_cons in *. rewrite be_decode_cons in *.
  apply Z.le_antisymm; [apply bytes_bound; lia|].
  destruct (Z.le_gt_cases (1 + len l) ((bit_length (b2Z b * 256 ^ len l + be_decode l) + 7) / 8)) as [?|Hlt]; [done|].
  assert (Hle : (bit_length (b2Z b * 256 ^ len l + be_decode l) + 7) / 8 <= len l) by lia.
  apply bytes_bound in Hle; nia.
Qed.

(** ** Reading one object *)

Lemma land_80 b : Z.land (b2Z b) 0x80 = if b2Z b <? 128 then 0 else 128.
Proof. by destruct b. Qed.
Lemma land_7f b : Z.land (b2Z b) 0x7F = if b2Z b <? 128 then b2Z b else b2Z b - 128.
Proof. by destruct b. Qed.

(** What the length octets of a canonical object look like, within the limits of the reader. *)
Lemma der_length_long n : 128 <= n <= MAX_DER_BYTES →
  ∃ b l, der_length n = Z2b (128 + (1 + len l)) :: b :: l ∧ b2Z b ≠ 0 ∧ len l < 4 ∧ be_decode (b :: l) = n.
Proof.
  intros Hn. unfold der_length. replace (n <? 128) with false by lia. set (c := (bit_length n + 7) / 8).
  assert (Hc : 1 <= c <= 4).
  { unfold c. split; [|apply bytes_bound; [lia|lia|]; unfold MAX_DER_BYTES in Hn; lia].
    destruct (Z.le_gt_cases 1 ((bit_length n + 7) / 8)); [done|].
    assert (Hle : (bit_length n + 7) / 8 <= 0) by lia. apply bytes_bound in Hle; lia. }
  assert (Hd : be_decode (be_encode (Z.to_nat c) n) = n).
  { apply be_decode_encode. rewrite Z2Nat.id by lia. split; [lia|]. apply bytes_bound; unfold c; lia. }
  pose proof (len_be_encode (Z.to_nat c) n) as Hl. rewrite Z2Nat.id in Hl by lia.
  destruct (be_encode (Z.to_nat c) n) as [|b l]; [unfold len in Hl; simpl in Hl; lia|]. rewrite len_cons in Hl.
  assert (Hb : b2Z b ≠ 0).
  { intros Hb. rewrite be_decode_cons, Hb, Z.mul_0_l, Z.add_0_l in Hd. pose proof (be_decode_range l) as Hr. rewrite Hd in Hr.
    pose proof (len_nonneg l). assert (c <= len l); [|lia]. apply bytes_bound; lia. }
  exists b, l. split; [|split; [done|split; [|done]]].
  - f_equal. f_equal. lia.
  - lia.
Qed.

Lemma len_der_length n : 0 <= n → 1 <= len (der_length n).
Proof. intros. unfold der_length. destruct (_ <? _); len_simpl; [lia|]. pose proof (len_nonneg (be_encode (Z.to_nat ((bit_length n + 7) / 8)) n)). lia. Qed.

Lemma len_tlv tag v : len (tlv tag v) = 1 + len (der_length (len v)) + len v.
Proof. unfold tlv. len_simpl. lia. Qed.

Lemma byte_at_pre pre d i : 0 <= i → byte_at (pre ++ d) (len pre + i) = byte_at d i.
Proof. apply byte_at_shift. Qed.

(** The reader finds an object wherever its canonical encoding is. *)
Lemma der_read_tlv pre tag v post depth :
  0 <= tag < 256 → depth <= MAX_DER_DEPTH → len (pre ++ tlv tag v ++ post) <= MAX_DER_BYTES →
  der_read (pre ++ tlv tag v ++ post) (len pre) depth =
    Ok ({| d_tag := tag; d_value := v; d_depth := depth |}, len pre + len (tlv tag v)).
Proof.
  intros Htag Hdepth Hmax. pose proof (len_nonneg v) as Hv. pose proof (len_nonneg pre). pose proof (len_nonneg post).
  pose proof (len_der_length (len v) Hv) as Hdl. rewrite !len_app, len_tlv in Hmax. unfold der_read.
  replace (_ || _) with false by (rewrite !len_app, len_tlv; lia). cbn [raise_if mbind result_bind].
  replace (_ <? _) with false by (rewrite !len_app, len_tlv; lia). cbn [raise_if mbind result_bind].
  assert (E0 : byte_at (pre ++ tlv tag v ++ post) (len pre) = Ok tag).
  { rewrite <- (Z.add_0_r (len pre)). rewrite byte_at_pre by lia. unfold tlv. rewrite <- app_comm_cons, byte_at_0. by rewrite b2Z_Z2b_small by lia. }
  assert (E1 : byte_at (pre ++ tlv tag v ++ post) (len pre + 1) = byte_at (der_length (len v) ++ v ++ post) 0).
  { rewrite byte_at_pre by lia. unfold tlv. rewrite <- app_comm_cons, <- app_assoc. by rewrite (byte_at_S _ _ 0) by lia. }
  rewrite E0, E1. clear E0 E1. cbn [mbind result_bind].
  destruct (Z.lt_ge_cases (len v) 128) as [Hs|Hs].
  - assert (Hdv : der_length (len v) = [Z2b (len v)]) by (unfold der_length; by replace (_ <? _) with true by lia).
    rewrite Hdv, <- app_comm_cons, byte_at_0. cbn [mbind result_bind app]. rewrite land_80, b2Z_Z2b_small by lia.
    replace (len v <? 128) with true by lia. cbn [Z.eqb mbind result_bind mret result_ret].
    replace (_ <? _) with false by (rewrite !len_app, len_tlv, Hdv; len_simpl; lia). cbn [raise_if mbind result_bind].
    unfold mret, result_ret. do 2 f_equal; [|rewrite len_tlv, Hdv; len_simpl; lia]. f_equal.
    unfold tlv. rewrite Hdv. change (Z2b tag :: [Z2b (len v)] ++ v) with ([Z2b tag; Z2b (len v)] ++ v).
    rewrite <- (app_assoc [Z2b tag; Z2b (len v)]), <- Z.add_assoc, slice_shift by lia. rewrite slice_app_r by (len_simpl; lia). len_simpl.
    replace (2 - (1 + (1 + 0))) with 0 by lia. replace (2 + len v - (1 + (1 + 0))) with (len v) by lia. apply slice_app_exact.
  - destruct (der_length_long (len v)) as (b & l & Hdv & Hb & Hl & Hdec); [lia|]. pose proof (len_nonneg l) as Hl0.
    rewrite Hdv, <- app_comm_cons, byte_at_0. cbn [mbind result_bind app]. rewrite land_80, land_7f, b2Z_Z2b_small by lia.
    replace (128 + (1 + len l) <? 128) with false by lia. cbn [Z.eqb].
    replace (128 + (1 + len l) - 128) with (1 + len l) by lia. replace (1 + len l =? 0) with false by lia. cbn [raise_if mbind result_bind].
    set (head := [Z2b tag; Z2b (128 + (1 + len l))]).
    assert (Hall : tlv tag v = head ++ (b :: l) ++ v) by (unfold tlv; rewrite Hdv; done).
    replace ((4 <? _) || _) with false by (rewrite !len_app, len_tlv, Hdv; len_simpl; lia). cbn [raise_if mbind result_bind].
    assert (Hd : pre ++ tlv tag v ++ post = (pre ++ head) ++ (b :: l) ++ v ++ post) by (rewrite Hall; by rewrite <- !app_assoc).
    assert (Hph : len (pre ++ head) = len pre + 2) by (rewrite len_app; done).
    assert (Ef : byte_at (pre ++ tlv tag v ++ post) (len pre + 2) = Ok (b2Z b)).
    { rewrite Hd, <- Hph, <- (Z.add_0_r (len (pre ++ head))), byte_at_shift, <- app_comm_cons by lia. apply byte_at_0. }
    assert (Es : slice (len pre + 2) (len pre + 2 + (1 + len l)) (pre ++ tlv tag v ++ post) = b :: l).
    { rewrite Hd, <- Hph, slice_app_r by lia. rewrite Z.sub_diag, Z.add_simpl_l, <- (len_cons b). apply slice_app_exact. }
    assert (Ev : slice (len pre + 2 + (1 + len l)) (len pre + 2 + (1 + len l) + len v) (pre ++ tlv tag v ++ post) = v).
    { replace (len pre + 2 + (1 + len l)) with (len ((pre ++ head) ++ b :: l)) by (rewrite len_app, Hph, len_cons; lia).
      rewrite Hd, (app_assoc _ (b :: l)), slice_app_r, Z.sub_diag, Z.add_simpl_l by lia. apply slice_app_exact. }
    rewrite Ef, Es, Hdec. cbn [mbind result_bind]. replace (b2Z b =? 0) with false by lia. cbn [raise_if mbind result_bind].
    replace ((bit_length (len v) + 7) / 8) with (1 + len l) by (rewrite <- Hdec, byte_size_first by done; by rewrite len_cons).
    replace ((len v <? 128) || _) with false by lia. cbn [raise_if mbind result_bind mret result_ret]. rewrite Ev.
    replace (_ <? _) with false by (rewrite Hd, !len_app; len_simpl; change (len head) with 2; lia). cbn [raise_if mbind result_bind].
    unfold mret, result_ret. do 2 f_equal. rewrite Hall. len_simpl. change (len head) with 2. lia.
Qed.

(** An object that the reader returns lies in the data in its canonical encoding. *)
Lemma der_read_inv data offset depth item end_ :
  0 <= offset → der_read data offset depth = Ok (item, end_) →
  ∃ pre post, data = pre ++ der_bytes item ++ post ∧ len pre = offset ∧ end_ = offset + len (der_bytes item) ∧
    0 <= d_tag item < 256 ∧ d_depth item = depth ∧ depth <= MAX_DER_DEPTH ∧ len data <= MAX_DER_BYTES.
Proof.
  intros Ho H. unfold der_read in H. apply bind_Ok_inv in H as ([] & Hlim%raise_if_Ok & H). bool_inv.
  apply bind_Ok_inv in H as ([] & Hshort%raise_if_Ok & H). bool_inv.
  apply bind_Ok_inv in H as (tag & Htag & H). apply byte_at_inv in Htag as (t & Ht & ->); [|done].
  apply bind_Ok_inv in H as (length_ & Hlen & H). apply byte_at_inv in Hlen as (n & Hn & ->); [|lia]. cbv zeta in H.
  apply bind_Ok_inv in H as ([length_ cursor] & Hbody & H). apply bind_Ok_inv in H as ([] & Hend%raise_if_Ok & H). bool_inv.
  injection H as <- <-.
  assert (Hgen : 0 <= length_ ∧ offset + 2 <= cursor ∧
    slice (offset + 1) cursor data = der_length length_).
  { pose proof (b2Z_range n). rewrite land_80, land_7f in Hbody. destruct (b2Z n <? 128) eqn:Hs; bool_inv; cbn [Z.eqb] in Hbody.
    - injection Hbody as <- <-. split; [lia|]. split; [lia|]. unfold der_length. replace (_ <? _) with true by lia. rewrite Z2b_b2Z.
      replace (offset + 2) with (offset + 1 + 1) by lia. rewrite (slice_snoc _ _ _ n) by (done || lia). by rewrite slice_empty by lia.
    - apply bind_Ok_inv in Hbody as ([] & Hz%raise_if_Ok & Hbody). apply bind_Ok_inv in Hbody as ([] & Hb%raise_if_Ok & Hbody). bool_inv.
      apply bind_Ok_inv in Hbody as (first & Hf & Hbody). apply byte_at_inv in Hf as (f & Hf & ->); [|lia].
      apply bind_Ok_inv in Hbody as ([] & Hnz%raise_if_Ok & Hbody). apply bind_Ok_inv in Hbody as ([] & Hmin%raise_if_Ok & Hbody).
      apply orb_false_iff in Hmin as [Hmin Hcount]. bool_inv.
      injection Hbody as <- <-. set (count := b2Z n - 128) in *. set (field := slice (offset + 2) (offset + 2 + count) data) in *.
      assert (Hlf : len field = count) by (unfold field; rewrite len_slice; lia).
      split; [lia|]. split; [lia|]. unfold der_length. replace (_ <? _) with false by lia. rewrite <- Hcount.
      replace (Z.to_nat count) with (length field) by (unfold len in Hlf; lia). rewrite be_encode_decode.
      rewrite (slice_cons _ _ _ n) by (done || lia). f_equal; [by unfold count; rewrite <- (Z2b_b2Z n) at 1; f_equal; lia|].
      unfold field. f_equal; lia. }
  destruct Hgen as (Hl0 & Hc & Hdl). exists (slice 0 offset data), (slice_from (cursor + length_) data).
  assert (Hbytes : slice offset (cursor + length_) data = tlv (b2Z t) (slice cursor (cursor + length_) data)).
  { unfold tlv. rewrite len_slice, Z.add_simpl_l, <- Hdl, Z2b_b2Z by lia. rewrite (slice_cons offset _ _ t) by (done || lia). f_equal.
    rewrite slice_join by lia. done. }
  unfold der_bytes. cbn [d_tag d_value d_depth]. rewrite <- Hbytes. rewrite !len_slice by lia.
  split; [|pose proof (b2Z_range t); repeat split; lia].
  rewrite app_assoc, slice_join by lia. symmetry. apply slice_slice_from. lia.
Qed.

(** ** The children of an object *)

(** An object that a reader at this depth may return. *)
Definition child_at (depth : Z) (item : Der) : Prop := 0 <= d_tag item < 256 ∧ d_depth item = depth.

Lemma len_der_bytes item : 2 <= len (der_bytes item).
Proof. unfold der_bytes. rewrite len_tlv. pose proof (len_nonneg (d_value item)). pose proof (len_der_length (len (d_value item))). lia. Qed.

Lemma der_eta item : {| d_tag := d_tag item; d_value := d_value item; d_depth := d_depth item |} = item.
Proof. by destruct item. Qed.

Lemma der_bytes_nil items : items ≫= der_bytes = [] → items = [].
Proof. destruct items as [|i items]; [done|]. rewrite bind_cons. intros [H _]%app_nil. pose proof (len_der_bytes i) as Hl. by rewrite H in Hl. Qed.

Section children_loop.
  Context (value : bytes) (depth : Z) (Hdepth : depth < MAX_DER_DEPTH).

Lemma children_loop_sound fuel found rest items :
  value = found ++ rest → ∀ seen, children_loop fuel value depth seen (len found) = Ok items →
  ∃ more, items = seen ++ more ∧ rest = more ≫= der_bytes ∧ Forall (child_at (depth + 1)) more ∧
    (more = [] ∨ len items <= MAX_DER_CHILDREN ∧ len value <= MAX_DER_BYTES).
Proof.
  revert found rest. induction fuel as [|fuel IH]; intros found rest Hv seen H; cbn [children_loop] in H.
  all: destruct (negb (len found <? len value)) eqn:Hend.
  1,3: injection H as <-; exists []; rewrite app_nil_r; split; [done|]; split; [|by auto];
    bool_inv; subst value; rewrite len_app in *; destruct rest; [done|rewrite len_cons in *; pose proof (len_nonneg rest); lia].
  - done.
  - apply bind_Ok_inv in H as ([] & Hmax%raise_if_Ok & H). apply bind_Ok_inv in H as ([item cursor] & Hread & H). bool_inv.
    apply der_read_inv in Hread as (pre & post & Hd & Hp & -> & Htag & Hdep & _ & Hlen); [|apply len_nonneg].
    rewrite Hv in Hd. apply app_inj_1 in Hd as [<- ->]; [|unfold len in Hp; lia].
    rewrite <- len_app in H. destruct (IH (found ++ der_bytes item) post ltac:(by rewrite <- app_assoc) _ H) as (more & -> & -> & Hmore & Hcount).
    exists (item :: more). rewrite <- app_assoc. split; [done|]. split; [done|]. split; [by constructor|]. right.
    split; [|done]. destruct Hcount as [->|[Hcount _]]; [len_simpl; lia|by rewrite app_assoc].
Qed.

Lemma children_loop_complete fuel found more seen :
  value = found ++ (more ≫= der_bytes) → (length (more ≫= der_bytes) ≤ fuel)%nat → Forall (child_at (depth + 1)) more →
  len (seen ++ more) <= MAX_DER_CHILDREN → len value <= MAX_DER_BYTES →
  children_loop fuel value depth seen (len found) = Ok (seen ++ more).
Proof.
  revert fuel found seen. induction more as [|item more IH]; intros fuel found seen Hv Hf Hok Hc Hm.
  - rewrite app_nil_r in Hv. subst value. destruct fuel; cbn [children_loop]; replace (_ <? _) with false by lia; by rewrite app_nil_r.
  - apply Forall_cons in Hok as [[Htag Hd] Hok]. rewrite bind_cons in *. pose proof (len_der_bytes item) as Hl. pose proof (len_nonneg (more ≫= der_bytes)).
    rewrite length_app in Hf. assert (2 ≤ length (der_bytes item))%nat by (unfold len in Hl; lia).
    destruct fuel as [|fuel]; [lia|]. cbn [children_loop]. replace (negb _) with false by (rewrite Hv, !len_app; lia).
    replace (_ <=? _) with false by (rewrite len_app, len_cons in Hc; pose proof (len_nonneg more); lia). cbn [raise_if mbind result_bind].
    assert (Hread : der_read value (len found) (depth + 1) = Ok (item, len found + len (der_bytes item))).
    { rewrite Hv in *. unfold der_bytes in *. rewrite der_read_tlv by (done || lia). by rewrite <- Hd, der_eta. }
    rewrite Hread. cbn [mbind result_bind].
    rewrite <- len_app, (cons_middle item seen more), app_assoc. apply IH; [by rewrite <- app_assoc|lia|done| |done].
    by rewrite <- app_assoc.
Qed.
End children_loop.

(** What [children] of an object are: the objects whose encodings its value is made of. *)
Definition children_of (item : Der) (items : list Der) : Prop :=
  d_value item = items ≫= der_bytes ∧ Forall (child_at (d_depth item + 1)) items ∧ d_depth item < MAX_DER_DEPTH ∧
  len items <= MAX_DER_CHILDREN ∧ len (d_value item) <= MAX_DER_BYTES.

Lemma children_spec item items : children item = Ok items ↔ children_of item items.
Proof.
  unfold children, children_of. split.
  - intros H. apply bind_Ok_inv in H as ([] & Hd%raise_if_Ok & H). bool_inv.
    destruct (children_loop_sound _ _ _ [] (d_value item) items eq_refl _ H) as (more & -> & Hv & Hok & Hmax).
    split; [done|]. split; [done|]. split; [done|]. destruct Hmax as [->|[??]]; [|done]. by rewrite Hv.
  - intros (Hv & Hok & Hd & Hc & Hm). replace (_ <=? _) with false by lia. cbn [raise_if mbind result_bind].
    change 0 with (len (@nil byte)). by rewrite (children_loop_complete (d_value item) (d_depth item) Hd _ [] items []) by (done || by rewrite <- Hv).
Qed.

(** ** Errors *)

Lemma raises_byte_at P data i : 0 <= i < len data → raises P (byte_at data i).
Proof. intros Hi. unfold byte_at. destruct (get_in_range data i Hi) as (b & -> & _). done. Qed.

Lemma raises_der_read data offset depth : 0 <= offset → raises is_value_error (der_read data offset depth).
Proof.
  intros Ho. unfold der_read. apply raises_bind; [raises_auto|]. intros [] Hl%raise_if_Ok.
  apply raises_bind; [raises_auto|]. intros [] Hs%raise_if_Ok. bool_inv.
  apply raises_bind; [apply raises_byte_at; lia|]. intros t _. apply raises_bind; [apply raises_byte_at; lia|]. intros n Hn. cbv zeta.
  apply raises_bind; [|intros [? ?] _; raises_auto]. apply byte_at_inv in Hn as (b & _ & ->); [|lia]. pose proof (b2Z_range b).
  apply raises_if; intros Hlong; [done|]. rewrite land_80 in Hlong. rewrite land_7f. destruct (b2Z b <? 128) eqn:Hb; [done|]. bool_inv.
  apply raises_bind; [raises_auto|]. intros [] Hz%raise_if_Ok. apply raises_bind; [raises_auto|]. intros [] Hc%raise_if_Ok. bool_inv.
  apply raises_bind; [apply raises_byte_at; lia|]. intros f _. raises_auto.
Qed.

Lemma der_read_progress data offset depth item end_ :
  0 <= offset → der_read data offset depth = Ok (item, end_) → offset + 2 <= end_ <= len data.
Proof.
  intros Ho H. apply der_read_inv in H as (pre & post & -> & <- & -> & _); [|done]. pose proof (len_der_bytes item).
  rewrite !len_app. pose proof (len_nonneg post). lia.
Qed.

Lemma raises_children_loop fuel value depth found cursor :
  0 <= cursor → len value <= cursor + Z.of_nat fuel → raises is_value_error (children_loop fuel value depth found cursor).
Proof.
  revert found cursor. induction fuel as [|fuel IH]; intros found cursor Hc Hf; cbn [children_loop];
    (apply raises_if; intros Hlt; [done|]); bool_inv; [lia|].
  apply raises_bind; [raises_auto|]. intros _ _. apply raises_bind; [by apply raises_der_read|]. intros [item end_] Hr.
  apply der_read_progress in Hr; [|done]. apply IH; lia.
Qed.

Lemma raises_children item : raises is_value_error (children item).
Proof. unfold children. apply raises_bind; [raises_auto|]. intros _ _. apply raises_children_loop; unfold len; lia. Qed.

Lemma raises_oid_byte st b : raises is_value_error (oid_byte st b).
Proof. unfold oid_byte. raises_auto. Qed.
#[export] Hint Resolve raises_children raises_oid_byte : raises.

(** ** The encoder *)

Lemma lor_80 n : 0 <= n < 128 → Z.lor 0x80 n = 128 + n.
Proof.
  intros Hn. rewrite <- Z.lxor_lor, <- Z.add_nocarry_lxor; [done|..].
  all: apply Z.bits_inj'; intros i Hi; rewrite Z.land_spec, Z.bits_0; apply andb_false_iff.
  all: destruct (Z.eq_dec i 7) as [->|]; [right; rewrite <- (Z.mod_small n (2 ^ 7)) by lia; by apply Z.mod_pow2_bits_high|left].
  all: change 128 with (2 ^ 7); by apply Z.pow2_bits_false.
Qed.

(** The signer's encoder writes the canonical encoding. *)
Lemma encode_der_tlv tag value : 0 <= tag < 256 → len value <= MAX_DER_BYTES → _encode_der tag value = Ok (tlv tag value).
Proof.
  intros Ht Hv. unfold _encode_der, tlv, der_length, byte_of. pose proof (len_nonneg value). destruct (len value <? 128) eqn:E; bool_inv.
  - replace (_ && _) with true by lia. cbn [mbind result_bind]. by replace (_ && _) with true by lia.
  - assert (Hc : 0 <= (bit_length (len value) + 7) / 8 <= 4).
    { split; [|apply bytes_bound; [lia|lia|]; unfold MAX_DER_BYTES in Hv; lia]. apply Z.div_pos; [|lia].
      unfold bit_length. destruct (_ =? _); [lia|]. pose proof (Z.log2_nonneg (len value)). lia. }
    rewrite lor_80 by lia. replace (_ && _) with true by lia. cbn [mbind result_bind]. replace (_ && _) with true by lia. done.
Qed.

(** ** Object identifiers *)

(** The digits of a subidentifier, the least significant first, in base 128. *)
Fixpoint from128 (l : bytes) : Z :=
  match l with
  | [] => 0
  | b :: l => b2Z b mod 128 + 128 * from128 l
  end.

(** The bytes of a subidentifier, in reverse: the first byte of the encoding is not 0x80 and only the last one is below 128. *)
Definition digits128 (l : bytes) : Prop := Forall (λ b, 128 <= b2Z b) l ∧ last l ≠ Some x80.
Definition group (g : bytes) (n : Z) : Prop :=
  ∃ b l, g = reverse (b :: l) ∧ b2Z b < 128 ∧ digits128 l ∧ n = from128 (b :: l).

Lemma oid_shift v b : Z.lor (Z.shiftl v 7) (Z.land (b2Z b) 0x7F) = b2Z b mod 128 + 128 * v.
Proof.
  change 0x7F with (Z.ones 7). rewrite Z.land_ones, Z.shiftl_mul_pow2 by lia. change (2 ^ 7) with 128.
  rewrite <- Z.lxor_lor, <- Z.add_nocarry_lxor; [lia|..].
  all: apply Z.bits_inj'; intros i Hi; rewrite Z.land_spec, Z.bits_0; apply andb_false_iff.
  all: change 128 with (2 ^ 7); destruct (Z.lt_ge_cases i 7); [left; by apply Z.mul_pow2_bits_low|right; by apply Z.mod_pow2_bits_high].
Qed.

Lemma from128_nonneg l : 0 <= from128 l.
Proof. induction l as [|b l IH]; simpl; [done|]. pose proof (Z.mod_pos_bound (b2Z b) 128). lia. Qed.

Lemma digits128_zero l : digits128 l → from128 l = 0 → l = [].
Proof.
  intros [Hl Hlast] H. destruct l as [|x l]; [done|]. exfalso. revert x H Hlast Hl. induction l as [|y l IH]; intros x H Hlast Hl.
  - apply Forall_cons in Hl as [Hl _]. cbn [from128 last] in H, Hlast. apply Hlast. f_equal. apply b2Z_inj. change (b2Z x80) with 128.
    pose proof (b2Z_range x). pose proof (Z.div_mod (b2Z x) 128). lia.
  - apply Forall_cons in Hl as [_ Hl]. rewrite last_cons_cons in Hlast. apply (IH y); [|done|done]. cbn [from128] in *.
    pose proof (from128_nonneg l). pose proof (Z.mod_pos_bound (b2Z x) 128). pose proof (Z.mod_pos_bound (b2Z y) 128). lia.
Qed.

Lemma digits128_tail b l : digits128 (b :: l) → digits128 l.
Proof. intros [Hl Hlast]. apply Forall_cons in Hl as [_ Hl]. split; [done|]. destruct l; [done|]. by rewrite last_cons_cons in Hlast. Qed.

Lemma digits128_inj l k : digits128 l → digits128 k → from128 l = from128 k → l = k.
Proof.
  revert k. induction l as [|b l IH]; intros k Hl Hk H.
  - symmetry. by apply digits128_zero.
  - destruct k as [|c k]; [by apply digits128_zero|]. cbn [from128] in H.
    pose proof (Z.mod_pos_bound (b2Z b) 128). pose proof (Z.mod_pos_bound (b2Z c) 128).
    f_equal; [|apply IH; [by eapply digits128_tail..|lia]]. destruct Hl as [[? _]%Forall_cons _]. destruct Hk as [[? _]%Forall_cons _].
    apply b2Z_inj. pose proof (b2Z_range b). pose proof (b2Z_range c). pose proof (Z.div_mod (b2Z b) 128). pose proof (Z.div_mod (b2Z c) 128). nia.
Qed.

Lemma group_inj g g' n : group g n → group g' n → g = g'.
Proof.
  intros (b & l & -> & Hb & Hl & ->) (b' & l' & -> & Hb' & Hl' & H). cbn [from128] in H. f_equal.
  pose proof (b2Z_range b). pose proof (b2Z_range b'). rewrite !Z.mod_small in H by lia.
  f_equal; [apply b2Z_inj; lia|]. apply digits128_inj; [done|done|lia].
Qed.

(** The state of the scan: complete groups, and the bytes of the group that is being read. *)
Definition oid_inv (consumed : bytes) (st : oid_scan) : Prop :=
  ∃ gs l, consumed = concat gs ++ reverse l ∧ Forall2 group gs (subidentifiers st) ∧ digits128 l ∧ oid_value st = from128 l ∧
    (group_start st = true ↔ l = []).

Lemma oid_byte_inv consumed st b st' : oid_inv consumed st → oid_byte st b = Ok st' → oid_inv (consumed ++ [b]) st'.
Proof.
  intros (gs & l & -> & Hgs & Hl & Hv & Hs) H. unfold oid_byte in H. apply bind_Ok_inv in H as ([] & H80%raise_if_Ok & H).
  apply bind_Ok_inv in H as ([] & _ & H). rewrite oid_shift, Hv, land_80 in H. change (b2Z b mod 128 + 128 * from128 l) with (from128 (b :: l)) in H.
  destruct (b2Z b <? 128) eqn:Hb; bool_inv; cbn [Z.eqb] in H.
  - apply bind_Ok_inv in H as ([] & _ & H). injection H as <-. exists (gs ++ [reverse (b :: l)]), [].
    cbn [subidentifiers oid_value group_start]. split; [|split; [|split; [|done]]].
    + rewrite concat_app, reverse_cons. cbn [concat reverse]. by rewrite !app_nil_r, <- !app_assoc.
    + apply Forall2_app; [done|]. constructor; [|done]. by exists b, l.
    + split; [constructor|done].
  - injection H as <-. exists gs, (b :: l). cbn [subidentifiers oid_value group_start]. rewrite reverse_cons, app_assoc.
    split; [done|]. split; [done|]. split; [|done]. destruct Hl as [Hl Hlast]. split; [by constructor|].
    destruct l as [|x l]; [|by rewrite last_cons_cons]. rewrite (proj2 Hs eq_refl) in H80. cbn in H80. bool_inv. cbn. intros [= ->]. done.
Qed.

Lemma oid_scan_inv data st : foldM oid_byte {| subidentifiers := []; oid_value := 0; group_start := true |} data = Ok st → oid_inv data st.
Proof.
  intros H. assert (Hgen : ∀ data' consumed s, oid_inv consumed s → foldM oid_byte s data' = Ok st → oid_inv (consumed ++ data') st).
  { induction data' as [|b data' IH]; intros consumed s Hs Hf; cbn [foldM] in Hf; [injection Hf as <-; by rewrite app_nil_r|].
    apply bind_Ok_inv in Hf as (s' & Hb & Hf). rewrite (cons_middle b), app_assoc. eapply IH; [|done]. by eapply oid_byte_inv. }
  eapply (Hgen data []); [|done]. exists [], []. by repeat split.
Qed.

Lemma dec_no_dot n : 0 <= n → 46 ∉ dec n.
Proof. intros Hn Hin. destruct (@dec_digits ascii_ucd n Hn) as [[Hd _] _]. rewrite Forall_forall in Hd. by specialize (Hd _ Hin). Qed.

Lemma group_nonneg g n : group g n → 0 <= n.
Proof. intros (b & l & _ & _ & _ & ->). apply from128_nonneg. Qed.

Lemma oid_values_nonneg first rest : 0 <= first → Forall (λ n, 0 <= n) rest → Forall (λ n, 0 <= n) (oid_values first rest).
Proof. intros. unfold oid_values. repeat case_match; bool_inv; repeat (constructor; [lia|]); done. Qed.

Lemma oid_values_inj first rest first' rest' :
  0 <= first → 0 <= first' → oid_values first rest = oid_values first' rest' → first = first' ∧ rest = rest'.
Proof. unfold oid_values. intros. repeat case_match; bool_inv; simplify_eq; (split; [lia|done]) || lia. Qed.

Lemma dotted_inj ns ms :
  ns ≠ [] → ms ≠ [] → Forall (λ n, 0 <= n) ns → Forall (λ n, 0 <= n) ms → join (lit ".") (dec <$> ns) = join (lit ".") (dec <$> ms) → ns = ms.
Proof.
  intros Hn Hm Hns Hms H. apply (f_equal (split_on 46)) in H. change (lit ".") with [46] in H.
  rewrite !split_on_join in H.
  - apply (f_equal (fmap (M := list) (@py_int ascii_ucd))) in H. rewrite <- !list_fmap_compose in H.
    assert (Hid : ∀ l, Forall (λ n, 0 <= n) l → (@py_int ascii_ucd ∘ dec) <$> l = Some <$> l).
    { induction 1; [done|]. cbn. f_equal; [by apply (@py_int_dec ascii_ucd)|done]. }
    rewrite !Hid in H by done. by apply (list_fmap_eq_inj Some) in H; [|intros ? ? [=]].
  - by destruct ms.
  - apply Forall_fmap. eapply Forall_impl; [done|]. intros n. apply dec_no_dot.
  - by destruct ns.
  - apply Forall_fmap. eapply Forall_impl; [done|]. intros n. apply dec_no_dot.
Qed.

(** The groups of an accepted object identifier. *)
Lemma der_oid_inv item t :
  der_oid item = Ok t → ∃ gs first rest, d_tag item = 6 ∧ d_value item = concat gs ∧ Forall2 group gs (first :: rest) ∧
    t = join (lit ".") (dec <$> oid_values first rest).
Proof.
  unfold der_oid. intros H. apply bind_Ok_inv in H as ([] & Htag%raise_if_Ok & H). bool_inv. apply bind_Ok_inv in H as (st & Hst & H).
  apply bind_Ok_inv in H as ([] & Hs%require_Ok & H). apply bind_Ok_inv in H as (first & Hf & H). injection H as <-.
  apply oid_scan_inv in Hst as (gs & l & Hc & Hgs & _ & _ & Hl). apply Hl in Hs as ->. rewrite app_nil_r in Hc.
  destruct (subidentifiers st) as [|n ns]; [done|]. apply get_Ok in Hf as [_ Hf]. injection Hf as ->.
  exists gs, first, ns. split; [done|]. split; [done|]. split; [done|]. by rewrite slice_from_drop.
Qed.

(** Equal text means equal bytes. *)
Lemma der_oid_inj a b t : der_oid a = Ok t → der_oid b = Ok t → d_value a = d_value b.
Proof.
  intros (gs & n & ns & _ & -> & Hg & ->)%der_oid_inv (hs & m & ms & _ & -> & Hh & H)%der_oid_inv.
  assert (Hnn : ∀ gs ns, Forall2 group gs ns → Forall (λ n, 0 <= n) ns).
  { induction 1; constructor; [by eapply group_nonneg|done]. }
  pose proof (Hnn _ _ Hg) as Hn. pose proof (Hnn _ _ Hh) as Hm. inv Hn. inv Hm.
  apply dotted_inj in H; [|unfold oid_values; by repeat case_match..|by apply oid_values_nonneg|by apply oid_values_nonneg].
  apply oid_values_inj in H as [-> ->]; [|done|done]. f_equal. clear -Hg Hh.
  revert hs Hh. induction Hg as [|g n gs ns Hg Hgs IH]; intros hs Hh; inv Hh; [done|]. f_equal; [by eapply group_inj|by apply IH].
Qed.

(** ** Certificates *)

(** One DER sequence and nothing after it. *)
Definition certificate_object (data : bytes) : Prop := ∃ value, data = tlv 0x30 value ∧ len data <= MAX_DER_BYTES.

Lemma chunks_concat {A} (l : list A) (m : nat) :
  concat ((λ i, slice (0 + i * 64) (0 + i * 64 + 64) l) <$> seqZ 0 (Z.of_nat m)) = slice 0 (64 * Z.of_nat m) l.
Proof.
  induction m as [|m IH]; [by rewrite slice_empty by lia|]. rewrite Nat2Z.inj_succ, <- Z.add_1_r, seqZ_app, fmap_app, concat_app, IH by lia.
  change (seqZ (0 + Z.of_nat m) 1) with [0 + Z.of_nat m]. rewrite list_fmap_singleton, List.concat_cons, List.concat_nil, app_nil_r.
  replace (0 + (0 + Z.of_nat m) * 64) with (64 * Z.of_nat m) by lia. rewrite slice_join by lia. f_equal; lia.
Qed.

Lemma pem_lines_concat (l : bytes) : concat ((λ index, slice index (index + 64) l) <$> range_step 0 (len l) 64) = l.
Proof.
  unfold range_step. rewrite <- list_fmap_compose. set (n := (len l - 0 + 64 - 1) / 64). pose proof (len_nonneg l).
  assert (Hn : 0 <= n) by (apply Z.div_pos; lia). rewrite <- (Z2Nat.id n Hn). etrans; [apply (chunks_concat l (Z.to_nat n))|].
  apply slice_all. rewrite Z2Nat.id by done. unfold n. Z.to_euclidean_division_equations; lia.
Qed.

Lemma concat_bjoin sep ls : Forall (λ b, bspace b = true) sep → Forall (λ b, bspace b = false) (concat ls) →
  filter (λ b, bspace b = false) (bjoin sep ls) = concat ls.
Proof.
  intros Hs Hl. assert (Hid : ∀ k, Forall (λ b, bspace b = false) k → filter (λ b, bspace b = false) k = k).
  { induction 1; [done|]. rewrite filter_cons_True by done. by f_equal. }
  assert (Hno : filter (λ b, bspace b = false) sep = []).
  { clear -Hs. induction Hs; [done|]. by rewrite filter_cons_False by congruence. }
  induction ls as [|l ls IH]; [done|]. cbn [concat] in *. apply Forall_app in Hl as [Hl Hls]. destruct ls as [|k ls].
  - cbn [bjoin concat]. by rewrite app_nil_r, Hid.
  - change (bjoin sep (l :: k :: ls)) with (l ++ sep ++ bjoin sep (k :: ls)). rewrite !filter_app, Hid, Hno, IH by done. done.
Qed.

Lemma bjoin_Forall (P : byte → Prop) sep ls : Forall P sep → Forall P (concat ls) → Forall P (bjoin sep ls).
Proof.
  intros Hs. induction ls as [|l ls IH]; intros Hl; [done|]. cbn [concat] in Hl. apply Forall_app in Hl as [Hl Hls].
  destruct ls as [|k ls]; [done|]. change (bjoin sep (l :: k :: ls)) with (l ++ sep ++ bjoin sep (k :: ls)). rewrite !Forall_app. auto.
Qed.

(** What is between the markers of a printed certificate. *)
Definition pem_text (data : bytes) : bytes :=
  [x0a] ++ bjoin [x0a] ((λ index, slice index (index + 64) (b64encode data)) <$> range_step 0 (len (b64encode data)) 64) ++ [x0a].

Lemma pem_text_no_dash data : Forall (λ c, c ≠ x2d) (pem_text data).
Proof.
  unfold pem_text. rewrite !Forall_app. split; [by repeat constructor|]. split; [|by repeat constructor].
  apply bjoin_Forall; [by repeat constructor|]. rewrite pem_lines_concat. eapply Forall_impl; [apply b64encode_plain|]. by intros b [_ ?].
Qed.

Lemma pem_text_words data : concat (bsplit (pem_text data)) = b64encode data.
Proof.
  rewrite concat_bsplit. unfold pem_text. rewrite !filter_app, concat_bjoin; [|by repeat constructor|].
  - rewrite pem_lines_concat, (filter_cons_False _ x0a []), filter_nil by done. by rewrite app_nil_r.
  - rewrite pem_lines_concat. eapply Forall_impl; [apply b64encode_plain|]. by intros b [? _].
Qed.

Lemma pem_body_certificate data : pem_body (certificate_pem data) = Ok data.
Proof.
  pose proof (pem_text_no_dash data) as Hd. pose proof (nowhere_absent x2d (blit "----BEGIN CERTIFICATE-----") _ Hd) as Hb.
  pose proof (nowhere_absent x2d (blit "----END CERTIFICATE-----") _ Hd) as He. change (x2d :: _) with begin_certificate in Hb.
  change (x2d :: _) with end_certificate in He. pose proof (nowhere_absent x2d (blit "----") _ Hd) as H5. change (x2d :: _) with (blit "-----") in H5.
  assert (Hp : certificate_pem data = begin_certificate ++ pem_text data ++ end_certificate ++ [x0a]).
  { unfold certificate_pem, pem_text. by rewrite <- !app_assoc. }
  unfold pem_body. rewrite Hp. unfold bcount.
  rewrite bcount_app, bcount_nowhere by done. change (bcount_from begin_certificate 0 (end_certificate ++ [x0a])) with 0%nat.
  assert (Hs : begin_certificate ++ pem_text data ++ end_certificate ++ [x0a] = (begin_certificate ++ [x0a]) ++ drop 1 (pem_text data) ++ end_certificate ++ [x0a]).
  { unfold pem_text. by rewrite <- !app_assoc. }
  assert (Hc : bcount_from end_certificate 0 (begin_certificate ++ pem_text data ++ end_certificate ++ [x0a]) = 1%nat).
  { rewrite Hs, bcount_nowhere by by_compute. rewrite bcount_nowhere, bcount_app by (done || by apply nowhere_absent, Forall_drop). done. }
  rewrite Hc. cbn [Nat.eqb andb require mbind result_bind]. rewrite bpartition_app. cbn [of_option mbind result_bind].
  rewrite bpartition_nowhere, bpartition_app by done. cbn [of_option mbind result_bind option_bind]. rewrite app_nil_r.
  replace (bcontains (blit "-----") (pem_text data)) with false.
  2:{ rewrite <- (app_nil_r (pem_text data)), bcontains_nowhere by done. done. }
  rewrite (bool_decide_eq_true_2 (bstrip [] = [])), (bool_decide_eq_true_2 (bstrip [x0a] = [])) by by_compute.
  cbn [andb negb require mbind result_bind]. by rewrite pem_text_words, b64_round_trip.
Qed.

Lemma certificate_object_read data : certificate_object data ↔ ∃ item, der_read data 0 0 = Ok (item, len data) ∧ d_tag item = 0x30.
Proof.
  split.
  - intros (v & -> & Hm). exists {| d_tag := 0x30; d_value := v; d_depth := 0 |}. split; [|done].
    pose proof (der_read_tlv [] 0x30 v [] 0) as Hr. rewrite !app_nil_r in Hr. apply Hr; [lia|done|done].
  - intros (item & Hr & Ht). apply der_read_inv in Hr as (pre & post & Hd & Hp & He & _ & _ & _ & Hm); [|done].
    exists (d_value item). split; [|done]. destruct pre; [|rewrite len_cons in Hp; pose proof (len_nonneg pre); lia].
    cbn [app] in Hd. rewrite Hd, len_app in He. destruct post; [|rewrite len_cons in He; pose proof (len_nonneg post); lia].
    rewrite app_nil_r in Hd. rewrite Hd at 1. unfold der_bytes. by rewrite Ht.
Qed.

(** A successful import returns one DER sequence, whatever its armor. *)
Lemma isolated_certificate_sound data d : isolated_certificate_der data = Ok d → certificate_object d.
Proof.
  unfold isolated_certificate_der. intros H. apply bind_Ok_inv in H as (d' & _ & H). apply bind_Ok_inv in H as ([item consumed] & Hr & H).
  apply bind_Ok_inv in H as ([] & Hc%require_Ok & H). bool_inv. injection H as <-. apply certificate_object_read. subst consumed. by exists item.
Qed.

(** Certificates in PEM: importing what certificate_pem prints gives back the certificate, for every input that is
    one DER sequence within the size limit, and every successful import returns such a sequence. *)
Theorem certificate_pem_round_trip data d :
  (certificate_object d → isolated_certificate_der (certificate_pem d) = Ok d) ∧
  (isolated_certificate_der data = Ok d → certificate_object d).
Proof.
  split; [|apply isolated_certificate_sound]. intros Hc. unfold isolated_certificate_der.
  assert (Hin : bcontains begin_certificate (certificate_pem d) = true) by (unfold certificate_pem; apply bcontains_app).
  rewrite Hin. cbn [orb]. rewrite pem_body_certificate. cbn [mbind result_bind].
  apply certificate_object_read in Hc as (item & -> & Ht). cbn [mbind result_bind]. by rewrite Ht, (Z.eqb_refl (len d)).
Qed.

Lemma certificate_pem_round_trip_witness : isolated_certificate_der (certificate_pem [x30; x03; x02; x01; x05]) = Ok [x30; x03; x02; x01; x05].
Proof.
  apply (certificate_pem_round_trip [] [x30; x03; x02; x01; x05]). exists [x02; x01; x05]. split; [by_compute|vm_compute; discriminate].
Defined.

(** C31: The children of a DER object: reading succeeds exactly when the value is the concatenation of canonical
    encodings, within the limits on depth, number and size, and returns the encoded objects one level deeper; otherwise
    it fails with ValueError, and it never runs on. *)
Theorem children_exact item :
  (∀ items, children item = Ok items ↔ children_of item items) ∧ raises is_value_error (children item).
Proof. split; [intros items; apply children_spec|apply raises_children]. Qed.

(** Two object identifiers that print as the same text have the same bytes, so that comparing the text with an
    expected identifier admits one encoding only. *)
Theorem der_oid_injective a b t : der_oid a = Ok t → der_oid b = Ok t → der_bytes a = der_bytes b.
Proof.
  intros Ha Hb. unfold der_bytes. rewrite (der_oid_inj a b t Ha Hb).
  apply der_oid_inv in Ha as (gs & n & ns & Hta & _). apply der_oid_inv in Hb as (hs & m & ms & Htb & _). by rewrite Hta, Htb.
Qed.

(** SHA-256 (2.16.840.1.101.3.4.2.1). *)
Definition sha256_oid : Der :=
  {| d_tag := 6; d_value := [x60; x86; x48; x01; x65; x03; x04; x02; x01]; d_depth := 4 |}.

Lemma der_oid_injective_witness :
  der_oid sha256_oid = Ok (lit "2.16.840.1.101.3.4.2.1") ∧ der_bytes sha256_oid = der_bytes sha256_oid.
Proof. split; [by_compute|]. apply (der_oid_injective sha256_oid sha256_oid (lit "2.16.840.1.101.3.4.2.1")); by_compute. Defined.
