(* ===== verification/Hashing.v ===== *)
(** * Checksums and hashes of the Python standard library

    [zlib.crc32] and SHA-256 are defined here. [hashlib.new(name)] reaches whatever algorithms the linked OpenSSL
    provides, so it is the interface [Hashlib]: a digest size per algorithm name and a digest function with that
    output size. [sha2_suite] implements the interface with the SHA-256 of this file. *)
From S2P Require Import Prelude Bytes.

(** ** [zlib.crc32] *)

Definition crc32_bit (c : Z) : Z :=
  if Z.odd c then Z.lxor (Z.shiftr c 1) 3988292384 else Z.shiftr c 1.
Definition crc32_byte (c : Z) (b : byte) : Z := Nat.iter 8 crc32_bit (Z.lxor c (b2Z b)).
Definition crc32 (l : bytes) : Z := Z.lxor (foldl crc32_byte 4294967295 l) 4294967295.

Lemma lxor_bound a b n : 0 <= n → 0 <= a < 2 ^ n → 0 <= b < 2 ^ n → 0 <= Z.lxor a b < 2 ^ n.
Proof.
  intros Hn Ha Hb. assert (0 <= Z.lxor a b) by (apply Z.lxor_nonneg; lia). split; [done|].
  destruct (decide (Z.lxor a b = 0)) as [->|Hne]; [lia|].
  apply Z.log2_lt_pow2; [lia|]. eapply Z.le_lt_trans; [apply Z.log2_lxor; lia|].
  destruct (decide (n = 0)) as [->|]; [assert (a = 0) by lia; assert (b = 0) by lia; subst; done|].
  assert (Hlog : ∀ x, 0 <= x < 2 ^ n → Z.log2 x < n).
  { intros x Hx. destruct (decide (x = 0)) as [->|]; [simpl; lia|]. apply Z.log2_lt_pow2; lia. }
  apply Z.max_lub_lt; apply Hlog; lia.
Qed.

Lemma crc32_bit_bound c : 0 <= c < 2 ^ 32 → 0 <= crc32_bit c < 2 ^ 32.
Proof.
  intros Hc. assert (0 <= Z.shiftr c 1 < 2 ^ 32).
  { rewrite Z.shiftr_div_pow2 by lia. change (2 ^ 1) with 2.
    split; [apply Z.div_pos; lia|]. apply Z.div_lt_upper_bound; lia. }
  unfold crc32_bit. case_match; [|done]. apply lxor_bound; lia.
Qed.

Lemma crc32_byte_bound c b : 0 <= c < 2 ^ 32 → 0 <= crc32_byte c b < 2 ^ 32.
Proof.
  intros Hc. pose proof (b2Z_range b). unfold crc32_byte.
  assert (0 <= Z.lxor c (b2Z b) < 2 ^ 32) as Hx by (apply lxor_bound; lia).
  simpl Nat.iter. by repeat apply crc32_bit_bound.
Qed.

Lemma crc32_range l : 0 <= crc32 l < 2 ^ 32.
Proof.
  unfold crc32. apply lxor_bound; [lia| |lia].
  assert (H0 : 0 <= 4294967295 < 2 ^ 32) by lia. revert H0. generalize 4294967295.
  induction l as [|b l IH]; intros c Hc; simpl; [done|]. by apply IH, crc32_byte_bound.
Qed.

(** ** SHA-256 *)

Module Sha256.

Definition w32 (z : Z) : Z := z mod 4294967296.
Definition rotr (n x : Z) : Z := Z.lor (Z.shiftr x n) (w32 (Z.shiftl x (32 - n))).
Definition ch (x y z : Z) : Z := Z.lxor (Z.land x y) (Z.land (Z.lxor x 4294967295) z).
Definition maj (x y z : Z) : Z := Z.lxor (Z.land x y) (Z.lxor (Z.land x z) (Z.land y z)).
Definition big_sigma0 (x : Z) : Z := Z.lxor (rotr 2 x) (Z.lxor (rotr 13 x) (rotr 22 x)).
Definition big_sigma1 (x : Z) : Z := Z.lxor (rotr 6 x) (Z.lxor (rotr 11 x) (rotr 25 x)).
Definition sigma0 (x : Z) : Z := Z.lxor (rotr 7 x) (Z.lxor (rotr 18 x) (Z.shiftr x 3)).
Definition sigma1 (x : Z) : Z := Z.lxor (rotr 17 x) (Z.lxor (rotr 19 x) (Z.shiftr x 10)).

(** The round constants are the first 32 bits of the fractional parts of the cube roots of the first 64 primes,
    and the initial words those of the square roots of the first eight. *)
Definition is_prime (n : Z) : bool := forallb (λ d, negb (n mod d =? 0)) (seqZ 2 (Z.sqrt n - 1)).
Definition primes : list Z := List.filter is_prime (seqZ 2 310).

(** The integer cube root, by bisection on the bits below [2 ^ n]. *)
Fixpoint cbrt_bits (n : nat) (acc x : Z) : Z :=
  match n with
  | O => acc
  | S n => let t := acc + 2 ^ Z.of_nat n in cbrt_bits n (if t * t * t <=? x then t else acc) x
  end.

Definition K : list Z := Eval vm_compute in (λ p, w32 (cbrt_bits 36 0 (p * 2 ^ 96))) <$> primes.
Definition initial_words : list Z := Eval vm_compute in (λ p, w32 (Z.sqrt (p * 2 ^ 64))) <$> take 8 primes.

Record state := mk { ha : Z; hb : Z; hc : Z; hd : Z; he : Z; hf : Z; hg : Z; hh : Z }.

Definition init : state :=
  match initial_words with
  | [a; b; c; d; e; f; g; h] => mk a b c d e f g h
  | _ => mk 0 0 0 0 0 0 0 0
  end.

(** Message padding to a multiple of 64 bytes. *)
Definition pad (m : bytes) : bytes :=
  m ++ [x80] ++ zeros ((55 - len m) mod 64) ++ be_encode 8 (8 * len m).

(** The message schedule; the words are kept newest first. *)
Definition schedule_step (ws : list Z) : list Z :=
  match ws !! 1%nat, ws !! 6%nat, ws !! 14%nat, ws !! 15%nat with
  | Some w2, Some w7, Some w15, Some w16 => w32 (sigma1 w2 + w7 + sigma0 w15 + w16) :: ws
  | _, _, _, _ => ws
  end.

Definition schedule (block : bytes) : list Z :=
  reverse (Nat.iter 48 schedule_step (reverse ((λ i, be_decode (slice (4 * i) (4 * i + 4) block)) <$> seqZ 0 16))).

Definition round (s : state) (kw : Z * Z) : state :=
  let t1 := w32 (hh s + big_sigma1 (he s) + ch (he s) (hf s) (hg s) + kw.1 + kw.2) in
  let t2 := w32 (big_sigma0 (ha s) + maj (ha s) (hb s) (hc s)) in
  mk (w32 (t1 + t2)) (ha s) (hb s) (hc s) (w32 (hd s + t1)) (he s) (hf s) (hg s).

Definition compress (s : state) (block : bytes) : state :=
  let r := foldl round s (zip K (schedule block)) in
  mk (w32 (ha s + ha r)) (w32 (hb s + hb r)) (w32 (hc s + hc r)) (w32 (hd s + hd r))
     (w32 (he s + he r)) (w32 (hf s + hf r)) (w32 (hg s + hg r)) (w32 (hh s + hh r)).

Definition output (s : state) : bytes :=
  be_encode 4 (ha s) ++ be_encode 4 (hb s) ++ be_encode 4 (hc s) ++ be_encode 4 (hd s) ++
  be_encode 4 (he s) ++ be_encode 4 (hf s) ++ be_encode 4 (hg s) ++ be_encode 4 (hh s).

Definition blocks (m : bytes) : list bytes :=
  (λ i, slice (64 * i) (64 * i + 64) m) <$> seqZ 0 (len m / 64).

Definition sha256 (m : bytes) : bytes := output (foldl compress init (blocks (pad m))).

Lemma len_sha256 m : len (sha256 m) = 32.
Proof. unfold sha256, output. by len_simpl. Qed.

Example sha256_abc :
  hex (sha256 (blit "abc")) = lit "ba7816bf8f01cfea414140de5dae2223b00361a396177a9cb410ff61f20015ad".
Proof. by_compute. Qed.

End Sha256.

(** ** The [hashlib] interface *)

(** [hash_size a] is [hashlib.new(a).digest_size], or [None] when [hashlib.new] raises [ValueError]; the extendable
    output functions have size 0, and their [digest()] without a length raises [TypeError]. *)
Class Hashlib := {
  hash_size : text → option Z;
  hash_digest : text → bytes → bytes;
  hash_size_nonneg : ∀ a n, hash_size a = Some n → 0 <= n;
  len_hash_digest : ∀ a n m, hash_size a = Some n → 0 < n → len (hash_digest a m) = n;
}.

(** [hashlib.sha256(m).digest()]. *)
Definition sha256 : bytes → bytes := Sha256.sha256.

Definition sha2_size (a : text) : option Z := if bool_decide (a = lit "sha256") then Some 32 else None.

#[export, refine] Instance sha2_suite : Hashlib := {
  hash_size := sha2_size;
  hash_digest := λ _, sha256;
}.
Proof.
  - unfold sha2_size. intros a n. case_bool_decide; intros; simplify_eq; lia.
  - unfold sha2_size. intros a n m. case_bool_decide; intros; simplify_eq. apply Sha256.len_sha256.
Defined.

Example crc32_check : crc32 (blit "123456789") = 0xCBF43926.
Proof. by_compute. Qed.
