(* ===== verification/Collections.v ===== *)
(** * Python dictionaries and [sorted]

    A dictionary is the list of its items in insertion order with distinct keys. [sorted] is stable; with a comparison
    that may raise, the elements are inserted from left to right, so that the first comparison that involves an element
    happens after those of the elements before it, as in the interpreter's sort. *)
From S2P Require Import Prelude.

Section dict.
Context {K V : Type} `{EqDecision K}.

Abbreviation dict := (list (K * V)).

Fixpoint dget (k : K) (d : dict) : option V :=
  match d with
  | [] => None
  | (k', v) :: d => if decide (k = k') then Some v else dget k d
  end.

(** [d[k] = v]: replaces the value in place or appends a new item. *)
Fixpoint dset (k : K) (v : V) (d : dict) : dict :=
  match d with
  | [] => [(k, v)]
  | (k', v') :: d => if decide (k = k') then (k', v) :: d else (k', v') :: dset k v d
  end.

Definition dkeys (d : dict) : list K := d.*1.
Definition dvalues (d : dict) : list V := d.*2.

(** [k in d]. *)
Definition dmem (k : K) (d : dict) : bool := bool_decide (k ∈ dkeys d).

(** The representation invariant. *)
Definition dict_ok (d : dict) : Prop := NoDup (dkeys d).

Lemma dget_None k d : dget k d = None ↔ k ∉ dkeys d.
Proof.
  induction d as [|[k' v] d IH]; simpl; [split; [intros; apply not_elem_of_nil|done]|].
  case_decide; [split; [done|set_solver]|]. rewrite IH. set_solver.
Qed.

Lemma dget_Some_elem k v d : dget k d = Some v → (k, v) ∈ d.
Proof.
  induction d as [|[k' v'] d IH]; simpl; [done|]. case_decide; intros; simplify_eq; set_solver.
Qed.

Lemma elem_dget k v d : dict_ok d → (k, v) ∈ d → dget k d = Some v.
Proof.
  induction d as [|[k' v'] d IH]; intros Hok Hin; [by apply elem_of_nil in Hin|].
  unfold dict_ok in Hok. simpl in *. inv Hok. apply elem_of_cons in Hin as [?|Hin]; simplify_eq.
  - by rewrite decide_True.
  - rewrite decide_False; [by apply IH|]. intros ->. apply (list_elem_of_fmap_2 fst) in Hin. done.
Qed.

Lemma dget_dset k v d k' : dget k' (dset k v d) = if decide (k' = k) then Some v else dget k' d.
Proof.
  induction d as [|[k0 v0] d IH]; simpl; [done|].
  destruct (decide (k = k0)) as [->|]; simpl; repeat case_decide; simplify_eq; try done; by rewrite IH, ?decide_True, ?decide_False.
Qed.

Lemma dkeys_dset k v d : dkeys (dset k v d) = if decide (k ∈ dkeys d) then dkeys d else dkeys d ++ [k].
Proof.
  induction d as [|[k0 v0] d IH]; [by rewrite decide_False by apply not_elem_of_nil|]. cbn [dset].
  destruct (decide (k = k0)) as [->|Hne]; [rewrite decide_True by (by left); done|].
  unfold dkeys in *. rewrite !fmap_cons, IH. cbn [fst]. repeat case_decide; set_solver.
Qed.

Lemma dict_ok_dset k v d : dict_ok d → dict_ok (dset k v d).
Proof.
  unfold dict_ok. intros Hd. rewrite dkeys_dset. case_decide; [done|].
  apply NoDup_app. split; [done|]. split; [set_solver|]. apply NoDup_singleton.
Qed.

Lemma dset_fresh k v d : k ∉ dkeys d → dset k v d = d ++ [(k, v)].
Proof.
  induction d as [|[k0 v0] d IH]; simpl; [done|]. intros Hk. rewrite decide_False by set_solver.
  rewrite IH; [done|set_solver].
Qed.

Lemma elem_dset k v d x : x ∈ dset k v d → x = (k, v) ∨ x ∈ d.
Proof.
  induction d as [|[k0 v0] d IH]; simpl; [set_solver|]. case_decide; set_solver.
Qed.
End dict.
Abbreviation dict K V := (list (K * V)).

(** ** [sorted] *)

Section sorting.
Context {A : Type} (lt : A → A → bool).

(** Inserts [x] after every element that is not greater. *)
Fixpoint insert_sorted (x : A) (l : list A) : list A :=
  match l with
  | [] => [x]
  | y :: l => if lt x y then x :: y :: l else y :: insert_sorted x l
  end.
Definition stable_sort (l : list A) : list A := foldl (λ acc x, insert_sorted x acc) [] l.

Lemma insert_sorted_perm x l : insert_sorted x l ≡ₚ x :: l.
Proof. induction l as [|y l IH]; simpl; [done|]. destruct (lt x y); [done|]. rewrite IH. apply Permutation_swap. Qed.

Lemma stable_sort_perm l : stable_sort l ≡ₚ l.
Proof.
  unfold stable_sort. assert (∀ acc, foldl (λ acc x, insert_sorted x acc) acc l ≡ₚ acc ++ l) as ->; [|done].
  induction l as [|x l IH]; intros acc; simpl; [by rewrite app_nil_r|].
  rewrite IH, insert_sorted_perm. by rewrite <- Permutation_middle.
Qed.

Context (Htrans : ∀ x y z, lt x y = true → lt z y = false → lt z x = false)
        (Hasym : ∀ x y, lt x y = true → lt y x = false).

Abbreviation not_gt := (λ x y, lt y x = false).

Lemma insert_sorted_sorted x l : StronglySorted not_gt l → StronglySorted not_gt (insert_sorted x l).
Proof.
  induction 1 as [|y l Hl IH Hy]; simpl; [repeat constructor|]. destruct (lt x y) eqn:E.
  - constructor; [by constructor|]. constructor; [by apply Hasym|].
    eapply Forall_impl; [exact Hy|]. intros z Hz. simpl in *. by eapply Htrans.
  - constructor; [done|]. rewrite insert_sorted_perm. by constructor.
Qed.

Lemma stable_sort_sorted l : StronglySorted not_gt (stable_sort l).
Proof.
  unfold stable_sort. assert (∀ acc, StronglySorted not_gt acc → StronglySorted not_gt (foldl (λ acc x, insert_sorted x acc) acc l)) as Hg.
  { induction l as [|x l IH]; intros acc Ha; simpl; [done|]. by apply IH, insert_sorted_sorted. }
  apply Hg. constructor.
Qed.
End sorting.

(** [sorted(l, key=functools.cmp_to_key(cmp))] where [cmp] may raise. *)
Section sortM.
Context {A : Type} (cmp : A → A → result Z).

Fixpoint insertM (x : A) (l : list A) : result (list A) :=
  match l with
  | [] => mret [x]
  | y :: l =>
      c ← cmp x y;
      if c <? 0 then mret (x :: y :: l) else (l' ← insertM x l; mret (y :: l'))
  end.
Definition sortM (l : list A) : result (list A) := foldM (λ acc x, insertM x acc) [] l.

Lemma insertM_pure (lt : A → A → bool) x l :
  (∀ y, y ∈ l → ∃ c, cmp x y = Ok c ∧ (c <? 0) = lt x y) → insertM x l = Ok (insert_sorted lt x l).
Proof.
  induction l as [|y l IH]; intros Hc; simpl; [done|].
  destruct (Hc y) as (c & -> & Hlt); [by left|]. simpl. rewrite Hlt. destruct (lt x y); [done|].
  rewrite IH; [done|]. intros z Hz. apply Hc. by right.
Qed.

Lemma insertM_perm x l l' : insertM x l = Ok l' → l' ≡ₚ x :: l.
Proof.
  revert l'. induction l as [|y l IH]; intros l' Hl; simpl in Hl; res_inv; [done|].
  destruct (_ <? 0); res_inv; [done|].
  rewrite (IH _ ltac:(eassumption)). apply Permutation_swap.
Qed.

Lemma sortM_perm l l' : sortM l = Ok l' → l' ≡ₚ l.
Proof.
  unfold sortM. assert (Hg : ∀ acc, foldM (λ acc x, insertM x acc) acc l = Ok l' → l' ≡ₚ acc ++ l).
  { induction l as [|x l IH]; intros acc Hl; simpl in Hl; res_inv; [by rewrite app_nil_r|].
    rewrite (IH _ Hl), (insertM_perm _ _ _ H). by rewrite <- Permutation_middle. }
  apply Hg.
Qed.

Lemma raises_insertM P x l : (∀ y, y ∈ l → raises P (cmp x y)) → raises P (insertM x l).
Proof.
  induction l as [|y l IH]; intros Hc; [done|]. cbn [insertM]. apply raises_bind; [apply Hc; by left|]. intros c _.
  destruct (_ <? 0); [apply raises_ok|]. apply raises_bind; [|intros; apply raises_ok]. apply IH. intros z Hz. apply Hc. by right.
Qed.
End sortM.
