(* ===== verification/Json.v ===== *)
(** * JSON values: what [json.loads] returns and what [json.dumps] prints

    Decoded documents are [json] values; a float is the dyadic rational it stands for, or one of the three
    non-finite values that Python's decoder accepts. Printed documents are [jv] values: the text, integers, booleans, lists
    and dictionaries that the tools write, with [sort_keys=True]. *)
From S2P Require Import Prelude Bytes PyText Collections.

Inductive pyfloat := Finite (mantissa exponent : Z) | Infinite (negative : bool) | NaN.

Inductive json :=
  | JNull
  | JBool (b : bool)
  | JInt (z : Z)
  | JFloat (f : pyfloat)
  | JStr (t : text)
  | JList (l : list json)
  | JObj (items : list (text * json)).

(** [d.get(key)] of a decoded object; [None] is both a missing key and JSON's [null]. *)
Definition jget (key : text) (items : list (text * json)) : json := default JNull (dget key items).

(** [j[key]]. *)
Definition item (j : json) (key : string) : result json :=
  match j with JObj items => of_option KeyError (dget (lit key) items) | _ => Err TypeError end.

(** [for x in j]. *)
Definition items_of (j : json) : result (list json) := match j with JList l => Ok l | _ => Err TypeError end.

(** [j == t] for a string. *)
Definition is_str (j : json) (t : text) : bool := match j with JStr s => bool_decide (s = t) | _ => false end.

Lemma is_str_iff j t : is_str j t = true ↔ j = JStr t.
Proof. destruct j; simpl; rewrite ?bool_decide_eq_true; naive_solver. Qed.

Lemma is_str_inv j t : is_str j t = true → j = JStr t.
Proof. apply is_str_iff. Qed.

Definition int_of (j : json) : result Z := match j with JInt z => Ok z | JBool b => Ok (Z.b2z b) | _ => Err TypeError end.

(** [m * 2^e = z]. *)
Definition float_is (f : pyfloat) (z : Z) : bool :=
  match f with
  | Finite m e => if 0 <=? e then m * 2 ^ e =? z else m =? z * 2 ^ (- e)
  | _ => false
  end.

(** [j == z] in Python: booleans are integers, and floats compare by value. *)
Definition json_eq_int (j : json) (z : Z) : bool :=
  match j with
  | JInt x => x =? z
  | JBool b => (if b then 1 else 0) =? z
  | JFloat f => float_is f z
  | _ => false
  end.

(** ** Printing *)

Definition hex4 (n : Z) : text :=
  [hex_digit (n / 4096 mod 16); hex_digit (n / 256 mod 16); hex_digit (n / 16 mod 16); hex_digit (n mod 16)].

(** One character of a string with [ensure_ascii=True]. *)
Definition json_char (c : Z) : text :=
  if c =? 34 then lit "\" ++ [34]
  else if c =? 92 then lit "\\"
  else if c =? 10 then lit "\n"
  else if c =? 13 then lit "\r"
  else if c =? 9 then lit "\t"
  else if c =? 12 then lit "\f"
  else if c =? 8 then lit "\b"
  else if (32 <=? c) && (c <=? 126) then [c]
  else if c <? 0x10000 then lit "\u" ++ hex4 c
  else lit "\u" ++ hex4 (0xD800 + (c - 0x10000) / 0x400) ++ lit "\u" ++ hex4 (0xDC00 + (c - 0x10000) mod 0x400).

Definition json_str (t : text) : text := 34 :: (t ≫= json_char) ++ [34].

Inductive jv :=
  | VStr (t : text)
  | VInt (z : Z)
  | VBool (b : bool)
  | VList (l : list jv)
  | VObj (items : list (text * jv)).

(** The items in key order, as [sort_keys=True] prints them. *)
Definition sort_items {V} (items : list (text * V)) : list (text * V) :=
  stable_sort (λ a b, negb (text_leb b.1 a.1)) items.

(** The line break and indentation of [indent=2] at a nesting level. *)
Definition newline (level : nat) : text := 10 :: replicate (2 * level) 32.

(** [json.dumps(v, sort_keys=True, separators=(",", ":"))]; the items of an object must be sorted already. *)
Fixpoint dumps_compact (v : jv) : text :=
  match v with
  | VStr t => json_str t
  | VInt z => dec z
  | VBool b => lit (if b then "true" else "false")
  | VList l => lit "[" ++ join (lit ",") (List.map dumps_compact l) ++ lit "]"
  | VObj items =>
      lit "{" ++ join (lit ",") (List.map (λ i, json_str (fst i) ++ lit ":" ++ dumps_compact (snd i)) items) ++ lit "}"
  end.

(** [json.dumps(v, indent=2, sort_keys=True)]; the items of an object must be sorted already. *)
Fixpoint dumps_indent (level : nat) (v : jv) : text :=
  match v with
  | VStr t => json_str t
  | VInt z => dec z
  | VBool b => lit (if b then "true" else "false")
  | VList [] => lit "[]"
  | VList l =>
      lit "[" ++ newline (S level) ++
      join (lit "," ++ newline (S level)) (List.map (dumps_indent (S level)) l) ++ newline level ++ lit "]"
  | VObj [] => lit "{}"
  | VObj items =>
      lit "{" ++ newline (S level) ++
      join (lit "," ++ newline (S level))
        (List.map (λ i, json_str (fst i) ++ lit ": " ++ dumps_indent (S level) (snd i)) items) ++
      newline level ++ lit "}"
  end.

(** Sorts the items of every object. *)
Fixpoint sort_keys (v : jv) : jv :=
  match v with
  | VList l => VList (List.map sort_keys l)
  | VObj items => VObj (sort_items (List.map (λ i, (fst i, sort_keys (snd i))) items))
  | _ => v
  end.

(** ** Strings are uniquely readable *)

Lemma hex_digit_inj a b : 0 <= a < 16 → 0 <= b < 16 → hex_digit a = hex_digit b → a = b.
Proof. intros Ha Hb Heq. apply (f_equal unhex_digit) in Heq. rewrite !unhex_hex_digit in Heq by done. by simplify_eq. Qed.

(** Four hexadecimal digits and the rest. *)
Definition read_hex4 (t : text) : option (Z * text) :=
  match t with
  | a :: b :: c :: d :: rest =>
      w ← unhex_digit a; x ← unhex_digit b; y ← unhex_digit c; z ← unhex_digit d;
      Some (w * 4096 + x * 256 + y * 16 + z, rest)
  | _ => None
  end.

(** Reads one printed character. *)
Definition read_char (t : text) : option (Z * text) :=
  match t with
  | [] => None
  | c :: t =>
      if c =? 34 then None
      else if negb (c =? 92) then Some (c, t)
      else match t with
      | [] => None
      | k :: t =>
          if k =? 117 then
            '(n, rest) ← read_hex4 t;
            if is_high n then '(m, rest) ← read_hex4 (drop 2 rest); Some (0x10000 + (n - 0xD800) * 0x400 + (m - 0xDC00), rest)
            else Some (n, rest)
          else n ← dget k [(34, 34); (92, 92); (110, 10); (114, 13); (116, 9); (102, 12); (98, 8)]; Some (n, t)
      end
  end.

Lemma read_hex4_print n rest : 0 <= n < 0x10000 → read_hex4 (hex4 n ++ rest) = Some (n, rest).
Proof.
  intros Hn. unfold hex4. cbn [app read_hex4].
  pose proof (Z.mod_pos_bound (n / 4096) 16 ltac:(lia)). pose proof (Z.mod_pos_bound (n / 256) 16 ltac:(lia)).
  pose proof (Z.mod_pos_bound (n / 16) 16 ltac:(lia)). pose proof (Z.mod_pos_bound n 16 ltac:(lia)).
  rewrite !unhex_hex_digit by done. cbn [mbind option_bind]. do 2 f_equal.
  Z.to_euclidean_division_equations. lia.
Qed.

Lemma read_char_print c rest : is_scalar c = true → read_char (json_char c ++ rest) = Some (c, rest).
Proof.
  unfold is_scalar, json_char. intros Hc.
  repeat match goal with |- context [if ?x =? ?k then _ else _] => destruct (Z.eqb_spec x k); [subst; done|] end.
  destruct ((32 <=? c) && (c <=? 126)) eqn:E.
  - cbn [app read_char]. by replace (c =? 34) with false by lia; replace (c =? 92) with false by lia.
  - destruct (c <? 0x10000) eqn:E'.
    + change (lit "\u" ++ hex4 c) with (92 :: 117 :: hex4 c). cbn [app read_char]. simpl (_ =? _). cbn [negb].
      rewrite read_hex4_print by lia. cbn [mbind option_bind]. unfold is_high. by replace (_ && _) with false by lia.
    + set (d := c - 0x10000). pose proof (Z.div_mod d 0x400 ltac:(lia)). pose proof (Z.mod_pos_bound d 0x400 ltac:(lia)).
      rewrite <- !(assoc_L (++)). change (lit "\u" ++ ?t) with (92 :: 117 :: t). cbn [read_char]. simpl (_ =? _). cbn [negb].
      rewrite read_hex4_print by lia. cbn [mbind option_bind]. unfold is_high. replace (_ && _) with true by lia.
      assert (Hdrop : ∀ t, drop 2 (lit "\u" ++ t) = t) by done. rewrite Hdrop, read_hex4_print by lia. cbn [mbind option_bind]. do 2 f_equal. lia.
Qed.

Lemma json_chars_inj t t' r r' :
  forallb is_scalar t = true → forallb is_scalar t' = true →
  (t ≫= json_char) ++ 34 :: r = (t' ≫= json_char) ++ 34 :: r' → t = t' ∧ r = r'.
Proof.
  revert t'. induction t as [|c t IH]; intros [|c' t'] Ht Ht' Heq; cbn [forallb] in *; bool_inv.
  - simpl in Heq. by simplify_eq.
  - rewrite bind_cons, <- (assoc_L (++)) in Heq. apply (f_equal read_char) in Heq. by rewrite read_char_print in Heq.
  - rewrite bind_cons, <- (assoc_L (++)) in Heq. apply (f_equal read_char) in Heq. by rewrite read_char_print in Heq.
  - rewrite !bind_cons, <- !(assoc_L (++)) in Heq. apply (f_equal read_char) in Heq.
    rewrite !read_char_print in Heq by done. simplify_eq. destruct (IH t') as [-> ->]; done.
Qed.

(** A printed string determines its text and what follows it. *)
Lemma json_str_inj t t' r r' :
  forallb is_scalar t = true → forallb is_scalar t' = true → json_str t ++ r = json_str t' ++ r' → t = t' ∧ r = r'.
Proof.
  intros Ht Ht' Heq. unfold json_str in Heq. rewrite <- !app_comm_cons, <- !(assoc_L (++)) in Heq.
  injection Heq as Heq. by apply json_chars_inj.
Qed.

Lemma join_comma_cons p ps : join (lit ",") (p :: ps) = p ++ (ps ≫= cons 44).
Proof.
  revert p. induction ps as [|q ps IH]; intros p; [by rewrite app_nil_r|].
  change (join (lit ",") (p :: q :: ps)) with (p ++ [44] ++ join (lit ",") (q :: ps)). by rewrite IH, bind_cons.
Qed.

(** So does a printed list of strings. *)
Lemma json_strs_inj l l' r r' :
  Forall (λ t, forallb is_scalar t = true) l → Forall (λ t, forallb is_scalar t = true) l' →
  join (lit ",") (json_str <$> l) ++ 93 :: r = join (lit ",") (json_str <$> l') ++ 93 :: r' → l = l' ∧ r = r'.
Proof.
  assert (Htail : ∀ l l', Forall (λ t, forallb is_scalar t = true) l → Forall (λ t, forallb is_scalar t = true) l' →
    ((json_str <$> l) ≫= cons 44) ++ 93 :: r = ((json_str <$> l') ≫= cons 44) ++ 93 :: r' → l = l' ∧ r = r').
  { intros k k' Hk. revert k'. induction Hk as [|t k Ht Hk IH]; intros [|t' k'] Hk' Heq;
      [simpl in Heq; by simplify_eq|by simpl in Heq|by simpl in Heq|]. apply Forall_cons in Hk' as [Ht' Hk'].
    rewrite !fmap_cons, !bind_cons, <- !(assoc_L (++)), <- !app_comm_cons in Heq.
    apply (f_equal tail) in Heq. cbn [tail] in Heq. apply json_str_inj in Heq as [-> Heq]; [|done..]. apply IH in Heq as [-> ->]; done. }
  intros Hl Hl' Heq. destruct l as [|t l], l' as [|t' l']; try (by simplify_eq/=).
  - by destruct l'.
  - by destruct l.
  - rewrite !fmap_cons, !join_comma_cons, <- !(assoc_L (++)) in Heq.
    apply Forall_cons in Hl as [Ht Hl], Hl' as [Ht' Hl']. apply json_str_inj in Heq as [-> Heq]; [|done..]. apply Htail in Heq as [-> ->]; done.
Qed.
