(* ===== verification/PosixPath.v ===== *)
(** * Paths

    The functions of [os.path] and the pure paths of [pathlib] that the tools use, on path strings, and the facts about
    paths that are printed from lists of plain names. *)
From S2P Require Import Prelude Bytes PyText.

Definition dot : text := lit ".".
Definition dotdot : text := lit "..".

(** ** [os.path] *)

(** [os.path.join(a, b)]. *)
Definition os_join (a b : text) : text :=
  if startswith b [47] then b
  else if bool_decide (a = []) || endswith a [47] then a ++ b
  else a ++ 47 :: b.

(** [os.path.join( *parts)] for at least one part. *)
Definition os_join_all (parts : list text) : text :=
  match parts with [] => [] | p :: ps => foldl os_join p ps end.

Definition is_slash (c : Z) : bool := c =? 47.

(** [os.path.dirname(p)]. *)
Definition dirname (p : text) : text :=
  match rpartition_on 47 p with
  | (None, _) => []
  | (Some head, _) =>
      let head := head ++ [47] in
      if forallb is_slash head then head else rstrip_by is_slash head
  end.

(** [os.path.basename(p)]. *)
Definition basename (p : text) : text := (rpartition_on 47 p).2.

(** The slashes that [os.path.normpath] keeps at the front: POSIX gives exactly two a meaning of their own. *)
Definition initial_slashes (p : text) : nat :=
  if startswith p [47] then
    if startswith p [47; 47] && negb (startswith p [47; 47; 47]) then 2 else 1
  else 0.

(** One component of [os.path.normpath]; the components kept so far are in reverse. *)
Definition norm_step (absolute : bool) (kept : list text) (comp : text) : list text :=
  if bool_decide (comp = []) || bool_decide (comp = dot) then kept
  else if negb (bool_decide (comp = dotdot)) || (negb absolute && bool_decide (kept = []))
          || bool_decide (head kept = Some dotdot) then comp :: kept
  else tail kept.

(** [os.path.normpath(p)]. *)
Definition normpath (p : text) : text :=
  if bool_decide (p = []) then dot
  else
    let n := initial_slashes p in
    let kept := reverse (foldl (norm_step (0 <? n)%nat) [] (split_on 47 p)) in
    let r := replicate n 47 ++ join [47] kept in
    if bool_decide (r = []) then dot else r.

(** [os.path.abspath(p)] in the working directory [cwd]. *)
Definition abspath (cwd p : text) : text := normpath (if startswith p [47] then p else os_join cwd p).

(** The length of the longest common prefix of two lists of components. *)
Fixpoint common_prefix (a b : list text) : nat :=
  match a, b with
  | x :: a, y :: b => if decide (x = y) then S (common_prefix a b) else O
  | _, _ => O
  end.

(** [os.path.relpath(p, start)] for a [p] that is not empty. *)
Definition relpath (cwd p start : text) : text :=
  let components t := List.filter (λ c, negb (bool_decide (c = []))) (split_on 47 (abspath cwd t)) in
  let start_list := components start in
  let path_list := components p in
  let i := common_prefix start_list path_list in
  let rel_list := replicate (length start_list - i) dotdot ++ drop i path_list in
  if bool_decide (rel_list = []) then dot else os_join_all rel_list.

(** ** [pathlib.PurePosixPath] *)

Record pure_path := { pp_root : text; pp_tail : list text }.

#[export] Instance pure_path_eq_dec : EqDecision pure_path.
Proof. solve_decision. Defined.

Definition pure_component (c : text) : bool := negb (bool_decide (c = []) || bool_decide (c = dot)).

Definition PurePosixPath (p : text) : pure_path :=
  {| pp_root := replicate (initial_slashes p) 47; pp_tail := List.filter pure_component (split_on 47 p) |}.

Definition pp_is_absolute (p : pure_path) : bool := negb (bool_decide (pp_root p = [])).

(** [path.parts]. *)
Definition pp_parts (p : pure_path) : list text :=
  if pp_is_absolute p then pp_root p :: pp_tail p else pp_tail p.

(** [str(path)]. *)
Definition pp_str (p : pure_path) : text :=
  let t := pp_root p ++ join [47] (pp_tail p) in if bool_decide (t = []) then dot else t.

(** [path.parent]. *)
Definition pp_parent (p : pure_path) : pure_path :=
  {| pp_root := pp_root p; pp_tail := take (length (pp_tail p) - 1) (pp_tail p) |}.

(** [path.name]. *)
Definition pp_name (p : pure_path) : text := default [] (last (pp_tail p)).

(** [path / other]. *)
Definition pp_div (p q : pure_path) : pure_path :=
  if pp_is_absolute q then q else {| pp_root := pp_root p; pp_tail := pp_tail p ++ pp_tail q |}.

(** [path.is_relative_to(other)]. *)
Definition pp_relative_to (p q : pure_path) : bool :=
  bool_decide (pp_root p = pp_root q) && bool_decide (pp_tail q `prefix_of` pp_tail p).

(** ** Plain names *)

(** A component that names an entry of a directory. *)
Definition name_ok (c : text) : bool :=
  negb (bool_decide (c = [])) && negb (bool_decide (c = dot)) && negb (bool_decide (c = dotdot))
  && negb (bool_decide (47 ∈ c)).

Definition names_ok (cs : list text) : Prop := Forall (λ c, name_ok c = true) cs.

(** The relative and absolute paths of a list of names. *)
Definition rel (cs : list text) : text := join [47] cs.
Definition abs (cs : list text) : text := 47 :: join [47] cs.

Lemma name_ok_spec c : name_ok c = true ↔ c ≠ [] ∧ c ≠ dot ∧ c ≠ dotdot ∧ 47 ∉ c.
Proof. unfold name_ok. rewrite !andb_true_iff, !negb_true_iff, !bool_decide_eq_false. tauto. Qed.

Lemma names_ok_app cs ds : names_ok (cs ++ ds) ↔ names_ok cs ∧ names_ok ds.
Proof. apply Forall_app. Qed.

Lemma names_no_slash cs : names_ok cs → Forall (λ c, 47 ∉ c) cs.
Proof. intros Hcs. eapply Forall_impl; [exact Hcs|]. intros c Hc. by apply name_ok_spec in Hc as (_ & _ & _ & ?). Qed.

Lemma join_nil_iff cs : names_ok cs → join [47] cs = [] ↔ cs = [].
Proof.
  intros Hcs. split; [|by intros ->]. destruct cs as [|c [|d ds]]; [done| |].
  - simpl. inv Hcs. apply name_ok_spec in H1. naive_solver.
  - rewrite join_cons2. destruct c; simpl; done.
Qed.

Lemma split_rel cs : cs ≠ [] → names_ok cs → split_on 47 (rel cs) = cs.
Proof. intros Hne Hcs. apply split_on_join; [done|]. by apply names_no_slash. Qed.

Lemma rel_inj cs ds : names_ok cs → names_ok ds → rel cs = rel ds → cs = ds.
Proof.
  intros Hcs Hds Heq. destruct (decide (cs = [])) as [->|Hc].
  - symmetry in Heq. by apply join_nil_iff in Heq.
  - destruct (decide (ds = [])) as [->|Hd]; [by apply join_nil_iff in Heq|].
    rewrite <- (split_rel cs), <- (split_rel ds) by done. by rewrite Heq.
Qed.

(** Components as [str.split] yields them, without empty ones; [..] is allowed. *)
Definition parts_ok (cs : list text) : Prop := Forall (λ c, c ≠ [] ∧ 47 ∉ c) cs.

Lemma names_parts cs : names_ok cs → parts_ok cs.
Proof. intros H. eapply Forall_impl; [exact H|]. intros c Hc. apply name_ok_spec in Hc. tauto. Qed.

Lemma join_nil_parts cs : parts_ok cs → join [47] cs = [] ↔ cs = [].
Proof.
  intros Hcs. split; [|by intros ->]. destruct cs as [|c [|d ds]]; [done| |].
  - simpl. inv Hcs. naive_solver.
  - rewrite join_cons2. destruct c; simpl; done.
Qed.

Lemma last_char_parts cs : cs ≠ [] → parts_ok cs → ∃ t c, rel cs = t ++ [c] ∧ c ≠ 47.
Proof.
  intros Hne Hcs. destruct (exists_last Hne) as (ds & d & ->). apply Forall_app in Hcs as [_ Hd].
  apply Forall_singleton in Hd as (Hd & Hs).
  destruct (exists_last Hd) as (t & c & ->). assert (c ≠ 47) by set_solver. unfold rel.
  destruct (decide (ds = [])) as [->|]; [by exists t, c|]. rewrite join_app1 by done. simpl.
  exists (join [47] ds ++ 47 :: t), c. by rewrite <- app_assoc.
Qed.

Lemma last_char_rel cs : cs ≠ [] → names_ok cs → ∃ t c, rel cs = t ++ [c] ∧ c ≠ 47.
Proof. intros Hne Hcs. apply last_char_parts; [done|]. by apply names_parts. Qed.

Lemma endswith_snoc t c s : endswith (t ++ [c]) [s] = bool_decide (c = s).
Proof.
  unfold endswith. apply bool_decide_ext. split.
  - intros [k Hk]. by apply app_inj_tail in Hk as [_ ->].
  - intros ->. by exists t.
Qed.

Lemma startswith_parts cs : parts_ok cs → startswith (rel cs) [47] = false.
Proof.
  intros Hcs. apply bool_decide_eq_false. intros [k Hk]. unfold rel in Hk. destruct cs as [|c cs]; [done|].
  inv Hcs. destruct H1 as [? ?]. destruct c as [|x c]; [done|].
  destruct cs; simpl in Hk; simplify_eq; set_solver.
Qed.

Lemma startswith_rel cs : names_ok cs → startswith (rel cs) [47] = false.
Proof. intros. by apply startswith_parts, names_parts. Qed.

Lemma endswith_parts cs : parts_ok cs → endswith (rel cs) [47] = false.
Proof.
  intros Hcs. destruct (decide (cs = [])) as [->|Hne]; [done|].
  destruct (last_char_parts cs Hne Hcs) as (t & c & -> & ?). rewrite endswith_snoc. by apply bool_decide_eq_false.
Qed.

Lemma os_join_parts cs ds : cs ≠ [] → ds ≠ [] → parts_ok cs → parts_ok ds → os_join (rel cs) (rel ds) = rel (cs ++ ds).
Proof.
  intros Hc Hd Hcs Hds. unfold os_join. rewrite startswith_parts, endswith_parts by done.
  rewrite bool_decide_false by (by intros ->%join_nil_parts). unfold rel. destruct ds as [|d ds]; [done|].
  by rewrite join_app1.
Qed.

Lemma os_join_all_parts cs : cs ≠ [] → parts_ok cs → os_join_all cs = rel cs.
Proof.
  destruct cs as [|c cs]; [done|]. intros _ Hcs. simpl.
  assert (Hg : ∀ ds ps, ps ≠ [] → parts_ok ps → parts_ok ds → foldl os_join (rel ps) ds = rel (ps ++ ds)).
  { induction ds as [|d ds IH]; intros ps Hne Hps Hds; simpl; [by rewrite app_nil_r|]. inv Hds.
    change d with (rel [d]) at 1. rewrite os_join_parts; [|done|done|done|by constructor]. rewrite IH; [|by destruct ps| |done].
    - by rewrite <- app_assoc.
    - apply Forall_app. split; [done|]. by constructor. }
  inv Hcs. change c with (rel [c]) at 1. rewrite Hg; [done|done| |done]. by constructor.
Qed.

Lemma os_join_all_rel cs : cs ≠ [] → names_ok cs → os_join_all cs = rel cs.
Proof. intros Hne Hcs. apply os_join_all_parts; [done|]. by apply names_parts. Qed.

Lemma split_parts cs : cs ≠ [] → parts_ok cs → split_on 47 (rel cs) = cs.
Proof. intros Hne Hcs. apply split_on_join; [done|]. eapply Forall_impl; [exact Hcs|]. by intros c [_ ?]. Qed.

Lemma os_join_abs rs cs : cs ≠ [] → names_ok rs → names_ok cs → os_join (abs rs) (rel cs) = abs (rs ++ cs).
Proof.
  intros Hc Hrs Hcs. unfold os_join. rewrite startswith_rel by done. rewrite bool_decide_false by done.
  destruct (decide (rs = [])) as [->|Hr]; [done|]. destruct (last_char_rel rs Hr Hrs) as (t & c & Ht & Hne).
  unfold abs. fold (rel rs). rewrite Ht, app_comm_cons, endswith_snoc, bool_decide_false by done. simpl.
  f_equal. rewrite <- Ht. unfold rel. destruct cs as [|d ds]; [done|]. by rewrite join_app1.
Qed.

Lemma os_join_abs_nil rs : rs ≠ [] → names_ok rs → os_join (abs rs) [] = abs rs ++ [47].
Proof.
  intros Hr Hrs. unfold os_join. destruct (last_char_rel rs Hr Hrs) as (t & c & Ht & Hne).
  unfold abs. fold (rel rs). rewrite Ht, app_comm_cons, endswith_snoc, (bool_decide_false (c = 47)) by done. done.
Qed.

Lemma rpartition_snoc (t u : text) : 47 ∉ u → rpartition_on 47 (t ++ 47 :: u) = (Some t, u).
Proof.
  intros Hu. unfold rpartition_on. rewrite reverse_app, reverse_cons, <- app_assoc. simpl.
  rewrite (proj2 (partition_on_Some 47 _ (reverse u) (reverse t))).
  - simpl. by rewrite !reverse_involutive.
  - split; [done|]. by rewrite elem_of_reverse.
Qed.

Lemma rpartition_absent (t : text) : 47 ∉ t → rpartition_on 47 t = (None, t).
Proof.
  intros Hu. unfold rpartition_on. rewrite (proj2 (partition_on_None 47 _ (reverse t))).
  - simpl. by rewrite reverse_involutive.
  - split; [done|]. by rewrite elem_of_reverse.
Qed.

Lemma rstrip_slash t c : c ≠ 47 → rstrip_by is_slash (t ++ [c; 47]) = t ++ [c].
Proof.
  intros Hc. unfold rstrip_by. rewrite reverse_app. simpl. unfold is_slash at 1.
  destruct (Z.eqb_spec c 47); [done|]. by rewrite reverse_cons, reverse_involutive.
Qed.

Lemma dirname_prefixed u cs c :
  (cs ≠ [] ∨ forallb is_slash u = true) → names_ok cs → 47 ∉ c →
  dirname (u ++ rel cs ++ 47 :: c) = if decide (cs = []) then u ++ [47] else u ++ rel cs.
Proof.
  intros Hne Hcs Hc. unfold dirname. rewrite app_assoc, rpartition_snoc by done. case_decide as Hd.
  - subst cs. destruct Hne as [?|Hu]; [done|]. unfold rel. simpl. rewrite app_nil_r.
    by rewrite forallb_app, Hu.
  - destruct (last_char_rel cs Hd Hcs) as (t & x & -> & Hx). rewrite <- !app_assoc.
    replace (forallb is_slash _) with false.
    + simpl. rewrite (app_assoc u t [x]), (app_assoc u t [x; 47]). by apply rstrip_slash.
    + symmetry. rewrite !forallb_app. simpl. unfold is_slash at 3. destruct (Z.eqb_spec x 47); [done|].
      by rewrite !andb_false_r.
Qed.

Lemma dirname_rel cs c : names_ok cs → 47 ∉ c → dirname (rel (cs ++ [c])) = rel cs.
Proof.
  intros Hcs Hc. destruct (decide (cs = [])) as [->|Hne].
  - unfold dirname, rel. simpl. by rewrite rpartition_absent.
  - replace (rel (cs ++ [c])) with ([] ++ rel cs ++ 47 :: c) by (unfold rel; by rewrite join_app1).
    rewrite dirname_prefixed by auto. by rewrite decide_False.
Qed.

Lemma dirname_abs rs c : names_ok rs → 47 ∉ c → dirname (abs (rs ++ [c])) = abs rs.
Proof.
  intros Hrs Hc. destruct (decide (rs = [])) as [->|Hne].
  - unfold dirname. change (abs ([] ++ [c])) with ([] ++ 47 :: c). by rewrite rpartition_snoc.
  - replace (abs (rs ++ [c])) with ([47] ++ rel rs ++ 47 :: c) by (unfold abs, rel; by rewrite join_app1).
    rewrite dirname_prefixed by auto. by rewrite decide_False.
Qed.

Lemma split_abs rs : rs ≠ [] → names_ok rs → split_on 47 (abs rs) = [] :: rs.
Proof. intros Hne Hrs. unfold abs. simpl. f_equal. by apply split_rel. Qed.

Lemma norm_names absolute kept cs :
  names_ok cs → foldl (norm_step absolute) kept cs = reverse cs ++ kept.
Proof.
  revert kept. induction cs as [|c cs IH]; intros kept Hcs; simpl; [done|]. inv Hcs.
  apply name_ok_spec in H1 as (H1 & H3 & H4 & _). unfold norm_step at 2.
  rewrite (bool_decide_false (c = [])), (bool_decide_false (c = dot)), (bool_decide_false (c = dotdot)) by done. simpl.
  rewrite IH by done. by rewrite reverse_cons, <- app_assoc.
Qed.

Lemma initial_slashes_abs rs : names_ok rs → initial_slashes (abs rs) = 1%nat.
Proof.
  intros Hrs. unfold initial_slashes, abs.
  replace (startswith (47 :: join [47] rs) [47]) with true by (symmetry; apply (startswith_app [47])).
  replace (startswith (47 :: join [47] rs) [47; 47]) with false; [done|]. symmetry. apply bool_decide_eq_false.
  intros [k Hk]. injection Hk as Hk. pose proof (startswith_rel rs Hrs) as Hs. apply bool_decide_eq_false in Hs. apply Hs.
  exists k. exact Hk.
Qed.

Lemma normpath_abs rs : names_ok rs → normpath (abs rs) = abs rs.
Proof.
  intros Hrs. unfold normpath. rewrite bool_decide_false by done. rewrite initial_slashes_abs by done.
  destruct (decide (rs = [])) as [->|Hne]; [done|]. rewrite split_abs by done. cbn [foldl].
  change (norm_step _ [] []) with (@nil text). rewrite norm_names by done. rewrite app_nil_r, reverse_involutive. done.
Qed.

(** *** Relative paths between absolute ones *)

Lemma abspath_abs cwd rs : names_ok rs → abspath cwd (abs rs) = abs rs.
Proof.
  intros Hrs. unfold abspath. replace (startswith (abs rs) [47]) with true by (symmetry; apply (startswith_app [47])).
  by apply normpath_abs.
Qed.

Lemma split_trailing t : split_on 47 (t ++ [47]) = split_on 47 t ++ [[]].
Proof.
  induction t as [|c t IH]; [done|]. simpl. rewrite IH. destruct (c =? 47); [done|].
  pose proof (split_on_not_nil 47 t). destruct (split_on 47 t); done.
Qed.

Lemma abspath_trailing cwd rs : rs ≠ [] → names_ok rs → abspath cwd (abs rs ++ [47]) = abs rs.
Proof.
  intros Hne Hrs. unfold abspath. replace (startswith (abs rs ++ [47]) [47]) with true by (symmetry; apply (startswith_app [47])).
  unfold normpath. rewrite bool_decide_false by (by destruct (abs rs)).
  assert (Hi : initial_slashes (abs rs ++ [47]) = 1%nat).
  { unfold initial_slashes. replace (startswith (abs rs ++ [47]) [47]) with true by (symmetry; apply (startswith_app [47])).
    replace (startswith (abs rs ++ [47]) [47; 47]) with false; [done|]. symmetry. apply bool_decide_eq_false. intros [k Hk].
    injection Hk as Hk. destruct rs as [|c rs]; [done|]. inv Hrs. apply name_ok_spec in H1 as (Hc & _ & _ & Hs).
    destruct c as [|x c]; [done|]. assert (x ≠ 47) by set_solver. destruct rs; simpl in Hk; naive_solver. }
  rewrite Hi, split_trailing, split_abs by done. rewrite foldl_app. cbn [foldl].
  change (norm_step (0 <? 1)%nat [] []) with (@nil text). rewrite norm_names, app_nil_r by done.
  change (norm_step (0 <? 1)%nat (reverse rs) []) with (reverse rs). by rewrite reverse_involutive.
Qed.

Lemma common_prefix_app e a b : common_prefix (e ++ a) (e ++ b) = (length e + common_prefix a b)%nat.
Proof. induction e as [|x e IH]; simpl; [done|]. by rewrite decide_True, IH. Qed.

Lemma common_prefix_spec a b : ∃ e a' b', a = e ++ a' ∧ b = e ++ b' ∧ common_prefix a b = length e.
Proof.
  revert b. induction a as [|x a IH]; intros b; [by exists [], [], b|]. destruct b as [|y b]; [by exists [], (x :: a), []|].
  simpl. case_decide as Hxy; [|by exists [], (x :: a), (y :: b)]. subst y.
  destruct (IH b) as (e & a' & b' & -> & -> & ->). by exists (x :: e), a', b'.
Qed.

Lemma filter_names cs : parts_ok cs → List.filter (λ c, negb (bool_decide (c = []))) cs = cs.
Proof.
  induction cs as [|c cs IH]; intros H; [done|]. inv H. destruct H2 as [Hc _]. simpl. rewrite bool_decide_false by done. simpl.
  by rewrite IH.
Qed.

Lemma filter_abs rs : rs ≠ [] → names_ok rs → List.filter (λ c, negb (bool_decide (c = []))) (split_on 47 (abs rs)) = rs.
Proof. intros Hne Hrs. rewrite split_abs by done. by apply (filter_names rs), names_parts. Qed.

(** The components of a relative path from one absolute path to another: up to the common ancestor, then down. *)
Lemma relpath_spec cwd p q P Q :
  names_ok P → names_ok Q → P ≠ [] → Q ≠ [] → abspath cwd p = abs P → abspath cwd q = abs Q →
  ∃ e up down, Q = e ++ up ∧ P = e ++ down ∧ startswith (relpath cwd p q) [47] = false ∧ relpath cwd p q ≠ [] ∧
    split_on 47 (relpath cwd p q) =
      if decide (up = [] ∧ down = []) then [dot] else replicate (length up) dotdot ++ down.
Proof.
  intros HP HQ HPn HQn Hp Hq. destruct (common_prefix_spec Q P) as (e & up & down & HQe & HPe & Hcp).
  exists e, up, down. split; [done|]. split; [done|].
  assert (Hrel : relpath cwd p q = let l := replicate (length up) dotdot ++ down in if bool_decide (l = []) then dot else os_join_all l).
  { unfold relpath. rewrite Hp, Hq. cbv zeta. rewrite !filter_abs by done. rewrite Hcp, HQe, HPe, length_app.
    replace (length e + length up - length e)%nat with (length up) by lia. by rewrite drop_app_length. }
  assert (Hparts : parts_ok (replicate (length up) dotdot ++ down)).
  { apply Forall_app. split; [apply Forall_replicate; split; [done|]; by apply (bool_decide_eq_false_1 (47 ∈ dotdot))|]. apply names_parts. subst P. by apply names_ok_app in HP as [_ ?]. }
  rewrite Hrel. cbv zeta. destruct (decide (up = [] ∧ down = [])) as [[-> ->]|Hne]; [done|].
  assert (Hl : replicate (length up) dotdot ++ down ≠ []).
  { intros [H1 H2]%app_nil. apply Hne. split; [|done]. by destruct up. }
  rewrite bool_decide_false by done. rewrite os_join_all_parts by done. split; [by apply startswith_parts|].
  split; [by intros ?%join_nil_parts|]. by apply split_parts.
Qed.
