(* ===== verification/Gpt.v ===== *)
(** * GPT partition metadata: [mkosi/private/partition_metadata.py] and [gpt_partitions.py]

    [project_image] validates both GPT copies of a raw image and projects its partitions; [canonical_image_sha256]
    hashes the image after normalizing the GPT identity and CRC fields. Paths are the files they name. *)
From S2P Require Import Prelude Bytes PyText Hashing.

(** ** [gpt_partitions.py] *)

Definition ROOT_X86_64 : text := lit "4f68bce3-e8cd-4db1-96e7-fbcaf984b709".
Definition ROOT_X86_64_VERITY : text := lit "2c7357ed-ebd2-46d9-aec1-23d437ec2bf5".
Definition ROOT_X86_64_VERITY_SIG : text := lit "41092b05-9fc8-4523-994f-2def0408b176".
Definition BIOS_BOOT : text := lit "21686148-6449-6e6f-744e-656564454649".
Definition EMPTY_SLOT_LABEL : text := lit "_empty".
Definition ESP : text := lit "c12a7328-f81f-11d2-ba4b-00a0c93ec93b".

(** ** Header validation *)

Definition ALIGNMENT : Z := 1024 * 1024.
Definition _HEADER_MIN : Z := 92.
Definition _MAX_ARRAY_BYTES : Z := 64 * 1024 * 1024.
Definition _MAX_ENTRIES : Z := 1024 * 1024.
Definition _HASH_CHUNK_BYTES : Z := 1024 * 1024.

Definition _read_exact (image : file) (offset size image_size : Z) (description : string) : result bytes :=
  raise_if ((offset <? 0) || (size <? 0) || (image_size <? offset) || (image_size - offset <? size))
    (ValueError "{} is outside the image" [AStr description]);;
  let value := fread image offset size in
  raise_if (negb (len value =? size)) (ValueError "{} is truncated" [AStr description]);;
  mret value.

Fixpoint _require (checks : list (bool * exn)) : result unit :=
  match checks with
  | [] => Ok tt
  | (passed, message) :: checks => if passed then _require checks else Err message
  end.

Definition _check_header_bytes (raw : bytes) (sector_size : Z) (description : string) : result Z :=
  revision ← u32 raw 8;
  header_size ← u32 raw 12;
  header_crc ← u32 raw 16;
  let checked := splice 16 20 (zeros 4) (slice 0 header_size raw) in
  _require
    [ (bool_decide (slice 0 8 raw = blit "EFI PART"), ValueError "{} has an invalid signature" [AStr description]);
      (revision =? 0x00010000, ValueError "{} has unsupported revision" [AStr description]);
      ((_HEADER_MIN <=? header_size) && (header_size <=? sector_size),
       ValueError "{} has invalid header size" [AStr description]);
      (crc32 checked =? header_crc, ValueError "{} header CRC mismatch" [AStr description]);
      (bool_decide (slice 20 24 raw = zeros 4),
       ValueError "{} has nonzero reserved header bytes" [AStr description]) ];;
  mret header_size.

Record fields := {
  fd_array_crc : Z; fd_backup : Z; fd_count : Z; fd_current : Z;
  fd_entries_lba : Z; fd_entry_size : Z; fd_first_usable : Z; fd_last_usable : Z }.

Definition _check_header_geometry (fields : fields) (lba expected_backup last_lba : Z) (description : string) :
    result unit :=
  _require
    [ ((fd_current fields =? lba) && (fd_backup fields =? expected_backup),
       ValueError "{} has invalid reciprocal header LBAs" [AStr description]);
      ((lba =? 1) || (lba =? last_lba), ValueError "{} is not at an expected disk location" [AStr description]);
      ((fd_first_usable fields <=? fd_last_usable fields) && (fd_last_usable fields <? last_lba),
       ValueError "{} has invalid usable range" [AStr description]);
      ((0 <? fd_count fields) && (fd_count fields <=? _MAX_ENTRIES),
       ValueError "{} has hostile partition count" [AStr description]);
      ((128 <=? fd_entry_size fields) && (fd_entry_size fields <=? 4096) && (fd_entry_size fields mod 8 =? 0),
       ValueError "{} has hostile partition entry size" [AStr description]);
      (fd_count fields * fd_entry_size fields <=? _MAX_ARRAY_BYTES,
       ValueError "{} partition array is oversized" [AStr description]) ].

Definition _check_array_location (fields : fields) (lba last_lba array_last_lba : Z) (description : string) :
    result unit :=
  let entries_lba := fd_entries_lba fields in
  _require
    [ ((2 <=? entries_lba) && (array_last_lba <? last_lba),
       ValueError "{} has invalid partition-array location" [AStr description]);
      (negb (lba =? 1) || (array_last_lba <? fd_first_usable fields),
       ValueError "primary GPT partition array is not before the usable range" []);
      (negb (lba =? last_lba) || (fd_last_usable fields <? entries_lba),
       ValueError "backup GPT partition array is not after the usable range" []) ].

Definition _header_fields (raw : bytes) : result fields :=
  current ← u64 raw 24;
  backup ← u64 raw 32;
  first_usable ← u64 raw 40;
  last_usable ← u64 raw 48;
  entries_lba ← u64 raw 72;
  count ← u32 raw 80;
  entry_size ← u32 raw 84;
  array_crc ← u32 raw 88;
  mret {| fd_array_crc := array_crc; fd_backup := backup; fd_count := count; fd_current := current;
          fd_entries_lba := entries_lba; fd_entry_size := entry_size;
          fd_first_usable := first_usable; fd_last_usable := last_usable |}.

Record header := {
  h_array : bytes; h_array_offset : Z; h_count : Z; h_disk_guid : bytes; h_entry_size : Z; h_entries_lba : Z;
  h_first_usable : Z; h_header_offset : Z; h_header_size : Z; h_last_usable : Z; h_raw_header : bytes }.

Definition _header (image : file) (image_size sector_size lba expected_backup : Z) (description : string) :
    result header :=
  raw ← _read_exact image (lba * sector_size) sector_size image_size description;
  header_size ← _check_header_bytes raw sector_size description;
  fields ← _header_fields raw;
  let last_lba := image_size / sector_size - 1 in
  _check_header_geometry fields lba expected_backup last_lba description;;
  let array_size := fd_count fields * fd_entry_size fields in
  let array_offset := fd_entries_lba fields * sector_size in
  array ← _read_exact image array_offset array_size image_size (description +:+ " partition array");
  let array_last_lba := fd_entries_lba fields + (array_size + sector_size - 1) / sector_size - 1 in
  _check_array_location fields lba last_lba array_last_lba description;;
  raise_if (negb (crc32 array =? fd_array_crc fields))
    (ValueError "{} partition-array CRC mismatch" [AStr description]);;
  mret {| h_array := array; h_array_offset := array_offset; h_count := fd_count fields;
          h_disk_guid := slice 56 72 raw; h_entry_size := fd_entry_size fields;
          h_entries_lba := fd_entries_lba fields; h_first_usable := fd_first_usable fields;
          h_header_offset := lba * sector_size; h_header_size := header_size;
          h_last_usable := fd_last_usable fields; h_raw_header := raw |}.

(** The test that makes a sector size a candidate of [_sector_size]. *)
Definition sector_candidate (image : file) (image_size size : Z) : bool :=
  (image_size mod size =? 0) && (size * 3 <=? image_size) && bool_decide (fread image size 8 = blit "EFI PART").

Definition _sector_size (image : file) (image_size : Z) : result Z :=
  match List.filter (sector_candidate image image_size) [512; 4096] with
  | [size] => Ok size
  | _ => Err (ValueError "image must contain one unambiguous 512- or 4096-byte GPT" [])
  end.

Definition _validated_gpt (image : file) : result (Z * Z * header * header) :=
  let image_size := f_size image in
  sector_size ← _sector_size image image_size;
  let last_lba := image_size / sector_size - 1 in
  primary ← _header image image_size sector_size 1 last_lba "primary GPT";
  backup ← _header image image_size sector_size last_lba 1 "backup GPT";
  let disagree field := ValueError "GPT copies disagree on {}" [AStr field] in
  require (bool_decide (h_disk_guid primary = h_disk_guid backup)) (disagree "disk_guid");;
  require (h_first_usable primary =? h_first_usable backup) (disagree "first_usable");;
  require (h_last_usable primary =? h_last_usable backup) (disagree "last_usable");;
  require (h_count primary =? h_count backup) (disagree "count");;
  require (h_entry_size primary =? h_entry_size backup) (disagree "entry_size");;
  require (bool_decide (h_array primary = h_array backup)) (ValueError "GPT partition arrays disagree" []);;
  mret (image_size, sector_size, primary, backup).

(** ** Partition projection *)

Record partition := {
  p_label : text; p_number : Z; p_size_bytes : Z; p_start_bytes : Z; p_type_guid : text; p_uuid : option text }.

Definition labels (ps : list partition) : list text := p_label <$> ps.

Definition of_type (type_guid : text) (ps : list partition) : list partition :=
  List.filter (λ p, bool_decide (p_type_guid p = type_guid)) ps.

(** One round of [_validate_ab_slots]'s loop over the expected type and label. *)
Definition _validate_ab_slot (partitions : list partition) (type_guid label : text) : result unit :=
  let candidates := of_type type_guid partitions in
  let populated := List.filter (λ p, bool_decide (p_label p ≠ EMPTY_SLOT_LABEL)) candidates in
  let kind := if bool_decide (type_guid = ROOT_X86_64) then "root" else "verity" in
  let wrong := ValueError "A/B image requires exactly one populated {} partition labelled {!r}; found {!r}"
                 [AStr kind; AText label; ATexts (sorted_texts (labels candidates))] in
  match populated with
  | [slot] =>
      raise_if (bool_decide (p_label slot ≠ label)) wrong;;
      let inactive := List.filter (λ p, bool_decide (p_label p = EMPTY_SLOT_LABEL)) candidates in
      raise_if (existsb (λ p, p_size_bytes p <? p_size_bytes slot) inactive)
        (ValueError "inactive {} slots must be at least as large as the populated slot" [AStr kind])
  | _ => Err wrong
  end.

Definition _validate_ab_slots (partitions : list partition) (slot_label : text) : result unit :=
  _validate_ab_slot partitions ROOT_X86_64 slot_label;;
  _validate_ab_slot partitions ROOT_X86_64_VERITY (slot_label ++ lit "_verity").

Definition _check_entry_range (number first last : Z) (primary : header) (previous : option (Z * Z * Z)) :
    result unit :=
  raise_if (last <? first) (ValueError "partition {} has an invalid range" [AInt number]);;
  raise_if ((first <? h_first_usable primary) || (h_last_usable primary <? last))
    (ValueError "partition {} is outside the usable range" [AInt number]);;
  match previous with
  | None => mret tt
  | Some (previous_first, previous_last, previous_number) =>
      raise_if (first <? previous_first) (ValueError "partition {} is out of order" [AInt number]);;
      raise_if (first <=? previous_last)
        (ValueError "partition {} overlaps partition {}" [AInt number; AInt previous_number])
  end.

Definition _project_entry (entry : bytes) (number first last sector_size : Z) : result partition :=
  let start_bytes := first * sector_size in
  raise_if (negb (start_bytes mod ALIGNMENT =? 0)) (ValueError "partition {} is not 1 MiB aligned" [AInt number]);;
  decoded ← of_option (ValueError "partition {} has an invalid label" [AInt number])
              (utf16le_decode (slice 56 128 entry));
  mret {| p_label := (partition_on 0 decoded).1; p_number := number;
          p_size_bytes := (last - first + 1) * sector_size; p_start_bytes := start_bytes;
          p_type_guid := uuid_str (uuid_of_bytes_le (slice 0 16 entry)); p_uuid := None |}.

Definition _validate_roots (partitions : list partition) (slot_label : option text) : result unit :=
  match slot_label with
  | Some slot_label => _validate_ab_slots partitions slot_label
  | None =>
      match of_type ROOT_X86_64 partitions with
      | [root] =>
          raise_if (bool_decide (p_label root ≠ lit "root-x86-64"))
            (ValueError "Linux x86-64 root partition label must be root-x86-64" [])
      | _ => Err (ValueError "exactly one Linux x86-64 root partition is required" [])
      end
  end.

Definition _validate_firmware (partitions : list partition) (firmware : text) : result unit :=
  if bool_decide (firmware = lit "uefi") then mret tt else
  raise_if (bool_decide (firmware ≠ lit "bios")) (ValueError "firmware must be either uefi or bios" []);;
  match of_type BIOS_BOOT partitions with
  | [bios_boot] =>
      raise_if (p_size_bytes bios_boot <? ALIGNMENT)
        (ValueError "GPT BIOS boot partition must be at least 1 MiB" [])
  | _ => Err (ValueError "BIOS firmware requires exactly one GPT BIOS boot partition" [])
  end.

Definition with_uuid (p : partition) (u : text) : partition :=
  {| p_label := p_label p; p_number := p_number p; p_size_bytes := p_size_bytes p; p_start_bytes := p_start_bytes p;
     p_type_guid := p_type_guid p; p_uuid := Some u |}.

(** The loop state of [project_image]: the partitions so far and the previous populated extent. *)
Definition scan_state : Type := list partition * option (Z * Z * Z).

(** The loop body of [project_image]. *)
Definition project_slot (primary : header) (sector_size : Z) (slot_label : option text) (st : scan_state) (slot : Z) :
    result scan_state :=
  let '(partitions, previous) := st in
  let entry := slice (slot * h_entry_size primary) ((slot + 1) * h_entry_size primary) (h_array primary) in
  if bool_decide (slice 0 16 entry = zeros 16) then mret st else
  let number := slot + 1 in
  first ← u64 entry 32;
  last ← u64 entry 40;
  _check_entry_range number first last primary previous;;
  p ← _project_entry entry number first last sector_size;
  let p := match slot_label with
           | Some _ => with_uuid p (uuid_str (uuid_of_bytes_le (slice 16 32 entry)))
           | None => p
           end in
  mret (partitions ++ [p], Some (first, last, number)).

Record metadata := { md_firmware : text; md_partitions : list partition; md_sector_size : Z }.

Definition project_image (image : file) (firmware : text) (slot_label : option text) : result metadata :=
  '(_, sector_size, primary, _) ← _validated_gpt image;
  '(partitions, _) ← foldM (project_slot primary sector_size slot_label) ([], None) (seqZ 0 (h_count primary));
  _validate_roots partitions slot_label;;
  _validate_firmware partitions firmware;;
  mret {| md_firmware := firmware; md_partitions := partitions; md_sector_size := sector_size |}.

(** ** The canonical image hash *)

Definition _canonical_header (h : header) (array_crc : Z) : bytes :=
  let result := splice 16 20 (zeros 4) (h_raw_header h) in
  let result := splice 56 72 (zeros 16) result in
  let result := splice 88 92 (le_encode 4 array_crc) result in
  splice 16 20 (le_encode 4 (crc32 (slice 0 (h_header_size h) result))) result.

(** [image.read(n)] at a position: a negative [n] reads to the end of the file. *)
Definition read_at (image : file) (pos n : Z) : bytes :=
  if n <? 0 then fread image pos (f_size image - pos) else fread image pos n.

(** The open file position and the bytes fed to the digest. *)
Record hash_state := { hs_pos : Z; hs_fed : bytes }.

Fixpoint hash_bytes_loop (fuel : nat) (image : file) (st : hash_state) (size : Z) : result hash_state :=
  match fuel with
  | O => Err OutOfFuel
  | S fuel =>
      if size =? 0 then mret st else
      let chunk := read_at image (hs_pos st) (Z.min _HASH_CHUNK_BYTES size) in
      raise_if (bool_decide (chunk = [])) (ValueError "raw image is truncated while hashing" []);;
      hash_bytes_loop fuel image {| hs_pos := hs_pos st + len chunk; hs_fed := hs_fed st ++ chunk |} (size - len chunk)
  end.

(** Every round but the last two reads a whole chunk. *)
Definition hash_fuel (size : Z) : nat := Z.to_nat (Z.max 0 size / _HASH_CHUNK_BYTES + 3).

Definition _hash_bytes (image : file) (st : hash_state) (size : Z) : result hash_state :=
  hash_bytes_loop (hash_fuel size) image st size.

(** The order of [sorted] on patches: pairs of an offset and a byte string. *)
Definition patch_le (p q : Z * bytes) : Prop := text_le (p.1 :: (b2Z <$> p.2)) (q.1 :: (b2Z <$> q.2)).

#[export] Instance patch_le_dec p q : Decision (patch_le p q).
Proof. unfold patch_le. apply _. Defined.

(** The loop body of [_hash_with_patches], on the cursor and the hash state. *)
Definition patch_step (image : file) (st : Z * hash_state) (patch : Z * bytes) : result (Z * hash_state) :=
  let '(cursor, hs) := st in
  let '(offset, replacement) := patch in
  raise_if (offset <? cursor) (ValueError "canonical GPT patches overlap" []);;
  hs ← _hash_bytes image hs (offset - cursor);
  mret (offset + len replacement,
        {| hs_pos := hs_pos hs + len replacement; hs_fed := hs_fed hs ++ replacement |}).

Definition _hash_with_patches (image : file) (image_size : Z) (patches : list (Z * bytes)) : result text :=
  '(cursor, hs) ← foldM (patch_step image) (0, {| hs_pos := 0; hs_fed := [] |}) (merge_sort patch_le patches);
  hs ← _hash_bytes image hs (image_size - cursor);
  mret (hex (sha256 (hs_fed hs))).

(** The partition array with every unique partition GUID zeroed. *)
Definition canonical_array (h : header) : bytes :=
  foldl (λ array slot, let offset := slot * h_entry_size h in splice (offset + 16) (offset + 32) (zeros 16) array)
    (h_array h) (seqZ 0 (h_count h)).

Definition canonical_patches (primary backup : header) : list (Z * bytes) :=
  let array := canonical_array primary in
  let array_crc := crc32 array in
  [ (h_header_offset primary, _canonical_header primary array_crc);
    (h_array_offset primary, array);
    (h_array_offset backup, array);
    (h_header_offset backup, _canonical_header backup array_crc) ].

Definition canonical_image_sha256 (image : file) (slot_label : option text) : result text :=
  project_image image (lit "uefi") slot_label;;
  '(image_size, _, primary, backup) ← _validated_gpt image;
  _hash_with_patches image image_size (canonical_patches primary backup).

(** ** A concrete image *)

(** 512-byte sector GPT disks with a table of four entries. *)
Module Demo.

(** An entry: type GUID, unique GUID, first and last LBA, label. *)
Record slot := { s_type : text; s_guid : Z; s_first : Z; s_last : Z; s_label : text }.

Definition entry (s : slot) : bytes :=
  let name := utf16le_encode_bmp (s_label s) in
  uuid_bytes_le (default [] (unhex (filter (λ c, c ≠ 45) (s_type s)))) ++ le_encode 16 (s_guid s) ++
  le_encode 8 (s_first s) ++ le_encode 8 (s_last s) ++ zeros 8 ++ name ++ zeros (72 - len name).

Definition array (slots : list slot) : bytes :=
  let used := slots ≫= entry in used ++ zeros (512 - len used).

Definition header_bytes (disk_guid last : Z) (slots : list slot) (current backup entries_lba crc : Z) : bytes :=
  blit "EFI PART" ++ le_encode 4 0x00010000 ++ le_encode 4 92 ++ le_encode 4 crc ++ zeros 4 ++
  le_encode 8 current ++ le_encode 8 backup ++ le_encode 8 2048 ++ le_encode 8 last ++ le_encode 16 disk_guid ++
  le_encode 8 entries_lba ++ le_encode 4 4 ++ le_encode 4 128 ++ le_encode 4 (crc32 (array slots)).

Definition header_sector (disk_guid last : Z) (slots : list slot) (current backup entries_lba : Z) : bytes :=
  let crc := crc32 (header_bytes disk_guid last slots current backup entries_lba 0) in
  header_bytes disk_guid last slots current backup entries_lba crc ++ zeros 420.

(** The disk whose last usable LBA is [last]; the backup array and header are the two sectors after it. *)
Definition image (disk_guid last : Z) (slots : list slot) : file :=
  let primary := header_sector disk_guid last slots 1 (last + 2) 2 in
  let backup := header_sector disk_guid last slots (last + 2) 1 (last + 1) in
  let entries := array slots in
  let at_ (l : bytes) (i : Z) := default x00 (l !! Z.to_nat i) in
  {| f_size := (last + 3) * 512;
     f_byte := λ i,
       if (512 <=? i) && (i <? 1024) then at_ primary (i - 512)
       else if (1024 <=? i) && (i <? 1536) then at_ entries (i - 1024)
       else if ((last + 1) * 512 <=? i) && (i <? (last + 2) * 512) then at_ entries (i - (last + 1) * 512)
       else if ((last + 2) * 512 <=? i) then at_ backup (i - (last + 2) * 512)
       else x00 |}.

Definition root (guid : Z) : slot :=
  {| s_type := ROOT_X86_64; s_guid := guid; s_first := 2048; s_last := 2048; s_label := lit "root-x86-64" |}.

End Demo.

(** ** Header and array lemmas *)

Lemma _require_Ok checks u : _require checks = Ok u → Forall (λ c, c.1 = true) checks.
Proof. induction checks as [|[[] e] checks IH]; simpl; intros; [done|constructor; auto|done]. Qed.

Lemma raises_require_list P checks : Forall (λ c, P c.2) checks → raises P (_require checks).
Proof. induction 1 as [|[[] e] checks ? ? IH]; simpl; auto. Qed.

Lemma ceil_div_bound a b x y : 0 < b → 0 <= a → x + (a + b - 1) / b - 1 < y → x * b + a <= y * b.
Proof.
  intros Hb Ha H. pose proof (Z.div_mod (a + b - 1) b ltac:(lia)).
  pose proof (Z.mod_pos_bound (a + b - 1) b Hb). nia.
Qed.

Lemma _read_exact_Ok image offset size image_size d v :
  _read_exact image offset size image_size d = Ok v →
  v = fread image offset size ∧ len v = size ∧ 0 <= offset ∧ 0 <= size ∧ offset + size <= image_size.
Proof. unfold _read_exact. intros H. res_inv. bool_inv. repeat split; lia. Qed.

Lemma _sector_size_filter image n ss :
  _sector_size image n = Ok ss → List.filter (sector_candidate image n) [512; 4096] = [ss].
Proof. unfold _sector_size. destruct (List.filter _ _) as [|s [|]]; intros; by res_inv. Qed.

Lemma _sector_size_Ok image n ss :
  _sector_size image n = Ok ss →
  (ss = 512 ∨ ss = 4096) ∧ n mod ss = 0 ∧ ss * 3 <= n ∧ sector_candidate image n ss = true.
Proof.
  intros E. apply _sector_size_filter in E.
  assert (In ss [ss]) as Hin by (by left). rewrite <- E in Hin. apply filter_In in Hin as [Hin Hc].
  pose proof Hc. unfold sector_candidate in Hc. bool_inv. simpl in Hin. intuition lia.
Qed.

(** What [_header] has checked about a header that it returns. *)
Record header_valid (image : file) (ss lba : Z) (h : header) : Prop := {
  hv_raw : h_raw_header h = fread image (lba * ss) ss;
  hv_len_raw : len (h_raw_header h) = ss;
  hv_raw_header_size : u32 (h_raw_header h) 12 = Ok (h_header_size h);
  hv_raw_fields : ∃ fs, _header_fields (h_raw_header h) = Ok fs ∧ h_count h = fd_count fs ∧
    h_entry_size h = fd_entry_size fs ∧ h_entries_lba h = fd_entries_lba fs;
  hv_signature : slice 0 8 (h_raw_header h) = blit "EFI PART";
  hv_header_offset : h_header_offset h = lba * ss;
  hv_header_size : 92 <= h_header_size h <= ss;
  hv_array_offset : h_array_offset h = h_entries_lba h * ss;
  hv_array : h_array h = fread image (h_array_offset h) (h_count h * h_entry_size h);
  hv_len_array : len (h_array h) = h_count h * h_entry_size h;
  hv_array_end : h_array_offset h + h_count h * h_entry_size h <= (f_size image / ss - 1) * ss;
  hv_entries_lba : 2 <= h_entries_lba h;
  hv_count : 0 < h_count h;
  hv_entry_size : 128 <= h_entry_size h;
  hv_usable : h_first_usable h <= h_last_usable h < f_size image / ss - 1;
  hv_primary : lba = 1 → h_array_offset h + h_count h * h_entry_size h <= h_first_usable h * ss;
  hv_backup : lba = f_size image / ss - 1 → h_last_usable h < h_entries_lba h;
  hv_array_start : 2 * ss <= h_array_offset h;
}.

(** Splits a passed check list into the conditions that it checked. *)
Ltac checks_inv H :=
  apply _require_Ok in H;
  repeat match type of H with
  | Forall _ (_ :: _) => let H1 := fresh "Hc" in apply Forall_cons in H as [H1 H]; simpl in H1
  end; clear H; bool_inv.

Lemma _check_header_bytes_Ok raw ss d hs :
  _check_header_bytes raw ss d = Ok hs →
  slice 0 8 raw = blit "EFI PART" ∧ 92 <= hs <= ss ∧ u32 raw 12 = Ok hs ∧
  u32 raw 16 = Ok (crc32 (splice 16 20 (zeros 4) (slice 0 hs raw))).
Proof.
  unfold _check_header_bytes. intros H. res_inv.
  match goal with H : _require _ = Ok _ |- _ => checks_inv H end.
  unfold _HEADER_MIN in *. subst. auto with lia.
Qed.

Lemma _check_header_geometry_Ok fs lba eb ll d u :
  _check_header_geometry fs lba eb ll d = Ok u →
  fd_current fs = lba ∧ fd_backup fs = eb ∧ fd_first_usable fs <= fd_last_usable fs < ll ∧
  0 < fd_count fs ∧ 128 <= fd_entry_size fs.
Proof. unfold _check_header_geometry. intros H. checks_inv H. lia. Qed.

Lemma _check_array_location_Ok fs lba ll al d u :
  _check_array_location fs lba ll al d = Ok u →
  2 <= fd_entries_lba fs ∧ al < ll ∧ (lba = 1 → al < fd_first_usable fs) ∧
  (lba = ll → fd_last_usable fs < fd_entries_lba fs).
Proof. unfold _check_array_location. intros H. checks_inv H. lia. Qed.

Lemma _header_valid image ss lba eb d h :
  0 < ss → _header image (f_size image) ss lba eb d = Ok h → header_valid image ss lba h.
Proof.
  intros Hss H. unfold _header in H. res_inv.
  repeat match goal with
  | H : _read_exact _ _ _ _ _ = Ok _ |- _ => apply _read_exact_Ok in H as (-> & ? & ? & ? & ?)
  | H : _check_header_bytes _ _ _ = Ok _ |- _ => apply _check_header_bytes_Ok in H as (? & ? & ? & ?)
  | H : _check_header_geometry _ _ _ _ _ = Ok _ |- _ =>
      apply _check_header_geometry_Ok in H as (? & ? & ? & ? & ?)
  | H : _check_array_location _ _ _ _ _ = Ok _ |- _ =>
      apply _check_array_location_Ok in H as (? & ? & ? & ?)
  end.
  constructor; simpl; try done; try lia; [by eauto|..].
  - apply ceil_div_bound; lia.
  - intros ->. apply ceil_div_bound; lia.
  - apply Z.mul_le_mono_nonneg_r; lia.
Qed.

(** Both validated copies and what they share. *)
Record gpt_valid (image : file) (ss : Z) (primary backup : header) : Prop := {
  gv_ss : ss = 512 ∨ ss = 4096;
  gv_size : f_size image = (f_size image / ss) * ss;
  gv_sectors : 3 <= f_size image / ss;
  gv_primary : header_valid image ss 1 primary;
  gv_backup : header_valid image ss (f_size image / ss - 1) backup;
  gv_first : h_first_usable primary = h_first_usable backup;
  gv_last : h_last_usable primary = h_last_usable backup;
  gv_count : h_count primary = h_count backup;
  gv_entry_size : h_entry_size primary = h_entry_size backup;
  gv_arrays : h_array primary = h_array backup;
  gv_regions : h_array_offset primary + len (h_array primary) <= h_array_offset backup;
}.

Lemma _validated_gpt_Ok image size ss primary backup :
  _validated_gpt image = Ok (size, ss, primary, backup) → size = f_size image ∧ gpt_valid image ss primary backup.
Proof.
  unfold _validated_gpt. intros H. res_inv. simplify_eq. bool_inv.
  match goal with H : _sector_size _ _ = Ok _ |- _ => apply _sector_size_Ok in H as (? & Hmod & ? & _) end.
  assert (0 < ss) by lia. split; [done|].
  pose proof (Z.div_mod (f_size image) ss ltac:(lia)).
  assert (Hp : header_valid image ss 1 primary) by eauto using _header_valid.
  assert (Hb : header_valid image ss (f_size image / ss - 1) backup) by eauto using _header_valid.
  constructor; try done; [nia|nia|]. rewrite (hv_len_array _ _ _ _ Hp).
  pose proof (hv_primary _ _ _ _ Hp eq_refl). pose proof (hv_backup _ _ _ _ Hb eq_refl).
  pose proof (hv_array_offset _ _ _ _ Hb). pose proof (hv_usable _ _ _ _ Hp). nia.
Qed.

(** ** The partition scan *)

Definition before (p q : partition) : Prop :=
  p_start_bytes p + p_size_bytes p <= p_start_bytes q ∧ p_number p < p_number q.

(** A projected partition lies between the two GPT copies, is aligned and not empty. *)
Definition extent_ok (primary backup : header) (p : partition) : Prop :=
  p_start_bytes p mod ALIGNMENT = 0 ∧ 0 < p_size_bytes p ∧
  h_array_offset primary + len (h_array primary) <= p_start_bytes p ∧
  p_start_bytes p + p_size_bytes p <= h_array_offset backup.

(** The scan invariant before [slot]. *)
Definition scan_inv (primary backup : header) (ss slot : Z) (st : scan_state) : Prop :=
  Forall (extent_ok primary backup) st.1 ∧ StronglySorted before st.1 ∧
  match st.2 with
  | None => st.1 = []
  | Some (_, last, number) =>
      number <= slot ∧ Forall (λ p, p_start_bytes p + p_size_bytes p <= (last + 1) * ss ∧ p_number p <= number) st.1
  end.

Lemma _check_entry_range_Ok number first last primary previous u :
  _check_entry_range number first last primary previous = Ok u →
  h_first_usable primary <= first ∧ first <= last ∧ last <= h_last_usable primary ∧
  match previous with Some (_, pl, _) => pl < first | None => True end.
Proof.
  unfold _check_entry_range. intros H. res_inv. bool_inv.
  destruct previous as [[[pf pl] pn]|]; res_inv; bool_inv; lia.
Qed.

Lemma _project_entry_Ok entry number first last ss p :
  _project_entry entry number first last ss = Ok p →
  p_start_bytes p = first * ss ∧ p_size_bytes p = (last - first + 1) * ss ∧ p_number p = number ∧
  (first * ss) mod ALIGNMENT = 0.
Proof. unfold _project_entry. intros H. res_inv. bool_inv. simpl. auto. Qed.

Definition slot_used (h : header) (slot : Z) : bool :=
  bool_decide (slice 0 16 (slice (slot * h_entry_size h) ((slot + 1) * h_entry_size h) (h_array h)) ≠ zeros 16).

(** The loop body either skips an unused slot or appends the partition of a used one. *)
Lemma project_slot_cases primary ss sl ps prev slot st' :
  project_slot primary ss sl (ps, prev) slot = Ok st' →
  (slot_used primary slot = false ∧ st' = (ps, prev)) ∨
  ∃ first last p, slot_used primary slot = true ∧ st' = (ps ++ [p], Some (first, last, slot + 1)) ∧
    h_first_usable primary <= first ∧ first <= last ∧ last <= h_last_usable primary ∧
    match prev with Some (_, pl, _) => pl < first | None => True end ∧
    p_start_bytes p = first * ss ∧ p_size_bytes p = (last - first + 1) * ss ∧ p_number p = slot + 1 ∧
    (first * ss) mod ALIGNMENT = 0.
Proof.
  unfold project_slot, slot_used. case_bool_decide; intros H'.
  - left. res_inv. split; [apply bool_decide_false; tauto|done].
  - right. res_inv.
    match goal with
    | H1 : _check_entry_range _ ?f ?l _ _ = Ok _, H2 : _project_entry _ _ _ _ _ = Ok ?p |- _ =>
        apply _check_entry_range_Ok in H1 as (? & ? & ? & ?);
        apply _project_entry_Ok in H2 as (? & ? & ? & ?); exists f, l end.
    eexists. split; [by apply bool_decide_true|]. split; [done|]. destruct sl; simpl; auto 10.
Qed.

Lemma scan_step image ss primary backup sl slot st st' :
  gpt_valid image ss primary backup →
  scan_inv primary backup ss slot st → project_slot primary ss sl st slot = Ok st' →
  scan_inv primary backup ss (slot + 1) st'.
Proof.
  intros [? ? ? [] [] ? ? ? ? ? ?] Hinv H. destruct st as [ps prev]. destruct Hinv as (Hext & Hsort & Hprev).
  apply project_slot_cases in H as [[_ ->]|(f & l & p & _ & -> & Hff & Hfl & Hll & Hp & Hst & Hsz & Hn & Hal)].
  - split_and!; [done..|]. simpl in *. destruct prev as [[[? ?] ?]|]; [|done]. split; [lia|tauto].
  - unfold scan_inv. simpl in *.
    assert (Hb : Forall (λ q, p_start_bytes q + p_size_bytes q <= f * ss ∧ p_number q < slot + 1) ps).
    { destruct prev as [[[pf pl] pn]|]; [|subst; constructor]. destruct Hprev as [? Hprev].
      eapply Forall_impl; [exact Hprev|]. intros q [? ?]. nia. }
    split_and!; [| |lia|].
    + apply Forall_app. split; [done|]. repeat constructor; [by rewrite Hst|nia|..].
      * rewrite Hst, hv_len_array0. specialize (hv_primary0 eq_refl). nia.
      * rewrite Hst, Hsz, hv_array_offset1. specialize (hv_backup1 eq_refl). nia.
    + apply StronglySorted_snoc; [done|]. eapply Forall_impl; [exact Hb|].
      intros q [? ?]. split; [rewrite Hst; lia|lia].
    + apply Forall_app. split.
      * eapply Forall_impl; [exact Hb|]. intros q [? ?]. nia.
      * repeat constructor; [rewrite Hst, Hsz; nia|lia].
Qed.

Lemma scan_numbers primary ss sl slots st st' :
  foldM (project_slot primary ss sl) st slots = Ok st' →
  p_number <$> st'.1 = (p_number <$> st.1) ++ (Z.succ <$> List.filter (slot_used primary) slots).
Proof.
  revert st. induction slots as [|slot slots IH]; intros [ps prev] H; simpl in H.
  - res_inv. simpl. by rewrite app_nil_r.
  - apply bind_Ok_inv in H as (st1 & H1 & H2). erewrite IH by done. simpl List.filter.
    apply project_slot_cases in H1 as [[-> ->]|(f & l & p & -> & -> & ? & ? & ? & ? & ? & ? & Hn & ?)]; [done|].
    simpl. rewrite fmap_app, <- (assoc_L (++)). simpl. by rewrite Hn, <- Z.add_1_r.
Qed.

(** ** Exceptions *)

#[export] Hint Resolve raises_require_list raises_unpack_le : raises.

Lemma raises_read_exact image o s n d : raises is_value_error (_read_exact image o s n d).
Proof. unfold _read_exact. raises_auto. Qed.

Lemma raises_checks cs : Forall (λ c : bool * exn, is_value_error c.2) cs → raises is_value_error (_require cs).
Proof. apply raises_require_list. Qed.

Lemma raises_header image n ss lba eb d : 512 <= ss → raises is_value_error (_header image n ss lba eb d).
Proof.
  intros Hss. unfold _header, _check_header_bytes, _header_fields, _check_header_geometry, _check_array_location.
  repeat first [ apply raises_read_exact | raises_step
    | apply raises_checks; repeat constructor; apply value_error
    | match goal with
      | H : _read_exact _ _ _ _ _ = Ok ?v |- raises _ (unpack_le _ ?v _) =>
          apply _read_exact_Ok in H as (_ & H & _); apply raises_unpack_le; lia
      end ].
Qed.

Lemma raises_validated_gpt image : raises is_value_error (_validated_gpt image).
Proof.
  unfold _validated_gpt. apply raises_bind; [unfold _sector_size; repeat case_match; simpl; auto|].
  intros ss Hss. apply _sector_size_Ok in Hss. repeat first [apply raises_header; lia | raises_step].
Qed.

Lemma raises_project_slot image ss primary backup sl st slot :
  gpt_valid image ss primary backup → slot ∈ seqZ 0 (h_count primary) →
  raises is_value_error (project_slot primary ss sl st slot).
Proof.
  intros [? ? ? [] ? ? ? ? ? ? ?] Hslot%elem_of_seqZ. destruct st as [ps prev]. unfold project_slot.
  assert (len (slice (slot * h_entry_size primary) ((slot + 1) * h_entry_size primary) (h_array primary))
    = h_entry_size primary) as Hlen by (rewrite len_slice by nia; lia).
  unfold _check_entry_range, _project_entry.
  repeat first [apply raises_unpack_le; lia | raises_step].
Qed.

Lemma raises_validate_roots ps sl : raises is_value_error (_validate_roots ps sl).
Proof.
  unfold _validate_roots, _validate_ab_slots, _validate_ab_slot. raises_auto.
Qed.

Lemma raises_validate_firmware ps fw : raises is_value_error (_validate_firmware ps fw).
Proof. unfold _validate_firmware. raises_auto. Qed.

Lemma _validate_ab_slot_Ok ps ty lb u :
  _validate_ab_slot ps ty lb = Ok u →
  ∃ slot,
    List.filter (λ p, bool_decide (p_label p ≠ EMPTY_SLOT_LABEL)) (of_type ty ps) = [slot] ∧ p_label slot = lb ∧
    ∀ p, p ∈ ps → p_type_guid p = ty → p_label p = EMPTY_SLOT_LABEL → p_size_bytes slot <= p_size_bytes p.
Proof.
  intros Hu. unfold _validate_ab_slot in Hu.
  destruct (List.filter _ (of_type ty ps)) as [|slot [|]] eqn:E; try done. res_inv. bool_inv.
  exists slot. split; [done|]. split; [by destruct (decide (p_label slot = lb))|].
  intros p Hp Hty Hl. apply Z.nlt_ge. intros Hlt.
  match goal with H : existsb _ _ = false |- _ => apply not_true_iff_false in H; apply H end.
  apply existsb_exists. exists p. split; [|lia]. unfold of_type.
  rewrite !filter_In, !bool_decide_eq_true, <- list_elem_of_In. auto.
Qed.

(** ** Properties of [project_image] *)

(** The validated copies and the scan behind accepted metadata. *)
Lemma project_image_inv image firmware slot_label md :
  project_image image firmware slot_label = Ok md →
  ∃ primary backup prev,
    _validated_gpt image = Ok (f_size image, md_sector_size md, primary, backup) ∧
    gpt_valid image (md_sector_size md) primary backup ∧
    foldM (project_slot primary (md_sector_size md) slot_label) ([], None) (seqZ 0 (h_count primary)) =
      Ok (md_partitions md, prev) ∧
    _validate_roots (md_partitions md) slot_label = Ok tt ∧
    _validate_firmware (md_partitions md) firmware = Ok tt ∧ md_firmware md = firmware.
Proof.
  unfold project_image. intros H. res_inv. destruct x as [[[size ss] primary] backup].
  res_inv. destruct x as [ps prev]. res_inv. simpl.
  match goal with H : _validated_gpt _ = Ok _ |- _ => pose proof (_validated_gpt_Ok _ _ _ _ _ H) as [-> Hv] end.
  repeat match goal with u : () |- _ => destruct u end. eauto 10.
Qed.

Lemma project_image_validated image firmware slot_label md :
  project_image image firmware slot_label = Ok md →
  ∃ primary backup,
    _validated_gpt image = Ok (f_size image, md_sector_size md, primary, backup) ∧
    gpt_valid image (md_sector_size md) primary backup.
Proof. intros (p & b & prev & ? & ? & _)%project_image_inv. eauto. Qed.

(** C4: an accepted image has the partition layout that the GPT promises. Every projected partition is not empty,
    starts at a multiple of 1 MiB, lies after the primary entry array and before the backup one, and the partitions
    are listed in disk order without overlap and with increasing numbers. *)
Theorem project_image_layout image firmware slot_label md :
  project_image image firmware slot_label = Ok md →
  ∃ primary backup,
    _validated_gpt image = Ok (f_size image, md_sector_size md, primary, backup) ∧
    Forall (extent_ok primary backup) (md_partitions md) ∧ StronglySorted before (md_partitions md).
Proof.
  intros (primary & backup & prev & Hg & Hv & Hscan & _)%project_image_inv.
  exists primary, backup. split; [done|].
  apply (foldM_seqZ_inv (scan_inv primary backup (md_sector_size md))) in Hscan as (? & ? & ?); [done|..].
  - destruct Hv as [? ? ? [] ? ? ? ? ? ? ?]. lia.
  - intros i st st' _. by eapply scan_step.
  - repeat split; constructor.
Qed.

(** No used entry of the table is dropped, invented or reordered: the numbers of the projected partitions are
    exactly the one-based positions of the entries with a nonzero type GUID. *)
Theorem project_image_entries image firmware slot_label md :
  project_image image firmware slot_label = Ok md →
  ∃ primary backup,
    _validated_gpt image = Ok (f_size image, md_sector_size md, primary, backup) ∧
    p_number <$> md_partitions md = Z.succ <$> List.filter (slot_used primary) (seqZ 0 (h_count primary)).
Proof.
  intros (primary & backup & prev & Hg & Hv & Hscan & _)%project_image_inv.
  exists primary, backup. split; [done|]. by apply scan_numbers in Hscan.
Qed.

(** Whatever bytes an image holds, [project_image] either returns metadata or raises [ValueError]: no field
    read runs past its buffer and no other exception escapes. *)
Theorem project_image_raises image firmware slot_label :
  raises is_value_error (project_image image firmware slot_label).
Proof.
  unfold project_image. apply raises_bind; [apply raises_validated_gpt|].
  intros [[[size ss] primary] backup] Hv. apply _validated_gpt_Ok in Hv as [-> Hv].
  repeat first [ apply raises_validate_roots | apply raises_validate_firmware
               | eapply raises_project_slot; eassumption | raises_step ].
Qed.

(** An accepted A/B image has exactly one populated root slot and one populated verity slot, labelled with the
    slot label and its [_verity] form, and every inactive slot of either type is at least as large. *)
Theorem project_image_ab_slots image firmware label md :
  project_image image firmware (Some label) = Ok md →
  ∀ type_guid expected,
    (type_guid, expected) ∈ [(ROOT_X86_64, label); (ROOT_X86_64_VERITY, label ++ lit "_verity")] →
    ∃ slot,
      List.filter (λ p, bool_decide (p_label p ≠ EMPTY_SLOT_LABEL)) (of_type type_guid (md_partitions md)) = [slot] ∧
      p_label slot = expected ∧
      ∀ p, p ∈ md_partitions md → p_type_guid p = type_guid → p_label p = EMPTY_SLOT_LABEL →
        p_size_bytes slot <= p_size_bytes p.
Proof.
  intros (primary & backup & prev & _ & _ & _ & Hroots & _)%project_image_inv.
  simpl in Hroots. unfold _validate_ab_slots in Hroots. res_inv.
  intros ty expected Hin. apply elem_of_cons in Hin as [?|Hin]; [simplify_eq; by eapply _validate_ab_slot_Ok|].
  apply list_elem_of_singleton in Hin. simplify_eq. by eapply _validate_ab_slot_Ok.
Qed.

(** ** Witnesses *)

Definition demo_image : file := Demo.image 5 2048 [Demo.root 7].

Lemma demo_project :
  project_image demo_image (lit "uefi") None =
  Ok {| md_firmware := lit "uefi"; md_sector_size := 512;
        md_partitions := [{| p_label := lit "root-x86-64"; p_number := 1; p_size_bytes := 512;
          p_start_bytes := 1048576; p_type_guid := ROOT_X86_64; p_uuid := None |}] |}.
Proof. by_compute. Qed.

Lemma project_image_layout_witness :
  ∃ primary backup, _validated_gpt demo_image = Ok (2051 * 512, 512, primary, backup) ∧
    Forall (extent_ok primary backup) [{| p_label := lit "root-x86-64"; p_number := 1; p_size_bytes := 512;
      p_start_bytes := 1048576; p_type_guid := ROOT_X86_64; p_uuid := None |}].
Proof.
  destruct (project_image_layout demo_image (lit "uefi") None _ demo_project) as (p & b & H1 & H2 & _).
  exists p, b. split; [exact H1|exact H2].
Defined.

Lemma project_image_entries_witness :
  ∃ primary, Z.succ <$> List.filter (slot_used primary) (seqZ 0 (h_count primary)) = [1].
Proof.
  destruct (project_image_entries demo_image (lit "uefi") None _ demo_project) as (p & b & _ & H).
  exists p. symmetry. exact H.
Defined.

(** An A/B disk: populated root and verity slots and an inactive slot of each type. *)
Definition demo_ab_image : file :=
  let mk ty guid first label :=
    {| Demo.s_type := ty; Demo.s_guid := guid; Demo.s_first := first; Demo.s_last := first; Demo.s_label := label |} in
  Demo.image 5 8192
    [mk ROOT_X86_64 1 2048 (lit "os_1"); mk ROOT_X86_64_VERITY 2 4096 (lit "os_1_verity");
     mk ROOT_X86_64 3 6144 (lit "_empty"); mk ROOT_X86_64_VERITY 4 8192 (lit "_empty")].

Lemma project_image_ab_slots_witness :
  ∃ md slot, project_image demo_ab_image (lit "uefi") (Some (lit "os_1")) = Ok md ∧
    List.filter (λ p, bool_decide (p_label p ≠ EMPTY_SLOT_LABEL)) (of_type ROOT_X86_64 (md_partitions md)) = [slot] ∧
    p_label slot = lit "os_1" ∧ length (md_partitions md) = 4%nat.
Proof.
  destruct (project_image demo_ab_image (lit "uefi") (Some (lit "os_1"))) as [md|e] eqn:E;
    [|exfalso; vm_compute in E; discriminate E].
  destruct (project_image_ab_slots demo_ab_image (lit "uefi") (lit "os_1") md E ROOT_X86_64 (lit "os_1")) as
    (slot & H1 & H2 & _); [left|].
  exists md, slot. split; [reflexivity|]. split; [exact H1|]. split; [exact H2|].
  vm_compute in E. injection E as <-. reflexivity.
Defined.
