(* ===== verification/GptCanonical.v ===== *)
(** * The canonical image hash of [partition_metadata.py]

    [canonical_image_sha256] streams the image in bounded chunks and replaces four regions on the way. Here it is
    proved equal to hashing the whole image with the regions overwritten, total on every image that [project_image]
    accepts, and independent of the GPT identity and CRC fields. *)
From S2P Require Import Prelude Bytes PyText Hashing Gpt.

(** ** Streaming *)

Lemma hash_bytes_loop_Ok fuel image st size :
  0 <= size → 0 <= hs_pos st → hs_pos st + size <= f_size image →
  size <= (Z.of_nat fuel - 1) * _HASH_CHUNK_BYTES →
  hash_bytes_loop fuel image st size =
    Ok {| hs_pos := hs_pos st + size; hs_fed := hs_fed st ++ fread image (hs_pos st) size |}.
Proof.
  revert st size. induction fuel as [|fuel IH]; intros st size Hs Hp He Hf; [unfold _HASH_CHUNK_BYTES in *; lia|].
  simpl. destruct (Z.eqb_spec size 0) as [->|Hne].
  - rewrite Z.add_0_r. unfold fread. rewrite Z.min_l by lia. simpl. rewrite app_nil_r. by destruct st.
  - set (n := Z.min _HASH_CHUNK_BYTES size). assert (0 < n <= size) by (unfold n, _HASH_CHUNK_BYTES; lia).
    unfold read_at. replace (n <? 0) with false by lia.
    assert (Hl : len (fread image (hs_pos st) n) = n) by (apply len_fread; lia).
    rewrite bool_decide_false by (intros E; rewrite E in Hl; unfold len in Hl; simpl in Hl; lia).
    simpl. rewrite IH; simpl; rewrite ?Hl; [|unfold n, _HASH_CHUNK_BYTES in *; lia..].
    do 2 f_equal; [lia|]. rewrite <- (assoc_L (++)). f_equal.
    replace size with (n + (size - n)) at 2 by lia. symmetry. apply fread_app; lia.
Qed.

Lemma _hash_bytes_Ok image st size :
  0 <= size → 0 <= hs_pos st → hs_pos st + size <= f_size image →
  _hash_bytes image st size =
    Ok {| hs_pos := hs_pos st + size; hs_fed := hs_fed st ++ fread image (hs_pos st) size |}.
Proof.
  intros. apply hash_bytes_loop_Ok; [done..|]. unfold hash_fuel. rewrite Z.max_r by lia.
  pose proof (Z.div_mod size _HASH_CHUNK_BYTES ltac:(done)).
  pose proof (Z.mod_pos_bound size _HASH_CHUNK_BYTES ltac:(done)).
  pose proof (Z.div_pos size _HASH_CHUNK_BYTES). unfold _HASH_CHUNK_BYTES in *. lia.
Qed.

(** ** Patches *)

(** The patches start at or after [cursor], do not overlap and end within [size]. *)
Fixpoint patches_ok (cursor size : Z) (ps : list (Z * bytes)) : Prop :=
  match ps with
  | [] => cursor <= size
  | (offset, replacement) :: ps => cursor <= offset ∧ patches_ok (offset + len replacement) size ps
  end.

Lemma patches_ok_le cursor size ps : patches_ok cursor size ps → cursor <= size.
Proof.
  revert cursor. induction ps as [|[o r] ps IH]; simpl; intros c H; [done|]. destruct H as [? H%IH].
  pose proof (len_nonneg r). lia.
Qed.

(** The reference: a byte string with a region overwritten. *)
Definition overwrite (l : bytes) (patch : Z * bytes) : bytes :=
  splice patch.1 (patch.1 + len patch.2) patch.2 l.

(** Overwriting at or after the end of a prefix keeps the prefix. *)
Lemma overwrite_app pre image cursor size o r :
  len pre = cursor → 0 <= cursor <= o → o + len r <= size → size = f_size image →
  overwrite (pre ++ fread image cursor (size - cursor)) (o, r) =
    (pre ++ fread image cursor (o - cursor) ++ r) ++ fread image (o + len r) (size - (o + len r)).
Proof.
  intros Hp Hc Hs Hsz. pose proof (len_nonneg r). unfold overwrite, splice. simpl.
  replace (size - cursor) with ((o - cursor) + (len r + (size - (o + len r)))) by lia.
  rewrite !fread_app by lia. replace (cursor + (o - cursor)) with o by lia.
  assert (Hl : len (pre ++ fread image cursor (o - cursor)) = o) by (rewrite len_app, len_fread; lia).
  assert (Hr : len (fread image o (len r)) = len r) by (apply len_fread; lia).
  rewrite (assoc_L (++) pre). rewrite <- Hl at 1. rewrite slice_app_exact.
  rewrite (assoc_L (++) _ (fread image o (len r))).
  rewrite slice_from_app_r by (rewrite len_app; lia).
  rewrite len_app, Hl, Hr, Z.sub_diag, slice_from_drop. simpl. rewrite drop_0.
  by rewrite !(assoc_L (++)).
Qed.

(** The streaming loop feeds the digest the overwritten image. *)
Lemma patch_loop_Ok image ps cursor fed :
  0 <= cursor → len fed = cursor → patches_ok cursor (f_size image) ps →
  ∃ cursor' hs,
    foldM (patch_step image) (cursor, {| hs_pos := cursor; hs_fed := fed |}) ps = Ok (cursor', hs) ∧
    0 <= cursor' <= f_size image ∧ hs_pos hs = cursor' ∧ len (hs_fed hs) = cursor' ∧
    hs_fed hs ++ fread image cursor' (f_size image - cursor') =
      foldl overwrite (fed ++ fread image cursor (f_size image - cursor)) ps.
Proof.
  revert cursor fed. induction ps as [|[o r] ps IH]; intros cursor fed Hc Hf Hok; simpl.
  - eexists cursor, _. split; [done|]. simpl in *. auto.
  - destruct Hok as [Ho Hok]. pose proof (patches_ok_le _ _ _ Hok). pose proof (len_nonneg r).
    replace (o <? cursor) with false by lia. simpl.
    rewrite _hash_bytes_Ok by (simpl; lia). simpl. replace (cursor + (o - cursor) + len r) with (o + len r) by lia.
    destruct (IH (o + len r) ((fed ++ fread image cursor (o - cursor)) ++ r)) as (c' & hs & H1 & H2 & H3 & H4 & H5);
      [lia| |done|].
    { rewrite !len_app, len_fread by lia. lia. }
    exists c', hs. split; [done|]. split; [done|]. split; [done|]. split; [done|].
    rewrite H5. f_equal. rewrite overwrite_app by (done || lia). by rewrite <- !(assoc_L (++)).
Qed.

#[export] Instance patch_le_trans : Transitive patch_le.
Proof. intros p q r. unfold patch_le. by etrans. Qed.
#[export] Instance patch_le_antisym : AntiSymm (=) patch_le.
Proof.
  intros [a l] [b k] H1 H2. unfold patch_le in *. pose proof (anti_symm text_le _ _ H1 H2) as H.
  simpl in H. injection H as -> H. f_equal. by eapply (inj (fmap b2Z)).
Qed.
#[export] Instance patch_le_total : Total patch_le.
Proof. intros p q. unfold patch_le. apply text_le_total. Qed.

Lemma merge_sort_id ps : StronglySorted patch_le ps → merge_sort patch_le ps = ps.
Proof.
  intros Hs%StronglySorted_Sorted.
  exact (Sorted_unique patch_le _ _ (Sorted_merge_sort patch_le _) Hs (merge_sort_Permutation patch_le _)).
Qed.

Lemma _hash_with_patches_Ok image ps :
  StronglySorted patch_le ps → patches_ok 0 (f_size image) ps →
  _hash_with_patches image (f_size image) ps = Ok (hex (sha256 (foldl overwrite (contents image) ps))).
Proof.
  intros Hs Hok. unfold _hash_with_patches. rewrite merge_sort_id by done.
  destruct (patch_loop_Ok image ps 0 []) as (c & hs & -> & Hc & Hp & Hl & Heq); [done..|].
  cbn [mbind result_bind]. rewrite _hash_bytes_Ok by lia. cbn [mbind result_bind mret result_ret hs_fed].
  rewrite Hp, Heq, Z.sub_0_r. done.
Qed.

(** ** The canonical patches of a validated GPT *)

Lemma len_canonical_header h crc : 92 <= len (h_raw_header h) → len (_canonical_header h crc) = len (h_raw_header h).
Proof.
  intros. unfold _canonical_header. set (l1 := splice 16 20 _ (h_raw_header h)).
  assert (len l1 = len (h_raw_header h)) by (apply len_splice; [lia|lia|done]).
  set (l2 := splice 56 72 _ l1). assert (len l2 = len l1) by (apply len_splice; [lia|lia|done]).
  set (l3 := splice 88 92 _ l2). assert (len l3 = len l2) by (apply len_splice; [lia|lia|done]).
  rewrite len_splice; [lia|lia|lia|done].
Qed.

Lemma len_canonical_array_step h array slot :
  128 <= h_entry_size h → 0 <= slot < h_count h → len array = h_count h * h_entry_size h →
  len (splice (slot * h_entry_size h + 16) (slot * h_entry_size h + 32) (zeros 16) array) = len array.
Proof. intros. rewrite len_splice; [done|nia..|by rewrite len_zeros; lia]. Qed.

Lemma len_canonical_array image ss lba h :
  header_valid image ss lba h → len (canonical_array h) = len (h_array h).
Proof.
  intros []. unfold canonical_array.
  apply (foldl_seqZ_rel (λ _ a _, len a = len (h_array h)) _ (λ s _, s) 0 (h_count h) (h_array h) (h_array h));
    [lia| |done].
  intros i a _ Hi Ha. rewrite len_canonical_array_step; [done|lia..|congruence].
Qed.

(** The four regions are in disk order, disjoint and inside the image. *)
Lemma canonical_patches_ok image ss primary backup :
  gpt_valid image ss primary backup →
  StronglySorted patch_le (canonical_patches primary backup) ∧
  patches_ok 0 (f_size image) (canonical_patches primary backup).
Proof.
  intros [Hss Hsz Hse Hp Hb Hf Hl Hc Hes Ha Hr].
  pose proof (len_canonical_array _ _ _ _ Hp) as Hca.
  destruct Hp as [], Hb as []. specialize (hv_primary eq_refl). specialize (hv_backup0 eq_refl).
  assert (Hlt : ∀ p q : Z * bytes, p.1 < q.1 → patch_le p q) by (intros; apply text_le_cons; lia).
  unfold canonical_patches. split.
  - repeat constructor; apply Hlt; simpl; lia.
  - simpl. rewrite !len_canonical_header by lia. rewrite Hca. lia.
Qed.

(** What a successful hash was computed from. *)
Lemma canonical_hash_inv image slot_label x :
  canonical_image_sha256 image slot_label = Ok x →
  ∃ ss primary backup,
    _validated_gpt image = Ok (f_size image, ss, primary, backup) ∧ gpt_valid image ss primary backup ∧
    x = hex (sha256 (foldl overwrite (contents image) (canonical_patches primary backup))).
Proof.
  unfold canonical_image_sha256. intros H. apply bind_Ok_inv in H as (md & H & H').
  destruct (project_image_validated _ _ _ _ H) as (primary & backup & Hv & Hg).
  rewrite Hv in H'. cbn [mbind result_bind] in H'. destruct (canonical_patches_ok _ _ _ _ Hg).
  rewrite _hash_with_patches_Ok in H' by done. apply Ok_inj in H' as <-. eauto 10.
Qed.

Lemma _validated_gpt_sector image size ss primary backup :
  _validated_gpt image = Ok (size, ss, primary, backup) → _sector_size image (f_size image) = Ok ss.
Proof. unfold _validated_gpt. intros H. res_inv. by simplify_eq. Qed.

(** The hash of an accepted image. *)
Lemma canonical_hash_is_overwritten image slot_label md :
  project_image image (lit "uefi") slot_label = Ok md →
  ∃ primary backup,
    _validated_gpt image = Ok (f_size image, md_sector_size md, primary, backup) ∧
    canonical_image_sha256 image slot_label =
      Ok (hex (sha256 (foldl overwrite (contents image) (canonical_patches primary backup)))).
Proof.
  intros H. destruct (project_image_validated _ _ _ _ H) as (primary & backup & Hv & Hg).
  exists primary, backup. split; [done|]. unfold canonical_image_sha256. rewrite H. cbn [mbind result_bind].
  rewrite Hv. cbn [mbind result_bind]. destruct (canonical_patches_ok _ _ _ _ Hg). by apply _hash_with_patches_Ok.
Qed.

(** C11: the streamed hash is total and correct. On every image that [project_image] accepts,
    [canonical_image_sha256] succeeds (in particular its patches never overlap and no read is short), and the
    digest is the SHA-256 of the whole image with exactly the four canonical regions overwritten. *)
Theorem canonical_hash_is_overwritten_image image slot_label md :
  project_image image (lit "uefi") slot_label = Ok md →
  ∃ primary backup,
    _validated_gpt image = Ok (f_size image, md_sector_size md, primary, backup) ∧
    canonical_image_sha256 image slot_label =
      Ok (hex (sha256 (foldl overwrite (contents image) (canonical_patches primary backup)))).
Proof. apply canonical_hash_is_overwritten. Qed.

(** ** Independence of the GPT identity *)

(** The header fields that the canonical form normalizes: header CRC, disk GUID and array CRC. *)
Definition identity_field (j : Z) : Prop := 16 <= j < 20 ∨ 56 <= j < 72 ∨ 88 <= j < 92.

#[export] Instance identity_field_dec j : Decision (identity_field j).
Proof. unfold identity_field. apply _. Defined.

(** The identity bytes of an image: those fields of both headers, and the unique GUID of every table entry. *)
Definition identity_byte (primary backup : header) (i : Z) : Prop :=
  ∃ h, (h = primary ∨ h = backup) ∧
    (identity_field (i - h_header_offset h) ∨
     (0 <= i - h_array_offset h < len (h_array h) ∧ 16 <= (i - h_array_offset h) mod h_entry_size h < 32)).

(** Two sectors that agree outside the identity fields. *)
Definition sector_equiv (r s : bytes) : Prop :=
  len r = len s ∧ ∀ i : nat, ~ identity_field (Z.of_nat i) → r !! i = s !! i.

#[export] Instance sector_equiv_equivalence : Equivalence sector_equiv.
Proof.
  split.
  - done.
  - intros r s [? H]. split; [done|]. intros i Hi. by rewrite H.
  - intros r s t [? H] [? H']. split; [congruence|]. intros i Hi. by rewrite H, H'.
Qed.

Lemma sector_equiv_slice r s a b :
  sector_equiv r s → 0 <= a → (∀ j, a <= j < b → ~ identity_field j) → slice a b r = slice a b s.
Proof.
  intros [Hl H] Ha Hd. apply list_eq. intros i. destruct (decide (Z.of_nat i < b - a)) as [Hi|Hi].
  - rewrite !slice_lookup by lia. apply H, Hd. lia.
  - rewrite !slice_take_drop by lia. by rewrite !lookup_take_ge by lia.
Qed.

Lemma sector_equiv_unpack n r s off :
  sector_equiv r s → 0 <= off → (∀ j, off <= j < off + n → ~ identity_field j) →
  unpack_le n r off = unpack_le n s off.
Proof.
  intros Hs Ho Hd. unfold unpack_le. rewrite (sector_equiv_slice r s) by done. by destruct Hs as [-> _].
Qed.

Lemma not_identity j : ~ (16 <= j < 20) → ~ (56 <= j < 72) → ~ (88 <= j < 92) → ~ identity_field j.
Proof. unfold identity_field. lia. Qed.

(** The canonical header depends only on the bytes outside the identity fields. *)
Lemma canonical_header_equiv h k crc :
  sector_equiv (h_raw_header h) (h_raw_header k) → 92 <= len (h_raw_header h) →
  h_header_size h = h_header_size k → _canonical_header h crc = _canonical_header k crc.
Proof.
  intros [Hl H] Hlen Hsz. unfold _canonical_header. rewrite Hsz.
  set (f := λ r : bytes, splice 88 92 (le_encode 4 crc) (splice 56 72 (zeros 16) (splice 16 20 (zeros 4) r))).
  assert (Hf : f (h_raw_header h) = f (h_raw_header k)); [|by unfold f in Hf; rewrite Hf].
  unfold f. apply list_eq. intros i.
  rewrite !lookup_splice by (first [lia | done | rewrite !len_splice by (first [lia|done|rewrite !len_splice by (lia || done); lia]); lia]).
  repeat (case_match; [done|]). apply H, not_identity; lia.
Qed.

(** Arrays that agree outside the unique GUIDs of the entries from [k] on. *)
Definition array_equiv (es k : Z) (l l' : bytes) : Prop :=
  len l = len l' ∧
  ∀ i : nat, ~ (k <= Z.of_nat i / es ∧ 16 <= Z.of_nat i mod es < 32) → l !! i = l' !! i.

Lemma array_equiv_step es n k l l' :
  128 <= es → 0 <= k < n → len l = n * es → array_equiv es k l l' →
  array_equiv es (k + 1) (splice (k * es + 16) (k * es + 32) (zeros 16) l)
    (splice (k * es + 16) (k * es + 32) (zeros 16) l').
Proof.
  intros Hes Hk Hl [Hll H]. assert (len (zeros 16) = k * es + 32 - (k * es + 16)) by (rewrite len_zeros; lia).
  split; [rewrite !len_splice by (done || nia); done|]. intros i Hi.
  rewrite !lookup_splice by (done || nia).
  destruct ((k * es + 16 <=? Z.of_nat i) && (Z.of_nat i <? k * es + 32)) eqn:E; [done|]. apply H. intros [H1 H2].
  apply Hi. split; [|done]. destruct (decide (Z.of_nat i / es = k)) as [Hd|]; [|lia].
  pose proof (Z.div_mod (Z.of_nat i) es ltac:(lia)). rewrite Hd in *. lia.
Qed.

Lemma canonical_array_equiv h k :
  128 <= h_entry_size h → 0 < h_count h → len (h_array h) = h_count h * h_entry_size h →
  h_entry_size h = h_entry_size k → h_count h = h_count k →
  array_equiv (h_entry_size h) 0 (h_array h) (h_array k) → canonical_array h = canonical_array k.
Proof.
  intros Hes Hc Hl He Hc' Heq. unfold canonical_array. rewrite <- He, <- Hc'.
  destruct (foldl_seqZ_rel (λ i l l', len l = h_count h * h_entry_size h ∧ array_equiv (h_entry_size h) i l l')
    (λ array slot, splice (slot * h_entry_size h + 16) (slot * h_entry_size h + 32) (zeros 16) array)
    (λ array slot, splice (slot * h_entry_size h + 16) (slot * h_entry_size h + 32) (zeros 16) array)
    0 (h_count h) (h_array h) (h_array k)) as [Hlen [Hlen' H]]; [lia| |done|].
  - intros i l l' Hi [Hll Heqv]. split; [|by eapply array_equiv_step; eauto; lia].
    by rewrite len_canonical_array_step by (done || lia).
  - apply list_eq. intros i. destruct (decide (Z.of_nat i < h_count h * h_entry_size h)) as [Hi|Hi].
    + apply H. rewrite Z.add_0_l. intros [H1 _]. assert (Z.of_nat i / h_entry_size h < h_count h); [|lia].
      apply Z.div_lt_upper_bound; lia.
    + unfold len in *. rewrite !lookup_ge_None_2 by lia. done.
Qed.

(** A position inside one of the patches. *)
Definition covered (ps : list (Z * bytes)) (i : Z) : Prop :=
  Exists (λ p, p.1 <= i < p.1 + len p.2) ps.

Lemma overwrite_equiv ps l l' c :
  0 <= c → patches_ok c (len l) ps → len l = len l' →
  (∀ i : nat, ~ covered ps (Z.of_nat i) → l !! i = l' !! i) →
  foldl overwrite l ps = foldl overwrite l' ps.
Proof.
  revert l l' c. induction ps as [|[o r] ps IH]; intros l l' c Hc Hok Hl H; simpl.
  - apply list_eq. intros i. apply H. by intros ?%Exists_nil.
  - destruct Hok as [Ho Hok]. pose proof (patches_ok_le _ _ _ Hok). pose proof (len_nonneg r).
    assert (Hlen : ∀ k, len k = len l → len (overwrite k (o, r)) = len l)
      by (intros k Hk; unfold overwrite; simpl; rewrite len_splice; lia).
    apply (IH _ _ (o + len r)); [lia|by rewrite Hlen|by rewrite !Hlen|].
    intros i Hi. unfold overwrite. simpl. rewrite !lookup_splice by lia. case_match eqn:E; [done|].
    apply H. unfold covered. rewrite Exists_cons. intros [?|?]; [simpl in *; lia|done].
Qed.

(** A header of [g] at the place of a header of [f] has the same geometry. *)
Lemma header_geometry_agrees f g ss lba h k :
  header_valid f ss lba h → header_valid g ss lba k →
  sector_equiv (h_raw_header h) (h_raw_header k) →
  h_count h = h_count k ∧ h_entry_size h = h_entry_size k ∧ h_array_offset h = h_array_offset k ∧
  h_header_size h = h_header_size k ∧ h_header_offset h = h_header_offset k.
Proof.
  intros [] [] Heq.
  destruct hv_raw_fields as (fs & Hfs1 & -> & -> & Hlba), hv_raw_fields0 as (fs' & Hfs2 & -> & -> & Hlba').
  assert (Hu : ∀ n off, 0 <= off → (∀ j, off <= j < off + n → ~ identity_field j) →
    unpack_le n (h_raw_header h) off = unpack_le n (h_raw_header k) off) by (intros; by apply sector_equiv_unpack).
  unfold _header_fields in Hfs1, Hfs2. res_inv. simpl in *.
  repeat match goal with
  | H1 : unpack_le ?n (h_raw_header h) ?o = Ok _, H2 : unpack_le ?n (h_raw_header k) ?o = Ok _ |- _ =>
      rewrite (Hu n o) in H1 by first [lia | intros; apply not_identity; lia];
      rewrite H2 in H1; injection H1 as H1; clear H2
  end.
  lia.
Qed.

Section identity_free.
  Context (f g : file) (ss : Z) (primary backup : header).
  Context (Hf : gpt_valid f ss primary backup) (Hsize : f_size f = f_size g).
  Context (Hsame : ∀ i, 0 <= i < f_size f → ~ identity_byte primary backup i → f_byte f i = f_byte g i).

Local Ltac valid := destruct Hf as [Hss Hsz Hse [] [] Hfu Hlu Hcn Hes Har Hreg];
  assert (512 <= ss) by lia;
  repeat match goal with H : ?x = ?x → _ |- _ => specialize (H eq_refl) end.

(** The regions that hold identity bytes are disjoint. *)
Lemma identity_byte_inv i :
  0 <= i < f_size f → identity_byte primary backup i →
  (∃ h, (h = primary ∨ h = backup) ∧ identity_field (i - h_header_offset h)) ∨
  (∃ h, (h = primary ∨ h = backup) ∧ 2 * ss <= i < (f_size f / ss - 1) * ss ∧
    0 <= i - h_array_offset h < len (h_array h) ∧ 16 <= (i - h_array_offset h) mod h_entry_size h < 32).
Proof.
  intros Hi (h & Hh & [H|[H1 H2]]); [left; by eauto|right]. exists h. split; [done|]. split; [|done].
  valid. destruct Hh as [-> | ->]; lia.
Qed.

Lemma sector_equiv_read (lba : Z) h :
  (lba = 1 ∧ h = primary) ∨ (lba = f_size f / ss - 1 ∧ h = backup) →
  sector_equiv (fread f (lba * ss) ss) (fread g (lba * ss) ss).
Proof.
  intros Hlba. assert (Hb : 0 <= lba * ss ∧ lba * ss + ss <= f_size f) by
    (valid; lia).
  assert (0 <= ss) by (valid; lia).
  split; [by rewrite !len_fread by lia|]. intros i Hi. destruct (decide (Z.of_nat i < ss)) as [Hs|Hs].
  - rewrite !lookup_fread by lia. f_equal. apply Hsame; [lia|]. intros Hid.
    apply identity_byte_inv in Hid as [(k & Hk & Hid)|(k & Hk & Hr & _)]; [|valid; lia|lia].
    apply Hi. revert Hid. unfold identity_field. valid.
    destruct Hlba as [[-> ->]|[-> ->]], Hk as [-> | ->]; lia.
  - rewrite !lookup_ge_None_2; [done|..]; unfold fread; rewrite length_fmap, length_seqZ; lia.
Qed.

Lemma sector_size_agrees ss' : _sector_size g (f_size g) = Ok ss' → _sector_size f (f_size f) = Ok ss → ss' = ss.
Proof.
  intros Hg' Hf'. pose proof (sector_equiv_read 1 primary ltac:(auto)) as Heq. rewrite Z.mul_1_l in Heq.
  assert (Hsig : fread g ss 8 = fread f ss 8).
  { valid. assert (ss + ss <= f_size f) by (lia).
    assert (Hpre : ∀ k, f_size k = f_size f → fread k ss 8 = slice 0 8 (fread k ss ss)).
    { intros k Hk. rewrite slice_fread by lia. f_equal; lia. }
    rewrite !Hpre by done. symmetry. apply sector_equiv_slice; [done|lia|]. intros j Hj. apply not_identity; lia. }
  apply _sector_size_Ok in Hf' as (Hin & _ & _ & Hc). apply _sector_size_filter in Hg'.
  assert (In ss [ss']) as [->|[]]; [|done]. rewrite <- Hg'. apply filter_In. split.
  - destruct Hin as [-> | ->]; simpl; auto.
  - unfold sector_candidate in *. by rewrite <- Hsize, Hsig.
Qed.

(** The table of [g] agrees with the table of [f] outside the unique partition GUIDs. *)
Lemma array_equiv_read :
  array_equiv (h_entry_size primary) 0 (h_array primary)
    (fread g (h_array_offset primary) (h_count primary * h_entry_size primary)).
Proof.
  assert (Hb : 2 * ss <= h_array_offset primary ∧
    h_array_offset primary + h_count primary * h_entry_size primary <= (f_size f / ss - 1) * ss ∧
    (f_size f / ss - 1) * ss <= f_size f ∧ 0 <= h_count primary * h_entry_size primary).
  { valid. split; [lia|]. split; [done|]. lia. }
  assert (512 <= ss) by (valid; lia).
  assert (Ha : h_array primary = fread f (h_array_offset primary) (h_count primary * h_entry_size primary)) by (by valid).
  assert (Hl : len (h_array primary) = h_count primary * h_entry_size primary) by (by valid).
  split; [rewrite Hl, len_fread; lia|]. intros i Hi. rewrite Ha.
  destruct (decide (Z.of_nat i < h_count primary * h_entry_size primary)) as [Hs|Hs].
  - rewrite !lookup_fread by lia. f_equal. apply Hsame; [lia|]. intros (k & Hk & [Hid|[Hr Hid]]).
    + revert Hid. unfold identity_field. valid. destruct Hk as [-> | ->]; lia.
    + apply Hi. destruct Hk as [-> | ->].
      * replace (h_array_offset primary + Z.of_nat i - h_array_offset primary) with (Z.of_nat i) in Hid by lia.
        split; [apply Z.div_pos; [lia|]|done]. valid. lia.
      * exfalso. valid. lia.
  - rewrite !lookup_ge_None_2; [done|..]; unfold fread; rewrite length_fmap, length_seqZ; lia.
Qed.

(** Identity bytes lie in the patched regions. *)
Lemma identity_covered i :
  0 <= i < f_size f → identity_byte primary backup i → covered (canonical_patches primary backup) i.
Proof.
  intros Hi (h & Hh & Hid). unfold covered, canonical_patches.
  assert (Hpv : header_valid f ss 1 primary) by (by valid).
  rewrite !Exists_cons, Exists_nil. simpl.
  rewrite !len_canonical_header by (valid; lia). rewrite (len_canonical_array _ _ _ _ Hpv).
  unfold identity_field in Hid.
  assert (len (h_array primary) = len (h_array backup)) by (valid; congruence).
  valid. destruct Hh as [-> | ->]; lia.
Qed.
End identity_free.

(** The canonical hash does not depend on the GPT identity. If two accepted images have the same size and agree
    on every byte except header CRCs, disk GUIDs, array CRCs and unique partition GUIDs, their hashes are equal. *)
Theorem canonical_hash_identity_free f g ss primary backup label_f label_g x y :
  _validated_gpt f = Ok (f_size f, ss, primary, backup) →
  f_size f = f_size g →
  (∀ i, 0 <= i < f_size f → ~ identity_byte primary backup i → f_byte f i = f_byte g i) →
  canonical_image_sha256 f label_f = Ok x → canonical_image_sha256 g label_g = Ok y → x = y.
Proof.
  intros Hvf Hsize Hsame Hx Hy.
  destruct (canonical_hash_inv _ _ _ Hx) as (ss1 & p1 & b1 & Hv1 & Hg1 & ->).
  destruct (canonical_hash_inv _ _ _ Hy) as (ss' & p' & b' & Hvg & Hg & ->).
  rewrite Hvf in Hv1. injection Hv1 as <- <- <-. rename Hg1 into Hf.
  assert (ss' = ss) as ->.
  { eapply (sector_size_agrees f g); eauto using _validated_gpt_sector. }
  pose proof (gv_primary _ _ _ _ Hf) as Hfp. pose proof (gv_backup _ _ _ _ Hf) as Hfb.
  pose proof (gv_primary _ _ _ _ Hg) as Hgp. pose proof (gv_backup _ _ _ _ Hg) as Hgb.
  rewrite <- Hsize in Hgb.
  assert (Hrp : sector_equiv (h_raw_header primary) (h_raw_header p')).
  { rewrite (hv_raw _ _ _ _ Hfp), (hv_raw _ _ _ _ Hgp). eapply sector_equiv_read; eauto. }
  assert (Hrb : sector_equiv (h_raw_header backup) (h_raw_header b')).
  { rewrite (hv_raw _ _ _ _ Hfb), (hv_raw _ _ _ _ Hgb). eapply sector_equiv_read; eauto. }
  edestruct header_geometry_agrees as (Hc & He & Ho & Hs & Hh); [exact Hfp|exact Hgp|exact Hrp|].
  edestruct header_geometry_agrees as (Hcb & Heb & Hob & Hsb & Hhb); [exact Hfb|exact Hgb|exact Hrb|].
  assert (Har : canonical_array primary = canonical_array p').
  { apply canonical_array_equiv; try done; [apply Hfp..|].
    rewrite (hv_array _ _ _ _ Hgp), <- Hc, <- He, <- Ho. eapply array_equiv_read; eauto. }
  assert (Hps : canonical_patches primary backup = canonical_patches p' b').
  { unfold canonical_patches. rewrite Har, Ho, Hob, Hh, Hhb.
    pose proof (gv_ss _ _ _ _ Hf). pose proof (hv_len_raw _ _ _ _ Hfp). pose proof (hv_len_raw _ _ _ _ Hfb).
    rewrite (canonical_header_equiv primary p'), (canonical_header_equiv backup b') by (done || lia). done. }
  rewrite <- Hps. do 2 f_equal. pose proof (canonical_patches_ok _ _ _ _ Hf) as [_ Hok].
  assert (0 <= f_size f) by (pose proof (gv_sectors _ _ _ _ Hf); pose proof (gv_size _ _ _ _ Hf);
    destruct (gv_ss _ _ _ _ Hf); nia).
  assert (Hlen : ∀ k, f_size k = f_size f → len (contents k) = f_size f)
    by (intros k Hk; unfold contents; rewrite len_fread; lia).
  apply (overwrite_equiv _ _ _ 0); [lia|by rewrite Hlen|by rewrite !Hlen|].
  intros i Hi. unfold contents. destruct (decide (Z.of_nat i < f_size f)) as [Hlt|Hge].
  - rewrite !lookup_fread by lia. rewrite Z.add_0_l. f_equal. apply Hsame; [lia|].
    intros Hid. apply Hi. eapply identity_covered; eauto. lia.
  - rewrite !lookup_ge_None_2; [done|..]; unfold fread; rewrite length_fmap, length_seqZ; lia.
Qed.

(** ** Witnesses *)

Lemma canonical_hash_is_overwritten_image_witness :
  is_Ok (canonical_image_sha256 demo_image None) = true.
Proof.
  destruct (canonical_hash_is_overwritten_image demo_image None _ demo_project) as (p & b & _ & H).
  rewrite H. reflexivity.
Defined.

(** The demo disk with another disk GUID and another unique partition GUID. *)
Definition demo_image' : file := Demo.image 99 2048 [Demo.root 42].

Lemma demo_project' : is_Ok (project_image demo_image' (lit "uefi") None) = true.
Proof. by_compute. Qed.

(** The validated copies of the demo disk. *)
Definition copies (r : result (Z * Z * header * header)) : option (header * header) :=
  match r with Ok (_, _, p, b) => Some (p, b) | Err _ => None end.
Definition demo_gpt : option (header * header) := copies (_validated_gpt demo_image).

Lemma demo_size : f_size demo_image = 2051 * 512.
Proof. by_compute. Qed.
Lemma demo_size' : f_size demo_image' = 2051 * 512.
Proof. by_compute. Qed.

Definition demo_region (off : Z) (entries : bool) : bool :=
  forallb (λ j,
    (if entries then (16 <=? j mod 128) && (j mod 128 <? 32)
     else ((16 <=? j) && (j <? 20)) || ((56 <=? j) && (j <? 72)) || ((88 <=? j) && (j <? 92)))
    || bool_decide (f_byte demo_image (off + j) = f_byte demo_image' (off + j))) (seqZ 0 512).

Lemma demo_regions :
  demo_region 512 false && demo_region 1024 true && demo_region (2049 * 512) true &&
  demo_region (2050 * 512) false = true.
Proof. by_compute. Qed.

Lemma demo_region_byte off entries i :
  demo_region off entries = true → off <= i < off + 512 →
  (if entries then 16 <= (i - off) mod 128 < 32 else identity_field (i - off)) ∨
  f_byte demo_image i = f_byte demo_image' i.
Proof.
  intros H Hi. unfold demo_region in H. rewrite forallb_forall in H.
  specialize (H (i - off)). rewrite <- list_elem_of_In, elem_of_seqZ in H. specialize (H ltac:(lia)).
  replace (off + (i - off)) with i in H by lia. unfold identity_field.
  apply orb_true_iff in H as [H|H]; [left; destruct entries; lia|right; by bool_inv].
Qed.

Lemma demo_geometry p b :
  demo_gpt = Some (p, b) →
  h_header_offset p = 512 ∧ h_array_offset p = 1024 ∧ len (h_array p) = 512 ∧ h_entry_size p = 128 ∧
  h_header_offset b = 2050 * 512 ∧ h_array_offset b = 2049 * 512 ∧ len (h_array b) = 512 ∧ h_entry_size b = 128.
Proof. intros H. vm_compute in H. injection H as <- <-. by vm_compute. Qed.

Lemma demo_same_bytes p b i :
  demo_gpt = Some (p, b) → 0 <= i < f_size demo_image → ~ identity_byte p b i →
  f_byte demo_image i = f_byte demo_image' i.
Proof.
  intros Hg Hi Hid. apply demo_geometry in Hg as (Hpo & Hpa & Hpl & Hpe & Hbo & Hba & Hbl & Hbe).
  pose proof demo_regions as Hr. apply andb_true_iff in Hr as [Hr H4]. apply andb_true_iff in Hr as [Hr H3].
  apply andb_true_iff in Hr as [H1 H2]. rewrite demo_size in Hi.
  destruct (decide (512 <= i < 1024)).
  { destruct (demo_region_byte 512 false i H1) as [E|E]; [lia| |exact E].
    exfalso. apply Hid. exists p. split; [auto|]. left. by rewrite Hpo. }
  destruct (decide (1024 <= i < 1536)).
  { destruct (demo_region_byte 1024 true i H2) as [E|E]; [lia| |exact E].
    exfalso. apply Hid. exists p. split; [auto|]. right. rewrite Hpa, Hpl, Hpe. split; [lia|done]. }
  destruct (decide (2049 * 512 <= i < 2050 * 512)).
  { destruct (demo_region_byte (2049 * 512) true i H3) as [E|E]; [lia| |exact E].
    exfalso. apply Hid. exists b. split; [auto|]. right. rewrite Hba, Hbl, Hbe. split; [lia|done]. }
  destruct (decide (2050 * 512 <= i)).
  { destruct (demo_region_byte (2050 * 512) false i H4) as [E|E]; [lia| |exact E].
    exfalso. apply Hid. exists b. split; [auto|]. left. by rewrite Hbo. }
  unfold demo_image, demo_image', Demo.image. cbn [f_byte].
  replace ((512 <=? i) && (i <? 1024)) with false by lia.
  replace ((1024 <=? i) && (i <? 1536)) with false by lia.
  replace (((2048 + 1) * 512 <=? i) && (i <? (2048 + 2) * 512)) with false by lia.
  by replace ((2048 + 2) * 512 <=? i) with false by lia.
Qed.

Lemma canonical_hash_identity_free_witness :
  ∃ x, canonical_image_sha256 demo_image None = Ok x ∧ canonical_image_sha256 demo_image' None = Ok x.
Proof.
  destruct (project_image demo_image' (lit "uefi") None) as [md'|e] eqn:E;
    [|exfalso; pose proof demo_project' as H; rewrite E in H; discriminate H].
  destruct (canonical_hash_is_overwritten demo_image None _ demo_project) as (p & b & Hv & Hx).
  destruct (canonical_hash_is_overwritten demo_image' None _ E) as (p' & b' & _ & Hy).
  assert (Hg : demo_gpt = Some (p, b)) by (unfold demo_gpt; rewrite Hv; reflexivity).
  cbn [md_sector_size] in Hv.
  assert (Hs : f_size demo_image = f_size demo_image') by (rewrite demo_size, demo_size'; reflexivity).
  eexists. split; [exact Hx|]. rewrite Hy. f_equal. symmetry.
  eapply (canonical_hash_identity_free demo_image demo_image'); [exact Hv|exact Hs| |exact Hx|exact Hy].
  intros i Hi Hn. exact (demo_same_bytes p b i Hg Hi Hn).
Defined.
