(* ===== verification/Verity.v ===== *)
(** * dm-verity metadata: [mkosi/private/verity_metadata.py]

    [project] recomputes the whole dm-verity hash tree of a root artifact and compares it with the emitted hash
    artifact. Spool files are the byte strings written to them; the JSON partition metadata is the list of
    [Gpt.partition] records that it encodes. *)
From S2P Require Import Prelude Bytes PyText Hashing Gpt.

Definition MAX_ARTIFACT_BYTES : Z := 16 * 1024 ^ 3.
Definition MAX_BLOCKS : Z := 2 ^ 32.
Definition MAX_LEVELS : Z := 64.
Definition MAX_SPOOL_BYTES : Z := 2 * 1024 ^ 3.
Definition SUPERBLOCK_SIZE : Z := 512.

(** [int.bit_length()]. *)
Definition bit_length (z : Z) : Z := if z =? 0 then 0 else Z.log2 (Z.abs z) + 1.

(** [value.split(b"\0", 1)[0]]. *)
Fixpoint until_nul (l : bytes) : bytes :=
  match l with
  | [] => []
  | b :: l => if bool_decide (b = x00) then [] else b :: until_nul l
  end.

(** [x & (x - 1)] is nonzero: [x] is no power of two. *)
Definition not_pow2 (x : Z) : bool := negb (Z.land x (x - 1) =? 0).

Definition _slot_size (data_block_size hash_block_size digest_size : Z) : result Z :=
  raise_if ((data_block_size <? 512) || (1024 * 1024 <? data_block_size) || not_pow2 data_block_size)
    (ValueError "invalid dm-verity data block size" []);;
  raise_if ((hash_block_size <? digest_size) || (1024 * 1024 <? hash_block_size) || not_pow2 hash_block_size)
    (ValueError "invalid dm-verity hash block size" []);;
  let slot_size := Z.shiftl 1 (bit_length (digest_size - 1)) in
  raise_if ((hash_block_size <? slot_size) || negb (hash_block_size mod slot_size =? 0))
    (ValueError "dm-verity digest slots do not divide the hash block" []);;
  mret slot_size.

(** The geometry dictionary of [_read_superblock]. *)
Record geometry := {
  g_algorithm : text; g_data_block_size : Z; g_data_blocks : Z; g_digest_size : Z; g_hash_block_size : Z;
  g_slot_size : Z; g_salt : bytes; g_superblock : bytes }.

Section verity.
Context `{Hashlib}.

Definition _digest_size (algorithm : text) : result Z :=
  of_option (ValueError "unsupported dm-verity hash algorithm" []) (hash_size algorithm).

Definition _read_superblock (path : file) : result geometry :=
  let value := fread path 0 SUPERBLOCK_SIZE in
  raise_if (negb (len value =? SUPERBLOCK_SIZE) || bool_decide (slice 0 8 value ≠ blit "verity" ++ zeros 2))
    (ValueError "hash artifact has no complete dm-verity superblock" []);;
  version ← u32 value 8;
  hash_type ← u32 value 12;
  algorithm ← of_option UnicodeError (ascii_decode (until_nul (slice 32 64 value)));
  data_block_size ← u32 value 64;
  hash_block_size ← u32 value 68;
  data_blocks ← u64 value 72;
  salt_size ← u16 value 80;
  raise_if (negb (version =? 1) || negb (hash_type =? 1))
    (ValueError "only dm-verity format 1 with normal salt placement is supported" []);;
  digest_size ← _digest_size algorithm;
  slot_size ← _slot_size data_block_size hash_block_size digest_size;
  raise_if ((data_blocks =? 0) || (MAX_BLOCKS <? data_blocks))
    (ValueError "invalid dm-verity data block count" []);;
  raise_if (256 <? salt_size) (ValueError "invalid dm-verity salt size" []);;
  mret {| g_algorithm := algorithm; g_data_block_size := data_block_size; g_data_blocks := data_blocks;
          g_digest_size := digest_size; g_hash_block_size := hash_block_size; g_slot_size := slot_size;
          g_salt := slice 88 (88 + salt_size) value; g_superblock := value |}.

(** [digest()] of an extendable output function, whose [digest_size] is 0, raises [TypeError]. *)
Definition _salted_digest (g : geometry) (data : bytes) : result bytes :=
  if g_digest_size g =? 0 then Err TypeError else Ok (hash_digest (g_algorithm g) (g_salt g ++ data)).

(** The spool of leaf digests. *)
Definition _leaf_digests (source : file) (g : geometry) : result bytes :=
  let block_size := g_data_block_size g in
  foldM (λ output i,
    let block := fread source (i * block_size) block_size in
    raise_if (negb (len block =? block_size))
      (ValueError "root artifact is truncated within declared data blocks" []);;
    d ← _salted_digest g block;
    mret (output ++ d)) [] (seqZ 0 (g_data_blocks g)).

Fixpoint level_counts_loop (fuel : nat) (counts : list Z) (digests per_block : Z) : result (list Z) :=
  match fuel with
  | O => Err OutOfFuel
  | S fuel =>
      if negb (1 <? digests) then mret counts else
      let blocks := (digests + per_block - 1) / per_block in
      let counts := counts ++ [blocks] in
      raise_if (MAX_LEVELS <? len counts) (ValueError "dm-verity tree exceeds the level limit" []);;
      level_counts_loop fuel counts blocks per_block
  end.

(** The level limit ends the loop in its 65th round at the latest. *)
Definition _level_counts (data_blocks per_block : Z) : result (list Z) :=
  level_counts_loop (Z.to_nat MAX_LEVELS + 2) [] data_blocks per_block.

Definition _check_spool_budget (g : geometry) (counts : list Z) : result unit :=
  let leaf_bytes := g_data_blocks g * g_digest_size g in
  let next_bytes := match counts with c :: _ => c * g_digest_size g | [] => 0 end in
  raise_if (MAX_SPOOL_BYTES <? leaf_bytes + next_bytes)
    (ValueError "dm-verity digest spools exceed the resource limit" []).

(** The offsets of [reversed(counts)] in loop order, and the blocks before the end. *)
Fixpoint level_offsets_loop (tree_offset block_size preceding : Z) (counts : list Z) : list Z * Z :=
  match counts with
  | [] => ([], preceding)
  | count :: counts =>
      let '(offsets, total) := level_offsets_loop tree_offset block_size (preceding + count) counts in
      (tree_offset + preceding * block_size :: offsets, total)
  end.

Definition _level_offsets (counts : list Z) (tree_offset block_size : Z) : list Z * Z :=
  let '(offsets, preceding) := level_offsets_loop tree_offset block_size 0 (reverse counts) in
  (reverse offsets, preceding * block_size).

(** Packs [digests] digests of the spool [current], read from the digest number [consumed] on. *)
Definition _expected_block (current : bytes) (consumed digests : Z) (g : geometry) : result bytes :=
  let digest_size := g_digest_size g in
  let padding := zeros (g_slot_size g - digest_size) in
  block ← foldM (λ block i,
    let digest := slice ((consumed + i) * digest_size) ((consumed + i) * digest_size + digest_size) current in
    raise_if (negb (len digest =? digest_size)) (ValueError "dm-verity digest spool is truncated" []);;
    mret (block ++ digest ++ padding)) [] (seqZ 0 digests);
  mret (block ++ zeros (g_hash_block_size g - len block)).

(** [_DigestSpool]: the digests of one level and their number. *)
Record spool := { sp_data : bytes; sp_count : Z }.

Definition _verify_level (level block_count : Z) (below : spool) (emitted : file) (emitted_offset : Z) (g : geometry) :
    result bytes :=
  let block_size := g_hash_block_size g in
  let per_block := block_size / g_slot_size g in
  '(_, output) ← foldM (λ '(consumed, output) block_index,
    let digests := Z.min per_block (sp_count below - consumed) in
    block ← _expected_block (sp_data below) consumed digests g;
    raise_if (bool_decide (fread emitted (emitted_offset + block_index * block_size) block_size ≠ block))
      (ValueError "dm-verity hash mismatch at level {} block {}" [AInt level; AInt block_index]);;
    d ← _salted_digest g block;
    mret (consumed + digests, output ++ d)) (0, []) (seqZ 0 block_count);
  mret output.

Definition _read_root_digest (data : bytes) (digest_size : Z) : result bytes :=
  let verified_root := slice 0 digest_size data in
  raise_if (negb (len verified_root =? digest_size) ||
            bool_decide (slice digest_size (digest_size + 1) data ≠ []))
    (ValueError "dm-verity root digest spool has invalid size" []);;
  mret verified_root.

(** The loop of [_verify_tree] over the levels, from the leaves up. *)
Definition verify_levels (emitted : file) (g : geometry) (below : spool) (levels : list (Z * (Z * Z))) : result spool :=
  foldM (λ below '(level, (block_count, emitted_offset)),
    data ← _verify_level level block_count below emitted emitted_offset g;
    mret {| sp_data := data; sp_count := block_count |}) below levels.

Definition _verify_tree (root_image hash_image : file) (g : geometry) (tree_offset : Z) :
    result (list Z * bytes * Z) :=
  let block_size := g_hash_block_size g in
  counts ← _level_counts (g_data_blocks g) (block_size / g_slot_size g);
  _check_spool_budget g counts;;
  let '(level_offsets, tree_size) := _level_offsets counts tree_offset block_size in
  leaf ← _leaf_digests root_image g;
  below ← verify_levels hash_image g {| sp_data := leaf; sp_count := g_data_blocks g |}
            (zip (seqZ 0 (len counts)) (zip counts level_offsets));
  root ← _read_root_digest (sp_data below) (g_digest_size g);
  mret (counts, root, tree_size).

Definition _all_zero (l : bytes) : bool := forallb (λ b, bool_decide (b = x00)) l.

Definition _root_partitions (partitions : list partition) : result (partition * partition) :=
  let inactive p := bool_decide (p_label p = EMPTY_SLOT_LABEL) &&
    (bool_decide (p_type_guid p = ROOT_X86_64) || bool_decide (p_type_guid p = ROOT_X86_64_VERITY)) in
  let active := List.filter (λ p, negb (inactive p)) partitions in
  match of_type ROOT_X86_64 active, of_type ROOT_X86_64_VERITY active with
  | [root], [verity] =>
      raise_if (bool_decide (of_type ROOT_X86_64_VERITY_SIG active ≠ []))
        (ValueError "verity signature partitions require signing support tracked by #23" []);;
      mret (root, verity)
  | _, _ => Err (ValueError "exactly one x86-64 root data and verity hash partition is required" [])
  end.

Definition _artifact_sizes (root_image hash_image : file) (root_partition hash_partition : partition) :
    result (Z * Z) :=
  let root_size := f_size root_image in
  let hash_size := f_size hash_image in
  raise_if ((MAX_ARTIFACT_BYTES <? root_size) || (MAX_ARTIFACT_BYTES <? hash_size))
    (ValueError "dm-verity artifact exceeds validation resource limit" []);;
  raise_if (negb (root_size =? p_size_bytes root_partition))
    (ValueError "root artifact size does not equal its GPT partition extent" []);;
  raise_if (negb (hash_size =? p_size_bytes hash_partition))
    (ValueError "hash artifact size does not equal its GPT partition extent" []);;
  mret (root_size, hash_size).

Definition _check_superblock_padding (hash_image : file) (tree_offset : Z) : result unit :=
  let header_block := fread hash_image 0 tree_offset in
  raise_if (negb (len header_block =? tree_offset) || negb (_all_zero (slice_from SUPERBLOCK_SIZE header_block)))
    (ValueError "dm-verity superblock padding is not canonical zero padding" []).

Definition _check_zero_trailer (path : file) (offset : Z) (name : string) : result unit :=
  raise_if (negb (_all_zero (fread path offset (f_size path - offset))))
    (ValueError "{} artifact has nonzero ambiguous trailing bytes" [AStr name]).

(** [_artifact]: the SHA-256 and the size of a file. *)
Definition _artifact (path : file) (size : Z) : text * Z := (hex (sha256 (contents path)), size).

Record verity_metadata := {
  vm_root : text * Z; vm_root_hash_file : text * Z; vm_verity : text * Z;
  vm_data_block_size : Z; vm_data_blocks : Z; vm_data_partition : Z; vm_digest_size : Z; vm_digest_slot_size : Z;
  vm_hash_algorithm : text; vm_hash_block_size : Z; vm_hash_levels : Z; vm_hash_partition : Z; vm_root_hash : text;
  vm_salt : text; vm_tree_offset : Z; vm_tree_size : Z }.

Definition project `{Ucd} (root_hash_path : file) (partitions : list partition) (root_image hash_image : file) :
    result verity_metadata :=
  content ← read_text root_hash_path;
  let root_hash := lower (strip content) in
  '(root_partition, hash_partition) ← _root_partitions partitions;
  '(root_size, hash_size) ← _artifact_sizes root_image hash_image root_partition hash_partition;
  g ← _read_superblock hash_image;
  let data_size := g_data_blocks g * g_data_block_size g in
  raise_if (root_size <? data_size) (ValueError "dm-verity data geometry exceeds the root artifact" []);;
  _check_zero_trailer root_image data_size "root";;
  let tree_offset := g_hash_block_size g in
  _check_superblock_padding hash_image tree_offset;;
  '(levels, verified_root, tree_size) ← _verify_tree root_image hash_image g tree_offset;
  _check_zero_trailer hash_image (tree_offset + tree_size) "hash";;
  raise_if (bool_decide (root_hash ≠ hex verified_root))
    (ValueError "supplied root hash does not equal the independently verified root" []);;
  mret {| vm_root := _artifact root_image root_size;
          vm_root_hash_file := _artifact root_hash_path (f_size root_hash_path);
          vm_verity := _artifact hash_image hash_size;
          vm_data_block_size := g_data_block_size g; vm_data_blocks := g_data_blocks g;
          vm_data_partition := p_number root_partition; vm_digest_size := g_digest_size g;
          vm_digest_slot_size := g_slot_size g; vm_hash_algorithm := g_algorithm g;
          vm_hash_block_size := g_hash_block_size g; vm_hash_levels := len levels;
          vm_hash_partition := p_number hash_partition; vm_root_hash := root_hash; vm_salt := hex (g_salt g);
          vm_tree_offset := tree_offset; vm_tree_size := tree_size |}.
End verity.
