(* ===== verification/VerityProofs.v ===== *)
(** * The dm-verity tree check against a reference Merkle tree

    The reference works on lists of digests instead of spools and offsets: [next_level] packs digests into zero-padded
    hash blocks and hashes them, [tower] iterates it, and [tree_bytes] lays the levels out with the top one first.
    [_verify_tree] accepts exactly the artifacts that hold this tree, and a root digest determines the data up to hash
    collisions. *)
From S2P Require Import Prelude Bytes PyText Hashing Gpt Verity.

(** ** Lists of equally long byte strings *)

Abbreviation uniform n l := (Forall (λ d : bytes, len d = n) l).

Lemma len_concat n (l : list bytes) : uniform n l → len (concat l) = len l * n.
Proof. induction 1 as [|d l Hd Hl IH]; [done|]. simpl. rewrite len_app, len_cons, IH, Hd. lia. Qed.

Lemma concat_slice n (l : list bytes) i d :
  uniform n l → 0 <= n → 0 <= i → l !! Z.to_nat i = Some d → slice (i * n) (i * n + n) (concat l) = d.
Proof.
  intros Hl Hn. revert i. induction Hl as [|x l Hx Hl IH]; intros i Hi Hd; [done|]. simpl.
  destruct (decide (i = 0)) as [->|].
  - simpl in *. simplify_eq. rewrite Z.mul_0_l, Z.add_0_l. apply slice_app_exact.
  - rewrite slice_app_r by nia. rewrite <- (IH (i - 1)); [|lia|].
    + f_equal; rewrite Hx; lia.
    + replace (Z.to_nat i) with (S (Z.to_nat (i - 1))) in Hd by lia. done.
Qed.

Lemma concat_inj n (l k : list bytes) : 0 < n → uniform n l → uniform n k → concat l = concat k → l = k.
Proof.
  intros Hn Hl. revert k. induction Hl as [|x l Hx Hl IH]; intros [|y k] Hk Heq; [done|..]; inv Hk; simpl in *.
  - apply (f_equal len) in Heq. rewrite len_app in Heq. pose proof (len_nonneg (concat k)). unfold len in *; simpl in *; lia.
  - apply (f_equal len) in Heq. rewrite len_app in Heq. pose proof (len_nonneg (concat l)). unfold len in *; simpl in *; lia.
  - apply app_inj_1 in Heq as [-> Heq]; [|unfold len in *; lia]. f_equal. by apply IH.
Qed.

Lemma bind_concat (f : bytes → bytes) l : l ≫= f = concat (f <$> l).
Proof. induction l as [|x l IH]; [done|]. by rewrite bind_cons, IH. Qed.

Definition ceil (a b : Z) : Z := (a + b - 1) / b.

Lemma ceil_bounds a b : 0 < b → (ceil a b - 1) * b < a <= ceil a b * b.
Proof.
  intros. unfold ceil. pose proof (Z.div_mod (a + b - 1) b ltac:(lia)).
  pose proof (Z.mod_pos_bound (a + b - 1) b ltac:(lia)). nia.
Qed.

(** ** Level counts *)

(** The counts of a tree over [n] digests with [per] digests per block. *)
Fixpoint counts_chain (n per : Z) (counts : list Z) : Prop :=
  match counts with
  | [] => n <= 1
  | c :: counts => 1 < n ∧ c = ceil n per ∧ counts_chain c per counts
  end.

Lemma level_counts_loop_Ok fuel acc n per counts :
  level_counts_loop fuel acc n per = Ok counts → ∃ rest, counts = acc ++ rest ∧ counts_chain n per rest.
Proof.
  revert acc n. induction fuel as [|fuel IH]; intros acc n Hl; simpl in Hl; [done|].
  destruct (1 <? n) eqn:E; simpl in Hl; res_inv.
  - apply IH in Hl as (rest & -> & Hc). exists (ceil n per :: rest).
    rewrite <- (assoc_L (++)). simpl. split; [done|]. split; [lia|]. done.
  - exists []. rewrite app_nil_r. simpl. split; [done|lia].
Qed.

Lemma level_counts_loop_total k fuel acc n per :
  2 <= per → 0 <= n <= 2 ^ Z.of_nat k → (k < fuel)%nat → len acc + Z.of_nat k <= MAX_LEVELS →
  ∃ rest, level_counts_loop fuel acc n per = Ok (acc ++ rest) ∧ len rest <= Z.of_nat k.
Proof.
  intros Hper. revert fuel acc n. induction k as [|k IH]; intros [|fuel] acc n Hn Hf Ha; try lia; simpl.
  - replace (1 <? n) with false by (simpl in Hn; lia). simpl. exists []. rewrite app_nil_r. split; [done|unfold len; simpl; lia].
  - destruct (1 <? n) eqn:E; simpl; [|exists []; rewrite app_nil_r; split; [done|unfold len; simpl; lia]].
    fold (ceil n per). replace (MAX_LEVELS <? len (acc ++ [ceil n per])) with false by (len_simpl; lia). simpl.
    pose proof (ceil_bounds n per ltac:(lia)).
    rewrite Nat2Z.inj_succ, Z.pow_succ_r in Hn by lia.
    destruct (IH fuel (acc ++ [ceil n per]) (ceil n per)) as (rest & -> & Hr); [nia|lia|len_simpl; lia|].
    exists (ceil n per :: rest). rewrite <- (assoc_L (++)). split; [done|]. len_simpl. lia.
Qed.

Lemma counts_chain_last n per counts :
  0 < n → 0 < per → counts_chain n per counts → default n (last counts) = 1.
Proof.
  revert n. induction counts as [|c counts IH]; intros n Hn Hp Hc; simpl in Hc; [simpl; lia|].
  destruct Hc as (H1 & -> & Hc). pose proof (ceil_bounds n per Hp).
  assert (0 < ceil n per) by nia. specialize (IH (ceil n per) ltac:(lia) Hp Hc).
  destruct counts as [|c counts]; [done|]. rewrite last_cons_cons.
  destruct (last (c :: counts)) eqn:E; [done|]. by apply last_None in E.
Qed.

(** The level loop terminates within its limits. With at least two digests per block, [_level_counts] succeeds for
    every data block count that the superblock check admits, with at most 32 levels, and the top level is one block
    (a single data block needs no level). *)
Theorem level_counts_bounded data_blocks per_block :
  0 < data_blocks <= MAX_BLOCKS → 2 <= per_block →
  ∃ counts, _level_counts data_blocks per_block = Ok counts ∧ len counts <= 32 ∧
    counts_chain data_blocks per_block counts ∧ default data_blocks (last counts) = 1.
Proof.
  intros Hn Hp. unfold _level_counts.
  destruct (level_counts_loop_total 32 (Z.to_nat MAX_LEVELS + 2) [] data_blocks per_block) as (rest & Heq & Hr);
    [done|unfold MAX_BLOCKS in Hn; lia|unfold MAX_LEVELS; lia|unfold MAX_LEVELS, len; simpl; lia|].
  rewrite app_nil_l in Heq. exists rest. split; [exact Heq|]. split; [exact Hr|].
  apply level_counts_loop_Ok in Heq as (rest' & -> & Hc). rewrite app_nil_l. split; [exact Hc|].
  eapply counts_chain_last; [| |exact Hc]; lia.
Qed.

Lemma level_counts_bounded_witness : ∃ counts, _level_counts 300 2 = Ok counts ∧ len counts <= 32.
Proof.
  destruct (level_counts_bounded 300 2) as (c & H & Hl & _); [vm_compute; split; congruence|lia|].
  exists c. split; [exact H|exact Hl].
Defined.

(** With one digest per block the tree would never shrink, and the level limit rejects it. *)
Theorem level_counts_one_per_block data_blocks :
  1 < data_blocks → _level_counts data_blocks 1 = Err (ValueError "dm-verity tree exceeds the level limit" []).
Proof.
  intros Hn. unfold _level_counts.
  assert (Hloop : ∀ k fuel acc, (k < fuel)%nat → len acc = MAX_LEVELS - Z.of_nat k →
    level_counts_loop fuel acc data_blocks 1 = Err (ValueError "dm-verity tree exceeds the level limit" [])).
  { induction k as [|k IH]; intros [|fuel] acc Hf Ha; try lia; simpl; replace (1 <? data_blocks) with true by lia; simpl;
      rewrite Z.div_1_r, len_app; replace (data_blocks + 1 - 1) with data_blocks by lia.
    - by replace (MAX_LEVELS <? _) with true by (unfold len at 2; simpl; lia).
    - replace (MAX_LEVELS <? _) with false by (unfold len at 2; simpl; lia). simpl. apply IH; [lia|].
      rewrite len_app. unfold len at 2. simpl. lia. }
  apply (Hloop (Z.to_nat MAX_LEVELS)); [lia|]. by vm_compute.
Qed.

Lemma level_counts_one_per_block_witness :
  _level_counts 2 1 = Err (ValueError "dm-verity tree exceeds the level limit" []).
Proof. apply (level_counts_one_per_block 2). lia. Defined.

(** ** The reference tree *)

Section merkle.
Context `{Hashlib} (g : geometry).

Definition per_block : Z := g_hash_block_size g / g_slot_size g.

(** What [_read_superblock] guarantees about the geometry of a fixed-size hash. *)
Record geometry_ok : Prop := {
  go_hash : hash_size (g_algorithm g) = Some (g_digest_size g);
  go_digest : 0 < g_digest_size g;
  go_slot : g_digest_size g <= g_slot_size g;
  go_block : per_block * g_slot_size g = g_hash_block_size g;
  go_per : 1 <= per_block;
  go_data_blocks : 0 < g_data_blocks g;
  go_data_block_size : 0 < g_data_block_size g;
}.

Definition salted (m : bytes) : bytes := hash_digest (g_algorithm g) (g_salt g ++ m).

(** One hash block: every digest in its slot, then zeros. *)
Definition slots_block (l : list bytes) : bytes :=
  let block := l ≫= λ d, d ++ zeros (g_slot_size g - g_digest_size g) in
  block ++ zeros (g_hash_block_size g - len block).

Definition level_block (l : list bytes) (i : Z) : bytes :=
  slots_block (slice (i * per_block) (i * per_block + per_block) l).
Definition level_blocks (l : list bytes) : list bytes := level_block l <$> seqZ 0 (ceil (len l) per_block).
Definition next_level (l : list bytes) : list bytes := salted <$> level_blocks l.

Fixpoint tower (counts : list Z) (l : list bytes) : list bytes :=
  match counts with [] => l | _ :: counts => tower counts (next_level l) end.

(** The emitted tree: dm-verity stores the top level first. *)
Fixpoint tree_bytes (counts : list Z) (l : list bytes) : bytes :=
  match counts with [] => [] | _ :: counts => tree_bytes counts (next_level l) ++ concat (level_blocks l) end.

(** The leaf digests of a root artifact. *)
Definition leaves (f : file) : list bytes :=
  (λ i, salted (fread f (i * g_data_block_size g) (g_data_block_size g))) <$> seqZ 0 (g_data_blocks g).

Context (Hok : geometry_ok).

Lemma salted_len m : len (salted m) = g_digest_size g.
Proof. destruct Hok. by apply len_hash_digest. Qed.

Lemma _salted_digest_Ok m : _salted_digest g m = Ok (salted m).
Proof. destruct Hok. unfold _salted_digest. by replace (_ =? 0) with false by lia. Qed.

Lemma uniform_next l : uniform (g_digest_size g) (next_level l).
Proof. unfold next_level. apply Forall_fmap, Forall_true. intros. apply salted_len. Qed.

Lemma uniform_leaves f : uniform (g_digest_size g) (leaves f).
Proof. unfold leaves. apply Forall_fmap, Forall_true. intros. apply salted_len. Qed.

Lemma len_next_level l : len (next_level l) = ceil (len l) per_block.
Proof.
  destruct Hok. unfold next_level, level_blocks. rewrite !len_fmap. unfold len at 1. rewrite length_seqZ.
  pose proof (ceil_bounds (len l) per_block ltac:(lia)). pose proof (len_nonneg l). nia.
Qed.

Lemma len_leaves f : len (leaves f) = g_data_blocks g.
Proof. destruct Hok. unfold leaves. rewrite len_fmap. unfold len. rewrite length_seqZ. lia. Qed.

Lemma len_slots l :
  uniform (g_digest_size g) l → len (l ≫= λ d, d ++ zeros (g_slot_size g - g_digest_size g)) = len l * g_slot_size g.
Proof.
  destruct Hok. induction 1 as [|d l Hd Hl IH]; [done|].
  rewrite bind_cons, !len_app, len_zeros, len_cons, IH by lia. lia.
Qed.

Lemma uniform_slice n a b (l : list bytes) : uniform n l → 0 <= a → uniform n (slice a b l).
Proof. intros Hl Ha. rewrite slice_take_drop by done. by apply Forall_take, Forall_drop. Qed.

Lemma len_level_block l i :
  uniform (g_digest_size g) l → 0 <= i → len (level_block l i) = g_hash_block_size g.
Proof.
  intros Hl Hi. unfold level_block, slots_block.
  assert (Hb : len (slice (i * per_block) (i * per_block + per_block) l ≫=
    λ d, d ++ zeros (g_slot_size g - g_digest_size g)) <= g_hash_block_size g).
  { destruct Hok. rewrite len_slots by (apply uniform_slice; [done|nia]).
    pose proof (len_slice_le (i * per_block) (i * per_block + per_block) l). nia. }
  rewrite len_app, len_zeros; lia.
Qed.

Lemma uniform_level_blocks l :
  uniform (g_digest_size g) l → uniform (g_hash_block_size g) (level_blocks l).
Proof.
  intros Hl. unfold level_blocks. apply Forall_fmap, Forall_forall. intros i Hi%elem_of_seqZ.
  apply len_level_block; [done|lia].
Qed.

(** ** The code against the reference *)

Definition padded (l : list bytes) : bytes := l ≫= λ d, d ++ zeros (g_slot_size g - g_digest_size g).

Lemma expected_block_Ok l consumed digests :
  uniform (g_digest_size g) l → 0 <= consumed → 0 <= digests → consumed + digests <= len l →
  _expected_block (concat l) consumed digests g = Ok (slots_block (slice consumed (consumed + digests) l)).
Proof.
  intros Hl Hc Hd Hle. unfold _expected_block.
  match goal with |- context [foldM ?f ?s ?k] =>
    assert (foldM f s k = Ok (padded (slice consumed (consumed + digests) l))) as -> end; [|done].
  apply (foldM_guarded _ (λ i, padded (slice consumed (consumed + i) l)) (λ _, True)); [done|by rewrite slice_empty by lia| |done|done].
  intros i Hi _. destruct Hok.
  destruct (lookup_lt_is_Some_2 l (Z.to_nat (consumed + i))) as [d Hl']; [unfold len in *; lia|].
  assert (Hdl : len d = g_digest_size g) by (rewrite Forall_lookup in Hl; by apply (Hl _ _ Hl')).
  cbn zeta. rewrite (concat_slice _ _ _ d) by (done || lia). rewrite Hdl, Z.eqb_refl. cbn [negb raise_if mbind result_bind].
  rewrite (assoc_L Z.add), (slice_snoc _ _ _ d) by (done || lia). unfold padded. rewrite bind_app. simpl.
  by rewrite app_nil_r.
Qed.

(** Reading a run of equally long blocks. *)
Lemma fread_blocks f off b (blk : Z → bytes) n :
  0 < b → 0 <= n → (∀ i, 0 <= i < n → len (blk i) = b) →
  (∀ i, 0 <= i < n → fread f (off + i * b) b = blk i) ↔ fread f off (n * b) = concat (blk <$> seqZ 0 n).
Proof.
  intros Hb Hn Hlen. split.
  - intros Hr. revert Hlen Hr. pattern n. apply natlike_ind; [| |exact Hn]; clear n Hn.
    + intros _ _. by rewrite Z.mul_0_l, fread_nil.
    + intros n Hn IH Hlen Hr. assert (Hn1 := Hr n ltac:(lia)).
      assert (off + n * b + b <= f_size f).
      { apply fread_full; [done|]. rewrite Hn1. apply Hlen. lia. }
      replace (Z.succ n * b) with (n * b + b) by lia. rewrite fread_app by nia. rewrite IH.
      * rewrite <- Z.add_1_r, seqZ_app by lia. rewrite fmap_app, concat_app. simpl. by rewrite app_nil_r, Hn1.
      * intros. apply Hlen. lia.
      * intros. apply Hr. lia.
  - intros Hr i Hi. assert (Hu : uniform b (blk <$> seqZ 0 n)).
    { apply Forall_fmap, Forall_forall. intros j Hj%elem_of_seqZ. apply Hlen. lia. }
    assert (off + n * b <= f_size f).
    { apply fread_full; [nia|]. rewrite Hr, (len_concat b) by done. rewrite len_fmap. unfold len. rewrite length_seqZ. lia. }
    rewrite <- (concat_slice b (blk <$> seqZ 0 n) i (blk i)) by
      (done || lia || (rewrite list_lookup_fmap, lookup_seqZ_lt by lia; simpl; do 2 f_equal; lia)).
    rewrite <- Hr, slice_fread by nia. f_equal. lia.
Qed.
Lemma fread_app_iff f off n m (x y : bytes) :
  len x = n → len y = m → 0 < m →
  fread f off n = x ∧ fread f (off + n) m = y ↔ fread f off (n + m) = x ++ y.
Proof.
  intros Hx Hy Hm. pose proof (len_nonneg x). split.
  - intros [Hn Hm']. rewrite fread_app; [by rewrite Hn, Hm'|lia|lia|]. apply fread_full; [done|]. by rewrite Hm'.
  - intros Heq. assert (off + (n + m) <= f_size f).
    { apply fread_full; [lia|]. rewrite Heq, len_app. lia. }
    rewrite fread_app in Heq by lia. apply app_inj_1 in Heq; [done|].
    pose proof (len_fread f off n ltac:(lia) ltac:(lia)). unfold len in *. lia.
Qed.

Lemma seqZ_snoc i : 0 <= i → seqZ 0 (i + 1) = seqZ 0 i ++ [i].
Proof. intros. rewrite seqZ_app by lia. done. Qed.

Lemma concat_snoc_seqZ (h : Z → bytes) i :
  0 <= i → concat (h <$> seqZ 0 (i + 1)) = concat (h <$> seqZ 0 i) ++ h i.
Proof. intros. rewrite seqZ_snoc, fmap_app, concat_app by done. simpl. by rewrite app_nil_r. Qed.

Lemma _leaf_digests_iff f data :
  _leaf_digests f g = Ok data ↔ g_data_blocks g * g_data_block_size g <= f_size f ∧ data = concat (leaves f).
Proof.
  destruct Hok. unfold _leaf_digests, leaves.
  etrans; [apply (foldM_guarded _
    (λ i, concat ((λ i, salted (fread f (i * g_data_block_size g) (g_data_block_size g))) <$> seqZ 0 i))
    (λ i, len (fread f (i * g_data_block_size g) (g_data_block_size g)) = g_data_block_size g)); [lia|done|..]|].
  3: split; intros [Hr ->]; (split; [|done]);
      [specialize (Hr (g_data_blocks g - 1) ltac:(lia)); apply fread_full in Hr; lia|intros i Hi; apply len_fread; nia].
  - intros i Hi Hr. rewrite Hr, Z.eqb_refl, _salted_digest_Ok. cbn [negb raise_if mbind result_bind].
    by rewrite concat_snoc_seqZ by lia.
  - intros i s Hi Hs. res_inv. lia.
Qed.

Lemma level_step (l : list bytes) i :
  0 <= i < ceil (len l) per_block →
  Z.min (i * per_block) (len l) = i * per_block ∧
  0 <= Z.min per_block (len l - i * per_block) ∧
  i * per_block + Z.min per_block (len l - i * per_block) = Z.min ((i + 1) * per_block) (len l).
Proof. destruct Hok. intros Hi. pose proof (ceil_bounds (len l) per_block ltac:(lia)). nia. Qed.

Lemma slice_clip {A} a b (l : list A) : slice a (Z.min b (len l)) l = slice a b l.
Proof. unfold slice. do 2 f_equal; lia. Qed.

Lemma _verify_level_iff level l em off out :
  uniform (g_digest_size g) l →
  _verify_level level (ceil (len l) per_block) {| sp_data := concat l; sp_count := len l |} em off g = Ok out ↔
  fread em off (ceil (len l) per_block * g_hash_block_size g) = concat (level_blocks l) ∧ out = concat (next_level l).
Proof.
  intros Hl. unfold _verify_level. cbn [sp_data sp_count]. fold per_block.
  assert (Hn : 0 <= ceil (len l) per_block).
  { destruct Hok. pose proof (ceil_bounds (len l) per_block ltac:(lia)). pose proof (len_nonneg l). nia. }
  assert (Hb : 0 < g_hash_block_size g) by (destruct Hok; nia).
  set (st i := (Z.min (i * per_block) (len l), concat ((λ i, salted (level_block l i)) <$> seqZ 0 i))).
  match goal with |- context [foldM ?f ?s ?k] => set (body := f) end.
  rewrite <- (fread_blocks em off (g_hash_block_size g) (level_block l)) by (done || (intros; apply len_level_block; [done|lia])).
  assert (Hbody : ∀ i, 0 <= i < ceil (len l) per_block → body (st i) i =
    (raise_if (bool_decide (fread em (off + i * g_hash_block_size g) (g_hash_block_size g) ≠ level_block l i))
      (ValueError "dm-verity hash mismatch at level {} block {}" [AInt level; AInt i]);; mret (st (i + 1)))).
  { intros i Hi. destruct (level_step l i Hi) as (H1 & H2 & H3). unfold body, st. rewrite H1.
    assert (0 <= i * per_block) by (pose proof (go_per Hok); nia).
    rewrite expected_block_Ok by (done || lia). cbn [mbind result_bind].
    rewrite H3, slice_clip. replace ((i + 1) * per_block) with (i * per_block + per_block) by lia.
    fold (level_block l i). destruct (bool_decide _); [done|]. cbn [raise_if mbind result_bind].
    rewrite _salted_digest_Ok. cbn [mbind result_bind]. by rewrite concat_snoc_seqZ by lia. }
  assert (Hiff : ∀ r, foldM body (0, []) (seqZ 0 (ceil (len l) per_block)) = Ok r ↔
    (∀ i, 0 <= i < ceil (len l) per_block →
      fread em (off + i * g_hash_block_size g) (g_hash_block_size g) = level_block l i) ∧
    r = st (ceil (len l) per_block)).
  { intros r. apply foldM_guarded; [apply _|done| |..].
    - unfold st. pose proof (len_nonneg l). simpl. by rewrite Z.min_l by lia.
    - intros i Hi Hr. rewrite Hbody by done. rewrite bool_decide_false; [done|]. by intros [].
    - intros i s Hi Hs. rewrite Hbody in Hs by done. res_inv. apply dec_stable. by eapply bool_decide_eq_false_1. }
  unfold next_level, level_blocks. rewrite <- list_fmap_compose. split.
  - intros ([c o] & [Hr Heq]%Hiff & [= <-])%bind_Ok_inv. split; [done|]. by inversion Heq.
  - intros [Hr ->]. by rewrite (proj2 (Hiff _) (conj Hr eq_refl)).
Qed.
Lemma level_offsets_loop_snoc off b p l c :
  level_offsets_loop off b p (l ++ [c]) =
  ((level_offsets_loop off b p l).1 ++ [off + (level_offsets_loop off b p l).2 * b],
   (level_offsets_loop off b p l).2 + c).
Proof.
  revert p. induction l as [|x l IH]; intros p; simpl; [done|]. rewrite IH. by destruct (level_offsets_loop _ _ _ l).
Qed.

Lemma _level_offsets_cons c counts off b :
  _level_offsets (c :: counts) off b =
  (off + (_level_offsets counts off b).2 :: (_level_offsets counts off b).1, (_level_offsets counts off b).2 + c * b).
Proof.
  unfold _level_offsets. rewrite reverse_cons, level_offsets_loop_snoc.
  destruct (level_offsets_loop _ _ _ _) as [os t]. simpl. rewrite reverse_snoc. f_equal. lia.
Qed.

(** Every level is where [_level_offsets] puts it. *)
Fixpoint levels_match (em : file) (l : list bytes) (counts offs : list Z) : Prop :=
  match counts, offs with
  | c :: counts, o :: offs =>
      fread em o (c * g_hash_block_size g) = concat (level_blocks l) ∧ levels_match em (next_level l) counts offs
  | _, _ => True
  end.

Lemma verify_levels_iff em off counts : ∀ j l sp,
  uniform (g_digest_size g) l → counts_chain (len l) per_block counts →
  verify_levels em g {| sp_data := concat l; sp_count := len l |}
    (zip (seqZ j (len counts)) (zip counts (_level_offsets counts off (g_hash_block_size g)).1)) = Ok sp ↔
  levels_match em l counts (_level_offsets counts off (g_hash_block_size g)).1 ∧
  sp = {| sp_data := concat (tower counts l); sp_count := len (tower counts l) |}.
Proof.
  induction counts as [|c counts IH]; intros j l sp Hl Hc.
  - simpl. split; [by intros [= <-]|by intros [_ ->]].
  - destruct Hc as (H1 & -> & Hc). rewrite _level_offsets_cons, len_cons, seqZ_cons by (pose proof (len_nonneg counts); lia).
    replace (Z.pred (1 + len counts)) with (len counts) by lia. cbn [fst zip zip_with]. unfold verify_levels. cbn [foldM].
    cbn [levels_match tower]. rewrite <- len_next_level in *.
    specialize (IH (Z.succ j) (next_level l) sp (uniform_next l) Hc). unfold verify_levels in IH. split.
    + intros (sp' & (data & Hv & [= <-])%bind_Ok_inv & Hsp)%bind_Ok_inv.
      rewrite len_next_level in Hv. apply _verify_level_iff in Hv as [Hr ->]; [|done]. apply IH in Hsp as [Hm ->].
      by rewrite <- len_next_level in Hr.
    + intros [[Hr Hm] ->]. rewrite len_next_level in Hr |- *.
      rewrite (proj2 (_verify_level_iff _ _ _ _ _ Hl) (conj Hr eq_refl)). cbn [mbind result_bind mret result_ret].
      rewrite <- len_next_level. by apply IH.
Qed.

Lemma len_level_blocks_concat l :
  uniform (g_digest_size g) l → len (concat (level_blocks l)) = len (next_level l) * g_hash_block_size g.
Proof.
  intros Hl. rewrite (len_concat _ _ (uniform_level_blocks _ Hl)). unfold next_level. by rewrite len_fmap.
Qed.

Lemma len_tree_bytes off counts l :
  uniform (g_digest_size g) l → counts_chain (len l) per_block counts →
  len (tree_bytes counts l) = (_level_offsets counts off (g_hash_block_size g)).2.
Proof.
  revert l. induction counts as [|c counts IH]; intros l Hl Hc; [done|]. destruct Hc as (_ & -> & Hc).
  rewrite _level_offsets_cons. cbn [tree_bytes snd]. rewrite <- len_next_level in Hc |- *.
  rewrite len_app, IH, len_level_blocks_concat; [done|done|apply uniform_next|done].
Qed.

Lemma levels_match_tree em off counts l :
  uniform (g_digest_size g) l → counts_chain (len l) per_block counts →
  levels_match em l counts (_level_offsets counts off (g_hash_block_size g)).1 ↔
  fread em off (_level_offsets counts off (g_hash_block_size g)).2 = tree_bytes counts l.
Proof.
  revert l. induction counts as [|c counts IH]; intros l Hl Hc.
  - simpl. by rewrite fread_nil.
  - destruct Hc as (H1 & -> & Hc). rewrite _level_offsets_cons. cbn [fst snd levels_match tree_bytes].
    rewrite <- len_next_level in Hc |- *. rewrite (IH _ (uniform_next l) Hc).
    rewrite <- fread_app_iff; [tauto|..].
    + apply len_tree_bytes; [apply uniform_next|done].
    + by apply len_level_blocks_concat.
    + rewrite len_next_level. destruct Hok. pose proof (ceil_bounds (len l) per_block ltac:(lia)). nia.
Qed.

Lemma len_tower counts l :
  0 < len l → counts_chain (len l) per_block counts → len (tower counts l) = 1.
Proof.
  revert l. induction counts as [|c counts IH]; intros l Hl Hc; [simpl in *; lia|].
  destruct Hc as (_ & -> & Hc). simpl. rewrite <- len_next_level in Hc. apply IH; [|done].
  rewrite len_next_level. destruct Hok. pose proof (ceil_bounds (len l) per_block ltac:(lia)). nia.
Qed.

Lemma uniform_tower counts l : uniform (g_digest_size g) l → uniform (g_digest_size g) (tower counts l).
Proof. revert l. induction counts as [|c counts IH]; intros l Hl; simpl; [done|]. apply IH, uniform_next. Qed.

Lemma _read_root_digest_one x : len x = g_digest_size g → _read_root_digest x (g_digest_size g) = Ok x.
Proof.
  intros Hx. unfold _read_root_digest. rewrite <- Hx, slice_all, Z.eqb_refl by done.
  rewrite bool_decide_false; [done|]. intros Hn. apply Hn. unfold slice. rewrite Z.min_r by (pose proof (len_nonneg x); lia).
  rewrite Z.min_r by lia. by rewrite Z.sub_diag.
Qed.

(** ** A root digest determines the data *)

(** Two different messages with the same salted digest. *)
Definition collision : Prop := ∃ m m', m ≠ m' ∧ salted m = salted m'.

Lemma salted_map_inj (l k : list bytes) : salted <$> l = salted <$> k → l = k ∨ collision.
Proof.
  revert k. induction l as [|x l IH]; intros [|y k] Heq; simplify_eq/=; [by left|].
  destruct (decide (x = y)) as [->|Hne]; [|right; by exists x, y].
  destruct (IH k) as [->|Hc]; [done|by left|by right].
Qed.

Lemma padded_inj l k :
  uniform (g_digest_size g) l → uniform (g_digest_size g) k → padded l = padded k → l = k.
Proof.
  intros Hl Hk Heq.
  assert (Hu : ∀ l, uniform (g_digest_size g) l →
    uniform (g_slot_size g) ((λ d, d ++ zeros (g_slot_size g - g_digest_size g)) <$> l)).
  { intros l' Hl'. apply Forall_fmap. eapply Forall_impl; [exact Hl'|]. intros d Hd. simpl in *.
    destruct Hok. rewrite len_app, len_zeros; lia. }
  unfold padded in Heq. rewrite !bind_concat in Heq.
  apply (concat_inj (g_slot_size g)) in Heq; [|destruct Hok; lia|by apply Hu..].
  eapply list_fmap_eq_inj; [|exact Heq]. intros a b Hab. by apply app_inv_tail in Hab.
Qed.

Lemma slots_block_inj l k :
  len l = len k → uniform (g_digest_size g) l → uniform (g_digest_size g) k → slots_block l = slots_block k → l = k.
Proof.
  intros Hlen Hl Hk Heq. apply padded_inj; [done..|]. unfold slots_block in Heq.
  apply app_inj_1 in Heq as [Heq _]; [done|].
  pose proof (len_slots _ Hl). pose proof (len_slots _ Hk). unfold len in *. nia.
Qed.

Lemma level_blocks_inj l k :
  len l = len k → uniform (g_digest_size g) l → uniform (g_digest_size g) k → level_blocks l = level_blocks k → l = k.
Proof.
  intros Hlen Hl Hk Heq. destruct Hok. apply list_eq_same_length with (n := length l); [unfold len in Hlen; lia..|].
  intros j x y Hj Hx Hy. set (i := Z.of_nat j / per_block).
  pose proof (Z.div_mod (Z.of_nat j) per_block ltac:(lia)). pose proof (Z.mod_pos_bound (Z.of_nat j) per_block ltac:(lia)).
  pose proof (ceil_bounds (len l) per_block ltac:(lia)). assert (0 <= i) by (apply Z.div_pos; lia).
  assert (Hi : i < ceil (len l) per_block) by (fold i in H0; unfold len in *; nia).
  assert (Hb : level_block l i = level_block k i).
  { apply (f_equal (lookup (Z.to_nat i))) in Heq. unfold level_blocks in Heq.
    rewrite <- Hlen, !list_lookup_fmap, lookup_seqZ_lt in Heq by lia. simpl in Heq.
    replace (0 + Z.of_nat (Z.to_nat i)) with i in Heq by lia. congruence. }
  unfold level_block in Hb. apply slots_block_inj in Hb; [|..|by apply uniform_slice; [|nia]|by apply uniform_slice; [|nia]].
  - apply (f_equal (lookup (Z.to_nat (Z.of_nat j - i * per_block)))) in Hb.
    rewrite !slice_lookup in Hb by nia.
    replace (Z.to_nat (i * per_block) + Z.to_nat (Z.of_nat j - i * per_block))%nat with j in Hb by nia. congruence.
  - unfold slice, len in *. rewrite !length_take, !length_drop. lia.
Qed.

Lemma tower_inj counts l k :
  len l = len k → uniform (g_digest_size g) l → uniform (g_digest_size g) k →
  tower counts l = tower counts k → l = k ∨ collision.
Proof.
  revert l k. induction counts as [|c counts IH]; intros l k Hlen Hl Hk Heq; simpl in Heq; [by left|].
  apply IH in Heq as [Heq|Hc]; [|by right|by rewrite !len_next_level, Hlen|apply uniform_next..].
  apply salted_map_inj in Heq as [Heq|Hc]; [|by right]. left. by apply level_blocks_inj.
Qed.

Lemma leaves_inj f f' :
  g_data_blocks g * g_data_block_size g <= f_size f → g_data_blocks g * g_data_block_size g <= f_size f' →
  leaves f = leaves f' →
  fread f 0 (g_data_blocks g * g_data_block_size g) = fread f' 0 (g_data_blocks g * g_data_block_size g) ∨ collision.
Proof.
  intros Hf Hf' Heq. destruct Hok. unfold leaves in Heq.
  rewrite (list_fmap_compose (λ i, fread f (i * g_data_block_size g) (g_data_block_size g)) salted) in Heq.
  rewrite (list_fmap_compose (λ i, fread f' (i * g_data_block_size g) (g_data_block_size g)) salted) in Heq.
  apply salted_map_inj in Heq as [Heq|Hc]; [|by right]. left.
  assert (Hread : ∀ f, g_data_blocks g * g_data_block_size g <= f_size f →
    fread f 0 (g_data_blocks g * g_data_block_size g) =
    concat ((λ i, fread f (i * g_data_block_size g) (g_data_block_size g)) <$> seqZ 0 (g_data_blocks g))).
  { intros h Hh. apply fread_blocks; [lia|lia| |done]. intros. apply len_fread; nia. }
  rewrite !Hread by done. by f_equal.
Qed.

Lemma verify_tree_iff rt hs off counts root size :
  _verify_tree rt hs g off = Ok (counts, root, size) ↔
  _level_counts (g_data_blocks g) per_block = Ok counts ∧ _check_spool_budget g counts = Ok tt ∧
  g_data_blocks g * g_data_block_size g <= f_size rt ∧ size = len (tree_bytes counts (leaves rt)) ∧
  fread hs off size = tree_bytes counts (leaves rt) ∧ tower counts (leaves rt) = [root].
Proof.
  unfold _verify_tree. fold per_block.
  destruct (_level_counts (g_data_blocks g) per_block) as [counts'|e] eqn:Hc; cbn [mbind result_bind]; [|split; [done|by intros [? _]]].
  pose proof Hc as Hchain. unfold _level_counts in Hchain. apply level_counts_loop_Ok in Hchain as (rest & Hrest & Hchain).
  rewrite app_nil_l in Hrest. subst rest. rewrite <- (len_leaves rt) in Hchain.
  destruct (_check_spool_budget g counts') as [[]|e] eqn:Hs; cbn [mbind result_bind]; [|split; [done|intros (Heq & ? & _); apply Ok_inj in Heq; congruence]].
  destruct (_level_offsets counts' off (g_hash_block_size g)) as [offs sz] eqn:Ho.
  assert (Hoffs : offs = (_level_offsets counts' off (g_hash_block_size g)).1) by (by rewrite Ho).
  assert (Hsz : sz = (_level_offsets counts' off (g_hash_block_size g)).2) by (by rewrite Ho).
  rewrite <- (len_tree_bytes off _ (leaves rt)) in Hsz by (done || apply uniform_leaves).
  assert (Hlv := verify_levels_iff hs off counts' 0 (leaves rt)). rewrite <- Hoffs, len_leaves in Hlv.
  assert (Hmt := levels_match_tree hs off counts' (leaves rt) (uniform_leaves rt) Hchain). rewrite Ho in Hmt. cbn [fst snd] in Hmt.
  assert (Hone : ∃ r, tower counts' (leaves rt) = [r] ∧ len r = g_digest_size g).
  { pose proof (len_tower counts' (leaves rt)) as Hl. rewrite len_leaves in Hl, Hchain.
    specialize (Hl (go_data_blocks Hok) Hchain). pose proof (uniform_tower counts' _ (uniform_leaves rt)) as Hu.
    destruct (tower counts' (leaves rt)) as [|r [|? ?]]; [done| |unfold len in Hl; simpl in Hl; lia].
    exists r. split; [done|]. by inv Hu. }
  destruct Hone as (r & Hr & Hrl). rewrite len_leaves in Hchain. split.
  - intros (leaf & Hleaf & (sp & Hsp & (root' & Hroot & Heq)%bind_Ok_inv)%bind_Ok_inv)%bind_Ok_inv.
    apply Ok_inj in Heq. simplify_eq Heq. intros -> -> ->. apply _leaf_digests_iff in Hleaf as [Hsize ->].
    apply Hlv in Hsp as [Hm ->]; [|apply uniform_leaves|done]. apply Hmt in Hm. cbn [sp_data] in Hroot.
    rewrite Hr in Hroot. simpl in Hroot. rewrite app_nil_r, _read_root_digest_one in Hroot by done.
    apply Ok_inj in Hroot as ->. rewrite <- Hsz. done.
  - intros (Heq & _ & Hsize & -> & Hrd & Hroot). apply Ok_inj in Heq as ->. rewrite <- Hsz in *.
    rewrite (proj2 (_leaf_digests_iff rt _) (conj Hsize eq_refl)). cbn [mbind result_bind].
    rewrite (proj2 (Hlv _ (uniform_leaves rt) Hchain) (conj (proj2 Hmt Hrd) eq_refl)). cbn [mbind result_bind sp_data].
    rewrite Hr in *. simplify_eq. simpl. rewrite app_nil_r, _read_root_digest_one by done. done.
Qed.
End merkle.

(** ** What [project] accepts *)

Lemma bit_length_bound d : 0 < d → d <= 2 ^ bit_length (d - 1).
Proof.
  intros Hd. unfold bit_length. destruct (d - 1 =? 0) eqn:E; [simpl; lia|].
  rewrite Z.abs_eq by lia. pose proof (Z.log2_spec (d - 1) ltac:(lia)). lia.
Qed.

Lemma bit_length_nonneg d : 0 <= bit_length d.
Proof. unfold bit_length. destruct (d =? 0); [lia|]. pose proof (Z.log2_nonneg (Z.abs d)). lia. Qed.

Lemma _slot_size_Ok data_bs hash_bs d s :
  0 < d → _slot_size data_bs hash_bs d = Ok s →
  512 <= data_bs ∧ d <= s ∧ 0 < s ∧ hash_bs / s * s = hash_bs ∧ 1 <= hash_bs / s.
Proof.
  intros Hd Hs. unfold _slot_size in Hs. res_inv. pose proof (bit_length_bound d Hd). pose proof (bit_length_nonneg (d - 1)).
  rewrite Z.shiftl_1_l in *. bool_inv. set (s := 2 ^ bit_length (d - 1)) in *.
  assert (hash_bs mod s = 0) by lia. pose proof (Z.div_mod hash_bs s ltac:(lia)).
  repeat split; nia.
Qed.

Lemma _read_superblock_ok `{Hashlib} path g :
  _read_superblock path = Ok g → 0 < g_digest_size g →
  geometry_ok g ∧ SUPERBLOCK_SIZE <= f_size path ∧ g_superblock g = fread path 0 SUPERBLOCK_SIZE.
Proof.
  intros Hr Hd. unfold _read_superblock in Hr. res_inv. cbn [g_digest_size] in Hd. unfold _digest_size in *. res_inv.
  match goal with Hs : _slot_size _ _ _ = Ok _ |- _ => apply _slot_size_Ok in Hs as (? & ? & ? & ? & ?); [|done] end.
  match goal with Hb : u64 _ _ = Ok _ |- _ => apply unpack_le_range in Hb; [|lia..] end.
  bool_inv. split; [|split; [|done]].
  - constructor; unfold per_block; cbn; try done; lia.
  - change SUPERBLOCK_SIZE with (0 + SUPERBLOCK_SIZE). by apply fread_full.
Qed.

Lemma _all_zero_zeros l : _all_zero l = true → l = zeros (len l).
Proof.
  unfold _all_zero. induction l as [|b l IH]; intros Hz; simpl in Hz; [done|]. bool_inv. subst.
  unfold zeros. rewrite len_cons. replace (Z.to_nat (1 + len l)) with (S (Z.to_nat (len l))) by (pose proof (len_nonneg l); lia).
  simpl. f_equal. by apply IH.
Qed.

Section project.
Context `{Hashlib, Ucd}.

Lemma verity_project_inv rhf parts rt hs m :
  project rhf parts rt hs = Ok m → 0 < vm_digest_size m →
  ∃ g counts root, _read_superblock hs = Ok g ∧ _level_counts (g_data_blocks g) (per_block g) = Ok counts ∧
    geometry_ok g ∧ SUPERBLOCK_SIZE <= f_size hs ∧
    g_superblock g = fread hs 0 SUPERBLOCK_SIZE ∧
    _all_zero (fread rt (g_data_blocks g * g_data_block_size g) (f_size rt - g_data_blocks g * g_data_block_size g)) = true ∧
    _check_superblock_padding hs (g_hash_block_size g) = Ok tt ∧
    g_data_blocks g * g_data_block_size g <= f_size rt ∧
    fread hs (g_hash_block_size g) (len (tree_bytes g counts (leaves g rt))) = tree_bytes g counts (leaves g rt) ∧
    _all_zero (fread hs (g_hash_block_size g + len (tree_bytes g counts (leaves g rt)))
      (f_size hs - (g_hash_block_size g + len (tree_bytes g counts (leaves g rt))))) = true ∧
    tower g counts (leaves g rt) = [root] ∧ vm_root_hash m = hex root ∧
    vm_tree_offset m = g_hash_block_size g ∧ vm_tree_size m = len (tree_bytes g counts (leaves g rt)).
Proof.
  intros Hp Hd. unfold project in Hp.
  apply bind_Ok_inv in Hp as (content & _ & Hp). apply bind_Ok_inv in Hp as ([rp hp] & _ & Hp).
  apply bind_Ok_inv in Hp as ([rs hsz] & Hsz & Hp). apply bind_Ok_inv in Hp as (g & Hg & Hp).
  apply bind_Ok_inv in Hp as (? & _ & Hp). apply bind_Ok_inv in Hp as (? & Hz1 & Hp).
  apply bind_Ok_inv in Hp as ([] & Hpad & Hp). apply bind_Ok_inv in Hp as ([[counts root] size] & Ht & Hp).
  apply bind_Ok_inv in Hp as (? & Hz2 & Hp). apply bind_Ok_inv in Hp as (? & Hh & Hp).
  apply Ok_inj in Hp. subst m. cbn [vm_digest_size vm_root_hash vm_tree_offset vm_tree_size] in *.
  destruct (_read_superblock_ok _ _ Hg Hd) as (Hok & Hsb & Hsbv).
  apply (verify_tree_iff g Hok) in Ht as (Hcs & _ & Hle & -> & Hrd & Hroot).
  exists g, counts, root. unfold _check_zero_trailer in *. res_inv. bool_inv.
  split_and!; try done. by eapply dec_stable.
Qed.
Lemma padding_contents hs g :
  _check_superblock_padding hs (g_hash_block_size g) = Ok tt → 0 < g_hash_block_size g → SUPERBLOCK_SIZE <= f_size hs →
  g_hash_block_size g <= f_size hs ∧
  fread hs 0 (g_hash_block_size g) =
    slice 0 (g_hash_block_size g) (fread hs 0 SUPERBLOCK_SIZE) ++ zeros (g_hash_block_size g - SUPERBLOCK_SIZE).
Proof.
  unfold SUPERBLOCK_SIZE. intros Hc Hb Hs. unfold _check_superblock_padding, SUPERBLOCK_SIZE in Hc. res_inv. bool_inv.
  assert (Hle : 0 + g_hash_block_size g <= f_size hs) by (by apply fread_full). split; [lia|].
  destruct (decide (g_hash_block_size g <= 512)) as [Hsm|Hbig].
  - rewrite slice_fread by lia. replace (zeros _) with (@nil byte); [by rewrite app_nil_r, Z.add_0_r, Z.sub_0_r|].
    unfold zeros. by replace (Z.to_nat _) with 0%nat by lia.
  - rewrite slice_all by (rewrite len_fread; lia).
    rewrite <- (slice_slice_from 512 (fread hs 0 (g_hash_block_size g))) by done. f_equal.
    + rewrite slice_fread by (done || lia). f_equal.
    + rewrite (_all_zero_zeros (slice_from _ _)) by done. f_equal. rewrite len_slice_from; [lia|done|lia].
Qed.

Lemma verity_project_superblock rhf parts rt hs m :
  project rhf parts rt hs = Ok m → ∃ g, _read_superblock hs = Ok g ∧ vm_digest_size m = g_digest_size g.
Proof.
  intros Hp. unfold project in Hp.
  apply bind_Ok_inv in Hp as (content & _ & Hp). apply bind_Ok_inv in Hp as ([rp hp] & _ & Hp).
  apply bind_Ok_inv in Hp as ([rs hsz] & _ & Hp). apply bind_Ok_inv in Hp as (g & Hg & Hp).
  exists g. split; [done|]. do 3 (apply bind_Ok_inv in Hp as (? & _ & Hp)).
  apply bind_Ok_inv in Hp as ([[counts root] size] & _ & Hp). do 2 (apply bind_Ok_inv in Hp as (? & _ & Hp)).
  apply Ok_inj in Hp. by subst m.
Qed.

Lemma root_contents rt g :
  geometry_ok g → g_data_blocks g * g_data_block_size g <= f_size rt →
  _all_zero (fread rt (g_data_blocks g * g_data_block_size g) (f_size rt - g_data_blocks g * g_data_block_size g)) = true →
  contents rt = fread rt 0 (g_data_blocks g * g_data_block_size g) ++
    zeros (f_size rt - g_data_blocks g * g_data_block_size g).
Proof.
  intros Hok Hle Hz. apply _all_zero_zeros in Hz. assert (0 <= g_data_blocks g * g_data_block_size g) by (destruct Hok; nia).
  rewrite len_fread in Hz by lia. unfold contents. rewrite <- Hz, <- fread_app by lia. f_equal. lia.
Qed.

(** An accepted hash artifact is the canonical one for the root artifact, byte for byte: the superblock, zeros up to
    the tree, the reference Merkle tree of the root artifact's data blocks with the top level first, and zeros up to
    the end; the bytes of the root artifact after its data blocks are zero, and the reported root hash is the hex form
    of the top of that tree. *)
Theorem verity_artifacts_determined rhf parts rt hs m :
  project rhf parts rt hs = Ok m → 0 < vm_digest_size m →
  ∃ g counts root trailer tail, _read_superblock hs = Ok g ∧
    contents rt = fread rt 0 (g_data_blocks g * g_data_block_size g) ++ zeros trailer ∧
    contents hs = slice 0 (g_hash_block_size g) (g_superblock g) ++ zeros (g_hash_block_size g - SUPERBLOCK_SIZE) ++
      tree_bytes g counts (leaves g rt) ++ zeros tail ∧
    tower g counts (leaves g rt) = [root] ∧ vm_root_hash m = hex root.
Proof.
  intros Hp Hd. apply verity_project_inv in Hp as
    (g & counts & root & Hg & _ & Hok & Hsb & Hsbv & Hz1 & Hpad & Hle & Hrd & Hz2 & Hroot & Hhash & _ & _); [|done].
  assert (Hb : 0 < g_hash_block_size g) by (destruct Hok; nia).
  apply padding_contents in Hpad as [Hhb Hhead]; [|done..].
  apply root_contents in Hz1; [|done..]. apply _all_zero_zeros in Hz2. set (T := tree_bytes g counts (leaves g rt)) in *. pose proof (len_nonneg T).
  assert (Htl : g_hash_block_size g + len T <= f_size hs).
  { destruct (decide (len T = 0)); [lia|]. apply fread_full; [lia|]. by rewrite Hrd. }
  eexists g, counts, root, _, _. split_and!; [done|exact Hz1| |done|done].
  rewrite <- Hz2, (assoc_L (++)), Hsbv, <- Hhead. unfold contents.
  replace (f_size hs) with (g_hash_block_size g + (len T + (f_size hs - (g_hash_block_size g + len T)))) at 1 by lia.
  rewrite (fread_app _ 0), (fread_app _ (0 + g_hash_block_size g)) by lia. rewrite Z.add_0_l. by rewrite Hrd.
Qed.

(** The root hash binds the root artifact. When two bundles with the same superblock are accepted under the same
    root hash and their root artifacts have the same size, the root artifacts are equal, or two different
    messages with the same salted digest are exhibited. *)
Theorem verity_root_hash_binds rhf rhf' parts parts' rt rt' hs hs' m m' :
  project rhf parts rt hs = Ok m → project rhf' parts' rt' hs' = Ok m' → 0 < vm_digest_size m →
  fread hs 0 SUPERBLOCK_SIZE = fread hs' 0 SUPERBLOCK_SIZE → f_size rt = f_size rt' → vm_root_hash m = vm_root_hash m' →
  contents rt = contents rt' ∨ ∃ g, _read_superblock hs = Ok g ∧ collision g.
Proof.
  intros Hp Hp' Hd Hsb Hsz Hh.
  destruct (verity_project_superblock _ _ _ _ _ Hp) as (g & Hg & Hgd).
  destruct (verity_project_superblock _ _ _ _ _ Hp') as (g' & Hg' & Hgd').
  assert (Heq : _read_superblock hs = _read_superblock hs') by (unfold _read_superblock; by rewrite Hsb).
  assert (g' = g) as -> by (apply Ok_inj; congruence).
  apply verity_project_inv in Hp as (g1 & counts & root & Hg1 & Hc & Hok & _ & _ & Hz & _ & Hle & _ & _ & Hroot & Hhash & _); [|done].
  apply verity_project_inv in Hp' as (g2 & counts' & root' & Hg2 & Hc' & _ & _ & _ & Hz' & _ & Hle' & _ & _ & Hroot' & Hhash' & _); [|congruence].
  assert (g1 = g) as -> by (apply Ok_inj; congruence). assert (g2 = g) as -> by (apply Ok_inj; congruence).
  assert (counts' = counts) as -> by (apply Ok_inj; congruence).
  assert (root' = root) as -> by (apply (inj hex); congruence).
  rewrite (root_contents rt g), (root_contents rt' g), <- Hsz by done.
  destruct (tower_inj g Hok counts (leaves g rt) (leaves g rt')) as [Hl|Hcol];
    [by rewrite !len_leaves|by apply uniform_leaves|by apply uniform_leaves|congruence| |right; by exists g].
  apply leaves_inj in Hl as [Hl|Hcol]; [left; by rewrite Hl|right; by exists g|done..].
Qed.
(** C9: [_verify_tree] accepts exactly the artifacts that hold the reference tree. For the geometry of a fixed-size hash it
    returns the level counts, the root digest and the tree size if and only if the level and spool limits hold, the
    root artifact has all data blocks, the bytes at the tree offset are the reference tree of the data blocks, and the
    top of the tree is the one returned digest. *)
Theorem verify_tree_exact g rt hs off counts root size :
  geometry_ok g →
  _verify_tree rt hs g off = Ok (counts, root, size) ↔
  _level_counts (g_data_blocks g) (per_block g) = Ok counts ∧ _check_spool_budget g counts = Ok tt ∧
  g_data_blocks g * g_data_block_size g <= f_size rt ∧ size = len (tree_bytes g counts (leaves g rt)) ∧
  fread hs off size = tree_bytes g counts (leaves g rt) ∧ tower g counts (leaves g rt) = [root].
Proof. intros Hok. by apply verify_tree_iff. Qed.
End project.

(** ** A bundle of three data blocks *)

Module VerityDemo.
Existing Instance ascii_ucd.

Definition superblock (blocks : Z) : bytes :=
  blit "verity" ++ zeros 2 ++ le_encode 4 1 ++ le_encode 4 1 ++ zeros 16 ++ blit "sha256" ++ zeros 26 ++
  le_encode 4 512 ++ le_encode 4 1024 ++ le_encode 8 blocks ++ le_encode 2 4 ++ zeros 6 ++ blit "salt" ++ zeros 420.

Definition root_image : file := file_of_bytes (replicate 1536 x07 ++ zeros 512).

Definition geom : geometry :=
  {| g_algorithm := lit "sha256"; g_data_block_size := 512; g_data_blocks := 3; g_digest_size := 32;
     g_hash_block_size := 1024; g_slot_size := 32; g_salt := blit "salt"; g_superblock := superblock 3 |}.

Definition tree : bytes := Eval vm_compute in tree_bytes geom [1] (leaves geom root_image).
Definition root_digest : bytes := Eval vm_compute in concat (tower geom [1] (leaves geom root_image)).
Definition hash_image : file := file_of_bytes (superblock 3 ++ zeros 512 ++ tree ++ zeros 512).
Definition root_hash : file := file_of_bytes (Z2b <$> hex root_digest ++ [10]).

Definition root_partition : partition :=
  {| p_label := lit "root"; p_number := 1; p_size_bytes := 2048; p_start_bytes := 1048576;
     p_type_guid := ROOT_X86_64; p_uuid := None |}.
Definition hash_partition : partition :=
  {| p_label := lit "verity"; p_number := 2; p_size_bytes := 2560; p_start_bytes := 2097152;
     p_type_guid := ROOT_X86_64_VERITY; p_uuid := None |}.

Abbreviation run := (project (H := sha2_suite) (H0 := ascii_ucd) root_hash [root_partition; hash_partition] root_image hash_image).
Lemma verity_run_Ok : ∃ m, run = Ok m ∧ vm_digest_size m = 32.
Proof. eexists. split; [vm_compute; reflexivity|reflexivity]. Qed.

Lemma geom_ok : geometry_ok geom.
Proof. constructor; vm_compute; congruence. Qed.
End VerityDemo.

Lemma verity_artifacts_determined_witness :
  ∃ m g counts root trailer tail, VerityDemo.run = Ok m ∧ _read_superblock VerityDemo.hash_image = Ok g ∧
    contents VerityDemo.hash_image =
      slice 0 (g_hash_block_size g) (g_superblock g) ++ zeros (g_hash_block_size g - SUPERBLOCK_SIZE) ++
      tree_bytes g counts (leaves g VerityDemo.root_image) ++ zeros tail ∧
    contents VerityDemo.root_image =
      fread VerityDemo.root_image 0 (g_data_blocks g * g_data_block_size g) ++ zeros trailer ∧ vm_root_hash m = hex root.
Proof.
  destruct VerityDemo.verity_run_Ok as (m & Hm & Hd).
  destruct (verity_artifacts_determined _ _ _ _ m Hm ltac:(lia)) as (g & counts & root & trailer & tail & H1 & H2 & H3 & H4 & H5).
  exists m, g, counts, root, trailer, tail. split; [exact Hm|]. split; [exact H1|]. split; [exact H3|]. split; [exact H2|exact H5].
Defined.

Lemma verity_root_hash_binds_witness :
  contents VerityDemo.root_image = contents VerityDemo.root_image ∨
  ∃ g, _read_superblock VerityDemo.hash_image = Ok g ∧ collision g.
Proof.
  destruct VerityDemo.verity_run_Ok as (m & Hm & Hd).
  apply (verity_root_hash_binds _ _ _ _ _ _ _ _ m m Hm Hm); [lia|reflexivity..].
Defined.

Lemma verify_tree_exact_witness :
  _verify_tree VerityDemo.root_image VerityDemo.hash_image VerityDemo.geom 1024 = Ok ([1], VerityDemo.root_digest, 1024).
Proof.
  apply (verify_tree_exact VerityDemo.geom); [exact VerityDemo.geom_ok|].
  split_and!; vm_compute; congruence.
Defined.
