(* ===== verification/DebControl.v ===== *)
(** * Debian control data: [mkosi/private/debian_control.py]

    The parser of Release files and Packages indexes, with its round trip. *)
From S2P Require Import Prelude Bytes PyText Collections.

Abbreviation paragraph := (dict text text).

(** The loop state of [paragraphs]: the finished paragraphs, the current one and the field that a continuation line
    extends. *)
Record control_state := { cs_result : list paragraph; cs_current : paragraph; cs_field : option text }.

Definition paragraphs_line (s : control_state) (line : text) : result control_state :=
  if bool_decide (strip line = []) then
    mret (if bool_decide (cs_current s = []) then s
          else {| cs_result := cs_result s ++ [cs_current s]; cs_current := []; cs_field := None |})
  else if match line with c :: _ => isspace c | [] => false end then
    field ← of_option (ValueError "continuation without a Debian metadata field" []) (cs_field s);
    old ← of_option KeyError (dget field (cs_current s));
    mret {| cs_result := cs_result s; cs_current := dset field (old ++ [10] ++ strip line) (cs_current s);
            cs_field := Some field |}
  else
    match partition_on 58 line with
    | (field, Some value) =>
        raise_if (dmem field (cs_current s)) (ValueError "duplicate Debian metadata field: %s" [AText field]);;
        mret {| cs_result := cs_result s; cs_current := dset field (strip value) (cs_current s);
                cs_field := Some field |}
    | (_, None) => Err (ValueError "malformed Debian metadata field: %s" [AText line])
    end.

Definition paragraphs (t : text) : result (list paragraph) :=
  s ← foldM paragraphs_line {| cs_result := []; cs_current := []; cs_field := None |} (splitlines t);
  mret (if bool_decide (cs_current s = []) then cs_result s else cs_result s ++ [cs_current s]).

(** ** Errors *)

Definition control_ok (s : control_state) : Prop :=
  (∀ p, p ∈ cs_result s → p ≠ [] ∧ dict_ok p) ∧ dict_ok (cs_current s) ∧
  (∀ f, cs_field s = Some f → f ∈ dkeys (cs_current s)).

Lemma paragraphs_line_spec s line :
  control_ok s → raises is_value_error (paragraphs_line s line) ∧ ∀ s', paragraphs_line s line = Ok s' → control_ok s'.
Proof.
  intros (Hr & Hc & Hf). unfold paragraphs_line. case_bool_decide as Hs.
  { split; [done|]. intros s' [= <-]. case_bool_decide; [done|]. split_and!; [|constructor|done].
    simpl. intros p [?| ->%list_elem_of_singleton]%elem_of_app; [by apply Hr|done]. }
  destruct (match line with [] => false | c :: _ => isspace c end) eqn:Hsp.
  { destruct (cs_field s) as [field|] eqn:E; simpl; [|split; [apply value_error|done]].
    destruct (dget field (cs_current s)) as [old|] eqn:Ho; simpl.
    - split; [done|]. intros s' [= <-]. split_and!; simpl; [done|by apply dict_ok_dset|].
      intros f [= <-]. rewrite dkeys_dset. rewrite decide_True; by apply Hf.
    - apply dget_None in Ho. destruct Ho. by apply Hf. }
  destruct (partition_on 58 line) as [field [value|]]; [|split; [apply value_error|done]].
  destruct (dmem field (cs_current s)); simpl; [split; [apply value_error|done]|].
  split; [done|]. intros s' [= <-]. split_and!; simpl; [done|by apply dict_ok_dset|].
  intros f [= <-]. rewrite dkeys_dset. case_decide; set_solver.
Qed.

Lemma paragraphs_loop_spec lines s :
  control_ok s →
  raises is_value_error (foldM paragraphs_line s lines) ∧ ∀ s', foldM paragraphs_line s lines = Ok s' → control_ok s'.
Proof.
  revert s. induction lines as [|l lines IH]; intros s Hs; cbn [foldM]; [split; [done|by intros s' [= <-]]|].
  destruct (paragraphs_line_spec s l Hs) as [Hr Ho].
  destruct (paragraphs_line s l) as [s1|e]; cbn [mbind result_bind]; [by apply IH, Ho|by split].
Qed.

(** The control data parser is total up to its documented error: it raises nothing but [ValueError] (in particular no
    [KeyError] for a continuation line), and every paragraph it returns is a nonempty dictionary. *)
Theorem paragraphs_total t :
  raises is_value_error (paragraphs t) ∧
  ∀ ps, paragraphs t = Ok ps → ∀ p, p ∈ ps → p ≠ [] ∧ dict_ok p.
Proof.
  unfold paragraphs. destruct (paragraphs_loop_spec (splitlines t) {| cs_result := []; cs_current := []; cs_field := None |}) as [Hr Ho].
  { split_and!; simpl; [set_solver|constructor|done]. }
  destruct (foldM _ _ _) as [s|e]; [|by split]. destruct (Ho s eq_refl) as (H1 & H2 & _). split; [done|].
  intros ps [= <-]. case_bool_decide as Hcur; [done|]. intros p [?| ->%list_elem_of_singleton]%elem_of_app; [by apply H1|done].
Qed.

(** ** Round trip *)

Definition field_lines (item : text * text) : list text :=
  match split_on 10 item.2 with
  | first :: rest => (item.1 ++ lit ": " ++ first) :: (cons 32 <$> rest)
  | [] => []
  end.

(** Control data with one line per value line, and an empty line after each paragraph. *)
Definition render_lines (ps : list paragraph) : list text := ps ≫= λ p, (p ≫= field_lines) ++ [[]].
Definition render_control (ps : list paragraph) : text := render_lines ps ≫= λ l, l ++ [10].

(** A line that [strip] leaves alone. *)
Definition plain_line (l : text) : Prop := Forall (λ c, is_linebreak c = false) l ∧ strip l = l.

Definition plain_value (v : text) : Prop :=
  match split_on 10 v with
  | first :: rest => plain_line first ∧ Forall (λ l, plain_line l ∧ l ≠ []) rest
  | [] => False
  end.

Definition plain_field (f : text) : Prop :=
  (58 ∉ f) ∧ Forall (λ c, is_linebreak c = false) f ∧ match f with c :: _ => isspace c = false | [] => True end.

Definition plain_paragraph (p : paragraph) : Prop :=
  p ≠ [] ∧ dict_ok p ∧ Forall (λ i, plain_field i.1 ∧ plain_value i.2) p.

#[export] Instance plain_value_dec v : Decision (plain_value v).
Proof. unfold plain_value, plain_line. destruct (split_on 10 v); apply _. Defined.
#[export] Instance plain_field_dec f : Decision (plain_field f).
Proof. unfold plain_field. destruct f; apply _. Defined.
#[export] Instance plain_paragraph_dec p : Decision (plain_paragraph p).
Proof. unfold plain_paragraph, dict_ok. apply _. Defined.

Lemma partition_on_first sep a t : sep ∉ a → partition_on sep (a ++ sep :: t) = (a, Some t).
Proof. intros. by apply partition_on_Some. Qed.

Lemma continuation_line s f old l :
  plain_line l → l ≠ [] → cs_field s = Some f → dget f (cs_current s) = Some old →
  paragraphs_line s (32 :: l) = Ok {| cs_result := cs_result s;
    cs_current := dset f (old ++ [10] ++ l) (cs_current s); cs_field := Some f |}.
Proof.
  intros [_ Hs] Hl Hf Ho. unfold paragraphs_line. rewrite strip_space, Hs by done. rewrite bool_decide_false by done.
  simpl. by rewrite Hf; simpl; rewrite Ho.
Qed.

Lemma field_line s f v :
  plain_field f → plain_line v → f ∉ dkeys (cs_current s) →
  paragraphs_line s (f ++ lit ": " ++ v) = Ok {| cs_result := cs_result s;
    cs_current := cs_current s ++ [(f, v)]; cs_field := Some f |}.
Proof.
  intros (H58 & _ & Hsp) [_ Hv] Hf. unfold paragraphs_line. rewrite bool_decide_false.
  2: { rewrite strip_nil, !Forall_app. intros [_ [Hc _]]. by inv Hc. }
  change (lit ": " ++ v) with (58 :: 32 :: v).
  assert ((match f ++ 58 :: 32 :: v with [] => false | c :: _ => isspace c end) = false) as -> by (by destruct f).
  rewrite partition_on_first by done. unfold dmem. rewrite bool_decide_false by done. cbn [raise_if mbind result_bind].
  rewrite strip_space, Hv by done. by rewrite dset_fresh.
Qed.

Lemma dset_last (f v w : text) d : f ∉ dkeys d → dset f w (d ++ [(f, v)]) = d ++ [(f, w)].
Proof.
  induction d as [|[k x] d IH]; simpl; intros Hf; [by rewrite decide_True|].
  rewrite decide_False by set_solver. rewrite IH; [done|set_solver].
Qed.

Lemma dget_last (f v : text) d : f ∉ dkeys d → dget f (d ++ [(f, v)]) = Some v.
Proof.
  induction d as [|[k x] d IH]; simpl; intros Hf; [by rewrite decide_True|].
  rewrite decide_False by set_solver. apply IH. set_solver.
Qed.

Lemma continuation_lines rest res cur f old :
  Forall (λ l, plain_line l ∧ l ≠ []) rest → f ∉ dkeys cur →
  foldM paragraphs_line {| cs_result := res; cs_current := cur ++ [(f, old)]; cs_field := Some f |} (cons 32 <$> rest) =
  Ok {| cs_result := res; cs_current := cur ++ [(f, old ++ (rest ≫= cons 10))]; cs_field := Some f |}.
Proof.
  intros Hr Hf. revert old. induction Hr as [|l rest [Hl Hne] Hr IH]; intros old; [by rewrite app_nil_r|].
  rewrite fmap_cons. cbn [foldM]. rewrite (continuation_line _ f old) by (try done; by apply dget_last). cbn [mbind result_bind cs_result cs_current].
  rewrite dset_last by done. rewrite IH. rewrite bind_cons. by rewrite <- !(assoc_L (++)).
Qed.

Lemma join_newline first rest : join [10] (first :: rest) = first ++ (rest ≫= cons 10).
Proof.
  revert first. induction rest as [|l rest IH]; intros first; [by rewrite app_nil_r|].
  change (join [10] (first :: l :: rest)) with (first ++ [10] ++ join [10] (l :: rest)). by rewrite IH, bind_cons.
Qed.

Lemma field_lines_parse i res cur fld :
  plain_field i.1 → plain_value i.2 → i.1 ∉ dkeys cur →
  foldM paragraphs_line {| cs_result := res; cs_current := cur; cs_field := fld |} (field_lines i) =
  Ok {| cs_result := res; cs_current := cur ++ [i]; cs_field := Some i.1 |}.
Proof.
  destruct i as [f v]. unfold plain_value, field_lines. cbn [fst snd]. intros Hf Hv Hin.
  destruct (split_on 10 v) as [|first rest] eqn:E; [done|]. destruct Hv as [Hfirst Hrest]. cbn [foldM].
  rewrite field_line by done. cbn [mbind result_bind cs_result cs_current]. rewrite continuation_lines by done.
  rewrite <- join_newline, <- E, join_split_on. done.
Qed.

Lemma fields_parse p res cur fld :
  Forall (λ i, plain_field i.1 ∧ plain_value i.2) p → dict_ok (cur ++ p) →
  ∃ fld', foldM paragraphs_line {| cs_result := res; cs_current := cur; cs_field := fld |} (p ≫= field_lines) =
    Ok {| cs_result := res; cs_current := cur ++ p; cs_field := fld' |}.
Proof.
  intros Hp. revert cur fld. induction Hp as [|i p [Hf Hv] Hp IH]; intros cur fld Hd.
  - exists fld. by rewrite app_nil_r.
  - rewrite bind_cons, foldM_app, field_lines_parse; [|done|done|].
    + destruct (IH (cur ++ [i]) (Some i.1)) as [fld' Hi]; [by rewrite <- (assoc_L (++))|].
      exists fld'. cbn [mbind result_bind]. by rewrite Hi, <- (assoc_L (++)).
    + unfold dict_ok, dkeys in *. rewrite fmap_app in Hd. apply NoDup_app in Hd as (_ & Hd & _).
      intros Hin. apply (Hd _ Hin). simpl. by left.
Qed.

Lemma plain_lines p : plain_paragraph p → Forall (Forall (λ c, is_linebreak c = false)) (p ≫= field_lines).
Proof.
  intros (_ & _ & Hp). induction Hp as [|[f v] p [(_ & Hf & _) Hv] Hp IH]; [constructor|].
  rewrite bind_cons. apply Forall_app. split; [|done]. unfold field_lines, plain_value in *. cbn [fst snd] in *.
  destruct (split_on 10 v) as [|first rest]; [done|]. destruct Hv as [[Hfirst _] Hrest]. constructor.
  - rewrite !Forall_app. split_and!; [done| |done]. by repeat constructor.
  - apply Forall_fmap. eapply Forall_impl; [exact Hrest|]. intros l [[Hl _] _]. by constructor.
Qed.

Lemma paragraphs_loop_render ps res :
  Forall plain_paragraph ps →
  foldM paragraphs_line {| cs_result := res; cs_current := []; cs_field := None |} (render_lines ps) =
  Ok {| cs_result := res ++ ps; cs_current := []; cs_field := None |}.
Proof.
  intros Hps. revert res. induction Hps as [|p ps Hp Hps IH]; intros res; [by rewrite app_nil_r|].
  destruct Hp as (Hne & Hd & Hp). unfold render_lines. rewrite bind_cons, <- (assoc_L (++)), foldM_app.
  destruct (fields_parse p res [] None) as [fld ->]; [done..|]. rewrite app_nil_l. simpl.
  unfold paragraphs_line at 1. simpl. rewrite bool_decide_false by done. simpl. fold (render_lines ps).
  rewrite IH. by rewrite <- (assoc_L (++)).
Qed.

(** Parsing inverts printing. Control data printed with one line per value line and an empty line after each paragraph
    is parsed to the same paragraphs, fields in the same order, for every list of nonempty paragraphs with distinct
    fields whose value lines have no surrounding white space. *)
Theorem paragraphs_render ps : Forall plain_paragraph ps → paragraphs (render_control ps) = Ok ps.
Proof.
  intros Hps. unfold paragraphs, render_control. rewrite splitlines_lines.
  - by rewrite paragraphs_loop_render.
  - unfold render_lines. induction Hps as [|p ps Hp Hps IH]; [constructor|]. rewrite bind_cons.
    rewrite !Forall_app. split_and!; [by apply plain_lines|by repeat constructor|done].
Qed.

Definition demo_paragraphs : list paragraph :=
  [[(lit "Package", lit "apt"); (lit "SHA256", [10] ++ lit "ab 1 x" ++ [10] ++ lit "cd 2 y")]; [(lit "Size", lit "7")]].

Lemma paragraphs_render_witness : paragraphs (render_control demo_paragraphs) = Ok demo_paragraphs.
Proof.
  apply (paragraphs_render demo_paragraphs).
  apply (bool_decide_unpack _). by vm_compute.
Defined.
