(* ===== verification/DebVersion.v ===== *)
(** * Debian versions: [compare_versions] of [mkosi/debian/generate_lock.py]

    A string with an index into it is the rest of the string from that index on; an index past the end is the empty
    rest. The comparison is shown to be the lexicographic order of a key, so it is a total preorder. *)
From S2P Require Import Prelude Bytes PyText.

Section versions.
Context `{Ucd}.

Definition _order (character : Z) : Z :=
  if character =? 126 then -1
  else if isdigit character then 0
  else if isalpha character then character
  else character + 256.

(** [i < len(s) and s[i].isdigit()], and [i < len(s) and not s[i].isdigit()]. *)
Definition at_digit (t : text) : bool := match t with c :: _ => isdigit c | [] => false end.
Definition at_non_digit (t : text) : bool := match t with c :: _ => negb (isdigit c) | [] => false end.
Definition order_at (t : text) : Z := match t with c :: _ => _order c | [] => 0 end.

Fixpoint compare_non_digits_loop (fuel : nat) (left right : text) : Z * text * text :=
  match fuel with
  | O => (0, left, right)
  | S fuel =>
      if at_non_digit left || at_non_digit right then
        if negb (order_at left =? order_at right) then (order_at left - order_at right, left, right)
        else compare_non_digits_loop fuel (tail left) (tail right)
      else (0, left, right)
  end.

(** Every round drops a character of [left] or of [right]. *)
Definition _compare_non_digits (left right : text) : Z * text * text :=
  compare_non_digits_loop (length left + length right) left right.

Definition skip_zeros (t : text) : text := lstrip_by (λ c, c =? 48) t.

Fixpoint compare_digits_loop (difference : Z) (left right : text) : Z * text * text :=
  match left, right with
  | a :: left', b :: right' =>
      if isdigit a && isdigit b
      then compare_digits_loop (if difference =? 0 then a - b else difference) left' right'
      else (difference, left, right)
  | _, _ => (difference, left, right)
  end.

Definition _compare_digits (left right : text) : Z * text * text :=
  let '(difference, l, r) := compare_digits_loop 0 (skip_zeros left) (skip_zeros right) in
  if at_digit l then (1, l, r)
  else if at_digit r then (-1, l, r)
  else (difference, l, r).

Fixpoint compare_fragment_loop (fuel : nat) (left right : text) : Z :=
  match fuel with
  | O => 0
  | S fuel =>
      if bool_decide (left = []) && bool_decide (right = []) then 0
      else
        let '(difference, l, r) := _compare_non_digits left right in
        if negb (difference =? 0) then difference
        else
          let '(difference, l, r) := _compare_digits l r in
          if negb (difference =? 0) then difference else compare_fragment_loop fuel l r
  end.

(** Every round that returns no difference consumes a character. *)
Definition _compare_fragment (left right : text) : Z := compare_fragment_loop (length left + length right) left right.

Definition _split_version (version : text) : result (Z * text * text) :=
  '(epoch, version) ← match partition_on 58 version with
    | (epoch_text, Some version) =>
        require (all_digits epoch_text) (LockError "invalid Debian version epoch: %s" [AText epoch_text]);;
        epoch ← of_option (ValueError "invalid literal for int() with base 10: {}" [AText epoch_text]) (py_int epoch_text);
        mret (epoch, version)
    | (version, None) => mret (0, version)
    end;
  match rpartition_on 45 version with
  | (Some upstream, revision) => mret (epoch, upstream, revision)
  | (None, upstream) => mret (epoch, upstream, [])
  end.

Definition compare_versions (left right : text) : result Z :=
  '(left_epoch, left_upstream, left_revision) ← _split_version left;
  '(right_epoch, right_upstream, right_revision) ← _split_version right;
  if negb (left_epoch =? right_epoch) then mret (left_epoch - right_epoch)
  else
    let c := _compare_fragment left_upstream right_upstream in
    mret (if c =? 0 then _compare_fragment left_revision right_revision else c).

Definition _RELATION_OPERATORS : list (text * (Z → bool)) :=
  [(lit "<<", λ result, result <? 0); (lit "<=", λ result, result <=? 0); (lit "<", λ result, result <=? 0);
   (lit "=", λ result, result =? 0); (lit ">=", λ result, 0 <=? result); (lit ">", λ result, 0 <=? result);
   (lit ">>", λ result, 0 <? result)].

Fixpoint operator_of (operator : text) (l : list (text * (Z → bool))) : option (Z → bool) :=
  match l with
  | [] => None
  | (o, f) :: l => if bool_decide (operator = o) then Some f else operator_of operator l
  end.

Definition version_satisfies (version operator required : text) : result bool :=
  result ← compare_versions version required;
  f ← of_option (LockError "unsupported version relation: %s" [AText operator]) (operator_of operator _RELATION_OPERATORS);
  mret (f result).
End versions.

(** ** Comparison functions *)

Definition lex (c d : comparison) : comparison := match c with Eq => d | _ => c end.

(** The laws of a comparison that is a total preorder. *)
Class GoodCmp {A} (cmp : A → A → comparison) : Prop := {
  cmp_refl : ∀ x, cmp x x = Eq;
  cmp_opp : ∀ x y, cmp y x = CompOpp (cmp x y);
  cmp_eq_l : ∀ x y z, cmp x y = Eq → cmp x z = cmp y z;
  cmp_trans : ∀ x y z, cmp x y = Lt → cmp y z = Lt → cmp x z = Lt;
}.

Lemma lex_opp c d : CompOpp (lex c d) = lex (CompOpp c) (CompOpp d).
Proof. by destruct c. Qed.

Lemma cmp_eq_r `{GoodCmp A cmp} x y z : cmp y z = Eq → cmp x y = cmp x z.
Proof. intros E. rewrite (cmp_opp y x), (cmp_opp z x). f_equal. by apply cmp_eq_l. Qed.

#[export] Instance Z_good : GoodCmp Z.compare.
Proof.
  split.
  - apply Z.compare_refl.
  - intros. apply Z.compare_antisym.
  - by intros x y z ->%Z.compare_eq_iff.
  - intros x y z. rewrite !Z.compare_lt_iff. lia.
Qed.

Definition pair_cmp {A B} (c : A → A → comparison) (d : B → B → comparison) (x y : A * B) : comparison :=
  lex (c x.1 y.1) (d x.2 y.2).

#[export] Instance pair_good {A B} (c : A → A → comparison) (d : B → B → comparison) :
  GoodCmp c → GoodCmp d → GoodCmp (pair_cmp c d).
Proof.
  intros Hc Hd. unfold pair_cmp. split.
  - intros x. by rewrite !cmp_refl.
  - intros x y. by rewrite lex_opp, <- !cmp_opp.
  - intros x y z. destruct (c x.1 y.1) eqn:E; try done. simpl. intros E'.
    by rewrite (cmp_eq_l _ _ _ E), (cmp_eq_l _ _ _ E').
  - intros x y z. destruct (c x.1 y.1) eqn:E1, (c y.1 z.1) eqn:E2; simpl; try done; intros H1 H2.
    + rewrite (cmp_eq_l _ _ _ E1), E2. simpl. by eapply cmp_trans.
    + by rewrite (cmp_eq_l _ _ _ E1), E2.
    + by rewrite <- (cmp_eq_r _ _ _ E2), E1.
    + by rewrite (cmp_trans _ _ _ E1 E2).
Qed.

(** Lexicographic comparison of sequences padded with [d]. *)
Section padded.
Context {A : Type} (d : A) (cmp : A → A → comparison) `{GoodCmp A cmp}.

Definition hd_d (l : list A) : A := match l with x :: _ => x | [] => d end.

Fixpoint lexn (n : nat) (l r : list A) : comparison :=
  match n with O => Eq | S n => lex (cmp (hd_d l) (hd_d r)) (lexn n (tail l) (tail r)) end.

Definition pad_cmp (l r : list A) : comparison := lexn (length l `max` length r) l r.

Lemma lexn_nil n : lexn n [] [] = Eq.
Proof. induction n as [|n IH]; simpl; [done|]. by rewrite cmp_refl. Qed.

Lemma length_tail_le (l : list A) n : (length l ≤ S n → length (tail l) ≤ n)%nat.
Proof. destruct l; simpl; lia. Qed.

Lemma lexn_enough n m l r : (length l ≤ n → length r ≤ n → lexn (n + m) l r = lexn n l r)%nat.
Proof.
  revert l r. induction n as [|n IH]; intros l r Hl Hr.
  - destruct l, r; simpl in *; try lia. apply lexn_nil.
  - simpl. f_equal. apply IH; by apply length_tail_le.
Qed.

Lemma pad_cmp_lexn n l r : (length l ≤ n → length r ≤ n → pad_cmp l r = lexn n l r)%nat.
Proof.
  intros Hl Hr. unfold pad_cmp. replace n with (length l `max` length r + (n - length l `max` length r))%nat by lia.
  by rewrite lexn_enough by lia.
Qed.

Instance lexn_good n : GoodCmp (lexn n).
Proof.
  induction n as [|n IH]; [by split|].
  assert (Hp : GoodCmp (pair_cmp cmp (lexn n))) by apply _.
  change (lexn (S n)) with (λ l r, pair_cmp cmp (lexn n) (hd_d l, tail l) (hd_d r, tail r)).
  split; intros *; [apply cmp_refl|apply cmp_opp|apply cmp_eq_l|apply cmp_trans].
Qed.

#[export] Instance pad_good : GoodCmp pad_cmp.
Proof.
  split.
  - intros l. unfold pad_cmp. apply cmp_refl.
  - intros l r. unfold pad_cmp. rewrite Nat.max_comm. apply cmp_opp.
  - intros x y z. set (n := ((length x `max` length y) `max` length z)%nat).
    rewrite !(pad_cmp_lexn n) by lia. apply cmp_eq_l.
  - intros x y z. set (n := ((length x `max` length y) `max` length z)%nat).
    rewrite !(pad_cmp_lexn n) by lia. apply cmp_trans.
Qed.

Lemma pad_cmp_step l r :
  l ≠ [] ∨ r ≠ [] → pad_cmp l r = lex (cmp (hd_d l) (hd_d r)) (pad_cmp (tail l) (tail r)).
Proof.
  intros Hne. rewrite (pad_cmp_lexn (S (length l `max` length r))) by lia. cbn [lexn]. f_equal.
  symmetry. apply pad_cmp_lexn; apply length_tail_le; lia.
Qed.

Lemma pad_cmp_cons x y l r : pad_cmp (x :: l) (y :: r) = lex (cmp x y) (pad_cmp l r).
Proof. by rewrite pad_cmp_step by (by left). Qed.

Lemma pad_cmp_nil : pad_cmp [] [] = Eq.
Proof. done. Qed.
End padded.

(** ** The key of a version *)

Section key.
Context `{Ucd}.

(** The leading non-digits, the text after them, the digits there without leading zeros, and the text after those. *)
Definition non_digits (t : text) : text := take_while (λ c, negb (isdigit c)) t.
Definition after_non_digits (t : text) : text := lstrip_by (λ c, negb (isdigit c)) t.
Definition number (t : text) : text := take_while isdigit (skip_zeros t).
Definition after_number (t : text) : text := lstrip_by isdigit (skip_zeros t).

(** One round of a fragment: its non-digits by [_order], then its number by length and digits. *)
Definition block (t : text) : list Z * list Z :=
  let d := number (after_non_digits t) in (_order <$> non_digits t, len d :: d).
Definition next (t : text) : text := after_number (after_non_digits t).

Fixpoint blocks_loop (fuel : nat) (t : text) : list (list Z * list Z) :=
  match fuel, t with
  | S fuel, _ :: _ => block t :: blocks_loop fuel (next t)
  | _, _ => []
  end.
Definition fragment_key (t : text) : list (list Z * list Z) := blocks_loop (length t) t.

Definition digits_cmp : list Z → list Z → comparison := pad_cmp 0 Z.compare.
Definition block_cmp : list Z * list Z → list Z * list Z → comparison := pair_cmp digits_cmp digits_cmp.
Definition fragment_cmp (l r : text) : comparison := pad_cmp ([], []) block_cmp (fragment_key l) (fragment_key r).

#[export] Instance digits_good : GoodCmp digits_cmp.
Proof. unfold digits_cmp. apply _. Qed.
#[export] Instance block_good : GoodCmp block_cmp.
Proof. unfold block_cmp. apply _. Qed.
#[export] Instance fragment_good : GoodCmp fragment_cmp.
Proof.
  assert (Hg : GoodCmp (pad_cmp ([], []) block_cmp)) by apply _.
  unfold fragment_cmp. split; intros *; [apply cmp_refl|apply cmp_opp|apply cmp_eq_l|apply cmp_trans].
Qed.

(** Code points are not negative. *)
Abbreviation natural t := (Forall (λ c : Z, 0 <= c) t).

Lemma length_next t : t ≠ [] → (length (next t) < length t)%nat.
Proof.
  destruct t as [|c t]; [done|]. intros _. unfold next, after_number, after_non_digits, skip_zeros. simpl.
  destruct (isdigit c) eqn:E; simpl.
  - destruct (c =? 48); [|simpl; rewrite E].
    + pose proof (length_lstrip isdigit (lstrip_by (λ c, c =? 48) t)). pose proof (length_lstrip (λ c, c =? 48) t). lia.
    + pose proof (length_lstrip isdigit t). lia.
  - set (u := lstrip_by (λ c, negb (isdigit c)) t). pose proof (length_lstrip (λ c, negb (isdigit c)) t).
    pose proof (length_lstrip isdigit (lstrip_by (λ c, c =? 48) u)). pose proof (length_lstrip (λ c, c =? 48) u).
    unfold u in *. lia.
Qed.

Lemma blocks_loop_enough n m t : (length t ≤ n → length t ≤ m → blocks_loop n t = blocks_loop m t)%nat.
Proof.
  revert m t. induction n as [|n IH]; intros m [|c t] Hn Hm; simpl in *; try lia; [by destruct m..|].
  destruct m as [|m]; [lia|]. simpl. f_equal. pose proof (length_next (c :: t) ltac:(done)). simpl in *. apply IH; lia.
Qed.

Lemma fragment_key_step t : t ≠ [] → fragment_key t = block t :: fragment_key (next t).
Proof.
  intros Ht. pose proof (length_next t Ht). unfold fragment_key. destruct t as [|c t]; [done|].
  change (length (c :: t)) with (S (length t)) at 1. cbn [blocks_loop]. f_equal.
  apply blocks_loop_enough; simpl in *; lia.
Qed.

Lemma next_nil : next [] = [].
Proof. done. Qed.

Lemma fragment_cmp_step l r :
  l ≠ [] ∨ r ≠ [] → fragment_cmp l r = lex (block_cmp (block l) (block r)) (fragment_cmp (next l) (next r)).
Proof.
  intros Hne. unfold fragment_cmp.
  assert (Hd : ∀ t, t ≠ [] → hd_d ([], []) (fragment_key t) = block t ∧ tail (fragment_key t) = fragment_key (next t)).
  { intros t Ht. by rewrite fragment_key_step. }
  assert (H0 : ∀ x, block_cmp ([], []) x = block_cmp (block []) x) by (intros; by apply cmp_eq_l).
  assert (H0' : ∀ x, block_cmp x ([], []) = block_cmp x (block [])) by (intros; by apply cmp_eq_r).
  rewrite (pad_cmp_step ([], []) block_cmp).
  2: { destruct Hne as [Hl|Hr]; [left|right]; by rewrite fragment_key_step. }
  destruct (decide (l = [])) as [->|Hl], (decide (r = [])) as [->|Hr].
  - by destruct Hne.
  - destruct (Hd r Hr) as [-> ->]. cbn [hd_d fragment_key blocks_loop length tail]. by rewrite H0.
  - destruct (Hd l Hl) as [-> ->]. cbn [hd_d fragment_key blocks_loop length tail]. by rewrite H0'.
  - destruct (Hd l Hl) as [-> ->]. by destruct (Hd r Hr) as [-> ->].
Qed.

(** ** The code computes the order of the keys *)

Lemma order_non_digit c : 0 <= c → isdigit c = false → _order c ≠ 0.
Proof.
  intros Hc Hd. unfold _order. destruct (c =? 126); [done|]. rewrite Hd.
  destruct (isalpha c) eqn:E; [|lia]. intros ->. by vm_compute in E.
Qed.

Lemma order_at_non_digit t : natural t → at_non_digit t = true → order_at t ≠ 0.
Proof.
  destruct t as [|c t]; simpl; [done|]. intros [Hc _]%Forall_cons Hd%negb_true_iff. by apply order_non_digit.
Qed.

Lemma order_digit c : isdigit c = true → _order c = 0.
Proof. intros Hd. unfold _order. destruct (Z.eqb_spec c 126) as [->|]; [done|]. by rewrite Hd. Qed.

Lemma order_at_else t : at_non_digit t = false → order_at t = 0 ∧ non_digits t = [] ∧ after_non_digits t = t.
Proof.
  destruct t as [|c t]; simpl; [done|]. rewrite negb_false_iff. intros Hd.
  unfold non_digits, after_non_digits. simpl. rewrite Hd. simpl. by rewrite order_digit.
Qed.

Lemma at_non_digit_step t :
  at_non_digit t = true →
  ∃ c t', t = c :: t' ∧ non_digits t = c :: non_digits t' ∧ after_non_digits t = after_non_digits t' ∧ order_at t = _order c.
Proof.
  destruct t as [|c t]; simpl; [done|]. intros Hd. exists c, t. unfold non_digits, after_non_digits. simpl.
  by rewrite Hd.
Qed.

Lemma compare_sub (a b : Z) : (a - b ?= 0) = (a ?= b).
Proof. destruct (Z.compare_spec a b), (Z.compare_spec (a - b) 0); (done || lia). Qed.

Lemma compare_non_digits_loop_spec fuel l r d l' r' :
  natural l → natural r → (length l + length r ≤ fuel)%nat → compare_non_digits_loop fuel l r = (d, l', r') →
  (d ?= 0) = digits_cmp (_order <$> non_digits l) (_order <$> non_digits r) ∧
  (d = 0 → l' = after_non_digits l ∧ r' = after_non_digits r).
Proof.
  revert l r. induction fuel as [|fuel IH]; intros l r Hl Hr Hf Hc; simpl in Hc.
  { destruct l, r; simpl in *; try lia. by simplify_eq. }
  destruct (at_non_digit l) eqn:El, (at_non_digit r) eqn:Er; simpl in Hc.
  - destruct (at_non_digit_step l El) as (a & tl & -> & -> & -> & Ea), (at_non_digit_step r Er) as (b & tr & -> & -> & -> & Eb).
    rewrite Ea, Eb in Hc. rewrite !fmap_cons. unfold digits_cmp. rewrite pad_cmp_cons by apply _.
    destruct (Z.eqb_spec (_order a) (_order b)) as [Heq|Hne]; simpl in Hc.
    + rewrite Heq, Z.compare_refl. simpl. inv Hl. inv Hr. apply IH in Hc; [done|done|done|simpl in Hf; lia].
    + simplify_eq. rewrite compare_sub. split; [|lia].
      by destruct (Z.compare_spec (_order a) (_order b)).
  - destruct (order_at_else r Er) as (E0 & -> & ->). pose proof (order_at_non_digit l Hl El).
    destruct (at_non_digit_step l El) as (a & tl & -> & -> & -> & Ea). rewrite E0, Ea in *.
    replace (_order a =? 0) with false in Hc by lia. simpl in Hc. simplify_eq. rewrite Z.sub_0_r. split; [|done].
    unfold digits_cmp. rewrite fmap_cons, pad_cmp_step by (apply _ || by left). cbn [hd_d fmap list_fmap].
    destruct (Z.compare_spec (_order a) 0); [lia|done..].
  - destruct (order_at_else l El) as (E0 & -> & ->). pose proof (order_at_non_digit r Hr Er).
    destruct (at_non_digit_step r Er) as (b & tr & -> & -> & -> & Eb). rewrite E0, Eb in *.
    replace (0 =? _order b) with false in Hc by lia. simpl in Hc. simplify_eq. rewrite compare_sub. split; [|lia].
    unfold digits_cmp. rewrite fmap_cons, pad_cmp_step by (apply _ || by right). cbn [hd_d fmap list_fmap].
    destruct (Z.compare_spec 0 (_order b)); [lia|done..].
  - simplify_eq. destruct (order_at_else l' El) as (_ & -> & ->), (order_at_else r' Er) as (_ & -> & ->). done.
Qed.

Lemma compare_digits_loop_spec d l r d' l' r' :
  compare_digits_loop d l r = (d', l', r') →
  at_digit l' = (len (take_while isdigit r) <? len (take_while isdigit l)) ∧
  at_digit r' = (len (take_while isdigit l) <? len (take_while isdigit r)) ∧
  (len (take_while isdigit l) = len (take_while isdigit r) →
    l' = lstrip_by isdigit l ∧ r' = lstrip_by isdigit r ∧
    (d' ?= 0) = lex (d ?= 0) (digits_cmp (take_while isdigit l) (take_while isdigit r))).
Proof.
  revert d r. induction l as [|a l IH]; intros d r Hc; simpl in Hc.
  - injection Hc as <- <- <-. simpl. destruct r as [|b r]; simpl; [by destruct (d ?= 0)|]. destruct (isdigit b) eqn:E; simpl.
    + rewrite len_cons. change (len (@nil Z)) with 0. pose proof (len_nonneg (take_while isdigit r)). split_and!; lia.
    + split_and!; try done. by destruct (d ?= 0).
  - destruct r as [|b r]; simpl in Hc |- *.
    + injection Hc as <- <- <-. simpl. destruct (isdigit a) eqn:E; simpl.
      * rewrite len_cons. change (len (@nil Z)) with 0. pose proof (len_nonneg (take_while isdigit l)). split_and!; lia.
      * split_and!; try done. by destruct (d ?= 0).
    + destruct (isdigit a) eqn:Ea, (isdigit b) eqn:Eb; simpl in Hc; [|injection Hc as <- <- <-; simpl; rewrite ?Ea, ?Eb..].
      * apply IH in Hc as (H1 & H2 & H3). rewrite !len_cons. split; [lia|]. split; [lia|]. intros Hlen.
        destruct H3 as (-> & -> & ->); [lia|]. split_and!; [done..|]. unfold digits_cmp. rewrite pad_cmp_cons by apply _.
        destruct (Z.eqb_spec d 0) as [->|Hd]; [by rewrite compare_sub|].
        destruct (Z.compare_spec d 0); [lia|done..].
      * rewrite len_cons. change (len (@nil Z)) with 0. pose proof (len_nonneg (take_while isdigit l)). split_and!; lia.
      * rewrite len_cons. change (len (@nil Z)) with 0. pose proof (len_nonneg (take_while isdigit r)). split_and!; lia.
      * split_and!; try done. by destruct (d ?= 0).
Qed.

Lemma compare_digits_spec l r d l' r' :
  _compare_digits l r = (d, l', r') →
  (d ?= 0) = digits_cmp (len (number l) :: number l) (len (number r) :: number r) ∧
  (d = 0 → l' = after_number l ∧ r' = after_number r).
Proof.
  unfold _compare_digits, number, after_number. destruct (compare_digits_loop _ _ _) as [[d0 l0] r0] eqn:E.
  apply compare_digits_loop_spec in E as (H1 & H2 & H3). unfold digits_cmp. rewrite pad_cmp_cons by apply _.
  rewrite H1, H2. destruct (Z.compare_spec (len (take_while isdigit (skip_zeros l))) (len (take_while isdigit (skip_zeros r)))) as [Heq|Hlt|Hgt].
  - rewrite Heq, Z.ltb_irrefl. intros; simplify_eq. destruct (H3 Heq) as (-> & -> & ->). done.
  - replace (_ <? len (take_while isdigit (skip_zeros l))) with false by lia. replace (_ <? _) with true by lia. intros; by simplify_eq.
  - replace (_ <? len (take_while isdigit (skip_zeros l))) with true by lia. intros; by simplify_eq.
Qed.

Lemma natural_lstrip f t : natural t → natural (lstrip_by f t).
Proof. induction 1 as [|c t Hc Ht IH]; simpl; [done|]. destruct (f c); [done|by constructor]. Qed.
Lemma natural_next t : natural t → natural (next t).
Proof. intros. unfold next, after_number, after_non_digits, skip_zeros. by repeat apply natural_lstrip. Qed.

Lemma compare_fragment_loop_spec fuel l r :
  natural l → natural r → (length l + length r ≤ fuel)%nat →
  (compare_fragment_loop fuel l r ?= 0) = fragment_cmp l r.
Proof.
  revert l r. induction fuel as [|fuel IH]; intros l r Hl Hr Hf.
  { by destruct l, r; simpl in *; try lia. }
  cbn [compare_fragment_loop]. destruct (bool_decide (l = []) && bool_decide (r = [])) eqn:E.
  { bool_inv. by subst. }
  assert (Hne : l ≠ [] ∨ r ≠ []).
  { apply andb_false_iff in E as [E|E]; bool_inv; auto. }
  rewrite fragment_cmp_step by done. unfold block_cmp, pair_cmp, block. cbn [fst snd].
  destruct (_compare_non_digits l r) as [[d l1] r1] eqn:E1.
  apply compare_non_digits_loop_spec in E1 as [H1 H1']; [|done..]. rewrite <- H1.
  destruct (Z.eqb_spec d 0) as [->|Hd]; simpl.
  2: { by destruct (Z.compare_spec d 0). }
  destruct H1' as [-> ->]; [done|].
  destruct (_compare_digits _ _) as [[d l2] r2] eqn:E2. apply compare_digits_spec in E2 as [H2 H2']. rewrite <- H2.
  destruct (Z.eqb_spec d 0) as [->|Hd]; simpl.
  2: { by destruct (Z.compare_spec d 0). }
  destruct H2' as [-> ->]; [done|]. apply IH; [by apply natural_next..|].
  destruct (decide (l = [])) as [->|Hl'], (decide (r = [])) as [->|Hr']; [by destruct Hne|..].
  - pose proof (length_next r Hr'). change (next r) with (after_number (after_non_digits r)) in *. simpl in *. lia.
  - pose proof (length_next l Hl'). change (next l) with (after_number (after_non_digits l)) in *. simpl in *. lia.
  - pose proof (length_next l Hl'). pose proof (length_next r Hr'). unfold next in *. lia.
Qed.

Lemma compare_fragment_spec l r : natural l → natural r → (_compare_fragment l r ?= 0) = fragment_cmp l r.
Proof. intros. by apply compare_fragment_loop_spec. Qed.

(** ** Versions *)

(** The order of split versions: epoch, upstream version, revision. *)
Definition version_cmp : Z * text * text → Z * text * text → comparison :=
  pair_cmp (pair_cmp Z.compare fragment_cmp) fragment_cmp.

#[export] Instance version_good : GoodCmp version_cmp.
Proof. unfold version_cmp. apply _. Qed.

Lemma natural_partition sep t a b : natural t → partition_on sep t = (a, b) → natural a ∧ natural (default [] b).
Proof.
  intros Ht Hp. destruct b as [b|].
  - apply partition_on_Some in Hp as [-> _]. apply Forall_app in Ht as [Ha Hb]. by inv Hb.
  - by apply partition_on_None in Hp as [-> _].
Qed.

Lemma natural_split v e u r : natural v → _split_version v = Ok (e, u, r) → natural u ∧ natural r.
Proof.
  intros Hv Hs. unfold _split_version in Hs. apply bind_Ok_inv in Hs as ([e' w] & Hp & Hs).
  assert (Hw : natural w).
  { destruct (partition_on 58 v) as [a [b|]] eqn:E; apply natural_partition in E as [Ha Hb]; try done; res_inv; by simplify_eq. }
  unfold rpartition_on in Hs. destruct (partition_on 45 (reverse w)) as [a b] eqn:E.
  apply natural_partition in E as [Ha Hb]; [|by apply Forall_reverse].
  destruct b as [b|]; simpl in Hs; res_inv; simplify_eq; rewrite ?Forall_reverse; split; try done; constructor.
Qed.

Lemma compare_versions_split l r kl kr :
  natural l → natural r → _split_version l = Ok kl → _split_version r = Ok kr →
  ∃ c, compare_versions l r = Ok c ∧ (c ?= 0) = version_cmp kl kr.
Proof.
  destruct kl as [[e1 u1] r1], kr as [[e2 u2] r2]. intros Hl Hr E1 E2. unfold compare_versions. rewrite E1, E2.
  destruct (natural_split _ _ _ _ Hl E1) as [Hu1 Hr1], (natural_split _ _ _ _ Hr E2) as [Hu2 Hr2].
  cbn [mbind result_bind]. unfold version_cmp, pair_cmp. cbn [fst snd].
  destruct (Z.eqb_spec e1 e2) as [->|Hne]; cbn [negb].
  - eexists. split; [done|]. rewrite Z.compare_refl, <- !compare_fragment_spec by done. cbn [lex].
    destruct (Z.eqb_spec (_compare_fragment u1 u2) 0) as [->|Hc]; [done|].
    by destruct (Z.compare_spec (_compare_fragment u1 u2) 0).
  - eexists. split; [done|]. rewrite compare_sub. by destruct (Z.compare_spec e1 e2).
Qed.

Lemma compare_versions_Ok l r c :
  natural l → natural r → compare_versions l r = Ok c →
  ∃ kl kr, _split_version l = Ok kl ∧ _split_version r = Ok kr ∧ (c ?= 0) = version_cmp kl kr.
Proof.
  intros Hl Hr Hc. pose proof Hc as Hc'. unfold compare_versions in Hc'.
  apply bind_Ok_inv in Hc' as ([[e1 u1] r1] & E1 & Hc'). apply bind_Ok_inv in Hc' as ([[e2 u2] r2] & E2 & _).
  destruct (compare_versions_split l r _ _ Hl Hr E1 E2) as (c' & Hc' & Heq). rewrite Hc in Hc'. simplify_eq. eauto.
Qed.

(** C35: [compare_versions] implements the order of the version key. On versions whose epochs parse it returns, and the sign
    of the result is the lexicographic order of epoch, upstream version and revision, where a fragment counts as the
    sequence of its rounds: the non-digits by [_order] padded with the end of the string, then the number by value. *)
Theorem compare_versions_key left right kl kr :
  natural left → natural right → _split_version left = Ok kl → _split_version right = Ok kr →
  ∃ c, compare_versions left right = Ok c ∧ (c ?= 0) = version_cmp kl kr.
Proof. apply compare_versions_split. Qed.

(** [compare_versions] is a total preorder on the versions it accepts: a version equals itself, swapping the arguments
    flips the sign, and "not after" is transitive (the third comparison returns). So sorting by it is well defined. *)
Theorem compare_versions_preorder u v w :
  natural u → natural v → natural w →
  (∀ c, compare_versions u u = Ok c → c = 0) ∧
  (∀ c, compare_versions u v = Ok c → ∃ d, compare_versions v u = Ok d ∧ Z.sgn d = - Z.sgn c) ∧
  (∀ c d, compare_versions u v = Ok c → compare_versions v w = Ok d → c <= 0 → d <= 0 →
    ∃ e, compare_versions u w = Ok e ∧ e <= 0 ∧ (e = 0 → c = 0 ∧ d = 0)).
Proof.
  intros Hu Hv Hw. split_and!.
  - intros c (k & k' & E & E' & Hc)%compare_versions_Ok; [|done..]. assert (k' = k) as -> by congruence.
    rewrite cmp_refl in Hc. by apply Z.compare_eq_iff.
  - intros c (k & k' & E & E' & Hc)%compare_versions_Ok; [|done..].
    destruct (compare_versions_split v u k' k) as (d & Hd & Hs); [done..|]. exists d. split; [done|].
    rewrite (cmp_opp (cmp := version_cmp) k k'), <- Hc in Hs. destruct (Z.compare_spec c 0), (Z.compare_spec d 0); simpl in Hs; (done || lia).
  - intros c d (k1 & k2 & E1 & E2 & Hc)%compare_versions_Ok (k2' & k3 & E2' & E3 & Hd)%compare_versions_Ok Hc0 Hd0; [|done..].
    assert (k2' = k2) as -> by congruence.
    destruct (compare_versions_split u w k1 k3) as (e & He & Hs); [done..|]. exists e. split; [done|].
    destruct (version_cmp k1 k2) eqn:C1, (version_cmp k2 k3) eqn:C2;
      try (apply Z.compare_gt_iff in Hc; lia); try (apply Z.compare_gt_iff in Hd; lia).
    + rewrite (cmp_eq_l _ _ _ C1), C2 in Hs. apply Z.compare_eq_iff in Hs, Hc, Hd. subst. done.
    + rewrite (cmp_eq_l _ _ _ C1), C2 in Hs. change (e < 0) in Hs. clear Hc Hd. split; [lia|intros ->; lia].
    + rewrite <- (cmp_eq_r _ _ _ C2), C1 in Hs. change (e < 0) in Hs. clear Hc Hd. split; [lia|intros ->; lia].
    + rewrite (cmp_trans _ _ _ C1 C2) in Hs. change (e < 0) in Hs. clear Hc Hd. split; [lia|intros ->; lia].
Qed.

Lemma digits_cmp_prefix l x r : x < 0 → digits_cmp (l ++ x :: r) l = Lt.
Proof.
  intros Hx. unfold digits_cmp. induction l as [|y l IH]; simpl.
  - rewrite pad_cmp_step by (apply _ || by left). cbn [hd_d]. by rewrite (proj2 (Z.compare_lt_iff x 0) Hx).
  - by rewrite pad_cmp_cons, Z.compare_refl by apply _.
Qed.

Lemma isdigit_tilde : isdigit 126 = false.
Proof. done. Qed.

Lemma fragment_tilde n u x : (length u ≤ n)%nat → fragment_cmp (u ++ 126 :: x) u = Lt.
Proof.
  revert u. induction n as [|n IH]; intros u Hn.
  { destruct u; simpl in Hn; [|lia]. rewrite fragment_cmp_step by (by left). unfold block_cmp, pair_cmp, block. cbn [fst snd].
    change (_order <$> non_digits ([] ++ 126 :: x)) with ([] ++ -1 :: (_order <$> non_digits x)).
    change (_order <$> non_digits []) with (@nil Z). by rewrite digits_cmp_prefix. }
  rewrite fragment_cmp_step by (left; by destruct u). unfold block_cmp, pair_cmp, block. cbn [fst snd].
  unfold non_digits at 1. rewrite take_while_app. fold (after_non_digits u). case_bool_decide as Ha.
  - unfold non_digits. rewrite (take_while_full _ u) by done. simpl. rewrite fmap_app, fmap_cons.
    by rewrite digits_cmp_prefix.
  - fold (non_digits u). rewrite cmp_refl. cbn [lex].
    assert (Hs : after_non_digits (u ++ 126 :: x) = after_non_digits u ++ 126 :: x).
    { unfold after_non_digits. rewrite lstrip_by_app. by rewrite bool_decide_false. }
    set (w := after_non_digits u) in *. rewrite Hs.
    assert (Hz : skip_zeros (w ++ 126 :: x) = skip_zeros w ++ 126 :: x).
    { unfold skip_zeros. rewrite lstrip_by_app. case_bool_decide as Hw; [by rewrite Hw|done]. }
    assert (Hnum : number (w ++ 126 :: x) = number w).
    { unfold number. rewrite Hz, take_while_app. case_bool_decide as Hw; [|done]. simpl.
      by rewrite app_nil_r, take_while_full. }
    rewrite Hnum, cmp_refl. cbn [lex]. unfold next. rewrite Hs. fold w.
    assert (Hnext : after_number (w ++ 126 :: x) = after_number w ++ 126 :: x).
    { unfold after_number. rewrite Hz, lstrip_by_app. case_bool_decide as Hw; [by rewrite Hw|done]. }
    rewrite Hnext. apply IH. destruct (decide (u = [])) as [->|Hu]; [by vm_compute; lia|].
    pose proof (length_next u Hu). unfold next in *. fold w in H0. lia.
Qed.

(** A tilde sorts before everything, even the end of a version: [u~x] is before [u], for every upstream version [u] and
    suffix [x]. This is what makes [1.0~rc1] a predecessor of [1.0]. *)
Theorem tilde_sorts_first u x : natural u → natural x → _compare_fragment (u ++ 126 :: x) u < 0.
Proof.
  intros Hu Hx. change ((_compare_fragment (u ++ 126 :: x) u ?= 0) = Lt). rewrite compare_fragment_spec; [by eapply fragment_tilde| |done].
  apply Forall_app. split; [done|]. by constructor.
Qed.

(** The relation operators split the versions consistently: when the comparison succeeds every operator of Debian is
    decided, [<<] and [>=] are complements, [>>] and [<=] are complements, [=] is the conjunction of [<=] and [>=], and the
    deprecated [<] and [>] mean [<=] and [>=]. *)
Theorem version_satisfies_operators version required c :
  compare_versions version required = Ok c →
  version_satisfies version (lit "<<") required = Ok (c <? 0) ∧
  version_satisfies version (lit ">=") required = Ok (negb (c <? 0)) ∧
  version_satisfies version (lit ">>") required = Ok (0 <? c) ∧
  version_satisfies version (lit "<=") required = Ok (negb (0 <? c)) ∧
  version_satisfies version (lit "=") required = Ok (negb (c <? 0) && negb (0 <? c)) ∧
  version_satisfies version (lit "<") required = version_satisfies version (lit "<=") required ∧
  version_satisfies version (lit ">") required = version_satisfies version (lit ">=") required.
Proof.
  intros Hc. unfold version_satisfies. rewrite Hc. simpl. unfold mret, result_ret.
  split_and!; try done; f_equal; lia.
Qed.

(** C36: an epoch that [str.isdigit] accepts and [int] rejects, such as a superscript digit, escapes as [ValueError] instead of
    the [LockError] that the resolver's callers handle. *)
Theorem split_version_value_error epoch rest :
  58 ∉ epoch → all_digits epoch = true → py_int epoch = None →
  _split_version (epoch ++ 58 :: rest) =
    Err (ValueError "invalid literal for int() with base 10: {}" [AText epoch]).
Proof.
  intros H58 Hd Hi. unfold _split_version. rewrite (proj2 (partition_on_Some _ _ _ _) (conj eq_refl H58)).
  by rewrite Hd, Hi.
Qed.
End key.

(** ** Witnesses *)

Definition v1 : text := lit "1:2.0~rc1-3".
Definition v2 : text := lit "1:2.0-3".
Definition v3 : text := lit "1:2.0+b1-1".

Lemma compare_versions_key_witness :
  ∃ c, @compare_versions ascii_ucd v1 v2 = Ok c ∧
    (c ?= 0) = @version_cmp ascii_ucd (1, lit "2.0~rc1", lit "3") (1, lit "2.0", lit "3").
Proof.
  apply (@compare_versions_key ascii_ucd v1 v2); [apply (bool_decide_unpack _); by vm_compute..|by vm_compute|by vm_compute].
Defined.

Lemma compare_versions_preorder_witness :
  ∃ e, @compare_versions ascii_ucd v1 v3 = Ok e ∧ e <= 0 ∧ (e = 0 → -1 = 0 ∧ -299 = 0).
Proof.
  assert (Hn : ∀ v, v = v1 ∨ v = v2 ∨ v = v3 → Forall (λ c : Z, 0 <= c) v).
  { intros v Hv. apply (bool_decide_unpack _). by destruct Hv as [->|[->| ->]]; vm_compute. }
  destruct (@compare_versions_preorder ascii_ucd v1 v2 v3) as (_ & _ & Ht); [apply Hn; tauto..|].
  apply (Ht (-1) (-299)); [by vm_compute|by vm_compute|lia|lia].
Defined.

Lemma tilde_sorts_first_witness : @_compare_fragment ascii_ucd (lit "1.0" ++ 126 :: lit "rc1") (lit "1.0") < 0.
Proof. apply (@tilde_sorts_first ascii_ucd); apply (bool_decide_unpack _); by vm_compute. Defined.

Lemma version_satisfies_operators_witness :
  @version_satisfies ascii_ucd v1 (lit "<<") v2 = Ok true ∧ @version_satisfies ascii_ucd v1 (lit "=") v2 = Ok false.
Proof.
  destruct (@version_satisfies_operators ascii_ucd v1 v2 (-1)) as (H1 & _ & _ & _ & H5 & _); [by vm_compute|].
  split; [exact H1|exact H5].
Defined.

(** An interpreter that knows that U+00B2 is a digit without a decimal value. *)
Definition superscript_ucd : Ucd := {|
  ucd_isdigit := λ c, c =? 0xB2; ucd_isalpha := λ _, false; ucd_decimal := λ _, None;
  ucd_lower := λ c, [c]; ucd_upper := λ c, [c];
  ucd_cased := λ _, false; ucd_case_ignorable := λ _, false |}.

Lemma split_version_value_error_witness :
  @_split_version superscript_ucd ([0xB2] ++ 58 :: lit "1.0") =
    Err (ValueError "invalid literal for int() with base 10: {}" [AText [0xB2]]).
Proof.
  apply (@split_version_value_error superscript_ucd); [|by vm_compute..].
  apply (bool_decide_unpack _). by vm_compute.
Defined.
