(* ===== verification/DebRelation.v ===== *)
(** * Debian dependency fields: [Relation], [parse_relations] and [parse_provides] of [mkosi/debian/generate_lock.py]

    [match_relation] is the regular expression [_RELATION] as a function. Every part of the expression starts with a
    character that the part before it cannot match, so a greedy match of the parts in order finds the only split there
    is; the one real choice, between operators, tries them in the order of the expression. *)
From S2P Require Import Prelude Bytes PyText.

Record Relation := {
  r_name : text; r_arch : option text; r_operator : option text; r_version : option text }.

#[export] Instance relation_eq_dec : EqDecision Relation.
Proof. solve_decision. Defined.

(** [Relation(name)]. *)
Definition relation_named (name : text) : Relation :=
  {| r_name := name; r_arch := None; r_operator := None; r_version := None |}.

(** A [str] that is [None] or empty is false. *)
Definition truthy (o : option text) : bool := match o with Some (_ :: _) => true | _ => false end.

(** [Relation.__str__]; [%s] of [None] is the text [None]. *)
Definition relation_str (r : Relation) : text :=
  let t := r_name r ++ match r_arch r with Some (c :: a) => 58 :: c :: a | _ => [] end in
  match r_operator r with
  | Some (c :: o) => t ++ lit " (" ++ (c :: o) ++ lit " " ++ default (lit "None") (r_version r) ++ lit ")"
  | _ => t
  end.

(** ** The regular expression *)

Definition name_head (c : Z) : bool := ascii_lower c || ascii_digit c.
Definition name_char (c : Z) : bool := name_head c || (c =? 43) || (c =? 46) || (c =? 45).
Definition arch_char (c : Z) : bool := name_head c || (c =? 45).
Definition version_char (c : Z) : bool := negb (isspace c) && negb (c =? 41).

(** The package name: a lower-case letter or digit, then one or more of these, [+], [.] and [-]. *)
Definition match_name (t : text) : option (text * text) :=
  match t with
  | c :: t' =>
      let a := take_while name_char t' in
      if name_head c && negb (bool_decide (a = [])) then Some (c :: a, lstrip_by name_char t') else None
  | [] => None
  end.

(** The optional architecture qualifier [:arch]. *)
Definition match_arch (t : text) : option (option text * text) :=
  match t with
  | 58 :: t' =>
      let a := take_while arch_char t' in
      if bool_decide (a = []) then None else Some (Some a, lstrip_by arch_char t')
  | _ => Some (None, t)
  end.

Definition operators : list text := [lit "<<"; lit "<="; lit "="; lit ">="; lit ">>"; lit "<"; lit ">"].

(** The operator [op], white space, a version without white space or closing parenthesis, and the parenthesis. *)
Definition match_bound (op t : text) : option (text * text) :=
  if startswith t op then
    let t' := lstrip (drop (length op) t) in
    let v := take_while version_char t' in
    match lstrip (lstrip_by version_char t') with
    | 41 :: rest => if bool_decide (v = []) then None else Some (v, rest)
    | _ => None
    end
  else None.

Fixpoint first_bound (ops : list text) (t : text) : option (text * text * text) :=
  match ops with
  | [] => None
  | op :: ops => match match_bound op t with Some (v, rest) => Some (op, v, rest) | None => first_bound ops t end
  end.

(** White space and an optional version bound in parentheses. *)
Definition match_version (t : text) : option (option (text * text) * text) :=
  match lstrip t with
  | 40 :: t' => '(op, v, rest) ← first_bound operators (lstrip t'); Some (Some (op, v), rest)
  | t' => Some (None, t')
  end.

(** White space and an optional architecture list in brackets. *)
Definition match_architectures (t : text) : option text :=
  match lstrip t with
  | 91 :: t' => (partition_on 93 t').2
  | t' => Some t'
  end.

(** White space and build profiles such as [<!nocheck>], up to the end. *)
Fixpoint match_profiles (fuel : nat) (t : text) : bool :=
  match fuel with
  | O => false
  | S fuel =>
      match lstrip t with
      | [] => true
      | 60 :: t' => match (partition_on 62 t').2 with Some rest => match_profiles fuel rest | None => false end
      | _ => false
      end
  end.

(** [_RELATION.fullmatch(t)] *)
Definition match_relation (t : text) : option Relation :=
  '(name, t) ← match_name t;
  '(arch, t) ← match_arch t;
  '(bound, t) ← match_version t;
  t ← match_architectures t;
  if match_profiles (S (length t)) t
  then Some {| r_name := name; r_arch := arch; r_operator := fst <$> bound; r_version := snd <$> bound |}
  else None.

(** ** Dependency fields *)

Definition parse_alternative (alternative : text) : result Relation :=
  of_option (LockError "malformed Debian relation: %s" [AText (strip alternative)]) (match_relation (strip alternative)).

Definition parse_group (groups : list (list Relation)) (group_text : text) : result (list (list Relation)) :=
  if bool_decide (strip group_text = []) then mret groups
  else
    group ← foldM (λ group alternative, r ← parse_alternative alternative; mret (group ++ [r])) []
      (split_on 124 group_text);
    mret (groups ++ [group]).

Definition parse_relations (value : option text) : result (list (list Relation)) :=
  foldM parse_group [] (split_on 44 (replace_char 10 [32] (default [] value))).

Definition parse_provides (value : option text) : result (list (text * option text)) :=
  groups ← parse_relations value;
  foldM (λ provides group,
    match group with
    | [relation] =>
        require (match r_operator relation with None => true | Some o => bool_decide (o = lit "=") end)
          (LockError "Provides may only use exact versions: %s" [AText (relation_str relation)]);;
        mret (provides ++ [(r_name relation, r_version relation)])
    | _ => Err (LockError "Provides cannot contain alternatives" [])
    end) [] groups.

Definition _format_group (group : list Relation) : text := join (lit " | ") (relation_str <$> group).

(** The field text of dependency groups. *)
Definition format_groups (groups : list (list Relation)) : text := join (lit ", ") (_format_group <$> groups).

(** ** Round trip *)

Definition plain_version_char (c : Z) : bool := version_char c && negb (c =? 44) && negb (c =? 124).

Definition plain_relation (r : Relation) : bool :=
  match r_name r with
  | c :: a => name_head c && negb (bool_decide (a = [])) && forallb name_char a
  | [] => false
  end &&
  match r_arch r with Some a => negb (bool_decide (a = [])) && forallb arch_char a | None => true end &&
  match r_operator r, r_version r with
  | Some o, Some v => bool_decide (o ∈ operators) && negb (bool_decide (v = [])) && forallb plain_version_char v
  | None, None => true
  | _, _ => false
  end.

Lemma take_while_stop f t u :
  forallb f t = true → match u with c :: _ => f c = false | [] => True end → take_while f (t ++ u) = t.
Proof.
  induction t as [|c t IH]; simpl; intros Ht Hu.
  - destruct u as [|c u]; simpl; [done|]. by rewrite Hu.
  - bool_inv. by rewrite H, IH.
Qed.

Lemma lstrip_stop f t u :
  forallb f t = true → match u with c :: _ => f c = false | [] => True end → lstrip_by f (t ++ u) = u.
Proof.
  induction t as [|c t IH]; simpl; intros Ht Hu.
  - destruct u as [|c u]; simpl; [done|]. by rewrite Hu.
  - bool_inv. by rewrite H, IH.
Qed.

Lemma forallb_not_elem f (c : Z) t : forallb f t = true → f c = false → c ∉ t.
Proof. intros Ht Hc Hin. rewrite forallb_forall in Ht. apply list_elem_of_In in Hin. rewrite Ht in Hc; done. Qed.

(** What follows the name and the architecture of a printed relation. *)
Definition stops (u : text) : Prop := match u with [] => True | c :: _ => c = 32 end.

Lemma stops_chars u f : stops u → f 32 = false → match u with c :: _ => f c = false | [] => True end.
Proof. destruct u as [|c u]; simpl; [done|]. by intros ->. Qed.

Lemma match_name_print c a u :
  name_head c = true → a ≠ [] → forallb name_char a = true → match u with x :: _ => name_char x = false | [] => True end →
  match_name ((c :: a) ++ u) = Some (c :: a, u).
Proof.
  intros Hc Ha Hf Hu. simpl. rewrite take_while_stop, lstrip_stop, Hc by done. by rewrite bool_decide_false.
Qed.

Lemma match_arch_print a u :
  a ≠ [] → forallb arch_char a = true → stops u → match_arch (58 :: a ++ u) = Some (Some a, u).
Proof.
  intros Ha Hf Hu. simpl. rewrite take_while_stop, lstrip_stop by (done || by apply stops_chars).
  by rewrite bool_decide_false.
Qed.

Lemma match_arch_none u : stops u → match_arch u = Some (None, u).
Proof. destruct u as [|c u]; [done|]. by intros ->. Qed.

Lemma match_bound_print op v rest :
  v ≠ [] → forallb version_char v = true → match_bound op (op ++ 32 :: v ++ 41 :: rest) = Some (v, rest).
Proof.
  intros Hv Hf. unfold match_bound. rewrite startswith_app, drop_app_length.
  assert (Hl : lstrip (32 :: v ++ 41 :: rest) = v ++ 41 :: rest).
  { unfold lstrip. simpl. destruct v as [|c v]; [done|]. simpl in *. bool_inv. unfold version_char in *. bool_inv.
    by rewrite H. }
  rewrite Hl, take_while_stop, lstrip_stop by done. simpl. by rewrite bool_decide_false.
Qed.

Lemma first_bound_print op v rest :
  op ∈ operators → v ≠ [] → forallb version_char v = true →
  first_bound operators (op ++ 32 :: v ++ 41 :: rest) = Some (op, v, rest).
Proof.
  intros Hop Hv Hf. assert (Hp := match_bound_print op v rest Hv Hf). unfold operators in *.
  repeat (apply elem_of_cons in Hop as [->|Hop]; [
    cbn [first_bound];
    repeat match goal with |- context [match_bound ?o ?t] =>
      first [rewrite Hp; reflexivity | replace (match_bound o t) with (@None (text * text)) by reflexivity] end|]).
  by apply elem_of_nil in Hop.
Qed.

Lemma version_char_plain v : forallb plain_version_char v = true → forallb version_char v = true.
Proof.
  rewrite !forallb_forall. intros Hv c Hc. specialize (Hv c Hc). unfold plain_version_char in Hv. by bool_inv.
Qed.

(** The printed bound of a relation. *)
Definition bound_str (o v : option text) : text :=
  match o, v with Some o, Some v => 32 :: 40 :: o ++ 32 :: v ++ [41] | _, _ => [] end.

Lemma relation_str_plain r :
  plain_relation r = true →
  relation_str r = r_name r ++ match r_arch r with Some a => 58 :: a | None => [] end ++ bound_str (r_operator r) (r_version r).
Proof.
  unfold plain_relation, relation_str, bound_str. intros Hp. bool_inv.
  assert (Ha : match r_arch r with Some (c :: a) => 58 :: c :: a | _ => [] end = match r_arch r with Some a => 58 :: a | None => [] end).
  { by destruct (r_arch r) as [[|c a]|]; [done|..]. }
  rewrite Ha. destruct (r_operator r) as [o|], (r_version r) as [v|]; try done; [|by rewrite app_nil_r].
  bool_inv. destruct o as [|c o].
  { by apply (bool_decide_pack _) in H0. }
  simpl. by rewrite <- !(assoc_L (++)).
Qed.

Lemma match_version_print o v :
  match o, v with Some o, Some v => o ∈ operators ∧ v ≠ [] ∧ forallb version_char v = true | None, None => True | _, _ => False end →
  match_version (bound_str o v) = Some (match o, v with Some o, Some v => Some (o, v) | _, _ => None end, []).
Proof.
  destruct o as [o|], v as [v|]; try done. intros (Ho & Hv & Hf). unfold match_version, bound_str.
  change (lstrip (32 :: ?t)) with (lstrip t). change (lstrip (40 :: ?t)) with (40 :: t).
  assert (Hl : lstrip (o ++ 32 :: v ++ [41]) = o ++ 32 :: v ++ [41]).
  { unfold operators in Ho. repeat (apply elem_of_cons in Ho as [->|Ho]; [done|]). by apply elem_of_nil in Ho. }
  cbn beta iota. rewrite Hl, first_bound_print by done. done.
Qed.

Lemma match_relation_print r : plain_relation r = true → match_relation (relation_str r) = Some r.
Proof.
  intros Hp. rewrite relation_str_plain by done. unfold plain_relation in Hp.
  destruct r as [[|c a] arch o v]; cbn [r_name r_arch r_operator r_version] in *; [done|]. bool_inv.
  assert (Hs : stops (bound_str o v)) by (by destruct o, v).
  assert (Hv : match_version (bound_str o v) = Some (match o, v with Some o, Some v => Some (o, v) | _, _ => None end, [])).
  { apply match_version_print. destruct o, v; try done. bool_inv. auto using version_char_plain. }
  unfold match_relation. rewrite match_name_print; [|done|done|done|].
  2: { destruct arch; simpl; [done|]. by apply stops_chars. }
  cbn [mbind option_bind].
  assert (Harch : match_arch (match arch with Some a => 58 :: a | None => [] end ++ bound_str o v) = Some (arch, bound_str o v)).
  { destruct arch as [b|]; [|by apply match_arch_none]. bool_inv. rewrite <- app_comm_cons. by apply match_arch_print. }
  rewrite Harch. cbn [mbind option_bind]. rewrite Hv. cbn [mbind option_bind]. by destruct o, v.
Qed.

Lemma strip_pad a s b c d :
  Forall (λ c, isspace c = true) a → Forall (λ c, isspace c = true) b → isspace c = false → isspace d = false →
  (∃ u, s = c :: u) → (∃ u, s = u ++ [d]) → strip (a ++ s ++ b) = s.
Proof.
  intros Ha Hb Hc Hd [u Hu] [w Hw]. unfold strip, rstrip, rstrip_by, lstrip.
  assert (Hl : ∀ x y z, Forall (λ c, isspace c = true) x → isspace y = false → lstrip_by isspace (x ++ y :: z) = y :: z).
  { intros x y z Hx Hy. induction Hx as [|e x He Hx IH]; simpl; [by rewrite Hy|]. by rewrite He. }
  rewrite Hu at 1. rewrite <- app_comm_cons, Hl by done. rewrite app_comm_cons, <- Hu, Hw, !reverse_app. simpl.
  change (reverse [d]) with [d]. simpl. rewrite Hl by (done || by apply Forall_reverse).
  by rewrite reverse_cons, reverse_involutive.
Qed.

Lemma name_char_not_space c : name_char c = true → isspace c = false.
Proof. unfold name_char, name_head, ascii_lower, ascii_digit, isspace. lia. Qed.
Lemma arch_char_not_space c : arch_char c = true → isspace c = false.
Proof. unfold arch_char, name_head, ascii_lower, ascii_digit, isspace. lia. Qed.
Lemma name_head_char c : name_head c = true → name_char c = true.
Proof. unfold name_char. intros ->. done. Qed.

Lemma forallb_snoc f (t : text) : t ≠ [] → forallb f t = true → ∃ u d, t = u ++ [d] ∧ f d = true.
Proof.
  intros Ht Hf. destruct t as [|d u _] using rev_ind; [done|]. exists u, d. split; [done|].
  rewrite forallb_app in Hf. simpl in Hf. by bool_inv.
Qed.

(** A printed relation starts and ends with a character that is no white space, and has no separator. *)
Lemma relation_str_ends r :
  plain_relation r = true →
  ∃ c d, isspace c = false ∧ isspace d = false ∧ (∃ u, relation_str r = c :: u) ∧ (∃ u, relation_str r = u ++ [d]).
Proof.
  intros Hp. rewrite relation_str_plain by done. unfold plain_relation in Hp.
  destruct r as [[|c a] arch o v]; cbn [r_name r_arch r_operator r_version] in *; [done|]. bool_inv.
  assert (Hend : ∃ d u, isspace d = false ∧
    (c :: a) ++ match arch with Some a => 58 :: a | None => [] end ++ bound_str o v = u ++ [d]).
  { destruct o as [o|], v as [v|]; try done.
    - exists 41. eexists. split; [done|]. unfold bound_str.
      rewrite !app_comm_cons, !(assoc_L (++)). done.
    - simpl. rewrite app_nil_r. destruct arch as [b|].
      + bool_inv. destruct (forallb_snoc arch_char b) as (u & d & -> & Hd); [done..|].
        exists d, ((c :: a) ++ 58 :: u). split; [by apply arch_char_not_space|]. simpl. by rewrite <- (assoc_L (++)).
      + destruct (forallb_snoc name_char a) as (u & d & -> & Hd); [done..|].
        exists d, (c :: u). split; [by apply name_char_not_space|]. by rewrite app_nil_r. }
  destruct Hend as (d & u & Hd & Heq). exists c, d. split_and!; [|done| |by exists u].
  - by apply name_char_not_space, name_head_char.
  - eexists. by rewrite <- app_comm_cons.
Qed.

Lemma relation_str_separators r c :
  plain_relation r = true → c = 10 ∨ c = 44 ∨ c = 124 → c ∉ relation_str r.
Proof.
  intros Hp Hc. rewrite relation_str_plain by done. unfold plain_relation in Hp.
  destruct r as [[|h a] arch o v]; cbn [r_name r_arch r_operator r_version] in *; [done|]. bool_inv.
  rewrite not_elem_of_app. split; [|rewrite not_elem_of_app; split].
  - apply (forallb_not_elem name_char); [simpl; by rewrite (name_head_char _ H)|]. by destruct Hc as [->|[->| ->]].
  - destruct arch as [b|]; [|apply not_elem_of_nil]. bool_inv. apply not_elem_of_cons. split; [lia|].
    apply (forallb_not_elem arch_char); [done|]. by destruct Hc as [->|[->| ->]].
  - destruct o as [o|], v as [v|]; try done; try apply not_elem_of_nil. bool_inv. unfold bound_str.
    rewrite !not_elem_of_cons, !not_elem_of_app, not_elem_of_cons, not_elem_of_app. split_and!; try lia.
    + unfold operators in *. apply (bool_decide_unpack _).
      repeat (apply elem_of_cons in H0 as [->|H0]; [by destruct Hc as [->|[->| ->]]|]). by apply elem_of_nil in H0.
    + apply (forallb_not_elem plain_version_char); [done|]. by destruct Hc as [->|[->| ->]].
    + apply not_elem_of_cons. split; [lia|apply not_elem_of_nil].
Qed.

Lemma parse_alternative_print r a b :
  plain_relation r = true → Forall (λ c, isspace c = true) a → Forall (λ c, isspace c = true) b →
  parse_alternative (a ++ relation_str r ++ b) = Ok r.
Proof.
  intros Hp Ha Hb. destruct (relation_str_ends r Hp) as (c & d & Hc & Hd & Hh & Ht).
  unfold parse_alternative. rewrite (strip_pad a _ b c d) by done. by rewrite match_relation_print.
Qed.

Lemma parse_alternatives_print rs r a acc :
  Forall (λ r, plain_relation r = true) (r :: rs) → Forall (λ c, isspace c = true) a → 124 ∉ a →
  foldM (λ group alternative, r ← parse_alternative alternative; mret (group ++ [r])) acc
    (split_on 124 (a ++ _format_group (r :: rs))) = Ok (acc ++ r :: rs).
Proof.
  revert r a acc. induction rs as [|q rs IH]; intros r a acc Hr Ha Hna.
  - inv Hr. unfold _format_group. simpl.
    rewrite split_on_absent by (apply not_elem_of_app; split; [done|by apply relation_str_separators; auto]).
    simpl. rewrite <- (app_nil_r (a ++ relation_str r)), <- (assoc_L (++)).
    by rewrite parse_alternative_print by (done || constructor).
  - inv Hr. unfold _format_group. rewrite !fmap_cons, join_cons2.
    replace (a ++ relation_str r ++ lit " | " ++ join (lit " | ") (relation_str q :: (relation_str <$> rs)))
      with ((a ++ relation_str r ++ [32]) ++ 124 :: [32] ++ _format_group (q :: rs)).
    2: { rewrite <- !(assoc_L (++)). done. }
    rewrite split_on_app.
    2: { rewrite !not_elem_of_app. split_and!; [done|by apply relation_str_separators; auto|set_solver]. }
    cbn [foldM]. rewrite parse_alternative_print by (done || by repeat constructor). cbn [mbind result_bind mret result_ret].
    rewrite IH; [|done|by repeat constructor|set_solver]. by rewrite <- (assoc_L (++)).
Qed.

Lemma format_group_separators g c :
  Forall (λ r, plain_relation r = true) g → c = 10 ∨ c = 44 → c ∉ _format_group g.
Proof.
  intros Hg Hc. unfold _format_group. induction Hg as [|r g Hr Hg IH]; [apply not_elem_of_nil|].
  assert (c ∉ relation_str r) by (apply relation_str_separators; tauto).
  destruct g as [|q g]; [done|]. rewrite !fmap_cons, join_cons2, !not_elem_of_app. split_and!; [done| |done].
  destruct Hc as [->| ->]; apply (bool_decide_unpack _); by vm_compute.
Qed.

Definition plain_group (g : list Relation) : Prop := g ≠ [] ∧ Forall (λ r, plain_relation r = true) g.

Lemma strip_format_group g a : plain_group g → strip (a ++ _format_group g) ≠ [].
Proof.
  intros [Hne Hg] Hs. apply strip_nil, Forall_app in Hs as [_ Hs]. destruct g as [|r g]; [done|]. inv Hg.
  destruct (relation_str_ends r) as (c & d & Hc & _ & [u Hu] & _); [done|].
  unfold _format_group in Hs. destruct g; [simpl in Hs|rewrite !fmap_cons, join_cons2 in Hs];
    rewrite Hu in Hs; inv Hs; congruence.
Qed.

Lemma parse_group_print g a acc :
  plain_group g → Forall (λ c, isspace c = true) a → 124 ∉ a → parse_group acc (a ++ _format_group g) = Ok (acc ++ [g]).
Proof.
  intros Hg Ha Hn. unfold parse_group. rewrite bool_decide_false by (by apply strip_format_group).
  destruct Hg as [Hne Hg]. destruct g as [|r rs]; [done|]. by rewrite parse_alternatives_print.
Qed.

Lemma parse_groups_print gs g a acc :
  Forall plain_group (g :: gs) → Forall (λ c, isspace c = true) a → 44 ∉ a → 124 ∉ a →
  foldM parse_group acc (split_on 44 (a ++ format_groups (g :: gs))) = Ok (acc ++ g :: gs).
Proof.
  revert g a acc. induction gs as [|h gs IH]; intros g a acc Hg Ha H44 H124.
  - inv Hg. unfold format_groups. simpl.
    rewrite split_on_absent by (apply not_elem_of_app; split; [done|apply format_group_separators; [by destruct H1|auto]]).
    cbn [foldM]. by rewrite parse_group_print.
  - inv Hg. unfold format_groups. rewrite !fmap_cons, join_cons2.
    replace (a ++ _format_group g ++ lit ", " ++ join (lit ", ") (_format_group h :: (_format_group <$> gs)))
      with ((a ++ _format_group g) ++ 44 :: [32] ++ format_groups (h :: gs)) by (by rewrite <- !(assoc_L (++))).
    rewrite split_on_app.
    2: { rewrite !not_elem_of_app. split; [done|]. apply format_group_separators; [by destruct H1|auto]. }
    cbn [foldM]. rewrite parse_group_print by done. cbn [mbind result_bind mret result_ret].
    rewrite IH; [|done|by repeat constructor|set_solver..]. by rewrite <- (assoc_L (++)).
Qed.

Lemma replace_char_absent c by_ t : c ∉ t → replace_char c by_ t = t.
Proof.
  unfold replace_char. induction t as [|x t IH]; intros Hn; [done|]. rewrite bind_cons.
  destruct (Z.eqb_spec x c) as [->|]; [set_solver|]. simpl. rewrite IH; [done|set_solver].
Qed.

Lemma format_groups_newline gs : Forall plain_group gs → 10 ∉ format_groups gs.
Proof.
  unfold format_groups. induction 1 as [|g gs [_ Hg] Hgs IH]; [apply not_elem_of_nil|].
  assert (10 ∉ _format_group g) by (apply format_group_separators; auto).
  destruct gs as [|h gs]; [done|]. rewrite !fmap_cons, join_cons2, !not_elem_of_app. split_and!; [done| |done].
  apply (bool_decide_unpack _). by vm_compute.
Qed.

(** ** What parsing guarantees *)

(** The operator is one of Debian's, and it comes with a version. *)
Definition relation_ok (r : Relation) : Prop :=
  match r_operator r with Some o => o ∈ operators ∧ ∃ v, r_version r = Some v ∧ v ≠ [] | None => r_version r = None end.

Lemma first_bound_Some ops t op v rest : first_bound ops t = Some (op, v, rest) → op ∈ ops ∧ v ≠ [].
Proof.
  induction ops as [|o ops IH]; simpl; [done|]. destruct (match_bound o t) as [[v' rest']|] eqn:E.
  - intros. simplify_eq. split; [by left|]. unfold match_bound in E. repeat case_match; simplify_eq. by case_bool_decide.
  - intros Hf. destruct (IH Hf). split; [by right|done].
Qed.

Lemma match_relation_ok t r : match_relation t = Some r → relation_ok r.
Proof.
  unfold match_relation. intros Hm.
  destruct (match_name t) as [[name t1]|]; cbn [mbind option_bind] in Hm; [|done].
  destruct (match_arch t1) as [[arch t2]|]; cbn [mbind option_bind] in Hm; [|done].
  destruct (match_version t2) as [[bound t3]|] eqn:E; cbn [mbind option_bind] in Hm; [|done].
  destruct (match_architectures t3) as [t4|]; cbn [mbind option_bind] in Hm; [|done].
  destruct (match_profiles _ _); [|done]. simplify_eq. unfold relation_ok. simpl. destruct bound as [[op v]|]; simpl; [|done].
  unfold match_version in E. repeat case_match; simplify_eq.
  match type of E with ?m ≫= _ = _ => destruct m as [[[op' v'] rest]|] eqn:Ef end; cbn [mbind option_bind] in E; [|done].
  apply first_bound_Some in Ef as [Hop Hv]. injection E as <- <- <-. eauto.
Qed.

Lemma parse_alternative_spec t :
  raises is_lock_error (parse_alternative t) ∧ ∀ r, parse_alternative t = Ok r → relation_ok r.
Proof.
  unfold parse_alternative. destruct (match_relation _) eqn:E; simpl; split; try done.
  - intros r' [= <-]. by eapply match_relation_ok.
  - apply lock_error.
Qed.

Lemma parse_relations_spec value :
  raises is_lock_error (parse_relations value) ∧ ∀ gs, parse_relations value = Ok gs → Forall (Forall relation_ok) gs.
Proof.
  unfold parse_relations. split.
  - apply raises_foldM. intros gs t _. unfold parse_group. case_bool_decide; [done|].
    apply raises_bind; [|done]. apply raises_foldM. intros g a _. apply raises_bind; [|done]. apply parse_alternative_spec.
  - intros gs Hgs. eapply (foldM_inv (Forall (Forall relation_ok))); [|constructor|exact Hgs].
    intros s t s' _ Hs Hp. unfold parse_group in Hp. case_bool_decide; res_inv; [done|].
    apply Forall_app. split; [done|]. constructor; [|constructor].
    eapply (foldM_inv (Forall relation_ok)); [|constructor|exact H0].
    intros g a g' _ Hg Ha. cbn beta in Ha. res_inv. apply Forall_app. split; [done|]. constructor; [|constructor].
    by eapply parse_alternative_spec.
Qed.

(** Parsing inverts printing for dependency fields. Groups of relations printed with [Relation.__str__], joined with
    [" | "] inside a group and [", "] between groups, parse to the same groups, for all names, architectures, operators
    and versions that the grammar allows. *)
Theorem parse_relations_format groups :
  Forall plain_group groups → parse_relations (Some (format_groups groups)) = Ok groups.
Proof.
  intros Hg. unfold parse_relations. cbn [default]. rewrite replace_char_absent by (by apply format_groups_newline).
  destruct groups as [|g gs]; [done|]. by apply (parse_groups_print gs g []); [|constructor|apply not_elem_of_nil..].
Qed.

Definition demo_groups : list (list Relation) :=
  [[{| r_name := lit "libc6"; r_arch := None; r_operator := Some (lit ">="); r_version := Some (lit "2.41") |}];
   [{| r_name := lit "awk"; r_arch := Some (lit "any"); r_operator := None; r_version := None |};
    {| r_name := lit "mawk"; r_arch := None; r_operator := Some (lit "<"); r_version := Some (lit "<1") |}]].

Lemma parse_relations_format_witness : parse_relations (Some (format_groups demo_groups)) = Ok demo_groups.
Proof. apply (parse_relations_format demo_groups). apply (bool_decide_unpack _). by vm_compute. Defined.
