(* ===== verification/DebUniverse.v ===== *)
(** * Package indexes and the package universe of [mkosi/debian/generate_lock.py]

    [Package], [_package_record], [parse_packages] and the class [Universe] with its preference order. *)
From S2P Require Import Prelude Bytes PyText Collections DebControl DebVersion DebRelation.

Definition ARCHITECTURE : text := lit "amd64".
Definition INDEX_ARCHITECTURES : list text := [ARCHITECTURE; lit "all"].
Definition _PRIORITY_RANK : dict text Z :=
  [(lit "required", 0); (lit "important", 1); (lit "standard", 2); (lit "optional", 3); (lit "extra", 4)].

Record Package := {
  pkg_name : text; pkg_version : text; pkg_architecture : text; pkg_component : text; pkg_filename : text;
  pkg_size : Z; pkg_sha256 : text; pkg_multi_arch : text; pkg_essential : bool; pkg_priority : text;
  pkg_pre_depends : list (list Relation); pkg_depends : list (list Relation);
  pkg_provides : list (text * option text) }.

#[export] Instance package_eq_dec : EqDecision Package.
Proof. solve_decision. Defined.

(** [dataclasses.replace(package, component=component)]. *)
Definition with_component (p : Package) (component : text) : Package :=
  {| pkg_name := pkg_name p; pkg_version := pkg_version p; pkg_architecture := pkg_architecture p;
     pkg_component := component; pkg_filename := pkg_filename p; pkg_size := pkg_size p; pkg_sha256 := pkg_sha256 p;
     pkg_multi_arch := pkg_multi_arch p; pkg_essential := pkg_essential p; pkg_priority := pkg_priority p;
     pkg_pre_depends := pkg_pre_depends p; pkg_depends := pkg_depends p; pkg_provides := pkg_provides p |}.

Definition lock_key (name version architecture : text) : text :=
  replace_char 43 (lit "-p-") name ++ lit "_" ++
  replace_char 126 (lit "-t-") (replace_char 43 (lit "-p-") (replace_char 58 (lit "-") version)) ++ lit "_" ++ architecture.

(** [Package.key]. *)
Definition key (p : Package) : text := lock_key (pkg_name p) (pkg_version p) (pkg_architecture p).

(** [re.fullmatch(r"[0-9a-f]{64}", t)]. *)
Definition is_sha256_hex (t : text) : bool :=
  (len t =? 64) && forallb (λ c, ascii_digit c || ((97 <=? c) && (c <=? 102))) t.

Definition text_or_none (o : option text) : arg := match o with Some t => AText t | None => AStr "None" end.

(** The [identity] of a record: its version and architecture. *)
Abbreviation version_arch := (text * text)%type.

Section index.
Context `{Ucd}.

(** [paragraphs] of [generate_lock.py]: the control parser with its [ValueError] as a [LockError]. *)
Definition lock_paragraphs (t : text) : result (list paragraph) :=
  recast (λ e, match e with ValueError _ _ => true | _ => false end)
    (λ e, match e with ValueError fmt args => LockError fmt args | e => e end) (paragraphs t).

Definition _package_record (paragraph : paragraph) (component index_architecture : text) : result Package :=
  let architecture := dget (lit "Architecture") paragraph in
  require (match architecture with Some a => bool_decide (a ∈ INDEX_ARCHITECTURES) | None => false end)
    (LockError "unsupported package architecture: %s" [text_or_none architecture]);;
  raise_if (bool_decide (index_architecture = lit "all") && bool_decide (architecture ≠ Some (lit "all")))
    (LockError "binary-all index contains non-all package" []);;
  let size := default [] (dget (lit "Size") paragraph) in
  let digest := default [] (dget (lit "SHA256") paragraph) in
  let filename := default [] (dget (lit "Filename") paragraph) in
  raise_if (negb (truthy (dget (lit "Package") paragraph)) || negb (truthy (dget (lit "Version") paragraph)) ||
            negb (all_digits size) || negb (is_sha256_hex digest) || negb (startswith filename (lit "pool/")))
    (LockError "incomplete package metadata: %s" [text_or_none (dget (lit "Package") paragraph)]);;
  size ← of_option (ValueError "invalid literal for int() with base 10: {}" [AText size]) (py_int size);
  pre_depends ← parse_relations (dget (lit "Pre-Depends") paragraph);
  depends ← parse_relations (dget (lit "Depends") paragraph);
  provides ← parse_provides (dget (lit "Provides") paragraph);
  mret {| pkg_name := default [] (dget (lit "Package") paragraph);
          pkg_version := default [] (dget (lit "Version") paragraph);
          pkg_architecture := default [] architecture; pkg_component := component; pkg_filename := filename;
          pkg_size := size; pkg_sha256 := digest;
          pkg_multi_arch := default (lit "no") (dget (lit "Multi-Arch") paragraph);
          pkg_essential := bool_decide (dget (lit "Essential") paragraph = Some (lit "yes"));
          pkg_priority := default (lit "optional") (dget (lit "Priority") paragraph);
          pkg_pre_depends := pre_depends; pkg_depends := depends; pkg_provides := provides |}.

Definition parse_packages (t component index_architecture : text) : result (list Package) :=
  ps ← lock_paragraphs t;
  mapM (λ p, _package_record p component index_architecture) ps.

(** ** [Universe] *)

Record Universe := { u_packages : dict text (list Package); u_providers : dict text (list (Package * option text)) }.

(** One step of the loop that groups the records by name. *)
Definition add_record (by_name : dict text (dict version_arch Package)) (package : Package) :
    result (dict text (dict version_arch Package)) :=
  let id := (pkg_version package, pkg_architecture package) in
  let known := default [] (dget (pkg_name package) by_name) in
  match dget id known with
  | None => mret (dset (pkg_name package) (dset id package known) by_name)
  | Some previous =>
      raise_if (bool_decide (previous ≠ with_component package (pkg_component previous)))
        (LockError "conflicting duplicate package metadata: %s" [AText (pkg_name package)]);;
      mret by_name
  end.

Definition newest_first (left right : Package) : result Z := compare_versions (pkg_version right) (pkg_version left).

Definition add_provider (package : Package) (providers : dict text (list (Package * option text)))
    (provided : text * option text) : dict text (list (Package * option text)) :=
  dset provided.1 (default [] (dget provided.1 providers) ++ [(package, provided.2)]) providers.

Definition priority_rank (p : Package) : Z := default (len _PRIORITY_RANK) (dget (pkg_priority p) _PRIORITY_RANK).

(** The order of the keys [(rank, name)]. *)
Definition provider_lt (a b : Package * option text) : bool :=
  (priority_rank a.1 <? priority_rank b.1) ||
  ((priority_rank a.1 =? priority_rank b.1) && negb (text_leb (pkg_name b.1) (pkg_name a.1))).

(** [Universe.__init__]. *)
Definition universe (packages : list Package) : result Universe :=
  by_name ← foldM add_record [] packages;
  u ← foldM (λ u '(name, candidates),
    ordered ← sortM newest_first (dvalues candidates);
    mret {| u_packages := dset name ordered (u_packages u);
            u_providers := foldl (λ ps package, foldl (add_provider package) ps (pkg_provides package))
                             (u_providers u) ordered |})
    {| u_packages := []; u_providers := [] |} by_name;
  mret {| u_packages := u_packages u; u_providers := prod_map id (stable_sort provider_lt) <$> u_providers u |}.

(** [Universe.packages]. *)
Definition packages (u : Universe) : list Package := mjoin (dvalues (u_packages u)).

Definition newest (u : Universe) (name : text) : option Package := head (default [] (dget name (u_packages u))).

Definition _architecture_matches (package : Package) (qualifier : option text) : bool :=
  if match qualifier with
     | None => true
     | Some q => bool_decide (q ∈ [lit "any"; lit "native"; ARCHITECTURE])
     end
  then bool_decide (pkg_architecture package ∈ INDEX_ARCHITECTURES)
  else bool_decide (pkg_multi_arch package = lit "foreign").

(** [not relation.operator or version_satisfies(version, relation.operator, relation.version)]. *)
Definition bound_holds (version : text) (relation : Relation) : result bool :=
  if truthy (r_operator relation)
  then version_satisfies version (default [] (r_operator relation)) (default [] (r_version relation))
  else mret true.

Definition own_candidate (relation : Relation) (result : list Package) (package : Package) : Prelude.result (list Package) :=
  if _architecture_matches package (r_arch relation) then
    ok ← bound_holds (pkg_version package) relation;
    mret (if ok : bool then result ++ [package] else result)
  else mret result.

Definition provider_candidate (relation : Relation) (result : list Package) (entry : Package * option text) :
    Prelude.result (list Package) :=
  let '(package, provided_version) := entry in
  if negb (_architecture_matches package (r_arch relation)) || bool_decide (package ∈ result) then mret result
  else if truthy (r_operator relation) then
    match provided_version with
    | None => mret result
    | Some v =>
        ok ← bound_holds v relation;
        mret (if ok : bool then result ++ [package] else result)
    end
  else mret (result ++ [package]).

Definition candidates (u : Universe) (relation : Relation) : result (list Package) :=
  own ← foldM (own_candidate relation) [] (default [] (dget (r_name relation) (u_packages u)));
  foldM (provider_candidate relation) own (default [] (dget (r_name relation) (u_providers u))).
End index.

(** ** The representation invariant of the universe *)

Section invariant.
Context `{Ucd}.

Record universe_ok (u : Universe) : Prop := {
  uo_dict : dict_ok (u_packages u);
  uo_names : ∀ n l, (n, l) ∈ u_packages u → l ≠ [] ∧ ∀ p, p ∈ l → pkg_name p = n;
  uo_providers : ∀ n es p v, (n, es) ∈ u_providers u → (p, v) ∈ es → p ∈ packages u ∧ (n, v) ∈ pkg_provides p;
  uo_providers_dict : dict_ok (u_providers u);
  uo_provided : ∀ n p v, p ∈ packages u → (n, v) ∈ pkg_provides p → ∃ es, (n, es) ∈ u_providers u ∧ (p, v) ∈ es;
}.

Lemma elem_packages u p : p ∈ packages u ↔ ∃ n l, (n, l) ∈ u_packages u ∧ p ∈ l.
Proof.
  unfold packages, dvalues. rewrite list_elem_of_join. split.
  - intros (l & Hp & ([n l'] & -> & Hin)%list_elem_of_fmap). eauto.
  - intros (n & l & Hin & Hp). exists l. split; [done|]. by apply (list_elem_of_fmap_2 snd) in Hin.
Qed.

Lemma packages_named u n p : universe_ok u → p ∈ default [] (dget n (u_packages u)) ↔ p ∈ packages u ∧ pkg_name p = n.
Proof.
  intros [Hd Hn _ _ _]. rewrite elem_packages. split.
  - destruct (dget n (u_packages u)) as [l|] eqn:E; simpl; [|intros []%elem_of_nil].
    apply dget_Some_elem in E. intros Hp. split; [eauto|]. by eapply Hn.
  - intros ((n' & l & Hin & Hp) & <-). assert (pkg_name p = n') as -> by (by eapply Hn).
    by rewrite (elem_dget _ _ _ Hd Hin).
Qed.

(** The records by name: every entry is filed under its name and its version and architecture. *)
Definition by_name_ok (b : dict text (dict version_arch Package)) : Prop :=
  dict_ok b ∧ ∀ n d, (n, d) ∈ b → d ≠ [] ∧ dict_ok d ∧
    ∀ id p, (id, p) ∈ d → pkg_name p = n ∧ id = (pkg_version p, pkg_architecture p).

Lemma dset_not_nil {K V} `{EqDecision K} (k : K) (v : V) d : dset k v d ≠ [].
Proof. destruct d as [|[k' v'] d]; simpl; [done|]. by case_decide. Qed.

Lemma add_record_ok b p b' : by_name_ok b → add_record b p = Ok b' → by_name_ok b'.
Proof.
  intros [Hd Hb] Ha. unfold add_record in Ha.
  destruct (dget _ (default [] _)) as [prev|] eqn:E; res_inv; [by split|].
  split; [by apply dict_ok_dset|]. intros n d [Heq|Hin]%elem_dset; [|by apply Hb].
  simplify_eq. split; [apply dset_not_nil|]. destruct (dget (pkg_name p) b) as [d|] eqn:E'; simpl.
  - apply dget_Some_elem in E'. destruct (Hb _ _ E') as (_ & Hdd & Hall). split; [by apply dict_ok_dset|].
    intros id q [?|?]%elem_dset; [by simplify_eq|by apply Hall].
  - split; [apply NoDup_singleton|]. intros id q Hq%list_elem_of_singleton. by simplify_eq.
Qed.

(** What an iteration of the second loop adds. *)
Definition universe_step (u : Universe) (item : text * dict version_arch Package) : result Universe :=
  let '(name, candidates) := item in
  ordered ← sortM newest_first (dvalues candidates);
  mret {| u_packages := dset name ordered (u_packages u);
          u_providers := foldl (λ ps package, foldl (add_provider package) ps (pkg_provides package))
                           (u_providers u) ordered |}.

Lemma add_provider_elem p ps e n es q v :
  (n, es) ∈ add_provider p ps e → (q, v) ∈ es →
  (q = p ∧ (n, v) = e) ∨ ∃ es', (n, es') ∈ ps ∧ (q, v) ∈ es'.
Proof.
  unfold add_provider. intros [Heq|Hin]%elem_dset Hq; [|right; eauto]. simplify_eq.
  apply elem_of_app in Hq as [Hq|Hq%list_elem_of_singleton].
  - right. destruct (dget e.1 ps) as [es|] eqn:E; simpl in Hq; [|by apply elem_of_nil in Hq].
    exists es. split; [by apply dget_Some_elem|done].
  - left. simplify_eq. by destruct e.
Qed.

Lemma add_providers_elem ordered ps n es q v :
  (n, es) ∈ foldl (λ ps package, foldl (add_provider package) ps (pkg_provides package)) ps ordered → (q, v) ∈ es →
  (q ∈ ordered ∧ (n, v) ∈ pkg_provides q) ∨ ∃ es', (n, es') ∈ ps ∧ (q, v) ∈ es'.
Proof.
  revert ps es. induction ordered as [|p ordered IH]; intros ps es Hin Hq; simpl in Hin; [right; eauto|].
  destruct (IH _ _ Hin Hq) as [[? ?]|(es' & Hin' & Hq')]; [left; split; [by right|done]|]. clear IH Hin Hq es.
  assert (Hgen : ∀ prov ps es', (n, es') ∈ foldl (add_provider p) ps prov → (q, v) ∈ es' →
    (q = p ∧ (n, v) ∈ prov) ∨ ∃ es'', (n, es'') ∈ ps ∧ (q, v) ∈ es'').
  { clear. intros prov. induction prov as [|e prov IH]; intros ps es Hin Hq; simpl in Hin; [right; eauto|].
    destruct (IH _ _ Hin Hq) as [[-> ?]|(es' & Hin' & Hq')]; [left; split; [done|by right]|].
    destruct (add_provider_elem _ _ _ _ _ _ _ Hin' Hq') as [[-> <-]|?]; [left; split; [done|by left]|by right]. }
  destruct (Hgen _ _ _ Hin' Hq') as [[-> ?]|?]; [left; split; [by left|done]|by right].
Qed.

Lemma add_provider_keeps p ps e n es q v :
  dict_ok ps → (n, es) ∈ ps → (q, v) ∈ es → ∃ es', (n, es') ∈ add_provider p ps e ∧ (q, v) ∈ es'.
Proof.
  intros Hd Hin Hq. unfold add_provider. destruct (decide (n = e.1)) as [->|Hne].
  - rewrite (elem_dget _ _ _ Hd Hin). simpl. eexists. split; [|apply elem_of_app; by left].
    apply dget_Some_elem. rewrite dget_dset. by rewrite decide_True.
  - exists es. split; [|done]. apply dget_Some_elem. rewrite dget_dset, decide_False by done. by apply elem_dget.
Qed.

Lemma add_provider_adds p ps e : ∃ es, (e.1, es) ∈ add_provider p ps e ∧ (p, e.2) ∈ es.
Proof.
  unfold add_provider. eexists. split; [apply dget_Some_elem; rewrite dget_dset; by rewrite decide_True|].
  apply elem_of_app. right. by apply list_elem_of_singleton.
Qed.

Lemma add_provided_spec p prov ps :
  dict_ok ps → dict_ok (foldl (add_provider p) ps prov) ∧
  (∀ n es q v, (n, es) ∈ ps → (q, v) ∈ es → ∃ es', (n, es') ∈ foldl (add_provider p) ps prov ∧ (q, v) ∈ es') ∧
  (∀ n v, (n, v) ∈ prov → ∃ es, (n, es) ∈ foldl (add_provider p) ps prov ∧ (p, v) ∈ es).
Proof.
  revert ps. induction prov as [|e prov IH]; intros ps Hd; simpl.
  { split_and!; [done|eauto|by intros ? ? ?%elem_of_nil]. }
  assert (Hd1 : dict_ok (add_provider p ps e)) by (by apply dict_ok_dset).
  destruct (IH _ Hd1) as (H1 & H2 & H3). split_and!; [done|..].
  - intros n es q v Hin Hq. destruct (add_provider_keeps p ps e _ _ _ _ Hd Hin Hq) as (es' & He & Hq'). exact (H2 _ _ _ _ He Hq').
  - intros n v [Heq|Hin]%elem_of_cons; [|by apply H3]. destruct (add_provider_adds p ps e) as (es & Hin & Hq).
    subst e. exact (H2 _ _ _ _ Hin Hq).
Qed.

Lemma add_providers_spec ordered ps :
  let ps' := foldl (λ ps package, foldl (add_provider package) ps (pkg_provides package)) ps ordered in
  dict_ok ps → dict_ok ps' ∧
  (∀ n es q v, (n, es) ∈ ps → (q, v) ∈ es → ∃ es', (n, es') ∈ ps' ∧ (q, v) ∈ es') ∧
  (∀ p n v, p ∈ ordered → (n, v) ∈ pkg_provides p → ∃ es, (n, es) ∈ ps' ∧ (p, v) ∈ es).
Proof.
  revert ps. induction ordered as [|p ordered IH]; intros ps ps' Hd; simpl in ps'.
  { subst ps'. split_and!; [done|eauto|by intros ? ? ? ?%elem_of_nil]. }
  destruct (add_provided_spec p (pkg_provides p) ps Hd) as (H1 & H2 & H3).
  destruct (IH _ H1) as (H4 & H5 & H6). split_and!; [done|..].
  - intros n es q v Hin Hq. destruct (H2 _ _ _ _ Hin Hq) as (es' & He & Hq'). exact (H5 _ _ _ _ He Hq').
  - intros q n v [->|Hin]%elem_of_cons Hv; [|by eapply H6]. destruct (H3 _ _ Hv) as (es & He & Hq'). exact (H5 _ _ _ _ He Hq').
Qed.

Lemma universe_step_ok u n d u' :
  universe_ok u → n ∉ dkeys (u_packages u) → d ≠ [] → (∀ id p, (id, p) ∈ d → pkg_name p = n) →
  universe_step u (n, d) = Ok u' →
  universe_ok u' ∧ dkeys (u_packages u') = dkeys (u_packages u) ++ [n] ∧ packages u' ≡ₚ packages u ++ dvalues d.
Proof.
  intros [Hd Hn Hp Hpd Hpc] Hfresh Hne Hnames Hs. unfold universe_step in Hs. res_inv. apply sortM_perm in H0.
  assert (Hpk : ∀ ps, packages {| u_packages := dset n x (u_packages u); u_providers := ps |} = packages u ++ x).
  { intros ps. unfold packages, dvalues. simpl. rewrite dset_fresh by done. rewrite fmap_app, join_app. simpl. by rewrite app_nil_r. }
  assert (Hx : ∀ p, p ∈ x → pkg_name p = n).
  { intros p. rewrite H0. unfold dvalues. intros ([id q] & -> & Hin)%list_elem_of_fmap. by eapply Hnames. }
  split; [split; simpl|split; simpl].
  - by apply dict_ok_dset.
  - intros n' l [Heq|Hin]%elem_dset; [|by apply Hn]. simplify_eq. split; [|done].
    intros ->. apply Permutation_nil_l in H0. by destruct d.
  - intros n' es p v Hin Hv. rewrite Hpk. rewrite elem_of_app.
    destruct (add_providers_elem _ _ _ _ _ _ Hin Hv) as [[? ?]|(es' & Hin' & Hv')]; [auto|].
    destruct (Hp _ _ _ _ Hin' Hv'). auto.
  - by apply add_providers_spec.
  - intros n' p v. rewrite Hpk. destruct (add_providers_spec x (u_providers u) Hpd) as (_ & H2 & H3).
    intros [Hin|Hin]%elem_of_app Hv; [|by eapply H3]. destruct (Hpc _ _ _ Hin Hv) as (es & He & Hq'). exact (H2 _ _ _ _ He Hq').
  - rewrite dkeys_dset. by rewrite decide_False.
  - by rewrite Hpk, H0.
Qed.

Lemma universe_loop_ok b u u' :
  universe_ok u → NoDup (dkeys (u_packages u) ++ dkeys b) →
  (∀ n d, (n, d) ∈ b → d ≠ [] ∧ ∀ id p, (id, p) ∈ d → pkg_name p = n) →
  foldM universe_step u b = Ok u' →
  universe_ok u' ∧ packages u' ≡ₚ packages u ++ (b ≫= λ i, dvalues i.2).
Proof.
  revert u. induction b as [|[n d] b IH]; intros u Hu Hnd Hb Hf; cbn [foldM] in Hf.
  - res_inv. split; [done|]. by rewrite app_nil_r.
  - apply bind_Ok_inv in Hf as (u1 & Hs & Hf). destruct (Hb n d) as [Hne Hnames]; [by left|].
    apply NoDup_app in Hnd as Hnd'. destruct Hnd' as (_ & Hdis & _).
    destruct (universe_step_ok u n d u1) as (Hu1 & Hk & Hp); [done| |done|done|done|].
    { intros Hin. apply (Hdis _ Hin). simpl. by left. }
    destruct (IH u1) as [Hu' Hp']; [done| | |done|].
    + rewrite Hk, <- (assoc_L (++)). done.
    + intros n' d' Hin. apply Hb. by right.
    + split; [done|]. rewrite Hp', Hp, bind_cons, <- (assoc_L (++)). done.
Qed.

Lemma by_name_loop_ok ps b b' : by_name_ok b → foldM add_record b ps = Ok b' → by_name_ok b'.
Proof. intros Hb Hf. eapply foldM_inv; [|exact Hb|exact Hf]. intros s x s' _. apply add_record_ok. Qed.

Lemma universe_inv ps u :
  universe ps = Ok u → ∃ b, foldM add_record [] ps = Ok b ∧ universe_ok u ∧ packages u ≡ₚ (b ≫= λ i, dvalues i.2).
Proof.
  unfold universe. intros Hu. apply bind_Ok_inv in Hu as (b & Hb & Hu). apply bind_Ok_inv in Hu as (u1 & Hl & Hu).
  exists b. split; [done|]. destruct (by_name_loop_ok ps [] b) as [Hd Hn]; [split; [apply NoDup_nil_2|by intros ? ? ?%elem_of_nil]|done|].
  destruct (universe_loop_ok b {| u_packages := []; u_providers := [] |} u1) as [Hu1 Hp]; [|done| |exact Hl|].
  - split; simpl; [apply NoDup_nil_2|by intros ? ? ?%elem_of_nil|by intros ? ? ? ? ?%elem_of_nil|apply NoDup_nil_2|].
    by intros ? ? ? ?%elem_of_nil.
  - intros n d Hin. destruct (Hn n d Hin) as (? & _ & Hall). split; [done|]. intros id p Hip. by destruct (Hall _ _ Hip).
  - apply Ok_inj in Hu. subst u. split; [|done]. destruct Hu1 as [H1 H2 H3 H4 H5]. split; simpl; [done|done|..].
    + intros n es p v ([n' es'] & Heq & Hin)%list_elem_of_fmap Hv. simpl in Heq. simplify_eq.
      rewrite stable_sort_perm in Hv. by eapply H3.
    + unfold dict_ok, dkeys. rewrite <- list_fmap_compose.
      by replace ((fst ∘ prod_map id (stable_sort provider_lt)) <$> u_providers u1) with (dkeys (u_providers u1)) by (apply list_fmap_ext; by intros ? []).
    + intros n p v Hin Hv. destruct (H5 _ _ _ Hin Hv) as (es & Hes & Hp').
      exists (stable_sort provider_lt es). split; [|by rewrite stable_sort_perm].
      apply list_elem_of_fmap. by exists (n, es).
Qed.

(** ** Candidates *)

(** The version condition of a relation on a provided version. *)
Definition provided_holds (v : option text) (r : Relation) : Prop :=
  truthy (r_operator r) = false ∨ ∃ w, v = Some w ∧ bound_holds w r = Ok true.

(** What it means for a package to satisfy a relation. *)
Definition satisfies (p : Package) (r : Relation) : Prop :=
  _architecture_matches p (r_arch r) = true ∧
  ((pkg_name p = r_name r ∧ bound_holds (pkg_version p) r = Ok true) ∨
   ∃ v, (r_name r, v) ∈ pkg_provides p ∧ provided_holds v r).

Lemma own_candidate_spec r acc p acc' q :
  own_candidate r acc p = Ok acc' →
  q ∈ acc' ↔ q ∈ acc ∨ q = p ∧ _architecture_matches p (r_arch r) = true ∧ bound_holds (pkg_version p) r = Ok true.
Proof.
  unfold own_candidate. destruct (_architecture_matches p (r_arch r)).
  - intros (ok & Hok & [= <-])%bind_Ok_inv. rewrite Hok. destruct ok.
    + rewrite elem_of_app, list_elem_of_singleton. intuition.
    + intuition congruence.
  - intros [= <-]. intuition congruence.
Qed.

Lemma own_candidates_spec r l acc acc' q :
  foldM (own_candidate r) acc l = Ok acc' →
  q ∈ acc' ↔ q ∈ acc ∨ q ∈ l ∧ _architecture_matches q (r_arch r) = true ∧ bound_holds (pkg_version q) r = Ok true.
Proof.
  revert acc. induction l as [|p l IH]; intros acc Hf; cbn [foldM] in Hf.
  - res_inv. set_solver.
  - apply bind_Ok_inv in Hf as (acc1 & H1 & Hf). rewrite (IH _ Hf), (own_candidate_spec _ _ _ _ _ H1), elem_of_cons. naive_solver.
Qed.

Lemma provider_candidate_spec r acc e acc' q :
  provider_candidate r acc e = Ok acc' →
  q ∈ acc' ↔ q ∈ acc ∨ q = e.1 ∧ _architecture_matches q (r_arch r) = true ∧ provided_holds e.2 r.
Proof.
  destruct e as [p v]. unfold provider_candidate, provided_holds. cbn [fst snd].
  destruct (_architecture_matches p (r_arch r)) eqn:Ea; cbn [negb orb].
  2: { intros [= <-]. split; [auto|]. intros [?|(-> & ? & _)]; [done|congruence]. }
  case_bool_decide as Hin.
  { intros [= <-]. split; [auto|]. by intros [?|(-> & _)]. }
  destruct (truthy (r_operator r)) eqn:Et.
  - destruct v as [w|].
    + intros (ok & Hok & [= <-])%bind_Ok_inv. destruct ok; rewrite ?elem_of_app, ?list_elem_of_singleton.
      * split; [intros [?| ->]; eauto 10|intros [?|(-> & _)]; auto].
      * split; [auto|]. intros [?|(_ & _ & [?|(w' & ? & ?)])]; [done|done|congruence].
    + intros [= <-]. split; [auto|]. intros [?|(_ & _ & [?|(w' & ? & ?)])]; [done|done|congruence].
  - intros [= <-]. rewrite elem_of_app, list_elem_of_singleton. split; [intros [?| ->]; auto 10|intros [?|(-> & _)]; auto].
Qed.

Lemma provider_candidates_spec r l acc acc' q :
  foldM (provider_candidate r) acc l = Ok acc' →
  q ∈ acc' ↔ q ∈ acc ∨ ∃ v, (q, v) ∈ l ∧ _architecture_matches q (r_arch r) = true ∧ provided_holds v r.
Proof.
  revert acc. induction l as [|[p v] l IH]; intros acc Hf; cbn [foldM] in Hf.
  - res_inv. set_solver.
  - apply bind_Ok_inv in Hf as (acc1 & H1 & Hf). rewrite (IH _ Hf), (provider_candidate_spec _ _ _ _ _ H1). cbn [fst snd].
    setoid_rewrite elem_of_cons. naive_solver.
Qed.

Lemma candidates_spec u r cs q :
  universe_ok u → candidates u r = Ok cs → q ∈ cs ↔ q ∈ packages u ∧ satisfies q r.
Proof.
  intros Hu Hc. unfold candidates in Hc. apply bind_Ok_inv in Hc as (own & Ho & Hc).
  rewrite (provider_candidates_spec _ _ _ _ _ Hc), (own_candidates_spec _ _ _ _ _ Ho), packages_named by done.
  assert (Hp : ∀ v, (q, v) ∈ default [] (dget (r_name r) (u_providers u)) ↔ q ∈ packages u ∧ (r_name r, v) ∈ pkg_provides q).
  { intros v. split.
    - destruct (dget (r_name r) (u_providers u)) as [es|] eqn:E; simpl; [|by intros ?%elem_of_nil].
      apply dget_Some_elem in E. by apply (uo_providers u Hu _ es).
    - intros [Hq Hv]. destruct (uo_provided u Hu _ _ _ Hq Hv) as (es & Hin & Hes).
      by rewrite (elem_dget _ _ _ (uo_providers_dict u Hu) Hin). }
  setoid_rewrite Hp. unfold satisfies. rewrite elem_of_nil. naive_solver.
Qed.

(** [candidates] returns exactly the packages that satisfy a relation. For every universe built from package records,
    when it returns, a package is among the candidates if and only if it is in the universe, its architecture matches
    the qualifier, and it is named by the relation with a version in bounds or provides the name, with a provided
    version in bounds when the relation has one. *)
Theorem candidates_exact ps u r cs p :
  universe ps = Ok u → candidates u r = Ok cs → p ∈ cs ↔ p ∈ packages u ∧ satisfies p r.
Proof. intros (b & _ & Hu & _)%universe_inv. by apply candidates_spec. Qed.

(** ** Newest first *)

Definition natural_version (p : Package) : Prop := Forall (λ c : Z, 0 <= c) (pkg_version p).
Definition version_ok (p : Package) : Prop := is_Ok (_split_version (pkg_version p)) = true.

(** [x] is newer than [y]. *)
Definition newer (x y : Package) : bool :=
  match _split_version (pkg_version x), _split_version (pkg_version y) with
  | Ok kx, Ok ky => bool_decide (version_cmp ky kx = Lt)
  | _, _ => false
  end.

Lemma newest_first_newer x y :
  natural_version x → natural_version y → version_ok x → version_ok y →
  ∃ c, newest_first x y = Ok c ∧ (c <? 0) = newer x y.
Proof.
  unfold version_ok, newer, newest_first. intros Hx Hy.
  destruct (_split_version (pkg_version x)) as [kx|] eqn:Ex; [|done]. intros _.
  destruct (_split_version (pkg_version y)) as [ky|] eqn:Ey; [|done]. intros _.
  destruct (compare_versions_split _ _ _ _ Hy Hx Ey Ex) as (c & Hc & Hs). exists c. split; [done|].
  destruct (Z.ltb_spec c 0) as [Hlt|Hge]; symmetry.
  - apply bool_decide_eq_true. by rewrite <- Hs.
  - apply bool_decide_eq_false. rewrite <- Hs. by apply Z.le_ngt.
Qed.

Lemma newer_laws :
  (∀ x y z, newer x y = true → version_ok z → newer z y = false → newer z x = false) ∧
  (∀ x y, newer x y = true → newer y x = false).
Proof.
  unfold newer, version_ok. split.
  - intros x y z. destruct (_split_version (pkg_version x)) as [kx|], (_split_version (pkg_version y)) as [ky|],
      (_split_version (pkg_version z)) as [kz|]; try done.
    intros Hxy _ Hzy. bool_inv. apply bool_decide_eq_false. intros Hzx. destruct Hzy. by eapply cmp_trans.
  - intros x y. destruct (_split_version (pkg_version x)) as [kx|], (_split_version (pkg_version y)) as [ky|]; try done.
    intros Hxy. bool_inv. apply bool_decide_eq_false. rewrite cmp_opp, Hxy. done.
Qed.

Lemma newest_first_Ok x y c : newest_first x y = Ok c → version_ok x ∧ version_ok y.
Proof.
  unfold newest_first, compare_versions, version_ok. intros ([[e u] r] & -> & Hc)%bind_Ok_inv.
  apply bind_Ok_inv in Hc as ([[e' u'] r'] & -> & _). done.
Qed.

Abbreviation newest_sorted := (StronglySorted (λ x y, newer y x = false)).

Lemma insertM_newest x l l' :
  natural_version x → Forall natural_version l → newest_sorted l → (length l ≤ 1)%nat ∨ Forall version_ok l →
  insertM newest_first x l = Ok l' →
  newest_sorted l' ∧ (l = [] ∨ Forall version_ok l').
Proof.
  intros Hx Hl Hs Hok Hi. destruct l as [|y l].
  { simpl in Hi. res_inv. split; [repeat constructor|auto]. }
  assert (Hxy : version_ok x ∧ version_ok y).
  { simpl in Hi. apply bind_Ok_inv in Hi as (c & Hc & _). by eapply newest_first_Ok. }
  assert (Hall : Forall version_ok (y :: l)).
  { destruct Hok as [Hlen|]; [|done]. destruct l; [|simpl in Hlen; lia]. constructor; [by destruct Hxy|constructor]. }
  rewrite (insertM_pure _ newer) in Hi.
  2: { intros z Hz. rewrite Forall_forall in Hl, Hall. apply newest_first_newer; [done|by apply Hl|tauto|by apply Hall]. }
  apply Ok_inj in Hi as <-. split.
  - destruct newer_laws as [Ht Ha]. clear Hok Hl Hxy. induction Hs as [|z k Hk IH Hz]; simpl; [repeat constructor|].
    inv Hall. destruct (newer x z) eqn:E.
    + constructor; [by constructor|]. constructor; [by apply Ha|]. rewrite Forall_forall in *. intros w Hw.
      eapply Ht; [exact E|by apply H3|by apply Hz].
    + constructor; [by apply IH|]. rewrite insert_sorted_perm. by constructor.
  - right. rewrite insert_sorted_perm. constructor; tauto.
Qed.

Lemma sortM_newest l l' :
  Forall natural_version l → sortM newest_first l = Ok l' →
  newest_sorted l' ∧ ((length l' ≤ 1)%nat ∨ Forall version_ok l').
Proof.
  intros Hl Hs. unfold sortM in Hs.
  assert (Hinv : Forall natural_version l' ∧ newest_sorted l' ∧ ((length l' ≤ 1)%nat ∨ Forall version_ok l')); [|by destruct Hinv].
  eapply (foldM_inv (λ acc, Forall natural_version acc ∧ newest_sorted acc ∧ ((length acc ≤ 1)%nat ∨ Forall version_ok acc)));
    [| |exact Hs].
  - intros acc x acc' Hx (Hn & Hsorted & Hok) Hi. rewrite Forall_forall in Hl. specialize (Hl _ Hx).
    pose proof (insertM_perm _ _ _ _ Hi) as Hp. destruct (insertM_newest x acc acc') as [H1 H2]; try done.
    split; [rewrite Hp; by constructor|]. split; [done|]. destruct H2 as [->|H2]; [left; by rewrite Hp|by right].
  - split; [constructor|]. split; [constructor|]. left. simpl. lia.
Qed.

Lemma add_records_origin ps b n d id p :
  foldM add_record [] ps = Ok b → (n, d) ∈ b → (id, p) ∈ d → p ∈ ps.
Proof.
  intros Hf. revert n d id p.
  eapply (foldM_inv (λ b, ∀ n d id p, (n, d) ∈ b → (id, p) ∈ d → p ∈ ps)); [| |exact Hf]; [|by intros ? ? ? ? ?%elem_of_nil].
  intros s x s' Hx Hs Ha n d id p Hin Hp. unfold add_record in Ha.
  destruct (dget _ (default [] _)) as [prev|] eqn:E; res_inv; [by eapply Hs|].
  apply elem_dset in Hin as [Heq|Hin]; [|by eapply Hs]. simplify_eq.
  apply elem_dset in Hp as [Heq|Hp]; [by simplify_eq|].
  destruct (dget (pkg_name x) s) as [d|] eqn:E'; simpl in Hp; [|by apply elem_of_nil in Hp].
  apply dget_Some_elem in E'. by eapply Hs.
Qed.

Lemma universe_sorted ps u n l :
  Forall natural_version ps → universe ps = Ok u → (n, l) ∈ u_packages u →
  newest_sorted l ∧ ((length l ≤ 1)%nat ∨ Forall version_ok l).
Proof.
  intros Hps Hu. unfold universe in Hu. apply bind_Ok_inv in Hu as (b & Hb & Hu).
  apply bind_Ok_inv in Hu as (u1 & Hl & Hu). apply Ok_inj in Hu. subst u. simpl. revert n l.
  eapply (foldM_inv (λ u, ∀ n l, (n, l) ∈ u_packages u → newest_sorted l ∧ ((length l ≤ 1)%nat ∨ Forall version_ok l)));
    [| |exact Hl]; [|by intros ? ? ?%elem_of_nil].
  intros s [name d] s' Hin Hs Ha n l Hnl. apply bind_Ok_inv in Ha as (ordered & Hsort & [= <-]). simpl in Hnl.
  apply elem_dset in Hnl as [Heq|Hnl]; [|by eapply Hs]. simplify_eq. eapply sortM_newest; [|exact Hsort].
  rewrite Forall_forall in Hps |- *. intros p ([id q] & -> & Hq)%list_elem_of_fmap. apply Hps. by eapply add_records_origin.
Qed.

(** [newest] is the greatest version. In a universe built from package records, every name with a package has a
    newest package; it carries that name, and every other package of that name compares as not newer. *)
Theorem newest_greatest ps u q :
  Forall natural_version ps → universe ps = Ok u → q ∈ packages u →
  ∃ p, newest u (pkg_name q) = Some p ∧ p ∈ packages u ∧ pkg_name p = pkg_name q ∧
    (q = p ∨ ∃ c, compare_versions (pkg_version q) (pkg_version p) = Ok c ∧ c <= 0).
Proof.
  intros Hps Hu Hq. pose proof Hu as (b & Hb & Hok & Hperm)%universe_inv.
  assert (Hnat : Forall natural_version (packages u)).
  { rewrite Hperm. rewrite Forall_forall in Hps |- *. intros p ([n d] & Hp & Hin)%list_elem_of_bind.
    simpl in Hp. apply list_elem_of_fmap in Hp as ([id p'] & -> & Hp). apply Hps. by eapply add_records_origin. }
  assert (Hin := proj2 (packages_named u (pkg_name q) q Hok) (conj Hq eq_refl)). unfold newest.
  destruct (dget (pkg_name q) (u_packages u)) as [[|p l]|] eqn:E; simpl in Hin |- *; [by apply elem_of_nil in Hin| |by apply elem_of_nil in Hin].
  assert (Hp : p ∈ packages u ∧ pkg_name p = pkg_name q).
  { apply (packages_named u (pkg_name q) p Hok). rewrite E. simpl. by left. }
  exists p. split; [done|]. split; [tauto|]. split; [tauto|].
  apply elem_of_cons in Hin as [->|Hin]; [by left|right].
  apply dget_Some_elem in E. destruct (universe_sorted ps u _ _ Hps Hu E) as [Hs Hv].
  destruct Hv as [Hlen|Hv]; [destruct l; simpl in *; [by apply elem_of_nil in Hin|lia]|].
  inv Hs. inv Hv. rewrite Forall_forall in H3, H5, Hnat.
  specialize (H3 q Hin). specialize (H5 q Hin). unfold newer, version_ok in *.
  destruct (_split_version (pkg_version q)) as [kq|] eqn:Eq; [|done].
  destruct (_split_version (pkg_version p)) as [kp|] eqn:Ep; [|done].
  destruct (compare_versions_split _ _ _ _ (Hnat q Hq) (Hnat p (proj1 Hp)) Eq Ep) as (c & Hc & Hcmp).
  exists c. split; [done|]. apply bool_decide_eq_false in H3. destruct (Z.compare_spec c 0); try lia.
  destruct H3. by rewrite cmp_opp, <- Hcmp.
Qed.

Lemma with_component_same p : with_component p (pkg_component p) = p.
Proof. by destruct p. Qed.

(** Every record so far has its entry, up to the component. *)
Definition represented (p : Package) (b : dict text (dict version_arch Package)) : Prop :=
  ∃ d q, dget (pkg_name p) b = Some d ∧ dget (pkg_version p, pkg_architecture p) d = Some q ∧
    q = with_component p (pkg_component q).

Lemma add_record_represents b p b' : add_record b p = Ok b' → represented p b' ∧ ∀ q, represented q b → represented q b'.
Proof.
  unfold add_record. intros Ha.
  destruct (dget (pkg_version p, pkg_architecture p) _) as [prev|] eqn:E; res_inv; bool_inv.
  - split; [|done]. destruct (dget (pkg_name p) b') as [d|] eqn:E'; [|done]. exists d, prev.
    split_and!; [done..|]. by apply dec_stable.
  - split.
    + eexists _, p. rewrite dget_dset, decide_True by done. split; [done|]. rewrite dget_dset, decide_True by done.
      by rewrite with_component_same.
    + intros q (d & q' & Hd & Hq & Heq). unfold represented. rewrite dget_dset. case_decide as Hn; [|by eexists _, _].
      rewrite <- Hn, Hd in *. simpl in E |- *. eexists _, q'. split; [done|]. rewrite dget_dset.
      case_decide as Hid; [|done]. congruence.
Qed.

(** The universe keeps exactly the index records: every package in it is one of the records, and every record has a
    package in it that is equal to it except for the component that listed it first. *)
Theorem universe_records ps u :
  universe ps = Ok u →
  (∀ p, p ∈ packages u → p ∈ ps) ∧
  (∀ p, p ∈ ps → ∃ q, q ∈ packages u ∧ q = with_component p (pkg_component q)).
Proof.
  intros (b & Hb & Hok & Hperm)%universe_inv. split.
  - intros p. rewrite Hperm. intros ([n d] & Hp & Hin)%list_elem_of_bind.
    apply list_elem_of_fmap in Hp as ([id p'] & -> & Hp). by eapply add_records_origin.
  - assert (Hrep : ∀ ps b0 b, foldM add_record b0 ps = Ok b →
      (∀ p, p ∈ ps → represented p b) ∧ ∀ p, represented p b0 → represented p b).
    { clear. intros ps. induction ps as [|x ps IH]; intros b0 b Hf; cbn [foldM] in Hf.
      - apply Ok_inj in Hf as <-. split; [by intros ? ?%elem_of_nil|done].
      - apply bind_Ok_inv in Hf as (b1 & H1 & Hf). destruct (add_record_represents _ _ _ H1), (IH _ _ Hf).
        split; [|by auto]. intros p [->|Hp]%elem_of_cons; auto. }
    intros p Hp. destruct (proj1 (Hrep _ _ _ Hb) p Hp) as (d & q & Hd & Hq & Heq). exists q. split; [|done].
    rewrite Hperm. apply list_elem_of_bind. exists (pkg_name p, d). apply dget_Some_elem in Hd, Hq. split; [|done].
    apply list_elem_of_fmap. by exists (pkg_version p, pkg_architecture p, q).
Qed.
End invariant.

(** ** A small archive *)

Module DebDemo.
Definition package (name version : string) (essential : bool) (depends : string) (provides : list (text * option text)) :
    Package :=
  {| pkg_name := lit name; pkg_version := lit version; pkg_architecture := lit "amd64"; pkg_component := lit "main";
     pkg_filename := lit "pool/x.deb"; pkg_size := 1; pkg_sha256 := replicate 64 48; pkg_multi_arch := lit "no";
     pkg_essential := essential; pkg_priority := lit "optional"; pkg_pre_depends := [];
     pkg_depends := match parse_relations (Some (lit depends)) with Ok g => g | Err _ => [] end;
     pkg_provides := provides |}.

Definition records : list Package := Eval vm_compute in
  [package "libc6" "2.40-1" true "" []; package "libc6" "2.41~rc1-1" true "" []; package "libc6" "2.41-1" true "" [];
   package "mawk" "1.3" false "libc6 (>= 2.41)" [(lit "awk", None)];
   package "gawk" "5.2" false "" [(lit "awk", Some (lit "5"))];
   package "app" "1.0" false "awk, libc6" []].

Definition the_universe : result Universe := Eval vm_compute in @universe ascii_ucd records.
Definition u : Universe := Eval vm_compute in
  match the_universe with Ok u => u | Err _ => {| u_packages := []; u_providers := [] |} end.

Lemma universe_Ok : @universe ascii_ucd records = Ok u.
Proof. by vm_compute. Qed.

Definition libc6 : Package := Eval vm_compute in package "libc6" "2.41-1" true "" [].
Definition libc6_rc : Package := Eval vm_compute in package "libc6" "2.41~rc1-1" true "" [].
Definition mawk : Package := Eval vm_compute in package "mawk" "1.3" false "libc6 (>= 2.41)" [(lit "awk", None)].
Definition gawk : Package := Eval vm_compute in package "gawk" "5.2" false "" [(lit "awk", Some (lit "5"))].
End DebDemo.

Lemma candidates_exact_witness :
  DebDemo.gawk ∈ [DebDemo.gawk; DebDemo.mawk] ↔
  DebDemo.gawk ∈ packages DebDemo.u ∧ @satisfies ascii_ucd DebDemo.gawk (relation_named (lit "awk")).
Proof.
  apply (@candidates_exact ascii_ucd DebDemo.records DebDemo.u); [exact DebDemo.universe_Ok|by vm_compute].
Defined.

Lemma newest_greatest_witness :
  ∃ p, newest DebDemo.u (lit "libc6") = Some p ∧ pkg_version p = lit "2.41-1" ∧
    (DebDemo.libc6_rc = p ∨ ∃ c, @compare_versions ascii_ucd (pkg_version DebDemo.libc6_rc) (pkg_version p) = Ok c ∧ c <= 0).
Proof.
  destruct (@newest_greatest ascii_ucd DebDemo.records DebDemo.u DebDemo.libc6_rc) as (p & Hp & _ & _ & Hc).
  - apply (bool_decide_unpack _). by vm_compute.
  - exact DebDemo.universe_Ok.
  - apply (bool_decide_unpack _). by vm_compute.
  - exists p. split; [exact Hp|]. split; [|exact Hc]. vm_compute in Hp. injection Hp as <-. reflexivity.
Defined.

Lemma universe_records_witness :
  ∀ p, p ∈ packages DebDemo.u → p ∈ DebDemo.records.
Proof. apply (@universe_records ascii_ucd DebDemo.records DebDemo.u DebDemo.universe_Ok). Defined.
