(* ===== verification/DebResolve.v ===== *)
(** * The dependency resolver: [_Closure] and [resolve] of [mkosi/debian/generate_lock.py]

    [edges] maps a name to the set of names its dependencies were satisfied by. The work loop runs at most once per
    package name of the universe, which is the fuel it gets. *)
From S2P Require Import Prelude Bytes PyText Collections DebControl DebVersion DebRelation DebUniverse.

Record _Closure := {
  selected : dict text Package; edges : dict text (gset text); queue : list Package }.

Definition closure_init : _Closure := {| selected := []; edges := []; queue := [] |}.

Definition select (c : _Closure) (package : Package) (reason : text) : result _Closure :=
  match dget (pkg_name package) (selected c) with
  | Some current =>
      raise_if (bool_decide (current ≠ package))
        (LockError "%s requires %s %s, but %s is already selected"
          [AText reason; AText (pkg_name package); AText (pkg_version package); AText (pkg_version current)]);;
      mret c
  | None =>
      mret {| selected := dset (pkg_name package) package (selected c);
              edges := dset (pkg_name package) ∅ (edges c);
              queue := queue c ++ [package] |}
  end.

Section resolve.
Context `{Ucd} (u : Universe).

Definition is_bootstrap (p : Package) : bool := pkg_essential p || bool_decide (pkg_priority p = lit "required").

(** The sorted set of bootstrap names. *)
Definition bootstrap_names : list text :=
  sorted_texts (remove_dups (pkg_name <$> List.filter is_bootstrap (packages u))).

Definition _select_bootstrap (c : _Closure) : result _Closure :=
  foldM (λ c name,
    p ← of_option AttributeError (newest u name);
    select c p (lit "the bootstrap set")) c bootstrap_names.

(** The loop body of [_select_requested]. *)
Definition request_step (st : _Closure * list text) (name : text) : result (_Closure * list text) :=
  let '(c, missing) := st in
  cs ← candidates u (relation_named name);
  match List.filter (λ p, bool_decide (pkg_name p = name)) cs, cs with
  | real :: _, _ => c ← select c real (lit "the specification"); mret (c, missing)
  | [], [candidate] => c ← select c candidate (lit "the specification"); mret (c, missing)
  | [], _ :: _ =>
      Err (LockError "%s is a virtual package with several providers; request one of: %s"
        [AText name; ATexts (sorted_texts (pkg_name <$> cs))])
  | [], [] => mret (c, missing ++ [name])
  end.

Definition _select_requested (requested : list text) (c : _Closure) : result _Closure :=
  '(c, missing) ← foldM request_step (c, []) requested;
  raise_if (negb (bool_decide (missing = [])))
    (LockError "requested packages are not in the snapshot: %s" [ATexts missing]);;
  mret c.

(** The first candidate of the group's relations, in order, that [ok] accepts. *)
Fixpoint first_candidate (ok : Package → bool) (group : list Relation) : result (option Package) :=
  match group with
  | [] => mret None
  | relation :: group =>
      cs ← candidates u relation;
      match List.find ok cs with
      | Some candidate => mret (Some candidate)
      | None => first_candidate ok group
      end
  end.

Definition _satisfying_candidate (selected : dict text Package) (group : list Relation) : result (option Package) :=
  first ← first_candidate (λ candidate, bool_decide (dget (pkg_name candidate) selected = Some candidate)) group;
  match first with
  | Some candidate => mret (Some candidate)
  | None => first_candidate (λ candidate, negb (dmem (pkg_name candidate) selected)) group
  end.

(** [closure.edges[name].add(dependency)]. *)
Definition add_edge (c : _Closure) (name dependency : text) : result _Closure :=
  targets ← of_option KeyError (dget name (edges c));
  mret {| selected := selected c; edges := dset name (targets ∪ {[dependency]}) (edges c); queue := queue c |}.

(** One group of the dependencies of [package]. *)
Definition resolve_group (package : Package) (c : _Closure) (group : list Relation) : result _Closure :=
  found ← _satisfying_candidate (selected c) group;
  satisfied ← of_option (LockError "%s %s has an unsatisfiable dependency: %s"
    [AText (pkg_name package); AText (pkg_version package); AText (_format_group group)]) found;
  c ← select c satisfied (pkg_name package ++ lit " " ++ pkg_version package);
  if bool_decide (pkg_name satisfied ≠ pkg_name package) then add_edge c (pkg_name package) (pkg_name satisfied)
  else mret c.

Definition dependencies (p : Package) : list (list Relation) := pkg_pre_depends p ++ pkg_depends p.

Fixpoint resolve_loop (fuel : nat) (c : _Closure) : result _Closure :=
  match queue c with
  | [] => mret c
  | package :: rest =>
      match fuel with
      | O => Err OutOfFuel
      | S fuel =>
          c ← foldM (resolve_group package) {| selected := selected c; edges := edges c; queue := rest |}
                (dependencies package);
          resolve_loop fuel c
      end
  end.

Definition resolve (requested : list text) : result (dict text Package * dict text (gset text)) :=
  c ← _select_bootstrap closure_init;
  c ← _select_requested requested c;
  c ← resolve_loop (length (u_packages u)) c;
  mret (selected c, edges c).

(** ** The invariant of the closure *)

Record closure_ok (c : _Closure) : Prop := {
  co_dict : dict_ok (selected c);
  co_names : ∀ n p, (n, p) ∈ selected c → pkg_name p = n ∧ p ∈ packages u;
  co_edges : dkeys (edges c) = dkeys (selected c);
  co_queue : ∀ p, p ∈ queue c → dget (pkg_name p) (selected c) = Some p;
}.

(** Selection and edges only grow. *)
Record grows (c c' : _Closure) : Prop := {
  gr_selected : ∀ n p, dget n (selected c) = Some p → dget n (selected c') = Some p;
  gr_edges : ∀ n es, dget n (edges c) = Some es → ∃ es', dget n (edges c') = Some es' ∧ es ⊆ es';
}.

#[export] Instance grows_preorder : PreOrder grows.
Proof.
  split.
  - intros c. split; [done|]. intros n es Hes. by exists es.
  - intros c1 c2 c3 [H1 H2] [H3 H4]. split; [auto|]. intros n es Hes.
    destruct (H2 _ _ Hes) as (es' & Hes' & ?). destruct (H4 _ _ Hes') as (es'' & ? & ?).
    exists es''. split; [done|]. by etrans.
Qed.

(** The number of rounds the loop may still need. *)
Definition pending (c : _Closure) : Z := len (u_packages u) - len (selected c) + len (queue c).

(** What [select] does when it returns. *)
Record selects (p : Package) (c c' : _Closure) : Prop := {
  se_selected : ∀ n, dget n (selected c') = if decide (n = pkg_name p) then Some p else dget n (selected c);
  se_edges : ∀ n es, dget n (edges c') = Some es → dget n (edges c) = Some es ∨ es = ∅;
  se_queue : ∀ q, q ∈ queue c' ↔ q ∈ queue c ∨ (q = p ∧ dget (pkg_name p) (selected c) = None);
}.

Lemma select_spec c p reason c' :
  closure_ok c → p ∈ packages u → select c p reason = Ok c' →
  closure_ok c' ∧ grows c c' ∧ pending c' = pending c ∧ selects p c c'.
Proof.
  intros [Hd Hn He Hq] Hp Hs. unfold select in Hs.
  destruct (dget (pkg_name p) (selected c)) as [cur|] eqn:E; res_inv; bool_inv.
  - apply dec_stable in H0. subst cur. split_and!; try done. split; [|auto|].
    + intros n. case_decide; [by subst|done].
    + intros q. rewrite E. naive_solver.
  - assert (Hfs : pkg_name p ∉ dkeys (selected c)) by (by apply dget_None).
    assert (Hfe : pkg_name p ∉ dkeys (edges c)) by (by rewrite He).
    split; [|split; [|split]]; simpl.
    + split; simpl.
      * by apply dict_ok_dset.
      * intros n q [Heq|Hin]%elem_dset; [by simplify_eq|by apply Hn].
      * rewrite !dkeys_dset, He. done.
      * intros q [Hin|Hin%list_elem_of_singleton]%elem_of_app; rewrite dget_dset; [|subst; by rewrite decide_True].
        rewrite decide_False; [by apply Hq|]. intros Heq. apply Hq in Hin. congruence.
    + split; simpl.
      * intros n q Hq'. rewrite dget_dset. rewrite decide_False by congruence. done.
      * intros n es Hes. rewrite dget_dset, decide_False; [by exists es|]. intros ->. apply dget_None in Hfe. congruence.
    + unfold pending. simpl. rewrite dset_fresh by done. len_simpl. lia.
    + split; simpl.
      * intros n. apply dget_dset.
      * intros n es. rewrite dget_dset. case_decide; [|auto]. intros [= <-]. auto.
      * intros q. rewrite elem_of_app, list_elem_of_singleton. naive_solver.
Qed.

Lemma first_candidate_spec ok group p :
  first_candidate ok group = Ok (Some p) →
  ∃ r cs, r ∈ group ∧ candidates u r = Ok cs ∧ p ∈ cs ∧ ok p = true.
Proof.
  induction group as [|r group IH]; simpl; [done|]. intros (cs & Hcs & Hf)%bind_Ok_inv.
  destruct (List.find ok cs) eqn:E; simplify_eq/=.
  - apply Ok_inj in Hf. simplify_eq. apply List.find_some in E as [Hin Hok]. exists r, cs.
    split_and!; [by left|done|by apply list_elem_of_In|done].
  - destruct (IH Hf) as (r' & cs' & ? & ? & ? & ?). exists r', cs'. split_and!; [by right|done..].
Qed.

Lemma satisfying_candidate_spec sel group p :
  _satisfying_candidate sel group = Ok (Some p) → ∃ r cs, r ∈ group ∧ candidates u r = Ok cs ∧ p ∈ cs.
Proof.
  unfold _satisfying_candidate. intros ([q|] & Hq & Hp)%bind_Ok_inv.
  - apply Ok_inj in Hp. simplify_eq. destruct (first_candidate_spec _ _ _ Hq) as (r & cs & ? & ? & ? & _). eauto 10.
  - destruct (first_candidate_spec _ _ _ Hp) as (r & cs & ? & ? & ? & _). eauto 10.
Qed.

(** A dependency group is met by a selected package, with an edge to it unless it is the package itself. *)
Definition group_met (c : _Closure) (p : Package) (group : list Relation) : Prop :=
  ∃ r q, r ∈ group ∧ q ∈ packages u ∧ satisfies q r ∧ dget (pkg_name q) (selected c) = Some q ∧
    (pkg_name q ≠ pkg_name p → ∃ es, dget (pkg_name p) (edges c) = Some es ∧ pkg_name q ∈ es).

Lemma group_met_grows c c' p g : grows c c' → group_met c p g → group_met c' p g.
Proof.
  intros [Hs He] (r & q & ? & ? & ? & Hq & Hedge). exists r, q. split_and!; [done..|by apply Hs|].
  intros Hne. destruct (Hedge Hne) as (es & Hes & Hin). destruct (He _ _ Hes) as (es' & ? & ?). exists es'. set_solver.
Qed.

(** Every edge has a reason, and every package but the roots is the target of an edge from a selected package. *)
Definition edges_justified (c : _Closure) : Prop :=
  ∀ n es m, dget n (edges c) = Some es → m ∈ es →
    ∃ p q g r, dget n (selected c) = Some p ∧ dget m (selected c) = Some q ∧ g ∈ dependencies p ∧ r ∈ g ∧ satisfies q r.

Inductive reachable (c : _Closure) (roots : text → Prop) : text → Prop :=
  | reach_root n : roots n → reachable c roots n
  | reach_edge n es m : reachable c roots n → dget n (edges c) = Some es → m ∈ es → reachable c roots m.

Lemma reachable_grows c c' roots n : grows c c' → reachable c roots n → reachable c' roots n.
Proof.
  intros Hg. induction 1 as [n Hn|n es m _ IH Hes Hm]; [by constructor|].
  destruct (gr_edges _ _ Hg _ _ Hes) as (es' & Hes' & Hsub). eapply reach_edge; [exact IH|exact Hes'|set_solver].
Qed.

Context (Hu : universe_ok u).

Lemma add_edge_spec c n m c' :
  closure_ok c → add_edge c n m = Ok c' →
  closure_ok c' ∧ grows c c' ∧ pending c' = pending c ∧ selected c' = selected c ∧ queue c' = queue c ∧
  ∃ es, dget n (edges c) = Some es ∧ edges c' = dset n (es ∪ {[m]}) (edges c).
Proof.
  intros [Hd Hn He Hq] Ha. unfold add_edge in Ha. apply bind_Ok_inv in Ha as (es & Hes & Ha).
  apply of_option_Ok in Hes. apply Ok_inj in Ha. subst c'. split_and!; try done.
  - split; simpl; try done. rewrite dkeys_dset. rewrite decide_True; [done|].
    apply dec_stable. intros Hn'%dget_None. congruence.
  - split; simpl; [done|]. intros k ks Hk. rewrite dget_dset. case_decide; [|by exists ks]. subst. simplify_eq.
    eexists. split; [done|set_solver].
  - by exists es.
Qed.

(** The state between two groups of a package. *)
Record progress (roots : text → Prop) (c : _Closure) : Prop := {
  pr_ok : closure_ok c;
  pr_justified : edges_justified c;
  pr_reachable : ∀ n p, dget n (selected c) = Some p → reachable c roots n;
}.

Lemma select_progress roots c p reason c' :
  progress roots c → p ∈ packages u → roots (pkg_name p) → select c p reason = Ok c' →
  progress roots c' ∧ grows c c' ∧ pending c' = pending c ∧ selects p c c'.
Proof.
  intros [Hok Hj Hr] Hp Hroot Hs. apply select_spec in Hs as (Hok' & Hg & Hpend & Hse); [|done..].
  split_and!; [|done..]. destruct Hse as [Hsel Hed _]. split; [done|..].
  - intros n es m Hes Hm. destruct (Hed _ _ Hes) as [Hes'| ->]; [|set_solver].
    destruct (Hj _ _ _ Hes' Hm) as (x & y & g & r & Hx & Hy & H1 & H2 & H3). exists x, y, g, r.
    split_and!; [by apply (gr_selected _ _ Hg)|by apply (gr_selected _ _ Hg)|done..].
  - intros n x. rewrite Hsel. case_decide as Hn; [subst; by constructor|].
    intros Hx. eapply reachable_grows; [exact Hg|by eapply Hr].
Qed.

Lemma resolve_group_spec roots p c g c' :
  progress roots c → dget (pkg_name p) (selected c) = Some p → g ∈ dependencies p →
  resolve_group p c g = Ok c' →
  progress roots c' ∧ grows c c' ∧ pending c' = pending c ∧ group_met c' p g ∧
  (∀ q, q ∈ queue c → q ∈ queue c') ∧
  (∀ n q, dget n (selected c') = Some q → dget n (selected c) = Some q ∨ q ∈ queue c').
Proof.
  intros [Hok Hj Hr] Hp Hg Hres. unfold resolve_group in Hres.
  apply bind_Ok_inv in Hres as (found & Hf & Hres). apply bind_Ok_inv in Hres as (q & Hq & Hres).
  apply of_option_Ok in Hq. subst found. apply satisfying_candidate_spec in Hf as (r & cs & Hrg & Hcs & Hin).
  apply (candidates_spec u r cs q Hu Hcs) in Hin as [Hqu Hsat].
  apply bind_Ok_inv in Hres as (c1 & Hs & Hres). apply select_spec in Hs as (Hok1 & Hg1 & Hp1 & Hse); [|done..].
  assert (Hq1 : dget (pkg_name q) (selected c1) = Some q) by (by rewrite (se_selected _ _ _ Hse), decide_True).
  assert (Hjust : ∀ c2, grows c1 c2 → ∀ n es m, dget n (edges c1) = Some es → m ∈ es →
    ∃ p q g r, dget n (selected c2) = Some p ∧ dget m (selected c2) = Some q ∧ g ∈ dependencies p ∧ r ∈ g ∧ satisfies q r).
  { intros c2 Hg2 n es m Hes Hm. destruct (se_edges _ _ _ Hse _ _ Hes) as [Hes'| ->]; [|set_solver].
    destruct (Hj _ _ _ Hes' Hm) as (x & y & g' & r' & Hx & Hy & H1 & H2 & H3). exists x, y, g', r'.
    split_and!; [by apply (gr_selected _ _ Hg2), (gr_selected _ _ Hg1)|by apply (gr_selected _ _ Hg2), (gr_selected _ _ Hg1)|done..]. }
  assert (Hnew : ∀ c2, selected c2 = selected c1 → queue c2 = queue c1 →
    (∀ x, x ∈ queue c → x ∈ queue c2) ∧
    (∀ n x, dget n (selected c2) = Some x → dget n (selected c) = Some x ∨ x ∈ queue c2)).
  { intros c2 -> ->. split; [intros x Hx; apply (se_queue _ _ _ Hse); auto|]. intros n x.
    rewrite (se_selected _ _ _ Hse), (se_queue _ _ _ Hse). destruct (decide (n = pkg_name q)) as [Hn|Hn]; [|by auto].
    intros Hx. injection Hx as <-. subst n. destruct (dget (pkg_name q) (selected c)) as [y|] eqn:E; [|by auto].
    left. apply (gr_selected _ _ Hg1) in E. congruence. }
  destruct (decide (pkg_name q = pkg_name p)) as [Heq|Hne].
  - rewrite bool_decide_false in Hres by tauto. apply Ok_inj in Hres. subst c'.
    split; [split; [done|exact (Hjust c1 (reflexivity _))|]|split_and!; [done|done| |by apply Hnew|by apply Hnew]].
    + intros n x. rewrite (se_selected _ _ _ Hse). case_decide as Hn; [subst n; rewrite Heq; intros _|intros Hx];
        (eapply reachable_grows; [exact Hg1|by eapply Hr]).
    + exists r, q. by split_and!.
  - rewrite bool_decide_true in Hres by done. apply add_edge_spec in Hres as (Hok2 & Hg2 & Hp2 & Hsel2 & Hq2 & es & Hes & Hed); [|done].
    assert (Hgr : grows c c') by (by etrans).
    assert (Hpe : dget (pkg_name p) (edges c') = Some (es ∪ {[pkg_name q]})) by (by rewrite Hed, dget_dset, decide_True).
    split; [split; [done|..]|split_and!; [done|lia| |by apply Hnew|by apply Hnew]].
    + intros n ks m Hks Hm. rewrite Hed, dget_dset in Hks. case_decide as Hn; [|by eapply Hjust].
      subst n. injection Hks as <-. apply elem_of_union in Hm as [Hm|Hm%elem_of_singleton]; [by eapply Hjust|].
      subst m. exists p, q, g, r. split_and!; try done; [by apply (gr_selected _ _ Hgr)|by rewrite Hsel2].
    + intros n x. rewrite Hsel2, (se_selected _ _ _ Hse). case_decide as Hn.
      * subst n. intros _. eapply reach_edge; [eapply reachable_grows; [exact Hgr|by eapply Hr]|exact Hpe|set_solver].
      * intros Hx. eapply reachable_grows; [exact Hgr|by eapply Hr].
    + exists r, q. split_and!; [done..|by rewrite Hsel2|]. intros _. exists (es ∪ {[pkg_name q]}). split; [done|set_solver].
Qed.

Lemma resolve_groups_spec roots p gs c c' :
  (∀ g, g ∈ gs → g ∈ dependencies p) → progress roots c → dget (pkg_name p) (selected c) = Some p →
  foldM (resolve_group p) c gs = Ok c' →
  progress roots c' ∧ grows c c' ∧ pending c' = pending c ∧ (∀ g, g ∈ gs → group_met c' p g) ∧
  (∀ q, q ∈ queue c → q ∈ queue c') ∧
  (∀ n q, dget n (selected c') = Some q → dget n (selected c) = Some q ∨ q ∈ queue c').
Proof.
  revert c. induction gs as [|g gs IH]; intros c Hgs Hpr Hp Hf; cbn [foldM] in Hf.
  - apply Ok_inj in Hf as <-. split_and!; try done; [by intros ? ?%elem_of_nil|by auto].
  - apply bind_Ok_inv in Hf as (c1 & H1 & Hf).
    apply (resolve_group_spec roots) in H1 as (Hpr1 & Hg1 & Hpe1 & Hm1 & Hq1 & Hs1); [|done|done|apply Hgs; by left].
    destruct (IH c1) as (Hpr2 & Hg2 & Hpe2 & Hm2 & Hq2 & Hs2); [intros; apply Hgs; by right|done|by apply (gr_selected _ _ Hg1)|done|].
    split_and!; [done|by etrans|lia| |by auto|].
    + intros g' [->|Hin]%elem_of_cons; [by eapply group_met_grows|by apply Hm2].
    + intros n q Hn. destruct (Hs2 n q Hn) as [Hn1|]; [|by right]. destruct (Hs1 n q Hn1) as [|]; auto.
Qed.

(** Every selected package is queued or has all its dependencies met. *)
Definition settled (c : _Closure) : Prop :=
  ∀ n p, dget n (selected c) = Some p → p ∈ queue c ∨ ∀ g, g ∈ dependencies p → group_met c p g.

Lemma pop_progress roots c p rest :
  progress roots c → queue c = p :: rest →
  let c0 := {| selected := selected c; edges := edges c; queue := rest |} in
  progress roots c0 ∧ dget (pkg_name p) (selected c) = Some p ∧ pending c0 = pending c - 1.
Proof.
  intros [[Hd Hn He Hq] Hj Hr] Hc c0. split_and!.
  - split; [split; simpl; try done|done|].
    + intros q Hin. apply Hq. rewrite Hc. by right.
    + intros n x Hx. specialize (Hr n x Hx). eapply (reachable_grows c c0); [by split; simpl; eauto|done].
  - apply Hq. rewrite Hc. by left.
  - unfold pending, c0. simpl. rewrite Hc, len_cons. lia.
Qed.

Lemma selected_bound c : closure_ok c → len (selected c) <= len (u_packages u).
Proof.
  intros [Hd Hn _ _]. replace (len (selected c)) with (len (dkeys (selected c))) by (unfold dkeys; apply len_fmap).
  replace (len (u_packages u)) with (len (dkeys (u_packages u))) by (unfold dkeys; apply len_fmap).
  unfold len. apply inj_le, NoDup_incl_length; [by apply NoDup_ListNoDup|].
  intros n Hin%list_elem_of_In. apply list_elem_of_In. unfold dkeys in *.
  apply list_elem_of_fmap in Hin as ([n' p] & -> & Hin). destruct (Hn _ _ Hin) as [Hname Hp].
  apply elem_packages in Hp as (m & l & Hin' & Hp). destruct (uo_names u Hu _ _ Hin') as [_ Hm].
  apply list_elem_of_fmap. exists (m, l). split; [|done]. simpl. rewrite <- Hname. by apply Hm.
Qed.

Lemma resolve_loop_spec roots fuel c c' :
  progress roots c → settled c → resolve_loop fuel c = Ok c' →
  progress roots c' ∧ grows c c' ∧ (∀ n p, dget n (selected c') = Some p → ∀ g, g ∈ dependencies p → group_met c' p g).
Proof.
  revert c. induction fuel as [|fuel IH]; intros c Hpr Hset Hl; simpl in Hl;
    (destruct (queue c) as [|p rest] eqn:Eq;
      [apply Ok_inj in Hl as <-; split_and!; [done|done|];
       intros n q Hq; destruct (Hset n q Hq) as [Hin|]; [rewrite Eq in Hin; by apply elem_of_nil in Hin|done]|]); [done|].
  apply bind_Ok_inv in Hl as (c1 & H1 & Hl). destruct (pop_progress roots c p rest Hpr Eq) as (Hpr0 & Hp & _).
  set (c0 := {| selected := selected c; edges := edges c; queue := rest |}) in *.
  destruct (resolve_groups_spec roots p (dependencies p) c0 c1) as (Hpr1 & Hg1 & _ & Hm1 & Hq1 & Hs1); [done..|].
  assert (Hg0 : grows c c0) by (split; simpl; eauto).
  destruct (IH c1) as (Hpr2 & Hg2 & Hall); [done| |done|split_and!; [done|by do 2 etrans|done]].
  intros n q Hq. destruct (Hs1 n q Hq) as [Hold|]; [|by left]. destruct (decide (q = p)) as [->|Hne]; [by right|].
  destruct (Hset n q Hold) as [Hin|Hmet].
  - left. apply Hq1. rewrite Eq in Hin. by apply elem_of_cons in Hin as [|].
  - right. intros g Hg. eapply group_met_grows, Hmet; [by etrans|done].
Qed.

Lemma settled_selects c c' p : grows c c' → selects p c c' → settled c → settled c'.
Proof.
  intros Hg [Hsel _ Hq] Hset n q. rewrite Hsel. destruct (decide (n = pkg_name p)) as [->|Hn].
  - intros [= <-]. destruct (dget (pkg_name p) (selected c)) as [q|] eqn:E.
    + assert (q = p) as ->.
      { apply (gr_selected _ _ Hg) in E. rewrite Hsel, decide_True in E by done. congruence. }
      destruct (Hset _ _ E) as [Hin|Hm]; [left; apply Hq; by left|].
      right. intros g Hgr. eapply group_met_grows; [done|by apply Hm].
    + left. apply Hq. by right.
  - intros Hold. destruct (Hset _ _ Hold) as [Hin|Hm]; [left; apply Hq; by left|].
    right. intros g Hgr. eapply group_met_grows; [done|by apply Hm].
Qed.

Lemma newest_spec n p : newest u n = Some p → p ∈ packages u ∧ pkg_name p = n.
Proof.
  intros Hp. apply packages_named; [done|]. unfold newest in Hp.
  destruct (default [] (dget n (u_packages u))) as [|q l]; simplify_eq/=. by left.
Qed.

(** A start of the loop: progress, everything selected is queued, and no round is spent yet. *)
Definition started (roots : text → Prop) (c : _Closure) : Prop :=
  progress roots c ∧ settled c ∧ pending c = len (u_packages u).

Lemma select_started roots c p reason c' :
  started roots c → p ∈ packages u → roots (pkg_name p) → select c p reason = Ok c' →
  started roots c' ∧ grows c c' ∧ dget (pkg_name p) (selected c') = Some p.
Proof.
  intros (Hpr & Hset & Hpe) Hp Hr Hs. apply (select_progress roots) in Hs as (H1 & H2 & H3 & H4); [|done..].
  split; [split_and!; [done|by eapply settled_selects|lia]|]. split; [done|]. by rewrite (se_selected _ _ _ H4), decide_True.
Qed.

Definition bootstrap_root (n : text) : Prop := ∃ p, p ∈ packages u ∧ is_bootstrap p = true ∧ pkg_name p = n.
Definition requested_root (requested : list text) (n : text) : Prop :=
  ∃ name p, name ∈ requested ∧ p ∈ packages u ∧ satisfies p (relation_named name) ∧ pkg_name p = n.

Lemma elem_bootstrap_names n : n ∈ bootstrap_names ↔ bootstrap_root n.
Proof.
  unfold bootstrap_names, sorted_texts, bootstrap_root. rewrite (merge_sort_Permutation text_le), elem_of_remove_dups, list_elem_of_fmap.
  setoid_rewrite list_elem_of_In. setoid_rewrite List.filter_In. setoid_rewrite <- list_elem_of_In. naive_solver.
Qed.

Lemma bootstrap_spec roots names c c' :
  (∀ n, n ∈ names → roots n) → started roots c →
  foldM (λ c name, p ← of_option AttributeError (newest u name); select c p (lit "the bootstrap set")) c names = Ok c' →
  started roots c' ∧ grows c c' ∧ ∀ n, n ∈ names → ∃ p, newest u n = Some p ∧ dget n (selected c') = Some p.
Proof.
  revert c. induction names as [|n names IH]; intros c Hr Hst Hf; cbn [foldM] in Hf.
  - apply Ok_inj in Hf as <-. split_and!; [done|done|by intros ? ?%elem_of_nil].
  - apply bind_Ok_inv in Hf as (c1 & H1 & Hf). apply bind_Ok_inv in H1 as (p & Hp & Hs). apply of_option_Ok in Hp.
    destruct (newest_spec _ _ Hp) as [Hpu Hpn].
    apply (select_started roots) in Hs as (Hst1 & Hg1 & Hsel); [|done|done|rewrite Hpn; apply Hr; by left].
    destruct (IH c1) as (Hst2 & Hg2 & Hall); [intros; apply Hr; by right|done|done|].
    split_and!; [done|by etrans|]. intros m [->|Hin]%elem_of_cons; [|by apply Hall].
    exists p. split; [done|]. apply (gr_selected _ _ Hg2). by rewrite <- Hpn.
Qed.

(** A requested name is served by a package of that name or by its only provider. *)
Definition served (c : _Closure) (name : text) : Prop :=
  ∃ cs p, candidates u (relation_named name) = Ok cs ∧ p ∈ cs ∧ (pkg_name p = name ∨ cs = [p]) ∧
    dget (pkg_name p) (selected c) = Some p.

Lemma served_grows c c' name : grows c c' → served c name → served c' name.
Proof. intros Hg (cs & p & ? & ? & ? & ?). exists cs, p. split_and!; [done..|by apply (gr_selected _ _ Hg)]. Qed.

Lemma request_step_spec roots c missing name c' missing' :
  (∀ p, p ∈ packages u → satisfies p (relation_named name) → roots (pkg_name p)) → started roots c →
  request_step (c, missing) name = Ok (c', missing') →
  started roots c' ∧ grows c c' ∧ (missing' = [] → missing = [] ∧ served c' name).
Proof.
  intros Hr Hst Hs. unfold request_step in Hs. apply bind_Ok_inv in Hs as (cs & Hcs & Hs).
  assert (Hcand : ∀ p, p ∈ cs → p ∈ packages u ∧ roots (pkg_name p)).
  { intros p Hp. apply (candidates_spec _ _ _ _ Hu Hcs) in Hp as [? ?]. auto. }
  assert (Hsel : ∀ p, p ∈ cs → pkg_name p = name ∨ cs = [p] →
    (c ← select c p (lit "the specification"); mret (c, missing)) = Ok (c', missing') →
    started roots c' ∧ grows c c' ∧ (missing' = [] → missing = [] ∧ served c' name)).
  { intros p Hp Hwhy H1. apply bind_Ok_inv in H1 as (c1 & H1 & [= <- <-]). destruct (Hcand p Hp) as [Hpu Hroot].
    apply (select_started roots) in H1 as (? & ? & ?); [|done..]. split_and!; try done. intros Hm. split; [done|].
    by exists cs, p. }
  destruct (List.filter _ cs) as [|real rl] eqn:Ef.
  - destruct cs as [|p [|q cs]]; [|apply (Hsel p); [by left|by right|done]|done].
    apply Ok_inj in Hs. simplify_eq. split_and!; [done|done|]. by intros [_ ?]%app_nil.
  - assert (Hin : real ∈ cs ∧ pkg_name real = name).
    { assert (Hi : real ∈ List.filter (λ p, bool_decide (pkg_name p = name)) cs) by (rewrite Ef; by left).
      apply list_elem_of_In, List.filter_In in Hi as [Hi Hn]. bool_inv. by split; [apply list_elem_of_In|]. }
    apply (Hsel real); [tauto|tauto|done].
Qed.

Lemma requested_spec roots requested st c' missing' :
  (∀ name p, name ∈ requested → p ∈ packages u → satisfies p (relation_named name) → roots (pkg_name p)) →
  started roots st.1 → foldM request_step st requested = Ok (c', missing') →
  started roots c' ∧ grows st.1 c' ∧ (missing' = [] → st.2 = [] ∧ ∀ name, name ∈ requested → served c' name).
Proof.
  revert st. induction requested as [|name requested IH]; intros [c missing] Hr Hst Hf; cbn [foldM fst snd] in *.
  - apply Ok_inj in Hf. simplify_eq. split_and!; [done|done|]. intros ->. split; [done|]. by intros ? ?%elem_of_nil.
  - apply bind_Ok_inv in Hf as ([c1 m1] & H1 & Hf).
    apply (request_step_spec roots) in H1 as (Hst1 & Hg1 & Hm1); [|intros; eapply Hr; [by left|done..]|done].
    destruct (IH (c1, m1)) as (Hst2 & Hg2 & Hm2); [intros; eapply Hr; [by right|done..]|done|done|]. cbn [fst snd] in *.
    split_and!; [done|by etrans|]. intros Hm. destruct (Hm2 Hm) as [Hm1' Hall]. destruct (Hm1 Hm1') as [Hm0 Hsv].
    split; [done|]. intros n [->|Hin]%elem_of_cons; [by eapply served_grows|by apply Hall].
Qed.

(** The roots of a resolution. *)
Definition is_root (requested : list text) (n : text) : Prop := bootstrap_root n ∨ requested_root requested n.

Lemma closure_init_started roots : started roots closure_init.
Proof.
  split_and!.
  - split; [split; simpl; [apply NoDup_nil_2|by intros ? ? ?%elem_of_nil|done|by intros ? ?%elem_of_nil]|done|done].
  - done.
  - unfold pending. simpl. len_simpl. lia.
Qed.

Lemma resolve_spec requested sel eds :
  resolve requested = Ok (sel, eds) →
  ∃ c, sel = selected c ∧ eds = edges c ∧ progress (is_root requested) c ∧
    (∀ n, bootstrap_root n → ∃ p, newest u n = Some p ∧ dget n sel = Some p) ∧
    (∀ name, name ∈ requested → served c name) ∧
    (∀ n p, dget n sel = Some p → ∀ g, g ∈ dependencies p → group_met c p g).
Proof.
  intros Hres. unfold resolve in Hres. apply bind_Ok_inv in Hres as (c1 & H1 & Hres).
  apply bind_Ok_inv in Hres as (c2 & H2 & Hres). apply bind_Ok_inv in Hres as (c3 & H3 & Hres).
  apply Ok_inj in Hres. simplify_eq.
  apply (bootstrap_spec (is_root requested)) in H1 as (Hst1 & _ & Hb); [| |apply closure_init_started].
  2: { intros n Hn. left. by apply elem_bootstrap_names. }
  unfold _select_requested in H2. apply bind_Ok_inv in H2 as ([c2' missing] & H2 & Hm).
  apply bind_Ok_inv in Hm as (? & Hm & Heq). apply raise_if_Ok in Hm. bool_inv. apply Ok_inj in Heq. subst c2' missing.
  apply (requested_spec (is_root requested) requested (c1, [])) in H2 as ((Hpr2 & Hset2 & _) & Hg2 & Hreq); [| |done].
  2: { intros name p Hn Hp Hs. right. by exists name, p. }
  apply (resolve_loop_spec (is_root requested)) in H3 as (Hpr3 & Hg3 & Hall); [|done..].
  exists c3. split_and!; try done.
  - intros n Hn%elem_bootstrap_names. destruct (Hb n Hn) as (p & Hp & Hsel). exists p. split; [done|].
    by apply (gr_selected _ _ Hg3), (gr_selected _ _ Hg2).
  - intros name Hn. eapply served_grows; [done|]. by apply Hreq.
Qed.

(** ** Errors and termination *)

(** A [LockError], or the [ValueError] of an epoch that [int] rejects. *)
Definition resolve_error (e : exn) : Prop := is_lock_error e ∨ is_value_error e.

Lemma raises_split_version v : raises resolve_error (_split_version v).
Proof.
  unfold _split_version. apply raises_bind.
  - destruct (partition_on 58 v) as [a [b|]]; [|done]. apply raises_bind; [apply raises_require; left; apply lock_error|].
    intros _ _. apply raises_bind; [apply raises_of_option; right; apply value_error|done].
  - intros [e w] _. by destruct (rpartition_on 45 w) as [[x|] y].
Qed.

Lemma raises_bound_holds v r : raises resolve_error (bound_holds v r).
Proof.
  unfold bound_holds. destruct (truthy _); [|done]. unfold version_satisfies. apply raises_bind.
  - unfold compare_versions. apply raises_bind; [apply raises_split_version|]. intros [[e1 u1] r1] _.
    apply raises_bind; [apply raises_split_version|]. intros [[e2 u2] r2] _. by destruct (negb _).
  - intros c _. apply raises_bind; [|done]. apply raises_of_option. left. apply lock_error.
Qed.

Lemma raises_candidates r : raises resolve_error (candidates u r).
Proof.
  unfold candidates. apply raises_bind.
  - apply raises_foldM. intros acc p _. unfold own_candidate. destruct (_architecture_matches _ _); [|done].
    apply raises_bind; [apply raises_bound_holds|done].
  - intros own _. apply raises_foldM. intros acc [p v] _. unfold provider_candidate. destruct (_ || _); [done|].
    destruct (truthy _); [|done]. destruct v as [w|]; [|done]. apply raises_bind; [apply raises_bound_holds|done].
Qed.

Lemma raises_first_candidate ok g : raises resolve_error (first_candidate ok g).
Proof.
  induction g as [|r g IH]; cbn [first_candidate]; [done|]. apply raises_bind; [apply raises_candidates|].
  intros cs _. by destruct (List.find ok cs).
Qed.

Lemma raises_select c p reason : raises resolve_error (select c p reason).
Proof.
  unfold select. destruct (dget _ _); [|done]. apply raises_bind; [|done]. apply raises_raise_if. left. apply lock_error.
Qed.

Lemma raises_resolve_group roots p c g :
  progress roots c → dget (pkg_name p) (selected c) = Some p → raises resolve_error (resolve_group p c g).
Proof.
  intros Hpr Hp. unfold resolve_group. apply raises_bind.
  { unfold _satisfying_candidate. apply raises_bind; [apply raises_first_candidate|].
    intros [q|] _; [done|apply raises_first_candidate]. }
  intros found Hf. apply raises_bind; [apply raises_of_option; left; apply lock_error|]. intros q Hq.
  apply raises_bind; [apply raises_select|]. intros c1 Hs. case_bool_decide; [|done]. unfold add_edge.
  apply of_option_Ok in Hq. subst found. apply satisfying_candidate_spec in Hf as (r & cs & _ & Hcs & Hin).
  apply (candidates_spec u r cs q Hu Hcs) in Hin as [Hqu _].
  apply select_spec in Hs as (Hok1 & Hg1 & _ & _); [|by destruct Hpr|done].
  apply (gr_selected _ _ Hg1) in Hp. destruct (dget (pkg_name p) (edges c1)) as [es|] eqn:E; [done|].
  apply dget_None in E. rewrite (co_edges _ Hok1) in E. apply dget_None in E. congruence.
Qed.

Lemma raises_resolve_groups roots p gs c :
  (∀ g, g ∈ gs → g ∈ dependencies p) → progress roots c → dget (pkg_name p) (selected c) = Some p →
  raises resolve_error (foldM (resolve_group p) c gs).
Proof.
  revert c. induction gs as [|g gs IH]; intros c Hgs Hpr Hp; cbn [foldM]; [done|].
  apply raises_bind; [by eapply raises_resolve_group|]. intros c1 H1.
  apply (resolve_group_spec roots) in H1 as (Hpr1 & Hg1 & _); [|done|done|apply Hgs; by left].
  apply IH; [intros; apply Hgs; by right|done|by apply (gr_selected _ _ Hg1)].
Qed.

Lemma raises_resolve_loop roots fuel c :
  progress roots c → pending c <= Z.of_nat fuel → raises resolve_error (resolve_loop fuel c).
Proof.
  revert c. induction fuel as [|fuel IH]; intros c Hpr Hf; cbn [resolve_loop];
    (destruct (queue c) as [|p rest] eqn:Eq; [done|]).
  - exfalso. pose proof (selected_bound c (pr_ok _ _ Hpr)). unfold pending in Hf. rewrite Eq, len_cons in Hf.
    pose proof (len_nonneg rest). lia.
  - destruct (pop_progress roots c p rest Hpr Eq) as (Hpr0 & Hp & Hpe).
    apply raises_bind; [by eapply raises_resolve_groups|]. intros c1 H1.
    apply (resolve_groups_spec roots) in H1 as (Hpr1 & _ & Hpe1 & _); [|done..]. apply IH; [done|]. lia.
Qed.

Lemma raises_bootstrap names c : (∀ n, n ∈ names → bootstrap_root n) →
  raises resolve_error (foldM (λ c name, p ← of_option AttributeError (newest u name); select c p (lit "the bootstrap set")) c names).
Proof.
  intros Hn. apply raises_foldM. intros c' n Hin. apply raises_bind; [|intros p _; apply raises_select].
  destruct (Hn n Hin) as (p & Hp & _ & <-). unfold newest.
  assert (Hin' := proj2 (packages_named u (pkg_name p) p Hu) (conj Hp eq_refl)).
  destruct (default [] _) as [|q l]; [by apply elem_of_nil in Hin'|done].
Qed.

Lemma raises_resolve requested : raises resolve_error (resolve requested).
Proof.
  unfold resolve. apply raises_bind; [apply raises_bootstrap; intros n; apply elem_bootstrap_names|]. intros c1 H1.
  apply (bootstrap_spec (is_root requested)) in H1 as (Hst1 & _ & _); [| |apply closure_init_started].
  2: { intros n Hn. left. by apply elem_bootstrap_names. }
  apply raises_bind.
  { unfold _select_requested. apply raises_bind.
    - apply raises_foldM. intros [c m] n _. unfold request_step. apply raises_bind; [apply raises_candidates|]. intros cs _.
      destruct (List.filter _ cs); [destruct cs as [|p [|q cs]]; [done| |left; apply lock_error]|];
        (apply raises_bind; [apply raises_select|done]).
    - intros [c m] _. apply raises_bind; [apply raises_raise_if; left; apply lock_error|done]. }
  intros c2 H2. apply raises_bind; [|done].
  unfold _select_requested in H2. apply bind_Ok_inv in H2 as ([c2' missing] & H2 & Hm).
  apply bind_Ok_inv in Hm as (? & _ & Heq). apply Ok_inj in Heq. subst c2'.
  apply (requested_spec (is_root requested) requested (c1, [])) in H2 as ((Hpr2 & _ & Hpe2) & _ & _); [| |done].
  2: { intros name p Hn Hp Hs. right. by exists name, p. }
  eapply raises_resolve_loop; [exact Hpr2|]. unfold len in *. lia.
Qed.
End resolve.

Section claims.
Context `{Ucd}.

(** C8: the resolver returns a closed installation. When [resolve] succeeds on a universe built from package records, the
    selection has one package per name, filed under its own name and taken from the universe; it has the newest
    version of every essential or required package; every requested name is served by a package of that name, or by its
    only provider; and every dependency group of every selected package has an alternative that a selected package
    satisfies, recorded as an edge unless the package satisfies it itself. *)
Theorem resolve_closed ps u requested sel eds :
  universe ps = Ok u → resolve u requested = Ok (sel, eds) →
  (∀ n p, dget n sel = Some p → pkg_name p = n ∧ p ∈ packages u) ∧
  (∀ p, p ∈ packages u → is_bootstrap p = true → ∃ q, newest u (pkg_name p) = Some q ∧ dget (pkg_name p) sel = Some q) ∧
  (∀ name, name ∈ requested → ∃ cs p, candidates u (relation_named name) = Ok cs ∧ p ∈ cs ∧
    (pkg_name p = name ∨ cs = [p]) ∧ dget (pkg_name p) sel = Some p) ∧
  (∀ n p g, dget n sel = Some p → g ∈ dependencies p → ∃ r q, r ∈ g ∧ satisfies q r ∧ dget (pkg_name q) sel = Some q ∧
    (pkg_name q ≠ n → ∃ es, dget n eds = Some es ∧ pkg_name q ∈ es)).
Proof.
  intros (b & _ & Hu & _)%universe_inv Hres. apply resolve_spec in Hres as (c & -> & -> & Hpr & Hb & Hs & Hd); [|done].
  destruct Hpr as [[Hdict Hn _ _] _ _].
  assert (Hname : ∀ n p, dget n (selected c) = Some p → pkg_name p = n ∧ p ∈ packages u).
  { intros n p Hp. apply Hn. by apply dget_Some_elem. }
  split_and!; [done| |done|].
  - intros p Hp Hboot. apply Hb. by exists p.
  - intros n p g Hp Hg. destruct (Hd n p Hp g Hg) as (r & q & ? & _ & ? & ? & He). destruct (Hname n p Hp) as [<- _].
    exists r, q. by split_and!.
Qed.

(** The resolver selects nothing without a reason. Every edge points from a selected package to a selected package that
    satisfies one of its dependency relations, and every selected name is reachable over edges from a bootstrap package
    or a requested one. *)
Theorem resolve_minimal ps u requested sel eds :
  universe ps = Ok u → resolve u requested = Ok (sel, eds) →
  ∃ c, sel = selected c ∧ eds = edges c ∧ edges_justified c ∧
    ∀ n p, dget n sel = Some p → reachable c (is_root u requested) n.
Proof.
  intros (b & _ & Hu & _)%universe_inv Hres. apply resolve_spec in Hres as (c & -> & -> & [_ Hj Hr] & _); [|done].
  by exists c.
Qed.

(** C38: the resolver terminates and fails only as documented. On every universe built from package records the work loop
    ends within one round per package name, and [resolve] returns or raises [LockError] (or the [ValueError] of an epoch
    that [int] rejects); no [KeyError] or [AttributeError] escapes. *)
Theorem resolve_terminates ps u requested :
  universe ps = Ok u → raises resolve_error (resolve u requested).
Proof. intros (b & _ & Hu & _)%universe_inv. by apply raises_resolve. Qed.
End claims.

Definition demo_request : list text := [lit "app"; lit "mawk"].

Lemma demo_resolve :
  ∃ sel eds, @resolve ascii_ucd DebDemo.u demo_request = Ok (sel, eds) ∧ dkeys sel = [lit "libc6"; lit "app"; lit "mawk"].
Proof.
  destruct (@resolve ascii_ucd DebDemo.u demo_request) as [[sel eds]|e] eqn:E; [|by vm_compute in E].
  exists sel, eds. split; [done|].
  assert (Hk : ((λ r, dkeys r.1) <$> @resolve ascii_ucd DebDemo.u demo_request) = Ok [lit "libc6"; lit "app"; lit "mawk"]) by by_compute.
  rewrite E in Hk. by injection Hk.
Qed.

Lemma resolve_closed_witness :
  ∃ sel eds, @resolve ascii_ucd DebDemo.u demo_request = Ok (sel, eds) ∧
    dkeys sel = [lit "libc6"; lit "app"; lit "mawk"] ∧
    ∃ q, newest DebDemo.u (pkg_name DebDemo.libc6) = Some q ∧ dget (pkg_name DebDemo.libc6) sel = Some q.
Proof.
  destruct demo_resolve as (sel & eds & Hr & Hk). exists sel, eds. split; [exact Hr|]. split; [exact Hk|].
  destruct (@resolve_closed ascii_ucd DebDemo.records DebDemo.u demo_request sel eds DebDemo.universe_Ok Hr) as (_ & Hb & _).
  apply Hb; [apply (bool_decide_unpack _); by vm_compute|reflexivity].
Defined.

Lemma resolve_minimal_witness :
  ∃ sel eds c, @resolve ascii_ucd DebDemo.u demo_request = Ok (sel, eds) ∧ sel = selected c ∧ eds = edges c ∧
    @edges_justified ascii_ucd c.
Proof.
  destruct demo_resolve as (sel & eds & Hr & _).
  destruct (@resolve_minimal ascii_ucd DebDemo.records DebDemo.u demo_request sel eds DebDemo.universe_Ok Hr) as (c & H1 & H2 & H3 & _).
  exists sel, eds, c. split; [exact Hr|]. split; [exact H1|]. split; [exact H2|exact H3].
Defined.

Lemma resolve_terminates_witness : raises resolve_error (@resolve ascii_ucd DebDemo.u [lit "app"; lit "awk"]).
Proof. apply (@resolve_terminates ascii_ucd DebDemo.records). exact DebDemo.universe_Ok. Defined.
