(* ===== verification/DebLock.v ===== *)
(** * Specifications and locks: the rest of [mkosi/debian/generate_lock.py]

    The specification is a decoded JSON value. [fetcher] maps a URL to the bytes it serves or raises, and [lzma] is the
    decompressor of the standard library, with [None] for its error; both are parameters. The lock dictionary is a
    record, and [render] prints it. *)
From S2P Require Import Prelude Bytes PyText Hashing Collections Json DebControl DebVersion DebRelation DebUniverse DebResolve.

(** ** The clear-signed Release *)

Definition BEGIN_MESSAGE : text := lit "-----BEGIN PGP SIGNED MESSAGE-----".
Definition BEGIN_SIGNATURE : text := lit "-----BEGIN PGP SIGNATURE-----".

(** [lines.index(x, start)]. *)
Fixpoint index_from (x : text) (i : nat) (start : nat) (lines : list text) : option nat :=
  match lines with
  | [] => None
  | l :: lines => if bool_decide (start ≤ i)%nat && bool_decide (l = x) then Some i else index_from x (S i) start lines
  end.
Definition index (x : text) (start : nat) (lines : list text) : option nat := index_from x 0 start lines.

Definition unescape (line : text) : text := if startswith line (lit "- ") then drop 2 line else line.

Definition cleartext_payload (inrelease : bytes) : result bytes :=
  t ← of_option UnicodeError (utf8_decode inrelease);
  let lines := split_on 10 t in
  let not_signed := LockError "InRelease is not a clear-signed message" [] in
  start ← of_option not_signed (index BEGIN_MESSAGE 0 lines);
  body ← of_option not_signed (index [] start lines);
  last ← of_option not_signed (index BEGIN_SIGNATURE (body + 1) lines);
  let payload := unescape <$> take (last - (body + 1)) (drop (body + 1) lines) in
  mret (utf8_encode (join [10] payload ++ [10])).

Section checksums.
Context `{Ucd}.

Definition release_checksum (checksums : dict text (text * Z)) (line : text) : result (dict text (text * Z)) :=
  if bool_decide (strip line = []) then mret checksums
  else
    let malformed := LockError "malformed Release SHA256 entry: %s" [AText line] in
    match split_ws line with
    | [digest; size; path] =>
        require (is_sha256_hex digest && all_digits size) malformed;;
        raise_if (dmem path checksums) (LockError "duplicate Release SHA256 entry: %s" [AText path]);;
        n ← of_option (ValueError "invalid literal for int() with base 10: {}" [AText size]) (py_int size);
        mret (dset path (digest, n) checksums)
    | _ => Err malformed
    end.

Definition release_checksums (release : bytes) : result (paragraph * dict text (text * Z)) :=
  t ← of_option UnicodeError (utf8_decode release);
  fields ← lock_paragraphs t;
  match fields with
  | [fields] =>
      checksums ← foldM release_checksum [] (splitlines (default [] (dget (lit "SHA256") fields)));
      mret (fields, checksums)
  | _ => Err (LockError "Release must contain exactly one paragraph" [])
  end.
End checksums.

(** ** Specifications *)

Record Specification := {
  snapshot_url : text; snapshot : text; suite : text; components : list text; spec_packages : list text }.

(** [_SNAPSHOT.fullmatch]: eight digits, [T], six digits, [Z]. *)
Definition is_snapshot (t : text) : bool :=
  (len t =? 16) && forallb ascii_digit (take 8 t) && bool_decide (t !! 8%nat = Some 84) &&
  forallb ascii_digit (take 6 (drop 9 t)) && bool_decide (t !! 15%nat = Some 90).

(** [_IDENTIFIER.fullmatch] and [_PACKAGE_NAME.fullmatch]. *)
Definition is_identifier (t : text) : bool :=
  match t with c :: t => name_head c && forallb arch_char t | [] => false end.
Definition is_package_name (t : text) : bool :=
  match t with c :: t => name_head c && negb (bool_decide (t = [])) && forallb name_char t | [] => false end.

(** [t.rstrip("/")] and [t.rsplit("/", 1)[-1]]. *)
Definition rstrip_slash (t : text) : text := rstrip_by (λ c, c =? 47) t.
Definition after_slash (t : text) : text := (rpartition_on 47 t).2.

Definition _snapshot_source (data : list (text * json)) : result (list (text * json) * text * text) :=
  match jget (lit "sources") data with
  | JList [JObj source] =>
      match default (JStr []) (dget (lit "url") source) with
      | JStr url =>
          require (startswith url (lit "https://")) (LockError "snapshot source url must use https" []);;
          let url := rstrip_slash url in
          let snapshot := after_slash url in
          require (is_snapshot snapshot)
            (LockError "snapshot source url must end with an immutable UTC timestamp" []);;
          mret (source, url, snapshot)
      | _ => Err (LockError "snapshot source url must use https" [])
      end
  | _ => Err (LockError "specification must declare exactly one snapshot source" [])
  end.

Definition _channel (source : list (text * json)) : result (text * list text) :=
  let words := match default (JStr []) (dget (lit "channel") source) with JStr channel => split_ws channel | _ => [] end in
  match words with
  | suite :: ((_ :: _) as components) =>
      foldM (λ _ name, require (is_identifier name) (LockError "invalid suite or component name: %s" [AText name])) tt words;;
      require (bool_decide (length (remove_dups components) = length components))
        (LockError "source channel repeats a component" []);;
      require (bool_decide (lit "main" ∈ components)) (LockError "source channel must include the main component" []);;
      mret (suite, components)
  | _ => Err (LockError "source channel must name a suite and at least one component" [])
  end.

(** [tuple(dict.fromkeys(l))]: the first occurrence of every element. *)
Fixpoint fromkeys (seen : list text) (l : list text) : list text :=
  match l with
  | [] => []
  | x :: l => if bool_decide (x ∈ seen) then fromkeys seen l else x :: fromkeys (x :: seen) l
  end.

Definition requested_name (j : json) : result text :=
  match j with
  | JStr t => require (is_package_name t) (LockError "invalid package name: %r" [AText t]);; mret t
  | _ => Err (LockError "invalid package name: %r" [])
  end.

Definition _requested_packages (data : list (text * json)) : result (list text) :=
  match jget (lit "packages") data with
  | JList ((_ :: _) as l) => names ← mapM requested_name l; mret (fromkeys [] names)
  | _ => Err (LockError "specification must request at least one package" [])
  end.

(** [("main", *sorted(set(components) - {"main"}))]. *)
Definition normal_components (components : list text) : list text :=
  lit "main" :: sorted_texts (List.filter (λ c, negb (bool_decide (c = lit "main"))) (remove_dups components)).

Definition SPEC_FIELDS : list text := [lit "version"; lit "sources"; lit "archs"; lit "packages"].

Definition load_specification (data : json) : result Specification :=
  match data with
  | JObj items =>
      let unknown := List.filter (λ k, negb (bool_decide (k ∈ SPEC_FIELDS))) (dkeys items) in
      raise_if (negb (bool_decide (unknown = [])))
        (LockError "unknown specification fields: %s" [ATexts (sorted_texts unknown)]);;
      require (json_eq_int (jget (lit "version") items) 1) (LockError "specification version must be 1" []);;
      '(source, url, snapshot) ← _snapshot_source items;
      '(suite, components) ← _channel source;
      require (match jget (lit "archs") items with JList [JStr a] => bool_decide (a = ARCHITECTURE) | _ => false end)
        (LockError "archs must be [%r]; arch: all is included implicitly" [AText ARCHITECTURE]);;
      packages ← _requested_packages items;
      mret {| snapshot_url := url; snapshot := snapshot; suite := suite; components := normal_components components;
              spec_packages := packages |}
  | _ => Err (LockError "specification must be a JSON object" [])
  end.

(** The canonical dictionary of [spec_sha256], its keys in order. *)
Definition canonical_spec (s : Specification) : jv :=
  VObj [(lit "archs", VList [VStr ARCHITECTURE]);
        (lit "components", VList (VStr <$> components s));
        (lit "packages", VList (VStr <$> spec_packages s));
        (lit "snapshot_url", VStr (snapshot_url s));
        (lit "suite", VStr (suite s));
        (lit "version", VInt 1)].

(** The printed form is ASCII, so its UTF-8 encoding is its characters. *)
Definition spec_sha256 (s : Specification) : text := hex (sha256 (utf8_encode (dumps_compact (canonical_spec s)))).

Definition check_spec (spec lock : json) : result unit :=
  s ← load_specification spec;
  match match lock with JObj items => jget (lit "spec_sha256") items | _ => JNull end with
  | JNull => Err (LockError "the lock does not record the digest of its specification" [])
  | JStr recorded =>
      require (bool_decide (recorded = spec_sha256 s)) (LockError "the lock was generated from a different specification" [])
  | _ => Err (LockError "the lock was generated from a different specification" [])
  end.

(** ** The lock *)

(** An entry of the repository metadata; the indexes also have an architecture and a component. *)
Record metadata_entry := {
  me_name : text; me_path : text; me_sha256 : text; me_url : text; me_extra : option (text * text) }.

Definition _metadata_entry (name path : text) (data : bytes) (url : text) (extra : option (text * text)) : metadata_entry :=
  {| me_name := name; me_path := path; me_sha256 := hex (sha256 data); me_url := url ++ lit "/" ++ path; me_extra := extra |}.

Definition _index_name (component architecture : text) : text :=
  (if bool_decide (component = lit "main") then [] else component ++ lit "_") ++
  (if bool_decide (architecture = ARCHITECTURE) then lit "packages_xz" else lit "packages_all_xz").

(** A dependency of a locked package: its key, name and version. *)
Record locked_dependency := { ld_key : text; ld_name : text; ld_version : text }.

Record locked_package := {
  lp_arch : text; lp_component : text; lp_dependencies : list locked_dependency; lp_filename : text; lp_key : text;
  lp_name : text; lp_sha256 : text; lp_size : Z; lp_urls : list text; lp_version : text }.

Definition sort_by_key (l : list Package) : list Package := stable_sort (λ p q, negb (text_leb (key q) (key p))) l.

Definition _locked_package (package : Package) (deps : list Package) (url : text) : locked_package :=
  {| lp_arch := pkg_architecture package; lp_component := pkg_component package;
     lp_dependencies :=
       (λ d, {| ld_key := key d; ld_name := pkg_name d; ld_version := pkg_version d |}) <$> sort_by_key deps;
     lp_filename := pkg_filename package; lp_key := key package; lp_name := pkg_name package;
     lp_sha256 := pkg_sha256 package; lp_size := pkg_size package; lp_urls := [url ++ lit "/" ++ pkg_filename package];
     lp_version := pkg_version package |}.

(** [selected[dependency] for dependency in edges[name]]. *)
Definition edge_targets (sel : dict text Package) (eds : dict text (gset text)) (name : text) : result (list Package) :=
  targets ← of_option KeyError (dget name eds);
  mapM (λ n, of_option KeyError (dget n sel)) (elements targets).

Definition _locked_packages (sel : dict text Package) (eds : dict text (gset text)) (url : text) :
    result (list locked_package) :=
  let order := stable_sort (λ a b, negb (text_leb (key b.2) (key a.2))) sel in
  locked ← mapM (λ '(name, package), deps ← edge_targets sel eds name; mret (_locked_package package deps url)) order;
  let keys := lp_key <$> locked in
  raise_if (negb (bool_decide (length (remove_dups keys) = length keys)))
    (LockError "resolved packages have colliding lock keys" []);;
  mret locked.

Record lock := {
  lk_packages : list locked_package; lk_codename : text; lk_components : list text; lk_metadata : list metadata_entry;
  lk_release : text; lk_snapshot : text; lk_snapshot_url : text; lk_spec_sha256 : text }.

Section generate.
Context `{Ucd} (lzma : bytes → option bytes) (fetcher : text → result bytes).

Definition _fetch_release (url base : text) : result (bytes * bytes * bytes) :=
  inrelease ← fetcher (url ++ lit "/" ++ base ++ lit "/InRelease");
  release_data ← fetcher (url ++ lit "/" ++ base ++ lit "/Release");
  release_gpg ← fetcher (url ++ lit "/" ++ base ++ lit "/Release.gpg");
  payload ← cleartext_payload inrelease;
  raise_if (bool_decide (payload ≠ release_data) && bool_decide (payload ≠ release_data ++ [Z2b 10]))
    (LockError "InRelease payload does not match Release" []);;
  mret (inrelease, release_data, release_gpg).

Definition _release_number (fields : paragraph) (s : Specification) (release : option text) : result text :=
  require (bool_decide (dget (lit "Codename") fields = Some (suite s)))
    (LockError "source suite %s must be the Release codename %s" [AText (suite s); text_or_none (dget (lit "Codename") fields)]);;
  let available := split_ws (default [] (dget (lit "Components") fields)) in
  let missing := sorted_texts (List.filter (λ c, negb (bool_decide (c ∈ available))) (remove_dups (components s))) in
  raise_if (negb (bool_decide (missing = []))) (LockError "Release does not provide components: %s" [ATexts missing]);;
  require (bool_decide (ARCHITECTURE ∈ split_ws (default [] (dget (lit "Architectures") fields))))
    (LockError "Release does not provide architecture %s" [AText ARCHITECTURE]);;
  let release_number :=
    if truthy release then default [] release else (partition_on 46 (default [] (dget (lit "Version") fields))).1 in
  require (all_digits release_number) (LockError "Release has no numeric Version; pass --release" []);;
  mret release_number.

Definition _fetch_index (url base relative : text) (checksums : dict text (text * Z)) : result bytes :=
  '(digest, size) ← of_option (LockError "Release does not list %s" [AText relative]) (dget relative checksums);
  data ← fetcher (url ++ lit "/" ++ base ++ lit "/" ++ relative);
  raise_if (negb (len data =? size) || bool_decide (hex (sha256 data) ≠ digest))
    (LockError "%s does not match the Release checksum" [AText relative]);;
  mret data.

Definition _decode_index (relative : text) (data : bytes) : result text :=
  of_option (LockError "%s cannot be decoded: %s" [AText relative]) (lzma data ≫= utf8_decode).

(** One index of the loops of [_fetch_indexes]. *)
Definition fetch_index_step (url base : text) (checksums : dict text (text * Z))
    (acc : list metadata_entry * list Package) (item : text * text) : result (list metadata_entry * list Package) :=
  let '(metadata, packages) := acc in
  let '(component, architecture) := item in
  let relative := component ++ lit "/binary-" ++ architecture ++ lit "/Packages.xz" in
  data ← _fetch_index url base relative checksums;
  let entry := _metadata_entry (_index_name component architecture) (base ++ lit "/" ++ relative) data url
    (Some (architecture, component)) in
  t ← _decode_index relative data;
  records ← parse_packages t component architecture;
  mret (metadata ++ [entry], packages ++ records).

Definition _fetch_indexes (s : Specification) (base : text) (checksums : dict text (text * Z)) :
    result (list metadata_entry * list Package) :=
  foldM (fetch_index_step (snapshot_url s) base checksums) ([], [])
    (components s ≫= λ component, (λ architecture, (component, architecture)) <$> INDEX_ARCHITECTURES).

Definition generate (s : Specification) (release : option text) : result lock :=
  let base := lit "dists/" ++ suite s in
  let url := snapshot_url s in
  '(inrelease, release_data, release_gpg) ← _fetch_release url base;
  '(fields, checksums) ← release_checksums release_data;
  release_number ← _release_number fields s release;
  let metadata := [_metadata_entry (lit "inrelease") (base ++ lit "/InRelease") inrelease url None;
                   _metadata_entry (lit "release") (base ++ lit "/Release") release_data url None;
                   _metadata_entry (lit "release_gpg") (base ++ lit "/Release.gpg") release_gpg url None] in
  '(index_metadata, packages) ← _fetch_indexes s base checksums;
  u ← universe packages;
  '(sel, eds) ← resolve u (spec_packages s);
  locked ← _locked_packages sel eds url;
  mret {| lk_packages := locked; lk_codename := suite s; lk_components := components s;
          lk_metadata := metadata ++ index_metadata; lk_release := release_number; lk_snapshot := snapshot s;
          lk_snapshot_url := url; lk_spec_sha256 := spec_sha256 s |}.
End generate.

(** The dictionaries of the lock. *)
Definition metadata_json (m : metadata_entry) : jv :=
  VObj (match me_extra m with
        | Some (architecture, component) => [(lit "architecture", VStr architecture); (lit "component", VStr component)]
        | None => []
        end ++
        [(lit "name", VStr (me_name m)); (lit "path", VStr (me_path m)); (lit "sha256", VStr (me_sha256 m));
         (lit "url", VStr (me_url m))]).

Definition package_json (p : locked_package) : jv :=
  VObj [(lit "arch", VStr (lp_arch p)); (lit "component", VStr (lp_component p));
        (lit "dependencies", VList ((λ d, VObj [(lit "key", VStr (ld_key d)); (lit "name", VStr (ld_name d));
          (lit "version", VStr (ld_version d))]) <$> lp_dependencies p));
        (lit "filename", VStr (lp_filename p)); (lit "key", VStr (lp_key p)); (lit "name", VStr (lp_name p));
        (lit "sha256", VStr (lp_sha256 p)); (lit "size", VInt (lp_size p)); (lit "urls", VList (VStr <$> lp_urls p));
        (lit "version", VStr (lp_version p))].

Definition lock_json (l : lock) : jv :=
  VObj [(lit "packages", VList (package_json <$> lk_packages l));
        (lit "repository", VObj [
          (lit "architecture", VStr ARCHITECTURE); (lit "codename", VStr (lk_codename l));
          (lit "components", VList (VStr <$> lk_components l)); (lit "distribution", VStr (lit "debian"));
          (lit "metadata", VList (metadata_json <$> lk_metadata l)); (lit "release", VStr (lk_release l));
          (lit "snapshot", VStr (lk_snapshot l)); (lit "snapshot_url", VStr (lk_snapshot_url l))]);
        (lit "spec_sha256", VStr (lk_spec_sha256 l)); (lit "version", VInt 1)].

(** [render]: the keys of [lock_json] are in order. *)
Definition render (l : lock) : text := dumps_indent 0 (lock_json l) ++ [10].
