(* ===== verification/DebLockProofs.v ===== *)
(** * What a lock guarantees *)
From S2P Require Import Prelude Bytes PyText Hashing Collections Json DebControl DebVersion DebRelation DebUniverse DebResolve DebLock.

(** ** The specification digest *)

Definition ascii_text (t : text) : Prop := Forall (λ c, 0 <= c < 128) t.

Lemma hex_digit_ascii d : 0 <= d < 16 → 0 <= hex_digit d < 128.
Proof. unfold hex_digit. intros. destruct (d <? 10) eqn:E; lia. Qed.

Lemma ascii_hex4 n : ascii_text (hex4 n).
Proof. unfold hex4, ascii_text. repeat constructor; apply hex_digit_ascii, Z.mod_pos_bound; lia. Qed.

Lemma ascii_json_char c : 0 <= c → ascii_text (json_char c).
Proof.
  intros Hc. unfold json_char.
  repeat match goal with |- context [if ?x =? ?k then _ else _] =>
    destruct (x =? k); [by repeat constructor|] end.
  destruct (_ && _) eqn:E; [constructor; [lia|constructor]|].
  destruct (c <? 0x10000); unfold ascii_text; rewrite !Forall_app; split_and!; try apply ascii_hex4; by repeat constructor.
Qed.

Lemma scalar_natural t : forallb is_scalar t = true → Forall (λ c, 0 <= c) t.
Proof. intros Ht. apply Forall_forall. intros c Hc%list_elem_of_In. rewrite forallb_forall in Ht. specialize (Ht c Hc). unfold is_scalar in Ht. lia. Qed.

Lemma ascii_json_str t : forallb is_scalar t = true → ascii_text (json_str t).
Proof.
  intros Ht%scalar_natural. unfold json_str, ascii_text. constructor; [lia|]. apply Forall_app. split; [|by repeat constructor].
  induction Ht as [|c t Hc Ht IH]; [constructor|]. rewrite bind_cons. apply Forall_app. split; [by apply ascii_json_char|done].
Qed.

Lemma ascii_json_strs l : Forall (λ t, forallb is_scalar t = true) l → ascii_text (join (lit ",") (json_str <$> l)).
Proof.
  destruct 1 as [|t l Ht Hl]; [constructor|]. rewrite fmap_cons, join_comma_cons. apply Forall_app.
  split; [by apply ascii_json_str|]. induction Hl as [|t' l Ht' Hl IH]; [constructor|].
  rewrite fmap_cons, bind_cons. apply Forall_app. split; [|done]. constructor; [lia|]. by apply ascii_json_str.
Qed.

Record spec_scalar (s : Specification) : Prop := {
  ss_components : Forall (λ t, forallb is_scalar t = true) (components s);
  ss_packages : Forall (λ t, forallb is_scalar t = true) (spec_packages s);
  ss_url : forallb is_scalar (snapshot_url s) = true;
  ss_suite : forallb is_scalar (suite s) = true;
}.

Lemma canonical_spec_print s :
  dumps_compact (canonical_spec s) =
    (lit "{" ++ json_str (lit "archs") ++ lit ":[" ++ json_str ARCHITECTURE ++ lit "]," ++ json_str (lit "components") ++ lit ":[") ++
    join (lit ",") (json_str <$> components s) ++ 93 :: (lit "," ++ json_str (lit "packages") ++ lit ":[") ++
    join (lit ",") (json_str <$> spec_packages s) ++ 93 :: (lit "," ++ json_str (lit "snapshot_url") ++ lit ":") ++
    json_str (snapshot_url s) ++ (lit "," ++ json_str (lit "suite") ++ lit ":") ++
    json_str (suite s) ++ lit "," ++ json_str (lit "version") ++ lit ":" ++ dec 1 ++ lit "}".
Proof.
  unfold canonical_spec. cbn [dumps_compact List.map join fst snd].
  replace (List.map dumps_compact (VStr <$> components s)) with (json_str <$> components s)
    by (induction (components s) as [|t l IH]; [done|]; by rewrite !fmap_cons, IH).
  replace (List.map dumps_compact (VStr <$> spec_packages s)) with (json_str <$> spec_packages s)
    by (induction (spec_packages s) as [|t l IH]; [done|]; by rewrite !fmap_cons, IH).
  rewrite <- !(assoc_L (++)). done.
Qed.

Lemma ascii_app a b : ascii_text a → ascii_text b → ascii_text (a ++ b).
Proof. intros. by apply Forall_app. Qed.

Lemma ascii_cons c t : 0 <= c < 128 → ascii_text t → ascii_text (c :: t).
Proof. by constructor. Qed.

Ltac ascii_leaf :=
  match goal with
  | |- ascii_text (join _ _) => by apply ascii_json_strs
  | |- ascii_text (json_str (snapshot_url _)) => by apply ascii_json_str
  | |- ascii_text (json_str (suite _)) => by apply ascii_json_str
  | |- ascii_text _ => apply (bool_decide_unpack _); vm_compute; exact I
  end.

Lemma canonical_spec_ascii s : spec_scalar s → ascii_text (dumps_compact (canonical_spec s)).
Proof.
  intros [Hc Hp Hu Hs]. rewrite canonical_spec_print.
  repeat match goal with
  | |- ascii_text (_ ++ _) => apply ascii_app
  | |- ascii_text (_ :: _) => apply ascii_cons; [lia|]
  | |- _ => ascii_leaf
  end.
Qed.

Lemma ascii_scalar t : ascii_text t → forallb is_scalar t = true.
Proof.
  intros Ht. apply forallb_forall. intros c Hc%list_elem_of_In. unfold ascii_text in Ht. rewrite Forall_forall in Ht.
  specialize (Ht c Hc). unfold is_scalar. lia.
Qed.

Lemma app_inv_head_lit (p : text) x y : p ++ x = p ++ y → x = y.
Proof. apply app_inv_head. Qed.

Lemma canonical_spec_inj s s' :
  spec_scalar s → spec_scalar s' → dumps_compact (canonical_spec s) = dumps_compact (canonical_spec s') →
  components s = components s' ∧ spec_packages s = spec_packages s' ∧ snapshot_url s = snapshot_url s' ∧ suite s = suite s'.
Proof.
  intros [Hc Hp Hu Hs] [Hc' Hp' Hu' Hs'] Heq. rewrite !canonical_spec_print in Heq. apply app_inv_head_lit in Heq.
  apply json_strs_inj in Heq as [-> Heq]; [|done..]. apply app_inv_head_lit in Heq.
  apply json_strs_inj in Heq as [-> Heq]; [|done..]. apply app_inv_head_lit in Heq.
  apply json_str_inj in Heq as [-> Heq]; [|done..]. apply app_inv_head_lit in Heq.
  by apply json_str_inj in Heq as [-> _].
Qed.

(** The specification digest identifies the normalized specification. Two specifications with the same [spec_sha256]
    have the same components, packages, snapshot URL and suite, or exhibit two different inputs with the same SHA-256.
    So [--check-spec] accepts a lock only for the specification it was generated from. *)
Theorem spec_sha256_binds s s' :
  spec_scalar s → spec_scalar s' → spec_sha256 s = spec_sha256 s' →
  (components s = components s' ∧ spec_packages s = spec_packages s' ∧ snapshot_url s = snapshot_url s' ∧ suite s = suite s') ∨
  ∃ m m', m ≠ m' ∧ sha256 m = sha256 m'.
Proof.
  intros Hs Hs' Heq. unfold spec_sha256 in Heq. apply (inj hex) in Heq.
  destruct (decide (utf8_encode (dumps_compact (canonical_spec s)) = utf8_encode (dumps_compact (canonical_spec s')))) as [E|E].
  - left. apply canonical_spec_inj; [done..|]. apply (f_equal utf8_decode) in E.
    rewrite !utf8_round_trip in E by (by apply ascii_scalar, canonical_spec_ascii). by apply (inj Some) in E.
  - right. eexists _, _. split; [exact E|exact Heq].
Qed.

(** ** The normal form of a specification *)

Lemma fromkeys_spec seen l x : x ∈ fromkeys seen l ↔ x ∈ l ∧ x ∉ seen.
Proof.
  revert seen. induction l as [|y l IH]; intros seen; cbn [fromkeys]; [rewrite elem_of_nil; tauto|].
  rewrite elem_of_cons. case_bool_decide as Hy.
  - rewrite IH. split; [tauto|]. intros [[->|?] ?]; [done|tauto].
  - rewrite elem_of_cons, IH, not_elem_of_cons. destruct (decide (x = y)) as [->|]; tauto.
Qed.

Lemma fromkeys_NoDup seen l : NoDup (fromkeys seen l).
Proof.
  revert seen. induction l as [|y l IH]; intros seen; simpl; [constructor|].
  case_bool_decide; [done|]. constructor; [|done]. rewrite fromkeys_spec, not_elem_of_cons. tauto.
Qed.

Definition text_lt (a b : text) : Prop := text_le a b ∧ a ≠ b.

Lemma sorted_texts_lt l : NoDup l → StronglySorted text_lt (sorted_texts l).
Proof.
  intros Hl. unfold sorted_texts. assert (Hs : StronglySorted text_le (merge_sort text_le l)) by (apply StronglySorted_merge_sort; apply _).
  assert (Hn : NoDup (merge_sort text_le l)) by (by rewrite (merge_sort_Permutation text_le)).
  induction Hs as [|x k Hk IH Hx]; [constructor|]. apply NoDup_cons in Hn as [Hnx Hn]. constructor; [by apply IH|].
  rewrite Forall_forall in Hx |- *. intros y Hy. split; [by apply Hx|]. by intros ->.
Qed.

Lemma elem_sorted_texts x l : x ∈ sorted_texts l ↔ x ∈ l.
Proof. unfold sorted_texts. by rewrite (merge_sort_Permutation text_le). Qed.

Lemma elem_list_filter {A} (f : A → bool) (l : list A) x : x ∈ List.filter f l ↔ x ∈ l ∧ f x = true.
Proof. rewrite !list_elem_of_In. apply List.filter_In. Qed.

Lemma NoDup_list_filter {A} (f : A → bool) (l : list A) : NoDup l → NoDup (List.filter f l).
Proof. rewrite !NoDup_ListNoDup. apply List.NoDup_filter. Qed.

Lemma normal_components_spec cs :
  StronglySorted text_lt (tail (normal_components cs)) ∧
  (∀ c, c ∈ tail (normal_components cs) ↔ c ∈ cs ∧ c ≠ lit "main").
Proof.
  unfold normal_components. simpl. split.
  - apply sorted_texts_lt, NoDup_list_filter, NoDup_remove_dups.
  - intros c. rewrite elem_sorted_texts, elem_list_filter, elem_of_remove_dups. rewrite negb_true_iff, bool_decide_eq_false. done.
Qed.

Lemma StronglySorted_lt_unique l k :
  StronglySorted text_lt l → StronglySorted text_lt k → (∀ x, x ∈ l ↔ x ∈ k) → l = k.
Proof.
  intros Hl. revert k. induction Hl as [|x l Hl IH Hx]; intros k Hk Heq.
  - destruct k as [|y k]; [done|]. exfalso. apply (elem_of_nil y). apply Heq. by left.
  - destruct Hk as [|y k Hk Hy]; [exfalso; apply (elem_of_nil x), Heq; by left|].
    rewrite Forall_forall in Hx, Hy.
    assert (x = y) as ->.
    { destruct (proj1 (elem_of_cons k x y) (proj1 (Heq x) ltac:(by left))) as [?|Hin]; [done|].
      destruct (proj1 (elem_of_cons l y x) (proj2 (Heq y) ltac:(by left))) as [?|Hin']; [done|].
      apply (anti_symm text_le); [by apply Hx|by apply Hy]. }
    f_equal. apply IH; [done|]. intros z. split; intros Hz.
    + destruct (proj1 (elem_of_cons k z y) (proj1 (Heq z) ltac:(by right))) as [->|?]; [by destruct (Hx y Hz)|done].
    + destruct (proj1 (elem_of_cons l z y) (proj2 (Heq z) ltac:(by right))) as [->|?]; [by destruct (Hy y Hz)|done].
Qed.

(** The order of the components in a channel does not matter: channels that list the same components normalize to the
    same tuple, which starts with [main] and continues with the others in strictly increasing order. *)
Theorem normal_components_canonical cs cs' :
  (∀ c, c ∈ cs ↔ c ∈ cs') →
  normal_components cs = normal_components cs' ∧ head (normal_components cs) = Some (lit "main") ∧
  StronglySorted text_lt (tail (normal_components cs)).
Proof.
  intros Heq. destruct (normal_components_spec cs) as [H1 H2], (normal_components_spec cs') as [H3 H4].
  split; [|done]. unfold normal_components. f_equal.
  apply StronglySorted_lt_unique; [exact H1|exact H3|]. intros c. simpl in *. by rewrite H2, H4, Heq.
Qed.

(** ** Clear-signed messages *)

(** Dash escaping of a signed line. *)
Definition dash_escape (line : text) : text := if startswith line (lit "-") then lit "- " ++ line else line.

(** A clear-signed message: armor headers, the escaped payload, the signature. *)
Definition clear_sign (headers payload signature : list text) : text :=
  join [10] (BEGIN_MESSAGE :: headers ++ [] :: (dash_escape <$> payload) ++ BEGIN_SIGNATURE :: signature).

Lemma unescape_dash_escape line : unescape (dash_escape line) = line.
Proof.
  unfold dash_escape, unescape. destruct (startswith line (lit "-")) eqn:E; [by rewrite startswith_app|].
  destruct (startswith line (lit "- ")) eqn:E'; [|done]. apply startswith_spec in E' as [t ->]. done.
Qed.

Lemma dash_escape_not_signature line : dash_escape line ≠ BEGIN_SIGNATURE.
Proof.
  unfold dash_escape. destruct (startswith line (lit "-")) eqn:E; [done|]. intros ->. done.
Qed.

Lemma index_from_skip x i start pre rest :
  Forall (λ l, l ≠ x) (drop (start - i) pre) → index_from x i start (pre ++ rest) = index_from x (i + length pre) start rest.
Proof.
  revert i. induction pre as [|l pre IH]; intros i Hf; simpl; [by rewrite Nat.add_0_r|].
  destruct (decide (start ≤ i)%nat) as [Hle|Hgt].
  - rewrite bool_decide_true by done. replace (start - i)%nat with 0%nat in Hf by lia. simpl in Hf. inv Hf.
    rewrite bool_decide_false by done. simpl. rewrite IH; [f_equal; lia|]. by replace (start - S i)%nat with 0%nat by lia.
  - rewrite bool_decide_false by done. simpl. rewrite IH; [f_equal; lia|].
    replace (start - i)%nat with (S (start - S i)) in Hf by lia. done.
Qed.

Lemma index_found x start pre rest :
  (start ≤ length pre)%nat → Forall (λ l, l ≠ x) (drop start pre) → index x start (pre ++ x :: rest) = Some (length pre).
Proof.
  intros Hs Hf. unfold index. rewrite index_from_skip by (by rewrite Nat.sub_0_r). simpl.
  by rewrite !bool_decide_true.
Qed.

(** [cleartext_payload] inverts clear signing. For a message whose armor headers are not empty lines it returns
    exactly the signed lines, dash escapes removed and each ended by a newline, whatever the payload contains: a payload
    line that looks like the signature marker is escaped and does not end the payload. *)
Theorem cleartext_payload_clear_sign headers payload signature :
  Forall (λ l, (10 ∉ l) ∧ l ≠ []) headers → Forall (λ l, 10 ∉ l) (payload ++ signature) →
  forallb is_scalar (clear_sign headers payload signature) = true →
  cleartext_payload (utf8_encode (clear_sign headers payload signature)) = Ok (utf8_encode (join [10] payload ++ [10])).
Proof.
  intros Hh Hp Hs. unfold cleartext_payload. rewrite utf8_round_trip by done. cbn [of_option mbind result_bind].
  apply Forall_app in Hp as [Hp Hsig]. unfold clear_sign. rewrite split_on_join; [|done|].
  2: { constructor; [apply (bool_decide_unpack _); by vm_compute|]. apply Forall_app. split; [|constructor; [apply not_elem_of_nil|]].
    - eapply Forall_impl; [exact Hh|]. by intros ? [].
    - apply Forall_app. split; [|constructor; [apply (bool_decide_unpack _); by vm_compute|done]].
      apply Forall_fmap. eapply Forall_impl; [exact Hp|]. intros l Hl. unfold dash_escape. simpl.
      destruct (startswith l (lit "-")); [|done]. rewrite !elem_of_cons. intros [?|[?|?]]; done. }
  set (esc := dash_escape <$> payload).
  set (n := length (BEGIN_MESSAGE :: headers)).
  assert (H1 : index BEGIN_MESSAGE 0 (BEGIN_MESSAGE :: headers ++ [] :: esc ++ BEGIN_SIGNATURE :: signature) = Some 0%nat).
  { apply (index_found _ 0 []); [simpl; lia|constructor]. }
  assert (H2 : index [] 0 (BEGIN_MESSAGE :: headers ++ [] :: esc ++ BEGIN_SIGNATURE :: signature) = Some n).
  { apply (index_found [] 0 (BEGIN_MESSAGE :: headers)); [simpl; lia|]. simpl. constructor; [done|].
    eapply Forall_impl; [exact Hh|]. by intros ? []. }
  rewrite H1. cbn [of_option mbind result_bind]. rewrite H2. cbn [of_option mbind result_bind].
  replace (BEGIN_MESSAGE :: headers ++ [] :: esc ++ BEGIN_SIGNATURE :: signature)
    with (((BEGIN_MESSAGE :: headers ++ [[]]) ++ esc) ++ BEGIN_SIGNATURE :: signature)
    by (simpl; by rewrite <- !(assoc_L (++))).
  assert (Hn : length (BEGIN_MESSAGE :: headers ++ [[]]) = (n + 1)%nat) by (unfold n; simpl; rewrite length_app; simpl; lia).
  rewrite index_found; [|rewrite length_app, Hn; lia|].
  2: { rewrite <- Hn, drop_app_length. unfold esc. apply Forall_fmap, Forall_true. intros l. apply dash_escape_not_signature. }
  cbn [of_option mbind result_bind]. rewrite length_app, Hn. replace (n + 1 + length esc - (n + 1))%nat with (length esc) by lia.
  rewrite <- (assoc_L (++)), <- Hn, drop_app_length, take_app_length. unfold mret, result_ret. do 4 f_equal.
  unfold esc. rewrite <- list_fmap_compose. rewrite <- (list_fmap_id payload) at 2. apply list_fmap_ext. intros _ l _. apply unescape_dash_escape.
Qed.

(** ** Locked packages *)

Lemma mapM_lookup {A B} (f : A → result B) l l' :
  mapM f l = Ok l' → ∀ y, y ∈ l' → ∃ x, x ∈ l ∧ f x = Ok y.
Proof.
  revert l'. induction l as [|x l IH]; intros l' Hm y Hy; simpl in Hm; [apply Ok_inj in Hm as <-; by apply elem_of_nil in Hy|].
  apply bind_Ok_inv in Hm as (z & Hz & Hm). apply bind_Ok_inv in Hm as (k & Hk & Hm). apply Ok_inj in Hm as <-.
  apply elem_of_cons in Hy as [->|Hy]; [exists x; split; [by left|done]|].
  destruct (IH k Hk y Hy) as (x' & ? & ?). exists x'. split; [by right|done].
Qed.

Lemma mapM_elem {A B} (f : A → result B) l l' :
  mapM f l = Ok l' → ∀ x, x ∈ l → ∃ y, y ∈ l' ∧ f x = Ok y.
Proof.
  revert l'. induction l as [|x l IH]; intros l' Hm y Hy; simpl in Hm; [by apply elem_of_nil in Hy|].
  apply bind_Ok_inv in Hm as (z & Hz & Hm). apply bind_Ok_inv in Hm as (k & Hk & Hm). apply Ok_inj in Hm as <-.
  apply elem_of_cons in Hy as [->|Hy]; [exists z; split; [by left|done]|].
  destruct (IH k Hk y Hy) as (x' & ? & ?). exists x'. split; [by right|done].
Qed.

Lemma mapM_fmap_key {A B K} (f : A → result B) (ka : A → K) (kb : B → K) l l' :
  (∀ x y, f x = Ok y → kb y = ka x) → mapM f l = Ok l' → kb <$> l' = ka <$> l.
Proof.
  intros Hk. revert l'. induction l as [|x l IH]; intros l' Hm; simpl in Hm; [by apply Ok_inj in Hm as <-|].
  apply bind_Ok_inv in Hm as (z & Hz & Hm). apply bind_Ok_inv in Hm as (k & Hk' & Hm). apply Ok_inj in Hm as <-.
  rewrite !fmap_cons. by rewrite (Hk _ _ Hz), (IH _ Hk').
Qed.

Lemma text_leb_false a b : text_leb a b = false → text_lt b a.
Proof.
  intros Hab. split.
  - destruct (total text_le a b) as [H|H]; [unfold text_le in H; congruence|done].
  - intros ->. assert (Hr : text_le a a) by reflexivity. unfold text_le in Hr. congruence.
Qed.

Lemma sorted_keys_lt {A} (k : A → text) (l : list A) :
  NoDup (k <$> l) → StronglySorted text_lt (k <$> stable_sort (λ a b, negb (text_leb (k b) (k a))) l).
Proof.
  intros Hnd. set (lt := λ a b, negb (text_leb (k b) (k a))).
  assert (Hs : StronglySorted (λ x y, lt y x = false) (stable_sort lt l)).
  { apply stable_sort_sorted; unfold lt.
    - intros x y z Hxy Hzy. apply negb_true_iff in Hxy. apply negb_false_iff in Hzy. apply negb_false_iff.
      apply text_leb_false in Hxy as [Hxy _]. by apply (transitivity (R := text_le) Hxy).
    - intros x y Hxy. apply negb_true_iff, text_leb_false in Hxy as [Hxy _]. by apply negb_false_iff. }
  rewrite <- (stable_sort_perm lt l) in Hnd. induction Hs as [|x m Hm IH Hx]; [constructor|].
  rewrite fmap_cons in *. apply NoDup_cons in Hnd as [Hnx Hnd]. constructor; [by apply IH|].
  apply Forall_forall. intros y (z & -> & Hz)%list_elem_of_fmap. split.
  - pose proof (proj1 (Forall_forall _ _) Hx z Hz) as Hz'. unfold lt in Hz'. by apply negb_false_iff in Hz'.
  - intros Heq. apply Hnx. rewrite Heq. by apply list_elem_of_fmap_2.
Qed.

Lemma remove_dups_length (l : list text) : length (remove_dups l) = length l → NoDup l.
Proof.
  induction l as [|x l IH]; simpl; [constructor|]. destruct (decide_rel elem_of x l) as [Hin|Hnin]; simpl; intros Hl.
  - assert (length (remove_dups l) ≤ length l)%nat; [|lia]. clear. induction l as [|y l IH]; simpl; [lia|].
    destruct (decide_rel elem_of y l); simpl; lia.
  - constructor; [done|]. apply IH. lia.
Qed.

Lemma locked_packages_spec sel eds url locked :
  _locked_packages sel eds url = Ok locked →
  StronglySorted text_lt (lp_key <$> locked) ∧
  (∀ n p, (n, p) ∈ sel → ∃ l, l ∈ locked ∧ lp_key l = key p ∧ lp_name l = pkg_name p ∧ lp_version l = pkg_version p) ∧
  (∀ l, l ∈ locked → ∃ n p deps, (n, p) ∈ sel ∧ edge_targets sel eds n = Ok deps ∧ l = _locked_package p deps url).
Proof.
  unfold _locked_packages. set (order := stable_sort _ sel). intros Hl.
  apply bind_Ok_inv in Hl as (l' & Hm & Hl). apply bind_Ok_inv in Hl as (? & Hd & Hl). apply Ok_inj in Hl. subst l'.
  apply raise_if_Ok in Hd. bool_inv. apply remove_dups_length in Hd.
  assert (Hf : ∀ x y, (λ '(name, package), deps ← edge_targets sel eds name; mret (_locked_package package deps url)) x = Ok y →
    ∃ deps, edge_targets sel eds x.1 = Ok deps ∧ y = _locked_package x.2 deps url).
  { intros [n p] y Hxy. apply bind_Ok_inv in Hxy as (deps & ? & Hy). apply Ok_inj in Hy as <-. by exists deps. }
  assert (Hk : lp_key <$> locked = (λ x, key x.2) <$> order).
  { eapply mapM_fmap_key; [|exact Hm]. intros i lp (deps & _ & ->)%Hf. done. }
  split; [|split].
  - rewrite Hk. unfold order. apply (sorted_keys_lt (λ x : text * Package, key x.2)).
    rewrite Hk in Hd. unfold order in Hd. by rewrite stable_sort_perm in Hd.
  - intros n p Hin. destruct (mapM_elem _ _ _ Hm (n, p)) as (l & Hl & Hx); [by unfold order; rewrite stable_sort_perm|].
    apply (Hf (n, p)) in Hx as (deps & _ & ->). eexists. split; [exact Hl|done].
  - intros l Hl. destruct (mapM_lookup _ _ _ Hm l Hl) as ([n p] & Hin & Hx).
    apply (Hf (n, p)) in Hx as (deps & He & ->). exists n, p, deps. split; [|done]. unfold order in Hin. by rewrite stable_sort_perm in Hin.
Qed.

Section generated.
Context `{Ucd} (lzma : bytes → option bytes) (fetcher : text → result bytes).

(** A generated lock is closed and ordered. The keys of its packages are strictly increasing, so they are distinct, and
    every dependency entry of a locked package has the key, name and version of a package of the same lock. *)
Theorem generate_closed s release l :
  generate lzma fetcher s release = Ok l →
  StronglySorted text_lt (lp_key <$> lk_packages l) ∧
  ∀ p d, p ∈ lk_packages l → d ∈ lp_dependencies p →
    ∃ q, q ∈ lk_packages l ∧ lp_key q = ld_key d ∧ lp_name q = ld_name d ∧ lp_version q = ld_version d.
Proof.
  intros Hg. unfold generate in Hg.
  apply bind_Ok_inv in Hg as ([[inr rel] gpg] & _ & Hg). apply bind_Ok_inv in Hg as ([fields sums] & _ & Hg).
  apply bind_Ok_inv in Hg as (num & _ & Hg). apply bind_Ok_inv in Hg as ([im ps] & _ & Hg).
  apply bind_Ok_inv in Hg as (u & _ & Hg). apply bind_Ok_inv in Hg as ([sel eds] & _ & Hg).
  apply bind_Ok_inv in Hg as (locked & Hl & Hg). apply Ok_inj in Hg. subst l. cbn [lk_packages].
  apply locked_packages_spec in Hl as (Hs & Hall & Hfrom). split; [done|].
  intros p d Hp Hd. destruct (Hfrom p Hp) as (n & pk & deps & _ & He & ->). cbn [_locked_package lp_dependencies] in Hd.
  apply list_elem_of_fmap in Hd as (q & -> & Hq). unfold sort_by_key in Hq. rewrite stable_sort_perm in Hq.
  unfold edge_targets in He. apply bind_Ok_inv in He as (ts & _ & He).
  destruct (mapM_lookup _ _ _ He q Hq) as (m & _ & Hm). apply of_option_Ok, dget_Some_elem in Hm.
  destruct (Hall m q Hm) as (lq & Hlq & ? & ? & ?). exists lq. done.
Qed.

Lemma fetch_indexes_spec url base sums items acc acc' :
  foldM (fetch_index_step lzma fetcher url base sums) acc items = Ok acc' →
  (∀ m, m ∈ acc.1 → m ∈ acc'.1) ∧
  (∀ c a, (c, a) ∈ items → ∃ data, let rel := c ++ lit "/binary-" ++ a ++ lit "/Packages.xz" in
    fetcher (url ++ lit "/" ++ base ++ lit "/" ++ rel) = Ok data ∧
    dget rel sums = Some (hex (sha256 data), len data) ∧
    _metadata_entry (_index_name c a) (base ++ lit "/" ++ rel) data url (Some (a, c)) ∈ acc'.1) ∧
  (∀ p, p ∈ acc'.2 → p ∈ acc.2 ∨ ∃ c a data t ps, let rel := c ++ lit "/binary-" ++ a ++ lit "/Packages.xz" in
    (c, a) ∈ items ∧ dget rel sums = Some (hex (sha256 data), len data) ∧ lzma data ≫= utf8_decode = Some t ∧
    parse_packages t c a = Ok ps ∧ p ∈ ps).
Proof.
  revert acc. induction items as [|[c a] items IH]; intros acc Hf; cbn [foldM] in Hf.
  - apply Ok_inj in Hf as <-. split_and!; [done|by intros ? ? ?%elem_of_nil|by auto].
  - apply bind_Ok_inv in Hf as (acc1 & H1 & Hf). destruct (IH _ Hf) as (Hm & Hi & Hp). destruct acc as [ms ps].
    unfold fetch_index_step in H1. set (rel := c ++ lit "/binary-" ++ a ++ lit "/Packages.xz") in *.
    apply bind_Ok_inv in H1 as (data & Hd & H1). apply bind_Ok_inv in H1 as (t & Ht & H1).
    apply bind_Ok_inv in H1 as (recs & Hr & H1). apply Ok_inj in H1. subst acc1. cbn [fst snd] in *.
    unfold _fetch_index in Hd. apply bind_Ok_inv in Hd as ([digest size] & Hsum & Hd). apply of_option_Ok in Hsum.
    apply bind_Ok_inv in Hd as (data' & Hfetch & Hd). apply bind_Ok_inv in Hd as (? & Hc & Hd).
    apply Ok_inj in Hd. subst data'. apply raise_if_Ok in Hc. bool_inv.
    assert (Hsum' : dget rel sums = Some (hex (sha256 data), len data)).
    { rewrite Hsum. f_equal. f_equal; [|done]. symmetry. by apply dec_stable. }
    unfold _decode_index in Ht. apply of_option_Ok in Ht. split_and!.
    + intros m Hin. apply Hm, elem_of_app. by left.
    + intros c' a' [Heq|Hin]%elem_of_cons; [|by apply Hi]. injection Heq as -> ->. exists data.
      split_and!; [done|done|]. apply Hm, elem_of_app. right. by apply list_elem_of_singleton.
    + intros p Hin. destruct (Hp p Hin) as [[?|Hrec]%elem_of_app|(c' & a' & d' & t' & ps' & Hin' & Hrest)]; [by left|..]; right.
      * exists c, a, data, t, recs. split_and!; [by left|done..].
      * exists c', a', d', t', ps'. split; [by right|done].
Qed.

(** C14: A generated lock is authenticated by the Release file that was fetched for it. The payload of the fetched InRelease
    is that Release up to a final newline; for every component and index architecture the lock records an index with
    the digest and size that Release lists for it; and every locked package is, up to the component, a record of such an index with the same
    name, version, filename, digest and size. *)
Theorem generate_authenticated s release l :
  generate lzma fetcher s release = Ok l →
  ∃ inrelease release_data payload fields sums,
    let base := lit "dists/" ++ suite s in
    fetcher (snapshot_url s ++ lit "/" ++ base ++ lit "/InRelease") = Ok inrelease ∧
    fetcher (snapshot_url s ++ lit "/" ++ base ++ lit "/Release") = Ok release_data ∧
    cleartext_payload inrelease = Ok payload ∧ (payload = release_data ∨ payload = release_data ++ [Z2b 10]) ∧
    release_checksums release_data = Ok (fields, sums) ∧
    (∀ c a, c ∈ components s → a ∈ INDEX_ARCHITECTURES → ∃ data,
      let rel := c ++ lit "/binary-" ++ a ++ lit "/Packages.xz" in
      dget rel sums = Some (hex (sha256 data), len data) ∧
      _metadata_entry (_index_name c a) (base ++ lit "/" ++ rel) data (snapshot_url s) (Some (a, c)) ∈ lk_metadata l) ∧
    (∀ p, p ∈ lk_packages l → ∃ c a data t ps q,
      let rel := c ++ lit "/binary-" ++ a ++ lit "/Packages.xz" in
      c ∈ components s ∧ a ∈ INDEX_ARCHITECTURES ∧
      dget rel sums = Some (hex (sha256 data), len data) ∧ lzma data ≫= utf8_decode = Some t ∧
      parse_packages t c a = Ok ps ∧ q ∈ ps ∧ lp_name p = pkg_name q ∧ lp_version p = pkg_version q ∧
      lp_filename p = pkg_filename q ∧ lp_sha256 p = pkg_sha256 q ∧ lp_size p = pkg_size q).
Proof.
  intros Hg. unfold generate in Hg.
  apply bind_Ok_inv in Hg as ([[inr rel] gpg] & Hrel & Hg). apply bind_Ok_inv in Hg as ([fields sums] & Hsums & Hg).
  apply bind_Ok_inv in Hg as (num & _ & Hg). apply bind_Ok_inv in Hg as ([im ps] & Hidx & Hg).
  apply bind_Ok_inv in Hg as (u & Hu & Hg). apply bind_Ok_inv in Hg as ([sel eds] & Hres & Hg).
  apply bind_Ok_inv in Hg as (locked & Hl & Hg). apply Ok_inj in Hg. subst l. cbn [lk_packages lk_metadata].
  unfold _fetch_release in Hrel. apply bind_Ok_inv in Hrel as (a1 & Hinr & Hrel). apply bind_Ok_inv in Hrel as (a2 & Hr & Hrel).
  apply bind_Ok_inv in Hrel as (a3 & _ & Hrel). apply bind_Ok_inv in Hrel as (payload & Hpay & Hrel).
  apply bind_Ok_inv in Hrel as (? & Hchk & Hrel). apply Ok_inj in Hrel. simplify_eq. apply raise_if_Ok in Hchk.
  unfold _fetch_indexes in Hidx. apply fetch_indexes_spec in Hidx as (_ & Hi & Hp). cbn [fst snd] in *.
  exists inr, rel, payload, fields, sums. split_and!; try done.
  - apply andb_false_iff in Hchk as [Hchk|Hchk]; bool_inv; [left|right]; by apply dec_stable.
  - intros c a Hc Ha. destruct (Hi c a) as (data & _ & Hsum & Hm).
    { apply list_elem_of_bind. exists c. split; [by apply list_elem_of_fmap_2|done]. }
    exists data. split; [done|]. apply elem_of_app. by right.
  - intros p Hp'. apply locked_packages_spec in Hl as (_ & _ & Hfrom). destruct (Hfrom p Hp') as (n & pk & deps & Hin & _ & ->).
    apply universe_inv in Hu as (b & Hb & Huok & Hperm).
    apply resolve_spec in Hres as (c & -> & _ & [[_ Hn _ _] _ _] & _); [|done].
    destruct (Hn _ _ Hin) as [_ Hpk]. rewrite Hperm in Hpk.
    apply list_elem_of_bind in Hpk as ([n' d] & Hpk & Hnd). apply list_elem_of_fmap in Hpk as ([id q] & Heq & Hq).
    simpl in Heq. subst pk. pose proof (add_records_origin _ _ _ _ _ _ Hb Hnd Hq) as Hqps.
    destruct (Hp q Hqps) as [?%elem_of_nil|(c' & a & data & t & recs & Hca & ? & ? & ? & ?)]; [done|].
    apply list_elem_of_bind in Hca as (c'' & Hca & Hc''). apply list_elem_of_fmap in Hca as (a' & Heq & Ha'). simplify_eq.
    exists c'', a', data, t, recs, q. by split_and!.
Qed.
End generated.

(** ** A small snapshot *)

Module LockDemo.
Definition para (fields : list (string * string)) : paragraph := prod_map lit lit <$> fields.

Definition record (name version depends : string) : paragraph :=
  para [("Package", name); ("Version", version); ("Architecture", "amd64"); ("Depends", depends); ("Size", "7");
        ("Filename", "pool/x.deb"); ("Priority", "required");
        ("SHA256", "0123456789abcdef0123456789abcdef0123456789abcdef0123456789abcdef")]%string.

Definition index_data : bytes := Eval vm_compute in
  utf8_encode (render_control [record "base-files" "13.8" ""; record "app" "1.0" "base-files (>= 13)"]).

Definition release_line (data : bytes) (path : string) : text :=
  lit " " ++ hex (sha256 data) ++ lit " " ++ dec (len data) ++ lit " " ++ lit path.

Definition release_lines : list text := Eval vm_compute in
  [lit "Codename: trixie"; lit "Version: 13.1"; lit "Components: main contrib"; lit "Architectures: all amd64";
   lit "SHA256:"; release_line index_data "main/binary-amd64/Packages.xz"; release_line [] "main/binary-all/Packages.xz"].

Definition release_data : bytes := Eval vm_compute in utf8_encode (join [10] release_lines ++ [10]).
Definition inrelease : bytes := Eval vm_compute in
  utf8_encode (clear_sign [lit "Hash: SHA512"] release_lines [lit "-----END PGP SIGNATURE-----"; []]).

Definition url : text := lit "https://snapshot.debian.org/archive/debian/20250814T000000Z".

Definition fetcher (t : text) : result bytes :=
  let served := [(url ++ lit "/dists/trixie/InRelease", inrelease); (url ++ lit "/dists/trixie/Release", release_data);
                 (url ++ lit "/dists/trixie/Release.gpg", blit "sig");
                 (url ++ lit "/dists/trixie/main/binary-amd64/Packages.xz", index_data);
                 (url ++ lit "/dists/trixie/main/binary-all/Packages.xz", [])] in
  of_option (LockError "cannot download" [AText t]) (dget t served).

Definition specification : Specification :=
  {| snapshot_url := url; snapshot := lit "20250814T000000Z"; suite := lit "trixie"; components := [lit "main"];
     spec_packages := [lit "app"] |}.

Abbreviation run := (@generate ascii_ucd Some fetcher specification None).

Definition the_lock : result lock := Eval vm_compute in run.

Lemma run_Ok : ∃ l, run = Ok l ∧ lp_name <$> lk_packages l = [lit "app"; lit "base-files"].
Proof.
  destruct the_lock as [l|] eqn:E; [|done]. exists l. split; [rewrite <- E; by vm_compute|]. by injection E as <-.
Qed.
End LockDemo.

Lemma generate_closed_witness :
  ∃ l, LockDemo.run = Ok l ∧ lp_name <$> lk_packages l = [lit "app"; lit "base-files"] ∧
    StronglySorted text_lt (lp_key <$> lk_packages l).
Proof.
  destruct LockDemo.run_Ok as (l & Hl & Hn). exists l. split; [exact Hl|]. split; [exact Hn|].
  exact (proj1 (@generate_closed ascii_ucd Some LockDemo.fetcher LockDemo.specification None l Hl)).
Defined.

Lemma generate_authenticated_witness :
  ∃ l inrelease release_data payload, LockDemo.run = Ok l ∧ cleartext_payload inrelease = Ok payload ∧
    (payload = release_data ∨ payload = release_data ++ [Z2b 10]).
Proof.
  destruct LockDemo.run_Ok as (l & Hl & _).
  destruct (@generate_authenticated ascii_ucd Some LockDemo.fetcher LockDemo.specification None l Hl)
    as (i & r & p & f & s & _ & _ & H3 & H4 & _).
  exists l, i, r, p. split; [exact Hl|]. split; [exact H3|exact H4].
Defined.

Lemma cleartext_payload_clear_sign_witness :
  cleartext_payload LockDemo.inrelease = Ok LockDemo.release_data.
Proof.
  apply (cleartext_payload_clear_sign [lit "Hash: SHA512"] LockDemo.release_lines [lit "-----END PGP SIGNATURE-----"; []]);
    [apply (bool_decide_unpack _); by vm_compute..|by vm_compute].
Defined.

Lemma normal_components_canonical_witness :
  normal_components [lit "non-free"; lit "main"; lit "contrib"] = normal_components [lit "main"; lit "contrib"; lit "non-free"].
Proof.
  apply (normal_components_canonical [lit "non-free"; lit "main"; lit "contrib"] [lit "main"; lit "contrib"; lit "non-free"]).
  intros c. rewrite !elem_of_cons. tauto.
Defined.

Lemma spec_sha256_binds_witness :
  (components LockDemo.specification = components LockDemo.specification ∧
   spec_packages LockDemo.specification = spec_packages LockDemo.specification ∧
   snapshot_url LockDemo.specification = snapshot_url LockDemo.specification ∧
   suite LockDemo.specification = suite LockDemo.specification) ∨ ∃ m m', m ≠ m' ∧ sha256 m = sha256 m'.
Proof.
  assert (Hs : spec_scalar LockDemo.specification).
  { split; [apply (bool_decide_unpack _); by vm_compute..|by vm_compute|by vm_compute]. }
  apply (spec_sha256_binds LockDemo.specification LockDemo.specification Hs Hs). reflexivity.
Defined.
