(* ===== verification/JsonSchema.v ===== *)
(** * The meaning of a JSON Schema (draft 2020-12)

    The assertion keywords that the hardware qualification schemas use, as the standard defines them: a schema object
    accepts a value when every keyword does; a keyword for another type of value accepts; [then] only applies together
    with [if]; [format] and the metadata keywords are annotations. References have the form [#/$defs/name]. The regular
    expression engine of [pattern] is a parameter. Recursion is on fuel; [fits] computes whether some fuel is enough for a
    schema, and then more fuel gives the same answer. *)
From S2P Require Import Prelude Bytes PyText Collections Json.

(** The name of a [#/$defs/] reference. *)
Definition ref_name (t : text) : text := drop 8 t.

Definition json_type (type : text) (j : json) : bool :=
  match j with
  | JObj _ => bool_decide (type = lit "object")
  | JList _ => bool_decide (type = lit "array")
  | JStr _ => bool_decide (type = lit "string")
  | JBool _ => bool_decide (type = lit "boolean")
  | JInt _ => bool_decide (type ∈ [lit "integer"; lit "number"])
  | JFloat _ => bool_decide (type = lit "number")
  | JNull => bool_decide (type = lit "null")
  end.

(** A value equals a string constant. The schemas have no other constants. *)
Definition is_const (v : jv) (j : json) : bool :=
  match v, j with VStr a, JStr b => bool_decide (a = b) | _, _ => false end.

(** Equality of values for [uniqueItems]. *)
Fixpoint json_eqb (a b : json) : bool :=
  match a, b with
  | JNull, JNull => true
  | JBool x, JBool y => Bool.eqb x y
  | JInt x, JInt y => x =? y
  | JStr x, JStr y => bool_decide (x = y)
  | JList l, JList k =>
      (fix go l k := match l, k with
        | [], [] => true
        | x :: l, y :: k => json_eqb x y && go l k
        | _, _ => false
        end) l k
  | JObj l, JObj k =>
      (fix go l := match l with
        | [] => true
        | (n, x) :: l => match dget n k with Some y => json_eqb x y | None => false end && go l
        end) l && (length l =? length k)%nat
  | JFloat (Finite m e), JFloat (Finite m' e') => m * 2 ^ (Z.max 0 (e - e')) =? m' * 2 ^ (Z.max 0 (e' - e))
  | JFloat (Infinite x), JFloat (Infinite y) => Bool.eqb x y
  | _, _ => false
  end.

Fixpoint distinct (l : list json) : bool :=
  match l with [] => true | x :: l => negb (existsb (json_eqb x) l) && distinct l end.

Section schema.
Context (matches : text → text → bool) (defs : list (text * jv)).

(** The named members of an object that a schema member applies to. *)
Definition property_names (schema : list (text * jv)) : list text :=
  match dget (lit "properties") schema with Some (VObj ps) => dkeys ps | _ => [] end.

Definition keyword_in (k : text) (names : list string) : bool := existsb (λ s, bool_decide (k = lit s)) names.

(** One keyword, given what subschemas accept. *)
Definition keyword (accepts : jv → json → bool) (schema : list (text * jv)) (j : json) (k : text) (v : jv) : bool :=
  if keyword_in k ["$ref"] then
    match v with VStr r => match dget (ref_name r) defs with Some d => accepts d j | None => false end | _ => false end
  else if keyword_in k ["type"] then match v with VStr t => json_type t j | _ => false end
  else if keyword_in k ["const"] then is_const v j
  else if keyword_in k ["enum"] then match v with VList vs => existsb (λ v, is_const v j) vs | _ => false end
  else if keyword_in k ["not"] then negb (accepts v j)
  else if keyword_in k ["allOf"] then match v with VList vs => forallb (λ v, accepts v j) vs | _ => false end
  else if keyword_in k ["if"] then
    negb (accepts v j) || match dget (lit "then") schema with Some c => accepts c j | None => true end
  else match j with
  | JObj o =>
      if keyword_in k ["properties"] then
        match v with
        | VObj ps => forallb (λ '(n, s), match dget n o with Some x => accepts s x | None => true end) ps
        | _ => false
        end
      else if keyword_in k ["required"] then
        match v with
        | VList vs => forallb (λ v, match v with VStr n => dmem n o | _ => false end) vs
        | _ => false
        end
      else if keyword_in k ["additionalProperties"] then
        forallb (λ '(n, x), bool_decide (n ∈ property_names schema) || accepts v x) o
      else if keyword_in k ["propertyNames"] then forallb (λ '(n, _), accepts v (JStr n)) o
      else if keyword_in k ["minProperties"] then match v with VInt n => n <=? len o | _ => false end
      else true
  | JList l =>
      if keyword_in k ["items"] then forallb (accepts v) l
      else if keyword_in k ["contains"] then existsb (accepts v) l
      else if keyword_in k ["minItems"] then match v with VInt n => n <=? len l | _ => false end
      else if keyword_in k ["maxItems"] then match v with VInt n => len l <=? n | _ => false end
      else if keyword_in k ["uniqueItems"] then match v with VBool true => distinct l | _ => true end
      else true
  | JStr t =>
      if keyword_in k ["minLength"] then match v with VInt n => n <=? len t | _ => false end
      else if keyword_in k ["pattern"] then match v with VStr p => matches p t | _ => false end
      else true
  | _ => true
  end.

Fixpoint valid (fuel : nat) (s : jv) (j : json) : bool :=
  match fuel with
  | O => false
  | S fuel =>
      match s with
      | VBool b => b
      | VObj schema => forallb (λ '(k, v), keyword (valid fuel) schema j k v) schema
      | _ => false
      end
  end.

(** The subschemas that a keyword may consult. *)
Definition subschemas (schema : list (text * jv)) (k : text) (v : jv) : list jv :=
  if keyword_in k ["$ref"] then
    match v with VStr r => match dget (ref_name r) defs with Some d => [d] | None => [] end | _ => [] end
  else if keyword_in k ["not"; "additionalProperties"; "propertyNames"; "items"; "contains"] then [v]
  else if keyword_in k ["if"] then v :: match dget (lit "then") schema with Some c => [c] | None => [] end
  else if keyword_in k ["allOf"] then match v with VList vs => vs | _ => [] end
  else if keyword_in k ["properties"] then match v with VObj ps => dvalues ps | _ => [] end
  else [].

(** The fuel is enough for a schema, references included. *)
Fixpoint fits (fuel : nat) (s : jv) : bool :=
  match fuel with
  | O => false
  | S fuel =>
      match s with
      | VObj schema => forallb (λ '(k, v), forallb (fits fuel) (subschemas schema k v)) schema
      | _ => true
      end
  end.

Lemma forallb_ext_in {A} (f g : A → bool) l : (∀ x, x ∈ l → f x = g x) → forallb f l = forallb g l.
Proof.
  induction l as [|x l IH]; intros Hfg; [done|]. simpl. rewrite Hfg by (by left). f_equal. apply IH. intros y Hy. apply Hfg. by right.
Qed.
Lemma existsb_ext_in {A} (f g : A → bool) l : (∀ x, x ∈ l → f x = g x) → existsb f l = existsb g l.
Proof.
  induction l as [|x l IH]; intros Hfg; [done|]. simpl. rewrite Hfg by (by left). f_equal. apply IH. intros y Hy. apply Hfg. by right.
Qed.

Lemma keyword_in_one k s : keyword_in k [s] = true → k = lit s.
Proof. unfold keyword_in. simpl. rewrite orb_false_r. apply bool_decide_eq_true. Qed.

(** A keyword only consults its subschemas. *)
Lemma keyword_ext (f g : jv → json → bool) schema j k v :
  (∀ s j, s ∈ subschemas schema k v → f s j = g s j) → keyword f schema j k v = keyword g schema j k v.
Proof.
  intros Hfg. unfold keyword, subschemas in *.
  destruct (keyword_in k ["$ref"]) eqn:E1.
  { destruct v; try done. destruct (dget _ defs); [|done]. apply Hfg. by left. }
  destruct (keyword_in k ["type"]); [done|]. destruct (keyword_in k ["const"]); [done|].
  destruct (keyword_in k ["enum"]); [done|].
  destruct (keyword_in k ["not"]) eqn:E2.
  { apply keyword_in_one in E2. subst k. simpl in Hfg. f_equal. apply Hfg. by left. }
  destruct (keyword_in k ["allOf"]) eqn:E3.
  { apply keyword_in_one in E3. subst k. simpl in Hfg.
    destruct v; try done. by apply forallb_ext_in; intros; apply Hfg. }
  destruct (keyword_in k ["if"]) eqn:E4.
  { apply keyword_in_one in E4. subst k. simpl in Hfg.
    rewrite (Hfg v j) by (by left). destruct (dget (lit "then") schema); [|done]. rewrite Hfg; [done|]. right. by left. }
  destruct j; try done.
  - destruct (keyword_in k ["items"]) eqn:E5.
    { apply keyword_in_one in E5. subst k. simpl in Hfg.
      apply forallb_ext_in. intros. apply Hfg. by left. }
    destruct (keyword_in k ["contains"]) eqn:E6; [|done].
    apply keyword_in_one in E6. subst k. simpl in Hfg.
    apply existsb_ext_in. intros. apply Hfg. by left.
  - destruct (keyword_in k ["properties"]) eqn:E5.
    { apply keyword_in_one in E5. subst k. simpl in Hfg.
      destruct v; try done. apply forallb_ext_in. intros [n s] Hin. destruct (dget n items); [|done]. apply Hfg.
      unfold dvalues. by apply (list_elem_of_fmap_2 snd) in Hin. }
    destruct (keyword_in k ["required"]); [done|].
    destruct (keyword_in k ["additionalProperties"]) eqn:E6.
    { apply keyword_in_one in E6. subst k. simpl in Hfg.
      apply forallb_ext_in. intros [n x] _. f_equal. apply Hfg. by left. }
    destruct (keyword_in k ["propertyNames"]) eqn:E7; [|done].
    apply keyword_in_one in E7. subst k. simpl in Hfg.
    apply forallb_ext_in. intros [n x] _. apply Hfg. by left.
Qed.

Lemma fits_enough n m s j : (n ≤ m)%nat → fits n s = true → valid m s j = valid n s j.
Proof.
  revert m s j. induction n as [|n IH]; intros [|m] s j Hm Hf; [done|done|lia|]. simpl in *. destruct s; try done.
  apply forallb_ext_in. intros [k v] Hin. apply keyword_ext. intros s' j' Hs'. apply IH; [lia|].
  rewrite forallb_forall in Hf. specialize (Hf (k, v) (proj1 (list_elem_of_In _ _) Hin)). simpl in Hf.
  rewrite forallb_forall in Hf. apply Hf. by apply list_elem_of_In.
Qed.

(** ** Reading an accepted value *)

Lemma valid_keyword n schema j k v :
  valid (S n) (VObj schema) j = true → (k, v) ∈ schema → keyword (valid n) schema j k v = true.
Proof. simpl. rewrite forallb_forall. intros Hv Hin%list_elem_of_In. by apply (Hv (k, v)). Qed.

Lemma valid_properties n schema o ps k s x :
  valid (S n) (VObj schema) (JObj o) = true → (lit "properties", VObj ps) ∈ schema → (k, s) ∈ ps → dget k o = Some x →
  valid n s x = true.
Proof.
  intros Hv Hin Hks Hx. assert (Hk := valid_keyword _ _ _ _ _ Hv Hin).
  change (forallb (λ '(k, s), match dget k o with Some x => valid n s x | None => true end) ps = true) in Hk.
  rewrite forallb_forall in Hk. specialize (Hk (k, s) (proj1 (list_elem_of_In _ _) Hks)). cbn beta iota in Hk. by rewrite Hx in Hk.
Qed.

Lemma valid_required n schema o vs k :
  valid (S n) (VObj schema) (JObj o) = true → (lit "required", VList vs) ∈ schema → VStr k ∈ vs → ∃ x, dget k o = Some x.
Proof.
  intros Hv Hin Hk. assert (Hr := valid_keyword _ _ _ _ _ Hv Hin).
  change (forallb (λ v, match v with VStr n => dmem n o | _ => false end) vs = true) in Hr.
  rewrite forallb_forall in Hr. specialize (Hr (VStr k) (proj1 (list_elem_of_In _ _) Hk)). cbn beta iota in Hr.
  unfold dmem in Hr. apply bool_decide_eq_true in Hr. destruct (dget k o) as [x|] eqn:E; [by exists x|]. by apply dget_None in E.
Qed.

Lemma valid_allOf n schema j vs v :
  valid (S n) (VObj schema) j = true → (lit "allOf", VList vs) ∈ schema → v ∈ vs → valid n v j = true.
Proof.
  intros Hv Hin Hvs. assert (Hk := valid_keyword _ _ _ _ _ Hv Hin).
  change (forallb (λ v, valid n v j) vs = true) in Hk. rewrite forallb_forall in Hk. apply Hk. by apply list_elem_of_In.
Qed.

Lemma valid_ref n name d j :
  dget name defs = Some d → valid (S n) (VObj [(lit "$ref", VStr (lit "#/$defs/" ++ name))]) j = valid n d j.
Proof.
  intros Hd. cbn [valid forallb]. rewrite andb_true_r.
  change (match dget name defs with Some d => valid n d j | None => false end = valid n d j). by rewrite Hd.
Qed.

Lemma valid_object n schema j :
  valid (S n) (VObj schema) j = true → (lit "type", VStr (lit "object")) ∈ schema → ∃ o, j = JObj o.
Proof.
  intros Hv Hin. assert (Hk := valid_keyword _ _ _ _ _ Hv Hin). change (json_type (lit "object") j = true) in Hk.
  destruct j; try done. by eexists.
Qed.

Lemma valid_enum_of n l j :
  valid (S n) (VObj [(lit "enum", VList (VStr <$> l))]) j = true ↔ ∃ t, j = JStr t ∧ t ∈ l.
Proof.
  cbn [valid forallb]. rewrite andb_true_r.
  change (existsb (λ v, is_const v j) (VStr <$> l) = true ↔ ∃ t, j = JStr t ∧ t ∈ l).
  rewrite existsb_exists. split.
  - intros (v & Hv & Hc). apply list_elem_of_In, list_elem_of_fmap in Hv as (t & -> & Ht). unfold is_const in Hc.
    destruct j; try done. apply bool_decide_eq_true in Hc. subst. eauto.
  - intros (t & -> & Ht). exists (VStr t). split; [apply list_elem_of_In; by apply list_elem_of_fmap_2|].
    unfold is_const. by apply bool_decide_eq_true.
Qed.

Lemma valid_const n t j : valid (S n) (VObj [(lit "const", VStr t)]) j = true ↔ j = JStr t.
Proof.
  cbn [valid forallb]. rewrite andb_true_r. change (is_const (VStr t) j = true ↔ j = JStr t). unfold is_const.
  destruct j; try (split; [done|congruence]). rewrite bool_decide_eq_true. naive_solver.
Qed.

Lemma valid_rule n c t j :
  valid (S n) (VObj [(lit "if", c); (lit "then", t)]) j = true → valid n c j = true → valid n t j = true.
Proof.
  intros Hv Hc. assert (Hk := valid_keyword _ _ _ (lit "if") c Hv ltac:(by left)).
  change (negb (valid n c j) || valid n t j = true) in Hk. by rewrite Hc in Hk.
Qed.

Lemma valid_contains n s j :
  valid (S n) (VObj [(lit "contains", s)]) j = true → ∀ l, j = JList l → ∃ x, x ∈ l ∧ valid n s x = true.
Proof.
  intros Hv l ->. assert (Hk := valid_keyword _ _ _ (lit "contains") s Hv ltac:(by left)).
  change (existsb (valid n s) l = true) in Hk. apply existsb_exists in Hk as (x & Hx & ?). exists x.
  split; [by apply list_elem_of_In|done].
Qed.

Lemma valid_additional n schema o v k x :
  valid (S n) (VObj schema) (JObj o) = true → (lit "additionalProperties", v) ∈ schema → (k, x) ∈ o →
  k ∉ property_names schema → valid n v x = true.
Proof.
  intros Hv Hin Hkx Hk. assert (Ha := valid_keyword _ _ _ _ _ Hv Hin).
  change (forallb (λ '(k, x), bool_decide (k ∈ property_names schema) || valid n v x) o = true) in Ha.
  rewrite forallb_forall in Ha. specialize (Ha (k, x) (proj1 (list_elem_of_In _ _) Hkx)). cbn beta iota in Ha.
  by rewrite bool_decide_false in Ha.
Qed.

Lemma valid_array n schema j :
  valid (S n) (VObj schema) j = true → (lit "type", VStr (lit "array")) ∈ schema → ∃ l, j = JList l.
Proof.
  intros Hv Hin. assert (Hk := valid_keyword _ _ _ _ _ Hv Hin). change (json_type (lit "array") j = true) in Hk.
  destruct j; try done. by eexists.
Qed.

Lemma valid_items n schema l v x :
  valid (S n) (VObj schema) (JList l) = true → (lit "items", v) ∈ schema → x ∈ l → valid n v x = true.
Proof.
  intros Hv Hin Hx. assert (Hk := valid_keyword _ _ _ _ _ Hv Hin). change (forallb (valid n v) l = true) in Hk.
  rewrite forallb_forall in Hk. apply Hk. by apply list_elem_of_In.
Qed.

(** [{"properties": {k: s}}] on an object. *)
Lemma valid_prop1 n k s o :
  valid (S n) (VObj [(lit "properties", VObj [(k, s)])]) (JObj o) = match dget k o with Some x => valid n s x | None => true end.
Proof.
  cbn [valid forallb]. rewrite andb_true_r.
  change (forallb (λ '(k, s), match dget k o with Some x => valid n s x | None => true end) [(k, s)] =
    match dget k o with Some x => valid n s x | None => true end).
  cbn [forallb]. by rewrite andb_true_r.
Qed.

Lemma valid_not n s j : valid (S n) (VObj [(lit "not", s)]) j = negb (valid n s j).
Proof. cbn [valid forallb]. rewrite andb_true_r. done. Qed.
End schema.
