(* ===== verification/Qualification.v ===== *)
(** * Hardware qualification: [ci/hardware_qualification_schemas.py]

    The class, Secure Boot state and check tables, the two JSON Schemas and the Markdown tables generated from them.
    A schema is the [jv] value that the code builds, keys in the order it inserts them; [dump] sorts them. *)
From S2P Require Import Prelude Bytes PyText Collections Json.

Definition DOC : text := lit "docs/hardware-qualification.md".
Definition RESULT_SCHEMA : text := lit "docs/hardware-qualification-result.schema.json".
Definition SIGNOFF_SCHEMA : text := lit "docs/hardware-qualification-signoff.schema.json".
Definition SCHEMA_BASE : text := lit "https://github.com/maxbirkner/rules_mkosi/blob/main/".

Definition TRANSPORTS : dict text text :=
  [(lit "nvme", lit "NVMe"); (lit "sata", lit "SATA"); (lit "mmc", lit "eMMC"); (lit "usb", lit "USB")].
Definition NETWORKS : dict text (text * text) :=
  [(lit "wired", (lit "Wired", lit "network-wired")); (lit "wifi", (lit "Wi-Fi", lit "network-wifi"))].
Definition CONSOLES : dict text (text * text) :=
  [(lit "serial", (lit "Serial", lit "console-serial")); (lit "graphical", (lit "Graphical", lit "console-graphical"))].
Definition TPM2 : dict text (text * list text) :=
  [(lit "present", (lit "Present", [lit "firmware"; lit "discrete"]));
   (lit "absent", (lit "Absent", [lit "absent"]));
   (lit "any", (lit "Any", [lit "firmware"; lit "discrete"; lit "absent"]))].

Record HardwareClass := {
  hc_name : text; machine : text; generation : text; tier : text; boot_mode : text; secure_boot : list text;
  transports : list text; network : list text; network_note : text; consoles : list text; console_note : text;
  tpm2 : text }.

Definition hardware_class (name machine generation tier boot_mode : string) (secure_boot transports network : list string)
    (network_note : string) (consoles : list string) (console_note tpm2 : string) : HardwareClass :=
  {| hc_name := lit name; machine := lit machine; generation := lit generation; tier := lit tier;
     boot_mode := lit boot_mode; secure_boot := lit <$> secure_boot; transports := lit <$> transports;
     network := lit <$> network; network_note := lit network_note; consoles := lit <$> consoles;
     console_note := lit console_note; tpm2 := lit tpm2 |}.

Definition CLASSES : list HardwareClass := [
  hardware_class "uefi-modern-desktop" "Desktop, small form factor, or mini PC with a plug-in GPU or NIC" "2019 or newer"
    "uefi" "uefi" ["disabled"; "setup-mode"; "custom-keys"] ["nvme"] ["wired"] "" ["graphical"] "" "present";
  hardware_class "uefi-mobile-apu" "Laptop or handheld with an AMD APU or Intel mobile SoC" "2020 or newer"
    "uefi" "uefi" ["disabled"; "setup-mode"] ["nvme"] ["wifi"] "with firmware" ["graphical"] "internal display" "present";
  hardware_class "uefi-embedded-headless" "Fanless industrial box without display" "2016 or newer"
    "uefi" "uefi" ["setup-mode"; "custom-keys"] ["mmc"; "sata"] ["wired"] "several ports" ["serial"] "" "any";
  hardware_class "uefi-older-generation" "Office desktop of an early UEFI generation" "2012 to 2018"
    "uefi" "uefi" ["disabled"; "microsoft-factory-keys"] ["sata"] ["wired"] "" ["graphical"] "" "absent";
  hardware_class "uefi-removable-usb" "Any UEFI machine starting from the removable-media path" "Any"
    "uefi" "uefi" ["disabled"] ["usb"] ["wired"] "" ["graphical"] "" "any";
  hardware_class "bios-legacy-only" "Desktop without UEFI" "2006 to 2012"
    "bios" "bios" ["not-applicable"] ["sata"] ["wired"] "" ["graphical"] "VGA text, serial if present" "absent";
  hardware_class "bios-csm" "UEFI machine booting through its Compatibility Support Module" "2012 to 2020"
    "bios" "csm" ["not-applicable"] ["sata"] ["wired"] "" ["graphical"] "" "any"]%string.

(** Name, firmware before the first boot, image, and expected result of each state. *)
Definition SECURE_BOOT_STATES : list (text * text * text * text) := [
  (lit "disabled", lit "Secure Boot off", lit "Unsigned UEFI release image",
   lit "Boots; `bootctl status` reports Secure Boot disabled.");
  (lit "setup-mode", lit "Secure Boot on, no PK enrolled",
   lit "[`secure_boot_signed_image`](secure-boot.md#signed-disk-images-and-key-auto-enrollment) with " ++
     lit "`auto_enroll_keys` and `secure_boot_enroll = " ++ [34] ++ lit "force" ++ [34] ++ lit "`",
   lit "systemd-boot enrolls the keys and resets; then Secure Boot is enforced.");
  (lit "custom-keys", lit "Qualification PK, KEK, and db already enrolled",
   lit "`secure_boot_signed_image` without `auto_enroll_keys`",
   lit "Signed binaries boot; an unsigned UKI is refused.");
  (lit "microsoft-factory-keys", lit "Vendor default keys", lit "`secure_boot_signed_image` without `auto_enroll_keys`",
   lit "The firmware refuses the custom-signed systemd-boot, which proves enforcement and the need for enrollment.");
  (lit "not-applicable", lit "BIOS or CSM boot, Secure Boot off", lit "BIOS release image",
   lit "Secure Boot does not apply.")].

Definition STATES : list text := (λ state, state.1.1.1) <$> SECURE_BOOT_STATES.
Definition FACTORY_KEYS : text := lit "microsoft-factory-keys".
Definition SIGNED_STATES : list text := [lit "setup-mode"; lit "custom-keys"; FACTORY_KEYS].
Definition ENFORCING_STATES : list text := [lit "setup-mode"; lit "custom-keys"].
Definition AUTO_ENROLL_KEYS : list text := [lit "PK.auth"; lit "KEK.auth"; lit "db.auth"].
Definition FACTORY_KEY_CHECKS : list text := [lit "artifact-digest"; lit "identity"; lit "secure-boot-enforcement"].

Record Check := { ck_id : text; ck_when : text; ck_passes : text; ck_values : list text }.

Definition check (id when : string) (passes : text) (values : list text) : Check :=
  {| ck_id := lit id; ck_when := lit when; ck_passes := passes; ck_values := values |}.

Definition CHECKS : list Check := [
  check "artifact-digest" "always"
    (lit "`sha256sum` of the written file and of the device read back to the file's size match `written_sha256`.") [];
  check "identity" "always" (lit "`/sys/class/dmi/id/` and `/proc/cpuinfo` values are recorded in `machine`.") [];
  check "firmware-boot" "always"
    (lit "The firmware starts the boot loader from the boot disk without a manually created boot entry.") [];
  check "boot-chain" "always"
    (lit "`uefi`: `bootctl status` reports systemd-boot and the UKI's systemd-stub. " ++
     lit "`bios`: `/sys/firmware/efi` is absent and the console shows GRUB.") [];
  check "boot-to-userspace" "always" (lit "`systemctl is-system-running --wait` prints `running`.") [];
  check "storage" "always"
    (lit "`lsblk -d -o NAME,TRAN,MODEL` shows the class's transport for the boot disk, " ++
     lit "and `journalctl -k -p err` has no storage errors.") [];
  check "reboot-poweroff" "always"
    (lit "`systemctl reboot` and `systemctl poweroff` complete within two minutes each.") [];
  check "tpm2" "always"
    (lit "`systemd-creds has-tpm2` matches `machine.tpm2`, and boot does not depend on the TPM.") [];
  check "verity-root" "uefi"
    (lit "`findmnt -no SOURCE,OPTIONS /` shows a read-only `/dev/mapper/` device, " ++
     lit "and `/proc/cmdline` contains `roothash=`.") [];
  check "ab-update" "uefi"
    (lit "Release N+1 installs with `systemd-sysupdate` and is blessed, and release N+2, whose health check fails, " ++
     lit "rolls back to N+1, as in [boot assessment](sysupdate-ab.md#boot-assessment-and-rollback).") [];
  check "network-wired" "network"
    (lit "The interface is `routable` in `networkctl status`; for `uefi`, the `ab-update` releases download " ++
     lit "[over HTTP](sysupdate-ab.md#updates-over-http) through it.") [lit "wired"];
  check "network-wifi" "network"
    (lit "`journalctl -k` shows the firmware loaded without errors, " ++
     lit "and the interface is `routable` on a test access point.") [lit "wifi"];
  check "console-serial" "console"
    (lit "The serial capture shows boot loader, kernel, and login prompt.") [lit "serial"];
  check "console-graphical" "console"
    (lit "The display shows the boot menu, kernel output, and login prompt; attach a photo or recording.")
    [lit "graphical"];
  check "secure-boot-state" "uefi" (lit "`bootctl status` reports the state that the run expects.") [];
  check "secure-boot-enrollment" "states"
    (lit "The console shows `Custom Secure Boot keys successfully enrolled`, " ++
     lit "and the next boot reports Secure Boot `enabled (user)`.") [lit "setup-mode"];
  check "secure-boot-enforcement" "states"
    (lit "`setup-mode`, `custom-keys`: release N+3 with an unsigned UKI is refused, systemd-boot logs " ++
     lit "`Error loading " ++ [8230] ++ lit ": Access denied`, and N+1 boots after one reset, as in " ++
     lit "[refused releases](secure-boot.md#releases-that-the-firmware-refuses). " ++
     lit "`microsoft-factory-keys`: the firmware refuses the custom-signed systemd-boot itself and shows its " ++
     lit "Secure Boot violation screen; attach a photo.") SIGNED_STATES;
  check "option-rom" "class-states" (lit "Display and network of the plug-in card work with Secure Boot enforced.")
    [lit "uefi-modern-desktop"; lit "setup-mode"; lit "custom-keys"]].

Definition CHECK_IDS : list text := ck_id <$> CHECKS.

Definition text_in (t : text) (l : list text) : bool := bool_decide (t ∈ l).

(** The check of every kind of network or console of a class; an unknown kind is a [KeyError] that no class has. *)
Definition kind_checks (table : dict text (text * text)) (kinds : list text) : list text :=
  kinds ≫= λ kind, match dget kind table with Some (_, c) => [c] | None => [] end.

Definition checks_when (when : text) : list text :=
  ck_id <$> List.filter (λ c, bool_decide (ck_when c = when)) CHECKS.

Definition required_checks (h : HardwareClass) (state : text) : list text :=
  if bool_decide (state = FACTORY_KEYS) then List.filter (λ c, text_in c FACTORY_KEY_CHECKS) CHECK_IDS
  else
    let dimensions := kind_checks NETWORKS (network h) ++ kind_checks CONSOLES (consoles h) in
    ck_id <$> List.filter (λ c,
      bool_decide (ck_when c = lit "always") ||
      (bool_decide (ck_when c = lit "uefi") && bool_decide (tier h = lit "uefi")) ||
      (text_in (ck_when c) [lit "network"; lit "console"] && text_in (ck_id c) dimensions) ||
      (bool_decide (ck_when c = lit "states") && text_in state (ck_values c)) ||
      (bool_decide (ck_when c = lit "class-states") && bool_decide (Some (hc_name h) = head (ck_values c)) &&
       text_in state (tail (ck_values c)))) CHECKS.

Definition expected_payloads (h : HardwareClass) (state : text) : list text :=
  if bool_decide (tier h ≠ lit "uefi") || bool_decide (state = FACTORY_KEYS) then []
  else [lit "blessed"; lit "rolled-back"] ++ (if text_in state ENFORCING_STATES then [lit "refused"] else []).

(** ** Schema builders *)

Abbreviation JSON := (list (text * jv)).

Definition str (s : string) : jv := VStr (lit s).
Definition strs (l : list text) : jv := VList (VStr <$> l).
Definition key1 (k : string) (v : jv) : jv := VObj [(lit k, v)].

Definition SHA256 : jv := key1 "$ref" (str "#/$defs/sha256").
Definition NONEMPTY : jv := key1 "$ref" (str "#/$defs/nonempty_string").

(** [values[0]] of an empty list, an [IndexError] in the code, does not occur: every caller passes a value. *)
Definition enum (values : list text) : jv :=
  match values with
  | [v] => key1 "const" (VStr v)
  | _ => key1 "enum" (strs values)
  end.

Definition obj (properties : JSON) (required : list text) (extra : JSON) : JSON :=
  [(lit "type", str "object"); (lit "additionalProperties", VBool false); (lit "properties", VObj properties)] ++
  (if bool_decide (required = []) then [] else [(lit "required", strs required)]) ++ extra.

Definition array (items : jv) (extra : JSON) : jv := VObj ([(lit "type", str "array"); (lit "items", items)] ++ extra).

(** [{"properties": {k: v}}]. *)
Definition prop1 (k : text) (v : jv) : jv := key1 "properties" (VObj [(k, v)]).

(** One keyword argument of [when]. *)
Definition when_part (condition : text * list text) : jv :=
  let '(key, values) := condition in
  if bool_decide (key = lit "not_secure_boot") then
    prop1 (lit "firmware") (prop1 (lit "secure_boot") (key1 "not" (enum values)))
  else if text_in key [lit "secure_boot"; lit "tier"] then prop1 (lit "firmware") (prop1 key (enum values))
  else prop1 key (enum values).

Definition when (conditions : list (text * list text)) : jv :=
  match when_part <$> conditions with
  | [part] => part
  | parts => key1 "allOf" (VList parts)
  end.

Definition passed_checks (ids : list text) : jv :=
  prop1 (lit "checks") (VObj [
    (lit "required", strs ids);
    (lit "properties", VObj ((λ c, (c, key1 "$ref" (str "#/$defs/passed_check"))) <$> ids))]).

(** [{"contains": {"properties": {k: {"const": v}}}}]. *)
Definition contains_const (k : string) (v : text) : jv := key1 "contains" (prop1 (lit k) (key1 "const" (VStr v))).

Definition payloads_expected (expected : list text) : jv :=
  prop1 (lit "subject") (VObj [
    (lit "required", strs [lit "update_payloads"]);
    (lit "properties", VObj [(lit "update_payloads", key1 "allOf" (VList (contains_const "expected" <$> expected)))])]).

Definition some_check (definition : string) : jv :=
  prop1 (lit "checks") (key1 "not" (key1 "additionalProperties" (key1 "not" (key1 "$ref" (str definition))))).

(** [{"if": condition, "then": consequence}]. *)
Definition rule (condition consequence : jv) : jv := VObj [(lit "if", condition); (lit "then", consequence)].

Definition class_rule (h : HardwareClass) : jv :=
  let firmware := VObj [(lit "tier", enum [tier h]); (lit "boot_mode", enum [boot_mode h]);
                        (lit "secure_boot", enum (secure_boot h))] in
  let machine := VObj [(lit "boot_disk", prop1 (lit "transport") (enum (transports h)));
                       (lit "tpm2", enum (default [] (snd <$> dget (tpm2 h) TPM2)))] in
  rule (when [(lit "class", [hc_name h])])
    (key1 "properties" (VObj [(lit "firmware", key1 "properties" firmware); (lit "machine", key1 "properties" machine)])).

Definition class_rules : list jv := class_rule <$> CLASSES.

Definition signed_image_rules : list jv :=
  let keys := contains_const "name" <$> AUTO_ENROLL_KEYS in
  let signed := VObj [(lit "required", strs [lit "signed_binaries"; lit "signed_image_record_sha256"]);
                      (lit "properties", VObj [(lit "signed_binaries", key1 "minItems" (VInt 1))])] in
  let enrolled := VObj [(lit "required", strs [lit "auto_enroll_keys"]);
                        (lit "properties", VObj [(lit "auto_enroll_keys", key1 "allOf" (VList keys))])] in
  [rule (when [(lit "secure_boot", SIGNED_STATES)]) (prop1 (lit "subject") (prop1 (lit "image") signed));
   rule (when [(lit "secure_boot", [lit "setup-mode"])]) (prop1 (lit "subject") (prop1 (lit "image") enrolled))].

Definition PASSED : text * list text := (lit "outcome", [lit "passed"]).

(** The rule of a check that depends on the state, or on the class and the state. *)
Definition state_rule (c : Check) : list jv :=
  if bool_decide (ck_when c = lit "states") then
    let states := List.filter (λ s, negb (bool_decide (s = FACTORY_KEYS))) (ck_values c) in
    [rule (when [PASSED; (lit "secure_boot", states)]) (passed_checks [ck_id c])]
  else if bool_decide (ck_when c = lit "class-states") then
    [rule (when [PASSED; (lit "secure_boot", tail (ck_values c)); (lit "class", take 1 (ck_values c))])
       (passed_checks [ck_id c])]
  else [].

Definition dimension_rule (h : HardwareClass) : jv :=
  rule (when [PASSED; (lit "not_secure_boot", [FACTORY_KEYS]); (lit "class", [hc_name h])])
    (passed_checks (kind_checks NETWORKS (network h) ++ kind_checks CONSOLES (consoles h))).

Definition passed_rules : list jv :=
  let not_failed := key1 "additionalProperties"
    (prop1 (lit "status") (key1 "enum" (strs [lit "passed"; lit "not-applicable"]))) in
  [rule (when [PASSED]) (prop1 (lit "checks") not_failed);
   rule (when [PASSED; (lit "not_secure_boot", [FACTORY_KEYS])]) (passed_checks (checks_when (lit "always")));
   rule (when [PASSED; (lit "secure_boot", [FACTORY_KEYS])]) (passed_checks FACTORY_KEY_CHECKS);
   rule (when [PASSED; (lit "tier", [lit "uefi"]); (lit "not_secure_boot", [FACTORY_KEYS])])
     (key1 "allOf" (VList [passed_checks (checks_when (lit "uefi"));
                           payloads_expected [lit "blessed"; lit "rolled-back"]]));
   rule (when [PASSED; (lit "secure_boot", ENFORCING_STATES)]) (payloads_expected [lit "refused"])] ++
  (CHECKS ≫= state_rule) ++ (dimension_rule <$> CLASSES).

Definition outcome_rules : list jv :=
  let failed := some_check "#/$defs/failed_check" in
  let invalidating := some_check "#/$defs/invalidating_check" in
  [rule (when [(lit "outcome", [lit "failed"])]) (key1 "allOf" (VList [failed; key1 "not" invalidating]));
   rule (when [(lit "outcome", [lit "invalid"])]) invalidating].

Definition string_pattern (p : text) : jv := VObj [(lit "type", str "string"); (lit "pattern", VStr p)].
Definition string_format (f : string) : jv := VObj [(lit "type", str "string"); (lit "format", str f)].
Definition enum_of (l : list text) : jv := key1 "enum" (strs l).

(** One item of [update_payloads]. *)
Definition payload_schema : JSON :=
  obj [(lit "version", string_pattern (lit "^[A-Za-z0-9.]+$")); (lit "sha256sums_sha256", SHA256);
       (lit "expected", enum_of [lit "blessed"; lit "rolled-back"; lit "refused"])]
    [lit "version"; lit "sha256sums_sha256"; lit "expected"] [].

Definition subject_schema : JSON :=
  let signed_binary := VObj (obj
    [(lit "esp_path", VObj [(lit "type", str "string"); (lit "description", str "Empty for the UKI, as in the signing request.")]);
     (lit "sha256", SHA256)] [lit "esp_path"; lit "sha256"] []) in
  let key := VObj (obj [(lit "name", enum_of (AUTO_ENROLL_KEYS ++ [lit "dbx.auth"])); (lit "sha256", SHA256)]
    [lit "name"; lit "sha256"] []) in
  let image := VObj (obj
    [(lit "reproducibility_manifest_sha256", SHA256); (lit "canonical_sha256", SHA256); (lit "written_sha256", SHA256);
     (lit "signed_image_record_sha256", SHA256); (lit "signed_binaries", array signed_binary []);
     (lit "auto_enroll_keys", array key [])]
    [lit "reproducibility_manifest_sha256"; lit "canonical_sha256"; lit "written_sha256"] []) in
  let rules_mkosi := VObj (obj
    [(lit "commit", string_pattern (lit "^[0-9a-f]{40}$")); (lit "version", string_pattern (lit "^[0-9]+\.[0-9]+\.[0-9]+$"));
     (lit "archive_sha256", SHA256)] [lit "commit"] []) in
  obj [(lit "rules_mkosi", rules_mkosi); (lit "image", image); (lit "update_payloads", array (VObj payload_schema) [])]
    [lit "rules_mkosi"; lit "image"] [].

Definition machine_schema : JSON :=
  let required_dmi := [lit "sys_vendor"; lit "product_name"; lit "bios_vendor"; lit "bios_version"; lit "bios_date"] in
  let optional_dmi := [lit "product_version"; lit "board_vendor"; lit "board_name"] in
  let dmi := ((λ n, (n, NONEMPTY)) <$> required_dmi) ++ ((λ n, (n, key1 "type" (str "string"))) <$> optional_dmi) in
  let network := VObj (obj [(lit "kind", enum_of (dkeys NETWORKS)); (lit "driver", NONEMPTY); (lit "firmware", array NONEMPTY [])]
    [lit "kind"; lit "driver"] []) in
  obj [(lit "dmi", VObj (obj dmi required_dmi [])); (lit "cpu", NONEMPTY);
       (lit "boot_disk", VObj (obj [(lit "transport", enum_of (dkeys TRANSPORTS)); (lit "model", NONEMPTY)]
          [lit "transport"; lit "model"] []));
       (lit "network", array network []);
       (lit "consoles", array (enum_of (dkeys CONSOLES)) [(lit "minItems", VInt 1); (lit "uniqueItems", VBool true)]);
       (lit "tpm2", enum_of (default [] (snd <$> dget (lit "any") TPM2)))]
    [lit "dmi"; lit "cpu"; lit "boot_disk"; lit "network"; lit "consoles"; lit "tpm2"] [].

Definition firmware_schema : JSON :=
  obj [(lit "tier", enum_of [lit "uefi"; lit "bios"]); (lit "boot_mode", enum_of [lit "uefi"; lit "csm"; lit "bios"]);
       (lit "secure_boot", enum_of STATES); (lit "db_includes_microsoft_uefi_ca", key1 "type" (str "boolean"));
       (lit "settings", array NONEMPTY [])]
    [lit "tier"; lit "boot_mode"; lit "secure_boot"] [].

Definition status_is (status : string) : jv := prop1 (lit "status") (key1 "const" (str status)).

Definition check_schema : JSON :=
  let no_failure := key1 "not" (key1 "required" (strs [lit "failure"])) in
  let logs := VObj [(lit "logs", key1 "minItems" (VInt 1))] in
  obj [(lit "status", enum_of [lit "passed"; lit "failed"; lit "not-applicable"]);
       (lit "logs", array (key1 "$ref" (str "#/$defs/log")) []); (lit "failure", key1 "$ref" (str "#/$defs/failure"));
       (lit "notes", key1 "type" (str "string"))]
    [lit "status"; lit "logs"]
    [(lit "allOf", VList [
      rule (status_is "failed") (VObj [(lit "required", strs [lit "failure"]); (lit "properties", logs)]);
      rule (status_is "passed") (VObj [(lit "not", key1 "required" (strs [lit "failure"])); (lit "properties", logs)]);
      rule (status_is "not-applicable") no_failure])].

Definition FAILURE_CATEGORIES : list text :=
  lit <$> ["provisioning"; "firmware-boot"; "secure-boot"; "boot-loader"; "kernel-initrd"; "root-integrity"; "storage";
           "network"; "console"; "update-rollback"; "tpm"; "power-state"; "hardware-fault"]%string.
Definition ATTRIBUTIONS : list text :=
  lit <$> ["rules-mkosi"; "image-configuration"; "firmware"; "hardware"; "procedure"]%string.
Definition INVALIDATING : list text := [lit "procedure"; lit "hardware"].

Definition result_defs : JSON :=
  let failure := VObj (obj
    [(lit "category", enum_of FAILURE_CATEGORIES); (lit "attribution", enum_of ATTRIBUTIONS); (lit "summary", NONEMPTY);
     (lit "issue", string_format "uri")]
    [lit "category"; lit "attribution"; lit "summary"]
    [(lit "if", prop1 (lit "category") (key1 "const" (str "hardware-fault")));
     (lit "then", prop1 (lit "attribution") (key1 "const" (str "hardware")))]) in
  let invalidating_failure := prop1 (lit "attribution") (enum_of INVALIDATING) in
  let log_path := string_pattern (lit "^logs/[A-Za-z0-9._-]+(/[A-Za-z0-9._-]+)*$") in
  [(lit "check", VObj check_schema); (lit "failure", failure); (lit "failed_check", status_is "failed");
   (lit "invalidating_check", key1 "properties"
      (VObj [(lit "status", key1 "const" (str "failed")); (lit "failure", invalidating_failure)]));
   (lit "passed_check", status_is "passed");
   (lit "log", VObj (obj [(lit "path", log_path); (lit "sha256", SHA256)] [lit "path"; lit "sha256"] []));
   (lit "nonempty_string", VObj [(lit "type", str "string"); (lit "minLength", VInt 1)]);
   (lit "sha256", string_pattern (lit "^[0-9a-f]{64}$"))].

Definition DRAFT : jv := str "https://json-schema.org/draft/2020-12/schema".

Definition result_rules : list jv := class_rules ++ signed_image_rules ++ passed_rules ++ outcome_rules.

(** The member [checks] of a result. *)
Definition checks_schema : jv :=
  VObj [(lit "type", str "object"); (lit "minProperties", VInt 1);
        (lit "propertyNames", enum_of CHECK_IDS); (lit "additionalProperties", key1 "$ref" (str "#/$defs/check"))].

Definition result_properties : JSON :=
  [(lit "format_version", key1 "const" (str "rules-mkosi-hardware-qualification-result-v1"));
   (lit "class", enum_of (hc_name <$> CLASSES));
   (lit "subject", VObj subject_schema); (lit "machine", VObj machine_schema); (lit "firmware", VObj firmware_schema);
   (lit "operator", NONEMPTY); (lit "started_at", string_format "date-time"); (lit "finished_at", string_format "date-time");
   (lit "checks", checks_schema);
   (lit "outcome", enum_of [lit "passed"; lit "failed"; lit "invalid"])].

Definition result_schema : JSON :=
  [(lit "$schema", DRAFT); (lit "$id", VStr (SCHEMA_BASE ++ RESULT_SCHEMA));
   (lit "title", str "rules_mkosi hardware qualification result");
   (lit "description",
    VStr (lit "One physical qualification run of one machine in one firmware configuration; see " ++ DOC ++ lit "."))] ++
  obj result_properties (dkeys result_properties) [(lit "allOf", VList result_rules)] ++
  [(lit "$defs", VObj result_defs)].

Definition signoff_class (h : HardwareClass) : jv :=
  key1 "allOf" (VList [
    key1 "$ref" (str "#/$defs/class_entry");
    prop1 (lit "results") (key1 "items" (prop1 (lit "secure_boot") (enum (secure_boot h))));
    rule (status_is "qualified")
      (prop1 (lit "results") (key1 "allOf" (VList (contains_const "secure_boot" <$> secure_boot h))))]).

(** One attached result of a class. *)
Definition signoff_result : JSON :=
  obj [(lit "asset", NONEMPTY); (lit "sha256", SHA256); (lit "secure_boot", enum_of STATES)]
    [lit "asset"; lit "sha256"; lit "secure_boot"] [].

Definition class_entry : JSON :=
  let status_rules := [
    rule (status_is "failed") (prop1 (lit "results") (key1 "minItems" (VInt 1)));
    rule (status_is "not-tested") (prop1 (lit "results") (key1 "maxItems" (VInt 0)))] in
  obj [(lit "status", enum_of [lit "qualified"; lit "failed"; lit "not-tested"]);
       (lit "results", array (key1 "$ref" (str "#/$defs/result")) [(lit "uniqueItems", VBool true)]);
       (lit "known_issues", array (string_format "uri") [])]
    [lit "status"; lit "results"] [(lit "allOf", VList status_rules)].

Definition signoff_defs : JSON :=
  [(lit "class_entry", VObj class_entry); (lit "nonempty_string", VObj [(lit "type", str "string"); (lit "minLength", VInt 1)]);
   (lit "result", VObj signoff_result); (lit "sha256", string_pattern (lit "^[0-9a-f]{64}$"))].

Definition signoff_classes : JSON := (λ h, (hc_name h, signoff_class h)) <$> CLASSES.

Definition signoff_schema : JSON :=
  let release := VObj (obj
    [(lit "tag", string_pattern (lit "^v[0-9]+\.[0-9]+\.[0-9]+$")); (lit "commit", string_pattern (lit "^[0-9a-f]{40}$"));
     (lit "archive_sha256", SHA256)] [lit "tag"; lit "commit"; lit "archive_sha256"] []) in
  let vm_gates := VObj (obj [(lit "ci_run", string_format "uri"); (lit "conclusion", key1 "const" (str "success"))]
    [lit "ci_run"; lit "conclusion"] []) in
  let properties :=
    [(lit "format_version", key1 "const" (str "rules-mkosi-hardware-qualification-signoff-v1")); (lit "release", release);
     (lit "vm_gates", vm_gates); (lit "classes", VObj (obj signoff_classes (dkeys signoff_classes) [])); (lit "signed_off_by", NONEMPTY);
     (lit "signed_off_at", string_format "date-time")] in
  [(lit "$schema", DRAFT); (lit "$id", VStr (SCHEMA_BASE ++ SIGNOFF_SCHEMA));
   (lit "title", str "rules_mkosi hardware qualification sign-off");
   (lit "description",
    VStr (lit "The hardware classes that one rules_mkosi release claims, with their attached results; see " ++ DOC ++ lit "."))] ++
  obj properties (dkeys properties) [] ++ [(lit "$defs", VObj signoff_defs)].

Definition dump (schema : JSON) : text := dumps_indent 0 (sort_keys (VObj schema)) ++ [10].

(** ** The tables of the document *)

Definition code (values : list text) : text := join (lit ", ") ((λ v, lit "`" ++ v ++ lit "`") <$> values).

Definition labeled (labels : list text) (note : text) : text :=
  join (lit ", ") labels ++ (if bool_decide (note = []) then [] else lit " (" ++ note ++ lit ")").

Definition table_row (row : list text) : text := lit "| " ++ join (lit " | ") row ++ lit " |".

Definition table (header : list text) (rows : list (list text)) : text :=
  join [10] ([table_row header; table_row ((λ _, lit "---") <$> header)] ++ (table_row <$> rows)).

(** The labels of the kinds of a class. *)
Definition kind_labels (table : dict text (text * text)) (kinds : list text) : list text :=
  kinds ≫= λ kind, match dget kind table with Some (label, _) => [label] | None => [] end.

Definition classes_table : text :=
  table (lit <$> ["Class"; "Representative machine"; "Generation"; "Boot disk"; "Network"; "Console"; "Secure Boot states";
                  "TPM2"]%string)
    ((λ h, [lit "`" ++ hc_name h ++ lit "`"; machine h; generation h;
            join (lit " or ") (transports h ≫= λ t, match dget t TRANSPORTS with Some l => [l] | None => [] end);
            labeled (kind_labels NETWORKS (network h)) (network_note h);
            labeled (kind_labels CONSOLES (consoles h)) (console_note h);
            code (secure_boot h); default [] (fst <$> dget (tpm2 h) TPM2)]) <$> CLASSES).

Definition secure_boot_table : text :=
  table (lit <$> ["State"; "Firmware before the first boot"; "Image"; "Expected result"]%string)
    ((λ '(name, firmware, image, expected), [lit "`" ++ name ++ lit "`"; firmware; image; expected]) <$> SECURE_BOOT_STATES).

Definition required_when (c : Check) : text :=
  let label table := default [] (head (ck_values c) ≫= λ kind, fst <$> dget kind table) in
  if bool_decide (ck_when c = lit "always") then lit "Always"
  else if bool_decide (ck_when c = lit "uefi") then lit "`uefi`"
  else if bool_decide (ck_when c = lit "network") then label NETWORKS ++ lit " network"
  else if bool_decide (ck_when c = lit "console") then label CONSOLES ++ lit " console"
  else if bool_decide (ck_when c = lit "states") then code (ck_values c)
  else lit "`" ++ default [] (head (ck_values c)) ++ lit "` in " ++
       join (lit " or ") ((λ state, lit "`" ++ state ++ lit "`") <$> tail (ck_values c)).

Definition checks_table : text :=
  table (lit <$> ["Check"; "Required when"; "Passes when"]%string)
    ((λ c, [lit "`" ++ ck_id c ++ lit "`"; required_when c; ck_passes c]) <$> CHECKS).

Definition TABLES : list (text * text) :=
  [(lit "classes", classes_table); (lit "secure-boot-states", secure_boot_table); (lit "checks", checks_table)].

(** The text after the first newline that the marker follows. *)
Fixpoint find_end (marker t : text) : option text :=
  if startswith t (10 :: marker) then Some (drop (S (length marker)) t)
  else match t with [] => None | _ :: t => find_end marker t end.

(** [pattern.subn(replacement, text)] for the pattern of a marker pair: the text and the number of matches. *)
Fixpoint subn (fuel : nat) (opening closing replacement t : text) : text * Z :=
  match fuel, t with
  | S fuel, c :: t' =>
      match (if startswith t (opening ++ [10]) then find_end closing (drop (S (length opening)) t) else None) with
      | Some rest => let '(s, n) := subn fuel opening closing replacement rest in (replacement ++ s, n + 1)
      | None => let '(s, n) := subn fuel opening closing replacement t' in (c :: s, n)
      end
  | _, _ => (t, 0)
  end.

Definition begin_marker (name : text) : text :=
  lit "<!-- BEGIN GENERATED " ++ name ++ lit ": python3 ci/hardware_qualification_schemas.py --write -->".
Definition end_marker (name : text) : text := lit "<!-- END GENERATED " ++ name ++ lit " -->".

Definition render_table (t name content : text) : result text :=
  let replacement := begin_marker name ++ [10; 10] ++ content ++ [10; 10] ++ end_marker name in
  let '(s, count) := subn (length t) (begin_marker name) (end_marker name) replacement t in
  require (count =? 1) (ValueError "{}: expected one pair of {} markers, found {}" [AText DOC; AText name; AInt count]);;
  mret s.

Definition render_doc (t : text) : result text :=
  foldM (λ t '(name, content), render_table t name content) t TABLES.

(** [expected_files], given the current text of the document. *)
Definition expected_files (doc : text) : result (list (text * text)) :=
  d ← render_doc doc;
  mret [(RESULT_SCHEMA, dump result_schema); (SIGNOFF_SCHEMA, dump signoff_schema); (DOC, d)].

(** The paths whose current content differs, in order: what [main] reports or rewrites. *)
Definition stale_files (files : dict text text) : result (list text) :=
  expected ← expected_files (default [] (dget DOC files));
  mret (fst <$> List.filter (λ '(path, content), negb (bool_decide (dget path files = Some content))) expected).

(** [main(["--write"])]: every file gets its generated content. *)
Definition write_files (files : dict text text) : result (dict text text) :=
  expected ← expected_files (default [] (dget DOC files));
  mret (foldl (λ files '(path, content), dset path content files) files expected).
