(* ===== verification/QualificationProofs.v ===== *)
(** * What the generated hardware qualification schemas require

    The schemas are read with the meaning of [JsonSchema]; the tables [required_checks] and [expected_payloads] say what a
    passed run must show. The theorems relate the two. *)
From S2P Require Import Prelude Bytes PyText Collections Json JsonSchema Qualification.

(** Sixteen levels are enough for both schemas, references included. *)
Definition FUEL : nat := 16.

Section qualification.
Context (matches : text → text → bool).

(** A value that the schema accepts. *)
Definition accepts_result (j : json) : bool := valid matches result_defs FUEL (VObj result_schema) j.
Definition accepts_signoff (j : json) : bool := valid matches signoff_defs FUEL (VObj signoff_schema) j.

Lemma schemas_fit :
  fits result_defs FUEL (VObj result_schema) = true ∧ fits signoff_defs FUEL (VObj signoff_schema) = true.
Proof. split; by vm_compute. Qed.

(** The fuel of the schema semantics decides: more fuel never changes whether a value is accepted. *)
Theorem schema_fuel_enough n j :
  (FUEL ≤ n)%nat →
  valid matches result_defs n (VObj result_schema) j = accepts_result j ∧
  valid matches signoff_defs n (VObj signoff_schema) j = accepts_signoff j.
Proof.
  intros Hn. destruct schemas_fit as [Hr Hs]. split; [exact (fits_enough _ _ _ _ _ j Hn Hr)|exact (fits_enough _ _ _ _ _ j Hn Hs)].
Qed.

(** ** Conditions *)

(** The fields of a record that conditions look at. *)
Record facts := { f_class : text; f_outcome : text; f_secure_boot : text; f_tier : text }.

Definition has_facts (o : list (text * json)) (f : facts) : Prop :=
  dget (lit "class") o = Some (JStr (f_class f)) ∧ dget (lit "outcome") o = Some (JStr (f_outcome f)) ∧
  ∃ fw, dget (lit "firmware") o = Some (JObj fw) ∧ dget (lit "secure_boot") fw = Some (JStr (f_secure_boot f)) ∧
    dget (lit "tier") fw = Some (JStr (f_tier f)).

Definition cond_holds (f : facts) (c : text * list text) : bool :=
  if bool_decide (c.1 = lit "not_secure_boot") then negb (text_in (f_secure_boot f) c.2)
  else if bool_decide (c.1 = lit "secure_boot") then text_in (f_secure_boot f) c.2
  else if bool_decide (c.1 = lit "tier") then text_in (f_tier f) c.2
  else if bool_decide (c.1 = lit "class") then text_in (f_class f) c.2
  else if bool_decide (c.1 = lit "outcome") then text_in (f_outcome f) c.2
  else false.

Variable defs : list (text * jv).
Abbreviation valid := (valid matches defs).

Lemma valid_enum n values t : valid (S n) (enum values) (JStr t) = text_in t values.
Proof.
  unfold enum, text_in. destruct values as [|v [|w values]].
  - done.
  - apply eq_true_iff_eq. unfold key1. rewrite valid_const, bool_decide_eq_true, list_elem_of_singleton. naive_solver.
  - apply eq_true_iff_eq. unfold key1, strs. rewrite valid_enum_of, bool_decide_eq_true. naive_solver.
Qed.

Lemma when_part_holds n o f c :
  has_facts o f → cond_holds f c = true → valid (S (S (S (S n)))) (when_part c) (JObj o) = true.
Proof.
  intros (Hc & Ho & fw & Hfw & Hsb & Ht) Hh. destruct c as [k vs]. unfold cond_holds in Hh. cbn [fst snd] in Hh.
  unfold when_part, prop1, key1.
  destruct (decide (k = lit "not_secure_boot")) as [->|H1].
  { rewrite bool_decide_true in Hh |- * by done. rewrite valid_prop1, Hfw, valid_prop1, Hsb, valid_not, valid_enum. done. }
  rewrite (bool_decide_false (k = lit "not_secure_boot")) in Hh |- * by done.
  destruct (decide (k = lit "secure_boot")) as [->|H2].
  { change (text_in (lit "secure_boot") _) with true. cbn iota.
    rewrite bool_decide_true in Hh by done. rewrite valid_prop1, Hfw, valid_prop1, Hsb, valid_enum. done. }
  rewrite (bool_decide_false (k = lit "secure_boot")) in Hh by done.
  destruct (decide (k = lit "tier")) as [->|H3].
  { change (text_in (lit "tier") _) with true. cbn iota.
    rewrite bool_decide_true in Hh by done. rewrite valid_prop1, Hfw, valid_prop1, Ht, valid_enum. done. }
  rewrite (bool_decide_false (k = lit "tier")) in Hh by done.
  assert (text_in k [lit "secure_boot"; lit "tier"] = false) as ->.
  { unfold text_in. apply bool_decide_eq_false. rewrite !elem_of_cons, elem_of_nil. tauto. }
  destruct (decide (k = lit "class")) as [->|H4].
  { rewrite bool_decide_true in Hh by done. rewrite valid_prop1, Hc, valid_enum. done. }
  rewrite (bool_decide_false (k = lit "class")) in Hh by done.
  destruct (decide (k = lit "outcome")) as [->|H5]; [|by rewrite bool_decide_false in Hh].
  rewrite bool_decide_true in Hh by done. rewrite valid_prop1, Ho, valid_enum. done.
Qed.

Lemma when_holds n o f cs :
  has_facts o f → forallb (cond_holds f) cs = true → cs ≠ [] → valid (S (S (S (S (S n))))) (when cs) (JObj o) = true.
Proof.
  intros Hf Hcs Hne. rewrite forallb_forall in Hcs.
  assert (Hp : ∀ m p, p ∈ when_part <$> cs → valid (S (S (S (S m)))) p (JObj o) = true).
  { intros m p (c & -> & Hc)%list_elem_of_fmap. eapply when_part_holds; [done|]. apply Hcs. by apply list_elem_of_In. }
  unfold when. destruct (when_part <$> cs) as [|p [|q ps]] eqn:E; [by apply fmap_nil_inv in E| |].
  - apply Hp. by left.
  - unfold key1. cbn [JsonSchema.valid forallb]. rewrite andb_true_r.
    change (forallb (λ v, valid (S (S (S (S n)))) v (JObj o)) (p :: q :: ps) = true).
    apply forallb_forall. intros x Hx. apply Hp. by apply list_elem_of_In.
Qed.

Lemma passed_checks_reads n ids o checks id :
  valid (S (S n)) (passed_checks ids) (JObj o) = true → dget (lit "checks") o = Some (JObj checks) → id ∈ ids →
  ∃ x, dget id checks = Some x ∧ valid n (key1 "$ref" (str "#/$defs/passed_check")) x = true.
Proof.
  intros Hv Hc Hid. unfold passed_checks, prop1, key1 in Hv. rewrite valid_prop1, Hc in Hv.
  destruct (valid_required _ _ _ _ _ _ id Hv ltac:(by left)) as [x Hx]; [unfold strs; by apply list_elem_of_fmap_2|].
  exists x. split; [done|]. eapply valid_properties; [exact Hv|right; by left| |exact Hx].
  by apply (list_elem_of_fmap_2 (λ c, (c, key1 "$ref" (str "#/$defs/passed_check"))) ids id).
Qed.

Lemma payloads_expected_reads n expected o subject payloads e :
  valid (S (S (S (S (S (S n)))))) (payloads_expected expected) (JObj o) = true →
  dget (lit "subject") o = Some (JObj subject) → dget (lit "update_payloads") subject = Some (JList payloads) →
  e ∈ expected →
  ∃ x, x ∈ payloads ∧ valid (S (S n)) (prop1 (lit "expected") (key1 "const" (VStr e))) x = true.
Proof.
  intros Hv Hs Hp He. unfold payloads_expected, prop1 at 1, key1 at 1 in Hv. rewrite valid_prop1, Hs in Hv.
  assert (Ha : valid (S (S (S (S n)))) (key1 "allOf" (VList (contains_const "expected" <$> expected))) (JList payloads) = true).
  { eapply valid_properties; [exact Hv|right; by left|by left|exact Hp]. }
  assert (Hc : valid (S (S (S n))) (contains_const "expected" e) (JList payloads) = true).
  { eapply valid_allOf; [exact Ha|by left|]. by apply list_elem_of_fmap_2. }
  by apply (valid_contains _ _ _ _ _ Hc).
Qed.

Lemma payloads_expected_present n expected o subject :
  valid (S (S n)) (payloads_expected expected) (JObj o) = true →
  dget (lit "subject") o = Some (JObj subject) → ∃ x, dget (lit "update_payloads") subject = Some x.
Proof.
  intros Hv Hs. unfold payloads_expected, prop1 at 1, key1 at 1 in Hv. rewrite valid_prop1, Hs in Hv.
  eapply valid_required; [exact Hv|by left|by left].
Qed.
End qualification.

(** A string member that must have one of the values. *)
Lemma enum_member (matches : text → text → bool) defs n schema props required x k values :
  JsonSchema.valid matches defs (S (S n)) (VObj schema) (JObj x) = true → (lit "properties", VObj props) ∈ schema →
  (lit "required", VList required) ∈ schema → (k, enum_of values) ∈ props → VStr k ∈ required →
  ∃ t, dget k x = Some (JStr t) ∧ t ∈ values.
Proof.
  intros Hv Hp Hq Hk Hr. destruct (valid_required _ _ _ _ _ _ _ Hv Hq Hr) as [y Hy].
  assert (He : JsonSchema.valid matches defs (S n) (enum_of values) y = true) by (by eapply valid_properties).
  apply valid_enum_of in He as (t & -> & Ht). by exists t.
Qed.

(** ** Which rule demands which check *)

(** The rules that demand passed checks: position in [passed_rules], conditions and checks. *)
Definition check_rules : list (nat * list (text * list text) * list text) :=
  [(1%nat, [PASSED; (lit "not_secure_boot", [FACTORY_KEYS])], checks_when (lit "always"));
   (2%nat, [PASSED; (lit "secure_boot", [FACTORY_KEYS])], FACTORY_KEY_CHECKS);
   (5%nat, [PASSED; (lit "secure_boot", [lit "setup-mode"])], [lit "secure-boot-enrollment"]);
   (6%nat, [PASSED; (lit "secure_boot", ENFORCING_STATES)], [lit "secure-boot-enforcement"]);
   (7%nat, [PASSED; (lit "secure_boot", ENFORCING_STATES); (lit "class", [lit "uefi-modern-desktop"])], [lit "option-rom"])] ++
  imap (λ i h, ((8 + i)%nat, [PASSED; (lit "not_secure_boot", [FACTORY_KEYS]); (lit "class", [hc_name h])],
    kind_checks NETWORKS (network h) ++ kind_checks CONSOLES (consoles h))) CLASSES.

Definition uefi_conditions : list (text * list text) :=
  [PASSED; (lit "tier", [lit "uefi"]); (lit "not_secure_boot", [FACTORY_KEYS])].

Lemma check_rules_in : Forall (λ '(i, cs, ids), passed_rules !! i = Some (rule (when cs) (passed_checks ids))) check_rules.
Proof. unfold check_rules. simpl imap. repeat (constructor; [reflexivity|]). constructor. Qed.

(** The facts of a passed run of a class in a state. *)
Definition passed_facts (h : HardwareClass) (state : text) : facts :=
  {| f_class := hc_name h; f_outcome := lit "passed"; f_secure_boot := state; f_tier := tier h |}.

(** Some rule that applies to the facts demands the check. *)
Definition demanded (f : facts) (id : text) : bool :=
  existsb (λ '(_, cs, ids), forallb (cond_holds f) cs && text_in id ids) check_rules ||
  (forallb (cond_holds f) uefi_conditions && text_in id (checks_when (lit "uefi"))).

(** The rules cover the table [required_checks]. *)
Lemma required_demanded :
  forallb (λ h, forallb (λ s, forallb (demanded (passed_facts h s)) (required_checks h s)) (secure_boot h)) CLASSES = true.
Proof. by vm_compute. Qed.

(** ** What an accepted result shows *)
Section accepted.
Context (matches : text → text → bool) (o : list (text * json)) (accepted : accepts_result matches (JObj o) = true).
Abbreviation holds := (JsonSchema.valid matches result_defs).

(** A required member of the record, with its schema. *)
Lemma result_member k s : (k, s) ∈ result_properties → ∃ x, dget k o = Some x ∧ holds 15 s x = true.
Proof.
  intros Hk.
  destruct (valid_required matches result_defs 15 result_schema o (VStr <$> dkeys result_properties) k accepted) as [x Hx].
  - by apply list_elem_of_lookup_2 with 7%nat.
  - apply list_elem_of_fmap_2. unfold dkeys. by apply (list_elem_of_fmap_2 fst) in Hk.
  - exists x. split; [done|]. eapply valid_properties; [exact accepted|by apply list_elem_of_lookup_2 with 6%nat|exact Hk|exact Hx].
Qed.

Lemma result_rule c t : rule c t ∈ result_rules → holds 14 c (JObj o) = true → holds 14 t (JObj o) = true.
Proof.
  intros Hr. apply valid_rule. eapply valid_allOf; [exact accepted|by apply list_elem_of_lookup_2 with 8%nat|exact Hr].
Qed.

Lemma passed_rule i c t : passed_rules !! i = Some (rule c t) → holds 14 c (JObj o) = true → holds 14 t (JObj o) = true.
Proof. intros Hi. apply result_rule. unfold result_rules. rewrite !elem_of_app. apply list_elem_of_lookup_2 in Hi. tauto. Qed.

(** Every record has a class of the table, an outcome, and a firmware state and tier. *)
Lemma result_facts :
  ∃ h f fw, h ∈ CLASSES ∧ f_class f = hc_name h ∧ has_facts o f ∧ dget (lit "firmware") o = Some (JObj fw) ∧
    dget (lit "secure_boot") fw = Some (JStr (f_secure_boot f)) ∧ dget (lit "tier") fw = Some (JStr (f_tier f)).
Proof.
  destruct (result_member (lit "class") (enum_of (hc_name <$> CLASSES))) as (c & Hc & (cl & -> & Hcl)%valid_enum_of);
    [by apply list_elem_of_lookup_2 with 1%nat|].
  apply list_elem_of_fmap in Hcl as (h & -> & Hh).
  destruct (result_member (lit "outcome") (enum_of [lit "passed"; lit "failed"; lit "invalid"])) as (x & Hx & (t & -> & _)%valid_enum_of);
    [by apply list_elem_of_lookup_2 with 9%nat|].
  destruct (result_member (lit "firmware") (VObj firmware_schema)) as (y & Hy & Hf); [by apply list_elem_of_lookup_2 with 4%nat|].
  destruct (valid_object _ _ _ _ _ Hf) as [fw ->]; [by left|].
  assert (∃ t, dget (lit "secure_boot") fw = Some (JStr t) ∧ t ∈ STATES) as (s & Hs & _).
  { eapply (enum_member matches result_defs 13 firmware_schema); [exact Hf|by apply list_elem_of_lookup_2 with 2%nat|
      by apply list_elem_of_lookup_2 with 3%nat|by apply list_elem_of_lookup_2 with 2%nat|
      by apply list_elem_of_lookup_2 with 2%nat]. }
  assert (∃ t, dget (lit "tier") fw = Some (JStr t) ∧ t ∈ [lit "uefi"; lit "bios"]) as (r & Hr & _).
  { eapply (enum_member matches result_defs 13 firmware_schema); [exact Hf|by apply list_elem_of_lookup_2 with 2%nat|
      by apply list_elem_of_lookup_2 with 3%nat|by apply list_elem_of_lookup_2 with 0%nat|
      by apply list_elem_of_lookup_2 with 0%nat]. }
  exists h, (Build_facts (hc_name h) t s r), fw. repeat split; try done. by exists fw.
Qed.

(** The rule of a class ties the firmware and the machine of a record to it. *)
Lemma class_rule_firmware h f fw :
  h ∈ CLASSES → f_class f = hc_name h → has_facts o f → dget (lit "firmware") o = Some (JObj fw) →
  dget (lit "secure_boot") fw = Some (JStr (f_secure_boot f)) → dget (lit "tier") fw = Some (JStr (f_tier f)) →
  f_secure_boot f ∈ secure_boot h ∧ f_tier f = tier h.
Proof.
  intros Hh Hc Hf Hfw Hs Ht.
  assert (Hr : class_rule h ∈ result_rules).
  { unfold result_rules. rewrite !elem_of_app. left. by apply list_elem_of_fmap_2. }
  unfold class_rule in Hr. apply result_rule in Hr.
  - assert (Hp : holds 13 (key1 "properties" (VObj [(lit "tier", enum [tier h]); (lit "boot_mode", enum [boot_mode h]);
        (lit "secure_boot", enum (secure_boot h))])) (JObj fw) = true).
    { eapply valid_properties; [exact Hr|by left|by left|exact Hfw]. }
    split.
    + assert (Hv : holds 12 (enum (secure_boot h)) (JStr (f_secure_boot f)) = true).
      { eapply valid_properties; [exact Hp|by left|right; right; by left|exact Hs]. }
      rewrite valid_enum in Hv. by apply bool_decide_eq_true in Hv.
    + assert (Hv : holds 12 (enum [tier h]) (JStr (f_tier f)) = true).
      { eapply valid_properties; [exact Hp|by left|by left|exact Ht]. }
      rewrite valid_enum in Hv. apply bool_decide_eq_true, list_elem_of_singleton in Hv. done.
  - apply (when_holds matches result_defs 9 o f); [done| |done]. cbn [forallb].
    change (text_in (f_class f) [hc_name h] && true = true). rewrite Hc, andb_true_r. apply bool_decide_eq_true. by left.
Qed.

(** The checks are an object of objects with a status. *)
Lemma result_checks :
  ∃ checks, dget (lit "checks") o = Some (JObj checks) ∧
    ∀ id x, dget id checks = Some x → ∃ c t, x = JObj c ∧ dget (lit "status") c = Some (JStr t).
Proof.
  destruct (result_member (lit "checks") checks_schema) as (j & Hj & Hv); [by apply list_elem_of_lookup_2 with 8%nat|].
  destruct (valid_object _ _ _ _ _ Hv) as [checks ->]; [by left|]. exists checks. split; [done|].
  intros id x Hx.
  assert (Hr : holds 14 (key1 "$ref" (str "#/$defs/check")) x = true).
  { eapply valid_additional; [exact Hv|by apply list_elem_of_lookup_2 with 3%nat|by apply dget_Some_elem|]. apply not_elem_of_nil. }
  unfold key1 in Hr. change (str "#/$defs/check") with (VStr (lit "#/$defs/" ++ lit "check")) in Hr.
  rewrite (valid_ref _ _ 13 (lit "check") (VObj check_schema)) in Hr by done.
  destruct (valid_object _ _ _ _ _ Hr) as [c ->]; [by left|].
  assert (∃ t, dget (lit "status") c = Some (JStr t) ∧ t ∈ [lit "passed"; lit "failed"; lit "not-applicable"]) as (t & Ht & _).
  { eapply (enum_member matches result_defs 11 check_schema); [exact Hr|by apply list_elem_of_lookup_2 with 2%nat|
      by apply list_elem_of_lookup_2 with 3%nat|by apply list_elem_of_lookup_2 with 0%nat|
      by apply list_elem_of_lookup_2 with 0%nat]. }
  eauto.
Qed.

Lemma status_passed n c t :
  holds (S (S (S n))) (key1 "$ref" (str "#/$defs/passed_check")) (JObj c) = true →
  dget (lit "status") c = Some (JStr t) → t = lit "passed".
Proof.
  intros Hr Ht. unfold key1 in Hr. change (str "#/$defs/passed_check") with (VStr (lit "#/$defs/" ++ lit "passed_check")) in Hr.
  rewrite (valid_ref _ _ _ (lit "passed_check") (status_is "passed")) in Hr by done.
  unfold status_is, prop1, key1 in Hr. rewrite valid_prop1, Ht in Hr.
  apply (valid_const matches result_defs n (lit "passed")) in Hr. by injection Hr.
Qed.

(** A demanded check is there and passed. *)
Lemma demanded_passed f id :
  has_facts o f → demanded f id = true →
  ∃ checks c, dget (lit "checks") o = Some (JObj checks) ∧ dget id checks = Some (JObj c) ∧
    dget (lit "status") c = Some (JStr (lit "passed")).
Proof.
  intros Hf Hd. destruct result_checks as (checks & Hc & Hs).
  assert (Hp : ∃ n ids, holds (S (S (S (S (S n))))) (passed_checks ids) (JObj o) = true ∧ id ∈ ids).
  { apply orb_true_iff in Hd as [Hd|[Hu Hid]%andb_true_iff].
    - apply existsb_exists in Hd as ([[i cs] ids] & Hin & [Hcs Hid]%andb_true_iff). exists 9%nat, ids.
      split; [|by apply bool_decide_eq_true in Hid]. apply list_elem_of_In in Hin.
      assert (Hi := proj1 (Forall_forall _ _) check_rules_in _ Hin). cbn beta iota in Hi.
      apply (passed_rule i _ _ Hi). apply (when_holds matches result_defs 9 o f); [done|done|].
      intros ->. clear Hi. revert Hin. clear. unfold check_rules. simpl imap. set_solver.
    - exists 8%nat, (checks_when (lit "uefi")). split; [|by apply bool_decide_eq_true in Hid].
      assert (Ha := passed_rule 3 (when uefi_conditions) _ eq_refl (when_holds matches result_defs 9 o f _ Hf Hu ltac:(done))).
      eapply valid_allOf; [exact Ha|by left|by left]. }
  destruct Hp as (n & ids & Hv & Hid). destruct (passed_checks_reads _ _ _ _ _ _ _ Hv Hc Hid) as (x & Hx & Hr).
  destruct (Hs id x Hx) as (c & t & -> & Ht). rewrite (status_passed _ _ _ Hr Ht) in Ht. eauto.
Qed.

(** The subject is an object, and its update payloads, when present, are objects with an expectation. *)
Lemma result_subject :
  ∃ subject, dget (lit "subject") o = Some (JObj subject) ∧
    ∀ x, dget (lit "update_payloads") subject = Some x →
      ∃ l, x = JList l ∧ ∀ y, y ∈ l → ∃ p t, y = JObj p ∧ dget (lit "expected") p = Some (JStr t).
Proof.
  destruct (result_member (lit "subject") (VObj subject_schema)) as (j & Hj & Hv); [by apply list_elem_of_lookup_2 with 2%nat|].
  destruct (valid_object _ _ _ _ _ Hv) as [subject ->]; [by left|]. exists subject. split; [done|]. intros x Hx.
  assert (Ha : holds 14 (array (VObj payload_schema) []) x = true).
  { eapply valid_properties; [exact Hv|by apply list_elem_of_lookup_2 with 2%nat|by apply list_elem_of_lookup_2 with 2%nat|exact Hx]. }
  destruct (valid_array _ _ _ _ _ Ha) as [l ->]; [by left|]. exists l. split; [done|]. intros y Hy.
  assert (Hi := valid_items _ _ _ _ _ _ y Ha ltac:(right; by left) Hy).
  destruct (valid_object _ _ _ _ _ Hi) as [p ->]; [by left|]. exists p.
  assert (∃ t, dget (lit "expected") p = Some (JStr t) ∧ t ∈ [lit "blessed"; lit "rolled-back"; lit "refused"]) as (t & Ht & _).
  { eapply (enum_member matches result_defs 11 payload_schema); [exact Hi|by apply list_elem_of_lookup_2 with 2%nat|
      by apply list_elem_of_lookup_2 with 3%nat|by apply list_elem_of_lookup_2 with 2%nat|
      by apply list_elem_of_lookup_2 with 2%nat]. }
  eauto.
Qed.

Lemma payload_listed n expected e :
  holds (S (S (S (S (S (S n)))))) (payloads_expected expected) (JObj o) = true → e ∈ expected →
  ∃ subject l p, dget (lit "subject") o = Some (JObj subject) ∧ dget (lit "update_payloads") subject = Some (JList l) ∧
    JObj p ∈ l ∧ dget (lit "expected") p = Some (JStr e).
Proof.
  intros Hv He. destruct result_subject as (subject & Hs & Hl).
  destruct (payloads_expected_present _ _ _ _ _ _ Hv Hs) as [x Hx]. destruct (Hl x Hx) as (l & -> & Hy).
  destruct (payloads_expected_reads _ _ _ _ _ _ _ _ Hv Hs Hx He) as (y & Hin & Hp).
  destruct (Hy y Hin) as (p & t & -> & Ht). unfold prop1, key1 in Hp. rewrite valid_prop1, Ht in Hp.
  apply valid_const in Hp as [= ->]. by exists subject, l, p.
Qed.

Lemma expected_payload_listed h state e :
  has_facts o (passed_facts h state) → e ∈ expected_payloads h state →
  ∃ subject l p, dget (lit "subject") o = Some (JObj subject) ∧ dget (lit "update_payloads") subject = Some (JList l) ∧
    JObj p ∈ l ∧ dget (lit "expected") p = Some (JStr e).
Proof.
  intros Hf He. unfold expected_payloads in He. destruct (bool_decide (tier h ≠ _) || _) eqn:E; [by apply elem_of_nil in He|].
  apply orb_false_iff in E as [Ht%bool_decide_eq_false%dec_stable Hs%bool_decide_eq_false].
  apply elem_of_app in He as [He|He].
  - assert (Hu : forallb (cond_holds (passed_facts h state)) uefi_conditions = true).
    { cbn [forallb uefi_conditions]. rewrite !andb_true_r. unfold passed_facts. rewrite Ht.
      change (negb (text_in state [FACTORY_KEYS]) = true). apply negb_true_iff, bool_decide_eq_false. set_solver. }
    assert (Ha := passed_rule 3 (when uefi_conditions) _ eq_refl
      (when_holds matches result_defs 9 o _ _ Hf Hu ltac:(done))).
    eapply payload_listed; [|exact He]. eapply valid_allOf; [exact Ha|by left|right; by left].
  - destruct (text_in state ENFORCING_STATES) eqn:Es; [|by apply elem_of_nil in He].
    eapply (payload_listed 8); [|exact He].
    apply (passed_rule 4 (when [PASSED; (lit "secure_boot", ENFORCING_STATES)])); [reflexivity|].
    apply (when_holds matches result_defs 9 o _ _ Hf); [|done]. cbn [forallb]. rewrite andb_true_r.
    change (text_in state ENFORCING_STATES = true). done.
Qed.
End accepted.

(** C13: a passed result of a class in a Secure Boot state that the schema accepts records every check that [required_checks]
    lists for them as passed, and an update payload for every expectation of [expected_payloads]; its firmware has the tier of
    the class and one of the states of the class. *)
Theorem passed_result_complete matches o :
  accepts_result matches (JObj o) = true → dget (lit "outcome") o = Some (JStr (lit "passed")) →
  ∃ h state fw, h ∈ CLASSES ∧ state ∈ secure_boot h ∧
    dget (lit "class") o = Some (JStr (hc_name h)) ∧ dget (lit "firmware") o = Some (JObj fw) ∧
    dget (lit "secure_boot") fw = Some (JStr state) ∧ dget (lit "tier") fw = Some (JStr (tier h)) ∧
    (∀ id, id ∈ required_checks h state → ∃ checks c, dget (lit "checks") o = Some (JObj checks) ∧
       dget id checks = Some (JObj c) ∧ dget (lit "status") c = Some (JStr (lit "passed"))) ∧
    (∀ e, e ∈ expected_payloads h state → ∃ subject l p, dget (lit "subject") o = Some (JObj subject) ∧
       dget (lit "update_payloads") subject = Some (JList l) ∧ JObj p ∈ l ∧ dget (lit "expected") p = Some (JStr e)).
Proof.
  intros Ha Ho. destruct (result_facts _ _ Ha) as (h & f & fw & Hh & Hc & Hf & Hfw & Hs & Ht).
  destruct (class_rule_firmware _ _ Ha h f fw) as [Hin Htier]; [done..|].
  assert (Hp : has_facts o (passed_facts h (f_secure_boot f))).
  { destruct Hf as (Hcl & _ & _). rewrite Hc in Hcl. rewrite Htier in Ht. split_and!; [done|done|]. by exists fw. }
  exists h, (f_secure_boot f), fw. split_and!; [done|done|apply Hp|done|done|by rewrite <- Htier| |].
  - intros id Hid. apply (demanded_passed _ _ Ha (passed_facts h (f_secure_boot f))); [done|].
    assert (Hr := required_demanded). rewrite forallb_forall in Hr. specialize (Hr h (proj1 (list_elem_of_In _ _) Hh)).
    rewrite forallb_forall in Hr. specialize (Hr _ (proj1 (list_elem_of_In _ _) Hin)).
    rewrite forallb_forall in Hr. apply Hr. by apply list_elem_of_In.
  - intros e He. by apply (expected_payload_listed _ _ Ha h (f_secure_boot f)).
Qed.

(** ** Records that pass *)
Module Sample.
Definition zeros (n : nat) : text := replicate n 48.
Definition sha256 : json := JStr (zeros 64).
Definition jlit (s : string) : json := JStr (lit s).

(** The strings of the sample for which the schema has a pattern, each of which its pattern matches. *)
Definition strings : list (text * text) :=
  [(lit "^[0-9a-f]{64}$", zeros 64); (lit "^[0-9a-f]{40}$", zeros 40); (lit "^[A-Za-z0-9.]+$", lit "1.0");
   (lit "^logs/[A-Za-z0-9._-]+(/[A-Za-z0-9._-]+)*$", lit "logs/run.txt"); (lit "^v[0-9]+\.[0-9]+\.[0-9]+$", lit "v1.0.0")].
Definition matches (pattern t : text) : bool := bool_decide ((pattern, t) ∈ strings).

Definition check : json :=
  JObj [(lit "status", jlit "passed"); (lit "logs", JList [JObj [(lit "path", jlit "logs/run.txt"); (lit "sha256", sha256)]])].

Definition image (state : text) : json :=
  JObj ([(lit "reproducibility_manifest_sha256", sha256); (lit "canonical_sha256", sha256); (lit "written_sha256", sha256)] ++
    (if text_in state SIGNED_STATES then
       [(lit "signed_image_record_sha256", sha256);
        (lit "signed_binaries", JList [JObj [(lit "esp_path", JStr []); (lit "sha256", sha256)]])] else []) ++
    (if bool_decide (state = lit "setup-mode") then
       [(lit "auto_enroll_keys", JList ((λ k, JObj [(lit "name", JStr k); (lit "sha256", sha256)]) <$> AUTO_ENROLL_KEYS))] else [])).

Definition subject (h : HardwareClass) (state : text) : json :=
  JObj [(lit "rules_mkosi", JObj [(lit "commit", JStr (zeros 40))]); (lit "image", image state);
        (lit "update_payloads", JList ((λ e, JObj [(lit "version", jlit "1.0"); (lit "sha256sums_sha256", sha256);
          (lit "expected", JStr e)]) <$> expected_payloads h state))].

Definition machine (h : HardwareClass) : json :=
  JObj [(lit "dmi", JObj ((λ n, (n, jlit "x")) <$> [lit "sys_vendor"; lit "product_name"; lit "bios_vendor"; lit "bios_version"; lit "bios_date"]));
        (lit "cpu", jlit "x"); (lit "boot_disk", JObj [(lit "transport", JStr (default [] (head (transports h)))); (lit "model", jlit "x")]);
        (lit "network", JList []); (lit "consoles", JList (JStr <$> consoles h));
        (lit "tpm2", JStr (default [] (dget (tpm2 h) TPM2 ≫= λ v, head v.2)))].

(** A passed run of a class in a state with exactly the checks that the table asks for. *)
Definition run (h : HardwareClass) (state : text) : list (text * json) :=
  [(lit "format_version", jlit "rules-mkosi-hardware-qualification-result-v1"); (lit "class", JStr (hc_name h));
   (lit "subject", subject h state); (lit "machine", machine h);
   (lit "firmware", JObj [(lit "tier", JStr (tier h)); (lit "boot_mode", JStr (boot_mode h)); (lit "secure_boot", JStr state)]);
   (lit "operator", jlit "x"); (lit "started_at", jlit "x"); (lit "finished_at", jlit "x");
   (lit "checks", JObj ((λ id, (id, check)) <$> required_checks h state)); (lit "outcome", jlit "passed")].
End Sample.

(** The rules are consistent and demand no more than the table: for every class in every one of its states, a run with
    exactly the required checks and payloads is accepted as passed. *)
Theorem required_checks_suffice :
  forallb (λ h, forallb (λ state, accepts_result Sample.matches (JObj (Sample.run h state))) (secure_boot h)) CLASSES = true.
Proof. vm_compute. reflexivity. Qed.

Lemma passed_result_complete_witness :
  let o := Sample.run (hardware_class "uefi-removable-usb" "Any UEFI machine starting from the removable-media path" "Any"
    "uefi" "uefi" ["disabled"] ["usb"] ["wired"] "" ["graphical"] "" "any") (lit "disabled") in
  ∃ h state fw, h ∈ CLASSES ∧ state ∈ secure_boot h ∧
    dget (lit "class") o = Some (JStr (hc_name h)) ∧ dget (lit "firmware") o = Some (JObj fw) ∧
    dget (lit "secure_boot") fw = Some (JStr state) ∧ dget (lit "tier") fw = Some (JStr (tier h)) ∧
    (∀ id, id ∈ required_checks h state → ∃ checks c, dget (lit "checks") o = Some (JObj checks) ∧
       dget id checks = Some (JObj c) ∧ dget (lit "status") c = Some (JStr (lit "passed"))) ∧
    (∀ e, e ∈ expected_payloads h state → ∃ subject l p, dget (lit "subject") o = Some (JObj subject) ∧
       dget (lit "update_payloads") subject = Some (JList l) ∧ JObj p ∈ l ∧ dget (lit "expected") p = Some (JStr e)).
Proof. intros o. apply (passed_result_complete Sample.matches); vm_compute; reflexivity. Defined.

Lemma schema_fuel_enough_witness :
  (16 ≤ 40)%nat ∧ valid Sample.matches result_defs 40 (VObj result_schema) (JObj []) = false ∧
  valid Sample.matches signoff_defs 40 (VObj signoff_schema) (JObj []) = false.
Proof.
  split; [lia|]. destruct (schema_fuel_enough Sample.matches 40 (JObj [])) as [-> ->]; [unfold FUEL; lia|]. split; vm_compute; reflexivity.
Defined.

(** ** Sign-off records *)
Section signoff.
Context (matches : text → text → bool) (o : list (text * json)) (accepted : accepts_signoff matches (JObj o) = true).
Abbreviation holds := (JsonSchema.valid matches signoff_defs).

(** The entry of a class satisfies the schema of that class. *)
Lemma signoff_entry h :
  h ∈ CLASSES →
  ∃ classes e, dget (lit "classes") o = Some (JObj classes) ∧ dget (hc_name h) classes = Some e ∧
    holds 14 (signoff_class h) e = true.
Proof.
  intros Hh.
  assert (∃ j, dget (lit "classes") o = Some j) as [j Hj].
  { eapply (valid_required matches signoff_defs 15 signoff_schema); [exact accepted|by apply list_elem_of_lookup_2 with 7%nat|by apply list_elem_of_lookup_2 with 3%nat]. }
  assert (Hv : holds 15 (VObj (obj signoff_classes (dkeys signoff_classes) [])) j = true).
  { eapply (valid_properties matches signoff_defs 15 signoff_schema); [exact accepted|by apply list_elem_of_lookup_2 with 6%nat|by apply list_elem_of_lookup_2 with 3%nat|exact Hj]. }
  destruct (valid_object _ _ _ _ _ Hv) as [classes ->]; [by left|].
  assert (Hc : (hc_name h, signoff_class h) ∈ signoff_classes) by (by apply (list_elem_of_fmap_2 (λ h, (hc_name h, signoff_class h)))).
  assert (∃ e, dget (hc_name h) classes = Some e) as [e He].
  { eapply valid_required; [exact Hv|by apply list_elem_of_lookup_2 with 3%nat|].
    apply list_elem_of_fmap_2. by apply (list_elem_of_fmap_2 fst) in Hc. }
  exists classes, e. split_and!; [done|done|].
  eapply valid_properties; [exact Hv|by apply list_elem_of_lookup_2 with 2%nat|exact Hc|exact He].
Qed.

(** An entry has a status and a list of results that are objects with a Secure Boot state. *)
Lemma entry_shape h e :
  holds 14 (signoff_class h) e = true →
  ∃ entry status l, e = JObj entry ∧ dget (lit "status") entry = Some (JStr status) ∧
    dget (lit "results") entry = Some (JList l) ∧
    ∀ y, y ∈ l → ∃ r t, y = JObj r ∧ dget (lit "secure_boot") r = Some (JStr t).
Proof.
  intros Hv. assert (Hr : holds 13 (key1 "$ref" (str "#/$defs/class_entry")) e = true).
  { eapply valid_allOf; [exact Hv|by left|by left]. }
  unfold key1 in Hr. change (str "#/$defs/class_entry") with (VStr (lit "#/$defs/" ++ lit "class_entry")) in Hr.
  rewrite (valid_ref _ _ 12 (lit "class_entry") (VObj class_entry)) in Hr by done.
  destruct (valid_object _ _ _ _ _ Hr) as [entry ->]; [by left|].
  assert (∃ t, dget (lit "status") entry = Some (JStr t) ∧ t ∈ [lit "qualified"; lit "failed"; lit "not-tested"]) as (t & Ht & _).
  { eapply (enum_member matches signoff_defs 10 class_entry); [exact Hr|by apply list_elem_of_lookup_2 with 2%nat|
      by apply list_elem_of_lookup_2 with 3%nat|by apply list_elem_of_lookup_2 with 0%nat|
      by apply list_elem_of_lookup_2 with 0%nat]. }
  assert (∃ j, dget (lit "results") entry = Some j) as [j Hj].
  { eapply valid_required; [exact Hr|by apply list_elem_of_lookup_2 with 3%nat|by apply list_elem_of_lookup_2 with 1%nat]. }
  assert (Ha : holds 11 (array (key1 "$ref" (str "#/$defs/result")) [(lit "uniqueItems", VBool true)]) j = true).
  { eapply valid_properties; [exact Hr|by apply list_elem_of_lookup_2 with 2%nat|by apply list_elem_of_lookup_2 with 1%nat|exact Hj]. }
  destruct (valid_array _ _ _ _ _ Ha) as [l ->]; [by left|]. exists entry, t, l. split_and!; [done..|]. intros y Hy.
  assert (Hi := valid_items _ _ _ _ _ _ y Ha ltac:(right; by left) Hy).
  unfold key1 in Hi. change (str "#/$defs/result") with (VStr (lit "#/$defs/" ++ lit "result")) in Hi.
  rewrite (valid_ref _ _ 9 (lit "result") (VObj signoff_result)) in Hi by done.
  destruct (valid_object _ _ _ _ _ Hi) as [r ->]; [by left|].
  assert (∃ t, dget (lit "secure_boot") r = Some (JStr t) ∧ t ∈ STATES) as (s & Hs & _).
  { eapply (enum_member matches signoff_defs 7 signoff_result); [exact Hi|by apply list_elem_of_lookup_2 with 2%nat|
      by apply list_elem_of_lookup_2 with 3%nat|by apply list_elem_of_lookup_2 with 2%nat|
      by apply list_elem_of_lookup_2 with 2%nat]. }
  eauto.
Qed.

(** The states of the attached results are those of the class, and a qualified class has one for each. *)
Lemma entry_states h entry l :
  holds 14 (signoff_class h) (JObj entry) = true → dget (lit "results") entry = Some (JList l) →
  (∀ r t, JObj r ∈ l → dget (lit "secure_boot") r = Some (JStr t) → t ∈ secure_boot h) ∧
  (dget (lit "status") entry = Some (JStr (lit "qualified")) →
   ∀ s, s ∈ secure_boot h → ∃ x, x ∈ l ∧ holds 9 (prop1 (lit "secure_boot") (key1 "const" (VStr s))) x = true).
Proof.
  intros Hv Hl. split.
  - intros r t Hr Ht.
    assert (Hp : holds 13 (prop1 (lit "results") (key1 "items" (prop1 (lit "secure_boot") (enum (secure_boot h))))) (JObj entry) = true).
    { eapply valid_allOf; [exact Hv|by left|right; by left]. }
    unfold prop1 at 1, key1 at 1 in Hp. rewrite valid_prop1, Hl in Hp.
    assert (Hi := valid_items _ _ _ _ _ _ (JObj r) Hp ltac:(by left) Hr).
    unfold prop1, key1 in Hi. rewrite valid_prop1, Ht, valid_enum in Hi. by apply bool_decide_eq_true in Hi.
  - intros Hq s Hs.
    assert (Hc : holds 12 (prop1 (lit "results") (key1 "allOf" (VList (contains_const "secure_boot" <$> secure_boot h)))) (JObj entry) = true).
    { eapply valid_rule; [eapply valid_allOf; [exact Hv|by left|right; right; by left]|].
      unfold status_is, prop1, key1. rewrite valid_prop1, Hq. by apply (valid_const matches signoff_defs 10 (lit "qualified")). }
    unfold prop1 at 1, key1 at 1 in Hc. rewrite valid_prop1, Hl in Hc.
    assert (Hk : holds 10 (contains_const "secure_boot" s) (JList l) = true).
    { eapply valid_allOf; [exact Hc|by left|by apply list_elem_of_fmap_2]. }
    by apply (valid_contains _ _ _ _ _ Hk).
Qed.
End signoff.

(** An accepted sign-off has an entry for every hardware class; its attached results are runs in states of the class, and
    a class that it calls qualified has a result for every Secure Boot state of the class. *)
Theorem signoff_qualified_complete matches o h :
  accepts_signoff matches (JObj o) = true → h ∈ CLASSES →
  ∃ classes entry l, dget (lit "classes") o = Some (JObj classes) ∧ dget (hc_name h) classes = Some (JObj entry) ∧
    dget (lit "results") entry = Some (JList l) ∧
    (∀ r t, JObj r ∈ l → dget (lit "secure_boot") r = Some (JStr t) → t ∈ secure_boot h) ∧
    (dget (lit "status") entry = Some (JStr (lit "qualified")) →
     ∀ s, s ∈ secure_boot h → ∃ r, JObj r ∈ l ∧ dget (lit "secure_boot") r = Some (JStr s)).
Proof.
  intros Ha Hh. destruct (signoff_entry _ _ Ha h Hh) as (classes & e & Hc & He & Hv).
  destruct (entry_shape _ _ _ Hv) as (entry & status & l & -> & _ & Hl & Hy).
  destruct (entry_states _ _ _ _ Hv Hl) as [Hin Hq]. exists classes, entry, l. split_and!; [done..|].
  intros Hs s Hss. destruct (Hq Hs s Hss) as (x & Hx & Hp). destruct (Hy x Hx) as (r & t & -> & Ht).
  unfold prop1, key1 in Hp. rewrite valid_prop1, Ht in Hp. apply valid_const in Hp as [= ->]. eauto.
Qed.

(** A sign-off in which every class is qualified. *)
Module SampleSignoff.
Import Sample.
Definition entry (h : HardwareClass) : json :=
  JObj [(lit "status", jlit "qualified");
        (lit "results", JList ((λ s, JObj [(lit "asset", jlit "x"); (lit "sha256", sha256); (lit "secure_boot", JStr s)]) <$> secure_boot h))].
Definition record : list (text * json) :=
  [(lit "format_version", jlit "rules-mkosi-hardware-qualification-signoff-v1");
   (lit "release", JObj [(lit "tag", jlit "v1.0.0"); (lit "commit", JStr (zeros 40)); (lit "archive_sha256", sha256)]);
   (lit "vm_gates", JObj [(lit "ci_run", jlit "x"); (lit "conclusion", jlit "success")]);
   (lit "classes", JObj ((λ h, (hc_name h, entry h)) <$> CLASSES)); (lit "signed_off_by", jlit "x"); (lit "signed_off_at", jlit "x")].
End SampleSignoff.

Lemma signoff_qualified_complete_witness :
  let o := SampleSignoff.record in
  let h := hardware_class "bios-csm" "UEFI machine booting through its Compatibility Support Module" "2012 to 2020"
    "bios" "csm" ["not-applicable"] ["sata"] ["wired"] "" ["graphical"] "" "any" in
  ∃ classes entry l, dget (lit "classes") o = Some (JObj classes) ∧ dget (hc_name h) classes = Some (JObj entry) ∧
    dget (lit "results") entry = Some (JList l) ∧
    (∀ r t, JObj r ∈ l → dget (lit "secure_boot") r = Some (JStr t) → t ∈ secure_boot h) ∧
    (dget (lit "status") entry = Some (JStr (lit "qualified")) →
     ∀ s, s ∈ secure_boot h → ∃ r, JObj r ∈ l ∧ dget (lit "secure_boot") r = Some (JStr s)).
Proof.
  intros o h. apply (signoff_qualified_complete Sample.matches); [vm_compute; reflexivity|].
  apply list_elem_of_lookup_2 with 6%nat. reflexivity.
Defined.
