(* ===== verification/EspManifest.v ===== *)
(** * The ESP reader: [mkosi/private/esp_manifest/rules_mkosi_esp_manifest.py]

    Finds the EFI system partition in the primary GPT of a raw image and reads its FAT12, FAT16 or FAT32 file system.
    An image path is the file it names. A directory entry is 32 bytes, so the code's indexing into one never fails and
    [byte_at] and [field_at] are total. [json.loads] is a parameter of [read_esp_manifest]. *)
From S2P Require Import Prelude Bytes PyText Hashing Collections Json.

Definition ESP_MANIFEST_PATH : text := lit "loader/rules_mkosi-secure-boot.json".
Definition ESP_MANIFEST_FORMAT : text := lit "mkosi-secure-boot-esp-manifest-v1".
Definition ESP_TYPE_GUID : bytes := uuid_lit "c12a7328-f81f-11d2-ba4b-00a0c93ec93b".

Definition _GPT_SECTOR_SIZES : list Z := [512; 4096].
Definition _MAX_GPT_ARRAY_BYTES : Z := Z.shiftl 4 20.
Definition _DIRECTORY_ENTRY : Z := 32.
Definition _MAX_DIRECTORY_BYTES : Z := 65536 * _DIRECTORY_ENTRY.
Definition _ATTRIBUTE_VOLUME_LABEL : Z := 0x08.
Definition _ATTRIBUTE_DIRECTORY : Z := 0x10.
Definition _ATTRIBUTE_LONG_NAME : Z := 0x0F.
Definition _LAST_LONG_NAME_SLOT : Z := 0x40.
Definition _MAX_LONG_NAME_SLOTS : Z := 20.
Definition _DELETED : Z := 0xE5.
Definition _FAT12_CLUSTER_LIMIT : Z := 4085.
Definition _END_OF_CHAIN (bits : Z) : Z := if bits =? 12 then 0xFF8 else if bits =? 16 then 0xFFF8 else 0x0FFFFFF8.

Record Partition := { pt_offset : Z; pt_size : Z; pt_sector_size : Z }.
Record EspFile := { ef_path : text; ef_size : Z }.
Record _Entry := { en_name : text; en_short_name : text; en_attributes : Z; en_cluster : Z; en_size : Z }.
Definition is_directory (entry : _Entry) : bool := negb (Z.land (en_attributes entry) _ATTRIBUTE_DIRECTORY =? 0).

Record _Geometry := {
  g_fat32 : bool; g_fat_offset : Z; g_fat_size : Z; g_root_offset : Z; g_root_size : Z; g_root_cluster : Z;
  g_data_offset : Z; g_cluster_size : Z; g_clusters : Z }.

(** [_Image.read]. *)
Definition image_read (image : file) (offset size : Z) (what : text) : result bytes :=
  raise_if ((offset <? 0) || (size <? 0) || (f_size image <? offset + size))
    (InvalidImageError "{} at byte {} lies beyond the end of the image" [AText what; AInt offset]);;
  let data := fread image offset size in
  require (len data =? size) (InvalidImageError "{} at byte {} is truncated" [AText what; AInt offset]);;
  mret data.

(** [raw[i]] and a little-endian field of [n] bytes, inside a buffer of known size. *)
Definition byte_at (raw : bytes) (i : Z) : Z := b2Z (default x00 (raw !! Z.to_nat i)).
Definition field_at (n : Z) (raw : bytes) (off : Z) : Z := le_decode (slice off (off + n) raw).

(** ** The partition table *)

(** The loop over [_GPT_SECTOR_SIZES]. *)
Fixpoint find_sector_size (image : file) (sizes : list Z) : result Z :=
  match sizes with
  | [] => Err (InvalidImageError "the image has no GPT header at byte 512 or 4096" [])
  | sector_size :: sizes =>
      if 2 * sector_size <=? f_size image then
        signature ← image_read image sector_size 8 (lit "the GPT header");
        if bool_decide (signature = blit "EFI PART") then mret sector_size else find_sector_size image sizes
      else find_sector_size image sizes
  end.

Definition _gpt_sector_size (image : file) : result Z :=
  mbr ← image_read image 0 512 (lit "the protective MBR");
  let types := (λ index, byte_at mbr (446 + 16 * index + 4)) <$> seqZ 0 4 in
  raise_if (negb (bool_decide (slice 510 512 mbr = [x55; xaa])) || negb (bool_decide (0xEE ∈ types)))
    (InvalidImageError "the image has no protective MBR, so it is not a GPT disk image" []);;
  find_sector_size image _GPT_SECTOR_SIZES.

Definition _gpt_entries (image : file) (sector_size : Z) : result (list bytes) :=
  header ← image_read image sector_size sector_size (lit "the GPT header");
  header_size ← u32 header 12;
  header_crc ← u32 header 16;
  require ((92 <=? header_size) && (header_size <=? sector_size))
    (InvalidImageError "the GPT header has an invalid size of {} bytes" [AInt header_size]);;
  raise_if (negb (crc32 (slice 0 16 header ++ zeros 4 ++ slice 20 header_size header) =? header_crc))
    (InvalidImageError "the GPT header's CRC does not match" []);;
  array_lba ← u64 header 72;
  count ← u32 header 80;
  entry_size ← u32 header 84;
  array_crc ← u32 header 88;
  raise_if ((entry_size <? 128) || negb (entry_size mod 8 =? 0) || (_MAX_GPT_ARRAY_BYTES <? count * entry_size))
    (InvalidImageError "the GPT has an invalid partition array of {} {}-byte entries" [AInt count; AInt entry_size]);;
  let array_offset := array_lba * sector_size in
  raise_if ((array_lba <? 2) || (f_size image <? array_offset + count * entry_size))
    (InvalidImageError "the GPT partition array at LBA {} does not lie within the image" [AInt array_lba]);;
  array ← image_read image array_offset (count * entry_size) (lit "the GPT partition array");
  raise_if (negb (crc32 array =? array_crc)) (InvalidImageError "the GPT partition array's CRC does not match" []);;
  mret ((λ start, slice start (start + entry_size) array) <$> range_step 0 (len array) entry_size).

(** The partitions of the ESP type among the entries. *)
Definition esp_partitions (sector_size : Z) (entries : list bytes) : list Partition :=
  entries ≫= λ entry,
    if bool_decide (uuid_of_bytes_le (slice 0 16 entry) = ESP_TYPE_GUID) then
      let first := field_at 8 entry 32 in let last := field_at 8 entry 40 in
      [{| pt_offset := first * sector_size; pt_size := (last - first + 1) * sector_size; pt_sector_size := sector_size |}]
    else [].

Definition _find_esp (image : file) : result Partition :=
  sector_size ← _gpt_sector_size image;
  entries ← _gpt_entries image sector_size;
  match esp_partitions sector_size entries with
  | [esp] =>
      raise_if ((pt_offset esp <? 2 * sector_size) || (pt_size esp <=? 0) || (f_size image <? pt_offset esp + pt_size esp))
        (InvalidImageError "the EFI system partition does not lie within the image" []);;
      mret esp
  | esps =>
      Err (InvalidImageError "the GPT must hold exactly one EFI system partition, found {}" [AInt (len esps)])
  end.

(** ** The boot sector *)

Definition _geometry (boot : bytes) (partition : Partition) : result _Geometry :=
  let sector := field_at 2 boot 11 in let per_cluster := field_at 1 boot 13 in let reserved := field_at 2 boot 14 in
  let fats := field_at 1 boot 16 in let root_entries := field_at 2 boot 17 in let total16 := field_at 2 boot 19 in
  let fat_size16 := field_at 2 boot 22 in
  let total32 := field_at 4 boot 32 in let fat_size32 := field_at 4 boot 36 in let root_cluster := field_at 4 boot 44 in
  let fat32 := fat_size16 =? 0 in
  let fat_size := (if fat32 then fat_size32 else fat_size16) * sector in
  let total := (if total16 =? 0 then total32 else total16) * sector in
  require (bool_decide (slice 510 512 boot = [x55; xaa]) && bool_decide (sector ∈ [512; 1024; 2048; 4096]) &&
           bool_decide (per_cluster ∈ [1; 2; 4; 8; 16; 32; 64; 128]) && (0 <? reserved) && (0 <? fats) && (0 <? fat_size) &&
           Bool.eqb (root_entries =? 0) fat32)
    (InvalidImageError "the ESP holds no FAT file system: its boot sector is invalid" []);;
  raise_if (pt_size partition <? total)
    (InvalidImageError "the ESP's FAT file system is larger than the partition" []);;
  let root_offset := reserved * sector + fats * fat_size in
  let root_size := root_entries * _DIRECTORY_ENTRY in
  let data_offset := root_offset + - (- root_size / sector) * sector in
  let cluster_size := per_cluster * sector in
  let clusters := Z.max (total - data_offset) 0 / cluster_size in
  raise_if (clusters =? 0) (InvalidImageError "the ESP's FAT file system has no data clusters" []);;
  mret {| g_fat32 := fat32; g_fat_offset := pt_offset partition + reserved * sector; g_fat_size := fat_size;
          g_root_offset := pt_offset partition + root_offset; g_root_size := root_size;
          g_root_cluster := if fat32 then root_cluster else 0; g_data_offset := pt_offset partition + data_offset;
          g_cluster_size := cluster_size; g_clusters := clusters |}.

(** ** Names *)

Definition _short_name_checksum (raw_name : bytes) : Z :=
  foldl (λ checksum byte, Z.land (Z.shiftl (Z.land checksum 1) 7 + Z.shiftr checksum 1 + b2Z byte) 0xFF) 0 raw_name.

(** The upper half of code page 437. *)
Definition cp437_high : list Z :=
  [0xc7; 0xfc; 0xe9; 0xe2; 0xe4; 0xe0; 0xe5; 0xe7; 0xea; 0xeb; 0xe8; 0xef; 0xee; 0xec; 0xc4; 0xc5;
   0xc9; 0xe6; 0xc6; 0xf4; 0xf6; 0xf2; 0xfb; 0xf9; 0xff; 0xd6; 0xdc; 0xa2; 0xa3; 0xa5; 0x20a7; 0x192;
   0xe1; 0xed; 0xf3; 0xfa; 0xf1; 0xd1; 0xaa; 0xba; 0xbf; 0x2310; 0xac; 0xbd; 0xbc; 0xa1; 0xab; 0xbb;
   0x2591; 0x2592; 0x2593; 0x2502; 0x2524; 0x2561; 0x2562; 0x2556; 0x2555; 0x2563; 0x2551; 0x2557; 0x255d; 0x255c; 0x255b; 0x2510;
   0x2514; 0x2534; 0x252c; 0x251c; 0x2500; 0x253c; 0x255e; 0x255f; 0x255a; 0x2554; 0x2569; 0x2566; 0x2560; 0x2550; 0x256c; 0x2567;
   0x2568; 0x2564; 0x2565; 0x2559; 0x2558; 0x2552; 0x2553; 0x256b; 0x256a; 0x2518; 0x250c; 0x2588; 0x2584; 0x258c; 0x2590; 0x2580;
   0x3b1; 0xdf; 0x393; 0x3c0; 0x3a3; 0x3c3; 0xb5; 0x3c4; 0x3a6; 0x398; 0x3a9; 0x3b4; 0x221e; 0x3c6; 0x3b5; 0x2229;
   0x2261; 0xb1; 0x2265; 0x2264; 0x2320; 0x2321; 0xf7; 0x2248; 0xb0; 0x2219; 0xb7; 0x221a; 0x207f; 0xb2; 0x25a0; 0xa0].

Definition cp437_decode (l : bytes) : text :=
  (λ b, let z := b2Z b in if z <? 128 then z else default 0 (cp437_high !! Z.to_nat (z - 128))) <$> l.

(** [rstrip(b" ")]. *)
Definition rstrip_spaces (l : bytes) : bytes :=
  reverse ((fix go (l : bytes) := match l with [] => [] | b :: l' => if bool_decide (b = x20) then go l' else l end) (reverse l)).

Section reader.
Context `{Ucd}.

Definition _short_name (raw : bytes) : text :=
  let base := cp437_decode (rstrip_spaces (if byte_at raw 0 =? 0x05 then xe5 :: slice 1 8 raw else slice 0 8 raw)) in
  let extension := cp437_decode (rstrip_spaces (slice 8 11 raw)) in
  let base := if Z.land (byte_at raw 12) 0x08 =? 0 then base else lower base in
  let extension := if Z.land (byte_at raw 12) 0x10 =? 0 then extension else lower extension in
  if bool_decide (extension = []) then base else base ++ lit "." ++ extension.

(** [units.decode("utf-16-le", errors="replace")]; a slot holds 26 bytes, so the number of bytes is even. *)
Definition utf16_replace (l : bytes) : text := default [] (us ← utf16_units l; utf16_points (Some 0xFFFD) us).

Definition _long_name (slots : list bytes) (raw : bytes) : option text :=
  match slots with
  | [] => None
  | first :: _ =>
      let count := Z.ldiff (byte_at first 0) _LAST_LONG_NAME_SLOT in
      if negb ((1 <=? count) && (count <=? _MAX_LONG_NAME_SLOTS)) then None else
      let expected := Z.lor count _LAST_LONG_NAME_SLOT :: reverse (seqZ 1 (count - 1)) in
      let checksum := _short_name_checksum (slice 0 11 raw) in
      if negb (bool_decide (((λ slot, byte_at slot 0) <$> slots) = expected)) ||
         existsb (λ slot, negb (byte_at slot 13 =? checksum)) slots then None else
      let units := reverse slots ≫= λ slot, slice 1 11 slot ++ slice 14 26 slot ++ slice 28 32 slot in
      let name := (partition_on 0 (utf16_replace units)).1 in
      if bool_decide (name = []) then None else Some name
  end.

Definition _fold (name : text) : text := upper name.

(** ** The volume *)

(** [_WalkLimits]. *)
Record _WalkLimits := { wl_claimed : list Z; wl_remaining : Z }.

Definition minimum (l : list Z) : Z := match l with [] => 0 | x :: l => foldl Z.min x l end.

Definition claim (limits : _WalkLimits) (chain : list Z) (size : Z) (what : text) : result _WalkLimits :=
  let shared := List.filter (λ c, bool_decide (c ∈ wl_claimed limits)) chain in
  require (bool_decide (shared = []))
    (InvalidImageError "{} shares cluster {} with another directory, so the ESP is cross-linked"
       [AText what; AInt (minimum shared)]);;
  let remaining := wl_remaining limits - size in
  raise_if (remaining <? 0) (InvalidImageError "the ESP's directories are larger than the ESP" []);;
  mret {| wl_claimed := wl_claimed limits ++ chain; wl_remaining := remaining |}.

Record _FatVolume := {
  v_image : file; v_partition : Partition; v_geometry : _Geometry; v_last_cluster : Z; v_bits : Z; v_fat : bytes }.

Definition fat_volume (image : file) (partition : Partition) : result _FatVolume :=
  boot ← image_read image (pt_offset partition) 512 (lit "the ESP's boot sector");
  geometry ← _geometry boot partition;
  let last_cluster := g_clusters geometry + 1 in
  let bits := if g_fat32 geometry then 32 else if g_clusters geometry <? _FAT12_CLUSTER_LIMIT then 12 else 16 in
  raise_if (g_fat_size geometry * 8 <? (last_cluster + 1) * bits)
    (InvalidImageError "the ESP's FAT is too small for its {} clusters" [AInt (g_clusters geometry)]);;
  fat ← image_read image (g_fat_offset geometry) (g_fat_size geometry) (lit "the ESP's FAT");
  mret {| v_image := image; v_partition := partition; v_geometry := geometry; v_last_cluster := last_cluster;
          v_bits := bits; v_fat := fat |}.

Definition _next_cluster (v : _FatVolume) (cluster : Z) : result Z :=
  if v_bits v =? 12 then
    value ← u16 (v_fat v) (cluster * 3 / 2);
    mret (if Z.land cluster 1 =? 0 then Z.land value 0xFFF else Z.shiftr value 4)
  else if v_bits v =? 16 then u16 (v_fat v) (cluster * 2)
  else value ← u32 (v_fat v) (cluster * 4); mret (Z.land value 0x0FFFFFFF).

(** The loop of [_chain]; [visited] has the members of [chain]. *)
Fixpoint chain_loop (fuel : nat) (v : _FatVolume) (chain : list Z) (cluster : Z) (what : text) : result (list Z) :=
  match fuel with
  | O => Err OutOfFuel
  | S fuel =>
      require ((2 <=? cluster) && (cluster <=? v_last_cluster v))
        (InvalidImageError "the cluster chain of {} reaches invalid cluster {}" [AText what; AInt cluster]);;
      raise_if (bool_decide (cluster ∈ chain))
        (InvalidImageError "the cluster chain of {} loops at cluster {}" [AText what; AInt cluster]);;
      next ← _next_cluster v cluster;
      if _END_OF_CHAIN (v_bits v) <=? next then mret (chain ++ [cluster])
      else chain_loop fuel v (chain ++ [cluster]) next what
  end.

Definition chain_fuel (v : _FatVolume) : nat := S (Z.to_nat (g_clusters (v_geometry v))).
Definition _chain (v : _FatVolume) (first : Z) (what : text) : result (list Z) := chain_loop (chain_fuel v) v [] first what.

Definition _read_chain (v : _FatVolume) (chain : list Z) (what : text) : result bytes :=
  let size := g_cluster_size (v_geometry v) in
  let offset := g_data_offset (v_geometry v) in
  blocks ← mapM (λ cluster, image_read (v_image v) (offset + (cluster - 2) * size) size what) chain;
  mret (mjoin blocks).

Definition read_file (v : _FatVolume) (entry : _Entry) (what : text) : result bytes :=
  if en_size entry =? 0 then mret [] else
  chain ← _chain v (en_cluster entry) what;
  let cluster_size := g_cluster_size (v_geometry v) in
  raise_if (negb (len chain =? - (- en_size entry / cluster_size)))
    (InvalidImageError "{} has {} bytes but a chain of {} {}-byte clusters"
       [AText what; AInt (en_size entry); AInt (len chain); AInt cluster_size]);;
  data ← _read_chain v chain what;
  mret (slice 0 (en_size entry) data).

Definition _add_slot (slots : list bytes) (raw : bytes) : list bytes :=
  if negb (Z.land (byte_at raw 0) _LAST_LONG_NAME_SLOT =? 0) then [raw]
  else if _MAX_LONG_NAME_SLOTS <=? len slots then []
  else slots ++ [raw].

(** The short entry [raw] after the long name slots, unless it is the volume label, [.] or [..]. *)
Definition short_entry (fat32 : bool) (slots : list bytes) (raw : bytes) : list _Entry :=
  let long_name := _long_name slots raw in
  let short_name := _short_name raw in
  if negb (Z.land (byte_at raw 11) _ATTRIBUTE_VOLUME_LABEL =? 0) || bool_decide (short_name ∈ [lit "."; lit ".."]) then []
  else
    let high := if fat32 then field_at 2 raw 20 else 0 in
    let cluster := Z.lor (Z.shiftl high 16) (field_at 2 raw 26) in
    [{| en_name := default short_name long_name; en_short_name := short_name; en_attributes := byte_at raw 11;
        en_cluster := cluster; en_size := field_at 4 raw 28 |}].

(** The loop of [_entries] over the 32-byte entries of the data. *)
Fixpoint entries_loop (fat32 : bool) (slots : list bytes) (raws : list bytes) : list _Entry :=
  match raws with
  | [] => []
  | raw :: raws =>
      if byte_at raw 0 =? 0 then []
      else if byte_at raw 0 =? _DELETED then entries_loop fat32 [] raws
      else if Z.land (byte_at raw 11) 0x3F =? _ATTRIBUTE_LONG_NAME then entries_loop fat32 (_add_slot slots raw) raws
      else short_entry fat32 slots raw ++ entries_loop fat32 [] raws
  end.

Definition _entries (v : _FatVolume) (data : bytes) : list _Entry :=
  entries_loop (g_fat32 (v_geometry v)) []
    ((λ start, slice start (start + _DIRECTORY_ENTRY) data) <$> range_step 0 (len data - _DIRECTORY_ENTRY + 1) _DIRECTORY_ENTRY).

(** [if limits: limits.claim(...)]. *)
Definition claim_if (limits : option _WalkLimits) (chain : list Z) (size : Z) (what : text) : result (option _WalkLimits) :=
  match limits with Some l => Some <$> claim l chain size what | None => Ok None end.

Definition directory (v : _FatVolume) (cluster : option Z) (what : text) (limits : option _WalkLimits) :
    result (list _Entry * option _WalkLimits) :=
  let g := v_geometry v in
  if bool_decide (cluster = None) && negb (g_fat32 g) then
    limits ← claim_if limits [] (g_root_size g) what;
    data ← image_read (v_image v) (g_root_offset g) (g_root_size g) what;
    mret (_entries v data, limits)
  else
    chain ← _chain v (default (g_root_cluster g) cluster) what;
    let size := len chain * g_cluster_size g in
    raise_if (_MAX_DIRECTORY_BYTES <? size) (InvalidImageError "{} has more than 65536 entries" [AText what]);;
    limits ← claim_if limits chain size what;
    data ← _read_chain v chain what;
    mret (_entries v data, limits).

(** The loop of [lookup]; [above] are the components before [components]. *)
Fixpoint lookup_loop (v : _FatVolume) (esp_path : text) (above : list text) (entry : option _Entry) (components : list text) :
    result (option _Entry) :=
  match components with
  | [] => mret entry
  | component :: components =>
      raise_if (match entry with Some e => negb (is_directory e) | None => false end)
        (EspFileNotFoundError "the ESP has no file {}: {} is a file" [AText esp_path; AText (default [] (en_name <$> entry))]);;
      let parent := join (lit "/") above in
      let parent := if bool_decide (parent = []) then lit "the root directory" else parent in
      let folded := _fold component in
      '(found, _) ← directory v (en_cluster <$> entry) parent None;
      match List.filter (λ e, bool_decide (folded ∈ [_fold (en_name e); _fold (en_short_name e)])) found with
      | [] => Err (EspFileNotFoundError "the ESP has no file {}" [AText esp_path])
      | e :: _ => lookup_loop v esp_path (above ++ [component]) (Some e) components
      end
  end.

Definition lookup (v : _FatVolume) (esp_path : text) : result _Entry :=
  let components := List.filter (λ c, negb (bool_decide (c = []))) (split_on 47 esp_path) in
  raise_if (bool_decide (components = [])) (EspFileNotFoundError "the ESP path {!r} names no file" [AText esp_path]);;
  entry ← lookup_loop v esp_path [] None components;
  of_option AttributeError entry.

(** What one directory adds to the files and, with the last subdirectory on top, to the pending directories. *)
Definition walk_entry (prefix : text) (state : list EspFile * list (text * option Z)) (entry : _Entry) :
    list EspFile * list (text * option Z) :=
  if is_directory entry then (state.1, (prefix ++ en_name entry ++ lit "/", Some (en_cluster entry)) :: state.2)
  else (state.1 ++ [{| ef_path := prefix ++ en_name entry; ef_size := en_size entry |}], state.2).

Fixpoint walk_loop (fuel : nat) (v : _FatVolume) (files : list EspFile) (pending : list (text * option Z))
    (limits : _WalkLimits) : result (list EspFile) :=
  match pending with
  | [] => mret files
  | (prefix, cluster) :: pending =>
      match fuel with
      | O => Err OutOfFuel
      | S fuel =>
          let what := rstrip_by (Z.eqb 47) prefix in
          let what := if bool_decide (what = []) then lit "the root directory" else what in
          '(found, limits) ← directory v cluster what (Some limits);
          let '(files, pending) := foldl (walk_entry prefix) (files, pending) found in
          walk_loop fuel v files pending (default {| wl_claimed := []; wl_remaining := 0 |} limits)
      end
  end.

(** The order of the named tuples [EspFile]. *)
Definition file_lt (a b : EspFile) : bool :=
  if bool_decide (ef_path a = ef_path b) then ef_size a <? ef_size b else text_leb (ef_path a) (ef_path b).

Definition walk_fuel (v : _FatVolume) : nat := S (S (Z.to_nat (g_clusters (v_geometry v)))).
Definition walk (v : _FatVolume) : result (list EspFile) :=
  files ← walk_loop (walk_fuel v) v [] [([], None)] {| wl_claimed := []; wl_remaining := pt_size (v_partition v) |};
  mret (stable_sort file_lt files).

(** ** The entry points *)

Definition find_esp (image : file) : result Partition := _find_esp image.

Definition list_esp_files (image : file) : result (list EspFile) :=
  esp ← _find_esp image;
  v ← fat_volume image esp;
  walk v.

Definition read_esp_file (image : file) (esp_path : text) : result bytes :=
  esp ← _find_esp image;
  v ← fat_volume image esp;
  entry ← lookup v esp_path;
  raise_if (is_directory entry) (EspFileNotFoundError "the ESP path {} is a directory" [AText esp_path]);;
  read_file v entry esp_path.

Definition read_esp_manifest (loads : text → option json) (image : file) : result (list (text * json)) :=
  data ← read_esp_file image ESP_MANIFEST_PATH;
  let not_json := InvalidImageError "the ESP manifest is not JSON: {}" [] in
  let other_format := InvalidImageError "the ESP manifest is not a {} document" [AText ESP_MANIFEST_FORMAT] in
  t ← of_option not_json (utf8_decode data);
  manifest ← of_option not_json (loads t);
  match manifest with
  | JObj items =>
      if match jget (lit "format_version") items with JStr t => bool_decide (t = ESP_MANIFEST_FORMAT) | _ => false end
      then mret items else Err other_format
  | _ => Err other_format
  end.

(** The exit status of [main] for an exception, and [None] for one that it does not catch. *)
Definition exit_status (e : exn) : option Z :=
  match e with
  | EspFileNotFoundError _ _ => Some 3
  | InvalidImageError _ _ | ValueError _ _ | UnicodeError | OSError => Some 1
  | _ => None
  end.
End reader.
