(* ===== verification/EspProofs.v ===== *)
(** * The ESP reader: bounds, termination and what it lists

    [volume_ok] is what the boot sector checks establish. Under it every read lies inside the partition, every cluster
    chain is read to its end or rejected, and a walk visits every directory once. *)
From S2P Require Import Prelude Bytes PyText Hashing Collections Json EspManifest.

Definition is_esp_error (e : exn) : Prop :=
  (∃ fmt args, e = InvalidImageError fmt args) ∨ (∃ fmt args, e = EspFileNotFoundError fmt args).

Lemma invalid_image_esp fmt args : is_esp_error (InvalidImageError fmt args).
Proof. left. by exists fmt, args. Qed.
Lemma not_found_esp fmt args : is_esp_error (EspFileNotFoundError fmt args).
Proof. right. by exists fmt, args. Qed.
#[export] Hint Resolve invalid_image_esp not_found_esp : core.

(** The error of a walk that would read more directory bytes than the partition has. *)
Definition over_budget : exn := InvalidImageError "the ESP's directories are larger than the ESP" [].
Definition is_walk_error (e : exn) : Prop := is_esp_error e ∧ e ≠ over_budget.

(** ** Reads *)

Lemma image_read_inv image off n what d :
  image_read image off n what = Ok d → 0 <= off ∧ 0 <= n ∧ off + n <= f_size image ∧ d = fread image off n ∧ len d = n.
Proof. unfold image_read. intros. res_inv. bool_inv. split_and!; (lia || done). Qed.

Lemma image_read_Ok image off n what :
  0 <= off → 0 <= n → off + n <= f_size image → image_read image off n what = Ok (fread image off n).
Proof.
  intros. unfold image_read, raise_if, require. rewrite len_fread by lia.
  replace (_ || _ || _) with false by lia. cbn. by rewrite Z.eqb_refl.
Qed.

Lemma raises_image_read image off n what : raises is_esp_error (image_read image off n what).
Proof. unfold image_read. raises_auto. Qed.
#[export] Hint Resolve raises_image_read : raises.

Lemma field_at_range n raw off : 0 <= off → 0 <= n → 0 <= field_at n raw off < 256 ^ n.
Proof.
  intros. unfold field_at. pose proof (le_decode_range (slice off (off + n) raw)) as Hr.
  split; [lia|]. eapply Z.lt_le_trans; [apply Hr|]. apply Z.pow_le_mono_r; [lia|].
  pose proof (len_slice_le off (off + n) raw). lia.
Qed.

(** ** The partition *)

Lemma find_sector_size_inv image sizes s : find_sector_size image sizes = Ok s → s ∈ sizes ∧ 2 * s <= f_size image.
Proof.
  induction sizes as [|x sizes IH]; intros Hs; [done|]. simpl in Hs. destruct (2 * x <=? f_size image) eqn:E.
  - res_inv. case_bool_decide; res_inv; [split; [by left|lia]|]. destruct (IH Hs). split; [by right|done].
  - destruct (IH Hs). split; [by right|done].
Qed.

Lemma gpt_sector_size_inv image s : _gpt_sector_size image = Ok s → s = 512 ∨ s = 4096.
Proof.
  unfold _gpt_sector_size. intros. res_inv. apply find_sector_size_inv in H as [Hs _]. unfold _GPT_SECTOR_SIZES in Hs. set_solver.
Qed.

Lemma find_esp_inside image esp :
  _find_esp image = Ok esp →
  pt_sector_size esp ∈ _GPT_SECTOR_SIZES ∧ 2 * pt_sector_size esp <= pt_offset esp ∧ 0 < pt_size esp ∧
  pt_offset esp + pt_size esp <= f_size image.
Proof.
  unfold _find_esp. intros. apply bind_Ok_inv in H as (ss & Hss & H). apply bind_Ok_inv in H as (es & He & H).
  destruct (esp_partitions ss es) as [|e [|]] eqn:E; [done| |done]. res_inv. bool_inv.
  assert (Hin : esp ∈ esp_partitions ss es) by (rewrite E; by left).
  unfold esp_partitions in Hin. apply list_elem_of_bind in Hin as (y & Hx & _). case_bool_decide; [|by apply elem_of_nil in Hx].
  apply list_elem_of_singleton in Hx. assert (pt_sector_size esp = ss) as -> by (by subst).
  apply gpt_sector_size_inv in Hss. unfold _GPT_SECTOR_SIZES. split_and!; [set_solver|lia..].
Qed.

Lemma raises_find_sector_size image sizes : raises is_esp_error (find_sector_size image sizes).
Proof. induction sizes as [|s sizes IH]; simpl; raises_auto; done. Qed.

Lemma raises_find_esp image : raises is_esp_error (_find_esp image).
Proof.
  unfold _find_esp. apply raises_bind.
  { unfold _gpt_sector_size. raises_auto. apply raises_find_sector_size. }
  intros ss Hss. apply gpt_sector_size_inv in Hss. apply raises_bind; [|intros; raises_auto].
  unfold _gpt_entries. apply raises_bind; [apply raises_image_read|]. intros header (_ & _ & _ & _ & Hl)%image_read_inv.
  assert (512 <= len header) by lia.
  repeat (apply raises_bind; [first [apply raises_unpack_le; lia|apply raises_require; done|apply raises_raise_if; done|apply raises_image_read]|intros]).
  done.
Qed.

(** ** The geometry *)

(** What the checks of a boot sector and of the FAT size establish. *)
Record volume_ok (v : _FatVolume) : Prop := {
  vo_partition : 0 <= pt_offset (v_partition v) ∧ pt_offset (v_partition v) + pt_size (v_partition v) <= f_size (v_image v);
  vo_cluster_size : 0 < g_cluster_size (v_geometry v);
  vo_clusters : 0 < g_clusters (v_geometry v);
  vo_root : 0 <= g_root_size (v_geometry v) ∧ pt_offset (v_partition v) <= g_root_offset (v_geometry v) ∧
    g_root_offset (v_geometry v) + g_root_size (v_geometry v) <= g_data_offset (v_geometry v);
  vo_data : g_data_offset (v_geometry v) + g_clusters (v_geometry v) * g_cluster_size (v_geometry v) <=
    pt_offset (v_partition v) + pt_size (v_partition v);
  vo_last : v_last_cluster v = g_clusters (v_geometry v) + 1;
  vo_bits : v_bits v = 12 ∨ v_bits v = 16 ∨ v_bits v = 32;
  vo_fat : (v_last_cluster v + 1) * v_bits v <= len (v_fat v) * 8 }.

Lemma ceil_mult a b : 0 < b → 0 <= a → a <= - (- a / b) * b.
Proof. intros. pose proof (Z.div_mod (- a) b). pose proof (Z.mod_pos_bound (- a) b). nia. Qed.

Lemma geometry_inv boot p g :
  _geometry boot p = Ok g →
  0 < g_cluster_size g ∧ 0 < g_clusters g ∧ 0 <= g_root_size g ∧ pt_offset p <= g_root_offset g ∧
  g_root_offset g + g_root_size g <= g_data_offset g ∧
  g_data_offset g + g_clusters g * g_cluster_size g <= pt_offset p + pt_size p.
Proof.
  unfold _geometry. intros.
  pose proof (field_at_range 2 boot 11). pose proof (field_at_range 2 boot 14). pose proof (field_at_range 1 boot 16).
  pose proof (field_at_range 2 boot 17). pose proof (field_at_range 1 boot 13).
  revert H. set (sector := field_at 2 boot 11) in *. set (pc := field_at 1 boot 13) in *. set (rs := field_at 2 boot 14) in *.
  set (fats := field_at 1 boot 16) in *. set (re := field_at 2 boot 17) in *.
  set (fs := (if field_at 2 boot 22 =? 0 then _ else _) * sector). set (total := (if field_at 2 boot 19 =? 0 then _ else _) * sector).
  intros. res_inv. bool_inv. cbn [g_cluster_size g_clusters g_root_size g_root_offset g_data_offset].
  assert (0 < sector) by (unfold _DIRECTORY_ENTRY in *; set_solver by lia).
  assert (0 < pc) by (set_solver by lia).
  assert (Hc := ceil_mult (re * _DIRECTORY_ENTRY) sector). unfold _DIRECTORY_ENTRY in *.
  set (pad := - (- (re * 32) / sector) * sector) in *.
  assert (0 < pc * sector) by nia.
  pose proof (Z.div_pos (Z.max (total - (rs * sector + fats * fs + pad)) 0) (pc * sector)).
  pose proof (Z.mul_div_le (Z.max (total - (rs * sector + fats * fs + pad)) 0) (pc * sector)).
  assert (0 <= fats * fs) by nia. assert (0 <= rs * sector) by nia.
  set (q := Z.max _ 0 / (pc * sector)) in *.
  assert (0 < q) by lia. assert (0 < q * (pc * sector)) by nia.
  split_and!; [lia..|]. rewrite (Z.mul_comm q). lia.
Qed.

Lemma fat_volume_ok image p v :
  0 <= pt_offset p → pt_offset p + pt_size p <= f_size image → fat_volume image p = Ok v →
  volume_ok v ∧ v_image v = image ∧ v_partition v = p.
Proof.
  unfold fat_volume. intros Ho Hs H. res_inv.
  match goal with H : _geometry _ _ = Ok _ |- _ => apply geometry_inv in H as (? & ? & ? & ? & ? & ?) end.
  repeat match goal with H : image_read _ _ _ _ = Ok _ |- _ => apply image_read_inv in H as (? & ? & ? & ? & ?) end. bool_inv.
  split; [|done]. constructor; cbn; try done; try lia.
  repeat case_match; lia.
Qed.

Lemma raises_fat_volume image p : raises is_esp_error (fat_volume image p).
Proof. unfold fat_volume, _geometry. raises_auto. Qed.

(** Blocks of one size, joined. *)
Lemma lookup_mjoin_blocks {A} (n : nat) (ls : list (list A)) (i : nat) :
  n ≠ 0%nat → Forall (λ l, length l = n) ls → mjoin ls !! i = ls !! (i `div` n)%nat ≫= λ l, l !! (i `mod` n)%nat.
Proof.
  intros Hn. revert i. induction ls as [|l ls IH]; intros i Hl; [by rewrite !lookup_nil|]. inv Hl.
  change (mjoin (l :: ls)) with (l ++ mjoin ls).
  destruct (decide (i < length l)%nat) as [Hi|Hi].
  - rewrite lookup_app_l, Nat.div_small, Nat.mod_small by done. done.
  - rewrite lookup_app_r by lia. rewrite IH by done.
    set (k := (i - length l)%nat). replace i with (k + 1 * length l)%nat by lia.
    rewrite Nat.div_add, Nat.Div0.mod_add by done. by rewrite Nat.add_1_r.
Qed.

Lemma length_mjoin_blocks {A} (n : nat) (ls : list (list A)) :
  Forall (λ l, length l = n) ls → length (mjoin ls) = (length ls * n)%nat.
Proof.
  induction 1 as [|l ls Hl _ IH]; [done|]. change (mjoin (l :: ls)) with (l ++ mjoin ls). rewrite length_app, IH, Hl. simpl. lia.
Qed.

(** The order of listed files. *)
Lemma file_lt_asym a b : file_lt a b = true → file_lt b a = false.
Proof.
  unfold file_lt. intros H. case_bool_decide as E; case_bool_decide as E'; try congruence; [bool_inv; lia|].
  apply not_true_is_false. intros H'. apply E. by apply (anti_symm text_le).
Qed.

Lemma file_lt_false a b : file_lt a b = false → text_le (ef_path b) (ef_path a).
Proof.
  unfold file_lt. case_bool_decide as E; [by rewrite E|]. intros H. destruct (text_le_total (ef_path a) (ef_path b)) as [Ht|Ht]; [|done].
  unfold text_le in Ht. congruence.
Qed.

Lemma file_lt_cotrans x y z : file_lt x y = true → file_lt z y = false → file_lt z x = false.
Proof.
  intros Hxy Hzy. apply not_true_is_false. intros Hzx. revert Hxy Hzy Hzx. unfold file_lt.
  destruct (decide (ef_path z = ef_path y)) as [Ezy|Ezy]; [rewrite Ezy|]; repeat case_bool_decide; intros; try congruence; try lia.
  - assert (ef_path x = ef_path y) by (by apply (anti_symm text_le)). congruence.
  - assert (text_le (ef_path z) (ef_path y)) as Ht by (by transitivity (ef_path x)). unfold text_le in Ht. congruence.
Qed.

Lemma files_sorted files : StronglySorted (λ a b, text_le (ef_path a) (ef_path b)) (stable_sort file_lt files).
Proof.
  assert (Hs := stable_sort_sorted file_lt file_lt_cotrans file_lt_asym files). induction Hs as [|x l Hs IH Hx]; constructor; [done|].
  eapply Forall_impl; [exact Hx|]. intros y Hy. by apply file_lt_false.
Qed.

(** ** Cluster chains *)

(** The chain that the FAT links from a cluster to an end-of-chain mark. *)
Inductive chain_of (v : _FatVolume) : Z → list Z → Prop :=
  | chain_end c n :
      2 <= c <= v_last_cluster v → _next_cluster v c = Ok n → _END_OF_CHAIN (v_bits v) <= n → chain_of v c [c]
  | chain_link c n l :
      2 <= c <= v_last_cluster v → _next_cluster v c = Ok n → n < _END_OF_CHAIN (v_bits v) → chain_of v n l →
      chain_of v c (c :: l).

Section volume.
Context `{Ucd} (v : _FatVolume) (ok : volume_ok v).

Lemma next_cluster_Ok c : 2 <= c <= v_last_cluster v → ∃ n, _next_cluster v c = Ok n.
Proof.
  intros Hc. destruct ok. unfold _next_cluster.
  assert (Hdiv : c * 3 / 2 * 2 <= c * 3) by (pose proof (Z.mul_div_le (c * 3) 2); lia).
  destruct vo_bits0 as [Hb|[Hb|Hb]]; rewrite !Hb in *; cbn; rewrite unpack_le_Ok by lia; eauto.
Qed.

Lemma chain_of_det c l l' : chain_of v c l → chain_of v c l' → l = l'.
Proof.
  intros Hl. revert l'. induction Hl as [c n Hc Hn He|c n l Hc Hn He Hl IH]; intros l' Hl'; inv Hl'.
  - done.
  - assert (n = n0) by congruence. subst. lia.
  - assert (n = n0) by congruence. subst. lia.
  - assert (n = n0) as <- by congruence. f_equal. by apply IH.
Qed.

Lemma chain_of_suffix c l x : chain_of v c l → x ∈ l → ∃ l', chain_of v x l' ∧ (length l' ≤ length l)%nat.
Proof.
  induction 1 as [c n Hc Hn He|c n l Hc Hn He Hl IH]; intros Hx.
  - apply list_elem_of_singleton in Hx as ->. exists [c]. split; [by eapply chain_end|done].
  - apply elem_of_cons in Hx as [->|Hx]; [exists (c :: l); split; [by eapply chain_link|done]|].
    destruct (IH Hx) as (l' & ? & ?). exists l'. split; [done|]. simpl. lia.
Qed.

Lemma chain_of_NoDup c l : chain_of v c l → NoDup l.
Proof.
  induction 1 as [c n Hc Hn He|c n l Hc Hn He Hl IH]; [apply NoDup_singleton|]. constructor; [|done]. intros Hin.
  destruct (chain_of_suffix _ _ _ Hl Hin) as (l' & Hl' & Hlen).
  assert (c :: l = l') as <- by (by eapply chain_of_det; [eapply chain_link|]). simpl in Hlen. lia.
Qed.

Lemma chain_of_range c l : chain_of v c l → Forall (λ x, 2 <= x <= v_last_cluster v) l.
Proof. induction 1; repeat (apply Forall_cons_2 || apply Forall_nil_2 || done). Qed.

Lemma chain_of_head c l : chain_of v c l → ∃ l', l = c :: l'.
Proof. destruct 1; eauto. Qed.

(** Distinct clusters are at most as many as the volume has. *)
Lemma clusters_bound l :
  NoDup l → Forall (λ x, 2 <= x <= v_last_cluster v) l → len l <= g_clusters (v_geometry v).
Proof.
  intros Hn Hr. destruct ok. unfold len.
  assert (Hs : l ⊆+ seqZ 2 (g_clusters (v_geometry v))).
  { apply NoDup_submseteq; [done|]. intros x Hx. rewrite Forall_forall in Hr. specialize (Hr x Hx). apply elem_of_seqZ. lia. }
  apply submseteq_length in Hs. rewrite length_seqZ in Hs. lia.
Qed.

Lemma chain_loop_spec fuel chain c what :
  NoDup chain → Forall (λ x, 2 <= x <= v_last_cluster v) chain →
  g_clusters (v_geometry v) < Z.of_nat fuel + len chain →
  match chain_loop fuel v chain c what with
  | Ok l => ∃ rest, l = chain ++ rest ∧ chain_of v c rest
  | Err e => is_walk_error e ∧
      ∀ rest, chain_of v c rest → ∃ x, x ∈ chain ∧ x ∈ rest
  end.
Proof.
  revert chain c. induction fuel as [|fuel IH]; intros chain c Hn Hr Hf.
  { pose proof (clusters_bound chain Hn Hr). lia. }
  cbn [chain_loop]. unfold require, raise_if. destruct ((2 <=? c) && (c <=? v_last_cluster v)) eqn:Ec; cbn.
  2: { split; [by split; [auto|]|]. intros rest Hc. exfalso. inv Hc; lia. }
  case_bool_decide as Hin; cbn.
  { split; [by split; [auto|]|]. intros rest Hc. exists c. split; [done|]. destruct (chain_of_head _ _ Hc) as [? ->]. by left. }
  assert (2 <= c <= v_last_cluster v) as Hrc by lia. destruct (next_cluster_Ok c Hrc) as [n Hnx]. rewrite Hnx. cbn.
  destruct (_END_OF_CHAIN (v_bits v) <=? n) eqn:Ee; cbn; bool_inv.
  { exists [c]. split; [done|]. by eapply chain_end. }
  specialize (IH (chain ++ [c]) n). destruct (chain_loop fuel v (chain ++ [c]) n what) as [l|e].
  - destruct IH as (rest & -> & Hrest).
    + apply NoDup_app. split_and!; [done|set_solver|apply NoDup_singleton].
    + apply Forall_app. by repeat constructor.
    + len_simpl. lia.
    + exists (c :: rest). split; [by rewrite <- app_assoc|]. by eapply chain_link.
  - destruct IH as (He & Hno).
    + apply NoDup_app. split_and!; [done|set_solver|apply NoDup_singleton].
    + apply Forall_app. by repeat constructor.
    + len_simpl. lia.
    + split; [done|]. intros rest Hc. assert (Hd := chain_of_NoDup _ _ Hc). inv Hc; [assert (n0 = n) by congruence; lia|].
      assert (n0 = n) as -> by congruence. destruct (Hno _ ltac:(eassumption)) as (x & Hx & Hxl).
      apply elem_of_app in Hx as [Hx|Hx]; [exists x; split; [done|by right]|].
      apply list_elem_of_singleton in Hx as ->. by inv Hd.
Qed.

Lemma chain_Ok first what l : _chain v first what = Ok l ↔ chain_of v first l.
Proof.
  assert (Hs := chain_loop_spec (chain_fuel v) [] first what NoDup_nil_2 (Forall_nil_2 _)).
  unfold _chain. destruct ok. destruct (chain_loop _ _ _ _ _) as [l'|e].
  - destruct Hs as (rest & -> & Hrest); [unfold chain_fuel; len_simpl; lia|]. split; [by intros [= <-]|].
    intros Hl. f_equal. by eapply chain_of_det.
  - destruct Hs as (_ & Hno); [unfold chain_fuel; len_simpl; lia|]. split; [done|].
    intros Hl. destruct (Hno _ Hl) as (x & Hx & _). by apply elem_of_nil in Hx.
Qed.

Lemma raises_chain_walk first what : raises is_walk_error (_chain v first what).
Proof.
  assert (Hs := chain_loop_spec (chain_fuel v) [] first what NoDup_nil_2 (Forall_nil_2 _)).
  unfold _chain. destruct ok. destruct (chain_loop _ _ _ _ _) as [l'|e]; [done|].
  apply Hs. unfold chain_fuel. len_simpl. lia.
Qed.

Lemma raises_chain first what : raises is_esp_error (_chain v first what).
Proof. pose proof (raises_chain_walk first what) as Hr. destruct (_chain v first what); [done|]. apply Hr. Qed.

(** The image bytes of a cluster. *)
Definition cluster_bytes (c : Z) : bytes :=
  fread (v_image v) (g_data_offset (v_geometry v) + (c - 2) * g_cluster_size (v_geometry v)) (g_cluster_size (v_geometry v)).

(** The position of a cluster lies in the partition. *)
Lemma cluster_inside c :
  2 <= c <= v_last_cluster v →
  pt_offset (v_partition v) <= g_data_offset (v_geometry v) + (c - 2) * g_cluster_size (v_geometry v) ∧
  g_data_offset (v_geometry v) + (c - 2) * g_cluster_size (v_geometry v) + g_cluster_size (v_geometry v) <=
    pt_offset (v_partition v) + pt_size (v_partition v).
Proof. intros Hc. destruct ok. nia. Qed.

Lemma length_cluster_bytes c :
  2 <= c <= v_last_cluster v → length (cluster_bytes c) = Z.to_nat (g_cluster_size (v_geometry v)).
Proof.
  intros Hc. pose proof (cluster_inside c Hc). destruct ok. unfold cluster_bytes.
  assert (Hl := len_fread (v_image v) (g_data_offset (v_geometry v) + (c - 2) * g_cluster_size (v_geometry v))
    (g_cluster_size (v_geometry v))). unfold len in Hl. lia.
Qed.

Lemma read_chain_Ok chain what :
  Forall (λ x, 2 <= x <= v_last_cluster v) chain → _read_chain v chain what = Ok (mjoin (cluster_bytes <$> chain)).
Proof.
  intros Hr. unfold _read_chain.
  assert (mapM (λ c, image_read (v_image v) (g_data_offset (v_geometry v) + (c - 2) * g_cluster_size (v_geometry v))
    (g_cluster_size (v_geometry v)) what) chain = Ok (cluster_bytes <$> chain)) as ->; [|done].
  induction Hr as [|c chain Hc Hr IH]; [done|]. simpl. pose proof (cluster_inside c Hc). destruct ok.
  rewrite image_read_Ok by lia. cbn. by rewrite IH.
Qed.

Lemma chain_bytes_blocks c l :
  chain_of v c l → Forall (λ b, length b = Z.to_nat (g_cluster_size (v_geometry v))) (cluster_bytes <$> l).
Proof.
  intros Hl. apply chain_of_range in Hl. apply Forall_fmap. eapply Forall_impl; [exact Hl|]. intros x Hx.
  by apply length_cluster_bytes.
Qed.

(** A file that is read has the size of its entry, and each byte is that of its cluster in the image. *)
Lemma read_file_bytes entry what d :
  0 <= en_size entry → read_file v entry what = Ok d →
  len d = en_size entry ∧
  ∃ chain, (0 < en_size entry → chain_of v (en_cluster entry) chain) ∧
    ∀ i, 0 <= i < en_size entry → ∃ c,
      chain !! Z.to_nat (i / g_cluster_size (v_geometry v)) = Some c ∧ 2 <= c <= v_last_cluster v ∧
      d !! Z.to_nat i = Some (f_byte (v_image v)
        (g_data_offset (v_geometry v) + (c - 2) * g_cluster_size (v_geometry v) + i mod g_cluster_size (v_geometry v))).
Proof.
  intros Hs. assert (ok' := ok). destruct ok. unfold read_file. set (cs := g_cluster_size (v_geometry v)) in *.
  destruct (en_size entry =? 0) eqn:E; bool_inv.
  { intros [= <-]. split; [by rewrite len_nil|]. exists []. split; lia. }
  intros Hd. apply bind_Ok_inv in Hd as (chain & Hch%chain_Ok & Hd). apply bind_Ok_inv in Hd as (u & Hu%raise_if_Ok & Hd).
  bool_inv. assert (Hr := chain_of_range _ _ Hch). rewrite read_chain_Ok in Hd by done. injection Hd as <-.
  assert (Hb := chain_bytes_blocks _ _ Hch). fold cs in Hb.
  assert (Hlen := length_mjoin_blocks _ _ Hb). rewrite length_fmap in Hlen.
  assert (Hcl : en_size entry <= len chain * cs).
  { rewrite Hu. apply ceil_mult; lia. }
  assert (Hlj : en_size entry <= len (mjoin (cluster_bytes <$> chain))) by (unfold len in *; nia).
  split; [rewrite len_slice by lia; lia|]. exists chain. split; [done|]. intros i Hi.
  assert (Hq : (Z.to_nat (i / cs) < length chain)%nat).
  { unfold len in *. assert (i / cs < Z.of_nat (length chain)) by (apply Z.div_lt_upper_bound; lia).
    pose proof (Z.div_pos i cs). lia. }
  destruct (lookup_lt_is_Some_2 chain _ Hq) as [c Hc]. exists c.
  assert (Hrc : 2 <= c <= v_last_cluster v) by (rewrite Forall_forall in Hr; apply Hr; by eapply list_elem_of_lookup_2).
  split_and!; [done|lia..|]. rewrite slice_lookup by lia. change (Z.to_nat 0 + Z.to_nat i)%nat with (Z.to_nat i).
  rewrite (lookup_mjoin_blocks (Z.to_nat cs)) by (done || lia).
  rewrite <- Z2Nat.inj_div, <- Z2Nat.inj_mod by lia. rewrite list_lookup_fmap, Hc. cbn.
  pose proof (Z.mod_pos_bound i cs). pose proof (cluster_inside c Hrc) as Hci. fold cs in Hci. unfold cluster_bytes. fold cs.
  rewrite lookup_fread by lia. f_equal. f_equal. lia.
Qed.

Lemma raises_read_file entry what : raises is_esp_error (read_file v entry what).
Proof.
  unfold read_file. apply raises_if; intros; [done|]. apply raises_bind; [by apply raises_chain|].
  intros chain Hc. apply chain_Ok in Hc. apply raises_bind; [raises_auto|]. intros.
  rewrite read_chain_Ok by (by eapply chain_of_range). done.
Qed.

(** ** Directories *)

(** The clusters of a directory, and the bytes it reads. The root of FAT12 and FAT16 has no clusters. *)
Definition fixed_root (cluster : option Z) : bool := bool_decide (cluster = None) && negb (g_fat32 (v_geometry v)).
Definition dir_chain (cluster : option Z) (chain : list Z) : Prop :=
  if fixed_root cluster then chain = [] else chain_of v (default (g_root_cluster (v_geometry v)) cluster) chain.
Definition dir_size (cluster : option Z) (chain : list Z) : Z :=
  if fixed_root cluster then g_root_size (v_geometry v) else len chain * g_cluster_size (v_geometry v).

Lemma dir_chain_range cluster chain :
  dir_chain cluster chain → NoDup chain ∧ Forall (λ x, 2 <= x <= v_last_cluster v) chain ∧ (cluster ≠ None → chain ≠ []).
Proof.
  unfold dir_chain, fixed_root. destruct (bool_decide (cluster = None) && _) eqn:E.
  - intros ->. bool_inv. split_and!; [constructor|constructor|done].
  - intros Hc. split_and!; [by eapply chain_of_NoDup|by eapply chain_of_range|].
    destruct (chain_of_head _ _ Hc) as [? ->]. done.
Qed.

(** A directory read with limits claims its clusters and is read the same without them. *)
Lemma directory_inv cluster what limits es limits' :
  directory v cluster what limits = Ok (es, limits') →
  ∃ chain, dir_chain cluster chain ∧ claim_if limits chain (dir_size cluster chain) what = Ok limits' ∧
    ∀ what', directory v cluster what' None = Ok (es, None).
Proof.
  unfold directory, dir_chain, dir_size, fixed_root. destruct (bool_decide (cluster = None) && _) eqn:E.
  - intros Hd. apply bind_Ok_inv in Hd as (l & Hl & Hd). apply bind_Ok_inv in Hd as (data & Hr & Hd). injection Hd as <- <-.
    exists []. split_and!; [done|done|]. intros what'. apply image_read_inv in Hr as (? & ? & ? & -> & _).
    cbn. by rewrite image_read_Ok by lia.
  - intros Hd. apply bind_Ok_inv in Hd as (chain & Hc%chain_Ok & Hd). apply bind_Ok_inv in Hd as (u & Hu & Hd).
    apply bind_Ok_inv in Hd as (l & Hl & Hd). apply bind_Ok_inv in Hd as (data & Hr & Hd). injection Hd as <- <-.
    exists chain. split_and!; [done|done|]. intros what'. rewrite (proj2 (chain_Ok _ what' chain) Hc). cbn.
    apply raise_if_Ok in Hu. rewrite Hu. cbn. rewrite read_chain_Ok in Hr |- * by (by eapply chain_of_range).
    injection Hr as <-. done.
Qed.

Lemma directory_None_raises cluster what : raises is_esp_error (directory v cluster what None).
Proof.
  unfold directory. apply raises_if; intros; [unfold claim_if; raises_auto|]. apply raises_bind; [by apply raises_chain|].
  intros chain Hc%chain_Ok. apply raises_bind; [raises_auto|]. intros. apply raises_bind; [done|]. intros.
  rewrite read_chain_Ok by (by eapply chain_of_range). done.
Qed.

(** What a walk keeps: distinct clusters, and a budget for those that are left. *)
Record limits_ok (slack : Z) (l : _WalkLimits) : Prop := {
  lo_distinct : NoDup (wl_claimed l);
  lo_range : Forall (λ x, 2 <= x <= v_last_cluster v) (wl_claimed l);
  lo_budget : slack + (g_clusters (v_geometry v) - len (wl_claimed l)) * g_cluster_size (v_geometry v) <= wl_remaining l }.

Lemma claim_spec slack l chain size what :
  limits_ok (slack + size - len chain * g_cluster_size (v_geometry v)) l → 0 <= slack →
  NoDup chain → Forall (λ x, 2 <= x <= v_last_cluster v) chain →
  match claim l chain size what with
  | Ok l' => wl_claimed l' = wl_claimed l ++ chain ∧ limits_ok slack l'
  | Err e => is_walk_error e
  end.
Proof.
  intros [Hd Hr Hb] Hs Hn Hc. unfold claim, require, raise_if. case_bool_decide as Hsh; cbn; [|by split; [auto|]].
  assert (Hdis : ∀ x, x ∈ wl_claimed l → x ∉ chain).
  { intros x Hx Hxc. assert (x ∈ List.filter (λ c, bool_decide (c ∈ wl_claimed l)) chain) as Hf.
    { apply list_elem_of_In, List.filter_In. split; [by apply list_elem_of_In|by apply bool_decide_eq_true]. }
    rewrite Hsh in Hf. by apply elem_of_nil in Hf. }
  assert (Hn' : NoDup (wl_claimed l ++ chain)) by (apply NoDup_app; auto).
  assert (Hr' : Forall (λ x, 2 <= x <= v_last_cluster v) (wl_claimed l ++ chain)) by (apply Forall_app; auto).
  pose proof (clusters_bound _ Hn' Hr') as Hcb. destruct ok. len_simpl.
  assert (0 <= (g_clusters (v_geometry v) - (len (wl_claimed l) + len chain)) * g_cluster_size (v_geometry v)) by nia.
  destruct (wl_remaining l - size <? 0) eqn:E; cbn; bool_inv; [nia|]. split; [done|]. constructor; cbn; [done|done|].
  len_simpl. nia.
Qed.

Definition root_bytes (cluster : option Z) : Z := if fixed_root cluster then g_root_size (v_geometry v) else 0.

Lemma raises_image_read_walk image off n what : raises is_walk_error (image_read image off n what).
Proof. unfold image_read. raises_auto; by split; [auto|]. Qed.

Lemma directory_limits cluster what slack l :
  limits_ok (slack + root_bytes cluster) l → 0 <= slack →
  match directory v cluster what (Some l) with
  | Ok (es, l') => ∃ chain l'', l' = Some l'' ∧ wl_claimed l'' = wl_claimed l ++ chain ∧ (cluster ≠ None → chain ≠ []) ∧
      limits_ok slack l''
  | Err e => is_walk_error e
  end.
Proof.
  intros Hl Hs. unfold directory, root_bytes, fixed_root in *. destruct (bool_decide (cluster = None) && _) eqn:E.
  - assert (Hc := claim_spec slack l [] (g_root_size (v_geometry v)) what). cbn [claim_if].
    destruct (claim l [] _ what) as [l'|e]; cbn.
    + destruct Hc as [Hcl Hl']; [len_simpl; by rewrite Z.mul_0_l, Z.sub_0_r|done|constructor|constructor|].
      pose proof (raises_image_read_walk (v_image v) (g_root_offset (v_geometry v)) (g_root_size (v_geometry v)) what) as Hr.
      destruct (image_read _ _ _ _); cbn in *; [|done]. bool_inv. exists [], l'. by split_and!.
    + apply Hc; [len_simpl; by rewrite Z.mul_0_l, Z.sub_0_r|done|constructor|constructor].
  - pose proof (raises_chain_walk (default (g_root_cluster (v_geometry v)) cluster) what) as Hch.
    destruct (_chain _ _ _) as [chain|e] eqn:Ech; cbn in *; [|done]. apply chain_Ok in Ech.
    assert (Hn := chain_of_NoDup _ _ Ech). assert (Hr := chain_of_range _ _ Ech).
    unfold raise_if. destruct (_MAX_DIRECTORY_BYTES <? _); cbn; [by split; [auto|]|].
    assert (Hc := claim_spec slack l chain (len chain * g_cluster_size (v_geometry v)) what).
    rewrite Z.add_simpl_r in Hc. rewrite Z.add_0_r in Hl. specialize (Hc Hl Hs Hn Hr).
    destruct (claim l chain _ what) as [l'|e]; cbn; [|done].
    rewrite read_chain_Ok by done. cbn. exists chain, l'. split_and!; [done|apply Hc| |apply Hc].
    intros _. destruct (chain_of_head _ _ Ech) as [? ->]. done.
Qed.

(** What one directory adds in a walk. *)
Definition entry_file (prefix : text) (e : _Entry) : EspFile := {| ef_path := prefix ++ en_name e; ef_size := en_size e |}.
Definition entry_sub (prefix : text) (e : _Entry) : text * option Z := (prefix ++ en_name e ++ lit "/", Some (en_cluster e)).

Lemma walk_entries prefix es files pending :
  foldl (walk_entry prefix) (files, pending) es =
  (files ++ (entry_file prefix <$> List.filter (λ e, negb (is_directory e)) es),
   reverse (entry_sub prefix <$> List.filter is_directory es) ++ pending).
Proof.
  revert files pending. induction es as [|e es IH]; intros files pending; [simpl; by rewrite app_nil_r|].
  cbn [foldl List.filter]. unfold walk_entry at 2. destruct (is_directory e) eqn:E; cbn [negb fst snd]; rewrite IH.
  - f_equal. rewrite fmap_cons, reverse_cons, <- app_assoc. done.
  - f_equal. rewrite fmap_cons, <- app_assoc. done.
Qed.

Lemma walk_loop_total fuel files pending l :
  limits_ok 0 l → Forall (λ p, p.2 ≠ None) pending → g_clusters (v_geometry v) - len (wl_claimed l) < Z.of_nat fuel →
  raises is_walk_error (walk_loop fuel v files pending l).
Proof.
  revert files pending l. induction fuel as [|fuel IH]; intros files pending l Hl Hp Hf.
  { destruct Hl. pose proof (clusters_bound _ lo_distinct0 lo_range0). lia. }
  destruct pending as [|[prefix cluster] pending]; [done|]. inv Hp. cbn [walk_loop].
  assert (Hd := directory_limits cluster (if bool_decide (rstrip_by (Z.eqb 47) prefix = []) then lit "the root directory"
    else rstrip_by (Z.eqb 47) prefix) 0 l).
  assert (root_bytes cluster = 0) as Hrb.
  { unfold root_bytes, fixed_root. by rewrite bool_decide_false by done. }
  rewrite Hrb in Hd. specialize (Hd Hl ltac:(lia)).
  destruct (directory _ _ _ _) as [[es l']|e]; cbn; [|done]. destruct Hd as (chain & l'' & -> & Hc & Hne & Hl'').
  rewrite walk_entries. apply IH; [done| |].
  - apply Forall_app. split; [|done]. apply Forall_reverse, Forall_fmap, Forall_forall. done.
  - cbn. rewrite Hc. len_simpl. specialize (Hne ltac:(done)). destruct chain; [done|]. len_simpl.
    pose proof (len_nonneg chain). lia.
Qed.

Lemma limits_ok_init : limits_ok (root_bytes None) {| wl_claimed := []; wl_remaining := pt_size (v_partition v) |}.
Proof.
  destruct ok. constructor; cbn; [constructor|constructor|]. len_simpl. rewrite Z.sub_0_r. unfold root_bytes.
  destruct (fixed_root None); lia.
Qed.

Lemma raises_walk : raises is_walk_error (walk v).
Proof.
  unfold walk, walk_fuel. apply raises_bind; [|done]. remember (S (Z.to_nat _)) as fuel eqn:Hfuel. cbn [walk_loop].
  match goal with |- context [directory v None ?w _] =>
    assert (Hd := directory_limits None w 0 _ limits_ok_init ltac:(lia)) end.
  destruct (directory _ _ _ _) as [[es l']|e]; [|done]. destruct Hd as (chain & l'' & -> & Hc & _ & Hl'').
  cbn. rewrite walk_entries. apply walk_loop_total; [done| |].
  - apply Forall_app. split; [|constructor]. apply Forall_reverse, Forall_fmap, Forall_forall. done.
  - destruct ok. pose proof (len_nonneg (wl_claimed l'')). cbn. lia.
Qed.

(** ** What a walk lists *)

(** The entries of a directory. *)
Definition dir_entries (cluster : option Z) (es : list _Entry) : Prop :=
  ∃ what, directory v cluster what None = Ok (es, None).

(** The directories of the tree, with their paths. *)
Inductive reachable : text → option Z → Prop :=
  | reach_root : reachable [] None
  | reach_sub prefix cluster es e :
      reachable prefix cluster → dir_entries cluster es → e ∈ es → is_directory e = true →
      reachable (prefix ++ en_name e ++ lit "/") (Some (en_cluster e)).

(** A regular file of the tree. *)
Definition in_tree (f : EspFile) : Prop :=
  ∃ prefix cluster es e, reachable prefix cluster ∧ dir_entries cluster es ∧ e ∈ es ∧ is_directory e = false ∧
    f = entry_file prefix e.

Lemma dir_entries_det cluster es es' : dir_entries cluster es → dir_entries cluster es' → es = es'.
Proof.
  intros [w Hw] [w' Hw']. destruct (directory_inv _ _ _ _ _ Hw) as (? & _ & _ & Hall). rewrite (Hall w') in Hw'. by injection Hw'.
Qed.

(** The loop invariant: pending and listed things belong to the tree, and every directory that is done is closed. *)
Record walk_inv (files : list EspFile) (pending finished : list (text * option Z)) : Prop := {
  wi_sound : ∀ f, f ∈ files → in_tree f;
  wi_pending : ∀ p, p ∈ pending → reachable p.1 p.2;
  wi_root : ([], None) ∈ pending ++ finished;
  wi_closed : ∀ prefix cluster, (prefix, cluster) ∈ finished → ∃ es, dir_entries cluster es ∧
    ∀ e, e ∈ es → if is_directory e then entry_sub prefix e ∈ pending ++ finished else entry_file prefix e ∈ files }.

Lemma elem_filter {A} (f : A → bool) l x : x ∈ List.filter f l ↔ x ∈ l ∧ f x = true.
Proof. by rewrite !list_elem_of_In, List.filter_In. Qed.

Lemma walk_inv_step files pending finished prefix cluster es :
  walk_inv files ((prefix, cluster) :: pending) finished → dir_entries cluster es →
  walk_inv (files ++ (entry_file prefix <$> List.filter (λ e, negb (is_directory e)) es))
    (reverse (entry_sub prefix <$> List.filter is_directory es) ++ pending) ((prefix, cluster) :: finished).
Proof.
  intros [Hs Hp Hr Hc] Hes. assert (Hreach := Hp _ ltac:(by left)). cbn in Hreach. constructor.
  - intros f [Hf|(e & -> & [He Hd]%elem_filter)%list_elem_of_fmap]%elem_of_app; [auto|]. bool_inv. by exists prefix, cluster, es, e.
  - intros p [Hin|Hin]%elem_of_app; [|apply Hp; by right].
    rewrite elem_of_reverse in Hin. apply list_elem_of_fmap in Hin as (e & -> & [He Hd]%elem_filter). by eapply reach_sub.
  - set_solver.
  - intros prefix' cluster' [[= -> ->]|Hf]%elem_of_cons.
    + exists es. split; [done|]. intros e He. destruct (is_directory e) eqn:E.
      * apply elem_of_app. left. apply elem_of_app. left. apply elem_of_reverse, list_elem_of_fmap_2, elem_filter. done.
      * apply elem_of_app. right. apply list_elem_of_fmap_2, elem_filter. by rewrite E.
    + destruct (Hc _ _ Hf) as (es' & Hes' & Hall). exists es'. split; [done|]. intros e He. specialize (Hall e He).
      destruct (is_directory e); set_solver.
Qed.

Lemma walk_loop_inv fuel files pending finished l files' :
  walk_inv files pending finished → walk_loop fuel v files pending l = Ok files' →
  ∃ finished', walk_inv files' [] finished'.
Proof.
  revert files pending finished l. induction fuel as [|fuel IH]; intros files pending finished l Hinv Hw.
  { destruct pending as [|[? ?] ?]; [injection Hw as <-; eauto|done]. }
  destruct pending as [|[prefix cluster] pending]; [injection Hw as <-; eauto|]. cbn [walk_loop] in Hw.
  apply bind_Ok_inv in Hw as ([es l'] & Hd & Hw). rewrite walk_entries in Hw.
  destruct (directory_inv _ _ _ _ _ Hd) as (chain & _ & _ & Hall).
  eapply IH; [|exact Hw]. apply walk_inv_step; [done|]. by exists [].
Qed.

Lemma walk_exact files :
  walk v = Ok files → StronglySorted (λ a b, text_le (ef_path a) (ef_path b)) files ∧ ∀ f, f ∈ files ↔ in_tree f.
Proof.
  unfold walk. intros Hw. apply bind_Ok_inv in Hw as (l & Hl & [= <-]).
  split; [apply files_sorted|]. assert (Hp := stable_sort_perm file_lt l).
  assert (Hinit : walk_inv [] [([], None)] []).
  { constructor; [set_solver| |set_solver|set_solver]. intros p ->%list_elem_of_singleton. constructor. }
  destruct (walk_loop_inv _ _ _ _ _ _ Hinit Hl) as (finished & [Hs _ Hr Hc]). intros f. rewrite Hp. split; [apply Hs|].
  assert (Hall : ∀ prefix cluster, reachable prefix cluster → (prefix, cluster) ∈ finished).
  { induction 1 as [|prefix cluster es e Hre IH Hes He Hd]; [done|]. destruct (Hc _ _ IH) as (es' & Hes' & Hin).
    rewrite (dir_entries_det _ _ _ Hes' Hes) in Hin. specialize (Hin e He). by rewrite Hd in Hin. }
  intros (prefix & cluster & es & e & Hre & Hes & He & Hd & ->). destruct (Hc _ _ (Hall _ _ Hre)) as (es' & Hes' & Hin).
  rewrite (dir_entries_det _ _ _ Hes' Hes) in Hin. specialize (Hin e He). by rewrite Hd in Hin.
Qed.

(** ** Lookups *)

Lemma entries_loop_size fat32 slots raws e : e ∈ entries_loop fat32 slots raws → 0 <= en_size e.
Proof.
  revert slots. induction raws as [|raw raws IH]; intros slots; cbn [entries_loop]; [by intros ?%elem_of_nil|].
  repeat case_match; eauto; [by intros ?%elem_of_nil|]. rewrite elem_of_app. intros [He|He]; [|eauto].
  unfold short_entry in He. case_match; [by apply elem_of_nil in He|]. apply list_elem_of_singleton in He as ->. cbn.
  pose proof (field_at_range 4 raw 28). lia.
Qed.

Lemma directory_sizes cluster what limits es limits' e : directory v cluster what limits = Ok (es, limits') → e ∈ es → 0 <= en_size e.
Proof.
  unfold directory. destruct (_ && _); intros Hd He; res_inv; simplify_eq/=; by eapply entries_loop_size.
Qed.

(** An entry found by a lookup is one of a directory of the tree. *)
Definition tree_entry (e : _Entry) : Prop :=
  0 <= en_size e ∧ ∃ prefix cluster es, reachable prefix cluster ∧ dir_entries cluster es ∧ e ∈ es.

Lemma lookup_loop_spec path above entry components :
  (∀ e, entry = Some e → tree_entry e) →
  match lookup_loop v path above entry components with
  | Ok None => entry = None ∧ components = []
  | Ok (Some e) => tree_entry e
  | Err e => is_esp_error e
  end.
Proof.
  revert above entry. induction components as [|c components IH]; intros above entry Hin; cbn [lookup_loop].
  { destruct entry; cbn; auto. }
  unfold raise_if. destruct (match entry with Some e => negb (is_directory e) | None => false end) eqn:Ed; cbn; [auto|].
  match goal with |- context [directory v ?c ?w None] =>
    pose proof (directory_None_raises c w) as Hr; destruct (directory v c w None) as [[found l]|e] eqn:Edir end; cbn; [|done].
  destruct (List.filter _ found) as [|e es] eqn:Ef; [auto|].
  assert (He : e ∈ found).
  { assert (e ∈ e :: es) as He by (by left). rewrite <- Ef in He. by apply elem_filter in He as [? _]. }
  assert (Hes : dir_entries (en_cluster <$> entry) found).
  { destruct (directory_inv _ _ _ _ _ Edir) as (? & _ & _ & Hall). by exists []. }
  assert (Ht : tree_entry e).
  { split; [by eapply directory_sizes|]. destruct entry as [p|]; [|exists [], None, found; by split_and!; [constructor|..]].
    bool_inv. destruct (Hin p eq_refl) as (_ & prefix & cluster & es' & Hre & Hes' & Hp).
    exists (prefix ++ en_name p ++ lit "/"), (Some (en_cluster p)), found. split_and!; [by eapply reach_sub|done|done]. }
  specialize (IH (above ++ [c]) (Some e)). destruct (lookup_loop v path (above ++ [c]) (Some e) components) as [[e'|]|x].
  - apply IH. by intros ? [= <-].
  - destruct IH; [by intros ? [= <-]|done].
  - apply IH. by intros ? [= <-].
Qed.

Lemma lookup_spec path : match lookup v path with Ok e => tree_entry e | Err e => is_esp_error e end.
Proof.
  unfold lookup, raise_if. case_bool_decide as Hc; cbn; [auto|].
  match goal with |- context [lookup_loop v path [] None ?cs] =>
    pose proof (lookup_loop_spec path [] None cs ltac:(done)) as Hs; destruct (lookup_loop v path [] None cs) as [[e|]|e] end;
    cbn; [done| |done]. by destruct Hs.
Qed.
End volume.

(** The volume that the entry points open. *)
Lemma esp_volume image esp v :
  _find_esp image = Ok esp → fat_volume image esp = Ok v → volume_ok v ∧ v_image v = image ∧ v_partition v = esp.
Proof.
  intros (Hss & ? & ? & ?)%find_esp_inside. apply fat_volume_ok; [|lia]. unfold _GPT_SECTOR_SIZES in Hss. set_solver by lia.
Qed.

(** The ESP reader terminates on every image and reports every failure of an image, of the FAT file system or of a path as
    [InvalidImageError] or [EspFileNotFoundError]: no [struct.error], no [IndexError], no endless cluster chain or walk. *)
Theorem esp_reader_errors `{Ucd} image path loads :
  raises is_esp_error (find_esp image) ∧ raises is_esp_error (list_esp_files image) ∧
  raises is_esp_error (read_esp_file image path) ∧ raises is_esp_error (read_esp_manifest loads image).
Proof.
  assert (Hread : ∀ p, raises is_esp_error (read_esp_file image p)).
  { intros p. unfold read_esp_file. apply raises_bind; [apply raises_find_esp|]. intros esp Hesp.
    apply raises_bind; [apply raises_fat_volume|]. intros v Hv. destruct (esp_volume _ _ _ Hesp Hv) as (ok & _).
    apply raises_bind; [pose proof (lookup_spec v ok p); by destruct (lookup v p)|]. intros.
    apply raises_bind; [raises_auto|]. intros. by apply raises_read_file. }
  split_and!; [apply raises_find_esp| |done|].
  - unfold list_esp_files. apply raises_bind; [apply raises_find_esp|]. intros esp Hesp.
    apply raises_bind; [apply raises_fat_volume|]. intros v Hv. destruct (esp_volume _ _ _ Hesp Hv) as (ok & _).
    pose proof (raises_walk v ok) as Hw. destruct (walk v); [done|]. apply Hw.
  - unfold read_esp_manifest. raises_auto.
Qed.

(** C39: the budget of a walk is never exceeded: every directory cluster is claimed once and lies in the data area, so the
    guard of [_WalkLimits.claim] on the remaining bytes does not fire. *)
Theorem esp_walk_budget `{Ucd} image esp v :
  _find_esp image = Ok esp → fat_volume image esp = Ok v → walk v ≠ Err over_budget.
Proof.
  intros Hesp Hv. destruct (esp_volume _ _ _ Hesp Hv) as (ok & _). pose proof (raises_walk v ok) as Hw.
  destruct (walk v); [done|]. intros [= ->]. by destruct Hw.
Qed.

(** C16: [list_esp_files] returns exactly the regular files of the directory tree, sorted by path. *)
Theorem list_esp_files_exact `{Ucd} image files :
  list_esp_files image = Ok files →
  ∃ esp v, _find_esp image = Ok esp ∧ fat_volume image esp = Ok v ∧
    StronglySorted (λ a b, text_le (ef_path a) (ef_path b)) files ∧ ∀ f, f ∈ files ↔ in_tree v f.
Proof.
  unfold list_esp_files. intros Hl. apply bind_Ok_inv in Hl as (esp & Hesp & Hl). apply bind_Ok_inv in Hl as (v & Hv & Hl).
  exists esp, v. destruct (esp_volume _ _ _ Hesp Hv) as (ok & _). destruct (walk_exact v ok files Hl). done.
Qed.

(** C10: a file that [read_esp_file] returns is a regular file of the tree; it has the size of its directory entry, and its bytes
    are those of the clusters that the FAT links from its first cluster, all inside the ESP. *)
Theorem read_esp_file_bytes `{Ucd} image path d :
  read_esp_file image path = Ok d →
  ∃ esp v e prefix chain, _find_esp image = Ok esp ∧ fat_volume image esp = Ok v ∧ lookup v path = Ok e ∧
    in_tree v (entry_file prefix e) ∧ len d = en_size e ∧ (0 < en_size e → chain_of v (en_cluster e) chain) ∧
    ∀ i, 0 <= i < len d → ∃ c pos,
      chain !! Z.to_nat (i / g_cluster_size (v_geometry v)) = Some c ∧
      pos = g_data_offset (v_geometry v) + (c - 2) * g_cluster_size (v_geometry v) + i mod g_cluster_size (v_geometry v) ∧
      pt_offset esp <= pos < pt_offset esp + pt_size esp ∧ d !! Z.to_nat i = Some (f_byte image pos).
Proof.
  unfold read_esp_file. intros Hr. apply bind_Ok_inv in Hr as (esp & Hesp & Hr). apply bind_Ok_inv in Hr as (v & Hv & Hr).
  apply bind_Ok_inv in Hr as (e & He & Hr). apply bind_Ok_inv in Hr as (u & Hd%raise_if_Ok & Hr).
  destruct (esp_volume _ _ _ Hesp Hv) as (ok & Him & Hpa). assert (Hs := lookup_spec v ok path). rewrite He in Hs.
  destruct Hs as (Hsz & prefix & cluster & es & Hre & Hes & Hin).
  destruct (read_file_bytes v ok e path d Hsz Hr) as (Hlen & chain & Hch & Hb).
  exists esp, v, e, prefix, chain. split_and!; [done|done|done|by exists prefix, cluster, es, e|done|done|].
  intros i Hi. rewrite Hlen in Hi. destruct (Hb i Hi) as (c & Hc & Hrc & Hbyte). exists c. eexists. split_and!; [done|done| | |].
  - pose proof (cluster_inside v ok c Hrc). pose proof (Z.mod_pos_bound i (g_cluster_size (v_geometry v))). destruct ok. subst. lia.
  - pose proof (cluster_inside v ok c Hrc). pose proof (Z.mod_pos_bound i (g_cluster_size (v_geometry v))). destruct ok. subst. lia.
  - by rewrite Hbyte, Him.
Qed.

(** ** A small FAT12 image *)
Module EspDemo.
Definition sector (l : bytes) : bytes := l ++ zeros (512 - len l).
Definition mbr : bytes := zeros 450 ++ [xee] ++ zeros 59 ++ [x55; xaa].
(** One ESP entry, from LBA 3 to LBA 10. *)
Definition array : bytes := uuid_bytes_le ESP_TYPE_GUID ++ zeros 16 ++ le_encode 8 3 ++ le_encode 8 10 ++ zeros 80.
Definition header (crc : Z) : bytes :=
  blit "EFI PART" ++ zeros 4 ++ le_encode 4 92 ++ le_encode 4 crc ++ zeros 52 ++
  le_encode 8 2 ++ le_encode 4 1 ++ le_encode 4 128 ++ le_encode 4 (crc32 array).
(** One reserved sector, one FAT of one sector, 16 root entries and five clusters of one sector. *)
Definition boot : bytes :=
  zeros 11 ++ le_encode 2 512 ++ [x01] ++ le_encode 2 1 ++ [x01] ++ le_encode 2 16 ++ le_encode 2 8 ++ [xf8] ++ le_encode 2 1 ++
  zeros 486 ++ [x55; xaa].
Definition fat : bytes := [xf8; xff; xff; xff; x4f; x00; xff; x0f; x00].
Definition entry (name : string) (attributes cluster size : Z) : bytes :=
  blit name ++ [Z2b attributes] ++ zeros 14 ++ le_encode 2 cluster ++ le_encode 4 size.
Definition image : file := file_of_bytes (
  mbr ++ sector (header (crc32 (header 0))) ++ sector array ++ boot ++ sector fat ++
  sector (entry "LOADER     " 16 2 0 ++ entry "BOOT    EFI" 32 5 0) ++ sector (entry "KEY     DER" 32 3 600) ++
  replicate 512 x61 ++ replicate 512 x62 ++ zeros 1024).
Definition esp : Partition := {| pt_offset := 1536; pt_size := 4096; pt_sector_size := 512 |}.
End EspDemo.

Lemma esp_demo_list :
  @list_esp_files ascii_ucd EspDemo.image =
  Ok [{| ef_path := lit "BOOT.EFI"; ef_size := 0 |}; {| ef_path := lit "LOADER/KEY.DER"; ef_size := 600 |}].
Proof. vm_compute. reflexivity. Qed.

Lemma esp_walk_budget_witness :
  ∃ v, fat_volume EspDemo.image EspDemo.esp = Ok v ∧ @walk ascii_ucd v ≠ Err over_budget.
Proof.
  destruct (fat_volume EspDemo.image EspDemo.esp) as [v|e] eqn:Hv; [|exfalso; vm_compute in Hv; discriminate].
  exists v. split; [reflexivity|]. apply (@esp_walk_budget ascii_ucd EspDemo.image EspDemo.esp v); [vm_compute; reflexivity|exact Hv].
Defined.

Lemma list_esp_files_exact_witness :
  ∃ esp v, _find_esp EspDemo.image = Ok esp ∧ fat_volume EspDemo.image esp = Ok v ∧
    @in_tree ascii_ucd v {| ef_path := lit "LOADER/KEY.DER"; ef_size := 600 |}.
Proof.
  destruct (@list_esp_files_exact ascii_ucd EspDemo.image _ esp_demo_list) as (esp & v & He & Hv & _ & Hin).
  exists esp, v. split; [exact He|]. split; [exact Hv|]. apply Hin. right. left.
Defined.

Lemma read_esp_file_bytes_witness :
  ∃ d, @read_esp_file ascii_ucd EspDemo.image (lit "loader/Key.der") = Ok d ∧ len d = 600 ∧
    ∃ esp v e prefix, _find_esp EspDemo.image = Ok esp ∧ fat_volume EspDemo.image esp = Ok v ∧
      @in_tree ascii_ucd v (entry_file prefix e) ∧ en_size e = 600.
Proof.
  destruct (@read_esp_file ascii_ucd EspDemo.image (lit "loader/Key.der")) as [d|e] eqn:Hr; [|exfalso; vm_compute in Hr; discriminate].
  exists d. split; [reflexivity|]. assert (Hl : len d = 600).
  { assert (len <$> @read_esp_file ascii_ucd EspDemo.image (lit "loader/Key.der") = Ok 600) as Hl by by_compute.
    rewrite Hr in Hl. injection Hl as Hl. exact Hl. }
  split; [exact Hl|].
  destruct (@read_esp_file_bytes ascii_ucd EspDemo.image (lit "loader/Key.der") d Hr)
    as (esp & v & e & prefix & chain & He & Hv & _ & Ht & Hlen & _).
  exists esp, v, e, prefix. split; [exact He|]. split; [exact Hv|]. split; [exact Ht|]. rewrite <- Hlen. exact Hl.
Defined.
