(* ===== verification/EfiAuth.v ===== *)
(** * UEFI authenticated variable files: [mkosi/private/efi_auth.py]

    Builds and parses [.auth] files. [struct] formats are read field by field; packing a value that does not fit its
    field raises [struct.error]. *)
From S2P Require Import Prelude Bytes PyText Collections.

Definition EFI_CERT_TYPE_PKCS7 : bytes := uuid_lit "4aafd29d-68df-49ee-8aa9-347d375665a7".
Definition EFI_CERT_X509 : bytes := uuid_lit "a5c059a1-94e4-4aa7-87b5-ab155c2bf072".
Definition EFI_CERT_SHA256 : bytes := uuid_lit "c1c41626-504c-4092-aca9-41f936934328".
Definition EFI_GLOBAL_VARIABLE : bytes := uuid_lit "8be4df61-93ca-11d2-aa0d-00e098032b8c".
Definition EFI_IMAGE_SECURITY_DATABASE : bytes := uuid_lit "d719b2cb-3d3a-4596-a3bc-dad00e67656f".
Definition ATTRIBUTES : Z := 0x27.
Definition VARIABLES : dict text bytes :=
  [(lit "PK", EFI_GLOBAL_VARIABLE); (lit "KEK", EFI_GLOBAL_VARIABLE); (lit "db", EFI_IMAGE_SECURITY_DATABASE);
   (lit "dbx", EFI_IMAGE_SECURITY_DATABASE)].
Definition REQUIRED : list text := [lit "PK"; lit "KEK"; lit "db"].
(** The sizes of the formats [<HBBBBBBIhBB], [<IHH16s] and [<16sIII]. *)
Definition _TIME_size : Z := 16.
Definition _WIN_CERTIFICATE_size : Z := 24.
Definition _SIGNATURE_LIST_size : Z := 28.
Definition _WIN_CERT_TYPE_EFI_GUID : Z := 0x0EF1.
Definition _WIN_CERT_REVISION : Z := 0x0200.

(** [struct.pack] of one unsigned little-endian field. *)
Definition pack_le (n : nat) (z : Z) : result bytes :=
  if (0 <=? z) && (z <? 256 ^ Z.of_nat n) then Ok (le_encode n z) else Err StructError.

Definition efi_time (year month day : Z) : result bytes :=
  y ← pack_le 2 year; m ← pack_le 1 month; d ← pack_le 1 day;
  mret (y ++ m ++ d ++ zeros 12).

Definition signature_list (certificate_der owner : bytes) : result bytes :=
  let size := _SIGNATURE_LIST_size + 16 + len certificate_der in
  list_size ← pack_le 4 size;
  header_size ← pack_le 4 0;
  signature_size ← pack_le 4 (16 + len certificate_der);
  mret (uuid_bytes_le EFI_CERT_X509 ++ list_size ++ header_size ++ signature_size ++ uuid_bytes_le owner ++ certificate_der).

Definition signed_payload (name : text) (timestamp data : bytes) : result bytes :=
  guid ← of_option KeyError (dget name VARIABLES);
  mret (utf16le_encode_bmp name ++ uuid_bytes_le guid ++ le_encode 4 ATTRIBUTES ++ timestamp ++ data).

Definition auth_file (timestamp signed_data data : bytes) : result bytes :=
  length ← pack_le 4 (_WIN_CERTIFICATE_size + len signed_data);
  let header := length ++ le_encode 2 _WIN_CERT_REVISION ++ le_encode 2 _WIN_CERT_TYPE_EFI_GUID ++
                uuid_bytes_le EFI_CERT_TYPE_PKCS7 in
  mret (timestamp ++ header ++ signed_data ++ data).

(** A byte field of [unpack_from]. *)
Abbreviation u8 := (unpack_le 1).

Definition _parse_time (data : bytes) : result unit :=
  raise_if (len data <? _TIME_size + _WIN_CERTIFICATE_size)
    (ValueError "too short for an EFI_VARIABLE_AUTHENTICATION_2 header" []);;
  year ← u16 data 0; month ← u8 data 2; day ← u8 data 3; hour ← u8 data 4; minute ← u8 data 5; second ← u8 data 6;
  pad1 ← u8 data 7; nanosecond ← u32 data 8; zone ← u16 data 12; daylight ← u8 data 14; pad2 ← u8 data 15;
  require ((1 <=? month) && (month <=? 12) && (1 <=? day) && (day <=? 31) && (hour <? 24) && (minute <? 60) &&
           (second <? 60) && (1900 <=? year)) (ValueError "invalid EFI_TIME" []);;
  require ((pad1 =? 0) && (nanosecond =? 0) && (zone =? 0) && (daylight =? 0) && (pad2 =? 0))
    (ValueError "EFI_TIME of a time-based authenticated variable must have zero Pad, Nanosecond, TimeZone" []).

Definition _parse_certificate (data : bytes) : result (bytes * Z) :=
  length ← u32 data _TIME_size;
  revision ← u16 data (_TIME_size + 4);
  certificate_type ← u16 data (_TIME_size + 6);
  let cert_type := slice (_TIME_size + 8) (_TIME_size + 24) data in
  let end_ := _TIME_size + length in
  require ((revision =? _WIN_CERT_REVISION) && (certificate_type =? _WIN_CERT_TYPE_EFI_GUID))
    (ValueError "authentication header is not a WIN_CERTIFICATE_UEFI_GUID" []);;
  require (bool_decide (uuid_of_bytes_le cert_type = EFI_CERT_TYPE_PKCS7))
    (ValueError "authentication header does not carry a PKCS#7 signature" []);;
  raise_if ((length <=? _WIN_CERTIFICATE_size) || (len data <? end_))
    (ValueError "WIN_CERTIFICATE length is out of bounds" []);;
  let signed_data := slice (_TIME_size + _WIN_CERTIFICATE_size) end_ data in
  require (bool_decide (slice 0 1 signed_data = [x30])) (ValueError "PKCS#7 signature is not DER" []);;
  mret (signed_data, end_).

(** The loop of [signature_lists]. *)
Fixpoint signature_lists_loop (fuel : nat) (data : bytes) (offset : Z) (lists : list (bytes * list bytes)) :
    result (list (bytes * list bytes)) :=
  if negb (offset <? len data) then mret lists else
  match fuel with
  | O => Err OutOfFuel
  | S fuel =>
      raise_if (len data - offset <? _SIGNATURE_LIST_size) (ValueError "truncated EFI_SIGNATURE_LIST" []);;
      let signature_type := slice offset (offset + 16) data in
      list_size ← u32 data (offset + 16);
      header_size ← u32 data (offset + 20);
      signature_size ← u32 data (offset + 24);
      let body := offset + _SIGNATURE_LIST_size + header_size in
      let end_ := offset + list_size in
      raise_if ((len data <? end_) || (end_ <? body) || (signature_size <=? 16) ||
                negb ((end_ - body) mod signature_size =? 0))
        (ValueError "EFI_SIGNATURE_LIST sizes are inconsistent" []);;
      let entries := (λ start, slice (start + 16) (start + signature_size) data) <$> range_step body end_ signature_size in
      raise_if (bool_decide (entries = [])) (ValueError "EFI_SIGNATURE_LIST is empty" []);;
      signature_lists_loop fuel data end_ (lists ++ [(uuid_of_bytes_le signature_type, entries)])
  end.

Definition signature_lists (data : bytes) : result (list (bytes * list bytes)) :=
  signature_lists_loop (length data) data 0 [].

Definition parse_auth (name : text) (data : bytes) : result (bytes * list (bytes * list bytes)) :=
  require (dmem name VARIABLES)
    (ValueError "{}.auth is not a Secure Boot variable; expected one of {}"
       [AText name; ATexts (sorted_texts (dkeys VARIABLES))]);;
  _parse_time data;;
  '(signed_data, end_) ← _parse_certificate data;
  lists ← signature_lists (slice_from end_ data);
  raise_if (bool_decide (name = lit "PK") &&
            negb match lists with [(type, [_])] => bool_decide (type = EFI_CERT_X509) | _ => false end)
    (ValueError "PK.auth must hold exactly one X.509 certificate" []);;
  raise_if (bool_decide (name ∈ [lit "KEK"; lit "db"]) && negb (existsb (λ l, bool_decide (l.1 = EFI_CERT_X509)) lists))
    (ValueError "{}.auth must hold at least one X.509 certificate" [AText name]);;
  mret (signed_data, lists).

Definition x509_certificates (lists : list (bytes * list bytes)) : list bytes :=
  lists ≫= λ '(signature_type, entries), if bool_decide (signature_type = EFI_CERT_X509) then entries else [].

(** ** Errors *)

Lemma u8_range data i v : 0 <= i → u8 data i = Ok v → 0 <= v < 256.
Proof. intros Hi. apply (unpack_le_range 1); lia. Qed.

Lemma raises_parse_time data : raises is_value_error (_parse_time data).
Proof.
  unfold _parse_time, _TIME_size, _WIN_CERTIFICATE_size. apply raises_bind; [raises_auto|]. intros [] Hl%raise_if_Ok. bool_inv.
  repeat (apply raises_bind; [apply raises_unpack_le; lia|intros]). raises_auto.
Qed.

Lemma parse_time_len data : _parse_time data = Ok tt → _TIME_size + _WIN_CERTIFICATE_size <= len data.
Proof. unfold _parse_time. intros Hp. apply bind_Ok_inv in Hp as ([] & Hl%raise_if_Ok & _). bool_inv. done. Qed.

Lemma raises_parse_certificate data :
  _TIME_size + _WIN_CERTIFICATE_size <= len data → raises is_value_error (_parse_certificate data).
Proof.
  unfold _parse_certificate, _TIME_size, _WIN_CERTIFICATE_size. intros Hl.
  do 3 (apply raises_bind; [apply raises_unpack_le; lia|intros]). raises_auto.
Qed.

Lemma signature_lists_loop_raises fuel data offset lists :
  0 <= offset → len data < offset + Z.of_nat fuel + 1 → raises is_value_error (signature_lists_loop fuel data offset lists).
Proof.
  revert offset lists. induction fuel as [|fuel IH]; intros offset lists Ho Hf; cbn [signature_lists_loop];
    (apply raises_if; intros Hlt; [done|]); bool_inv; [lia|].
  unfold _SIGNATURE_LIST_size. apply raises_bind; [raises_auto|]. intros [] Hl%raise_if_Ok. bool_inv.
  apply raises_bind; [apply raises_unpack_le; lia|]. intros ls Hls.
  apply raises_bind; [apply raises_unpack_le; lia|]. intros hs Hhs%unpack_le_range; [|lia..].
  apply raises_bind; [apply raises_unpack_le; lia|]. intros ss Hss.
  apply raises_bind; [raises_auto|]. intros [] Hc%raise_if_Ok. bool_inv.
  apply raises_bind; [raises_auto|]. intros _ _. apply IH; lia.
Qed.

Lemma raises_signature_lists data : raises is_value_error (signature_lists data).
Proof. apply signature_lists_loop_raises; unfold len; lia. Qed.

(** Every [.auth] file is parsed or rejected with [ValueError]: no [struct.error], and the loop over signature lists ends. *)
Theorem parse_auth_errors name data : raises is_value_error (parse_auth name data).
Proof.
  unfold parse_auth. apply raises_bind; [raises_auto|]. intros _ _. apply raises_bind; [apply raises_parse_time|].
  intros [] Ht%parse_time_len. apply raises_bind; [by apply raises_parse_certificate|]. intros [sd e] _.
  apply raises_bind; [apply raises_signature_lists|]. intros. raises_auto.
Qed.

(** ** Round trips *)

Lemma unpack_le_skip n a l off : len a <= off → unpack_le n (a ++ l) off = unpack_le n l (off - len a).
Proof.
  intros Ho. unfold unpack_le. len_simpl. rewrite slice_app_r by done. replace (off + n - len a) with (off - len a + n) by lia.
  by replace (off + n <=? len a + len l) with (off - len a + n <=? len l) by lia.
Qed.

Lemma unpack_le_head (n : nat) v l : 0 <= v < 256 ^ Z.of_nat n → unpack_le (Z.of_nat n) (le_encode n v ++ l) 0 = Ok v.
Proof. intros Hv. exact (unpack_le_app [] l n v Hv). Qed.

Lemma pack_le_Ok n z b : pack_le n z = Ok b → b = le_encode n z ∧ 0 <= z < 256 ^ Z.of_nat n.
Proof. unfold pack_le. destruct (_ && _) eqn:E; [|done]. intros [= <-]. split; [done|lia]. Qed.

Lemma range_step_one a n : 0 < n → range_step a (a + n) n = [a].
Proof.
  intros Hn. unfold range_step. replace ((a + n - a + n - 1) / n) with 1; [by rewrite seqZ_cons by lia; cbn; f_equal; lia|].
  symmetry. replace (a + n - a + n - 1) with (1 * n + (n - 1)) by lia. rewrite Z.div_add_l by lia. rewrite Z.div_small by lia. lia.
Qed.

(** The parts of an encoded list. *)
Lemma signature_list_Ok c o l :
  signature_list c o = Ok l →
  l = uuid_bytes_le EFI_CERT_X509 ++ le_encode 4 (44 + len c) ++ le_encode 4 0 ++ le_encode 4 (16 + len c) ++
      uuid_bytes_le o ++ c ∧ 44 + len c < 256 ^ 4.
Proof.
  unfold signature_list, _SIGNATURE_LIST_size. intros H.
  apply bind_Ok_inv in H as (a & [-> Ha]%pack_le_Ok & H). apply bind_Ok_inv in H as (b & [-> Hb]%pack_le_Ok & H).
  apply bind_Ok_inv in H as (d & [-> Hd]%pack_le_Ok & H). injection H as <-.
  replace (28 + 16 + len c) with (44 + len c) in * by lia. split; [done|lia].
Qed.

Lemma len_uuid_x509 : len (uuid_bytes_le EFI_CERT_X509) = 16.
Proof. by vm_compute. Qed.

(** The three sizes after a 16-byte type. *)
Lemma list_fields x a b c rest :
  len x = 16 → 0 <= a < 256 ^ 4 → 0 <= b < 256 ^ 4 → 0 <= c < 256 ^ 4 →
  let l := x ++ le_encode 4 a ++ le_encode 4 b ++ le_encode 4 c ++ rest in
  u32 l 16 = Ok a ∧ u32 l 20 = Ok b ∧ u32 l 24 = Ok c.
Proof.
  intros Hx Ha Hb Hc l. unfold l. rewrite !(unpack_le_skip 4 x) by lia. rewrite Hx. change (16 - 16) with 0.
  change (20 - 16) with 4. change (24 - 16) with 8.
  rewrite !(unpack_le_skip 4 (le_encode 4 a) _ 4), !(unpack_le_skip 4 (le_encode 4 a) _ 8) by (rewrite len_le_encode; lia).
  rewrite !len_le_encode. change (4 - Z.of_nat 4) with 0. change (8 - Z.of_nat 4) with 4.
  rewrite (unpack_le_skip 4 (le_encode 4 b) _ 4) by (rewrite len_le_encode; lia). rewrite !len_le_encode. change (4 - Z.of_nat 4) with 0.
  split_and!; by apply (unpack_le_head 4).
Qed.

(** One encoded list in the loop. *)
Lemma signature_list_step fuel pre c o l rest acc :
  signature_list c o = Ok l → len (uuid_bytes_le o) = 16 → c ≠ [] →
  signature_lists_loop (S fuel) (pre ++ l ++ rest) (len pre) acc =
  signature_lists_loop fuel ((pre ++ l) ++ rest) (len (pre ++ l)) (acc ++ [(EFI_CERT_X509, [c])]).
Proof.
  intros [-> Hsz]%signature_list_Ok Ho Hc. pose proof (len_nonneg rest). pose proof (len_nonneg pre).
  assert (0 < len c) by (destruct c; [done|]; len_simpl; pose proof (len_nonneg c); lia).
  set (x := uuid_bytes_le EFI_CERT_X509). set (ow := uuid_bytes_le o) in *.
  assert (Hx : len x = 16) by apply len_uuid_x509.
  set (body := x ++ le_encode 4 (44 + len c) ++ le_encode 4 0 ++ le_encode 4 (16 + len c) ++ ow ++ c).
  assert (Hb : len body = 44 + len c) by (unfold body; len_simpl; lia).
  assert (Hl : len (pre ++ body ++ rest) = len pre + (44 + len c) + len rest) by (len_simpl; lia).
  cbn [signature_lists_loop]. rewrite Hl. replace (negb _) with false by lia.
  unfold _SIGNATURE_LIST_size. unfold raise_if at 1. replace (_ <? 28) with false by lia. cbn [mbind result_bind].
  rewrite (unpack_le_skip 4 pre _ (len pre + 16)), (unpack_le_skip 4 pre _ (len pre + 20)), (unpack_le_skip 4 pre _ (len pre + 24)) by lia.
  replace (len pre + 16 - len pre) with 16 by lia. replace (len pre + 20 - len pre) with 20 by lia.
  replace (len pre + 24 - len pre) with 24 by lia.
  destruct (list_fields x (44 + len c) 0 (16 + len c) (ow ++ c ++ rest)) as (E1 & E2 & E3); [lia..|].
  assert (Hbody : body ++ rest = x ++ le_encode 4 (44 + len c) ++ le_encode 4 0 ++ le_encode 4 (16 + len c) ++ ow ++ c ++ rest).
  { unfold body. by rewrite <- !app_assoc. }
  rewrite <- Hbody in E1, E2, E3. rewrite E1, E2, E3. cbn [mbind result_bind].
  replace (len pre + (44 + len c) - (len pre + 28 + 0)) with (16 + len c) by lia. rewrite Z.mod_same by lia.
  unfold raise_if at 1. replace (_ || _ || _ || _) with false by lia. cbn [mbind result_bind].
  replace (len pre + (44 + len c)) with (len pre + 28 + 0 + (16 + len c)) by lia. rewrite range_step_one by lia.
  cbn [fmap list_fmap]. unfold raise_if at 1. rewrite bool_decide_false by done. cbn [mbind result_bind].
  assert (Hslice : slice (len pre + 28 + 0 + 16) (len pre + 28 + 0 + (16 + len c)) (pre ++ body ++ rest) = c).
  { rewrite slice_app_r by lia. unfold body. rewrite <- !app_assoc.
    pose proof (λ n z, len_le_encode n z) as Hle.
    rewrite slice_app_r by lia. do 4 (rewrite slice_app_r by (rewrite ?Hle, ?Hx; lia)). rewrite !Hle, Hx, Ho.
    rewrite <- (slice_app_exact c rest) at 3. f_equal; lia. }
  rewrite Hslice.
  assert (Htype : slice (len pre) (len pre + 16) (pre ++ body ++ rest) = x).
  { rewrite slice_app_r by lia. unfold body. rewrite <- !app_assoc.
    replace (len pre - len pre) with 0 by lia. replace (len pre + 16 - len pre) with (len x) by lia. apply slice_app_exact. }
  rewrite Htype. replace (uuid_of_bytes_le x) with EFI_CERT_X509 by (by vm_compute).
  f_equal; [by rewrite <- app_assoc|]. len_simpl. lia.
Qed.

(** A file's variable data: one list for each certificate and owner. *)
Definition certificate_lists (certificates : list (bytes * bytes)) : result bytes :=
  mjoin <$> mapM (λ '(c, o), signature_list c o) certificates.

Definition is_uuid (u : bytes) : Prop := len (uuid_bytes_le u) = 16.

Lemma signature_lists_loop_encoded certificates fuel pre ls acc :
  mapM (λ '(c, o), signature_list c o) certificates = Ok ls →
  Forall (λ p, p.1 ≠ [] ∧ is_uuid p.2) certificates → (length certificates ≤ fuel)%nat →
  signature_lists_loop fuel (pre ++ mjoin ls) (len pre) acc = Ok (acc ++ ((λ p, (EFI_CERT_X509, [p.1])) <$> certificates)).
Proof.
  revert fuel pre ls acc. induction certificates as [|[c o] certificates IH]; intros fuel pre ls acc Hm Hc Hf.
  { injection Hm as <-. cbn. rewrite !app_nil_r. destruct fuel; cbn [signature_lists_loop]; by replace (negb _) with true by lia. }
  cbn in Hm. apply bind_Ok_inv in Hm as (l & Hl & Hm). apply bind_Ok_inv in Hm as (ls' & Hls & Hm). injection Hm as <-.
  apply Forall_cons in Hc as [[Hne Hu] Hc]. destruct fuel as [|fuel]; [cbn in Hf; lia|].
  change (mjoin (l :: ls')) with (l ++ mjoin ls'). rewrite (signature_list_step fuel pre c o l (mjoin ls') acc Hl Hu Hne).
  cbn in Hf. rewrite (IH fuel (pre ++ l) ls' _ Hls Hc) by lia. rewrite fmap_cons, <- app_assoc. reflexivity.
Qed.

Lemma certificates_shorter certificates ls :
  mapM (λ '(c, o), signature_list c o) certificates = Ok ls → (length certificates ≤ length (mjoin ls))%nat.
Proof.
  revert ls. induction certificates as [|[c o] certificates IH]; intros ls Hm; [cbn; lia|].
  cbn in Hm. apply bind_Ok_inv in Hm as (l & Hl & Hm). apply bind_Ok_inv in Hm as (ls' & Hls & Hm). injection Hm as <-.
  change (mjoin (l :: ls')) with (l ++ mjoin ls'). rewrite length_app. specialize (IH _ Hls).
  apply signature_list_Ok in Hl as [-> _]. rewrite !length_app, !length_le_encode. change (length ((c, o) :: certificates)) with (S (length certificates)). lia.
Qed.

Lemma signature_lists_encoded certificates data :
  certificate_lists certificates = Ok data → Forall (λ p, p.1 ≠ [] ∧ is_uuid p.2) certificates →
  signature_lists data = Ok ((λ p, (EFI_CERT_X509, [p.1])) <$> certificates).
Proof.
  unfold certificate_lists. intros Hm Hc. apply fmap_Ok_inv in Hm as (ls & Hm & ->).
  exact (signature_lists_loop_encoded certificates _ [] ls [] Hm Hc (certificates_shorter _ _ Hm)).
Qed.

Lemma efi_time_Ok year month day ts :
  efi_time year month day = Ok ts →
  ts = le_encode 2 year ++ le_encode 1 month ++ le_encode 1 day ++ zeros 12 ∧
  0 <= year < 65536 ∧ 0 <= month < 256 ∧ 0 <= day < 256 ∧ len ts = 16.
Proof.
  unfold efi_time. intros H. apply bind_Ok_inv in H as (a & [-> Ha]%pack_le_Ok & H).
  apply bind_Ok_inv in H as (b & [-> Hb]%pack_le_Ok & H). apply bind_Ok_inv in H as (d & [-> Hd]%pack_le_Ok & H). injection H as <-.
  split_and!; try lia; [done|]. len_simpl. rewrite len_zeros; lia.
Qed.

Lemma le_decode_zeros k : le_decode (replicate k x00) = 0.
Proof. induction k as [|k IH]; [done|]. cbn [replicate le_decode]. by rewrite IH. Qed.

Lemma parse_time_encoded year month day ts rest :
  efi_time year month day = Ok ts → 1900 <= year → 1 <= month <= 12 → 1 <= day <= 31 → 24 <= len rest →
  _parse_time (ts ++ rest) = Ok tt.
Proof.
  intros (-> & Hy & Hm & Hd & Hl)%efi_time_Ok Hy' Hm' Hd' Hr. unfold _parse_time, _TIME_size, _WIN_CERTIFICATE_size.
  unfold raise_if. rewrite len_app, Hl. replace (_ <? _) with false by lia. cbn [mbind result_bind].
  rewrite <- !app_assoc. rewrite (unpack_le_head 2) by lia. cbn [mbind result_bind].
  rewrite !(unpack_le_skip _ (le_encode 2 year)) by (rewrite len_le_encode; lia). rewrite !len_le_encode.
  change (2 - Z.of_nat 2) with 0. rewrite (unpack_le_head 1) by lia. cbn [mbind result_bind].
  rewrite !(unpack_le_skip _ (le_encode 1 month)) by (rewrite len_le_encode; lia). rewrite !len_le_encode.
  change (3 - Z.of_nat 2 - Z.of_nat 1) with 0. rewrite (unpack_le_head 1) by lia. cbn [mbind result_bind].
  rewrite !(unpack_le_skip _ (le_encode 1 day)) by (rewrite len_le_encode; lia). rewrite !len_le_encode.
  set (tail := zeros 12 ++ rest).
  assert (Hz : ∀ n off, 0 <= off → 0 <= n → off + n <= 12 → unpack_le n tail off = Ok 0).
  { intros n off ? ? ?. assert (Hz12 : len (zeros 12) = 12) by (by apply len_zeros).
    rewrite unpack_le_Ok by (unfold tail; rewrite len_app; lia). f_equal. unfold tail.
    rewrite slice_app_mid by lia. rewrite slice_take_drop by lia. unfold zeros.
    rewrite drop_replicate, take_replicate. apply le_decode_zeros. }
  rewrite !Hz by lia. cbn [mbind result_bind]. unfold require.
  rewrite !(proj2 (Z.leb_le _ _)) by lia. done.
Qed.

Lemma auth_file_Ok ts sd data f :
  auth_file ts sd data = Ok f →
  f = ts ++ le_encode 4 (24 + len sd) ++ le_encode 2 _WIN_CERT_REVISION ++ le_encode 2 _WIN_CERT_TYPE_EFI_GUID ++
      uuid_bytes_le EFI_CERT_TYPE_PKCS7 ++ sd ++ data ∧ 24 + len sd < 256 ^ 4.
Proof.
  unfold auth_file, _WIN_CERTIFICATE_size. intros H. apply bind_Ok_inv in H as (a & [-> Ha]%pack_le_Ok & H). injection H as <-.
  split; [by rewrite <- ?app_assoc|lia].
Qed.

Lemma parse_certificate_encoded ts sd data f :
  len ts = 16 → auth_file ts sd data = Ok f → head sd = Some x30 → _parse_certificate f = Ok (sd, 40 + len sd).
Proof.
  intros Ht [Hf Hl]%auth_file_Ok Hsd. destruct sd as [|b sd]; [done|]. injection Hsd as ->.
  set (s := x30 :: sd) in *. assert (0 < len s) by (unfold s; len_simpl; pose proof (len_nonneg sd); lia).
  set (g := uuid_bytes_le EFI_CERT_TYPE_PKCS7) in *. assert (Hg : len g = 16) by (by vm_compute).
  set (r := le_encode 2 _WIN_CERT_REVISION) in *. set (t := le_encode 2 _WIN_CERT_TYPE_EFI_GUID) in *.
  assert (Hr : len r = 2) by done. assert (Hty : len t = 2) by done.
  assert (Hlen : len f = 40 + len s + len data) by (subst f; len_simpl; lia). pose proof (len_nonneg data).
  unfold _parse_certificate, _TIME_size, _WIN_CERTIFICATE_size. change (16 + 4) with 20. change (16 + 6) with 22.
  assert (u32 f 16 = Ok (24 + len s)) as ->.
  { subst f. rewrite unpack_le_skip by lia. rewrite Ht. by apply (unpack_le_head 4). }
  assert (u16 f 20 = Ok _WIN_CERT_REVISION) as ->.
  { subst f. rewrite unpack_le_skip by lia. rewrite Ht, unpack_le_skip by (rewrite len_le_encode; lia). rewrite len_le_encode.
    by apply (unpack_le_head 2). }
  assert (u16 f 22 = Ok _WIN_CERT_TYPE_EFI_GUID) as ->.
  { subst f. rewrite unpack_le_skip by lia. rewrite Ht, unpack_le_skip by (rewrite len_le_encode; lia). rewrite len_le_encode.
    rewrite unpack_le_skip by lia. rewrite Hr. by apply (unpack_le_head 2). }
  cbn [mbind result_bind]. unfold require at 1. rewrite !Z.eqb_refl. cbn [andb mbind result_bind].
  assert (slice (16 + 8) (16 + 24) f = g) as ->.
  { subst f. rewrite slice_app_r by lia. rewrite slice_app_r by (rewrite len_le_encode; lia). do 2 rewrite slice_app_r by (rewrite len_le_encode; lia).
    rewrite len_le_encode, Ht, Hr, Hty. rewrite <- (slice_app_exact g (s ++ data)) at 2. f_equal; lia. }
  replace (uuid_of_bytes_le g) with EFI_CERT_TYPE_PKCS7 by (by vm_compute). unfold require at 1.
  rewrite (bool_decide_true (EFI_CERT_TYPE_PKCS7 = EFI_CERT_TYPE_PKCS7)) by reflexivity.
  cbn [mbind result_bind]. unfold raise_if. replace (_ || _) with false by lia. cbn [mbind result_bind].
  assert (slice (16 + 24) (16 + (24 + len s)) f = s) as ->.
  { subst f. rewrite slice_app_r by lia. rewrite slice_app_r by (rewrite len_le_encode; lia). do 2 rewrite slice_app_r by (rewrite len_le_encode; lia).
    rewrite slice_app_r by (rewrite len_le_encode; lia).
    rewrite len_le_encode, Ht, Hr, Hty, Hg. rewrite <- (slice_app_exact s data) at 3. f_equal; lia. }
  unfold require, s at 1. rewrite bool_decide_true; [cbn; f_equal; f_equal; lia|].
  rewrite slice_take_drop by lia. done.
Qed.

Lemma auth_file_data ts sd data f :
  len ts = 16 → auth_file ts sd data = Ok f → slice_from (40 + len sd) f = data.
Proof.
  intros Ht [Hf Hl]%auth_file_Ok. assert (Hg : len (uuid_bytes_le EFI_CERT_TYPE_PKCS7) = 16) by (by vm_compute).
  pose proof (len_nonneg sd). subst f.
  rewrite slice_from_app_r by lia. do 3 rewrite slice_from_app_r by (rewrite ?len_le_encode; lia).
  rewrite slice_from_app_r by (rewrite ?len_le_encode; lia). rewrite !len_le_encode, Ht, Hg.
  rewrite <- (slice_from_app sd data) at 2. f_equal. lia.
Qed.

(** C15: An [.auth] file of a known variable that [auth_file] builds from a valid time, DER signed data and lists of X.509
    certificates, at least one of them and exactly one when the variable is PK, parses back to the same signed data and
    certificates, in their order. *)
Theorem parse_auth_round_trip name year month day ts sd certificates data f :
  name ∈ dkeys VARIABLES → efi_time year month day = Ok ts → 1900 <= year → 1 <= month <= 12 → 1 <= day <= 31 →
  head sd = Some x30 → certificate_lists certificates = Ok data → Forall (λ p, p.1 ≠ [] ∧ is_uuid p.2) certificates →
  certificates ≠ [] → (name = lit "PK" → length certificates = 1%nat) → auth_file ts sd data = Ok f →
  ∃ lists, parse_auth name f = Ok (sd, lists) ∧ x509_certificates lists = fst <$> certificates.
Proof.
  intros Hn Hts Hy Hm Hd Hsd Hdata Hc Hne Hpk Hf. assert (Ht := efi_time_Ok _ _ _ _ Hts). destruct Ht as (_ & _ & _ & _ & Htl).
  exists ((λ p, (EFI_CERT_X509, [p.1])) <$> certificates). split.
  - unfold parse_auth, require, dmem. rewrite (bool_decide_true (name ∈ dkeys VARIABLES)) by exact Hn. cbn [mbind result_bind].
    assert (_parse_time f = Ok tt) as ->.
    { apply auth_file_Ok in Hf as [-> _]. eapply parse_time_encoded; [done..|]. len_simpl.
      assert (Hg : len (uuid_bytes_le EFI_CERT_TYPE_PKCS7) = 16) by (by vm_compute).
      pose proof (len_nonneg sd). pose proof (len_nonneg data). lia. }
    cbn [mbind result_bind]. rewrite (parse_certificate_encoded _ _ _ _ Htl Hf Hsd). cbn [mbind result_bind].
    rewrite (auth_file_data _ _ _ _ Htl Hf). rewrite (signature_lists_encoded _ _ Hdata Hc). cbn [mbind result_bind].
    unfold raise_if. destruct certificates as [|[c o] certificates]; [done|].
    assert (bool_decide (name = lit "PK") && negb match (λ p : bytes * bytes, (EFI_CERT_X509, [p.1])) <$> ((c, o) :: certificates) with
      [(type, [_])] => bool_decide (type = EFI_CERT_X509) | _ => false end = false) as ->.
    { case_bool_decide as Hp; [|done]. specialize (Hpk Hp). destruct certificates; [|done]. cbn [fmap list_fmap].
      by rewrite bool_decide_true. }
    cbn [fmap list_fmap existsb fst]. rewrite (bool_decide_true (EFI_CERT_X509 = EFI_CERT_X509)) by done.
    cbn [orb negb]. by rewrite andb_false_r.
  - clear. induction certificates as [|[c o] certificates IH]; [done|]. rewrite !fmap_cons. unfold x509_certificates in *.
    rewrite bind_cons. cbn [fst]. rewrite bool_decide_true by done. by rewrite IH.
Qed.

Lemma parse_auth_round_trip_witness :
  ∃ ts data f lists, efi_time 2024 1 1 = Ok ts ∧ certificate_lists [([x30; x05], zeros 16); ([x30; x06], zeros 16)] = Ok data ∧
    auth_file ts [x30; x01] data = Ok f ∧ parse_auth (lit "db") f = Ok ([x30; x01], lists) ∧
    x509_certificates lists = [[x30; x05]; [x30; x06]].
Proof.
  destruct (efi_time 2024 1 1) as [ts|] eqn:Hts; [|exfalso; vm_compute in Hts; discriminate].
  destruct (certificate_lists [([x30; x05], zeros 16); ([x30; x06], zeros 16)]) as [data|] eqn:Hd;
    [|exfalso; vm_compute in Hd; discriminate].
  assert (Hf : is_Ok (auth_file ts [x30; x01] data) = true).
  { vm_compute in Hts, Hd. injection Hts as <-. injection Hd as <-. vm_compute. reflexivity. }
  destruct (auth_file ts [x30; x01] data) as [f|] eqn:Hf'; [|discriminate Hf].
  destruct (parse_auth_round_trip (lit "db") 2024 1 1 ts [x30; x01] [([x30; x05], zeros 16); ([x30; x06], zeros 16)] data f)
    as (lists & Hp & Hx).
  - apply (bool_decide_unpack _). vm_compute. exact I.
  - exact Hts.
  - lia.
  - lia.
  - lia.
  - reflexivity.
  - exact Hd.
  - repeat constructor; try discriminate; vm_compute; reflexivity.
  - discriminate.
  - intros E. vm_compute in E. discriminate.
  - exact Hf'.
  - exists ts, data, f, lists. exact (conj eq_refl (conj eq_refl (conj Hf' (conj Hp Hx)))).
Defined.
