(* ===== verification/Authenticode.v ===== *)
(** * Authenticode: [mkosi/private/secure_boot.py] and the signature check of [secure_boot_signer.py]

    PE/COFF images and their certificate table, the proof that a signed image is the requested one plus a signature, the image
    digest, and the fields of the embedded PKCS #7 message. A missing field raises [struct.error], as [struct.unpack_from] does. *)
From S2P Require Import Prelude Bytes PyText ByteText Hashing Collections Der.

(** ** PE images *)

(** The optional header offset, its size, its fixed-field size and the section count. *)
Definition _pe_optional_header (data : bytes) : result (Z * Z * Z * Z) :=
  raise_if ((len data <? 64) || negb (bool_decide (slice 0 2 data = blit "MZ"))) (ValueError "UKI is not a PE/COFF image" []);;
  pe ← u32 data 0x3C;
  raise_if ((len data - 24 <? pe) || negb (bool_decide (slice pe (pe + 4) data = blit "PE" ++ [x00; x00])))
    (ValueError "invalid PE header bounds" []);;
  let optional := pe + 24 in
  section_count ← u16 data (pe + 6);
  optional_size ← u16 data (pe + 20);
  raise_if ((section_count =? 0) || (96 <? section_count)) (ValueError "invalid PE section count" []);;
  raise_if (len data <? optional + optional_size) (ValueError "PE optional header is out of bounds" []);;
  magic ← u16 data optional;
  let fixed_size := if magic =? 0x20B then 112 else if magic =? 0x10B then 96 else -1 in
  raise_if ((fixed_size <? 0) || (optional_size <? fixed_size)) (ValueError "invalid PE optional header magic or size" []);;
  mret (optional, optional_size, fixed_size, section_count).

Definition _security_directory (data : bytes) (optional optional_size fixed_size : Z) : result Z :=
  let directory := optional + fixed_size in
  directory_count ← u32 data (optional + fixed_size - 4);
  raise_if (directory_count <? 5) (ValueError "PE has fewer than five data directories" []);;
  raise_if (optional + optional_size <? directory + directory_count * 8) (ValueError "PE security directory is unavailable" []);;
  mret (directory + 32).

Definition _header_layout (data : bytes) (optional optional_size section_count : Z) : result (Z * Z * Z) :=
  file_alignment ← u32 data (optional + 36);
  size_headers ← u32 data (optional + 60);
  raise_if ((file_alignment <? 0x200) || negb (Z.land file_alignment (file_alignment - 1) =? 0)) (ValueError "invalid PE FileAlignment" []);;
  let section_table := optional + optional_size in
  let section_table_end := section_table + section_count * 40 in
  raise_if ((len data <? section_table_end) || (size_headers <? section_table_end) || (len data <? size_headers))
    (ValueError "invalid PE section table or SizeOfHeaders" []);;
  raise_if (negb (size_headers mod file_alignment =? 0)) (ValueError "PE SizeOfHeaders is not file aligned" []);;
  mret (section_table, size_headers, file_alignment).

(** The raw data range of the section at [index]; an empty section has none. *)
Definition section_range (data : bytes) (section_table size_headers file_alignment : Z) (sections : list (Z * Z)) (index : Z) :
    result (list (Z * Z)) :=
  let entry := section_table + index * 40 in
  raw_size ← u32 data (entry + 16);
  raw_offset ← u32 data (entry + 20);
  if raw_size =? 0 then mret sections
  else
    raise_if ((raw_offset <? size_headers) || negb (raw_offset mod file_alignment =? 0) || (len data <? raw_offset + raw_size))
      (ValueError "PE section raw data is out of bounds" []);;
    mret (sections ++ [(raw_offset, raw_size)]).

(** The order of pairs. *)
Definition range_le (p q : Z * Z) : Prop := p.1 < q.1 ∨ (p.1 = q.1 ∧ p.2 <= q.2).
#[export] Instance range_le_dec p q : Decision (range_le p q).
Proof. unfold range_le. apply _. Defined.

(** Whether two neighbours of the list overlap. *)
Fixpoint overlapping (sections : list (Z * Z)) : bool :=
  match sections with
  | previous :: ((current :: _) as rest) => (current.1 <? previous.1 + previous.2) || overlapping rest
  | _ => false
  end.

Definition _section_ranges (data : bytes) (section_table section_count size_headers file_alignment : Z) : result (list (Z * Z)) :=
  sections ← foldM (section_range data section_table size_headers file_alignment) [] (seqZ 0 section_count);
  let sections := merge_sort range_le sections in
  raise_if (overlapping sections) (ValueError "PE section raw data overlaps" []);;
  mret sections.

Definition _certificate_table (data : bytes) (security_directory : Z) (signed : bool) : result (Z * Z) :=
  certificate_offset ← u32 data security_directory;
  certificate_size ← u32 data (security_directory + 4);
  (if signed then
     raise_if ((certificate_offset =? 0) || negb (certificate_offset mod 8 =? 0) || (certificate_size <? 8))
       (ValueError "missing or unaligned Authenticode certificate table" []);;
     raise_if (negb (certificate_offset + certificate_size =? len data))
       (ValueError "certificate table bounds or trailing data are invalid" [])
   else
     raise_if (negb (certificate_offset =? 0) || negb (certificate_size =? 0)) (ValueError "requested UKI is already signed" []));;
  mret (certificate_offset, certificate_size).

Record pe_layout := {
  certificate_offset : Z;
  certificate_size : Z;
  checksum : Z;
  security_directory : Z;
  sections : list (Z * Z);
  size_headers : Z;
}.

Definition parse_pe (data : bytes) (signed : bool) : result pe_layout :=
  '(optional, optional_size, fixed_size, section_count) ← _pe_optional_header data;
  security_directory ← _security_directory data optional optional_size fixed_size;
  '(section_table, size_headers, file_alignment) ← _header_layout data optional optional_size section_count;
  sections ← _section_ranges data section_table section_count size_headers file_alignment;
  '(certificate_offset, certificate_size) ← _certificate_table data security_directory signed;
  mret {| certificate_offset := certificate_offset; certificate_size := certificate_size; checksum := optional + 64;
          security_directory := security_directory; sections := sections; size_headers := size_headers |}.

(** [except (ValueError, struct.error): return False]; another exception propagates. *)
Definition succeeds {A} (m : result A) : result bool :=
  match m with
  | Ok _ => Ok true
  | Err (ValueError _ _) | Err StructError => Ok false
  | Err e => Err e
  end.

Definition is_pe (data : bytes) : result bool := succeeds (_pe_optional_header data).

(** ** The certificate table *)

Definition any_byte (l : bytes) : bool := existsb (λ b, negb (bool_decide (b = x00))) l.

Definition _der_object (payload : bytes) : result bytes :=
  '(item, end_) ← der_read payload 0 0;
  require (d_tag item =? 0x30) (ValueError "Authenticode payload is not DER SignedData" []);;
  raise_if (any_byte (slice_from end_ payload)) (ValueError "invalid Authenticode DER bounds or padding" []);;
  mret (slice 0 end_ payload).

(** The loop of [authenticode_payload]: every certificate has at least eight bytes. *)
Fixpoint payload_loop (fuel : nat) (signed_data : bytes) (end_ cursor : Z) (certificates : list bytes) : result (Z * list bytes) :=
  if negb (cursor <? end_) then mret (cursor, certificates) else
  match fuel with
  | O => Err OutOfFuel
  | S fuel =>
      raise_if (end_ - cursor <? 8) (ValueError "truncated WIN_CERTIFICATE header" []);;
      length ← u32 signed_data cursor;
      revision ← u16 signed_data (cursor + 4);
      certificate_type ← u16 signed_data (cursor + 6);
      raise_if ((length <? 8) || (end_ <? cursor + length)) (ValueError "WIN_CERTIFICATE is out of bounds" []);;
      raise_if (negb (revision =? 0x200) || negb (certificate_type =? 2)) (ValueError "unsupported WIN_CERTIFICATE structure" []);;
      certificate ← _der_object (slice (cursor + 8) (cursor + length) signed_data);
      let aligned := Z.ldiff (length + 7) 7 in
      raise_if ((end_ <? cursor + aligned) || any_byte (slice (cursor + length) (cursor + aligned) signed_data))
        (ValueError "invalid WIN_CERTIFICATE padding" []);;
      payload_loop fuel signed_data end_ (cursor + aligned) (certificates ++ [certificate])
  end.

Definition authenticode_payload (signed_data : bytes) (certificate_offset certificate_size : Z) : result bytes :=
  let end_ := certificate_offset + certificate_size in
  '(cursor, certificates) ← payload_loop (Z.to_nat certificate_size) signed_data end_ certificate_offset [];
  match certificates with
  | [certificate] => require (cursor =? end_) (ValueError "ambiguous or duplicate Authenticode certificate table" []);; mret certificate
  | _ => Err (ValueError "ambiguous or duplicate Authenticode certificate table" [])
  end.

Definition embedded_authenticode (data : bytes) : result bytes :=
  layout ← parse_pe data true;
  authenticode_payload data (certificate_offset layout) (certificate_size layout).

(** ** The signed image against the requested one *)

(** [prefix[offset : offset + size] = other[offset : offset + size]]. *)
Definition copy_field (other : bytes) (prefix : bytes) (field : Z * Z) : bytes :=
  splice field.1 (field.1 + field.2) (slice field.1 (field.1 + field.2) other) prefix.

Definition prove_equivalence (unsigned_data signed_data : bytes) : result bytes :=
  unsigned ← parse_pe unsigned_data false;
  signed ← parse_pe signed_data true;
  require ((checksum unsigned =? checksum signed) && (security_directory unsigned =? security_directory signed))
    (ValueError "PE layouts differ" []);;
  raise_if (certificate_offset signed <? len unsigned_data) (ValueError "Authenticode table overlaps requested UKI" []);;
  let signed_prefix :=
    foldl (copy_field unsigned_data) (slice 0 (len unsigned_data) signed_data) [(checksum unsigned, 4); (security_directory unsigned, 8)] in
  require (bool_decide (signed_prefix = unsigned_data)) (ValueError "signed UKI differs from requested unsigned UKI" []);;
  raise_if (any_byte (slice (len unsigned_data) (certificate_offset signed) signed_data))
    (ValueError "nonzero data inserted before Authenticode table" []);;
  authenticode_payload signed_data (certificate_offset signed) (certificate_size signed).

(** The loop over the sections: the bytes given to the hash so far and the end of the last section. *)
Definition hash_section (data : bytes) (st : bytes * Z) (section : Z * Z) : result (bytes * Z) :=
  let '(hashed, end_) := st in
  let '(offset, size) := section in
  raise_if (offset <? end_) (ValueError "PE section order overlaps hashed content" []);;
  mret (hashed ++ slice offset (offset + size) data, offset + size).

Definition authenticode_hash (data : bytes) (pe : pe_layout) : result bytes :=
  let headers := slice 0 (checksum pe) data ++ slice (checksum pe + 4) (security_directory pe) data ++
                 slice (security_directory pe + 8) (size_headers pe) data in
  '(hashed, end_) ← foldM (hash_section data) (headers, size_headers pe) (sections pe);
  let certificate_offset := if certificate_offset pe =? 0 then len data else certificate_offset pe in
  raise_if (certificate_offset <? end_) (ValueError "certificate table overlaps PE content" []);;
  mret (sha256 (hashed ++ slice end_ certificate_offset data)).

(** ** PKCS #7 *)

Definition OID_SIGNED_DATA : text := lit "1.2.840.113549.1.7.2".
Definition OID_SPC_INDIRECT_DATA : text := lit "1.3.6.1.4.1.311.2.1.4".
Definition OID_SHA256 : text := lit "2.16.840.1.101.3.4.2.1".
Definition OID_RSA : list text := [lit "1.2.840.113549.1.1.1"; lit "1.2.840.113549.1.1.11"].

Definition oid_is (item : Der) (oid : text) : result bool := t ← der_oid item; mret (bool_decide (t = oid)).
Definition algorithm_is (item : Der) (oids : list text) : result bool := t ← algorithm_oid item; mret (bool_decide (t ∈ oids)).

Definition parse_signed_data (payload : bytes) : result (list Der) :=
  '(outer, end_) ← der_read payload 0 0;
  outer_children ← children outer;
  inner ← match outer_children with
    | [content_type; wrapper] =>
        require ((d_tag outer =? 0x30) && (end_ =? len payload)) (ValueError "invalid Authenticode ContentInfo" []);;
        is_signed ← oid_is content_type OID_SIGNED_DATA;
        require (is_signed && (d_tag wrapper =? 0xA0)) (ValueError "AuthentiCode is not PKCS7 SignedData" []);;
        mret wrapper
    | _ => Err (ValueError "invalid Authenticode ContentInfo" [])
    end;
  signed_wrapper ← children inner;
  signed ← match signed_wrapper with
    | [signed] => require (d_tag signed =? 0x30) (ValueError "invalid SignedData wrapper" []);; children signed
    | _ => Err (ValueError "invalid SignedData wrapper" [])
    end;
  raise_if (len signed <? 4) (ValueError "invalid SignedData fields" []);;
  algorithms ← get signed 1;
  require (d_tag algorithms =? 0x31) (ValueError "invalid SignedData fields" []);;
  digest_algorithms ← children algorithms;
  match digest_algorithms with
  | [algorithm] =>
      sha ← algorithm_is algorithm [OID_SHA256];
      require sha (ValueError "SignedData must declare exactly SHA-256" [])
  | _ => Err (ValueError "SignedData must declare exactly SHA-256" [])
  end;;
  mret signed.

Definition _image_digest (content_info : Der) : result Der :=
  content ← children content_info;
  wrapper ← match content with
    | [content_type; wrapper] =>
        spc ← oid_is content_type OID_SPC_INDIRECT_DATA;
        require (spc && (d_tag wrapper =? 0xA0)) (ValueError "missing Authenticode SpcIndirectDataContent" []);;
        mret wrapper
    | _ => Err (ValueError "missing Authenticode SpcIndirectDataContent" [])
    end;
  indirect_wrappers ← children wrapper;
  indirect ← match indirect_wrappers with
    | [indirect] => require (d_tag indirect =? 0x30) (ValueError "invalid SpcIndirectDataContent" []);; children indirect
    | _ => Err (ValueError "invalid SpcIndirectDataContent" [])
    end;
  match indirect with
  | [_; message] =>
      digest_info ← children message;
      match digest_info with
      | [algorithm; digest] =>
          sha ← algorithm_is algorithm [OID_SHA256];
          require (sha && (d_tag digest =? 0x04)) (ValueError "invalid Authenticode image digest" []);;
          mret digest
      | _ => Err (ValueError "invalid Authenticode image digest" [])
      end
  | _ => Err (ValueError "invalid SpcIndirectDataContent fields" [])
  end.

Definition _check_signer_info (signer_infos : Der) : result unit :=
  signers ← children signer_infos;
  signer ← match signers with
    | [signer] => require (d_tag signer_infos =? 0x31) (ValueError "AuthentiCode must have exactly one SignerInfo" []);; children signer
    | _ => Err (ValueError "AuthentiCode must have exactly one SignerInfo" [])
    end;
  raise_if (len signer <? 5) (ValueError "invalid SignerInfo" []);;
  digest_algorithm ← get signer 2;
  sha ← algorithm_is digest_algorithm [OID_SHA256];
  require sha (ValueError "SignerInfo digest algorithm is not SHA-256" []);;
  third ← get signer 3;
  let signature_index := if d_tag third =? 0xA0 then 5 else 4 in
  raise_if (len signer <=? signature_index) (ValueError "unsupported SignerInfo signature algorithm" []);;
  algorithm ← get signer (signature_index - 1);
  rsa ← algorithm_is algorithm OID_RSA;
  require rsa (ValueError "unsupported SignerInfo signature algorithm" []);;
  signature ← get signer signature_index;
  require (d_tag signature =? 0x04) (ValueError "missing SignerInfo signature" []).

Definition authenticode_facts (payload : bytes) : result bytes :=
  signed ← parse_signed_data payload;
  content_info ← get signed 2;
  image_digest ← _image_digest content_info;
  signer_infos ← of_option IndexError (last signed);
  _check_signer_info signer_infos;;
  mret (d_value image_digest).

Definition verify_embedded_digest (unsigned_data signed_data : bytes) : result bytes :=
  payload ← prove_equivalence unsigned_data signed_data;
  embedded_digest ← authenticode_facts payload;
  layout ← parse_pe signed_data true;
  computed_digest ← authenticode_hash signed_data layout;
  require (bool_decide (embedded_digest = computed_digest)) (ValueError "embedded Authenticode digest does not match imported PE" []);;
  mret payload.

(** The exceptions that [report_errors] turns into a SECURE_BOOT_INVALID exit; [json.JSONDecodeError] and the decoding errors of
    text are [ValueError]s. *)
Definition report_errors (e : exn) : bool :=
  match e with ValueError _ _ | UnicodeError | KeyError | OSError | CalledProcessError => true | _ => false end.
