(* ===== verification/AuthenticodeProofs.v ===== *)
(** * Authenticode: a verified image is the requested image, a signature and nothing else *)
From S2P Require Import Prelude Bytes PyText ByteText Hashing Collections Der DerProofs Authenticode.

(** ** Images that agree outside the fields that signing changes *)

(** [s] has the bytes of [u] everywhere but in the checksum at [cs] and the security directory entry at [sec]. *)
Definition agree (cs sec : Z) (u s : bytes) : Prop :=
  len u <= len s ∧ ∀ i : nat, Z.of_nat i < len u → ¬ (cs <= Z.of_nat i < cs + 4) → ¬ (sec <= Z.of_nat i < sec + 8) → s !! i = u !! i.

Section agree.
  Context (cs sec : Z) (u s : bytes) (Ha : agree cs sec u s).

Lemma agree_slice a b :
  0 <= a → b <= len u → b <= cs ∨ cs + 4 <= a → b <= sec ∨ sec + 8 <= a → slice a b s = slice a b u.
Proof.
  destruct Ha as [Hl Hi]. intros Ha0 Hb Hc Hs. destruct (Z.lt_ge_cases a b) as [Hab|Hab]; [|by rewrite !slice_empty by lia].
  apply list_eq. intros i. destruct (Z.lt_ge_cases (Z.of_nat i) (b - a)) as [Hlt|Hge].
  - rewrite !slice_lookup by lia. apply Hi; lia.
  - rewrite !lookup_ge_None_2; [done|..]; apply Nat2Z.inj_le.
    all: change (Z.of_nat (length ?l)) with (len l); rewrite len_slice by lia; lia.
Qed.

Lemma agree_unpack n off v :
  unpack_le n u off = Ok v → 0 <= off → 0 <= n → off + n <= cs ∨ cs + 4 <= off → off + n <= sec ∨ sec + 8 <= off → unpack_le n s off = Ok v.
Proof.
  intros [Hl ->]%unpack_le_inv Ho Hn Hc Hs. destruct Ha as [Hle _]. rewrite unpack_le_Ok by lia. by rewrite agree_slice by lia.
Qed.
End agree.

(** A loop whose steps succeed alike. *)
Lemma foldM_mono {A S} (f g : S → A → result S) l s r :
  (∀ st x st', x ∈ l → f st x = Ok st' → g st x = Ok st') → foldM f s l = Ok r → foldM g s l = Ok r.
Proof.
  revert s. induction l as [|x l IH]; intros s Hfg H; [done|]. cbn [foldM] in *. apply bind_Ok_inv in H as (s' & Hx & H).
  rewrite (Hfg s x s') by (done || set_solver). cbn [mbind result_bind]. apply IH; [set_solver|done].
Qed.

(** ** Where the fields of an accepted image are *)

Lemma optional_header_inv data optional optional_size fixed_size section_count :
  _pe_optional_header data = Ok (optional, optional_size, fixed_size, section_count) →
  ∃ pe magic, 64 <= len data ∧ slice 0 2 data = blit "MZ" ∧ u32 data 0x3C = Ok pe ∧ 0 <= pe <= len data - 24 ∧
    slice pe (pe + 4) data = blit "PE" ++ [x00; x00] ∧ optional = pe + 24 ∧ u16 data (pe + 6) = Ok section_count ∧
    u16 data (pe + 20) = Ok optional_size ∧ 0 < section_count <= 96 ∧ optional + optional_size <= len data ∧ u16 data optional = Ok magic ∧
    fixed_size = (if magic =? 0x20B then 112 else if magic =? 0x10B then 96 else -1) ∧ 96 <= fixed_size <= optional_size.
Proof.
  unfold _pe_optional_header. intros H. apply bind_Ok_inv in H as ([] & H64%raise_if_Ok & H). apply bind_Ok_inv in H as (pe & Hpe & H).
  apply bind_Ok_inv in H as ([] & Hb%raise_if_Ok & H). cbv zeta in H. apply bind_Ok_inv in H as (count & Hcount & H).
  apply bind_Ok_inv in H as (size & Hsize & H). apply bind_Ok_inv in H as ([] & Hc%raise_if_Ok & H).
  apply bind_Ok_inv in H as ([] & Ho%raise_if_Ok & H). apply bind_Ok_inv in H as (magic & Hm & H).
  apply bind_Ok_inv in H as ([] & Hf%raise_if_Ok & H). bool_inv. injection H as <- <- <- <-. exists pe, magic.
  pose proof (unpack_le_range 4 data 0x3C pe ltac:(lia) ltac:(lia) Hpe). pose proof (unpack_le_range 2 data (pe + 6) count ltac:(lia) ltac:(lia) Hcount).
  destruct (magic =? 523) eqn:E1; [|destruct (magic =? 267) eqn:E2; [|lia]]; rewrite ?E1, ?E2; split_and!; (done || lia).
Qed.

(** The section ranges of an image: in its raw data, after the headers. *)
Definition range_ok (size_headers n : Z) (r : Z * Z) : Prop := size_headers <= r.1 ∧ 0 < r.2 ∧ r.1 + r.2 <= n.

Lemma section_range_inv data table headers alignment found index found' :
  0 <= table → 0 <= index → section_range data table headers alignment found index = Ok found' →
  ∃ raw_size raw_offset, u32 data (table + index * 40 + 16) = Ok raw_size ∧ u32 data (table + index * 40 + 20) = Ok raw_offset ∧
    (raw_size = 0 ∧ found' = found ∨ 0 < raw_size ∧ raw_offset mod alignment = 0 ∧ range_ok headers (len data) (raw_offset, raw_size) ∧ found' = found ++ [(raw_offset, raw_size)]).
Proof.
  intros Ht Hi H. unfold section_range in H. cbv zeta in H. apply bind_Ok_inv in H as (size & Hs & H). apply bind_Ok_inv in H as (off & Ho & H).
  exists size, off. split; [done|]. split; [done|]. apply (unpack_le_range 4) in Hs; [|lia|lia]. destruct (size =? 0) eqn:E; bool_inv.
  - left. by injection H as <-.
  - apply bind_Ok_inv in H as ([] & Hb%raise_if_Ok & H). bool_inv. injection H as <-. right. split; [lia|]. split; [done|]. split; [|done].
    unfold range_ok. cbn [fst snd]. lia.
Qed.

Lemma section_ranges_inv data table count headers alignment ranges :
  0 <= table → 0 <= count → _section_ranges data table count headers alignment = Ok ranges →
  Forall (range_ok headers (len data)) ranges ∧ overlapping ranges = false.
Proof.
  intros Ht Hc H. unfold _section_ranges in H. apply bind_Ok_inv in H as (found & Hf & H). cbv zeta in H.
  apply bind_Ok_inv in H as ([] & Ho%raise_if_Ok & H). injection H as <-. split; [|done]. rewrite merge_sort_Permutation.
  revert Hf. apply (foldM_inv (Forall (range_ok headers (len data)))); [|done]. intros st i st' Hi Hst Hstep. apply elem_of_seqZ in Hi.
  apply section_range_inv in Hstep as (sz & off & _ & _ & [[_ ->]|(_ & _ & Hr & ->)]); [done| |lia|lia]. apply Forall_app. auto.
Qed.

Lemma header_layout_inv data optional optional_size count table headers alignment :
  _header_layout data optional optional_size count = Ok (table, headers, alignment) →
  u32 data (optional + 36) = Ok alignment ∧ u32 data (optional + 60) = Ok headers ∧ 0x200 <= alignment ∧ Z.land alignment (alignment - 1) = 0 ∧
  table = optional + optional_size ∧ table + count * 40 <= headers <= len data ∧ headers mod alignment = 0.
Proof.
  unfold _header_layout. intros H. apply bind_Ok_inv in H as (al & Hal & H). apply bind_Ok_inv in H as (hd & Hhd & H).
  apply bind_Ok_inv in H as ([] & H1%raise_if_Ok & H). cbv zeta in H. apply bind_Ok_inv in H as ([] & H2%raise_if_Ok & H).
  apply bind_Ok_inv in H as ([] & H3%raise_if_Ok & H). bool_inv. injection H as <- <- <-. split_and!; (done || lia).
Qed.

Lemma security_directory_inv data optional optional_size fixed_size sec :
  _security_directory data optional optional_size fixed_size = Ok sec →
  ∃ count, u32 data (optional + fixed_size - 4) = Ok count ∧ 5 <= count ∧ optional + fixed_size + count * 8 <= optional + optional_size ∧
    sec = optional + fixed_size + 32.
Proof.
  unfold _security_directory. intros H. apply bind_Ok_inv in H as (count & Hc & H). apply bind_Ok_inv in H as ([] & H1%raise_if_Ok & H).
  apply bind_Ok_inv in H as ([] & H2%raise_if_Ok & H). bool_inv. injection H as <-. exists count. split_and!; (done || lia).
Qed.

(** The parts of a parsed image. *)
Lemma parse_pe_inv data signed l :
  parse_pe data signed = Ok l →
  ∃ optional optional_size fixed_size count table alignment,
    _pe_optional_header data = Ok (optional, optional_size, fixed_size, count) ∧
    _security_directory data optional optional_size fixed_size = Ok (security_directory l) ∧
    _header_layout data optional optional_size count = Ok (table, size_headers l, alignment) ∧
    _section_ranges data table count (size_headers l) alignment = Ok (sections l) ∧
    _certificate_table data (security_directory l) signed = Ok (certificate_offset l, certificate_size l) ∧ checksum l = optional + 64.
Proof.
  unfold parse_pe. intros H. apply bind_Ok_inv in H as ([[[optional optional_size] fixed_size] count] & Ho & H).
  apply bind_Ok_inv in H as (sec & Hs & H). apply bind_Ok_inv in H as ([[table headers] alignment] & Hh & H).
  apply bind_Ok_inv in H as (ranges & Hr & H). apply bind_Ok_inv in H as ([co cz] & Hc & H). injection H as <-.
  exists optional, optional_size, fixed_size, count, table, alignment. done.
Qed.

(** The layout of an accepted image. *)
Definition layout_ok (l : pe_layout) (n : Z) : Prop :=
  88 <= checksum l ∧ checksum l + 4 <= security_directory l ∧ security_directory l + 8 <= size_headers l ∧ size_headers l <= n ∧
  Forall (range_ok (size_headers l) n) (sections l) ∧ overlapping (sections l) = false.

Lemma parse_pe_layout data signed l : parse_pe data signed = Ok l → layout_ok l (len data).
Proof.
  intros (optional & optional_size & fixed_size & count & table & alignment & Ho & Hs & Hh & Hr & _ & Hc)%parse_pe_inv.
  apply optional_header_inv in Ho as (pe & magic & H64 & _ & _ & Hpe & _ & -> & _ & _ & Hcount & Hopt & _ & _ & Hf).
  apply security_directory_inv in Hs as (dirs & _ & Hd & Hdir & Hs). apply header_layout_inv in Hh as (_ & _ & _ & _ & -> & Hhd & _).
  apply section_ranges_inv in Hr as [Hr Hover]; [|lia|lia]. unfold layout_ok. split_and!; (done || lia).
Qed.

Section parse_agree.
  Context (u s : bytes) (cs sec : Z) (Ha : agree cs sec u s).

Lemma optional_header_agree r :
  _pe_optional_header u = Ok r → cs = r.1.1.1 + 64 → r.1.1.1 + r.1.2 <= sec → sec + 8 <= r.1.1.1 + r.1.1.2 →
  _pe_optional_header s = Ok r.
Proof.
  destruct r as [[[optional optional_size] fixed_size] section_count]. cbn [fst snd].
  intros (pe & magic & H64 & Hmz & Hpe & Hper & Hsig & -> & Hcount & Hsize & Hcr & Hopt & Hmagic & Hf & Hfr)%optional_header_inv Hc Hs1 Hs2.
  pose proof (proj1 Ha) as Hl. unfold _pe_optional_header. rewrite (agree_slice _ _ _ _ Ha) by lia. rewrite Hmz.
  replace (_ || _) with false by (rewrite bool_decide_eq_true_2 by done; lia). cbn [raise_if mbind result_bind].
  rewrite (agree_unpack _ _ _ _ Ha _ _ _ Hpe) by lia. cbn [mbind result_bind].
  rewrite (agree_slice _ _ _ _ Ha) by lia. rewrite Hsig.
  replace (_ || _) with false by (rewrite bool_decide_eq_true_2 by done; lia). cbn [raise_if mbind result_bind].
  rewrite (agree_unpack _ _ _ _ Ha _ _ _ Hcount) by lia. cbn [mbind result_bind].
  rewrite (agree_unpack _ _ _ _ Ha _ _ _ Hsize) by lia. cbn [mbind result_bind].
  replace (_ || _) with false by lia. cbn [raise_if mbind result_bind]. replace (_ <? _) with false by lia. cbn [raise_if mbind result_bind].
  rewrite (agree_unpack _ _ _ _ Ha _ _ _ Hmagic) by lia. cbn [mbind result_bind]. rewrite <- Hf.
  replace (_ || _) with false by lia. done.
Qed.

Lemma security_directory_agree optional optional_size fixed_size :
  _security_directory u optional optional_size fixed_size = Ok sec → 0 <= optional → 96 <= fixed_size → cs = optional + 64 →
  _security_directory s optional optional_size fixed_size = Ok sec.
Proof.
  intros (count & Hc & H5 & Hd & Hs)%security_directory_inv Ho Hf Hcs. unfold _security_directory.
  rewrite (agree_unpack _ _ _ _ Ha _ _ _ Hc) by lia. cbn [mbind result_bind]. replace (_ <? _) with false by lia. cbn [raise_if mbind result_bind].
  replace (_ <? _) with false by lia. rewrite Hs. done.
Qed.

Lemma header_layout_agree optional optional_size count r :
  _header_layout u optional optional_size count = Ok r → 0 <= optional → cs = optional + 64 → optional + 64 <= sec →
  _header_layout s optional optional_size count = Ok r.
Proof.
  destruct r as [[table headers] alignment]. intros (Hal & Hhd & H1 & H2 & -> & H3 & H4)%header_layout_inv Ho Hcs Hs.
  pose proof (proj1 Ha) as Hl. unfold _header_layout. rewrite (agree_unpack _ _ _ _ Ha _ _ _ Hal) by lia. cbn [mbind result_bind].
  rewrite (agree_unpack _ _ _ _ Ha _ _ _ Hhd) by lia. cbn [mbind result_bind]. rewrite H2. replace (_ || _) with false by lia.
  cbn [raise_if mbind result_bind]. cbv zeta. replace (_ || _) with false by lia. cbn [raise_if mbind result_bind]. rewrite H4. done.
Qed.

Lemma section_ranges_agree table count headers alignment r :
  _section_ranges u table count headers alignment = Ok r → 0 <= table → cs + 4 <= table → sec + 8 <= table →
  _section_ranges s table count headers alignment = Ok r.
Proof.
  intros H Ht Hcs Hs. unfold _section_ranges in *. apply bind_Ok_inv in H as (found & Hf & H). pose proof (proj1 Ha) as Hl.
  rewrite (foldM_mono _ (section_range s table headers alignment) _ _ _) with (2 := Hf); [done|].
  intros st i st' Hi Hst. apply elem_of_seqZ in Hi. apply section_range_inv in Hst as (sz & off & Hsz & Hoff & Hcase); [|lia|lia].
  unfold section_range. cbv zeta. rewrite (agree_unpack _ _ _ _ Ha _ _ _ Hsz) by lia. cbn [mbind result_bind].
  rewrite (agree_unpack _ _ _ _ Ha _ _ _ Hoff) by lia. cbn [mbind result_bind]. destruct Hcase as [[-> ->]|(Hp & Hm & Hr & ->)]; [done|].
  unfold range_ok in Hr. cbn [fst snd] in Hr. replace (sz =? 0) with false by lia. rewrite Hm. replace (_ || _) with false by lia. done.
Qed.
End parse_agree.

(** Signing changes what the certificate table says, and no other part of the layout. *)
Lemma parse_pe_agree u s l signed :
  parse_pe u false = Ok l → agree (checksum l) (security_directory l) u s →
  parse_pe s signed = '(offset, size) ← _certificate_table s (security_directory l) signed;
    mret {| certificate_offset := offset; certificate_size := size; checksum := checksum l; security_directory := security_directory l;
            sections := sections l; size_headers := size_headers l |}.
Proof.
  intros Hp Ha. pose proof (parse_pe_layout _ _ _ Hp) as (Hl1 & Hl2 & Hl3 & Hl4 & _).
  apply parse_pe_inv in Hp as (optional & optional_size & fixed_size & count & table & alignment & Ho & Hs & Hh & Hr & _ & Hc).
  pose proof Ho as (pe & magic & H64 & _ & _ & Hpe & _ & Hop & _ & _ & Hcount & Hopt & _ & _ & Hf)%optional_header_inv.
  pose proof Hs as (dirs & _ & Hd & Hdir & Hsec)%security_directory_inv. pose proof Hh as (_ & _ & _ & _ & Htab & Hhd & _)%header_layout_inv.
  unfold parse_pe. rewrite (optional_header_agree _ _ _ _ Ha _ Ho) by (cbn [fst snd]; lia). cbn [mbind result_bind].
  rewrite (security_directory_agree _ _ _ _ Ha _ _ _ Hs) by lia. cbn [mbind result_bind].
  rewrite (header_layout_agree _ _ _ _ Ha _ _ _ _ Hh) by lia. cbn [mbind result_bind].
  rewrite (section_ranges_agree _ _ _ _ Ha _ _ _ _ _ Hr) by lia. cbn [mbind result_bind]. by rewrite Hc.
Qed.

(** ** The certificate table *)

Lemma align8 n : Z.ldiff (n + 7) 7 = 8 * ((n + 7) / 8).
Proof. change 7 with (Z.ones 3) at 2. rewrite Z.ldiff_ones_r, Z.shiftl_mul_pow2, Z.shiftr_div_pow2 by lia. change (2 ^ 3) with 8. lia. Qed.

Lemma align8_bounds n : n <= Z.ldiff (n + 7) 7 < n + 8 ∧ Z.ldiff (n + 7) 7 mod 8 = 0.
Proof. rewrite align8. split; [Z.to_euclidean_division_equations; lia|]. rewrite Z.mul_comm. by apply Z.mod_mul. Qed.

Lemma any_byte_zeros l : any_byte l = false ↔ l = zeros (len l).
Proof.
  unfold zeros, len. rewrite Nat2Z.id. induction l as [|b l IH]; [done|]. unfold any_byte in *. cbn [existsb length replicate].
  rewrite orb_false_iff, negb_false_iff, bool_decide_eq_true, IH. split; [by intros [-> <-]|by intros [= -> <-]].
Qed.

Lemma any_zeros n : any_byte (zeros n) = false.
Proof. unfold zeros. induction (Z.to_nat n) as [|m IH]; [done|]. unfold any_byte in *. cbn [replicate existsb]. by rewrite IH. Qed.

(** One DER sequence, then zeros. *)
Lemma der_object_exact data p :
  _der_object data = Ok p ↔ ∃ v, p = tlv 0x30 v ∧ data = p ++ zeros (len data - len p) ∧ len p <= len data ∧ len data <= MAX_DER_BYTES.
Proof.
  unfold _der_object. split.
  - intros H. apply bind_Ok_inv in H as ([item end_] & Hr & H). apply bind_Ok_inv in H as ([] & Ht%require_Ok & H).
    apply bind_Ok_inv in H as ([] & Hz%raise_if_Ok & H). bool_inv. injection H as <-.
    apply der_read_inv in Hr as (pre & post & Hd & Hp & -> & _ & _ & _ & Hm); [|done]. destruct pre; [|rewrite len_cons in Hp; pose proof (len_nonneg pre); lia].
    cbn [app] in Hd. rewrite Z.add_0_l in *. assert (Hs : slice 0 (len (der_bytes item)) data = der_bytes item) by (rewrite Hd; apply slice_app_exact).
    rewrite Hs. exists (d_value item). split; [unfold der_bytes; by rewrite Ht|]. rewrite Hd in Hz. rewrite slice_from_app in Hz.
    apply any_byte_zeros in Hz. rewrite Hd at 1. split; [|split; [rewrite Hd, len_app; pose proof (len_nonneg post); lia|done]].
    f_equal. rewrite Hz. f_equal. rewrite Hd, len_app. lia.
  - intros (v & -> & Hd & Hle & Hm). assert (Hr : der_read data 0 0 = Ok ({| d_tag := 0x30; d_value := v; d_depth := 0 |}, len (tlv 0x30 v))).
    { rewrite Hd in Hm |- *. by apply (der_read_tlv [] 0x30 v). }
    rewrite Hr. cbn [mbind result_bind d_tag].
    change (48 =? 48) with true. cbn [require mbind result_bind].
    assert (Hz : slice_from (len (tlv 48 v)) data = zeros (len data - len (tlv 48 v))) by (rewrite Hd at 1; apply slice_from_app).
    rewrite Hz, any_zeros. cbn [raise_if mbind result_bind]. unfold mret, result_ret. f_equal. rewrite Hd. apply slice_app_exact.
Qed.

(** A WIN_CERTIFICATE with a payload, padded inside its length and then to eight bytes. *)
Definition win_certificate (length_ : Z) (payload : bytes) : bytes :=
  le_encode 4 length_ ++ le_encode 2 0x200 ++ le_encode 2 2 ++ payload ++ zeros (Z.ldiff (length_ + 7) 7 - 8 - len payload).

Definition certificate_fits (length_ : Z) (payload : bytes) : Prop :=
  (∃ v, payload = tlv 0x30 v) ∧ 8 + len payload <= length_ ∧ length_ - 8 <= MAX_DER_BYTES.

Lemma len_win_certificate length_ payload : certificate_fits length_ payload → len (win_certificate length_ payload) = Z.ldiff (length_ + 7) 7.
Proof.
  intros (_ & Hl & _). unfold win_certificate. pose proof (align8_bounds length_). rewrite !len_app, !len_le_encode, len_zeros by lia. lia.
Qed.

Lemma payload_loop_grows fuel data end_ cursor certs r :
  payload_loop fuel data end_ cursor certs = Ok r → (end_ <= cursor ∧ r = (cursor, certs)) ∨ ∃ x more, r.2 = certs ++ x :: more.
Proof.
  revert cursor certs. induction fuel as [|fuel IH]; intros cursor certs H; cbn [payload_loop] in H;
    (destruct (negb (cursor <? end_)) eqn:E; [left; bool_inv; injection H as <-; split; [lia|done]|]); [done|]. right. do 6 (apply bind_Ok_inv in H as (? & _ & H)). apply bind_Ok_inv in H as (certificate & _ & H). cbv zeta in H.
  apply bind_Ok_inv in H as (? & _ & H). apply IH in H as [[_ ->]|(next & more & H)]; [by exists certificate, []|].
  exists certificate, (next :: more). by rewrite H, <- app_assoc.
Qed.

Lemma le_field n k data off v : k = Z.of_nat n → 0 <= off → unpack_le k data off = Ok v → slice off (off + k) data = le_encode n v.
Proof.
  intros -> Ho [Hl ->]%unpack_le_inv. assert (Hn : length (slice off (off + Z.of_nat n) data) = n).
  { apply Nat2Z.inj. change (Z.of_nat (length ?l)) with (len l). rewrite len_slice; lia. }
  generalize dependent (slice off (off + Z.of_nat n) data). intros l <-. by rewrite le_encode_decode.
Qed.

(** The table that holds exactly one certificate. *)
Lemma authenticode_payload_exact data offset size payload :
  0 <= offset → 0 <= size → offset + size = len data →
  authenticode_payload data offset size = Ok payload ↔
  ∃ length_, certificate_fits length_ payload ∧ slice_from offset data = win_certificate length_ payload.
Proof.
  intros Ho Hz He. unfold authenticode_payload. cbv zeta. split.
  - intros H. apply bind_Ok_inv in H as ([cursor certs] & Hloop & H). destruct certs as [|certificate [|? ?]]; [done| |done].
    apply bind_Ok_inv in H as ([] & Hcur%require_Ok & H). bool_inv. injection H as <-. subst cursor.
    destruct (Z.to_nat size) as [|fuel] eqn:Hf; cbn [payload_loop] in Hloop.
    { by destruct (negb (offset <? offset + size)). }
    destruct (negb (offset <? offset + size)) eqn:E; bool_inv; [done|].
    apply bind_Ok_inv in Hloop as ([] & H8%raise_if_Ok & H). apply bind_Ok_inv in H as (length_ & Hlen & H). apply bind_Ok_inv in H as (rev & Hrev & H).
    apply bind_Ok_inv in H as (type & Htype & H). apply bind_Ok_inv in H as ([] & Hb%raise_if_Ok & H). apply bind_Ok_inv in H as ([] & Hk%raise_if_Ok & H).
    apply bind_Ok_inv in H as (p & Hp & H). cbv zeta in H. apply bind_Ok_inv in H as ([] & Hpad%raise_if_Ok & H).
    apply orb_false_iff in Hpad as [Hpe Hzero%any_byte_zeros]. bool_inv. subst rev type.
    pose proof (align8_bounds length_) as [Hal _].
    apply payload_loop_grows in H as [[Hend H]|(x & more & H)]; [|by destruct more]. injection H as Hend' <-.
    apply der_object_exact in Hp as (v & -> & Hd & Hle & Hm). rewrite len_slice in * by lia. exists length_.
    assert (Hfits : certificate_fits length_ (tlv 48 v)) by (split; [by exists v|lia]). split; [done|].
    assert (Hsplit : slice_from offset data = slice offset (offset + 4) data ++ slice (offset + 4) (offset + 4 + 2) data ++
      slice (offset + 6) (offset + 6 + 2) data ++ slice (offset + 8) (offset + length_) data ++ slice (offset + length_) (offset + Z.ldiff (length_ + 7) 7) data).
    { replace (offset + 4 + 2) with (offset + 6) by lia. replace (offset + 6 + 2) with (offset + 8) by lia. rewrite !slice_join by lia.
      rewrite <- Hend', He. rewrite slice_take_drop, slice_from_drop by lia. rewrite take_ge; [done|]. rewrite length_drop. unfold len. lia. }
    rewrite Hsplit. unfold win_certificate. rewrite (le_field 4 4 data offset length_), (le_field 2 2 data (offset + 4) 512), (le_field 2 2 data (offset + 6) 2) by (done || lia).
    do 3 f_equal. rewrite Hd at 1. rewrite <- app_assoc. f_equal. rewrite Hzero. unfold zeros. rewrite <- replicate_add. f_equal. lia.
  - intros (length_ & Hfits & Htab). pose proof (len_win_certificate _ _ Hfits) as Hl. rewrite <- Htab, len_slice_from in Hl by lia.
    destruct Hfits as ([v Hv] & Hfit & Hmax). pose proof (align8_bounds length_) as [Hal _]. pose proof (len_nonneg payload).
    assert (Hd : data = slice 0 offset data ++ win_certificate length_ payload) by (rewrite <- Htab; symmetry; apply slice_slice_from; lia).
    assert (Hpre : len (slice 0 offset data) = offset) by (rewrite len_slice; lia). generalize dependent (slice 0 offset data). intros pre Hd Hpre.
    unfold win_certificate in Hd. set (inner := payload ++ zeros (length_ - 8 - len payload)). unfold MAX_DER_BYTES in Hmax.
    assert (Hzz : zeros (Z.ldiff (length_ + 7) 7 - 8 - len payload) = zeros (length_ - 8 - len payload) ++ zeros (Z.ldiff (length_ + 7) 7 - length_)).
    { unfold zeros. rewrite <- replicate_add. f_equal. lia. }
    assert (Hli : len inner = length_ - 8) by (unfold inner; rewrite len_app, len_zeros; lia).
    rewrite Hzz, (app_assoc payload) in Hd. fold inner in Hd.
    destruct (Z.to_nat size) as [|fuel] eqn:Hfuel; [lia|]. cbn [payload_loop]. replace (offset <? offset + size) with true by lia. cbn [negb].
    replace (offset + size - offset <? 8) with false by lia. cbn [raise_if mbind result_bind].
    assert (E1 : u32 data offset = Ok length_) by (rewrite Hd, <- Hpre; apply (unpack_le_app pre _ 4); lia).
    assert (E2 : u16 data (offset + 4) = Ok 512).
    { rewrite Hd, (app_assoc pre). replace (offset + 4) with (len (pre ++ le_encode 4 length_)) by (rewrite len_app, len_le_encode; lia).
      apply (unpack_le_app _ _ 2). lia. }
    assert (E3 : u16 data (offset + 6) = Ok 2).
    { rewrite Hd, (app_assoc pre), (app_assoc (pre ++ _)).
      replace (offset + 6) with (len ((pre ++ le_encode 4 length_) ++ le_encode 2 512)) by (rewrite !len_app, !len_le_encode; lia).
      apply (unpack_le_app _ _ 2). lia. }
    set (head := pre ++ le_encode 4 length_ ++ le_encode 2 512 ++ le_encode 2 2).
    assert (Hd' : data = head ++ inner ++ zeros (Z.ldiff (length_ + 7) 7 - length_)) by (rewrite Hd; unfold head; by rewrite <- !app_assoc).
    assert (Hh : len head = offset + 8) by (unfold head; rewrite !len_app, !len_le_encode; lia).
    assert (E4 : slice (offset + 8) (offset + length_) data = inner).
    { rewrite Hd', <- Hh, slice_app_r, Z.sub_diag by lia. replace (offset + length_ - len head) with (len inner) by lia. apply slice_app_exact. }
    assert (E5 : slice (offset + length_) (offset + Z.ldiff (length_ + 7) 7) data = zeros (Z.ldiff (length_ + 7) 7 - length_)).
    { rewrite Hd', (app_assoc head), slice_app_r by (rewrite len_app; lia). rewrite len_app, Hh, Hli.
      replace (offset + length_ - (offset + 8 + (length_ - 8))) with 0 by lia. apply slice_all. rewrite len_zeros; lia. }
    rewrite E1, E2, E3. cbn [mbind result_bind]. replace ((length_ <? 8) || _) with false by lia. cbn [raise_if mbind result_bind].
    change (negb (512 =? 512) || negb (2 =? 2)) with false. cbn [raise_if mbind result_bind]. rewrite E4.
    rewrite (proj2 (der_object_exact inner payload)).
    2:{ exists v. rewrite Hli. unfold MAX_DER_BYTES. split_and!; (done || lia). }
    cbn [mbind result_bind]. cbv zeta. rewrite E5, any_zeros. replace (_ || false) with false by lia. cbn [raise_if mbind result_bind app].
    destruct fuel; cbn [payload_loop]; replace (_ <? offset + size) with false by lia; cbn [negb mret result_ret mbind result_bind].
    all: by replace (_ =? _) with true by lia.
Qed.

(** ** The signed image *)

Section fields.
  Context (cs sec : Z) (u p : bytes) (Hcs : 0 <= cs) (Hsec : cs + 4 <= sec) (Hu : sec + 8 <= len u) (Hp : len p = len u).

Lemma lookup_fields v w i :
  len v = 4 → len w = 8 →
  splice sec (sec + 8) w (splice cs (cs + 4) v p) !! i =
    if (sec <=? Z.of_nat i) && (Z.of_nat i <? sec + 8) then w !! (i - Z.to_nat sec)%nat
    else if (cs <=? Z.of_nat i) && (Z.of_nat i <? cs + 4) then v !! (i - Z.to_nat cs)%nat else p !! i.
Proof. intros Hv Hw. rewrite lookup_splice by (rewrite ?len_splice; lia). case_match; [done|]. by rewrite lookup_splice by lia. Qed.

Lemma restore_agree : foldl (copy_field u) p [(cs, 4); (sec, 8)] = u ↔ agree cs sec u p.
Proof.
  cbn [foldl]. unfold copy_field. cbn [fst snd]. split.
  - intros H. split; [lia|]. intros i Hi Hc Hs. apply (f_equal (lookup i)) in H. rewrite lookup_fields in H by (rewrite len_slice; lia).
    replace (_ && _) with false in H by lia. by replace (_ && _) with false in H by lia.
  - intros [_ H]. apply list_eq. intros i. rewrite lookup_fields by (rewrite len_slice; lia). case_match eqn:E1; bool_inv.
    { rewrite slice_lookup by lia. f_equal. lia. }
    case_match eqn:E2; bool_inv; [rewrite slice_lookup by lia; f_equal; lia|].
    destruct (Z.lt_ge_cases (Z.of_nat i) (len u)); [apply H; lia|]. rewrite !lookup_ge_None_2; [done|unfold len in *; lia..].
Qed.

Lemma agree_fields : agree cs sec u p → p = splice sec (sec + 8) (slice sec (sec + 8) p) (splice cs (cs + 4) (slice cs (cs + 4) p) u).
Proof.
  intros [_ H]. apply list_eq. intros i.
  rewrite lookup_splice by (rewrite ?len_splice, ?len_slice; rewrite ?len_slice; lia). case_match eqn:E1; bool_inv.
  { rewrite slice_lookup by lia. f_equal. lia. }
  rewrite lookup_splice by (rewrite ?len_slice; lia). case_match eqn:E2; bool_inv; [rewrite slice_lookup by lia; f_equal; lia|].
  destruct (Z.lt_ge_cases (Z.of_nat i) (len u)); [apply H; lia|]. rewrite !lookup_ge_None_2; [done|unfold len in *; lia..].
Qed.
End fields.

(** The image that signing an image produces: a new checksum, the entry of the certificate table, zeros up to the table, and the
    table with one certificate. *)
Definition signed_image (u : bytes) (l : pe_layout) (sum : bytes) (pad length_ : Z) (payload : bytes) : bytes :=
  splice (security_directory l) (security_directory l + 8) (le_encode 4 (len u + pad) ++ le_encode 4 (Z.ldiff (length_ + 7) 7))
    (splice (checksum l) (checksum l + 4) sum u) ++ zeros pad ++ win_certificate length_ payload.

Record signed_form (u : bytes) (l : pe_layout) (sum : bytes) (pad length_ : Z) (payload s : bytes) : Prop := {
  sf_sum : len sum = 4;
  sf_pad : 0 <= pad;
  sf_aligned : (len u + pad) mod 8 = 0;
  sf_offset : len u + pad < 256 ^ 4;
  sf_fits : certificate_fits length_ payload;
  sf_image : s = signed_image u l sum pad length_ payload;
}.

Section signed_form.
  Context (u : bytes) (l : pe_layout) (sum : bytes) (pad length_ : Z) (payload s : bytes).
  Context (Hl : layout_ok l (len u)) (Hf : signed_form u l sum pad length_ payload s).

(** The header of the signed image. *)
Definition signed_header : bytes :=
  splice (security_directory l) (security_directory l + 8) (le_encode 4 (len u + pad) ++ le_encode 4 (Z.ldiff (length_ + 7) 7))
    (splice (checksum l) (checksum l + 4) sum u).

Lemma len_entry : len (le_encode 4 (len u + pad) ++ le_encode 4 (Z.ldiff (length_ + 7) 7)) = 8.
Proof. by rewrite len_app, !len_le_encode. Qed.

Lemma len_signed_header : len signed_header = len u.
Proof.
  destruct Hl as (H1 & H2 & H3 & H4 & _). unfold signed_header. pose proof (sf_sum _ _ _ _ _ _ _ Hf). pose proof len_entry.
  rewrite len_splice; rewrite ?len_splice by lia; lia.
Qed.

Lemma signed_image_split : s = signed_header ++ zeros pad ++ win_certificate length_ payload.
Proof. by rewrite (sf_image _ _ _ _ _ _ _ Hf). Qed.

Lemma len_signed : len s = len u + pad + Z.ldiff (length_ + 7) 7.
Proof.
  rewrite signed_image_split, !len_app, len_signed_header, len_zeros, (len_win_certificate _ _ (sf_fits _ _ _ _ _ _ _ Hf)) by apply (sf_pad _ _ _ _ _ _ _ Hf). lia.
Qed.

Lemma signed_agree : agree (checksum l) (security_directory l) u s.
Proof.
  pose proof len_signed as Hls. pose proof (sf_pad _ _ _ _ _ _ _ Hf). pose proof (align8_bounds length_) as [Hal _].
  destruct (sf_fits _ _ _ _ _ _ _ Hf) as (_ & Hfit & _). pose proof (len_nonneg payload). destruct Hl as (H1 & H2 & H3 & H4 & _).
  split; [lia|]. intros i Hi Hc Hs. rewrite signed_image_split. pose proof len_signed_header as Hh.
  rewrite lookup_app_l by (unfold len in *; lia). unfold signed_header.
  rewrite (lookup_fields _ _ u u); [|lia|lia|lia|done|apply (sf_sum _ _ _ _ _ _ _ Hf)|apply len_entry].
  replace (_ && _) with false by lia. by replace (_ && _) with false by lia.
Qed.

Lemma signed_entry : slice (security_directory l) (security_directory l + 8) s = le_encode 4 (len u + pad) ++ le_encode 4 (Z.ldiff (length_ + 7) 7).
Proof.
  pose proof len_entry as He. pose proof (sf_sum _ _ _ _ _ _ _ Hf) as Hsum. destruct Hl as (H1 & H2 & H3 & H4 & _). pose proof len_signed_header as Hh.
  rewrite signed_image_split. rewrite slice_app_mid by lia. unfold signed_header, splice at 1. rewrite slice_app_r by (rewrite len_slice; rewrite ?len_splice; lia).
  rewrite len_slice by (rewrite ?len_splice; lia). rewrite Z.sub_0_r, Z.sub_diag, Z.add_simpl_l, <- He. apply slice_app_exact.
Qed.

Lemma signed_table : _certificate_table s (security_directory l) true = Ok (len u + pad, Z.ldiff (length_ + 7) 7).
Proof.
  pose proof signed_entry as He. pose proof len_signed as Hls. destruct Hl as (H1 & H2 & H3 & H4 & _). pose proof (sf_pad _ _ _ _ _ _ _ Hf).
  pose proof (align8_bounds length_) as [Hal _]. destruct (sf_fits _ _ _ _ _ _ _ Hf) as (_ & Hfit & Hm). unfold MAX_DER_BYTES in Hm. pose proof (len_nonneg payload).
  pose proof (sf_offset _ _ _ _ _ _ _ Hf) as Ho. pose proof (len_nonneg u).
  assert (Hs : s = slice 0 (security_directory l) s ++ le_encode 4 (len u + pad) ++ le_encode 4 (Z.ldiff (length_ + 7) 7) ++ slice_from (security_directory l + 8) s).
  { rewrite (app_assoc (le_encode 4 (len u + pad))), <- He, app_assoc, slice_join by lia. symmetry. apply slice_slice_from. lia. }
  assert (Hpre : len (slice 0 (security_directory l) s) = security_directory l) by (rewrite len_slice; lia).
  generalize dependent (slice 0 (security_directory l) s). generalize (slice_from (security_directory l + 8) s). intros post pre Hs Hpre.
  assert (E1 : u32 s (security_directory l) = Ok (len u + pad)) by (rewrite Hs, <- Hpre; apply (unpack_le_app pre _ 4); lia).
  assert (E2 : u32 s (security_directory l + 4) = Ok (Z.ldiff (length_ + 7) 7)).
  { rewrite Hs, (app_assoc pre). replace (security_directory l + 4) with (len (pre ++ le_encode 4 (len u + pad))) by (rewrite len_app, len_le_encode; lia).
    apply (unpack_le_app _ _ 4). lia. }
  unfold _certificate_table. rewrite E1, E2. cbn [mbind result_bind]. rewrite (sf_aligned _ _ _ _ _ _ _ Hf).
  replace (_ || _ || _) with false by lia. cbn [raise_if mbind result_bind]. replace (_ =? len s) with true by lia. done.
Qed.

Lemma signed_rest : slice_from (len u + pad) s = win_certificate length_ payload.
Proof.
  pose proof len_signed_header. pose proof (sf_pad _ _ _ _ _ _ _ Hf). rewrite signed_image_split, app_assoc.
  replace (len u + pad) with (len (signed_header ++ zeros pad)) by (rewrite len_app, len_zeros; lia). apply slice_from_app.
Qed.

Lemma signed_prefix : slice 0 (len u) s = signed_header.
Proof. rewrite signed_image_split, <- len_signed_header. apply slice_app_exact. Qed.

Lemma signed_gap : slice (len u) (len u + pad) s = zeros pad.
Proof.
  pose proof len_signed_header as Hh. pose proof (sf_pad _ _ _ _ _ _ _ Hf) as Hpad. rewrite signed_image_split, slice_app_r, Hh, Z.sub_diag, Z.add_simpl_l by lia.
  rewrite <- (len_zeros pad Hpad) at 1. apply slice_app_exact.
Qed.
End signed_form.

Lemma agree_prefix cs sec u s : agree cs sec u s ↔ agree cs sec u (slice 0 (len u) s) ∧ len u <= len s.
Proof.
  split.
  - intros [Hl H]. split; [|done]. split; [rewrite len_slice; pose proof (len_nonneg u); lia|]. intros i Hi Hc Hs. rewrite slice_lookup by lia. by apply H.
  - intros [[_ H] Hl]. split; [done|]. intros i Hi Hc Hs. rewrite <- H, slice_lookup by lia. done.
Qed.

(** A signed image is accepted exactly when it is the requested image, signed. *)
Lemma prove_equivalence_spec u s payload :
  prove_equivalence u s = Ok payload ↔ ∃ l sum pad length_, parse_pe u false = Ok l ∧ signed_form u l sum pad length_ payload s.
Proof.
  unfold prove_equivalence. pose proof (len_nonneg u) as Hu0. split.
  - intros H. apply bind_Ok_inv in H as (l & Hp & H). pose proof (parse_pe_layout _ _ _ Hp) as (H1 & H2 & H3 & H4 & _).
    apply bind_Ok_inv in H as (ls & Hps & H). apply bind_Ok_inv in H as ([] & Heq%require_Ok & H).
    apply bind_Ok_inv in H as ([] & Hov%raise_if_Ok & H). apply bind_Ok_inv in H as ([] & Hpre%require_Ok & H).
    apply bind_Ok_inv in H as ([] & Hz%raise_if_Ok & H). apply any_byte_zeros in Hz. bool_inv.
    apply parse_pe_inv in Hps as (optional & optional_size & fixed_size & count & table & alignment & _ & _ & _ & _ & Ht & _).
    rewrite <- H5 in Ht. unfold _certificate_table in Ht.
    apply bind_Ok_inv in Ht as (co & Hco & Ht). apply bind_Ok_inv in Ht as (cz & Hcz & Ht). apply bind_Ok_inv in Ht as ([] & Hchk & Ht).
    injection Ht as -> ->. apply bind_Ok_inv in Hchk as ([] & Ha%raise_if_Ok & Hb%raise_if_Ok). bool_inv.
    pose proof (unpack_le_range 4 s (security_directory l + 4) (certificate_size ls) ltac:(lia) ltac:(lia) Hcz) as Hczr.
    pose proof (unpack_le_range 4 s (security_directory l) (certificate_offset ls) ltac:(lia) ltac:(lia) Hco) as Hcor.
    assert (Hlp : len (slice 0 (len u) s) = len u) by (rewrite len_slice; lia).
    apply authenticode_payload_exact in H as (length_ & Hfits & Htab); [|lia|lia|lia].
    pose proof (len_win_certificate _ _ Hfits) as Hlw. rewrite <- Htab, len_slice_from in Hlw by lia. rewrite len_slice in Hz by lia.
    apply restore_agree in Hpre; [|lia..]. apply agree_fields in Hpre; [|lia..].
    exists l, (slice (checksum l) (checksum l + 4) (slice 0 (len u) s)), (certificate_offset ls - len u), length_. split; [done|].
    split; [rewrite len_slice; lia|lia|by rewrite Zplus_minus|rewrite Zplus_minus; lia|done|]. unfold signed_image.
    rewrite Zplus_minus, <- Hlw, <- Htab, <- Hz.
    assert (Hse : slice (security_directory l) (security_directory l + 8) (slice 0 (len u) s) = le_encode 4 (certificate_offset ls) ++ le_encode 4 (len s - certificate_offset ls)).
    { replace (len s - certificate_offset ls) with (certificate_size ls) by lia.
      rewrite <- (slice_app_mid _ (slice_from (len u) s)), slice_slice_from by lia. replace (security_directory l + 8) with (security_directory l + 4 + 4) by lia.
      rewrite <- (slice_join _ (security_directory l + 4)) by lia. rewrite (le_field 4 4 s (security_directory l) (certificate_offset ls)), (le_field 4 4 s (security_directory l + 4) (certificate_size ls)) by (done || lia). done. }
    rewrite <- Hse, <- Hpre, app_assoc, slice_join, slice_slice_from by lia. done.
  - intros (l & sum & pad & length_ & Hp & Hf). pose proof (parse_pe_layout _ _ _ Hp) as Hl. rewrite Hp. cbn [mbind result_bind].
    pose proof (signed_agree _ _ _ _ _ _ _ Hl Hf) as Ha. pose proof (sf_pad _ _ _ _ _ _ _ Hf). pose proof (len_signed _ _ _ _ _ _ _ Hl Hf) as Hls.
    rewrite (parse_pe_agree u s l true Hp Ha), (signed_table _ _ _ _ _ _ _ Hl Hf).
    cbn [mbind result_bind mret result_ret checksum security_directory certificate_offset certificate_size]. rewrite !Z.eqb_refl. cbn [andb require mbind result_bind].
    replace (_ <? _) with false by lia. cbn [raise_if mbind result_bind]. cbv zeta.
    assert (Hpre : foldl (copy_field u) (slice 0 (len u) s) [(checksum l, 4); (security_directory l, 8)] = u).
    { destruct Hl as (H1 & H2 & H3 & H4 & _). apply agree_prefix in Ha as [Ha Hle]. apply restore_agree; [lia|lia|lia|rewrite len_slice; lia|done]. }
    rewrite bool_decide_eq_true_2 by done. cbn [require mbind result_bind]. rewrite (signed_gap _ _ _ _ _ _ _ Hl Hf), any_zeros. cbn [raise_if mbind result_bind].
    pose proof (align8_bounds length_) as [Hal _]. destruct (sf_fits _ _ _ _ _ _ _ Hf) as (_ & Hfit & _). pose proof (len_nonneg payload).
    apply authenticode_payload_exact; [lia|lia|lia|]. exists length_. split; [apply (sf_fits _ _ _ _ _ _ _ Hf)|]. by eapply signed_rest.
Qed.

(** ** The image digest *)

Definition sections_end (l : pe_layout) : Z :=
  match last (sections l) with Some r => r.1 + r.2 | None => size_headers l end.

Definition section_bytes (data : bytes) (r : Z * Z) : bytes := slice r.1 (r.1 + r.2) data.

(** What the image digest covers: the headers without the checksum and the entry of the certificate table, the sections in file
    order, and what follows the last one. *)
Definition authenticode_content (data : bytes) (l : pe_layout) : bytes :=
  slice 0 (checksum l) data ++ slice (checksum l + 4) (security_directory l) data ++ slice (security_directory l + 8) (size_headers l) data ++
  (sections l ≫= section_bytes data) ++ slice (sections_end l) (len data) data.

Lemma hash_sections data rs hashed end_ :
  overlapping rs = false → Forall (λ r, end_ <= r.1) (take 1 rs) → Forall (λ r, 0 < r.2) rs →
  foldM (hash_section data) (hashed, end_) rs =
    Ok (hashed ++ (rs ≫= section_bytes data), match last rs with Some r => r.1 + r.2 | None => end_ end).
Proof.
  revert hashed end_. induction rs as [|[off size] rs IH]; intros hashed end_ Ho He Hp; [by rewrite app_nil_r|].
  cbn [foldM hash_section]. apply Forall_cons in He as [He _]. apply Forall_cons in Hp as [Hp Hps]. cbn [fst snd] in *.
  replace (off <? end_) with false by lia. cbn [raise_if mbind result_bind mret result_ret]. rewrite IH; [|..].
  - rewrite bind_cons, <- app_assoc. do 2 f_equal. destruct rs as [|r rs]; [done|]. rewrite last_cons_cons. destruct (last (r :: rs)) eqn:E; [done|].
    by apply last_None in E.
  - destruct rs; [done|]. cbn [overlapping] in Ho. by apply orb_false_iff in Ho as [_ Ho].
  - destruct rs as [|r rs]; [done|]. cbn [overlapping fst snd] in Ho. apply orb_false_iff in Ho as [Ho _]. bool_inv. cbn [take]. by constructor.
  - done.
Qed.

Lemma layout_sections_end l n : layout_ok l n → size_headers l <= sections_end l <= n.
Proof.
  intros (_ & _ & _ & Hn & Hr & _). unfold sections_end. destruct (last (sections l)) as [r|] eqn:E; [|lia].
  apply last_Some_elem_of in E. rewrite Forall_forall in Hr. destruct (Hr r E) as (? & ? & ?). lia.
Qed.

Lemma layout_hash data l n : layout_ok l n →
  foldM (hash_section data) (slice 0 (checksum l) data ++ slice (checksum l + 4) (security_directory l) data ++
      slice (security_directory l + 8) (size_headers l) data, size_headers l) (sections l) =
    Ok ((slice 0 (checksum l) data ++ slice (checksum l + 4) (security_directory l) data ++
      slice (security_directory l + 8) (size_headers l) data) ++ (sections l ≫= section_bytes data), sections_end l).
Proof.
  intros (_ & _ & _ & _ & Hr & Ho). apply hash_sections; [done|..].
  - apply Forall_take. eapply Forall_impl; [done|]. by intros r (? & ? & ?).
  - eapply Forall_impl; [done|]. by intros r (? & ? & ?).
Qed.

(** The digest of an image before it is signed. *)
Lemma authenticode_hash_unsigned u l : parse_pe u false = Ok l → authenticode_hash u l = Ok (sha256 (authenticode_content u l)).
Proof.
  intros Hp. pose proof (parse_pe_layout _ _ _ Hp) as Hl. pose proof (layout_sections_end _ _ Hl) as He.
  apply parse_pe_inv in Hp as (o & os & fs & c & t & a & _ & _ & _ & _ & Ht & _). unfold _certificate_table in Ht.
  apply bind_Ok_inv in Ht as (co & _ & Ht). apply bind_Ok_inv in Ht as (cz & _ & Ht). apply bind_Ok_inv in Ht as ([] & Hz%raise_if_Ok & Ht). bool_inv.
  subst. injection Ht as Hco _. unfold authenticode_hash. cbv zeta. rewrite <- Hco, (layout_hash u l _ Hl). cbn [mbind result_bind Z.eqb].
  replace (_ <? _) with false by lia. cbn [raise_if mbind result_bind]. unfold mret, result_ret. do 2 f_equal.
  unfold authenticode_content. by rewrite <- !app_assoc.
Qed.

Lemma content_agree u s l : layout_ok l (len u) → agree (checksum l) (security_directory l) u s →
  slice 0 (checksum l) s = slice 0 (checksum l) u ∧
  slice (checksum l + 4) (security_directory l) s = slice (checksum l + 4) (security_directory l) u ∧
  slice (security_directory l + 8) (size_headers l) s = slice (security_directory l + 8) (size_headers l) u ∧
  sections l ≫= section_bytes s = sections l ≫= section_bytes u ∧ slice (sections_end l) (len u) s = slice (sections_end l) (len u) u.
Proof.
  intros Hl Ha. pose proof (layout_sections_end _ _ Hl) as He. destruct Hl as (H1 & H2 & H3 & H4 & Hr & _). split_and!.
  1-3,5: apply (agree_slice _ _ _ _ Ha); lia.
  clear He. induction Hr as [|r rs Hr Hrs IH]; [done|]. rewrite !bind_cons, IH. f_equal. unfold section_bytes.
  destruct Hr as (Hr1 & Hr2 & Hr3). apply (agree_slice _ _ _ _ Ha); lia.
Qed.

(** The digest of the signed image is that of the requested one, with the zeros before the certificate table. *)
Lemma authenticode_hash_signed u l sum pad length_ payload s ls :
  parse_pe u false = Ok l → signed_form u l sum pad length_ payload s → parse_pe s true = Ok ls →
  authenticode_hash s ls = Ok (sha256 (authenticode_content u l ++ zeros pad)).
Proof.
  intros Hp Hf Hps. pose proof (parse_pe_layout _ _ _ Hp) as Hl. pose proof (signed_agree _ _ _ _ _ _ _ Hl Hf) as Ha.
  pose proof (layout_sections_end _ _ Hl) as He. pose proof (sf_pad _ _ _ _ _ _ _ Hf) as Hpad. pose proof (content_agree _ _ _ Hl Ha) as (E1 & E2 & E3 & E4 & E5).
  rewrite (parse_pe_agree u s l true Hp Ha), (signed_table _ _ _ _ _ _ _ Hl Hf) in Hps. injection Hps as <-.
  unfold authenticode_hash. cbn [checksum security_directory sections size_headers certificate_offset]. rewrite (layout_hash s l _ Hl).
  cbn [mbind result_bind]. destruct Hl as (H1 & H2 & H3 & H4 & _). replace (_ =? 0) with false by lia.
  replace (_ <? _) with false by lia. cbn [raise_if mbind result_bind]. unfold mret, result_ret. do 2 f_equal.
  rewrite E1, E2, E3, E4, <- (slice_join (sections_end l) (len u) (len u + pad) s), E5 by lia. rewrite (signed_gap _ _ _ _ _ _ _ (parse_pe_layout _ _ _ Hp) Hf).
  unfold authenticode_content. by rewrite <- !app_assoc.
Qed.

Lemma verify_embedded_digest_spec u s payload :
  verify_embedded_digest u s = Ok payload ↔
  ∃ l sum pad length_, parse_pe u false = Ok l ∧ signed_form u l sum pad length_ payload s ∧
    authenticode_facts payload = Ok (sha256 (authenticode_content u l ++ zeros pad)).
Proof.
  unfold verify_embedded_digest. split.
  - intros H. apply bind_Ok_inv in H as (p & Hp & H). apply bind_Ok_inv in H as (digest & Hd & H). apply bind_Ok_inv in H as (ls & Hls & H).
    apply bind_Ok_inv in H as (computed & Hc & H). apply bind_Ok_inv in H as ([] & Heq%require_Ok & H). bool_inv. injection H as ->.
    apply prove_equivalence_spec in Hp as (l & sum & pad & length_ & Hp & Hf). exists l, sum, pad, length_. split; [done|]. split; [done|].
    rewrite (authenticode_hash_signed _ _ _ _ _ _ _ _ Hp Hf Hls) in Hc. by injection Hc as <-; subst.
  - intros (l & sum & pad & length_ & Hp & Hf & Hd). rewrite (proj2 (prove_equivalence_spec u s payload)) by (by exists l, sum, pad, length_).
    cbn [mbind result_bind]. rewrite Hd. cbn [mbind result_bind]. pose proof (parse_pe_layout _ _ _ Hp) as Hl.
    destruct (parse_pe s true) as [ls|e] eqn:Hls.
    2:{ by rewrite (parse_pe_agree u s l true Hp (signed_agree _ _ _ _ _ _ _ Hl Hf)), (signed_table _ _ _ _ _ _ _ Hl Hf) in Hls. }
    cbn [mbind result_bind]. rewrite (authenticode_hash_signed _ _ _ _ _ _ _ _ Hp Hf Hls). cbn [mbind result_bind].
    by rewrite bool_decide_eq_true_2.
Qed.

(** C2: A signed image passes verify_embedded_digest exactly when it is the requested image with a new checksum, the
    entry of the certificate table, zeros up to an aligned offset and one certificate, and the digest in the signature
    is the Authenticode digest of the requested image and these zeros. Nothing else of the image may change. *)
Theorem verify_embedded_digest_exact u s payload :
  verify_embedded_digest u s = Ok payload ↔
  ∃ l sum pad length_, parse_pe u false = Ok l ∧ signed_form u l sum pad length_ payload s ∧
    authenticode_facts payload = Ok (sha256 (authenticode_content u l ++ zeros pad)).
Proof. apply verify_embedded_digest_spec. Qed.
