(* ===== verification/AuthenticodeFacts.v ===== *)
(** * Authenticode: the PKCS #7 message, a demonstration image, and errors *)
From S2P Require Import Prelude Bytes PyText ByteText Hashing Collections Der DerProofs Authenticode AuthenticodeProofs.

(** ** The encodings of the object identifiers that the code compares with *)

Definition signed_data_oid : bytes := tlv 0x06 [x2a; x86; x48; x86; xf7; x0d; x01; x07; x02].
Definition spc_indirect_oid : bytes := tlv 0x06 [x2b; x06; x01; x04; x01; x82; x37; x02; x01; x04].
Definition sha256_oid_bytes : bytes := tlv 0x06 [x60; x86; x48; x01; x65; x03; x04; x02; x01].
Definition rsa_oid_bytes : bytes := tlv 0x06 [x2a; x86; x48; x86; xf7; x0d; x01; x01; x01].

Lemma oid_bytes item v t : der_oid {| d_tag := 6; d_value := v; d_depth := 0 |} = Ok t → der_oid item = Ok t → der_bytes item = tlv 6 v.
Proof.
  intros Hv Hi. unfold der_bytes. rewrite (der_oid_inj _ _ _ Hi Hv). by apply der_oid_inv in Hi as (? & ? & ? & -> & _).
Qed.

Lemma oid_is_inv item t : oid_is item t = Ok true → der_oid item = Ok t.
Proof. unfold oid_is. intros H. apply bind_Ok_inv in H as (x & Hx & H). injection H as H. apply bool_decide_eq_true in H. by subst. Qed.

(** An AlgorithmIdentifier starts with its object identifier. *)
Lemma algorithm_is_inv item oids : algorithm_is item oids = Ok true →
  ∃ first rest t, t ∈ oids ∧ der_oid first = Ok t ∧ der_bytes item = tlv 0x30 (der_bytes first ++ (rest ≫= der_bytes)).
Proof.
  unfold algorithm_is, algorithm_oid. intros H. apply bind_Ok_inv in H as (t & Ht & H). injection H as H. apply bool_decide_eq_true in H.
  apply bind_Ok_inv in Ht as (items & Hc & Ht). apply children_spec in Hc as (Hv & _). destruct items as [|first rest]; [done|].
  apply bind_Ok_inv in Ht as ([] & Htag%raise_if_Ok & Ht). bool_inv. exists first, rest, t. split; [done|]. split; [done|].
  unfold der_bytes at 1. by rewrite Hv, Htag.
Qed.

Lemma algorithm_tag item oids : algorithm_is item oids = Ok true → d_tag item = 0x30.
Proof.
  unfold algorithm_is, algorithm_oid. intros H. apply bind_Ok_inv in H as (t & Ht & _). apply bind_Ok_inv in Ht as ([|first rest] & _ & Ht); [done|].
  apply bind_Ok_inv in Ht as ([] & Htag%raise_if_Ok & _). by bool_inv.
Qed.

Lemma sha256_algorithm item : algorithm_is item [OID_SHA256] = Ok true → ∃ params, der_bytes item = tlv 0x30 (sha256_oid_bytes ++ params).
Proof.
  intros (first & rest & t & Ht & Ho & ->)%algorithm_is_inv. apply list_elem_of_singleton in Ht as ->. exists (rest ≫= der_bytes).
  by rewrite (oid_bytes first [x60; x86; x48; x01; x65; x03; x04; x02; x01] OID_SHA256) by (done || by_compute).
Qed.

Lemma children_bytes item items : children item = Ok items → der_bytes item = tlv (d_tag item) (items ≫= der_bytes).
Proof. intros (Hv & _)%children_spec. unfold der_bytes. by rewrite Hv. Qed.

(** The whole of the data is one object. *)
Lemma der_read_all data item : der_read data 0 0 = Ok (item, len data) → data = der_bytes item.
Proof.
  intros (pre & post & Hd & Hp & He & _)%der_read_inv; [|done]. destruct pre; [|rewrite len_cons in Hp; pose proof (len_nonneg pre); lia].
  cbn [app] in Hd. rewrite Hd, len_app in He at 1. destruct post; [by rewrite app_nil_r in Hd|]. rewrite len_cons in He. pose proof (len_nonneg post). lia.
Qed.

(** The data starts with the object. *)
Lemma der_read_start data item end_ : der_read data 0 0 = Ok (item, end_) → ∃ post, data = der_bytes item ++ post.
Proof.
  intros (pre & post & Hd & Hp & _)%der_read_inv; [|done]. destruct pre; [by exists post|]. rewrite len_cons in Hp. pose proof (len_nonneg pre). lia.
Qed.

Lemma get_split {A} (l : list A) (i : nat) x : get l (Z.of_nat i) = Ok x → l = take i l ++ x :: drop (S i) l.
Proof. intros [_ H]%get_Ok. rewrite Nat2Z.id in H. symmetry. by apply take_drop_middle. Qed.

Lemma last_fields {A} (a b c x : A) l : last (a :: b :: c :: l ++ [x]) = Some x.
Proof. exact (last_snoc x (a :: b :: c :: l)). Qed.

(** ** The shape of the message *)

(** SignedData with exactly one digest algorithm, SHA-256. *)
Definition signed_data_shape (fields : list Der) (payload : bytes) : Prop :=
  ∃ version params content rest infos, fields = version :: content.1 :: content.2 :: rest ++ [infos] ∧
    der_bytes content.1 = tlv 0x31 (tlv 0x30 (sha256_oid_bytes ++ params)) ∧
    payload = tlv 0x30 (signed_data_oid ++ tlv 0xA0 (tlv 0x30 (fields ≫= der_bytes))).

(** SpcIndirectDataContent with a SHA-256 image digest. *)
Definition spc_shape (content digest : bytes) : Prop :=
  ∃ tag data message_tag params, content =
    tlv tag (spc_indirect_oid ++ tlv 0xA0 (tlv 0x30 (data ++ tlv message_tag (tlv 0x30 (sha256_oid_bytes ++ params) ++ tlv 0x04 digest)))).

(** One SignerInfo with a SHA-256 digest and an RSA signature. *)
Definition signer_shape (infos : bytes) : Prop :=
  ∃ tag (fields : list Der) digest_algorithm params algorithm signature, infos = tlv 0x31 (tlv tag (fields ≫= der_bytes)) ∧
    fields !! 2%nat = Some digest_algorithm ∧ der_bytes digest_algorithm = tlv 0x30 (sha256_oid_bytes ++ params) ∧
    algorithm_is algorithm OID_RSA = Ok true ∧ d_tag signature = 0x04 ∧
    ∃ third i, fields !! 3%nat = Some third ∧ i = (if d_tag third =? 0xA0 then 5%nat else 4%nat) ∧
      fields !! (i - 1)%nat = Some algorithm ∧ fields !! i = Some signature.

Lemma parse_signed_data_shape payload fields : parse_signed_data payload = Ok fields → signed_data_shape fields payload.
Proof.
  unfold parse_signed_data. intros H. apply bind_Ok_inv in H as ([outer end_] & Hr & H). apply bind_Ok_inv in H as (items & Hc & H).
  apply bind_Ok_inv in H as (inner & Hi & H). destruct items as [|content_type [|wrapper [|? ?]]]; try done.
  apply bind_Ok_inv in Hi as ([] & Ho%require_Ok & Hi). apply bind_Ok_inv in Hi as (is_signed & His & Hi).
  apply bind_Ok_inv in Hi as ([] & Hw%require_Ok & Hi). injection Hi as <-. bool_inv. subst is_signed end_.
  apply bind_Ok_inv in H as (wrapped & Hwc & H). apply bind_Ok_inv in H as (signed & Hs & H). destruct wrapped as [|sd [|? ?]]; try done.
  apply bind_Ok_inv in Hs as ([] & Hst%require_Ok & Hs). apply bind_Ok_inv in H as ([] & H4%raise_if_Ok & H).
  apply bind_Ok_inv in H as (algorithms & Ha & H). apply bind_Ok_inv in H as ([] & Hat%require_Ok & H). apply bind_Ok_inv in H as (das & Hda & H).
  apply bind_Ok_inv in H as ([] & Hsha & H). injection H as <-. bool_inv. destruct das as [|alg [|? ?]]; try done.
  apply bind_Ok_inv in Hsha as (sha & Hsha & Hok%require_Ok). subst sha. apply sha256_algorithm in Hsha as [params Hp].
  apply oid_is_inv in His. apply children_bytes in Hc, Hwc, Hs, Hda. rewrite Hat in Hda. rewrite Hst in Hs. cbn [mbind list_bind] in *. rewrite !app_nil_r in *.
  destruct signed as [|version [|a [|content rest]]]; [done..|]. apply get_Ok in Ha as [_ Ha]. injection Ha as ->.
  destruct (exists_last (l := rest)) as (rest' & infos & ->); [by intros ->|].
  exists version, params, (algorithms, content), rest', infos. cbn [fst snd]. split; [done|]. split; [by rewrite Hda, Hp|].
  apply der_read_all in Hr. rewrite Hr, Hc, Hwc, Hs. unfold signed_data_oid.
  rewrite (oid_bytes content_type [x2a; x86; x48; x86; xf7; x0d; x01; x07; x02] OID_SIGNED_DATA) by (done || by_compute). congruence.
Qed.

(** The contents octets of an SpcIndirectDataContent with a SHA-256 image digest. *)
Definition spc_content (content digest : bytes) : Prop :=
  ∃ (data : Der) message_tag params, content = der_bytes data ++ tlv message_tag (tlv 0x30 (sha256_oid_bytes ++ params) ++ tlv 0x04 digest).

Lemma image_digest_inv content digest : _image_digest content = Ok digest →
  ∃ content_type wrapper indirect, children content = Ok [content_type; wrapper] ∧ children wrapper = Ok [indirect] ∧
    der_bytes content_type = spc_indirect_oid ∧ d_tag wrapper = 0xA0 ∧ d_tag indirect = 0x30 ∧ spc_content (d_value indirect) (d_value digest).
Proof.
  unfold _image_digest. intros H. apply bind_Ok_inv in H as (items & Hc & H). apply bind_Ok_inv in H as (wrapper & Hw & H).
  destruct items as [|content_type [|w [|? ?]]]; try done. apply bind_Ok_inv in Hw as (spc & Hspc & Hw).
  apply bind_Ok_inv in Hw as ([] & Hwt%require_Ok & Hw). injection Hw as ->. bool_inv. subst spc.
  apply bind_Ok_inv in H as (wrapped & Hwc & H). apply bind_Ok_inv in H as (indirect & Hi & H). destruct wrapped as [|sd [|? ?]]; try done.
  apply bind_Ok_inv in Hi as ([] & Hst%require_Ok & Hi). destruct indirect as [|data [|message [|? ?]]]; try done.
  apply bind_Ok_inv in H as (info & Hinfo & H). destruct info as [|alg [|d [|? ?]]]; try done.
  apply bind_Ok_inv in H as (sha & Hsha & H). apply bind_Ok_inv in H as ([] & Hok%require_Ok & H). injection H as ->. bool_inv. subst sha.
  apply sha256_algorithm in Hsha as [params Hp]. apply oid_is_inv in Hspc. apply children_bytes in Hinfo. apply children_spec in Hi as [Hi _].
  cbn [mbind list_bind] in Hi, Hinfo. rewrite !app_nil_r in *. exists content_type, wrapper, sd. split_and!; [done|done| |done|done|].
  - by apply (oid_bytes content_type [x2b; x06; x01; x04; x01; x82; x37; x02; x01; x04] OID_SPC_INDIRECT_DATA); [by_compute|].
  - exists data, (d_tag message), params. rewrite Hi, Hinfo, Hp. unfold der_bytes at 2. congruence.
Qed.

Lemma image_digest_shape content digest : _image_digest content = Ok digest → spc_shape (der_bytes content) (d_value digest).
Proof.
  intros (content_type & wrapper & indirect & Hc & Hw & Ho & Htw & Hti & data & mt & params & Hd)%image_digest_inv.
  apply children_bytes in Hc, Hw. cbn [mbind list_bind] in *. rewrite !app_nil_r in *. exists (d_tag content), (der_bytes data), mt, params.
  rewrite Hc, Ho, Hw, Htw. unfold der_bytes. by rewrite Hti, Hd.
Qed.

(** The fields of an accepted SignerInfo, in their order; the signed attributes are optional. *)
Lemma check_signer_inv infos : _check_signer_info infos = Ok tt →
  ∃ info version name da params (attributes : option Der) alg signature unsigned,
    children infos = Ok [info] ∧ d_tag infos = 0x31 ∧
    children info = Ok (version :: name :: da :: option_list attributes ++ alg :: signature :: unsigned) ∧
    der_bytes da = tlv 0x30 (sha256_oid_bytes ++ params) ∧ (∀ a, attributes = Some a → d_tag a = 0xA0) ∧
    algorithm_is alg OID_RSA = Ok true ∧ d_tag alg = 0x30 ∧ d_tag signature = 0x04.
Proof.
  unfold _check_signer_info. intros H. apply bind_Ok_inv in H as (items & Hc & H). apply bind_Ok_inv in H as (signer & Hs & H).
  destruct items as [|info [|? ?]]; try done. apply bind_Ok_inv in Hs as ([] & Ht%require_Ok & Hs). bool_inv.
  apply bind_Ok_inv in H as ([] & H5%raise_if_Ok & H). apply bind_Ok_inv in H as (da & Hda & H). apply bind_Ok_inv in H as (sha & Hsha & H).
  apply bind_Ok_inv in H as ([] & Hok%require_Ok & H). apply bind_Ok_inv in H as (third & H3 & H). cbv zeta in H.
  apply bind_Ok_inv in H as ([] & Hlen%raise_if_Ok & H). apply bind_Ok_inv in H as (alg & Halg & H). apply bind_Ok_inv in H as (rsa & Hrsa & H).
  apply bind_Ok_inv in H as ([] & Hok2%require_Ok & H). apply bind_Ok_inv in H as (sig & Hsig & H). apply require_Ok in H. bool_inv. subst sha rsa.
  apply sha256_algorithm in Hsha as [params Hp]. pose proof (algorithm_tag _ _ Hrsa) as Htag.
  apply get_Ok in Hda as [_ Hda], H3 as [_ H3], Halg as [_ Halg], Hsig as [_ Hsig].
  destruct signer as [|version [|name [|da' tail]]]; try done. injection Hda as ->. destruct tail as [|third' tail]; [done|]. injection H3 as ->.
  exists info, version, name, da, params. destruct (d_tag third =? 160) eqn:E; bool_inv.
  - destruct tail as [|alg' [|sig' unsigned]]; try done. injection Halg as ->. injection Hsig as ->.
    exists (Some third), alg, sig, unsigned. split_and!; try done. by intros ? [= <-].
  - destruct tail as [|sig' unsigned]; [done|]. injection Halg as ->. injection Hsig as ->. by exists None, alg, sig, unsigned.
Qed.

Lemma check_signer_shape infos : _check_signer_info infos = Ok tt → signer_shape (der_bytes infos).
Proof.
  intros (info & version & name & da & params & attributes & alg & sig & unsigned & Hc & Ht & Hs & Hp & Hattr & Hrsa & Halg & Hsig)%check_signer_inv.
  apply children_bytes in Hc, Hs. cbn [mbind list_bind] in Hc. rewrite app_nil_r in Hc.
  exists (d_tag info), (version :: name :: da :: option_list attributes ++ alg :: sig :: unsigned), da, params, alg, sig. rewrite Hc, Hs, Ht.
  do 5 (split; [done|]). destruct attributes as [a|]; [exists a, 5%nat; by rewrite (Hattr a eq_refl)|exists alg, 4%nat; by rewrite Halg].
Qed.

(** The digest that is compared with the image comes from its place in the message: the payload of an accepted
    signature is, byte for byte, a ContentInfo of SignedData that declares exactly SHA-256, whose content is an
    SpcIndirectDataContent that holds the digest with its algorithm SHA-256, and whose last field holds one SignerInfo
    with a SHA-256 digest and an RSA signature. *)
Theorem authenticode_facts_shape payload digest :
  authenticode_facts payload = Ok digest →
  ∃ version algorithms content rest infos, signed_data_shape (version :: algorithms :: content :: rest ++ [infos]) payload ∧
    spc_shape (der_bytes content) digest ∧ signer_shape (der_bytes infos).
Proof.
  unfold authenticode_facts. intros H. apply bind_Ok_inv in H as (signed & Hs & H). apply bind_Ok_inv in H as (ci & Hci & H).
  apply bind_Ok_inv in H as (d & Hd & H). apply bind_Ok_inv in H as (si & Hsi%of_option_Ok & H). apply bind_Ok_inv in H as ([] & Hc & H).
  injection H as <-. apply parse_signed_data_shape in Hs. pose proof Hs as (version & params & [algorithms content] & rest & infos & E & _).
  cbn [fst snd] in E. apply get_Ok in Hci as [_ Hci]. rewrite E in Hci. injection Hci as <-.
  rewrite E, last_fields in Hsi. injection Hsi as <-.
  exists version, algorithms, content, rest, infos. rewrite <- E. split; [done|]. split; [by apply image_digest_shape|by apply check_signer_shape].
Qed.

(** A message with one signer and the digest [1, 2]. *)
Definition small_message : bytes :=
  let algorithm := tlv 0x30 sha256_oid_bytes in
  tlv 0x30 (signed_data_oid ++ tlv 0xA0 (tlv 0x30 (tlv 0x02 [x01] ++ tlv 0x31 algorithm ++
    tlv 0x30 (spc_indirect_oid ++ tlv 0xA0 (tlv 0x30 (tlv 0x30 [] ++ tlv 0x30 (algorithm ++ tlv 0x04 [x01; x02])))) ++
    tlv 0x31 (tlv 0x30 (tlv 0x02 [x01] ++ tlv 0x30 [] ++ algorithm ++ tlv 0x30 rsa_oid_bytes ++ tlv 0x04 [x07]))))).

Lemma authenticode_facts_shape_witness :
  authenticode_facts small_message = Ok [x01; x02] ∧
  ∃ version algorithms content rest infos, signed_data_shape (version :: algorithms :: content :: rest ++ [infos]) small_message ∧
    spc_shape (der_bytes content) [x01; x02] ∧ signer_shape (der_bytes infos).
Proof.
  assert (H : authenticode_facts small_message = Ok [x01; x02]) by by_compute. split; [exact H|].
  exact (authenticode_facts_shape small_message [x01; x02] H).
Defined.

(** ** Errors *)

Lemma foldM_oid_groups data st st' :
  foldM oid_byte st data = Ok st' → group_start st' = true → (group_start st = true → data ≠ [] ∨ subidentifiers st ≠ []) → subidentifiers st' ≠ [].
Proof.
  revert st. induction data as [|b data IH]; intros st H Hs Hne; cbn [foldM] in H.
  - injection H as <-. by destruct (Hne Hs).
  - apply bind_Ok_inv in H as (st1 & Hb & H). apply (IH st1 H Hs). intros Hg. right. unfold oid_byte in Hb.
    apply bind_Ok_inv in Hb as ([] & _ & Hb). apply bind_Ok_inv in Hb as ([] & _ & Hb). destruct (_ =? _).
    + apply bind_Ok_inv in Hb as ([] & _ & Hb). injection Hb as <-. cbn. by intros [_ ?]%app_nil.
    + by injection Hb as <-.
Qed.

Lemma raises_der_oid item : raises is_value_error (der_oid item).
Proof.
  unfold der_oid. apply raises_bind; [raises_auto|]. intros [] Hv%raise_if_Ok. bool_inv. apply raises_bind; [raises_auto|]. intros st Hst.
  apply raises_bind; [raises_auto|]. intros [] Hg%require_Ok. apply raises_bind; [|done].
  assert (Hne : subidentifiers st ≠ []) by (eapply foldM_oid_groups; [done|done|auto]). destruct (subidentifiers st) as [|n ns]; [done|].
  destruct (get_in_range (n :: ns) 0) as (x & -> & _); [|done]. rewrite len_cons. pose proof (len_nonneg ns). lia.
Qed.

Lemma raises_algorithm_oid item : raises is_value_error (algorithm_oid item).
Proof. unfold algorithm_oid. apply raises_bind; [apply raises_children|]. intros items _. destruct items; raises_auto. apply raises_der_oid. Qed.

Lemma raises_oid_is item t : raises is_value_error (oid_is item t).
Proof. unfold oid_is. apply raises_bind; [apply raises_der_oid|done]. Qed.
Lemma raises_algorithm_is item ts : raises is_value_error (algorithm_is item ts).
Proof. unfold algorithm_is. apply raises_bind; [apply raises_algorithm_oid|done]. Qed.
Lemma raises_get {A} P (l : list A) i : 0 <= i < len l → raises P (get l i).
Proof. intros Hi. by destruct (get_in_range l i Hi) as (x & -> & _). Qed.
#[export] Hint Resolve raises_der_oid raises_algorithm_oid raises_oid_is raises_algorithm_is : raises.

Lemma raises_parse_signed_data payload : raises is_value_error (parse_signed_data payload).
Proof.
  unfold parse_signed_data. apply raises_bind; [by apply raises_der_read|]. intros [outer end_] _. apply raises_bind; [apply raises_children|]. intros items _.
  apply raises_bind; [raises_auto|]. intros inner _. apply raises_bind; [raises_auto|]. intros wrapped _. apply raises_bind; [raises_auto|]. intros signed _.
  apply raises_bind; [raises_auto|]. intros [] H4%raise_if_Ok. bool_inv. apply raises_bind; [apply raises_get; lia|]. intros. raises_auto.
Qed.

Lemma raises_authenticode_facts payload : raises is_value_error (authenticode_facts payload).
Proof.
  unfold authenticode_facts. apply raises_bind; [apply raises_parse_signed_data|].
  intros signed (version & params & [algorithms content] & rest & infos & -> & _)%parse_signed_data_shape. cbn [fst snd].
  apply raises_bind; [apply raises_get; rewrite !len_cons; pose proof (len_nonneg (rest ++ [infos])); lia|]. intros ci _.
  apply raises_bind; [unfold _image_digest; raises_auto|]. intros d _. rewrite last_fields. cbn [of_option mbind result_bind].
  apply raises_bind; [|done]. unfold _check_signer_info. apply raises_bind; [raises_auto|]. intros items _. apply raises_bind; [raises_auto|]. intros signer _.
  apply raises_bind; [raises_auto|]. intros [] H5%raise_if_Ok. bool_inv. apply raises_bind; [apply raises_get; lia|]. intros da _.
  apply raises_bind; [raises_auto|]. intros sha _. apply raises_bind; [raises_auto|]. intros [] _. apply raises_bind; [apply raises_get; lia|]. intros third _. cbv zeta.
  apply raises_bind; [raises_auto|]. intros [] Hl%raise_if_Ok. bool_inv.
  apply raises_bind; [apply raises_get; destruct (_ =? _); lia|]. intros alg _. apply raises_bind; [raises_auto|]. intros rsa _.
  apply raises_bind; [raises_auto|]. intros [] _. apply raises_bind; [apply raises_get; destruct (_ =? _); lia|]. intros sig _. raises_auto.
Qed.

(** The exceptions of the image checks. *)
Definition image_error (e : exn) : Prop := is_value_error e ∨ e = StructError.

Lemma raises_weaken {A} (P Q : exn → Prop) (m : result A) : (∀ e, P e → Q e) → raises P m → raises Q m.
Proof. destruct m; [done|]. intros H. apply H. Qed.

Lemma raises_unpack_struct n raw off : raises image_error (unpack_le n raw off).
Proof. unfold unpack_le. destruct (_ <=? _); [done|by right]. Qed.

Lemma image_value_error fmt args : image_error (ValueError fmt args).
Proof. left. apply value_error. Qed.
#[export] Hint Resolve raises_unpack_struct image_value_error : raises core.

Lemma raises_parse_pe data signed : raises image_error (parse_pe data signed).
Proof.
  unfold parse_pe, _pe_optional_header, _security_directory, _header_layout, _section_ranges, section_range, _certificate_table. raises_auto.
Qed.

Lemma raises_payload_loop fuel data end_ cursor certificates :
  end_ <= cursor + Z.of_nat fuel → raises image_error (payload_loop fuel data end_ cursor certificates).
Proof.
  revert cursor certificates. induction fuel as [|fuel IH]; intros cursor certificates Hf; cbn [payload_loop]; (apply raises_if; intros Hlt; [done|]); bool_inv; [lia|].
  apply raises_bind; [raises_auto|]. intros [] _. apply raises_bind; [raises_auto|]. intros length_ _. do 2 (apply raises_bind; [raises_auto|]; intros ? _).
  apply raises_bind; [raises_auto|]. intros [] Hl%raise_if_Ok. apply raises_bind; [raises_auto|]. intros [] _. bool_inv.
  apply raises_bind.
  - unfold _der_object. apply raises_bind; [eapply raises_weaken; [by left|by apply raises_der_read]|]. intros [item e] _. raises_auto.
  - intros certificate _. cbv zeta. apply raises_bind; [raises_auto|]. intros [] _. apply IH. pose proof (align8_bounds length_). lia.
Qed.

(** C30: Checking a signed image fails only with ValueError or struct.error, and always ends; struct.error does occur: an
    image that ends right after its COFF header reads two bytes past its end, and report_errors, which turns the errors
    of an invalid input into a SECURE_BOOT_INVALID message, lets this exception through. *)
Theorem image_errors :
  (∀ unsigned_data signed_data, raises image_error (verify_embedded_digest unsigned_data signed_data)) ∧
  (let truncated := blit "MZ" ++ zeros 58 ++ le_encode 4 64 ++ blit "PE" ++ zeros 4 ++ le_encode 2 1 ++ zeros 16 in
   len truncated = 88 ∧ parse_pe truncated false = Err StructError ∧ report_errors StructError = false).
Proof.
  split; [|by split_and!; by_compute]. intros u s. unfold verify_embedded_digest, prove_equivalence.
  apply raises_bind.
  - apply raises_bind; [apply raises_parse_pe|]. intros lu _. apply raises_bind; [apply raises_parse_pe|]. intros ls Hls.
    do 2 (apply raises_bind; [raises_auto|]; intros [] _). cbv zeta. do 2 (apply raises_bind; [raises_auto|]; intros [] _).
    unfold authenticode_payload. cbv zeta. apply raises_bind; [apply raises_payload_loop; lia|]. intros [cursor certificates] _. raises_auto.
  - intros payload _. apply raises_bind; [eapply raises_weaken; [by left|apply raises_authenticode_facts]|]. intros digest _.
    apply raises_bind; [apply raises_parse_pe|]. intros l _. apply raises_bind; [unfold authenticode_hash, hash_section; raises_auto|]. intros h _. raises_auto.
Qed.
