(* ===== verification/RsaSignature.v ===== *)
(** * The signature check of [mkosi/private/secure_boot_signer.py]

    [verify_signature] and its helpers: the RSA key of a certificate, the signed attributes, and PKCS #1 version 1.5. [l[i]] on a
    list that is too short raises [IndexError], and an unpacking of the wrong length [ValueError]. *)
From S2P Require Import Prelude Bytes PyText ByteText Hashing Collections Der Authenticode.

Definition _OID_RSA_ENCRYPTION : text := lit "1.2.840.113549.1.1.1".
Definition _OID_CONTENT_TYPE : text := lit "1.2.840.113549.1.9.3".
Definition _OID_MESSAGE_DIGEST : text := lit "1.2.840.113549.1.9.4".
Definition _SHA256_DIGEST_INFO : bytes := default [] (unhex (lit "3031300d060960864801650304020105000420")).

(** [a, b = l]. *)
Definition unpack2 {A} (l : list A) : result (A * A) :=
  match l with [a; b] => Ok (a, b) | _ => Err (ValueError "expected two values to unpack" []) end.

(** The issuer, the serial number and the RSA modulus and exponent. *)
Definition _certificate_key (certificate : bytes) : result (Der * Der * Z * Z) :=
  '(outer, _) ← der_read certificate 0 0;
  fields ← children outer;
  first ← get fields 0;
  tbs ← children first;
  version ← get tbs 0;
  let tbs := if d_tag version =? 0xA0 then slice_from 1 tbs else tbs in
  info ← get tbs 5;
  parts ← children info;
  '(algorithm, public_key) ← unpack2 parts;
  oid ← algorithm_oid algorithm;
  require (bool_decide (oid = _OID_RSA_ENCRYPTION) && bool_decide (slice 0 1 (d_value public_key) = [x00]))
    (ValueError "the certificate does not hold an RSA public key" []);;
  '(key, _) ← der_read (slice_from 1 (d_value public_key)) 0 0;
  numbers ← children key;
  '(modulus, exponent) ← unpack2 numbers;
  issuer ← get tbs 2;
  serial ← get tbs 0;
  mret (issuer, serial, be_decode (d_value modulus), be_decode (d_value exponent)).

(** [values.setdefault(key, []).append(x)]. *)
Definition setdefault_append {K V} `{EqDecision K} (key : K) (x : V) (d : dict K (list V)) : dict K (list V) :=
  dset key (default [] (dget key d) ++ [x]) d.

Definition add_attribute (values : dict text (list (list Der))) (attribute : Der) : result (dict text (list (list Der))) :=
  parts ← children attribute;
  '(oid, attribute_values) ← unpack2 parts;
  key ← der_oid oid;
  found ← children attribute_values;
  mret (setdefault_append key found values).

Definition _signed_attributes_digest (attributes : Der) (content_digest : bytes) : result bytes :=
  items ← children attributes;
  values ← foldM add_attribute [] items;
  require match default [] (dget _OID_MESSAGE_DIGEST values) with [[digest]] => bool_decide (d_value digest = content_digest) | _ => false end
    (ValueError "the signed messageDigest does not match the Authenticode content" []);;
  spc ← match default [] (dget _OID_CONTENT_TYPE values) with
    | [content_type] => first ← get content_type 0; oid_is first OID_SPC_INDIRECT_DATA
    | _ => mret false
    end;
  require spc (ValueError "the signed contentType is not SpcIndirectDataContent" []);;
  encoded ← _encode_der 0x31 (d_value attributes);
  mret (sha256 encoded).

(** [pow(base, exponent, modulus)]. *)
Definition py_pow (base exponent modulus : Z) : result Z :=
  if modulus =? 0 then Err (ValueError "pow() 3rd argument cannot be 0" []) else Ok (base ^ exponent mod modulus).

(** The encoded message of PKCS #1 version 1.5 for a SHA-256 digest. *)
Definition expected_message (size : Z) (digest : bytes) : bytes :=
  let suffix := [x00] ++ _SHA256_DIGEST_INFO ++ digest in
  [x00; x01] ++ replicate (Z.to_nat (size - 2 - len suffix)) xff ++ suffix.

Definition not_verified : exn := ValueError "the signature does not verify with --certificate; is --key its private key?" [].

Definition verify_signature (payload certificate : bytes) : result unit :=
  signed ← parse_signed_data payload;
  content_info ← get signed 2;
  content_fields ← children content_info;
  wrapper ← get content_fields 1;
  contents ← children wrapper;
  content ← get contents 0;
  infos ← of_option IndexError (last signed);
  signers ← children infos;
  info ← get signers 0;
  signer ← children info;
  '(issuer, serial, modulus, exponent) ← _certificate_key certificate;
  name ← get signer 1;
  identifier ← children name;
  require (bool_decide (((λ item, (d_tag item, d_value item)) <$> identifier) = [(d_tag issuer, d_value issuer); (d_tag serial, d_value serial)]))
    (ValueError "the signature does not name --certificate as its signer" []);;
  let digest := sha256 (d_value content) in
  attributes ← get signer 3;
  digest ← (if d_tag attributes =? 0xA0 then _signed_attributes_digest attributes digest else mret digest);
  signature ← get signer (if d_tag attributes =? 0xA0 then 5 else 4);
  let size := (bit_length modulus + 7) / 8 in
  let expected := expected_message size digest in
  require (len (d_value signature) =? size) not_verified;;
  power ← py_pow (be_decode (d_value signature)) exponent modulus;
  require (bool_decide (be_encode (Z.to_nat size) power = expected)) not_verified.
