(* ===== verification/RsaProofs.v ===== *)
(** * Signed requests: what an accepted signature covers *)
From S2P Require Import Prelude Bytes PyText ByteText Hashing Collections Der DerProofs Authenticode AuthenticodeProofs AuthenticodeFacts RsaSignature.

(** ** PKCS #1 version 1.5 *)

Definition modulus_size (n : Z) : Z := (bit_length n + 7) / 8.

(** The DigestInfo of a SHA-256 digest, and the message that PKCS #1 pads it to. *)
Definition digest_info (digest : bytes) : bytes := tlv 0x30 (tlv 0x30 (sha256_oid_bytes ++ tlv 0x05 []) ++ tlv 0x04 digest).
Definition padded_message (padding : nat) (digest : bytes) : bytes := [x00; x01] ++ replicate padding xff ++ [x00] ++ digest_info digest.

(** The signature of a digest with the public key: the integer power is the padded message of the size of the modulus. *)
Definition rsa_signature (n e : Z) (signature digest : bytes) : Prop :=
  0 < n ∧ len signature = modulus_size n ∧ ∃ padding, len (padded_message padding digest) = modulus_size n ∧
    be_decode signature ^ e mod n = be_decode (padded_message padding digest).

Lemma digest_info_prefix digest : len digest = 32 → _SHA256_DIGEST_INFO ++ digest = digest_info digest.
Proof.
  intros Hl. unfold digest_info. assert (H4 : tlv 0x04 digest = [x04; x20] ++ digest) by (unfold tlv; by rewrite Hl). rewrite H4, app_assoc.
  set (head := tlv 0x30 (sha256_oid_bytes ++ tlv 0x05 []) ++ [x04; x20]). assert (Hh : len head = 17) by by_compute.
  unfold tlv. rewrite len_app, Hh, Hl. change (17 + 32) with 49. rewrite app_assoc. replace _SHA256_DIGEST_INFO with (Z2b 0x30 :: der_length 49 ++ head) by by_compute. done.
Qed.

Lemma expected_padded size digest : len digest = 32 → ∃ padding, expected_message size digest = padded_message padding digest.
Proof. intros Hl. eexists. unfold expected_message, padded_message. rewrite digest_info_prefix by done. reflexivity. Qed.

Lemma rsa_check n e signature digest power :
  0 <= n → len digest = 32 → len signature = modulus_size n → py_pow (be_decode signature) e n = Ok power →
  be_encode (Z.to_nat (modulus_size n)) power = expected_message (modulus_size n) digest → rsa_signature n e signature digest.
Proof.
  intros Hn Hd Hl Hp He. unfold py_pow in Hp. destruct (n =? 0) eqn:E; [done|]. bool_inv. injection Hp as <-.
  assert (Hs : 0 <= modulus_size n) by (rewrite <- Hl; apply len_nonneg). pose proof (Z.mod_pos_bound (be_decode signature ^ e) n).
  split; [lia|]. split; [done|]. destruct (expected_padded (modulus_size n) digest Hd) as [padding Hpad]. exists padding.
  rewrite <- Hpad, <- He, len_be_encode, Z2Nat.id by done. split; [done|].
  symmetry. apply be_decode_encode. rewrite Z2Nat.id by done. split; [lia|]. pose proof (proj1 (bytes_bound n (modulus_size n) ltac:(lia) Hs)). unfold modulus_size in *. lia.
Qed.

(** ** Signed attributes *)

Definition message_digest_oid : bytes := tlv 0x06 [x2a; x86; x48; x86; xf7; x0d; x01; x09; x04].

Definition content_type_oid : bytes := tlv 0x06 [x2a; x86; x48; x86; xf7; x0d; x01; x09; x03].

(** A set of attributes holds one with this object identifier and these encoded values. *)
Definition has_attribute (attributes oid values : bytes) : Prop :=
  ∃ (before after : list Der) tag values_tag,
    attributes = (before ≫= der_bytes) ++ tlv tag (oid ++ tlv values_tag values) ++ (after ≫= der_bytes).

(** What the signature is computed over: the digest of the content when there are no signed attributes; otherwise that of the
    attributes, which then hold the digest of the content and the type of the content. *)
Inductive covers (content : bytes) : option bytes → bytes → Prop :=
  | covers_content : covers content None (sha256 content)
  | covers_attributes attributes digest_tag (more : list Der) :
      has_attribute attributes message_digest_oid (tlv digest_tag (sha256 content)) →
      has_attribute attributes content_type_oid (spc_indirect_oid ++ (more ≫= der_bytes)) →
      covers content (Some attributes) (sha256 (tlv 0x31 attributes)).

Lemma covers_length content attributes digest : covers content attributes digest → len digest = 32.
Proof. by intros [|? ? ? ?]; apply Sha256.len_sha256. Qed.

(** Every list of values comes from an attribute. *)
Definition from_attributes (items : list Der) (values : dict text (list (list Der))) : Prop :=
  ∀ key vs v, dget key values = Some vs → v ∈ vs →
    ∃ attribute oid set, attribute ∈ items ∧ children attribute = Ok [oid; set] ∧ der_oid oid = Ok key ∧ children set = Ok v.

Lemma add_attribute_from items values attribute values' :
  from_attributes items values → add_attribute values attribute = Ok values' → from_attributes (items ++ [attribute]) values'.
Proof.
  intros Hf H. unfold add_attribute in H. apply bind_Ok_inv in H as (parts & Hp & H). apply bind_Ok_inv in H as ([oid set] & Hu & H).
  apply bind_Ok_inv in H as (key & Hk & H). apply bind_Ok_inv in H as (found & Hs & H). injection H as <-.
  destruct parts as [|a [|b [|? ?]]]; try done. injection Hu as -> ->. intros key' vs v Hget Hin. unfold setdefault_append in Hget.
  assert (Hold : ∀ vs, dget key' values = Some vs → v ∈ vs → ∃ attribute' oid set, attribute' ∈ items ++ [attribute] ∧ children attribute' = Ok [oid; set] ∧ der_oid oid = Ok key' ∧ children set = Ok v).
  { intros vs' Hg Hi. destruct (Hf key' vs' v Hg Hi) as (a & o & st & Ha & Hr). exists a, o, st. split; [set_solver|done]. }
  rewrite dget_dset in Hget. destruct (decide (key' = key)) as [->|Hne].
  - injection Hget as <-. apply elem_of_app in Hin as [Hin|Hin].
    + destruct (dget key values) as [vs|] eqn:E; [by eapply Hold|by apply elem_of_nil in Hin].
    + apply list_elem_of_singleton in Hin as ->. exists attribute, oid, set. split; [set_solver|done].
  - by eapply Hold.
Qed.

Lemma attributes_from items values : foldM add_attribute [] items = Ok values → from_attributes items values.
Proof.
  assert (Hgen : ∀ items' done_ values0, from_attributes done_ values0 → foldM add_attribute values0 items' = Ok values → from_attributes (done_ ++ items') values).
  { induction items' as [|a items' IH]; intros done_ values0 Hf H; cbn [foldM] in H; [injection H as <-; by rewrite app_nil_r|].
    apply bind_Ok_inv in H as (v & Ha & H). rewrite (cons_middle a), app_assoc. eapply IH; [|done]. by eapply add_attribute_from. }
  apply (Hgen items [] []). intros key vs v H. done.
Qed.

(** The encoding of an attribute that was read. *)
Lemma from_attributes_has items values key vs v attributes value :
  children attributes = Ok items → from_attributes items values → dget key values = Some vs → v ∈ vs →
  der_oid {| d_tag := 6; d_value := value; d_depth := 0 |} = Ok key → has_attribute (d_value attributes) (tlv 6 value) (v ≫= der_bytes).
Proof.
  intros [Hi _]%children_spec Hv Hget Hin Hkey. destruct (Hv _ _ v Hget Hin) as (attribute & oid & set & Ha & Hc & Ho & Hs).
  apply list_elem_of_split in Ha as (before & after & ->). exists before, after, (d_tag attribute), (d_tag set).
  rewrite Hi, bind_app, bind_cons. apply children_bytes in Hc, Hs. cbn [mbind list_bind] in Hc. rewrite app_nil_r in Hc.
  by rewrite Hc, Hs, (oid_bytes oid value key Hkey Ho).
Qed.

Lemma signed_attributes_cover attributes content d :
  len (d_value attributes) <= MAX_DER_BYTES → _signed_attributes_digest attributes (sha256 content) = Ok d →
  covers content (Some (d_value attributes)) d.
Proof.
  intros Hm H. unfold _signed_attributes_digest in H. apply bind_Ok_inv in H as (items & Hi & H). apply bind_Ok_inv in H as (values & Hv%attributes_from & H).
  apply bind_Ok_inv in H as ([] & Hd%require_Ok & H). apply bind_Ok_inv in H as (spc & Hspc & H). apply bind_Ok_inv in H as ([] & ->%require_Ok & H).
  apply bind_Ok_inv in H as (encoded & He & H). injection H as <-. rewrite encode_der_tlv in He by (done || lia). injection He as <-.
  destruct (dget _OID_MESSAGE_DIGEST values) as [vs|] eqn:E; [|done]. change (default [] (Some vs)) with vs in Hd. destruct vs as [|v [|? ?]]; [done| |by destruct v as [|? [|? ?]]].
  destruct v as [|digest [|? ?]]; [done| |done]. bool_inv.
  destruct (dget _OID_CONTENT_TYPE values) as [ts|] eqn:Et; [|done]. change (default [] (Some ts)) with ts in Hspc. destruct ts as [|[|first more] [|? ?]]; try done.
  apply bind_Ok_inv in Hspc as (? & [= <-] & Ho%oid_is_inv). apply (covers_attributes _ _ (d_tag digest) more).
  - rewrite <- Hd. replace (tlv _ _) with ([digest] ≫= der_bytes) by (cbn [mbind list_bind]; by rewrite app_nil_r).
    eapply from_attributes_has; [done|done|exact E|by left|by_compute].
  - unfold spc_indirect_oid. rewrite <- (oid_bytes first [x2b; x06; x01; x04; x01; x82; x37; x02; x01; x04] OID_SPC_INDIRECT_DATA) by (done || by_compute).
    change (der_bytes first ++ _) with ((first :: more) ≫= der_bytes). eapply from_attributes_has; [done|done|exact Et|by left|by_compute].
Qed.

(** ** The certificate *)

Lemma be_decode_nonneg l : 0 <= be_decode l.
Proof. apply be_decode_range. Qed.

(** A certificate with this issuer and serial number and an RSA key, byte for byte; the version field is optional. *)
Definition certificate_of (certificate : bytes) (issuer serial : Der) (n e : Z) : Prop :=
  ∃ tag tbs_tag (version : option Der) (signature_algorithm validity subject : Der) info_tag params bits_tag key_tag (modulus exponent : Der) key_rest
    (extensions more : list Der) trailing,
    certificate = tlv tag (tlv tbs_tag ((option_list version ≫= der_bytes) ++ der_bytes serial ++ der_bytes signature_algorithm ++ der_bytes issuer ++
      der_bytes validity ++ der_bytes subject ++
      tlv info_tag (tlv 0x30 (rsa_oid_bytes ++ params) ++ tlv bits_tag (x00 :: tlv key_tag (der_bytes modulus ++ der_bytes exponent) ++ key_rest)) ++
      (extensions ≫= der_bytes)) ++ (more ≫= der_bytes)) ++ trailing ∧
    match version with Some v => d_tag v = 0xA0 | None => d_tag serial ≠ 0xA0 end ∧
    n = be_decode (d_value modulus) ∧ e = be_decode (d_value exponent).

Lemma certificate_of_nonneg certificate issuer serial n e : certificate_of certificate issuer serial n e → 0 <= n.
Proof. intros H. destruct H as (? & ? & ? & ? & ? & ? & ? & ? & ? & ? & ? & ? & ? & ? & ? & ? & _ & _ & -> & _). apply be_decode_nonneg. Qed.

Lemma slice_from_tail {A} (x : A) l : slice_from 1 (x :: l) = l.
Proof. unfold slice_from. rewrite len_cons, Z.min_l by (pose proof (len_nonneg l); lia). done. Qed.

Lemma slice_head {A} (x : A) l : slice 0 1 l = [x] → l = x :: slice_from 1 l.
Proof.
  intros H. destruct l as [|y l]; [by rewrite slice_take_drop in H by lia|]. rewrite slice_from_tail. rewrite slice_take_drop in H by lia. by injection H as ->.
Qed.

(** The fields before the key, with the optional version. *)
Lemma tbs_fields (tbs : list Der) (first info issuer serial : Der) :
  get tbs 0 = Ok first →
  let fields := if d_tag first =? 0xA0 then slice_from 1 tbs else tbs in
  get fields 5 = Ok info → get fields 2 = Ok issuer → get fields 0 = Ok serial →
  ∃ (version : option Der) a v s extensions, tbs = option_list version ++ serial :: a :: issuer :: v :: s :: info :: extensions ∧
    match version with Some v => d_tag v = 0xA0 | None => d_tag serial ≠ 0xA0 end.
Proof.
  intros [_ Hf]%get_Ok fields [_ H5]%get_Ok [_ H2]%get_Ok [_ H0]%get_Ok.
  assert (∃ a v s extensions, fields = serial :: a :: issuer :: v :: s :: info :: extensions) as (a & v & s & extensions & E).
  { destruct fields as [|x0 [|x1 [|x2 [|x3 [|x4 [|x5 extensions]]]]]]; try done. injection H5 as ->. injection H2 as ->. injection H0 as ->. by exists x1, x3, x4, extensions. }
  destruct tbs as [|x tbs]; [done|]. injection Hf as ->. unfold fields in E. destruct (d_tag first =? 0xA0) eqn:Et; bool_inv.
  - exists (Some first), a, v, s, extensions. by rewrite <- E, slice_from_tail.
  - exists None, a, v, s, extensions. rewrite E. split; [done|]. injection E as -> _. done.
Qed.

Lemma certificate_key_inv certificate issuer serial n e :
  _certificate_key certificate = Ok (issuer, serial, n, e) → certificate_of certificate issuer serial n e.
Proof.
  unfold _certificate_key. intros H. apply bind_Ok_inv in H as ([outer i] & Ho & H). apply bind_Ok_inv in H as (fields & Hf & H).
  apply bind_Ok_inv in H as (tbs_item & Hi & H). apply bind_Ok_inv in H as (tbs & Ht & H). apply bind_Ok_inv in H as (first & Hfirst & H). cbv zeta in H.
  apply bind_Ok_inv in H as (info & Hinfo & H). apply bind_Ok_inv in H as (parts & Hp & H). apply bind_Ok_inv in H as ([algorithm public_key] & Hu & H).
  apply bind_Ok_inv in H as (oid & Hoid & H). apply bind_Ok_inv in H as ([] & Hr%require_Ok & H). bool_inv.
  apply bind_Ok_inv in H as ([key j] & Hk & H). apply bind_Ok_inv in H as (numbers & Hn & H). apply bind_Ok_inv in H as ([modulus exponent] & Hm & H).
  apply bind_Ok_inv in H as (issuer' & Hissuer & H). apply bind_Ok_inv in H as (serial' & Hserial & H). injection H as -> -> <- <-.
  destruct (tbs_fields tbs first info issuer serial Hfirst Hinfo Hissuer Hserial) as (version & a & v & s & extensions & -> & Hv).
  destruct parts as [|? [|? [|? ?]]]; try done. injection Hu as -> ->. destruct numbers as [|? [|? [|? ?]]]; try done. injection Hm as -> ->.
  destruct fields as [|tbs' more]; [done|]. apply get_Ok in Hi as [_ Hi]. injection Hi as ->.
  apply der_read_start in Ho as [trailing Ho]. apply der_read_start in Hk as [key_rest Hk].
  assert (Halg : algorithm_is algorithm [_OID_RSA_ENCRYPTION] = Ok true).
  { unfold algorithm_is. rewrite Hoid. cbn. f_equal. apply bool_decide_eq_true. subst oid. by left. }
  apply algorithm_is_inv in Halg as (o & ps & t & Ht' & Ho' & Halg). apply list_elem_of_singleton in Ht' as ->.
  rewrite (oid_bytes o [x2a; x86; x48; x86; xf7; x0d; x01; x01; x01] _OID_RSA_ENCRYPTION) in Halg by (done || by_compute).
  assert (Hbits : d_value public_key = x00 :: der_bytes key ++ key_rest).
  { rewrite <- Hk. by apply slice_head. }
  apply children_bytes in Hf, Ht, Hp, Hn. cbn [mbind list_bind] in Hf, Hp, Hn. rewrite ?app_nil_r in *.
  exists (d_tag outer), (d_tag tbs_item), version, a, v, s, (d_tag info), (ps ≫= der_bytes), (d_tag public_key), (d_tag key), modulus, exponent, key_rest, extensions, more, trailing.
  split; [|done]. rewrite Ho, Hf, Ht, bind_app. cbn [mbind list_bind]. rewrite Hp, Halg. replace (der_bytes public_key) with (tlv (d_tag public_key) (x00 :: der_bytes key ++ key_rest)) by (unfold der_bytes at 2; by rewrite Hbits). by rewrite Hn.
Qed.

(** ** The signed message *)

(** A SignerInfo with this encoded name of the signer, these signed attributes, if any, and this signature. *)
Definition signer_info (info identifier : bytes) (attributes : option bytes) (signature : bytes) : Prop :=
  ∃ tag name_tag (version : Der) digest_params algorithm (unsigned : list Der),
    info = tlv tag (der_bytes version ++ tlv name_tag identifier ++ tlv 0x30 (sha256_oid_bytes ++ digest_params) ++
      from_option (tlv 0xA0) [] attributes ++ tlv 0x30 algorithm ++ tlv 0x04 signature ++ (unsigned ≫= der_bytes)).

(** SignedData with this content and one signer, byte for byte; between them there can be certificates. *)
Definition signed_message (payload content info : bytes) : Prop :=
  ∃ (version : Der) params tag (certificates : list Der),
    payload = tlv 0x30 (signed_data_oid ++ tlv 0xA0 (tlv 0x30 (der_bytes version ++ tlv 0x31 (tlv 0x30 (sha256_oid_bytes ++ params)) ++
      tlv tag (spc_indirect_oid ++ tlv 0xA0 (tlv 0x30 content)) ++ (certificates ≫= der_bytes) ++ tlv 0x31 info))).

(** The message is signed by the certificate: the signature verifies with its key, and the signer is named by its issuer and
    serial number. *)
Definition signed_by (payload content certificate : bytes) : Prop :=
  ∃ info issuer serial attributes signature n e digest,
    signed_message payload content info ∧ signer_info info (der_bytes issuer ++ der_bytes serial) attributes signature ∧
    certificate_of certificate issuer serial n e ∧ covers content attributes digest ∧ rsa_signature n e signature digest.

Lemma child_length item items child : children item = Ok items → child ∈ items → len (d_value child) <= MAX_DER_BYTES.
Proof.
  intros (Hv & _ & _ & _ & Hm)%children_spec (before & after & ->)%list_elem_of_split. rewrite Hv, bind_app, bind_cons, !len_app in Hm.
  unfold der_bytes at 2 in Hm. rewrite len_tlv in Hm. pose proof (len_nonneg (before ≫= der_bytes)). pose proof (len_nonneg (after ≫= der_bytes)).
  pose proof (len_der_length _ (len_nonneg (d_value child))). lia.
Qed.

(** The pairs of tags and values of a list determine its encoding. *)
Lemma named_bytes (identifier names : list Der) :
  ((λ item, (d_tag item, d_value item)) <$> identifier) = ((λ item, (d_tag item, d_value item)) <$> names) → identifier ≫= der_bytes = names ≫= der_bytes.
Proof.
  revert names. induction identifier as [|i identifier IH]; intros [|n names] H; try done. injection H as Ht Hv H. rewrite !bind_cons, (IH names H).
  unfold der_bytes at 1 3. by rewrite Ht, Hv.
Qed.

(** The attributes that the check reads, the digest it compares, and the signature. *)
Lemma signer_covers version name da (attributes : option Der) alg signature unsigned third content d sig :
  let signer := version :: name :: da :: option_list attributes ++ alg :: signature :: unsigned in
  (∀ a, attributes = Some a → d_tag a = 0xA0 ∧ len (d_value a) <= MAX_DER_BYTES) → d_tag alg = 0x30 → get signer 3 = Ok third →
  (if d_tag third =? 0xA0 then _signed_attributes_digest third (sha256 content) else mret (sha256 content)) = Ok d →
  get signer (if d_tag third =? 0xA0 then 5 else 4) = Ok sig → covers content (d_value <$> attributes) d ∧ sig = signature.
Proof.
  intros signer Ha Halg [_ H3]%get_Ok Hd [_ Hs]%get_Ok. destruct attributes as [a|].
  - injection H3 as <-. destruct (Ha a eq_refl) as [Ht Hl]. rewrite Ht in *. injection Hs as <-. split; [|done]. by apply signed_attributes_cover.
  - injection H3 as <-. rewrite Halg in *. injection Hs as <-. injection Hd as <-. split; [constructor|done].
Qed.

Lemma verify_signature_inv payload certificate fields digest ci infos :
  parse_signed_data payload = Ok fields → get fields 2 = Ok ci → last fields = Some infos → _image_digest ci = Ok digest → _check_signer_info infos = Ok tt →
  verify_signature payload certificate = Ok tt → ∃ content, spc_content content (d_value digest) ∧ signed_by payload content certificate.
Proof.
  intros Hp Hci Hinfos Hd Hc H. unfold verify_signature in H. rewrite Hp in H. cbn [mbind result_bind] in H. rewrite Hci, Hinfos in H. cbn [mbind result_bind of_option] in H.
  apply image_digest_inv in Hd as (content_type & wrapper & indirect & Hci' & Hw & Hspco & Hwt & Hit & Hspc). rewrite Hci' in H. cbn [mbind result_bind] in H.
  change (get [content_type; wrapper] 1) with (Ok wrapper) in H. cbn [mbind result_bind] in H. rewrite Hw in H. cbn [mbind result_bind] in H.
  change (get [indirect] 0) with (Ok indirect) in H. cbn [mbind result_bind] in H.
  apply check_signer_inv in Hc as (info & version & name & da & params & attributes & alg & sig & unsigned & Hinfo & Hst & Hsigner & Hda & Hattr & _ & Halg & Hsig).
  rewrite Hinfo in H. cbn [mbind result_bind] in H. change (get [info] 0) with (Ok info) in H. cbn [mbind result_bind] in H. rewrite Hsigner in H. cbn [mbind result_bind] in H.
  apply bind_Ok_inv in H as ([[[issuer serial] n] e] & Hkey%certificate_key_inv & H). apply bind_Ok_inv in H as (name' & Hname & H).
  apply get_Ok in Hname as [_ Hname]. injection Hname as <-. apply bind_Ok_inv in H as (identifier & Hid & H).
  apply bind_Ok_inv in H as ([] & Hnames%require_Ok & H). bool_inv. cbv zeta in H.
  apply bind_Ok_inv in H as (third & H3 & H). apply bind_Ok_inv in H as (d & Hcov & H). apply bind_Ok_inv in H as (signature & Hs & H).
  apply bind_Ok_inv in H as ([] & Hlen%require_Ok & H). apply bind_Ok_inv in H as (power & Hpow & H). apply require_Ok in H. bool_inv.
  destruct (signer_covers version name da attributes alg sig unsigned third (d_value indirect) d signature) as [Hcovers ->]; [|done..|].
  { intros a Ea. split; [by apply Hattr|]. eapply child_length; [exact Hsigner|]. subst attributes. cbn. set_solver. }
  exists (d_value indirect). split; [done|]. exists (der_bytes info), issuer, serial, (d_value <$> attributes), (d_value sig), n, e, d. split_and!; [..|done|done|].
  - apply parse_signed_data_shape in Hp as (v & ps & [algorithms content] & rest & infos' & -> & Hda' & ->). cbn [fst snd] in *.
    rewrite last_fields in Hinfos. injection Hinfos as ->. apply get_Ok in Hci as [_ Hci]. injection Hci as ->.
    exists v, ps, (d_tag ci), rest. rewrite !bind_cons, bind_app, Hda'. apply children_bytes in Hci', Hw, Hinfo. cbn [mbind list_bind] in *. rewrite !app_nil_r in *.
    rewrite Hci', Hinfo, Hspco, Hw, Hwt, Hst. by replace (der_bytes indirect) with (tlv 0x30 (d_value indirect)) by (unfold der_bytes; by rewrite Hit).
  - exists (d_tag info), (d_tag name), version, params, (d_value alg), unsigned. apply children_bytes in Hsigner, Hid. rewrite Hsigner, !bind_cons, bind_app, !bind_cons, Hid, Hda.
    rewrite (named_bytes identifier [issuer; serial] Hnames). cbn [mbind list_bind]. rewrite app_nil_r. replace (der_bytes alg) with (tlv 0x30 (d_value alg)) by (unfold der_bytes; by rewrite Halg).
    replace (der_bytes sig) with (tlv 0x04 (d_value sig)) by (unfold der_bytes; by rewrite Hsig). destruct attributes as [a|]; [|done].
    change (option_list (Some a) ≫= der_bytes) with (der_bytes a ++ []). rewrite app_nil_r. unfold der_bytes at 4. by rewrite (Hattr a eq_refl).
  - eapply rsa_check; [by eapply certificate_of_nonneg|by eapply covers_length|done|done|done].
Qed.

(** The requested image with a signature by the certificate: the payload is a message whose content holds the SHA-256
    Authenticode digest of the requested image. *)
Definition authentic_image (unsigned_data signed_data payload certificate : bytes) : Prop :=
  ∃ l sum pad length_ content,
    parse_pe unsigned_data false = Ok l ∧ signed_form unsigned_data l sum pad length_ payload signed_data ∧
    spc_content content (sha256 (authenticode_content unsigned_data l ++ zeros pad)) ∧ signed_by payload content certificate.

Lemma checked_image unsigned_data signed_data payload certificate :
  verify_embedded_digest unsigned_data signed_data = Ok payload → verify_signature payload certificate = Ok tt →
  authentic_image unsigned_data signed_data payload certificate.
Proof.
  intros H Hs. apply verify_embedded_digest_spec in H as (l & sum & pad & length_ & Hp & Hf & Hfacts). exists l, sum, pad, length_.
  unfold authenticode_facts in Hfacts. apply bind_Ok_inv in Hfacts as (fields & Hfields & Hfacts). apply bind_Ok_inv in Hfacts as (ci & Hci & Hfacts).
  apply bind_Ok_inv in Hfacts as (digest & Hd & Hfacts). apply bind_Ok_inv in Hfacts as (infos & Hinfos%of_option_Ok & Hfacts). apply bind_Ok_inv in Hfacts as ([] & Hc & Hfacts).
  injection Hfacts as Hdv. destruct (verify_signature_inv payload certificate fields digest ci infos Hfields Hci Hinfos Hd Hc Hs) as (content & Hr).
  exists content. by rewrite <- Hdv.
Qed.

(** C3: A signed binary that the reference signer writes is signed by the certificate: the image is the requested one with
    a signature, and that signature's payload is, byte for byte, SignedData with one signer whose content holds the SHA-256
    Authenticode digest of the requested image; the signer's name in it is the issuer and the serial number of the certificate,
    and the RSA power of its signature with the certificate's key is the PKCS #1 encoding of the digest of that content or,
    when it has signed attributes, of these attributes, which hold the digest and the type of the content. *)
Theorem signed_request_authentic unsigned_data signed_data payload certificate :
  verify_embedded_digest unsigned_data signed_data = Ok payload → verify_signature payload certificate = Ok tt →
  ∃ l sum pad length_ content info issuer serial attributes signature n e digest,
    parse_pe unsigned_data false = Ok l ∧ signed_form unsigned_data l sum pad length_ payload signed_data ∧
    spc_content content (sha256 (authenticode_content unsigned_data l ++ zeros pad)) ∧
    signed_message payload content info ∧ signer_info info (der_bytes issuer ++ der_bytes serial) attributes signature ∧
    certificate_of certificate issuer serial n e ∧ covers content attributes digest ∧ rsa_signature n e signature digest.
Proof.
  intros H Hs. destruct (checked_image _ _ _ _ H Hs) as (l & sum & pad & length_ & content & Hl & Hf & Hc & info & issuer & serial & attributes & signature & n & e & digest & Hr).
  by exists l, sum, pad, length_, content, info, issuer, serial, attributes, signature, n, e, digest.
Qed.

(** ** A demonstration: a small image, signed with a 512-bit key *)

(** A 32-bit image with one section of twenty bytes. *)
Definition demo_unsigned : bytes := Eval vm_compute in
  foldl (λ image field, splice field.1 (field.1 + len field.2) field.2 image) (zeros 512 ++ blit "twenty bytes of data")
    [(0, blit "MZ"); (60, le_encode 4 64); (64, blit "PE"); (70, le_encode 2 1); (84, le_encode 2 136); (88, le_encode 2 0x10B);
     (124, le_encode 4 512); (148, le_encode 4 512); (180, le_encode 4 5); (240, le_encode 4 20); (244, le_encode 4 512)].

Definition demo_layout : pe_layout :=
  {| certificate_offset := 0; certificate_size := 0; checksum := 152; security_directory := 216; sections := [(512, 20)]; size_headers := 512 |}.

Definition demo_issuer : bytes := tlv 0x30 (tlv 0x0C (blit "issuer")).
Definition demo_serial : bytes := tlv 0x02 [x05].
Definition demo_modulus : Z := 9429618132202878975056278911385706937717319706940230840076470595231363344572704937117298940188335339798786622617132375997706512731872047341026215691562993.
Definition demo_signature : Z := 2877876846760563367625513312456542963468305701394853578969704956688774860498780348902342761823867252716887377863946350656508361297558875723135015722159773.

Definition demo_certificate : bytes := Eval vm_compute in
  let key := tlv 0x30 (tlv 0x02 (x00 :: be_encode 64 demo_modulus) ++ tlv 0x02 [x03]) in
  tlv 0x30 (tlv 0x30 (tlv 0xA0 (tlv 0x02 [x02]) ++ demo_serial ++ tlv 0x30 [] ++ demo_issuer ++ tlv 0x30 [] ++ tlv 0x30 [] ++
    tlv 0x30 (tlv 0x30 rsa_oid_bytes ++ tlv 0x03 (x00 :: key)))).

Definition demo_spc : bytes :=
  tlv 0x30 [] ++ tlv 0x30 (tlv 0x30 sha256_oid_bytes ++ tlv 0x04 (sha256 (authenticode_content demo_unsigned demo_layout ++ zeros 4))).

Definition demo_attributes : bytes :=
  tlv 0x30 (tlv 0x06 [x2a; x86; x48; x86; xf7; x0d; x01; x09; x03] ++ tlv 0x31 spc_indirect_oid) ++
  tlv 0x30 (message_digest_oid ++ tlv 0x31 (tlv 0x04 (sha256 demo_spc))).

Definition demo_signer_info : bytes :=
  tlv 0x30 (tlv 0x02 [x01] ++ tlv 0x30 (demo_issuer ++ demo_serial) ++ tlv 0x30 sha256_oid_bytes ++ tlv 0xA0 demo_attributes ++
    tlv 0x30 rsa_oid_bytes ++ tlv 0x04 (be_encode 64 demo_signature)).

Definition demo_payload : bytes := Eval vm_compute in
  tlv 0x30 (signed_data_oid ++ tlv 0xA0 (tlv 0x30 (tlv 0x02 [x01] ++ tlv 0x31 (tlv 0x30 sha256_oid_bytes) ++
    tlv 0x30 (spc_indirect_oid ++ tlv 0xA0 (tlv 0x30 demo_spc)) ++ tlv 0x31 demo_signer_info))).

Definition demo_signed : bytes := Eval vm_compute in signed_image demo_unsigned demo_layout [x01; x02; x03; x04] 4 (8 + len demo_payload) demo_payload.

Lemma signed_request_authentic_witness :
  ∃ payload, verify_embedded_digest demo_unsigned demo_signed = Ok payload ∧ verify_signature payload demo_certificate = Ok tt ∧
  ∃ l sum pad length_ content info issuer serial attributes signature n e digest,
    parse_pe demo_unsigned false = Ok l ∧ signed_form demo_unsigned l sum pad length_ payload demo_signed ∧
    spc_content content (sha256 (authenticode_content demo_unsigned l ++ zeros pad)) ∧
    signed_message payload content info ∧ signer_info info (der_bytes issuer ++ der_bytes serial) attributes signature ∧
    certificate_of demo_certificate issuer serial n e ∧ covers content attributes digest ∧ rsa_signature n e signature digest.
Proof.
  exists demo_payload. assert (H : verify_embedded_digest demo_unsigned demo_signed = Ok demo_payload) by by_compute.
  assert (Hs : verify_signature demo_payload demo_certificate = Ok tt) by by_compute. split; [exact H|]. split; [exact Hs|].
  exact (signed_request_authentic demo_unsigned demo_signed demo_payload demo_certificate H Hs).
Defined.
