(* ===== verification/SecureBoot.v ===== *)
(** * Secure Boot signing requests: [mkosi/private/secure_boot.py], with [esp_files.validate_esp_path]

    Requests and the import of a signed binary as functions of the contents of the files. OpenSSL is a parameter: [x509] gives
    the DER re-encoding of a certificate and [smime] the signer certificate of a verified message, each [None] when the command
    fails. Requests are decoded JSON documents; [float_repr] prints a float. The scratch files of the commands are not modelled. *)
From S2P Require Import Prelude Bytes PyText ByteText Hashing Collections Json Der DerProofs Authenticode AuthenticodeProofs AuthenticodeFacts RsaSignature RsaProofs.

Definition REQUEST_FORMAT : text := lit "mkosi-secure-boot-signing-request-v3".
Definition SIGNED_FORMAT : text := lit "mkosi-secure-boot-signed-binary-v3".
Definition UKI_CONTEXT : text := lit "uefi-secure-boot-uki".
Definition ESP_FILE_CONTEXT : text := lit "uefi-secure-boot-esp-file".
Definition ALGORITHM : text := lit "authenticode-sha256".

(** [_COMPONENT.fullmatch]. *)
Definition ascii_alnum (c : Z) : bool := ascii_lower c || ascii_upper c || ascii_digit c.
Definition _COMPONENT (t : text) : bool :=
  match t with
  | c :: t => ascii_alnum c && forallb (λ c, ascii_alnum c || (c =? 46) || (c =? 95) || (c =? 43) || (c =? 45)) t
  | [] => false
  end.

Definition validate_esp_path (path : text) : result text :=
  raise_if ((255 <? len path) || negb (forallb _COMPONENT (split_on 47 path)))
    (ValueError "ESP path {!r} must be a relative path of letters, digits, '.', '_', '+' and '-' components" [AText path]);;
  mret path.

(** ** JSON documents *)

(** The truth value of a decoded document. *)
Definition truthy (j : json) : bool :=
  match j with
  | JNull => false
  | JBool b => b
  | JInt z => negb (z =? 0)
  | JFloat (Finite m _) => negb (m =? 0)
  | JFloat _ => true
  | JStr t => negb (bool_decide (t = []))
  | JList l => match l with [] => false | _ => true end
  | JObj items => match items with [] => false | _ => true end
  end.

Section printing.
  Context (float_repr : pyfloat → text).

(** Sorts the items of every object. *)
Fixpoint sort_json (j : json) : json :=
  match j with
  | JList l => JList (List.map sort_json l)
  | JObj items => JObj (sort_items (List.map (λ i, (fst i, sort_json (snd i))) items))
  | _ => j
  end.

(** [json.dumps(j, separators=(",", ":"))]. *)
Fixpoint compact (j : json) : text :=
  match j with
  | JNull => lit "null"
  | JBool b => lit (if b then "true" else "false")
  | JInt z => dec z
  | JFloat f => float_repr f
  | JStr t => json_str t
  | JList l => lit "[" ++ join (lit ",") (List.map compact l) ++ lit "]"
  | JObj items => lit "{" ++ join (lit ",") (List.map (λ i, json_str (fst i) ++ lit ":" ++ compact (snd i)) items) ++ lit "}"
  end.

(** [json.dumps(j, indent=2)]. *)
Fixpoint indented (level : nat) (j : json) : text :=
  match j with
  | JNull => lit "null"
  | JBool b => lit (if b then "true" else "false")
  | JInt z => dec z
  | JFloat f => float_repr f
  | JStr t => json_str t
  | JList [] => lit "[]"
  | JList l => lit "[" ++ newline (S level) ++ join (lit "," ++ newline (S level)) (List.map (indented (S level)) l) ++ newline level ++ lit "]"
  | JObj [] => lit "{}"
  | JObj items =>
      lit "{" ++ newline (S level) ++
      join (lit "," ++ newline (S level)) (List.map (λ i, json_str (fst i) ++ lit ": " ++ indented (S level) (snd i)) items) ++
      newline level ++ lit "}"
  end.

(** The text of the file. *)
Definition write_json (document : json) : text := indented 0 (sort_json document) ++ [10].

Definition request_digest (document : json) : text := hex (sha256 (utf8_encode (compact (sort_json document) ++ [10]))).
End printing.

(** ** Certificates *)

Section openssl.
  Context (x509 : bytes → option bytes).

Definition _openssl_der (source : bytes) : result bytes :=
  canonical ← of_option CalledProcessError (x509 source);
  raise_if (bool_decide (canonical = []) || (MAX_DER_BYTES <? len canonical)) (ValueError "OpenSSL returned an invalid X.509 certificate size" []);;
  mret canonical.

Definition canonical_certificate (der : bytes) : result bytes :=
  recast (λ e, bool_decide (e = CalledProcessError)) (λ _, ValueError "invalid X.509 certificate: {}" [])
    (canonical ← _openssl_der der; isolated_certificate_der canonical).

(** ** Requests *)

Definition _context (esp_path : json) : text := if truthy esp_path then ESP_FILE_CONTEXT else UKI_CONTEXT.

Definition request_document (certificate_sha256 : text) (esp_path : text) (unsigned_sha256 : text) : json :=
  JObj [(lit "certificate_sha256", JStr certificate_sha256); (lit "context", JStr (_context (JStr esp_path))); (lit "esp_path", JStr esp_path);
        (lit "format_version", JStr REQUEST_FORMAT); (lit "signature_algorithm", JStr ALGORITHM); (lit "unsigned_sha256", JStr unsigned_sha256)].

(** The normalized certificate and the request that are written. *)
Definition create_request (algorithm esp_path : text) (unsigned certificate : bytes) : result (bytes * json) :=
  require (bool_decide (algorithm = ALGORITHM)) (ValueError "unsupported signing algorithm" []);;
  (if bool_decide (esp_path = []) then mret tt else validate_esp_path esp_path;; mret tt);;
  parse_pe unsigned false;;
  der ← isolated_certificate_der certificate;
  normalized_certificate ← canonical_certificate der;
  mret (normalized_certificate, request_document (hex (sha256 normalized_certificate)) esp_path (hex (sha256 unsigned))).

Definition _REQUEST_FIELDS : list text :=
  lit <$> ["certificate_sha256"; "context"; "esp_path"; "format_version"; "signature_algorithm"; "unsigned_sha256"]%string.

(** [set(request) == _REQUEST_FIELDS]. *)
Definition has_fields (fields : list text) (items : list (text * json)) : bool :=
  forallb (λ k, bool_decide (k ∈ fields)) (dkeys items) && forallb (λ k, dmem k items) fields.

(** [j[key]] of a document that is known to be an object with the key. *)
Definition field (key : string) (items : list (text * json)) : json := jget (lit key) items.

Context (float_repr : pyfloat → text).

(** Returns the items of the request. *)
Definition validate_request (request : json) (recorded_request_digest : text) : result (list (text * json)) :=
  match request with
  | JObj items =>
      require (has_fields _REQUEST_FIELDS items && is_str (field "format_version" items) REQUEST_FORMAT) (ValueError "invalid signing request schema" []);;
      require (bool_decide (recorded_request_digest = request_digest float_repr request)) (ValueError "signing request digest does not match request" []);;
      require (is_str (field "context" items) (_context (field "esp_path" items)) && is_str (field "signature_algorithm" items) ALGORITHM)
        (ValueError "wrong signing context or algorithm" []);;
      mret items
  | _ => Err (ValueError "invalid signing request schema" [])
  end.

Definition _load_request (request : json) (recorded : text) (unsigned : bytes) : result (list (text * json) * text) :=
  let recorded_request_digest := strip recorded in
  items ← validate_request request recorded_request_digest;
  require (is_str (field "unsigned_sha256" items) (hex (sha256 unsigned))) (ValueError "unsigned binary no longer matches its request" []);;
  mret (items, recorded_request_digest).

(** ** Imports *)

(** The loop of [_select_signed] over candidates that can be read: only a [ValueError] moves on to the next one. *)
Fixpoint select_loop (unsigned_data : bytes) (candidates : list bytes) (errors : list exn) : result (bytes * bytes) :=
  match candidates with
  | [] =>
      match errors with
      | [error] => Err error
      | _ => Err (ValueError "none of the {} signed binaries is the requested binary: {}" [AInt (len errors)])
      end
  | signed_data :: candidates =>
      match verify_embedded_digest unsigned_data signed_data with
      | Ok payload => Ok (signed_data, payload)
      | Err (ValueError fmt args) => select_loop unsigned_data candidates (errors ++ [ValueError fmt args])
      | Err e => Err e
      end
  end.

Definition _select_signed (unsigned_data : bytes) (signed : list bytes) : result (bytes * bytes) := select_loop unsigned_data signed [].

Context (smime : bytes → bytes → option bytes).

Definition _verify_signer (payload expected_certificate : bytes) : result unit :=
  signer ← of_option CalledProcessError (smime payload (certificate_pem expected_certificate));
  der ← isolated_certificate_der signer;
  verified_signer ← canonical_certificate der;
  require (bool_decide (verified_signer = expected_certificate)) (ValueError "verified SignerInfo certificate does not match request" []).

(** The signed binary and the metadata that are written. *)
Definition verify (request : json) (recorded : text) (unsigned certificate : bytes) (signed : list bytes) : result (bytes * json) :=
  '(items, recorded_request_digest) ← _load_request request recorded unsigned;
  der ← isolated_certificate_der certificate;
  expected_certificate ← canonical_certificate der;
  let fingerprint := hex (sha256 expected_certificate) in
  require (is_str (field "certificate_sha256" items) fingerprint) (ValueError "signer certificate does not match request" []);;
  '(signed, payload) ← _select_signed unsigned signed;
  _verify_signer payload expected_certificate;;
  mret (signed, JObj [(lit "certificate_sha256", JStr fingerprint); (lit "esp_path", field "esp_path" items); (lit "format_version", JStr SIGNED_FORMAT);
    (lit "request_digest", JStr recorded_request_digest); (lit "signed_sha256", JStr (hex (sha256 signed)));
    (lit "unsigned_sha256", field "unsigned_sha256" items); (lit "verification", JStr (lit "embedded-authenticode-sha256"))]).
End openssl.

(** ** What is requested is what is imported *)

Section sound.
  Context (x509 : bytes → option bytes) (float_repr : pyfloat → text) (smime : bytes → bytes → option bytes).

(** The fields of an accepted request. *)
Definition request_for (request : json) (unsigned certificate : bytes) : Prop :=
  ∃ items, request = JObj items ∧ has_fields _REQUEST_FIELDS items = true ∧ field "format_version" items = JStr REQUEST_FORMAT ∧
    field "context" items = JStr (_context (field "esp_path" items)) ∧ field "signature_algorithm" items = JStr ALGORITHM ∧
    field "unsigned_sha256" items = JStr (hex (sha256 unsigned)) ∧ field "certificate_sha256" items = JStr (hex (sha256 certificate)).

Lemma select_loop_sound u candidates errors signed payload :
  select_loop u candidates errors = Ok (signed, payload) → signed ∈ candidates ∧ verify_embedded_digest u signed = Ok payload.
Proof.
  revert errors. induction candidates as [|c candidates IH]; intros errors H; cbn [select_loop] in H; [by destruct errors as [|? [|? ?]]|].
  destruct (verify_embedded_digest u c) as [p|e] eqn:E; [injection H as <- <-; split; [by left|done]|].
  destruct e; try done. apply IH in H as [? ?]. split; [by right|done].
Qed.

(** The candidates before the selected one are not the requested binary. *)
Lemma select_loop_complete u before signed payload after errors :
  verify_embedded_digest u signed = Ok payload → (∀ c, c ∈ before → ∃ fmt args, verify_embedded_digest u c = Err (ValueError fmt args)) →
  select_loop u (before ++ signed :: after) errors = Ok (signed, payload).
Proof.
  intros Hs. revert errors. induction before as [|c before IH]; intros errors Hb; cbn [app select_loop]; [by rewrite Hs|].
  destruct (Hb c ltac:(by left)) as (fmt & args & ->). apply IH. intros c' Hc. apply Hb. by right.
Qed.

(** C27: An import writes a signed binary only for its request: the request has its fields, its digest is the recorded
    one, it names the unsigned binary and the certificate by their SHA-256; the binary is one of the candidates and is the
    unsigned binary plus a signature over it; the signer that OpenSSL verified is the certificate; and the metadata
    records the digests of what is written. *)
Theorem import_sound request recorded unsigned certificate candidates signed metadata :
  verify x509 float_repr smime request recorded unsigned certificate candidates = Ok (signed, metadata) →
  ∃ der canonical payload signer signer_der,
    isolated_certificate_der certificate = Ok der ∧ canonical_certificate x509 der = Ok canonical ∧ request_for request unsigned canonical ∧
    strip recorded = request_digest float_repr request ∧ signed ∈ candidates ∧ verify_embedded_digest unsigned signed = Ok payload ∧
    smime payload (certificate_pem canonical) = Some signer ∧ isolated_certificate_der signer = Ok signer_der ∧
    canonical_certificate x509 signer_der = Ok canonical ∧
    ∃ items, metadata = JObj items ∧ field "signed_sha256" items = JStr (hex (sha256 signed)) ∧ field "unsigned_sha256" items = JStr (hex (sha256 unsigned)) ∧
      field "certificate_sha256" items = JStr (hex (sha256 canonical)) ∧ field "request_digest" items = JStr (request_digest float_repr request).
Proof.
  unfold verify, _load_request. intros H. apply bind_Ok_inv in H as ([items recorded'] & Hl & H). cbv zeta in Hl.
  apply bind_Ok_inv in Hl as (items' & Hv & Hl). apply bind_Ok_inv in Hl as ([] & Hu%require_Ok & Hl). injection Hl as -> <-.
  unfold validate_request in Hv. destruct request as [| | | | | |its]; try done. apply bind_Ok_inv in Hv as ([] & Hf%require_Ok & Hv).
  apply bind_Ok_inv in Hv as ([] & Hd%require_Ok & Hv). apply bind_Ok_inv in Hv as ([] & Hc%require_Ok & Hv). injection Hv as ->. bool_inv.
  apply bind_Ok_inv in H as (der & Hder & H). apply bind_Ok_inv in H as (canonical & Hcan & H). cbv zeta in H.
  apply bind_Ok_inv in H as ([] & Hcert%require_Ok & H). apply bind_Ok_inv in H as ([s payload] & Hsel & H).
  apply bind_Ok_inv in H as ([] & Hsig & H). injection H as -> <-. apply select_loop_sound in Hsel as [Hin Hver].
  unfold _verify_signer in Hsig. apply bind_Ok_inv in Hsig as (signer & Hsm%of_option_Ok & Hsig). apply bind_Ok_inv in Hsig as (sder & Hsd & Hsig).
  apply bind_Ok_inv in Hsig as (vs & Hvs & Hsig). apply require_Ok in Hsig. bool_inv. subst vs.
  repeat match goal with H : is_str _ _ = true |- _ => apply is_str_inv in H end.
  exists der, canonical, payload, signer, sder. split_and!; try done; [by exists items|]. eexists. split; [done|]. by rewrite <- Hd.
Qed.

(** A created request is accepted, with the digest that is written beside it. *)
Lemma created_request_valid algorithm esp_path unsigned certificate normalized document :
  create_request x509 algorithm esp_path unsigned certificate = Ok (normalized, document) →
  request_for document unsigned normalized ∧ ∃ items, validate_request float_repr document (request_digest float_repr document) = Ok items.
Proof.
  unfold create_request. intros H. apply bind_Ok_inv in H as ([] & _ & H). apply bind_Ok_inv in H as ([] & _ & H). apply bind_Ok_inv in H as (? & _ & H).
  apply bind_Ok_inv in H as (der & _ & H). apply bind_Ok_inv in H as (n & _ & H). injection H as -> <-. unfold request_document. split.
  - eexists. split; [done|]. split; [by_compute|]. done.
  - eexists. unfold validate_request. rewrite (bool_decide_eq_true_2 (_ = request_digest _ _)) by done.
    replace (has_fields _REQUEST_FIELDS _) with true by by_compute. replace (is_str (field "format_version" _) _) with true by by_compute.
    cbn [andb require mbind result_bind]. replace (is_str (field "signature_algorithm" _) _) with true by by_compute.
    replace (is_str (field "context" _) _) with true; [done|]. change (field "esp_path" _) with (JStr esp_path).
    change (field "context" _) with (JStr (_context (JStr esp_path))). cbn [is_str]. by rewrite bool_decide_eq_true_2.
Qed.
End sound.

(** OpenSSL that re-encodes a certificate as it is and verifies every message, on the demonstration image. *)
Definition demo_request : json := Eval vm_compute in request_document (hex (sha256 demo_certificate)) [] (hex (sha256 demo_unsigned)).
Definition demo_metadata : json := Eval vm_compute in
  JObj [(lit "certificate_sha256", JStr (hex (sha256 demo_certificate))); (lit "esp_path", JStr []); (lit "format_version", JStr SIGNED_FORMAT);
    (lit "request_digest", JStr (request_digest (λ _, []) demo_request)); (lit "signed_sha256", JStr (hex (sha256 demo_signed)));
    (lit "unsigned_sha256", JStr (hex (sha256 demo_unsigned))); (lit "verification", JStr (lit "embedded-authenticode-sha256"))].

Lemma import_sound_witness :
  verify Some (λ _, []) (λ _ pem, Some pem) demo_request (request_digest (λ _, []) demo_request ++ [10]) demo_unsigned (certificate_pem demo_certificate)
    [demo_unsigned; demo_signed] = Ok (demo_signed, demo_metadata) ∧ request_for demo_request demo_unsigned demo_certificate.
Proof.
  assert (H : verify Some (λ _, []) (λ _ pem, Some pem) demo_request (request_digest (λ _, []) demo_request ++ [10]) demo_unsigned
    (certificate_pem demo_certificate) [demo_unsigned; demo_signed] = Ok (demo_signed, demo_metadata)) by by_compute.
  split; [exact H|]. destruct (import_sound _ _ _ _ _ _ _ _ _ _ H) as (der & canonical & payload & signer & signer_der & Hd & Hc & Hr & _).
  assert (Hd' : isolated_certificate_der (certificate_pem demo_certificate) = Ok demo_certificate) by by_compute. rewrite Hd' in Hd. injection Hd as <-.
  assert (Hc' : canonical_certificate Some demo_certificate = Ok demo_certificate) by by_compute. rewrite Hc' in Hc. injection Hc as <-. exact Hr.
Defined.
