(* ===== verification/SecureBootSigner.v ===== *)
(** * The reference signer: [mkosi/private/secure_boot_signer.py]

    The signing manifest, the validation of its entries, the command lines of the signing tools, and the signed binaries. JSON
    documents are given as the pairs that the decoder reads, duplicates included; [read] gives the contents of a file below the
    execution root and [run] the signed.efi that a command leaves in its work directory for the certificate.pem and unsigned.efi
    there. The output directory is a map from names to contents. *)
From S2P Require Import Prelude Bytes PyText ByteText Hashing Collections Json PosixPath Der DerProofs Authenticode AuthenticodeProofs AuthenticodeFacts RsaSignature RsaProofs SecureBoot.

Definition MANIFEST_FORMAT : text := lit "mkosi-secure-boot-signing-manifest-v1".
Definition _ENTRY_FIELDS : list text :=
  lit <$> ["certificate"; "context"; "esp_path"; "label"; "request"; "request_digest"; "signed_name"; "unsigned_binary"]%string.
Definition _SIGNED_NAME : text → bool := _COMPONENT.
Definition _SYSTEMD_SBSIGN : text := lit "/usr/lib/systemd/systemd-sbsign".

Record Request := { r_label : text; r_signed_name : text; r_unsigned_data : bytes }.

(** [object_pairs_hook=reject_duplicates]: no object has a key twice. *)
Fixpoint distinct_keys (j : json) : bool :=
  match j with
  | JList l => forallb distinct_keys l
  | JObj items => bool_decide (NoDup (List.map fst items)) && forallb (λ i, distinct_keys (snd i)) items
  | _ => true
  end.

Definition load_json (pairs : json) : result json :=
  require (distinct_keys pairs) (ValueError "{} has duplicate JSON keys" []);; mret pairs.

Definition is_string (j : json) : bool := match j with JStr _ => true | _ => false end.
(** The text of a field of an entry whose fields are strings. *)
Definition entry_text (key : string) (items : list (text * json)) : text := match field key items with JStr t => t | _ => [] end.

Definition check_entry (names : list text) (entry : json) : result (list text) :=
  match entry with
  | JObj items =>
      require (has_fields _ENTRY_FIELDS items) (ValueError "signing manifest entries must have exactly the fields {}" [ATexts _ENTRY_FIELDS]);;
      require (forallb (λ i, is_string (snd i)) items) (ValueError "signing manifest fields of {} must be strings" []);;
      let name := entry_text "signed_name" items in
      raise_if (negb (_SIGNED_NAME name) || bool_decide (name ∈ names)) (ValueError "invalid or duplicate signed file name {!r}" [AText name]);;
      mret (name :: names)
  | _ => Err (ValueError "signing manifest entries must have exactly the fields {}" [ATexts _ENTRY_FIELDS])
  end.

Definition load_manifest (pairs : json) : result (list json) :=
  manifest ← load_json pairs;
  match manifest with
  | JObj items =>
      require (is_str (field "format_version" items) MANIFEST_FORMAT) (ValueError "{} is not a {} signing manifest" [AText MANIFEST_FORMAT]);;
      match field "requests" items with
      | JList ((_ :: _) as entries) =>
          require (has_fields (lit <$> ["format_version"; "requests"]%string) items)
            (ValueError "signing manifest must hold exactly format_version and a nonempty requests array" []);;
          foldM check_entry [] entries;;
          mret entries
      | _ => Err (ValueError "signing manifest must hold exactly format_version and a nonempty requests array" [])
      end
  | _ => Err (ValueError "{} is not a {} signing manifest" [AText MANIFEST_FORMAT])
  end.

(** [find_execroot] of the resolved path of the manifest: its parents, the nearest first. *)
Fixpoint execroot_from (n : nat) (p : pure_path) : option pure_path :=
  match n with
  | O => None
  | S n => let parent := pp_parent p in if bool_decide (pp_name parent = lit "bazel-out") then Some (pp_parent parent) else execroot_from n parent
  end.
Definition find_execroot (manifest : pure_path) : result pure_path :=
  of_option (ValueError "{} is not below bazel-out; pass --execroot" [AText (pp_str manifest)]) (execroot_from (length (pp_tail manifest)) manifest).

Definition resolve_path (execroot : pure_path) (path : text) : result pure_path :=
  raise_if (bool_decide (path = []) || pp_is_absolute (PurePosixPath path)) (ValueError "manifest path {!r} must be relative to the execution root" [AText path]);;
  mret (pp_div execroot (PurePosixPath path)).

Section signer.
  Context (float_repr : pyfloat → text) (json_pairs : text → result json) (read : pure_path → result bytes).

Definition read_utf8 (p : pure_path) : result text := data ← read p; t ← of_option UnicodeError (utf8_decode data); mret (universal_newlines t).

Definition validate_entry (execroot : pure_path) (entry : json) (certificate : bytes) : result Request :=
  match entry with
  | JObj items =>
      let label := entry_text "label" items in
      request_path ← resolve_path execroot (entry_text "request" items);
      request_text ← read_utf8 request_path;
      pairs ← json_pairs request_text;
      request ← load_json pairs;
      digest_path ← resolve_path execroot (entry_text "request_digest" items);
      recorded ← read_utf8 digest_path;
      fields ← validate_request float_repr request (strip recorded);
      require (is_str (field "esp_path" fields) (entry_text "esp_path" items) && is_str (field "context" fields) (entry_text "context" items))
        (ValueError "{}: request does not match the esp_path and context of the manifest" [AText label]);;
      unsigned_path ← resolve_path execroot (entry_text "unsigned_binary" items);
      unsigned_data ← read unsigned_path;
      require (is_str (field "unsigned_sha256" fields) (hex (sha256 unsigned_data))) (ValueError "{}: unsigned binary does not match its request" [AText label]);;
      parse_pe unsigned_data false;;
      certificate_path ← resolve_path execroot (entry_text "certificate" items);
      certificate_data ← read certificate_path;
      requested ← isolated_certificate_der certificate_data;
      require (is_str (field "certificate_sha256" fields) (hex (sha256 requested)))
        (ValueError "{}: request certificate does not match certificate_sha256" [AText label]);;
      require (bool_decide (requested = certificate))
        (ValueError "{}: --certificate (SHA-256 {}) is not the requested certificate (SHA-256 {})" [AText label; AText (hex (sha256 certificate))]);;
      mret {| r_label := label; r_signed_name := entry_text "signed_name" items; r_unsigned_data := unsigned_data |}
  | _ => Err TypeError
  end.

(** [_PEM_CERTIFICATE.findall]: from each marker to the nearest end marker after it. *)
Fixpoint pem_blocks (fuel : nat) (data : bytes) : list bytes :=
  match fuel, bpartition begin_certificate data with
  | S fuel, Some (_, rest) =>
      match bpartition end_certificate rest with
      | Some (body, after) => (begin_certificate ++ body ++ end_certificate) :: pem_blocks fuel after
      | None => []
      end
  | _, _ => []
  end.

(** [check_key_file] of a key file that exists; the warning about its mode is not modelled. *)
Definition check_key_file (key certificate : bytes) : result unit :=
  match pem_blocks (length key) key with
  | [] => mret tt
  | [block] =>
      der ← isolated_certificate_der block;
      require (bool_decide (der = certificate)) (ValueError "the certificate in the key file is not --certificate" [])
  | _ => Err (ValueError "the key file holds more than one certificate" [])
  end.

Context (run : list text → bytes → bytes → option bytes).

Definition debian_command (launcher key work : text) : list text :=
  [launcher; lit "--ro-bind"; key ++ lit ":/inputs/signing-key"; lit "--rw-bind"; work ++ lit ":/outputs/work"; _SYSTEMD_SBSIGN; lit "sign";
   lit "--private-key=/inputs/signing-key"; lit "--certificate=/outputs/work/certificate.pem"; lit "--output=/outputs/work/signed.efi";
   lit "/outputs/work/unsigned.efi"].

Definition _run_debian_sbsign (launcher key work : text) (certificate_pem unsigned : bytes) : result bytes :=
  raise_if (bool_decide (58 ∈ key) || bool_decide (58 ∈ work)) (ValueError "the key and scratch paths must not contain ':' for the Debian tools; use --sbsign" []);;
  of_option (ValueError "the pinned systemd-sbsign failed with exit status {}" []) (run (debian_command launcher key work) certificate_pem unsigned).

Definition host_command (sbsign key : text) (work : pure_path) : list text :=
  let file name := pp_str (pp_div work (PurePosixPath (lit name))) in
  (sbsign :: (if bool_decide (pp_name (PurePosixPath sbsign) = lit "systemd-sbsign")
              then [lit "sign"; lit "--private-key"; key; lit "--certificate"; file "certificate.pem"]
              else [lit "--key"; key; lit "--cert"; file "certificate.pem"])) ++ [lit "--output"; file "signed.efi"; file "unsigned.efi"].

Definition _run_host_sbsign (sbsign key : text) (work : pure_path) (certificate_pem unsigned : bytes) : result bytes :=
  of_option CalledProcessError (run (host_command sbsign key work) certificate_pem unsigned).

(** The tool: [--sbsign], or the launcher of the Debian tools. *)
Inductive tool := HostTool (sbsign : text) | DebianTools (launcher : text).

Definition sign_request (signer : tool) (key : text) (work : pure_path) (request : Request) (certificate : bytes) : result bytes :=
  let pem := certificate_pem certificate in
  signed_data ← match signer with
    | HostTool sbsign => _run_host_sbsign sbsign key work pem (r_unsigned_data request)
    | DebianTools launcher => _run_debian_sbsign launcher key (pp_str work) pem (r_unsigned_data request)
    end;
  payload ← verify_embedded_digest (r_unsigned_data request) signed_data;
  verify_signature payload certificate;;
  mret signed_data.

(** The output directory. *)
Definition partial_name (name : text) : text := lit "." ++ name ++ lit ".partial".
Definition write_signed (output_dir : gmap text bytes) (name : text) (data : bytes) : gmap text bytes :=
  let written := <[partial_name name := data]> output_dir in
  <[name := data]> (delete (partial_name name) written).

(** The arguments: [work n] is the scratch directory of the request at position [n], [sa_manifest] the resolved path of the manifest. *)
Record signer_args := {
  sa_tool : tool; sa_key : text; sa_key_data : bytes; sa_work : nat → pure_path; sa_certificate : bytes; sa_execroot : option pure_path;
  sa_manifest : pure_path; sa_validate_only : bool }.

(** The signed binaries, all of them before any is written. *)
Definition signed_binaries (args : signer_args) (pairs : json) : result (list (Request * bytes)) :=
  certificate ← isolated_certificate_der (sa_certificate args);
  execroot ← match sa_execroot args with Some root => mret root | None => find_execroot (sa_manifest args) end;
  entries ← load_manifest pairs;
  requests ← mapM (λ entry, validate_entry execroot entry certificate) entries;
  if sa_validate_only args then mret []
  else
    check_key_file (sa_key_data args) certificate;;
    signed ← mapM (λ '(i, request), sign_request (sa_tool args) (sa_key args) (sa_work args i) request certificate) (imap pair requests);
    mret (zip requests signed).

Definition sign_manifest (args : signer_args) (pairs : json) (output_dir : gmap text bytes) : result (gmap text bytes) :=
  signed ← signed_binaries args pairs;
  mret (foldl (λ dir '(request, data), write_signed dir (r_signed_name request) data) output_dir signed).
End signer.

(** ** Writing *)

Lemma component_start t : _COMPONENT t = true → ∃ c rest, t = c :: rest ∧ c ≠ 46.
Proof.
  destruct t as [|c rest]; [done|]. intros H. exists c, rest. split; [done|]. cbn [_COMPONENT] in H. apply andb_true_iff in H as [H _].
  intros ->. done.
Qed.

Lemma partial_not_component t u : _COMPONENT t = true → t ≠ partial_name u.
Proof. intros (c & rest & -> & Hc)%component_start. unfold partial_name. by intros [= -> _]. Qed.

Definition written (signed : list (Request * bytes)) (dir : gmap text bytes) : gmap text bytes :=
  foldl (λ dir '(request, data), write_signed dir (r_signed_name request) data) dir signed.

Lemma written_other signed dir name :
  (∀ r, r ∈ signed → name ≠ r_signed_name r.1 ∧ name ≠ partial_name (r_signed_name r.1)) → written signed dir !! name = dir !! name.
Proof.
  revert dir. induction signed as [|[r data] signed IH]; intros dir H; [done|]. unfold written in *. cbn [foldl]. rewrite IH by (intros r' Hr; apply H; by right).
  destruct (H (r, data) ltac:(by left)) as [Hn Hp]. cbn [fst] in *. unfold write_signed. by rewrite lookup_insert_ne, lookup_delete_ne, lookup_insert_ne by done.
Qed.

Lemma written_name signed dir r data :
  NoDup ((λ r, r_signed_name r.1) <$> signed) → Forall (λ r, _SIGNED_NAME (r_signed_name r.1) = true) signed → (r, data) ∈ signed →
  written signed dir !! r_signed_name r = Some data.
Proof.
  revert dir. induction signed as [|[r' data'] signed IH]; intros dir Hnd Hok Hin; [by apply elem_of_nil in Hin|].
  rewrite fmap_cons in Hnd. apply NoDup_cons in Hnd as [Hni Hnd]. apply Forall_cons in Hok as [Hok' Hok]. cbn [fst] in *.
  change (written ((r', data') :: signed) dir) with (written signed (write_signed dir (r_signed_name r') data')).
  apply elem_of_cons in Hin as [[= -> ->]|Hin]; [|by apply IH]. rewrite written_other.
  - unfold write_signed. by rewrite lookup_insert_eq.
  - intros r0 Hr0. split; [|by apply partial_not_component]. intros Heq. apply Hni. rewrite Heq. by apply (list_elem_of_fmap_2 (λ r, r_signed_name r.1)).
Qed.

(** ** The manifest *)

Lemma check_entries_names entries names names' :
  foldM check_entry names entries = Ok names' → NoDup names →
  NoDup names' ∧ Forall (λ e, ∃ items, e = JObj items ∧ has_fields _ENTRY_FIELDS items = true ∧ forallb (λ i, is_string (snd i)) items = true ∧
    _SIGNED_NAME (entry_text "signed_name" items) = true) entries ∧
  names' = reverse ((λ e, match e with JObj items => entry_text "signed_name" items | _ => [] end) <$> entries) ++ names.
Proof.
  revert names. induction entries as [|e entries IH]; intros names H Hnd; cbn [foldM] in H; [injection H as <-; by split_and!|].
  apply bind_Ok_inv in H as (names1 & He & H). destruct e as [| | | | | |items]; try done. cbn [check_entry] in He.
  apply bind_Ok_inv in He as ([] & Hf%require_Ok & He). apply bind_Ok_inv in He as ([] & Hs%require_Ok & He). cbv zeta in He.
  apply bind_Ok_inv in He as ([] & Hn%raise_if_Ok & He). injection He as <-. bool_inv.
  destruct (IH _ H) as (Hnd' & Hall & ->); [by apply NoDup_cons|]. split; [done|]. split; [constructor; [by exists items|done]|].
  by rewrite fmap_cons, reverse_cons, <- app_assoc.
Qed.

Section manifest.
  Context (float_repr : pyfloat → text) (json_pairs : text → result json) (read : pure_path → result bytes) (run : list text → bytes → bytes → option bytes).

(** The file at the path of an entry, which is relative to the execution root. *)
Definition file_at (execroot : pure_path) (path : text) (data : bytes) : Prop :=
  path ≠ [] ∧ pp_is_absolute (PurePosixPath path) = false ∧ read (pp_div execroot (PurePosixPath path)) = Ok data.

(** Its text: UTF-8 with universal newlines. *)
Definition text_at (execroot : pure_path) (path t : text) : Prop :=
  ∃ data raw, file_at execroot path data ∧ utf8_decode data = Some raw ∧ t = universal_newlines raw.

(** A manifest entry that was validated for a certificate: the file at its request path is a request with the digest that the
    file at its digest path records, for the entry's context and path, for the file at its unsigned path, and for the
    certificate, which the file at its certificate path holds. *)
Definition entry_validated (execroot : pure_path) (certificate : bytes) (entry : json) (request : Request) : Prop :=
  ∃ items document_text document fields recorded layout certificate_data, entry = JObj items ∧
    r_label request = entry_text "label" items ∧ r_signed_name request = entry_text "signed_name" items ∧
    text_at execroot (entry_text "request" items) document_text ∧ json_pairs document_text = Ok document ∧ distinct_keys document = true ∧
    text_at execroot (entry_text "request_digest" items) recorded ∧ strip recorded = request_digest float_repr document ∧
    document = JObj fields ∧ field "esp_path" fields = JStr (entry_text "esp_path" items) ∧ field "context" fields = JStr (entry_text "context" items) ∧
    file_at execroot (entry_text "unsigned_binary" items) (r_unsigned_data request) ∧ parse_pe (r_unsigned_data request) false = Ok layout ∧
    file_at execroot (entry_text "certificate" items) certificate_data ∧ isolated_certificate_der certificate_data = Ok certificate ∧
    request_for document (r_unsigned_data request) certificate.

Lemma resolve_path_at execroot path p data : resolve_path execroot path = Ok p → read p = Ok data → file_at execroot path data.
Proof. unfold resolve_path. intros (H%raise_if_Ok & [= <-])%then_Ok Hr. by bool_inv. Qed.

Lemma read_utf8_at execroot path p t : resolve_path execroot path = Ok p → read_utf8 read p = Ok t → text_at execroot path t.
Proof.
  intros Hp H. unfold read_utf8 in H. apply bind_Ok_inv in H as (data & Hr & H). apply bind_Ok_inv in H as (raw & Hd%of_option_Ok & H). injection H as <-.
  exists data, raw. split; [|done]. by eapply resolve_path_at.
Qed.

Lemma validate_request_inv document recorded fields :
  validate_request float_repr document recorded = Ok fields → document = JObj fields ∧ recorded = request_digest float_repr document ∧
    has_fields _REQUEST_FIELDS fields = true ∧ field "format_version" fields = JStr REQUEST_FORMAT ∧
    field "context" fields = JStr (_context (field "esp_path" fields)) ∧ field "signature_algorithm" fields = JStr ALGORITHM.
Proof.
  unfold validate_request. intros Hv. destruct document as [| | | | | |its]; try done. apply bind_Ok_inv in Hv as ([] & Hf%require_Ok & Hv).
  apply bind_Ok_inv in Hv as ([] & Hd%require_Ok & Hv). apply bind_Ok_inv in Hv as ([] & Hx%require_Ok & Hv). injection Hv as ->. bool_inv.
  repeat match goal with H : is_str _ _ = true |- _ => apply is_str_inv in H end. done.
Qed.

Lemma validate_entry_ok execroot entry certificate request :
  validate_entry float_repr json_pairs read execroot entry certificate = Ok request → entry_validated execroot certificate entry request.
Proof.
  unfold validate_entry. destruct entry as [| | | | | |items]; try done. cbv zeta. intros H. apply bind_Ok_inv in H as (p1 & Hp1 & H).
  apply bind_Ok_inv in H as (t & Ht & H). apply bind_Ok_inv in H as (pairs & Hpairs & H). apply bind_Ok_inv in H as (document & Hl & H).
  apply bind_Ok_inv in H as (p2 & Hp2 & H). apply bind_Ok_inv in H as (recorded & Hrec & H). apply bind_Ok_inv in H as (fields & Hv & H).
  apply bind_Ok_inv in H as ([] & Hm%require_Ok & H). apply bind_Ok_inv in H as (p3 & Hp3 & H). apply bind_Ok_inv in H as (u & Hu & H).
  apply bind_Ok_inv in H as ([] & Hsha%require_Ok & H). apply bind_Ok_inv in H as (l & Hpe & H). apply bind_Ok_inv in H as (p4 & Hp4 & H).
  apply bind_Ok_inv in H as (cd & Hcd & H). apply bind_Ok_inv in H as (requested & Hreq & H). apply bind_Ok_inv in H as ([] & Hc%require_Ok & H).
  apply bind_Ok_inv in H as ([] & He%require_Ok & H). injection H as <-. bool_inv. subst requested.
  unfold load_json in Hl. apply then_Ok in Hl as [Hk%require_Ok [= ->]]. apply validate_request_inv in Hv as (Hdoc & Hdig & Hrest).
  repeat match goal with H : is_str _ _ = true |- _ => apply is_str_inv in H end.
  exists items, t, document, fields, recorded, l, cd. cbn [r_label r_signed_name r_unsigned_data].
  split_and!; try done; [by eapply read_utf8_at|by eapply read_utf8_at|by eapply resolve_path_at|by eapply resolve_path_at|].
  exists fields. split; [done|]. destruct Hrest as (? & ? & ? & ?). done.
Qed.

(** What the signer writes for one request. *)
Definition signed_for (certificate : bytes) (r : Request * bytes) : Prop :=
  ∃ payload, authentic_image (r_unsigned_data r.1) r.2 payload certificate.

Lemma sign_request_ok signer key work request certificate data :
  sign_request run signer key work request certificate = Ok data → signed_for certificate (request, data).
Proof.
  unfold sign_request. cbv zeta. intros H. apply bind_Ok_inv in H as (d & _ & H). apply bind_Ok_inv in H as (payload & Hp & H).
  apply bind_Ok_inv in H as ([] & Hs & H). injection H as <-. exists payload. by apply checked_image.
Qed.

(** The execution root: the given one, or the one that holds the manifest. *)
Definition execroot_of (args : signer_args) (execroot : pure_path) : Prop :=
  match sa_execroot args with Some root => execroot = root | None => find_execroot (sa_manifest args) = Ok execroot end.

Lemma signed_binaries_ok args pairs signed :
  sa_validate_only args = false → signed_binaries float_repr json_pairs read run args pairs = Ok signed →
  ∃ certificate execroot entries, isolated_certificate_der (sa_certificate args) = Ok certificate ∧ execroot_of args execroot ∧ load_manifest pairs = Ok entries ∧
    Forall2 (entry_validated execroot certificate) entries signed.*1 ∧ Forall (signed_for certificate) signed.
Proof.
  unfold signed_binaries. intros Hvo H. apply bind_Ok_inv in H as (certificate & Hc & H). apply bind_Ok_inv in H as (execroot & Hx & H).
  apply bind_Ok_inv in H as (entries & He & H). apply bind_Ok_inv in H as (requests & Hr & H). rewrite Hvo in H. apply bind_Ok_inv in H as ([] & _ & H).
  apply bind_Ok_inv in H as (datas & Hd & H). injection H as <-. exists certificate, execroot, entries. split; [done|].
  split; [unfold execroot_of; destruct (sa_execroot args); [by injection Hx|done]|]. split; [done|].
  apply mapM_Forall2 in Hr, Hd. pose proof (Forall2_length _ _ _ Hd) as Hlen. rewrite length_imap in Hlen. rewrite fst_zip by lia. split.
  - eapply Forall2_impl; [done|]. intros e r. apply validate_entry_ok.
  - apply Forall_forall. intros [r d] Hin. apply list_elem_of_lookup in Hin as [i Hi]. apply lookup_zip_Some in Hi as [Hri Hdi].
    destruct (Forall2_lookup_r _ _ _ _ _ Hd Hdi) as ([j r'] & Hj & Hs). rewrite list_lookup_imap, Hri in Hj. injection Hj as <- <-.
    by eapply sign_request_ok.
Qed.

(** A manifest with these requests, all of them objects with exactly the fields of an entry, and strings. *)
Definition manifest_of (pairs : json) (entries : list json) : Prop :=
  ∃ items, pairs = JObj items ∧ field "format_version" items = JStr MANIFEST_FORMAT ∧ field "requests" items = JList entries ∧ entries ≠ [] ∧
    Forall (λ e, ∃ fields, e = JObj fields ∧ has_fields _ENTRY_FIELDS fields = true ∧ forallb (λ i, is_string (snd i)) fields = true) entries.

(** A plain file name: letters, digits and [. _ + -], the first one a letter or a digit. *)
Definition plain_name (name : text) : Prop :=
  let alnum c := 97 <= c <= 122 ∨ 65 <= c <= 90 ∨ 48 <= c <= 57 in
  ∃ c rest, name = c :: rest ∧ alnum c ∧ Forall (λ c, alnum c ∨ c ∈ lit "._+-") rest.

Lemma alnum_spec c : ascii_alnum c = true ↔ 97 <= c <= 122 ∨ 65 <= c <= 90 ∨ 48 <= c <= 57.
Proof. unfold ascii_alnum, ascii_lower, ascii_upper, ascii_digit. rewrite !orb_true_iff, !andb_true_iff, !Z.leb_le. tauto. Qed.

Lemma signed_name_plain name : _SIGNED_NAME name = true → plain_name name.
Proof.
  unfold _SIGNED_NAME, _COMPONENT. destruct name as [|c rest]; [done|]. rewrite andb_true_iff, alnum_spec. intros [Hc Hr]. exists c, rest. split; [done|]. split; [done|].
  rewrite Forall_forall. intros d Hd. rewrite forallb_forall in Hr. specialize (Hr d (proj1 (list_elem_of_In _ _) Hd)). rewrite !orb_true_iff, alnum_spec, !Z.eqb_eq in Hr.
  destruct Hr as [[[[Hr|Hr]|Hr]|Hr]|Hr]; [by left|right; subst; change (lit "._+-") with [46; 95; 43; 45]; set_solver..].
Qed.

Lemma load_manifest_names pairs entries :
  load_manifest pairs = Ok entries →
  manifest_of pairs entries ∧ NoDup ((λ e, match e with JObj items => entry_text "signed_name" items | _ => [] end) <$> entries) ∧
  Forall (λ e, ∃ items, e = JObj items ∧ _SIGNED_NAME (entry_text "signed_name" items) = true) entries.
Proof.
  unfold load_manifest, load_json. intros H. apply bind_Ok_inv in H as (m & (_ & [= ->])%then_Ok & H). destruct m as [| | | | | |items]; try done.
  apply bind_Ok_inv in H as ([] & Hfmt%require_Ok & H). destruct (field "requests" items) as [| | | | |es|] eqn:Er; try done. destruct es as [|e es]; [done|].
  apply bind_Ok_inv in H as ([] & _ & H). apply bind_Ok_inv in H as (names & Hn & H). injection H as <-.
  apply check_entries_names in Hn as (Hnd & Hall & ->); [|constructor]. rewrite app_nil_r, reverse_Permutation in Hnd. split; [|split; [done|]].
  - exists items. split; [done|]. split; [by apply is_str_inv|]. split; [done|]. split; [done|]. eapply Forall_impl; [done|]. intros e' (its & -> & ? & ? & _). by exists its.
  - eapply Forall_impl; [done|]. intros e' (its & -> & _ & _ & Hs). by exists its.
Qed.

(** C28: A signing run writes exactly the signed binaries of its manifest: every entry was validated against its files and
    the certificate (the request, its digest, the unsigned binary and the certificate are those at the entry's paths, and
    the request is for this binary and this certificate), every written binary is the entry's unsigned binary signed with
    the certificate, it is written under the entry's name, the names are distinct and plain, and no other file of the
    output directory changes, apart from partial files of these names. *)
Theorem sign_manifest_exact args pairs dir dir' :
  sa_validate_only args = false → sign_manifest float_repr json_pairs read run args pairs dir = Ok dir' →
  ∃ certificate execroot entries signed, isolated_certificate_der (sa_certificate args) = Ok certificate ∧ execroot_of args execroot ∧
    manifest_of pairs entries ∧ Forall2 (entry_validated execroot certificate) entries signed.*1 ∧ NoDup (r_signed_name <$> signed.*1) ∧
    (∀ request data, (request, data) ∈ signed → plain_name (r_signed_name request) ∧ dir' !! r_signed_name request = Some data ∧
      ∃ payload, authentic_image (r_unsigned_data request) data payload certificate) ∧
    (∀ name, (∀ r, r ∈ signed → name ≠ r_signed_name r.1 ∧ name ≠ partial_name (r_signed_name r.1)) → dir' !! name = dir !! name).
Proof.
  intros Hvo H. unfold sign_manifest in H. apply bind_Ok_inv in H as (signed & Hs & H). injection H as <-. change (foldl _ dir signed) with (written signed dir).
  apply signed_binaries_ok in Hs as (certificate & execroot & entries & Hc & Hx & He & Hv & Hf); [|done]. exists certificate, execroot, entries, signed.
  destruct (load_manifest_names _ _ He) as (Hman & Hnd & Hok). do 4 (split; [done|]).
  assert (Hnames : r_signed_name <$> signed.*1 = (λ e, match e with JObj items => entry_text "signed_name" items | _ => [] end) <$> entries).
  { clear -Hv. induction Hv as [|e r es rs Hr _ IH]; [done|]. rewrite !fmap_cons. f_equal; [|done]. by destruct Hr as (items & ? & ? & ? & ? & ? & ? & -> & _ & -> & _). }
  rewrite Hnames. split; [done|]. rewrite <- list_fmap_compose in Hnames.
  assert (Hplain : Forall (λ r, _SIGNED_NAME (r_signed_name r.1) = true) signed).
  { apply (Forall_fmap (r_signed_name ∘ fst) (λ n, _SIGNED_NAME n = true)). rewrite Hnames. apply Forall_fmap. eapply Forall_impl; [done|]. by intros e (items & -> & Hi). }
  split; [|intros name Hn; by apply written_other]. intros request data Hin. rewrite Forall_forall in Hf. split; [|split; [|by apply (Hf (request, data))]].
  - rewrite Forall_forall in Hplain. by apply signed_name_plain, (Hplain (request, data)).
  - apply written_name; [|done|done]. change (NoDup (r_signed_name ∘ fst <$> signed)). by rewrite Hnames.
Qed.
End manifest.

(** A manifest with one request, for the demonstration image. *)
Definition demo_entry : json :=
  JObj [(lit "certificate", JStr (lit "certificate.der")); (lit "context", JStr UKI_CONTEXT); (lit "esp_path", JStr []); (lit "label", JStr (lit "//:uki"));
    (lit "request", JStr (lit "request.json")); (lit "request_digest", JStr (lit "request.sha256")); (lit "signed_name", JStr (lit "uki.efi"));
    (lit "unsigned_binary", JStr (lit "uki.unsigned.efi"))].
Definition demo_manifest : json := JObj [(lit "format_version", JStr MANIFEST_FORMAT); (lit "requests", JList [demo_entry])].
Definition demo_read (p : pure_path) : result bytes :=
  if bool_decide (pp_name p = lit "uki.unsigned.efi") then Ok demo_unsigned
  else if bool_decide (pp_name p = lit "certificate.der") then Ok demo_certificate
  else if bool_decide (pp_name p = lit "request.sha256") then Ok (utf8_encode (request_digest (λ _, []) demo_request ++ [10])) else Ok [].
Definition demo_signer_args : signer_args :=
  {| sa_tool := HostTool (lit "/usr/bin/sbsign"); sa_key := lit "/key.pem"; sa_key_data := blit "key"; sa_work := λ _, PurePosixPath (lit "/tmp/request");
     sa_certificate := demo_certificate; sa_execroot := Some (PurePosixPath (lit "/execroot")); sa_manifest := PurePosixPath (lit "/execroot/manifest.json");
     sa_validate_only := false |}.

Lemma sign_manifest_exact_witness :
  ∃ dir', sign_manifest (λ _, []) (λ _, Ok demo_request) demo_read (λ _ _ _, Some demo_signed) demo_signer_args demo_manifest ∅ = Ok dir' ∧
    dir' !! lit "uki.efi" = Some demo_signed ∧
    ∃ certificate execroot entries (signed : list (Request * bytes)), isolated_certificate_der demo_certificate = Ok certificate ∧
      execroot_of demo_signer_args execroot ∧ manifest_of demo_manifest entries ∧
      Forall2 (entry_validated (λ _, []) (λ _, Ok demo_request) demo_read execroot certificate) entries signed.*1.
Proof.
  exists {[ lit "uki.efi" := demo_signed ]}.
  assert (H : sign_manifest (λ _, []) (λ _, Ok demo_request) demo_read (λ _ _ _, Some demo_signed) demo_signer_args demo_manifest ∅ =
    Ok {[ lit "uki.efi" := demo_signed ]}) by by_compute.
  split; [exact H|]. split; [by rewrite lookup_singleton_eq|].
  destruct (sign_manifest_exact (λ _, []) (λ _, Ok demo_request) demo_read (λ _ _ _, Some demo_signed) demo_signer_args demo_manifest ∅ _ eq_refl H)
    as (certificate & execroot & entries & signed & Hc & Hx & He & Hv & _).
  exists certificate, execroot, entries, signed. split; [exact Hc|]. split; [exact Hx|]. split; [exact He|exact Hv].
Defined.
