(* ===== verification/SecureBootImage.v ===== *)
(** * Signed disk images: [mkosi/private/secure_boot_image.py] and [mkosi/private/esp_files.py]

    The files of the EFI system partition are a tree of paths and contents, as mcopy copies it out of the image. OpenSSL and the
    mtools script are parameters. File times, scratch files and the quoting of shell words are not modelled; [copy_range] works on
    the contents of the files. *)
From S2P Require Import Prelude Bytes PyText ByteText Hashing Collections Json PosixPath Gpt Der EfiAuth Authenticode SecureBoot.

Definition FORMAT : text := lit "mkosi-secure-boot-signed-image-v2".
Definition ESP_MANIFEST_FORMAT : text := lit "mkosi-secure-boot-esp-manifest-v1".
Definition ESP_MANIFEST : text := lit "loader/rules_mkosi-secure-boot.json".
Definition _LOADER_CONF : text := lit "loader/loader.conf".
Definition _KEYS : text := lit "loader/keys/auto".

Definition _sha256 (data : bytes) : text := hex (sha256 data).

(** ** Copies: [esp_files.copy_range] *)

Definition _CHUNK : Z := 2 ^ 20.

(** Writing at a position of a file: a gap is filled with zeros. *)
Definition write_at (pos : Z) (block : bytes) (file : bytes) : bytes :=
  let file := file ++ zeros (pos - len file) in
  slice 0 pos file ++ block ++ slice_from (pos + len block) file.

(** The loop: the destination so far and the number of bytes copied. Every block has at least one byte. *)
Fixpoint copy_loop (fuel : nat) (source : bytes) (offset size destination_offset : Z) (sparse : bool) (copied : Z) (destination : bytes) : result bytes :=
  if negb (copied <? size) then mret destination else
  match fuel with
  | O => Err OutOfFuel
  | S fuel =>
      let block := slice (offset + copied) (offset + copied + Z.min _CHUNK (size - copied)) source in
      raise_if (bool_decide (block = [])) (ValueError "{} ends before byte {}" [AInt (offset + size)]);;
      let destination := if negb sparse || negb (bool_decide (block = zeros (len block))) then write_at (destination_offset + copied) block destination else destination in
      copy_loop fuel source offset size destination_offset sparse (copied + len block) destination
  end.

(** [writer.truncate(n)] of a file of at most [n] bytes. *)
Definition extend (n : Z) (file : bytes) : bytes := file ++ zeros (n - len file).

(** [destination] holds the old contents, or none when the file does not exist. *)
Definition copy_range (source destination : bytes) (offset size destination_offset : Z) (sparse : bool) : result bytes :=
  copied ← copy_loop (Z.to_nat size) source offset size destination_offset sparse 0 destination;
  mret (extend (Z.max (len copied) (destination_offset + size)) copied).

(** ** The partition *)

Definition is_esp (partition : json) : result bool :=
  type_guid ← item partition "type_guid";
  mret (is_str type_guid ESP).

(** The list comprehension [esps] of [esp_extent]. *)
Fixpoint esp_partitions (partitions : list json) : result (list json) :=
  match partitions with
  | [] => mret []
  | p :: partitions => is_esp p ≫= λ b : bool, esps ← esp_partitions partitions; mret (if b then p :: esps else esps)
  end.

Definition esp_extent (partition_metadata : json) : result (Z * Z) :=
  partitions ← item partition_metadata "partitions" ≫= items_of;
  esps ← esp_partitions partitions;
  match esps with
  | [esp] =>
      start_bytes ← item esp "start_bytes" ≫= int_of;
      size_bytes ← item esp "size_bytes" ≫= int_of;
      mret (start_bytes, size_bytes)
  | _ => Err (ValueError "image must contain exactly one EFI system partition, found {}" [AInt (len esps)])
  end.

(** [reader.seek] of a negative position raises. *)
Definition extract_esp (image : bytes) (partition_metadata : json) : result (bytes * Z) :=
  '(offset, size) ← esp_extent partition_metadata;
  raise_if (offset <? 0) (ValueError "negative seek value {}" [AInt offset]);;
  esp ← copy_range image [] offset size 0 true;
  mret (esp, offset).

(** ** The tree *)

Record esp_tree := { t_files : dict text bytes; t_directories : list text }.

Definition tree_files (tree : esp_tree) : list text := sorted_texts (dkeys (t_files tree)).
Definition file_data (tree : esp_tree) (path : text) : bytes := default [] (dget path (t_files tree)).

(** ** Replacements *)

Record replacement := { rp_certificate : bytes; rp_name : json; rp_paths : list text; rp_signed : bytes }.

(** The value of a number as mantissa and exponent of two. *)
Definition number (j : json) : option (Z * Z) :=
  match j with
  | JBool b => Some (if b then 1 else 0, 0)
  | JInt z => Some (z, 0)
  | JFloat (Finite m e) => Some (m, e)
  | _ => None
  end.
(** [a == b] of documents that can be keys of a dictionary. *)
Definition key_eq (a b : json) : bool :=
  match a, b with
  | JStr s, JStr t => bool_decide (s = t)
  | JNull, JNull => true
  | JFloat (Infinite s), JFloat (Infinite t) => Bool.eqb s t
  | _, _ =>
      match number a, number b with
      | Some (m, e), Some (n, f) => let low := Z.min e f in m * 2 ^ (e - low) =? n * 2 ^ (f - low)
      | _, _ => false
      end
  end.
Definition hashable (j : json) : bool := match j with JList _ | JObj _ => false | _ => true end.

Definition add_replacement (replacements : list (json * replacement)) (argument : bytes * json * bytes) : result (list (json * replacement)) :=
  let '(signed, document, certificate) := argument in
  match document with
  | JObj items =>
      digest ← of_option KeyError (dget (lit "unsigned_sha256") items);
      require (hashable digest) TypeError;;
      raise_if (existsb (λ r, key_eq (fst r) digest) replacements) (ValueError "two signed binaries replace the same unsigned binary {}" []);;
      der ← isolated_certificate_der certificate;
      esp_path ← of_option KeyError (dget (lit "esp_path") items);
      mret (replacements ++ [(digest, {| rp_certificate := der; rp_name := if truthy esp_path then esp_path else JStr (lit "the UKI"); rp_paths := []; rp_signed := signed |})])
  | _ => Err TypeError
  end.

Definition _replacements (signed_arguments : list (bytes * json * bytes)) : result (list (json * replacement)) :=
  foldM add_replacement [] signed_arguments.

Definition _is_unsigned_pe (data : bytes) : result bool := succeeds (parse_pe data false).

Section ucd.
Context `{Ucd}.

(** [line.split(None, 1)]: the first word and the rest without leading white space. *)
Definition split_first (line : text) : option (text * text) :=
  let line := lstrip line in
  let word := take_while (λ c, negb (isspace c)) line in
  let rest := lstrip (drop (length word) line) in
  if bool_decide (rest = []) then None else Some (word, rest).

Definition unquote (value : text) : text :=
  if (2 <=? len value) && bool_decide (head value = Some 34) && bool_decide (last value = Some 34) then slice 1 (len value - 1) value else value.

Definition entry_binary (line : text) : option text :=
  match split_first line with
  | Some (key, rest) =>
      if bool_decide (key = lit "linux") || bool_decide (key = lit "efi")
      then Some (lower (lstrip_by is_slash (replace_char 92 [47] (unquote (strip rest))))) else None
  | None => None
  end.

Definition _entry_binaries (t : text) : list text := omap entry_binary (splitlines t).

Definition is_entry (path : text) : bool := startswith (lower path) (lit "loader/entries/") && endswith (lower path) (lit ".conf").

Definition referenced (tree : esp_tree) : list text :=
  List.filter is_entry (tree_files tree) ≫= λ path, _entry_binaries (universal_newlines (utf8_replace (file_data tree path))).

Definition _startable (tree : esp_tree) (esp_paths : list text) : list text :=
  List.filter (λ path, endswith (lower path) (lit ".efi") || bool_decide (lower path ∈ referenced tree)) esp_paths.

(** [replacements.get(digest)] with the path appended to its paths. *)
Fixpoint record_path (digest path : text) (replacements : list (json * replacement)) : option (list (json * replacement)) :=
  match replacements with
  | [] => None
  | (key, r) :: replacements =>
      if key_eq key (JStr digest) then
        Some ((key, {| rp_certificate := rp_certificate r; rp_name := rp_name r; rp_paths := rp_paths r ++ [path]; rp_signed := rp_signed r |}) :: replacements)
      else rest ← record_path digest path replacements; Some ((key, r) :: rest)
  end.

Record assignment := { as_replacements : list (json * replacement); as_unsigned : list text; as_signed : list text }.

Definition assign_file (tree : esp_tree) (st : assignment) (esp_path : text) : result assignment :=
  let data := file_data tree esp_path in
  match record_path (_sha256 data) esp_path (as_replacements st) with
  | Some replacements => mret {| as_replacements := replacements; as_unsigned := as_unsigned st; as_signed := as_signed st |}
  | None =>
      pe ← is_pe data;
      if (pe : bool) then
        unsigned ← _is_unsigned_pe data;
        mret (if (unsigned : bool)
              then {| as_replacements := as_replacements st; as_unsigned := as_unsigned st ++ [esp_path]; as_signed := as_signed st |}
              else {| as_replacements := as_replacements st; as_unsigned := as_unsigned st; as_signed := as_signed st ++ [esp_path] |})
      else mret st
  end.

Definition text_of (j : json) : result text := match j with JStr t => Ok t | _ => Err TypeError end.

Definition _assign (tree : esp_tree) (replacements : list (json * replacement)) : result (list (json * replacement) * list text) :=
  st ← foldM (assign_file tree) {| as_replacements := replacements; as_unsigned := []; as_signed := [] |} (tree_files tree);
  let unused := List.filter (λ r, bool_decide (rp_paths (snd r) = [])) (as_replacements st) in
  (if bool_decide (unused = []) then mret tt
   else names ← mapM (λ r, text_of (rp_name (snd r))) unused;
        Err (ValueError "the ESP holds no unsigned copy of the signed binaries for {}" [ATexts (sorted_texts names)]));;
  raise_if (negb (bool_decide (as_unsigned st = [])))
    (ValueError "the ESP would keep unsigned PE/COFF binaries that Secure Boot firmware refuses to load: {}" [ATexts (as_unsigned st)]);;
  mret (as_replacements st, _startable tree (as_signed st)).
(** ** Enrollment keys *)

(** [path.suffix] and [path.stem] of a file name. *)
Definition split_suffix (name : text) : text * text :=
  match rpartition_on 46 name with
  | (Some stem, rest) => if bool_decide (stem = []) || bool_decide (rest = []) then (name, []) else (stem, 46 :: rest)
  | (None, _) => (name, [])
  end.

Abbreviation signature_lists_of := (list (bytes * list bytes)).
Abbreviation enrollment := (dict text (bytes * signature_lists_of)).

(** An [.auth] file is given by its name and contents. *)
Definition add_key (keys : enrollment) (file : text * bytes) : result enrollment :=
  let '(name, data) := file in
  let '(stem, suffix) := split_suffix name in
  raise_if (negb (bool_decide (suffix = lit ".auth")) || dmem stem keys)
    (ValueError "auto-enrollment files must be distinct <variable>.auth files, got {}" [AText name]);;
  '(_, lists) ← recast (λ e, match e with ValueError _ _ | StructError => true | _ => false end) (λ _, ValueError "{}: {}" [AText name])
    (parse_auth stem data);
  mret (dset stem (data, lists) keys).

Definition _enrollment_keys (files : list (text * bytes)) : result enrollment :=
  keys ← foldM add_key [] files;
  let missing := List.filter (λ name, negb (dmem name keys)) REQUIRED in
  raise_if (negb (bool_decide (missing = []))) (ValueError "auto-enrollment needs {}" [ATexts ((λ name, name ++ lit ".auth") <$> missing)]);;
  mret keys.

Definition key_path (name : text) : text := _KEYS ++ [47] ++ name ++ lit ".auth".

Definition describe_key (name : text) (key : bytes * signature_lists_of) : json :=
  let '(data, lists) := key in
  JObj [(lit "esp_path", JStr (key_path name)); (lit "sha256", JStr (_sha256 data));
    (lit "signature_count", JInt (foldr Z.add 0 ((λ l, len (snd l)) <$> lists))); (lit "size", JInt (len data)); (lit "variable", JStr name);
    (lit "x509_sha256", JList ((λ c, JStr (_sha256 c)) <$> x509_certificates lists))].

Definition describe_keys (keys : enrollment) : list json :=
  dkeys VARIABLES ≫= λ name, match dget name keys with Some key => [describe_key name key] | None => [] end.

Definition describe_replacement (key : json) (r : replacement) (esp_path : text) : text * json :=
  (esp_path, JObj [(lit "esp_path", JStr esp_path); (lit "signed_sha256", JStr (_sha256 (rp_signed r))); (lit "signer_sha256", JStr (_sha256 (rp_certificate r)));
    (lit "unsigned_sha256", key)]).

Definition describe_replacements (replacements : list (json * replacement)) : list json :=
  (stable_sort (λ a b, negb (text_leb b.1 a.1)) (replacements ≫= λ '(key, r), describe_replacement key r <$> rp_paths r)).*2.

Definition build_esp_manifest (replacements : list (json * replacement)) (keys : enrollment) (mode : text) : list (text * json) :=
  [(lit "auto_enroll_keys", JList (describe_keys keys)); (lit "format_version", JStr ESP_MANIFEST_FORMAT); (lit "replaced", JList (describe_replacements replacements));
   (lit "secure_boot_enroll", match keys with [] => JNull | _ => JStr mode end)].

(** ** Trust *)

(** [trusts bundle signer chain]: openssl verify accepts the signer. [embedded payload]: the signer and the certificates of a message
    that openssl verifies. *)
Context (trusts : bytes → bytes → option bytes → bool) (embedded : bytes → option (bytes * bytes)).

Definition _embedded_signer (tree : esp_tree) (esp_path : text) : result (bytes * option bytes) :=
  payload ← recast (λ e, match e with ValueError _ _ | StructError => true | _ => false end)
    (λ _, ValueError "cannot read the Authenticode signature of {}: {}" [AText esp_path]) (embedded_authenticode (file_data tree esp_path));
  '(signer, chain) ← of_option (ValueError "the Authenticode signature of {} does not verify" [AText esp_path]) (embedded payload);
  mret (signer, if bool_decide (chain = []) then None else Some chain).

Definition _untrusted (paths : list text) : exn :=
  ValueError "db.auth does not trust the certificate that signed {}; enrolling it would make the device refuse to boot" [ATexts paths].

Definition _check_db_trusts (db_lists : signature_lists_of) (replacements : list (json * replacement)) (tree : esp_tree) (presigned : list text) : result unit :=
  let trusted := x509_certificates db_lists in
  let bundle := trusted ≫= certificate_pem in
  foldM (λ _ r, raise_if (negb (bool_decide (rp_certificate (snd r) ∈ trusted)) && negb (trusts bundle (certificate_pem (rp_certificate (snd r))) None))
      (_untrusted (rp_paths (snd r)))) tt replacements;;
  foldM (λ _ esp_path, '(signer, chain) ← _embedded_signer tree esp_path; require (trusts bundle signer chain) (_untrusted [esp_path])) tt presigned.

(** ** Changes *)

Definition _find (tree_paths : list text) (esp_path : text) : option text := List.find (λ path, bool_decide (lower path = lower esp_path)) tree_paths.

Definition enroll_line (line : text) : bool := bool_decide (take 1 (split_ws line) = [lit "secure-boot-enroll"]).

Definition _loader_conf (tree : esp_tree) (mode : text) : result (text * text) :=
  let existing := _find (tree_files tree) _LOADER_CONF in
  lines ← match existing with
    | Some path => t ← of_option UnicodeError (utf8_decode (file_data tree path)); mret (splitlines (universal_newlines t))
    | None => mret []
    end;
  let kept := List.filter (λ line, negb (enroll_line line)) lines in
  mret (default _LOADER_CONF existing, join [10] (kept ++ [lit "secure-boot-enroll " ++ mode]) ++ [10]).

Context (float_repr : pyfloat → text).

Definition replaced_files (replacements : list (json * replacement)) : list (text * bytes) :=
  replacements ≫= λ '(_, r), (λ path, (path, rp_signed r)) <$> rp_paths r.

Definition _changes (auto_enroll_key : list (text * bytes)) (mode : text) (tree : esp_tree) (replacements : list (json * replacement)) (presigned : list text) :
    result (dict text bytes * list (text * json)) :=
  let changes := foldl (λ d '(path, data), dset path data d) [] (replaced_files replacements) in
  '(keys, changes) ← match auto_enroll_key with
    | [] => mret ([], changes)
    | files =>
        keys ← _enrollment_keys files;
        db ← of_option KeyError (dget (lit "db") keys);
        _check_db_trusts (snd db) replacements tree presigned;;
        let changes := foldl (λ d '(name, key), dset (key_path name) (fst key) d) changes (sort_items keys) in
        '(esp_path, content) ← _loader_conf tree mode;
        mret (keys, dset esp_path (utf8_encode content) changes)
    end;
  let manifest := build_esp_manifest replacements keys mode in
  let changes := dset (default ESP_MANIFEST (_find (tree_files tree) ESP_MANIFEST)) (utf8_encode (write_json float_repr (JObj manifest))) changes in
  mret (changes, manifest).

(** The directories above a path, the nearest first. *)
Definition parents (path : text) : list text :=
  let tail := pp_tail (PurePosixPath path) in (λ n, join [47] (take n tail)) <$> reverse (seq 1 (length tail - 1)).

Definition _missing_directories (tree : esp_tree) (changes : dict text bytes) : list text :=
  let existing := lower <$> t_directories tree in
  let needed := remove_dups (dkeys changes ≫= parents) in
  stable_sort (λ a b : text, len a <? len b) (List.filter (λ d, negb (bool_decide (lower d ∈ existing))) needed).

(** [verify] is the tree that the script copies out of the rewritten partition. *)
Definition _verify (verify : esp_tree) (changes : dict text bytes) : result unit :=
  foldM (λ _ '(esp_path, data),
    match _find (tree_files verify) esp_path with
    | Some found => require (bool_decide (file_data verify found = data)) (ValueError "the rewritten ESP does not hold {}" [AText esp_path])
    | None => Err (ValueError "the rewritten ESP does not hold {}" [AText esp_path])
    end) tt changes.

Definition _metadata (manifest : list (text * json)) (changes : dict text bytes) : list (text * json) :=
  foldl (λ d '(k, v), dset k v d) manifest
    [(lit "changed_esp_paths", JList (JStr <$> sorted_texts (dkeys changes)));
     (lit "esp_manifest", match _find (sorted_texts (dkeys changes)) ESP_MANIFEST with Some p => JStr p | None => JNull end);
     (lit "format_version", JStr FORMAT)].

(** [mtools esp]: the tree of a partition; [apply esp directories changes]: the partition that the script rewrites. *)
Context (mtools : bytes → result esp_tree) (apply : bytes → list text → list (text * bytes) → result bytes).

Definition _apply (esp : bytes) (tree : esp_tree) (changes : dict text bytes) : result bytes :=
  apply esp (_missing_directories tree changes) (sort_items changes).

Record image_args := {
  ia_image : bytes; ia_partition_metadata : json; ia_signed : list (bytes * json * bytes); ia_auto_enroll_key : list (text * bytes); ia_mode : text }.

(** The output image and its metadata. *)
Definition sign_image (args : image_args) : result (bytes * text) :=
  replacements ← _replacements (ia_signed args);
  '(esp_image, offset) ← extract_esp (ia_image args) (ia_partition_metadata args);
  tree ← mtools esp_image;
  '(replacements, presigned) ← _assign tree replacements;
  '(changes, manifest) ← _changes (ia_auto_enroll_key args) (ia_mode args) tree replacements presigned;
  esp_image ← _apply esp_image tree changes;
  verify ← mtools esp_image;
  _verify verify changes;;
  output ← copy_range (ia_image args) [] 0 (len (ia_image args)) 0 true;
  output ← copy_range esp_image output 0 (len esp_image) offset false;
  mret (output, write_json float_repr (JObj (_metadata manifest changes))).
End ucd.
