(* ===== verification/SecureBootImageProofs.v ===== *)
(** * Signed disk images: what the rewritten image holds

    [copy_range] copies exactly the range it is asked for, sparse into a new file or over an existing one; [_assign] leaves no
    unsigned binary behind; [sign_image] changes nothing of the image outside the EFI system partition. *)
From S2P Require Import Prelude Bytes PyText ByteText Hashing Collections Json PosixPath Gpt Der EfiAuth Authenticode AuthenticodeFacts RsaProofs SecureBoot SecureBootImage.

(** ** Copies *)

Definition ends_before (n : Z) : exn := ValueError "{} ends before byte {}" [AInt n].

Lemma write_at_inside pos block file :
  0 <= pos <= len file → write_at pos block file = slice 0 pos file ++ block ++ slice_from (pos + len block) file.
Proof. intros Hp. unfold write_at. by rewrite (zeros_nil (pos - len file)), app_nil_r by lia. Qed.

(** Overwriting the bytes that follow those written before. *)
Lemma write_at_next d written block file :
  0 <= d <= len file →
  write_at (d + len written) block (slice 0 d file ++ written ++ slice_from (d + len written) file)
  = slice 0 d file ++ (written ++ block) ++ slice_from (d + len (written ++ block)) file.
Proof.
  intros Hd. pose proof (len_nonneg written). pose proof (len_nonneg block).
  assert (Hpre : len (slice 0 d file ++ written) = d + len written) by (rewrite len_app, len_slice by lia; lia).
  rewrite app_assoc, write_at_inside.
  - rewrite <- Hpre at 1. rewrite slice_app_exact, slice_from_app_r by lia. rewrite Hpre, slice_from_slice_from by lia.
    rewrite <- !app_assoc, len_app. do 4 f_equal. lia.
  - rewrite len_app. pose proof (len_nonneg (slice_from (d + len written) file)). lia.
Qed.

Section copy.
Context (source : bytes) (offset size : Z) (Hoffset : 0 <= offset).

Abbreviation block_at copied := (slice (offset + copied) (offset + copied + Z.min _CHUNK (size - copied)) source).

(** A loop whose destination follows [I] writes the whole range, or ends with the source. *)
Lemma copy_loop_inv (I : Z → bytes → Prop) d sparse fuel copied destination :
  (∀ c dest, 0 <= c < size → I c dest →
     I (c + len (block_at c)) (if negb sparse || negb (bool_decide (block_at c = zeros (len (block_at c)))) then write_at (d + c) (block_at c) dest else dest)) →
  0 <= copied → copied <= size → size - copied <= Z.of_nat fuel → offset + copied <= len source ∨ copied = 0 → I copied destination →
  if offset + size <=? len source then ∃ dest, copy_loop fuel source offset size d sparse copied destination = Ok dest ∧ I size dest
  else copied < size → copy_loop fuel source offset size d sparse copied destination = Err (ends_before (offset + size)).
Proof.
  intros Hstep. revert copied destination. induction fuel as [|fuel IH]; intros copied destination H0 Hle Hfuel Hsrc HI; cbn [copy_loop].
  - replace copied with size in * by lia. destruct (_ <=? _); [|lia]. rewrite (proj2 (Z.ltb_ge _ _)) by lia. cbn. eauto.
  - destruct (Z.ltb_spec copied size) as [Hlt|Hge]; cbn [negb].
    2:{ replace copied with size in * by lia. destruct (_ <=? _); [eauto|lia]. }
    assert (Hlen : len (block_at copied) = Z.max 0 (Z.min (Z.min _CHUNK (size - copied)) (len source - offset - copied))) by (unfold _CHUNK; rewrite len_slice_min; lia).
    assert (0 < _CHUNK) by done. destruct (bool_decide_reflect (block_at copied = [])) as [Hnil|Hblock]; cbn [raise_if mbind result_bind].
    + rewrite Hnil, len_nil in Hlen. rewrite (proj2 (Z.leb_gt _ _)) by lia. by intros _.
    + assert (0 < len (block_at copied)) by (destruct (block_at copied); [done|rewrite len_cons; pose proof (len_nonneg l); lia]).
      specialize (IH (copied + len (block_at copied)) _ ltac:(lia) ltac:(lia) ltac:(lia) ltac:(lia) (Hstep copied destination (conj H0 Hlt) HI)).
      destruct (Z.leb_spec (offset + size) (len source)); [done|]. intros _. apply IH. lia.
Qed.

(** The step of an invariant that says which bytes of the source the destination holds. *)
Lemma source_next c : 0 <= c < size → slice offset (offset + c) source ++ block_at c = slice offset (offset + (c + len (block_at c))) source.
Proof.
  intros Hc. assert (Hlen : len (block_at c) = Z.max 0 (Z.min (Z.min _CHUNK (size - c)) (len source - offset - c))) by (unfold _CHUNK; rewrite len_slice_min; lia).
  assert (0 < _CHUNK) by done. rewrite slice_join by lia.
  destruct (decide (offset + c + Z.min _CHUNK (size - c) <= len source)); [f_equal; lia|].
  generalize dependent (len (block_at c)). intros k Hlen. rewrite !slice_take_drop by lia.
  rewrite !take_ge; [done|..]; rewrite length_drop; unfold len in *; lia.
Qed.

(** Sparse into a new file. *)
Lemma copy_range_new :
  0 <= size →
  copy_range source [] offset size 0 true
  = if (size =? 0) || (offset + size <=? len source) then Ok (slice offset (offset + size) source) else Err (ends_before (offset + size)).
Proof.
  intros Hsize. unfold copy_range. destruct (Z.eqb_spec size 0) as [Hz|Hz]; cbn [orb].
  { rewrite Hz. cbn. by rewrite slice_empty by lia. }
  opose proof* (copy_loop_inv (λ c dest, len dest <= c ∧ dest ++ zeros (c - len dest) = slice offset (offset + c) source) 0 true (Z.to_nat size) 0 []) as Hcopy; [|lia..| |].
  { intros c dest Hc [Hle Heq]. rewrite <- source_next, <- Heq by lia. pose proof (len_nonneg dest). pose proof (len_nonneg (block_at c)).
    destruct (bool_decide_reflect (block_at c = zeros (len (block_at c)))) as [Hzero|_]; cbn [negb orb].
    - split; [lia|]. rewrite Hzero at 2. rewrite <- app_assoc, <- zeros_app by lia. do 2 f_equal. lia.
    - assert (Hfull : len (dest ++ zeros (c - len dest)) = c) by (rewrite len_app, len_zeros; lia).
      unfold write_at. rewrite Z.add_0_l, slice_all, slice_from_drop, drop_ge by (unfold len in *; lia).
      rewrite app_nil_r. generalize dependent (dest ++ zeros (c - len dest)). intros full _ Hfull. rewrite len_app. split; [lia|].
      rewrite zeros_nil by lia. by rewrite app_nil_r. }
  { by rewrite slice_empty by lia. }
  destruct (offset + size <=? len source); [|rewrite Hcopy by lia; done].
  destruct Hcopy as (dest & -> & Hle & <-). cbn. unfold extend. do 3 f_equal. lia.
Qed.

(** Over an existing file. *)
Lemma copy_range_over destination d :
  0 <= size → 0 <= d <= len destination →
  copy_range source destination offset size d false
  = if (size =? 0) || (offset + size <=? len source)
    then Ok (slice 0 d destination ++ slice offset (offset + size) source ++ slice_from (d + size) destination)
    else Err (ends_before (offset + size)).
Proof.
  intros Hsize Hd. unfold copy_range. destruct (Z.eqb_spec size 0) as [Hz|Hz]; cbn [orb].
  { rewrite Hz. cbn [copy_loop Z.to_nat]. rewrite (slice_empty offset), !Z.add_0_r, app_nil_l, slice_slice_from by lia.
    change (Ok (extend (len destination `max` d) destination) = Ok destination). unfold extend. by rewrite zeros_nil, app_nil_r by lia. }
  opose proof* (copy_loop_inv (λ c dest, len (slice offset (offset + c) source) = c ∧ dest = slice 0 d destination ++ slice offset (offset + c) source ++ slice_from (d + c) destination)
    d false (Z.to_nat size) 0 destination) as Hcopy; [|lia..| |].
  { intros c dest Hc [Hlen ->]. rewrite <- source_next, len_app, Hlen by lia. split; [done|]. cbn [negb orb].
    pose proof (write_at_next d (slice offset (offset + c) source) (block_at c) destination Hd) as Hw. by rewrite len_app, Hlen in Hw. }
  { by rewrite (slice_empty offset), Z.add_0_r, app_nil_l, slice_slice_from by lia. }
  destruct (offset + size <=? len source); [|rewrite Hcopy by lia; done].
  destruct Hcopy as (dest & -> & Hlen & ->). cbn. unfold extend. rewrite zeros_nil, app_nil_r; [done|].
  rewrite !len_app, Hlen, len_slice by lia. pose proof (len_nonneg (slice_from (d + size) destination)). lia.
Qed.
End copy.

(** A copy returns exactly the requested bytes of the source in place of as many bytes of the destination, sparse
    into a new file or in full over an existing one; it raises ValueError exactly when the source is too short. *)
Theorem copy_range_exact source destination offset size destination_offset (sparse : bool) :
  0 <= offset → 0 <= size → 0 <= destination_offset <= len destination → (if sparse then destination = [] else True) →
  copy_range source destination offset size destination_offset sparse
  = if (size =? 0) || (offset + size <=? len source)
    then Ok (slice 0 destination_offset destination ++ slice offset (offset + size) source ++ slice_from (destination_offset + size) destination)
    else Err (ends_before (offset + size)).
Proof.
  intros Ho Hs Hd Hsparse. destruct sparse; [|by apply copy_range_over]. subst destination.
  assert (Hz : destination_offset = 0) by (unfold len in Hd; cbn in Hd; lia). rewrite Hz. clear Hz. rewrite copy_range_new by done.
  destruct (_ || _); [|done]. rewrite slice_from_drop, drop_nil, app_nil_r. done.
Qed.

Lemma copy_range_exact_witness :
  copy_range (blit "0123456789") (blit "abcdefgh") 4 3 2 false = Ok (blit "ab456fgh") ∧
  copy_range (zeros 3 ++ blit "x" ++ zeros 4) [] 1 6 0 true = Ok (zeros 2 ++ blit "x" ++ zeros 3) ∧
  copy_range (blit "012") [] 1 3 0 true = Err (ValueError "{} ends before byte {}" [AInt 4]).
Proof. split_and!; (rewrite copy_range_exact; [by_compute|done..]). Defined.

(** ** Replacements *)

#[local] Arguments _sha256 : simpl never.
#[local] Arguments file_data : simpl never.

Definition string_keys (rs : list (json * replacement)) : list text := omap (λ r, match fst r with JStr t => Some t | _ => None end) rs.

Definition add_paths (paths : list text) (r : replacement) : replacement :=
  {| rp_certificate := rp_certificate r; rp_name := rp_name r; rp_paths := rp_paths r ++ paths; rp_signed := rp_signed r |}.

Lemma key_eq_str key t : key_eq key (JStr t) = is_str key t.
Proof. destruct key as [| | |[]| | |]; done. Qed.

Lemma key_eq_strs s t : key_eq (JStr s) (JStr t) = bool_decide (s = t).
Proof. done. Qed.

(** The paths of a list whose contents have the digest of a replacement. *)
Definition assigned_over (tree : esp_tree) (paths : list text) (r : json * replacement) : json * replacement :=
  (fst r, add_paths (List.filter (λ path, is_str (fst r) (_sha256 (file_data tree path))) paths) (snd r)).

Lemma record_path_eq tree path rs :
  NoDup (string_keys rs) →
  record_path (_sha256 (file_data tree path)) path rs
  = if existsb (λ r, is_str (fst r) (_sha256 (file_data tree path))) rs then Some (assigned_over tree [path] <$> rs) else None.
Proof.
  induction rs as [|[key r] rs IH]; intros Hnd; [done|]. cbn [record_path existsb fst]. rewrite key_eq_str.
  assert (Hid : ∀ k x, is_str k (_sha256 (file_data tree path)) = false → assigned_over tree [path] (k, x) = (k, x)).
  { intros k [] Hk. unfold assigned_over. cbn. rewrite Hk. cbn. unfold add_paths. cbn. by rewrite app_nil_r. }
  destruct (is_str key (_sha256 (file_data tree path))) eqn:Hkey; cbn [orb].
  - f_equal. rewrite fmap_cons. unfold assigned_over at 1. cbn. rewrite Hkey. cbn. f_equal. symmetry. apply is_str_inv in Hkey as ->.
    apply NoDup_cons in Hnd as [Hfresh _]. clear IH. induction rs as [|[k x] rs IH]; [done|]. rewrite fmap_cons.
    destruct (is_str k (_sha256 (file_data tree path))) eqn:Hk.
    + destruct Hfresh. apply is_str_inv in Hk as ->. cbn. by left.
    + rewrite Hid by done. f_equal. apply IH. intros Hin. apply Hfresh. cbn. destruct k; by try right.
  - rewrite IH by (destruct key; cbn in Hnd; by try apply NoDup_cons in Hnd as [_ Hnd]).
    destruct (existsb _ rs); cbn; [|done]. by rewrite Hid.
Qed.

Lemma string_keys_assigned tree paths rs : string_keys (assigned_over tree paths <$> rs) = string_keys rs.
Proof. unfold string_keys. induction rs as [|[key r] rs IH]; [done|]. cbn. destruct key; by rewrite ?IH. Qed.

Lemma assigned_over_cons tree path paths r : assigned_over tree paths (assigned_over tree [path] r) = assigned_over tree (path :: paths) r.
Proof.
  unfold assigned_over, add_paths. cbn [fst snd rp_certificate rp_name rp_paths rp_signed]. rewrite <- app_assoc. do 3 f_equal.
  cbn. by destruct (is_str _ _).
Qed.

Lemma existsb_assigned tree paths t rs : existsb (λ r, is_str (fst r) t) (assigned_over tree paths <$> rs) = existsb (λ r, is_str (fst r) t) rs.
Proof. induction rs as [|r rs IH]; [done|]. cbn. by rewrite IH. Qed.

Lemma assigned_over_nil tree (rs : list (json * replacement)) : assigned_over tree [] <$> rs = rs.
Proof. induction rs as [|[key []] rs IH]; [done|]. rewrite fmap_cons, IH. unfold assigned_over, add_paths. cbn. by rewrite app_nil_r. Qed.

Lemma assigned_over_fresh tree path rs :
  existsb (λ r, is_str (fst r) (_sha256 (file_data tree path))) rs = false → assigned_over tree [path] <$> rs = rs.
Proof.
  induction rs as [|[key []] rs IH]; [done|]. cbn [existsb fst]. intros [Hk Hrs]%orb_false_iff. rewrite fmap_cons, IH by done.
  unfold assigned_over, add_paths. cbn. rewrite Hk. cbn. by rewrite app_nil_r.
Qed.

(** ** Binaries *)

Definition pe_file (tree : esp_tree) (path : text) : bool := is_Ok (_pe_optional_header (file_data tree path)).
Definition unsigned_file (tree : esp_tree) (path : text) : bool := is_Ok (parse_pe (file_data tree path) false).

Lemma raises_pe_optional_header data : raises image_error (_pe_optional_header data).
Proof.
  pose proof (raises_parse_pe data false) as H. unfold parse_pe in H. destruct (_pe_optional_header data) as [x|e]; [done|exact H].
Qed.

Lemma succeeds_total {A} (m : result A) : raises image_error m → succeeds m = Ok (is_Ok m).
Proof. destruct m as [a|e]; [done|]. intros [(fmt & args & ->)| ->]; done. Qed.

Definition covered (tree : esp_tree) (rs : list (json * replacement)) (path : text) : bool :=
  existsb (λ r, is_str (fst r) (_sha256 (file_data tree path))) rs.

(** The files that keep their contents and are binaries. *)
Definition leftover (tree : esp_tree) (rs : list (json * replacement)) (paths : list text) : list text :=
  List.filter (λ path, negb (covered tree rs path) && pe_file tree path) paths.

Lemma assign_file_eq tree rs unsigned signed path :
  NoDup (string_keys rs) →
  assign_file tree {| as_replacements := rs; as_unsigned := unsigned; as_signed := signed |} path
  = Ok {| as_replacements := assigned_over tree [path] <$> rs;
          as_unsigned := unsigned ++ List.filter (unsigned_file tree) (leftover tree rs [path]);
          as_signed := signed ++ List.filter (λ p, negb (unsigned_file tree p)) (leftover tree rs [path]) |}.
Proof.
  intros Hnd. unfold assign_file, leftover, covered. cbn [as_replacements as_unsigned as_signed]. rewrite record_path_eq by done. cbn [List.filter].
  destruct (existsb _ rs) eqn:Hcov; cbn [negb andb List.filter]; [by rewrite !app_nil_r|].
  unfold is_pe, _is_unsigned_pe, pe_file. rewrite assigned_over_fresh, !succeeds_total by auto using raises_pe_optional_header, raises_parse_pe.
  cbn [mbind result_bind]. destruct (is_Ok (_pe_optional_header _)); cbn [List.filter]; [|by rewrite !app_nil_r].
  fold (unsigned_file tree path). destruct (unsigned_file tree path); cbn; by rewrite !app_nil_r.
Qed.

Lemma leftover_cons tree rs path paths : leftover tree rs (path :: paths) = leftover tree rs [path] ++ leftover tree rs paths.
Proof. unfold leftover. cbn. by destruct (_ && _). Qed.

Lemma leftover_assigned tree prior rs paths : leftover tree (assigned_over tree prior <$> rs) paths = leftover tree rs paths.
Proof. unfold leftover, covered. apply List.filter_ext. intros path. by rewrite existsb_assigned. Qed.

Lemma assign_loop_eq tree paths rs unsigned signed :
  NoDup (string_keys rs) →
  foldM (assign_file tree) {| as_replacements := rs; as_unsigned := unsigned; as_signed := signed |} paths
  = Ok {| as_replacements := assigned_over tree paths <$> rs;
          as_unsigned := unsigned ++ List.filter (unsigned_file tree) (leftover tree rs paths);
          as_signed := signed ++ List.filter (λ p, negb (unsigned_file tree p)) (leftover tree rs paths) |}.
Proof.
  revert rs unsigned signed. induction paths as [|path paths IH]; intros rs unsigned signed Hnd; cbn [foldM].
  - by rewrite assigned_over_nil, !app_nil_r.
  - rewrite assign_file_eq by done. cbn [mbind result_bind]. rewrite IH by (by rewrite string_keys_assigned). do 2 f_equal.
    + rewrite <- list_fmap_compose. apply list_fmap_ext. intros i r _. apply assigned_over_cons.
    + by rewrite <- app_assoc, leftover_assigned, <- List.filter_app, <- leftover_cons.
    + by rewrite <- app_assoc, leftover_assigned, <- List.filter_app, <- leftover_cons.
Qed.

(** What the command line gives: no path is assigned yet, and no digest occurs twice. *)
Definition fresh_replacements (rs : list (json * replacement)) : Prop :=
  NoDup (string_keys rs) ∧ Forall (λ r, rp_paths (snd r) = []) rs.

(** What an accepted partition is: every replacement occurs, and every binary that stays is signed. *)
Record accepted (tree : esp_tree) (rs : list (json * replacement)) : Prop := {
  every_replacement_used : ∀ r, r ∈ rs → ∃ path, path ∈ tree_files tree ∧ fst r = JStr (_sha256 (file_data tree path));
  no_unsigned_binary : ∀ path, path ∈ tree_files tree → pe_file tree path = true → unsigned_file tree path = true →
    ∃ r, r ∈ rs ∧ fst r = JStr (_sha256 (file_data tree path)) }.

Lemma assigned_paths tree r : rp_paths (snd r) = [] →
  rp_paths (snd (assigned_over tree (tree_files tree) r)) = List.filter (λ path, is_str (fst r) (_sha256 (file_data tree path))) (tree_files tree).
Proof. intros Hr. cbn. by rewrite Hr. Qed.

Lemma covered_iff tree rs path : covered tree rs path = true ↔ ∃ r, r ∈ rs ∧ fst r = JStr (_sha256 (file_data tree path)).
Proof.
  unfold covered. rewrite existsb_exists. setoid_rewrite <- list_elem_of_In. setoid_rewrite is_str_iff. done.
Qed.

Lemma elem_of_leftover tree rs paths path :
  path ∈ leftover tree rs paths ↔ path ∈ paths ∧ pe_file tree path = true ∧ covered tree rs path = false.
Proof. unfold leftover. rewrite elem_of_filter_bool, andb_true_iff, negb_true_iff. naive_solver. Qed.

Lemma accepted_iff tree rs :
  fresh_replacements rs →
  accepted tree rs ↔
  List.filter (λ r, bool_decide (rp_paths (snd r) = [])) (assigned_over tree (tree_files tree) <$> rs) = [] ∧
  List.filter (unsigned_file tree) (leftover tree rs (tree_files tree)) = [].
Proof.
  intros [Hnd Hfresh]. rewrite !filter_nil_iff. rewrite Forall_forall in Hfresh. split.
  - intros [Hused Hunsigned]. split.
    + intros r' (r & -> & Hr)%list_elem_of_fmap. apply bool_decide_eq_false. rewrite assigned_paths by auto. rewrite filter_nil_iff.
      destruct (Hused r Hr) as (path & Hpath & Hkey). intros Hall. specialize (Hall path Hpath). rewrite Hkey in Hall. cbn in Hall.
      by rewrite bool_decide_eq_true_2 in Hall.
    + intros path (Hpath & Hpe & Hcov)%elem_of_leftover. destruct (unsigned_file tree path) eqn:Hu; [|done].
      specialize (Hunsigned path Hpath Hpe Hu). apply covered_iff in Hunsigned. congruence.
  - intros [Hused Hunsigned]. split.
    + intros r Hr. specialize (Hused _ (list_elem_of_fmap_2 _ _ _ Hr)). apply bool_decide_eq_false in Hused.
      rewrite assigned_paths in Hused by auto. destruct (List.filter _ _) as [|path paths] eqn:Hf; [done|].
      assert (Hin : path ∈ path :: paths) by left. rewrite <- Hf in Hin. apply elem_of_filter_bool in Hin as [Hin Hkey].
      exists path. by apply is_str_inv in Hkey.
    + intros path Hpath Hpe Hu. apply covered_iff. destruct (covered tree rs path) eqn:Hcov; [done|].
      rewrite (Hunsigned path) in Hu; [done|]. by apply elem_of_leftover.
Qed.

Lemma replacements_fresh signed_arguments rs : _replacements signed_arguments = Ok rs → fresh_replacements rs.
Proof.
  unfold _replacements. apply (foldM_inv fresh_replacements); [|by split; constructor].
  intros acc [[signed document] certificate] acc' _ [Hnd Hpaths] Hadd. unfold add_replacement in Hadd.
  destruct document as [| | | | | |items]; try done. apply bind_Ok_inv in Hadd as (digest & _ & Hadd). apply bind_Ok_inv in Hadd as ([] & _ & Hadd).
  apply bind_Ok_inv in Hadd as ([] & Hnew & Hadd). apply raise_if_Ok in Hnew. apply bind_Ok_inv in Hadd as (der & _ & Hadd).
  apply bind_Ok_inv in Hadd as (esp_path & _ & Hadd). injection Hadd as <-. split; [|apply Forall_app_2; [done|by repeat constructor]].
  unfold string_keys. rewrite omap_app. destruct digest as [| | | |t| |]; cbn; rewrite ?app_nil_r; try done.
  apply NoDup_app. split_and!; [done| |apply NoDup_singleton].
  intros x (r & Hr & Hx)%list_elem_of_omap [= ->]%list_elem_of_singleton. destruct r as [[| | | |u| |] r]; try done. injection Hx as ->.
  assert (existsb (λ r, key_eq (fst r) (JStr t)) acc = true); [|congruence].
  apply existsb_exists. exists (JStr t, r). split; [by apply list_elem_of_In|]. cbn. by apply bool_decide_eq_true.
Qed.

Lemma string_keys_unique rs key r r' : NoDup (string_keys rs) → (JStr key, r) ∈ rs → (JStr key, r') ∈ rs → r = r'.
Proof.
  assert (Hmem : ∀ rs x, (JStr key, x) ∈ rs → key ∈ string_keys rs).
  { intros rs' x Hx. apply list_elem_of_omap. by exists (JStr key, x). }
  induction rs as [|[k x] rs IH]; intros Hnd Hr Hr'; [by apply elem_of_nil in Hr|].
  apply elem_of_cons in Hr as [[= <- <-]|Hr], Hr' as [[= ?]|Hr']; subst; try done.
  - cbn in Hnd. apply NoDup_cons in Hnd as [Hk _]. by destruct Hk; eapply Hmem.
  - cbn in Hnd. apply NoDup_cons in Hnd as [Hk _]. by destruct Hk; eapply Hmem.
  - apply IH; [|done..]. destruct k; cbn in Hnd; try done. by apply NoDup_cons in Hnd as [_ Hnd].
Qed.

Lemma elem_of_replaced tree rs path data :
  Forall (λ r, rp_paths (snd r) = []) rs →
  (path, data) ∈ replaced_files (assigned_over tree (tree_files tree) <$> rs) ↔
  path ∈ tree_files tree ∧ ∃ r, (JStr (_sha256 (file_data tree path)), r) ∈ rs ∧ data = rp_signed r.
Proof.
  intros Hfresh. rewrite Forall_forall in Hfresh. unfold replaced_files. rewrite list_elem_of_bind. split.
  - intros ([k x] & Hin & ([k' r] & Hkr & Hr)%list_elem_of_fmap). apply list_elem_of_fmap in Hin as (p & [= -> ->] & Hp). 
    injection Hkr as -> ->. cbn in Hp. pose proof (Hfresh _ Hr) as Hnil. cbn in Hnil. rewrite Hnil in Hp. apply elem_of_filter_bool in Hp as [Hp ->%is_str_inv]. eauto.
  - intros (Hpath & r & Hr & ->). eexists. split; [|eapply list_elem_of_fmap_2, Hr]. cbn. apply list_elem_of_fmap. exists path. split; [done|].
    pose proof (Hfresh _ Hr) as Hnil. cbn in Hnil. rewrite Hnil. apply elem_of_filter_bool. split; [done|]. cbn. by apply bool_decide_eq_true.
Qed.

(** A replacement comes from a triple of the command line. *)
Lemma replacements_from signed_arguments rs key r :
  _replacements signed_arguments = Ok rs → (key, r) ∈ rs →
  ∃ request certificate, (rp_signed r, request, certificate) ∈ signed_arguments ∧ item request "unsigned_sha256" = Ok key ∧
    isolated_certificate_der certificate = Ok (rp_certificate r).
Proof.
  intros Hrs. revert key r. revert Hrs. unfold _replacements.
  apply (foldM_inv (λ rs, ∀ key r, (key, r) ∈ rs → ∃ request certificate, (rp_signed r, request, certificate) ∈ signed_arguments ∧ item request "unsigned_sha256" = Ok key ∧
    isolated_certificate_der certificate = Ok (rp_certificate r))).
  2:{ by intros key r Hin%elem_of_nil. }
  intros acc [[signed document] certificate] acc' Harg Hacc Hadd key r Hin. unfold add_replacement in Hadd.
  destruct document as [| | | | | |items]; try done. apply bind_Ok_inv in Hadd as (digest & Hdigest & Hadd). apply bind_Ok_inv in Hadd as ([] & _ & Hadd).
  apply bind_Ok_inv in Hadd as ([] & _ & Hadd). apply bind_Ok_inv in Hadd as (der & Hder & Hadd).
  apply bind_Ok_inv in Hadd as (esp_path & _ & Hadd). injection Hadd as <-.
  apply elem_of_app in Hin as [Hin|[= -> ->]%list_elem_of_singleton]; [by apply Hacc|]. by exists (JObj items), certificate.
Qed.

(** ** loader.conf *)

Section image.
Context `{Ucd}.

(** The new loader.conf has exactly one secure-boot-enroll line, its last, and keeps every other line of the file it
    replaces, in order. *)
Theorem loader_conf_one_enroll tree mode path content :
  plain mode → _loader_conf tree mode = Ok (path, content) →
  ∃ before, (match _find (tree_files tree) _LOADER_CONF with Some old => utf8_decode (file_data tree old) | None => Some [] end) = Some before ∧
    path = default _LOADER_CONF (_find (tree_files tree) _LOADER_CONF) ∧
    splitlines content = List.filter (λ line, negb (enroll_line line)) (splitlines (universal_newlines before)) ++ [lit "secure-boot-enroll " ++ mode] ∧
    List.filter enroll_line (splitlines content) = [lit "secure-boot-enroll " ++ mode].
Proof.
  intros Hmode Hconf. unfold _loader_conf in Hconf. apply bind_Ok_inv in Hconf as (lines & Hlines & Hconf%Ok_inj%pair_eq). destruct Hconf as [<- <-].
  assert (Hread : ∃ before, (match _find (tree_files tree) _LOADER_CONF with Some old => utf8_decode (file_data tree old) | None => Some [] end) = Some before ∧
    lines = splitlines (universal_newlines before)).
  { destruct (_find _ _) as [old|]; [|injection Hlines as <-; by exists []].
    apply bind_Ok_inv in Hlines as (t & Ht%of_option_Ok & [= <-]). eauto. }
  destruct Hread as (before & Hbefore & ->). exists before.
  assert (Hsplit : splitlines (join [10] (List.filter (λ line, negb (enroll_line line)) (splitlines (universal_newlines before)) ++ [lit "secure-boot-enroll " ++ mode]) ++ [10])
    = List.filter (λ line, negb (enroll_line line)) (splitlines (universal_newlines before)) ++ [lit "secure-boot-enroll " ++ mode]).
  { rewrite join_lines. apply splitlines_lines, Forall_app_2.
    - apply Forall_forall. intros l (Hl & _)%elem_of_filter_bool. pose proof (splitlines_no_breaks (universal_newlines before)) as Hall.
      rewrite Forall_forall in Hall. auto.
    - apply Forall_singleton, Forall_app_2; [|done]. by repeat constructor. }
  split_and!; [done|done|exact Hsplit|]. rewrite Hsplit, List.filter_app.
  replace (List.filter enroll_line (List.filter _ _)) with (@nil text).
  - cbn [app List.filter]. unfold enroll_line. by rewrite bool_decide_eq_true_2.
  - symmetry. apply filter_nil_iff. intros l [_ Hl]%elem_of_filter_bool. by apply negb_true_iff in Hl.
Qed.

Lemma assign_iff tree rs rs' presigned :
  fresh_replacements rs →
  _assign tree rs = Ok (rs', presigned) ↔
  accepted tree rs ∧ rs' = assigned_over tree (tree_files tree) <$> rs ∧ presigned = _startable tree (leftover tree rs (tree_files tree)).
Proof.
  intros Hfresh. rewrite accepted_iff by done. unfold _assign. rewrite assign_loop_eq by apply Hfresh.
  cbn [mbind result_bind as_replacements as_unsigned as_signed]. rewrite !app_nil_l.
  set (unused := List.filter _ (_ <$> rs)). set (unsigned := List.filter (unsigned_file tree) _).
  destruct (bool_decide_reflect (unused = [])) as [->|Hunused].
  2:{ split; [|by intros ((? & _) & _)]. by destruct (mapM _ unused). }
  cbn [mbind result_bind]. destruct (bool_decide_reflect (unsigned = [])) as [Hu|Hu]; cbn [negb raise_if mbind result_bind]; [|naive_solver].
  subst unsigned. rewrite filter_nil_iff in Hu. replace (List.filter (λ p, negb (unsigned_file tree p)) _) with (leftover tree rs (tree_files tree)).
  - rewrite filter_nil_iff. split; [by intros [= <- <-]|by intros (_ & -> & ->)].
  - symmetry. apply filter_all. intros path Hpath. by rewrite Hu.
Qed.

(** Assigning the replacements succeeds exactly when every replacement occurs on the partition and every unsigned
    binary on it has one. Then each replacement has exactly the paths of the files with its digest, and the binaries that
    stay, which are all signed, are returned as far as they can be started. *)
Theorem assign_exact tree rs rs' presigned :
  fresh_replacements rs →
  _assign tree rs = Ok (rs', presigned) ↔
  accepted tree rs ∧ rs' = assigned_over tree (tree_files tree) <$> rs ∧ presigned = _startable tree (leftover tree rs (tree_files tree)).
Proof. apply assign_iff. Qed.

(** ** The changes *)

Definition below_loader (path : text) : bool := startswith (lower path) (lit "loader/").

Lemma below_loader_app t : below_loader (lit "loader/" ++ t) = true.
Proof. by_compute. Qed.

Lemma below_loader_lower p q : lower p = lower q → below_loader p = below_loader q.
Proof. unfold below_loader. by intros ->. Qed.

Lemma find_lower paths p found : _find paths p = Some found → found ∈ paths ∧ lower found = lower p.
Proof. intros [Hin Hl]%find_some. split; [by apply list_elem_of_In|]. by apply bool_decide_eq_true in Hl. Qed.

Lemma default_find_below paths p : below_loader p = true → below_loader (default p (_find paths p)) = true.
Proof. intros Hp. destruct (_find paths p) as [found|] eqn:Hf; [|done]. apply find_lower in Hf as [_ Hf]. cbn. by rewrite (below_loader_lower _ _ Hf). Qed.

Lemma key_path_below name : below_loader (key_path name) = true.
Proof. by_compute. Qed.

Lemma foldl_dset_get {V} path (data : V) items (d : dict text V) :
  (∀ x, (path, x) ∈ items → x = data) → (path, data) ∈ items ∨ dget path d = Some data →
  dget path (foldl (λ d '(p, x), dset p x d) d items) = Some data.
Proof.
  revert d. induction items as [|[p x] items IH]; intros d Hall Hin; cbn.
  - by destruct Hin as [Hin%elem_of_nil|].
  - apply IH; [intros; apply Hall; by right|]. rewrite dget_dset. case_decide as Hp.
    + right. subst p. rewrite (Hall x) by left. done.
    + destruct Hin as [[[= -> ->]|]%elem_of_cons|]; by auto.
Qed.

Lemma foldl_dset_other {V W} (k : text → text) (g : V → W) path items (d : dict text W) :
  (∀ name, k name ≠ path) → dget path (foldl (λ d '(name, key), dset (k name) (g key) d) d items) = dget path d.
Proof.
  intros Hall. revert d. induction items as [|[name key] items IH]; intros d; cbn; [done|].
  rewrite IH, dget_dset, decide_False; [done|]. intros ->. by apply (Hall name).
Qed.


Context (trusts : bytes → bytes → option bytes → bool) (embedded : bytes → option (bytes * bytes)) (float_repr : pyfloat → text).

(** A replaced file outside the loader directory is written with the signed binary. *)
Lemma changes_replaced files mode tree rs presigned changes manifest path data :
  _changes trusts embedded float_repr files mode tree rs presigned = Ok (changes, manifest) →
  (path, data) ∈ replaced_files rs → (∀ x, (path, x) ∈ replaced_files rs → x = data) → below_loader path = false →
  dget path changes = Some data.
Proof.
  intros Hch Hin Hall Hout. unfold _changes in Hch. apply bind_Ok_inv in Hch as ([keys changes'] & Hkeys & Hch).
  apply Ok_inj, pair_eq in Hch as [<- _]. rewrite dget_dset, decide_False.
  2:{ intros ->. by rewrite default_find_below in Hout. }
  set (replaced := foldl _ [] (replaced_files rs)) in Hkeys.
  assert (Hreplaced : dget path replaced = Some data) by (by apply foldl_dset_get; [|left]).
  destruct files as [|file files]; [by apply Ok_inj, pair_eq in Hkeys as [_ <-]|].
  apply bind_Ok_inv in Hkeys as (keys' & _ & Hkeys). apply bind_Ok_inv in Hkeys as (db & _ & Hkeys). apply bind_Ok_inv in Hkeys as ([] & _ & Hkeys).
  apply bind_Ok_inv in Hkeys as ([conf content] & Hconf & Hkeys). apply Ok_inj, pair_eq in Hkeys as [_ <-]. rewrite dget_dset, decide_False.
  - rewrite <- Hreplaced.
    apply foldl_dset_other. intros name <-. by rewrite key_path_below in Hout.
  - intros ->. unfold _loader_conf in Hconf. apply bind_Ok_inv in Hconf as (lines & _ & Hconf%Ok_inj%pair_eq). destruct Hconf as [<- _].
    by rewrite default_find_below in Hout.
Qed.

Lemma verify_iff tree changes u :
  _verify tree changes = Ok u ↔ ∀ path data, (path, data) ∈ changes → ∃ found, _find (tree_files tree) path = Some found ∧ file_data tree found = data.
Proof.
  unfold _verify. rewrite (foldM_checks (λ '(esp_path, data), match _find (tree_files tree) esp_path with Some _ => _ | None => _ end)). split.
  - intros Hall path data Hin. specialize (Hall _ Hin). cbn in Hall. destruct (_find _ _) as [found|]; [|done]. exists found.
    apply require_Ok, bool_decide_eq_true in Hall. done.
  - intros Hall [path data] Hin. destruct (Hall path data Hin) as (found & -> & <-). by rewrite bool_decide_eq_true_2.
Qed.

(** ** Enrollment *)

Lemma enrollment_keys_from files keys stem data lists :
  _enrollment_keys files = Ok keys → (stem, (data, lists)) ∈ keys →
  ∃ name signed_data, (name, data) ∈ files ∧ split_suffix name = (stem, lit ".auth") ∧ parse_auth stem data = Ok (signed_data, lists).
Proof.
  unfold _enrollment_keys. intros (keys' & Hkeys & Hmissing)%bind_Ok_inv. apply bind_Ok_inv in Hmissing as ([] & _ & [= ->]). revert stem data lists. revert Hkeys.
  apply (foldM_inv (λ keys, ∀ stem data lists, (stem, (data, lists)) ∈ keys →
    ∃ name signed_data, (name, data) ∈ files ∧ split_suffix name = (stem, lit ".auth") ∧ parse_auth stem data = Ok (signed_data, lists))).
  2:{ by intros ??? Hin%elem_of_nil. }
  intros acc [name contents] acc' Hfile Hacc Hadd stem data lists Hin. unfold add_key in Hadd. destruct (split_suffix name) as [stem' suffix] eqn:Hsplit.
  apply bind_Ok_inv in Hadd as ([] & Hok%raise_if_Ok & Hadd). apply orb_false_iff in Hok as [Hsuffix _].
  apply negb_false_iff, bool_decide_eq_true in Hsuffix. apply bind_Ok_inv in Hadd as ([signed_data lists'] & Hparse%recast_Ok & [= <-]).
  apply elem_dset in Hin as [[= -> -> ->]|Hin]; [|by apply Hacc]. rewrite Hsuffix in Hsplit. eauto.
Qed.

Lemma enrollment_keys_required files keys variable :
  _enrollment_keys files = Ok keys → variable ∈ REQUIRED → ∃ file contents, (file, contents) ∈ files ∧ split_suffix file = (variable, lit ".auth").
Proof.
  intros Hkeys Hreq. assert (Hmem : variable ∈ dkeys keys).
  { unfold _enrollment_keys in Hkeys. apply bind_Ok_inv in Hkeys as (keys' & _ & Hkeys). apply bind_Ok_inv in Hkeys as ([] & Hmissing%raise_if_Ok & [= ->]).
    apply negb_false_iff, bool_decide_eq_true in Hmissing. rewrite filter_nil_iff in Hmissing. specialize (Hmissing _ Hreq).
    by apply negb_false_iff, bool_decide_eq_true in Hmissing. }
  apply list_elem_of_fmap in Hmem as ([stem [data lists]] & Heq & Hin). cbn in Heq. subst stem.
  destruct (enrollment_keys_from _ _ _ _ _ Hkeys Hin) as (name & signed_data & Hname & Hsplit & _). eauto.
Qed.

(** openssl, or the list of db itself, accepts a certificate. *)
Definition db_trusts (lists : list (bytes * list bytes)) (der : bytes) : Prop :=
  der ∈ x509_certificates lists ∨ trusts (x509_certificates lists ≫= certificate_pem) (certificate_pem der) None = true.

Lemma check_db_trusts_inv lists rs tree presigned u :
  _check_db_trusts trusts embedded lists rs tree presigned = Ok u →
  (∀ r, r ∈ rs → db_trusts lists (rp_certificate (snd r))) ∧
  (∀ path, path ∈ presigned → ∃ signer chain, _embedded_signer embedded tree path = Ok (signer, chain) ∧
     trusts (x509_certificates lists ≫= certificate_pem) signer chain = true).
Proof.
  unfold _check_db_trusts. intros ([] & Hrs & Hpre)%bind_Ok_inv. rewrite (foldM_checks (λ r, raise_if _ _)) in Hrs. rewrite foldM_checks in Hpre. split.
  - intros r Hr. specialize (Hrs r Hr). apply raise_if_Ok, andb_false_iff in Hrs as [Hr'|Hr']; apply negb_false_iff in Hr'; [left|by right].
    by apply bool_decide_eq_true in Hr'.
  - intros path Hpath. specialize (Hpre path Hpath). apply bind_Ok_inv in Hpre as ([signer chain] & Hs & Ht%require_Ok). eauto.
Qed.

(** ** The binaries that can be started *)

Definition blank (t : text) : Prop := Forall (λ c, isspace c = true) t.

(** A value without white space around it. *)
Definition trimmed (t : text) : Prop := t ≠ [] ∧ (∀ c, head t = Some c → isspace c = false) ∧ (∀ c, last t = Some c → isspace c = false).

(** The value of a key: what is between a pair of double quotes, or all of it when there is no such pair. *)
Definition value_of (value inner : text) : Prop := value = 34 :: inner ++ [34] ∨ value = inner ∧ ¬ ∃ quoted, value = 34 :: quoted ++ [34].

(** A line [linux VALUE] or [efi VALUE] that names a path below the root of the partition: a backslash stands for a slash, and
    leading slashes do not count. *)
Definition entry_line (line path : text) : Prop :=
  ∃ lead key gap value trail inner slashes,
    line = lead ++ key ++ gap ++ value ++ trail ∧ blank lead ∧ (key = lit "linux" ∨ key = lit "efi") ∧ blank gap ∧ gap ≠ [] ∧ trimmed value ∧ blank trail ∧
    value_of value inner ∧ ((λ c, if c =? 92 then 47 else c) <$> inner) = slashes ++ path ∧ Forall (λ c, c = 47) slashes ∧ head path ≠ Some 47.

(** A boot loader entry is a file loader/entries/*.conf. *)
Definition boot_entry (path : text) : Prop := lit "loader/entries/" `prefix_of` lower path ∧ lit ".conf" `suffix_of` lower path.

(** A file that the firmware or systemd-boot can start: an .efi file, or one that a line of a boot loader entry names; paths are
    compared without case. *)
Definition startable (tree : esp_tree) (path : text) : Prop :=
  path ∈ tree_files tree ∧
  (lit ".efi" `suffix_of` lower path ∨
   ∃ entry line binary, entry ∈ tree_files tree ∧ boot_entry entry ∧ line ∈ splitlines (universal_newlines (utf8_replace (file_data tree entry))) ∧
     entry_line line binary ∧ lower path = lower binary).

Lemma replace_char_fmap a b t : replace_char a [b] t = (λ c, if c =? a then b else c) <$> t.
Proof. induction t as [|c t IH]; [done|]. unfold replace_char in *. rewrite bind_cons, IH, fmap_cons. by destruct (c =? a). Qed.

Lemma unquote_iff value inner : unquote value = inner ↔ value_of value inner.
Proof.
  unfold unquote, value_of. destruct ((2 <=? len value) && _ && _) eqn:E.
  - apply andb_true_iff in E as [[Hl Hh]%andb_true_iff Hlast]. bool_inv. destruct value as [|c value]; [done|]. injection Hh as ->.
    destruct (exists_last (l := value)) as (w & d & ->); [intros ->; rewrite len_cons in Hl; change (len []) with 0 in Hl; lia|].
    rewrite app_comm_cons, last_snoc in Hlast. injection Hlast as ->.
    assert (Hs : slice 1 (len (34 :: w ++ [34]) - 1) (34 :: w ++ [34]) = w).
    { rewrite slice_take_drop by lia. rewrite len_cons, len_app. change (len [34]) with 1. change (drop (Z.to_nat 1) (34 :: w ++ [34])) with (w ++ [34]).
      replace (Z.to_nat _) with (length w) by (unfold len; lia). apply take_app_length. }
    rewrite Hs. split; [intros <-; by left|]. intros [[= Hw]|[_ Hn]]; [by apply app_inj_tail in Hw as [-> _]|destruct Hn; by exists w].
  - assert (Hn : ¬ ∃ quoted, value = 34 :: quoted ++ [34]).
    { intros [w ->]. rewrite len_cons, len_app, app_comm_cons, last_snoc in E. change (len [34]) with 1 in E. pose proof (len_nonneg w).
      replace (2 <=? _) with true in E by lia. done. }
    split; [intros <-; by right|]. intros [->|[-> _]]; [destruct Hn; eauto|done].
Qed.

Lemma strip_iff t u : strip t = u ↔ ∃ a b, t = a ++ u ++ b ∧ blank a ∧ blank b ∧ (u = [] ∨ trimmed u).
Proof.
  unfold strip, rstrip, lstrip. rewrite rstrip_by_iff. split.
  - intros (b & Hb & Hblank & Hlast). destruct (proj1 (lstrip_by_iff _ _ _) eq_refl : ∃ a, t = a ++ lstrip_by isspace t ∧ _) as (a & Ha & Hfa & Hhead).
    exists a, b. rewrite <- Hb. split; [done|]. split; [done|]. split; [done|]. destruct u as [|c u]; [by left|right]. split; [done|]. split; [|done].
    intros d [= <-]. apply Hhead. by rewrite Hb.
  - intros (a & b & -> & Ha & Hb & [->|(Hne & Hh & Hl)]).
    + exists []. split; [|split; [done|done]]. cbn [app]. apply lstrip_by_nil. by apply Forall_app.
    + exists b. split; [|done]. apply lstrip_by_iff. exists a. split; [done|]. split; [done|]. destruct u; [done|]. intros c [= <-]. by apply Hh.
Qed.

Lemma split_first_iff line key rest :
  split_first line = Some (key, rest) ∧ key ≠ [] ↔
  rest ≠ [] ∧ (∀ c, head rest = Some c → isspace c = false) ∧ key ≠ [] ∧ Forall (λ c, isspace c = false) key ∧
  ∃ lead gap, line = lead ++ key ++ gap ++ rest ∧ blank lead ∧ blank gap ∧ gap ≠ [].
Proof.
  unfold split_first. cbv zeta. split.
  - intros [Hsf Hne]. destruct (proj1 (lstrip_by_iff isspace line _) eq_refl) as (lead & Hline & Hlead & _). unfold lstrip in Hsf.
    revert Hline Hsf. generalize (lstrip_by isspace line) as l. intros l Hline Hsf.
    pose proof (take_while_lstrip (λ c, negb (isspace c)) l) as Hl. pose proof (take_while_forall (λ c, negb (isspace c)) l) as Hk.
    destruct (proj1 (lstrip_by_iff (λ c, negb (isspace c)) l _) eq_refl) as (_ & _ & _ & Ht). revert Hl Hk Ht Hsf.
    generalize (take_while (λ c, negb (isspace c)) l) as word, (lstrip_by (λ c, negb (isspace c)) l) as tail. intros word tail -> Hk Ht Hsf.
    rewrite drop_app_length in Hsf. destruct (proj1 (lstrip_by_iff isspace tail _) eq_refl) as (gap & Htail & Hgap & Hhead).
    revert Htail Hhead Hsf. generalize (lstrip_by isspace tail) as r. intros r -> Hhead Hsf. case_bool_decide as Hr; [done|]. injection Hsf as -> ->.
    split; [done|]. split; [done|]. split; [done|]. split; [eapply Forall_impl; [done|]; intros c Hc; by apply negb_true_iff|].
    exists lead, gap. split; [done|]. split; [done|]. split; [done|]. intros ->. destruct rest as [|c rest]; [done|].
    specialize (Hhead c eq_refl). specialize (Ht c eq_refl). by rewrite Hhead in Ht.
  - intros (Hr & Hhead & Hne & Hk & lead & gap & -> & Hlead & Hgap & Hgne). split; [|done].
    assert (Hl : lstrip (lead ++ key ++ gap ++ rest) = key ++ gap ++ rest).
    { apply lstrip_by_iff. exists lead. split; [done|]. split; [done|]. destruct key as [|k key]; [done|]. intros c [= <-]. by apply Forall_cons in Hk as [Hk _]. }
    rewrite Hl. destruct gap as [|g gap]; [done|]. apply Forall_cons in Hgap as [Hg Hgap]. cbn [app].
    rewrite take_while_all by (by rewrite ?Hg || (eapply Forall_impl; [done|]; intros c Hc; cbn in *; by rewrite Hc)).
    rewrite drop_app_length. replace (lstrip (g :: gap ++ rest)) with rest; [by rewrite bool_decide_eq_false_2|].
    symmetry. apply lstrip_by_iff. exists (g :: gap). split; [done|]. split; [by constructor|done].
Qed.

Lemma lstrip_slash_iff t u : lstrip_by is_slash t = u ↔ ∃ slashes, t = slashes ++ u ∧ Forall (λ c, c = 47) slashes ∧ head u ≠ Some 47.
Proof.
  rewrite lstrip_by_iff. unfold is_slash. setoid_rewrite Z.eqb_eq. apply exist_proper. intros a. apply and_iff_compat_l, and_iff_compat_l. split.
  - intros Hu Hh. by specialize (Hu 47 Hh).
  - intros Hu c Hc. destruct (Z.eqb_spec c 47) as [->|]; [done|done].
Qed.

(** The rest of a line, cut at its first white space, is a trimmed value and trailing white space. *)
Lemma strip_rest rest value :
  rest ≠ [] ∧ (∀ c, head rest = Some c → isspace c = false) ∧ strip rest = value ↔ trimmed value ∧ ∃ trail, rest = value ++ trail ∧ blank trail.
Proof.
  rewrite strip_iff. split.
  - intros (Hne & Hh & a & b & -> & Ha & Hb & Hv). destruct Ha as [|x a Hx Ha]; [|specialize (Hh x eq_refl); congruence]. cbn [app] in *.
    destruct Hv as [->|Hv]; [|eauto]. destruct Hb as [|x b Hx Hb]; [done|]. specialize (Hh x eq_refl). congruence.
  - intros (Hv & trail & -> & Ht). pose proof Hv as (Hne & Hh & _). destruct value as [|c value]; [done|]. split; [done|]. split; [intros d [= <-]; by apply Hh|].
    exists [], trail. split; [done|]. split; [constructor|]. split; [done|by right].
Qed.

Lemma keys_plain key : key = lit "linux" ∨ key = lit "efi" → key ≠ [] ∧ Forall (λ c, isspace c = false) key.
Proof. intros [-> | ->]; split; [done|by repeat constructor|done|by repeat constructor]. Qed.

Lemma entry_binary_iff line p : entry_binary line = Some p ↔ ∃ path, entry_line line path ∧ p = lower path.
Proof.
  unfold entry_binary, entry_line. split.
  - destruct (split_first line) as [[key rest]|] eqn:Hs; [|done]. destruct (_ || _) eqn:Hkey; [|done]. intros [= <-].
    apply orb_true_iff in Hkey. rewrite !bool_decide_eq_true in Hkey. destruct (keys_plain key Hkey) as [Hne _].
    destruct (proj1 (split_first_iff line key rest) (conj Hs Hne)) as (Hr & Hh & _ & _ & lead & gap & -> & Hlead & Hgap & Hgne).
    destruct (proj1 (strip_rest rest (strip rest)) (conj Hr (conj Hh eq_refl))) as (Hv & trail & Hrest & Htrail). eexists. split; [|done].
    destruct (proj1 (lstrip_slash_iff (replace_char 92 [47] (unquote (strip rest))) _) eq_refl) as (slashes & Heq & Hsl & Hhead). rewrite replace_char_fmap in Heq at 1.
    exists lead, key, gap, (strip rest), trail, (unquote (strip rest)), slashes. rewrite <- Hrest. do 7 (split; [done|]).
    split; [by apply unquote_iff|]. by split.
  - intros (path & (lead & key & gap & value & trail & inner & slashes & -> & Hlead & Hkey & Hgap & Hgne & Hv & Htrail & Hinner & Hpath & Hsl & Hhead) & ->).
    destruct (keys_plain key Hkey) as [Hne Hplain].
    destruct (proj2 (strip_rest (value ++ trail) value) (conj Hv (ex_intro _ trail (conj eq_refl Htrail)))) as (Hr & Hh & Hstrip).
    destruct (proj2 (split_first_iff (lead ++ key ++ gap ++ value ++ trail) key (value ++ trail))) as [-> _]; [split_and!; [done..|by exists lead, gap]|].
    replace (_ || _) with true by (symmetry; apply orb_true_iff; by rewrite !bool_decide_eq_true). apply unquote_iff in Hinner. rewrite Hstrip, Hinner.
    do 2 f_equal. apply lstrip_slash_iff. exists slashes. by rewrite replace_char_fmap.
Qed.

Lemma suffix_endswith t u : endswith t u = true ↔ u `suffix_of` t.
Proof. apply bool_decide_eq_true. Qed.

(** The code finds exactly the files that can be started. *)
Lemma startable_iff tree path : path ∈ _startable tree (tree_files tree) ↔ startable tree path.
Proof.
  unfold _startable, startable. rewrite elem_of_filter_bool. apply and_iff_compat_l. rewrite orb_true_iff, suffix_endswith, bool_decide_eq_true.
  apply or_iff_compat_l. unfold referenced. rewrite list_elem_of_bind. split.
  - intros (entry & Hin & [He Hentry]%elem_of_filter_bool). unfold is_entry in Hentry. apply andb_true_iff in Hentry as [[w Hw]%startswith_spec Hc%suffix_endswith].
    unfold _entry_binaries in Hin. apply list_elem_of_omap in Hin as (line & Hline & (binary & Hb & Heq)%entry_binary_iff).
    exists entry, line, binary. split_and!; [done|split; [by exists w|done]|done|done|done].
  - intros (entry & line & binary & He & [[w Hw] Hc] & Hline & Hb & Heq). exists entry. split.
    + apply list_elem_of_omap. exists line. split; [done|]. apply entry_binary_iff. eauto.
    + apply elem_of_filter_bool. split; [done|]. apply andb_true_iff. split; [apply startswith_spec; eauto|by apply suffix_endswith].
Qed.

Context (mtools : bytes → result esp_tree) (apply : bytes → list text → list (text * bytes) → result bytes).

(** C1: A signed image is the unsigned image with only the bytes of its EFI system partition replaced, provided that the
    script keeps the size of the partition. The new partition holds, for every unsigned binary of the old one outside
    the loader directory, the signed binary of a request that names the binary's digest. *)
Theorem sign_image_sound args offset size output metadata :
  (∀ esp directories changes esp', apply esp directories changes = Ok esp' → len esp' = len esp) →
  esp_extent (ia_partition_metadata args) = Ok (offset, size) → 0 < size →
  sign_image trusts embedded float_repr mtools apply args = Ok (output, metadata) →
  ∃ esp' tree tree',
    mtools (slice offset (offset + size) (ia_image args)) = Ok tree ∧ mtools esp' = Ok tree' ∧
    len esp' = size ∧ len output = len (ia_image args) ∧
    output = slice 0 offset (ia_image args) ++ esp' ++ slice_from (offset + size) (ia_image args) ∧
    ∀ path, path ∈ tree_files tree → pe_file tree path = true → unsigned_file tree path = true → below_loader path = false →
      ∃ signed request certificate found,
        (signed, request, certificate) ∈ ia_signed args ∧ item request "unsigned_sha256" = Ok (JStr (_sha256 (file_data tree path))) ∧
        _find (tree_files tree') path = Some found ∧ file_data tree' found = signed.
Proof.
  intros Hsize Hextent Hpos Hsign. unfold sign_image in Hsign. apply bind_Ok_inv in Hsign as (rs & Hrs & Hsign).
  apply bind_Ok_inv in Hsign as ([esp offset'] & Hesp & Hsign). unfold extract_esp in Hesp. rewrite Hextent in Hesp. cbn [mbind result_bind] in Hesp.
  apply bind_Ok_inv in Hesp as ([] & Hoff%raise_if_Ok & Hesp). apply Z.ltb_ge in Hoff. rewrite copy_range_new in Hesp by lia.
  rewrite (proj2 (Z.eqb_neq size 0)) in Hesp by lia. destruct (Z.leb_spec (offset + size) (len (ia_image args))) as [Hfits|]; [|done].
  apply Ok_inj, pair_eq in Hesp as [<- <-].
  apply bind_Ok_inv in Hsign as (tree & Htree & Hsign). apply bind_Ok_inv in Hsign as ([rs' presigned] & Hassign & Hsign).
  apply bind_Ok_inv in Hsign as ([changes manifest] & Hchanges & Hsign). apply bind_Ok_inv in Hsign as (esp' & Hesp' & Hsign).
  apply bind_Ok_inv in Hsign as (tree' & Htree' & Hsign). apply bind_Ok_inv in Hsign as ([] & Hverify & Hsign).
  apply Hsize in Hesp'. rewrite len_slice in Hesp' by lia. replace (offset + size - offset) with size in Hesp' by lia.
  pose proof (len_nonneg (ia_image args)).
  rewrite copy_range_new in Hsign by lia. rewrite Z.add_0_l, Z.leb_refl, orb_true_r, slice_all in Hsign by lia. cbn [mbind result_bind] in Hsign.
  rewrite copy_range_over in Hsign by lia. rewrite Z.add_0_l, Z.leb_refl, orb_true_r, (slice_all esp'), Hesp' in Hsign by lia.
  cbn [mbind result_bind] in Hsign. apply Ok_inj, pair_eq in Hsign as [<- _].
  exists esp', tree, tree'. split_and!; [done..| |done|].
  - rewrite !len_app, len_slice, len_slice_from by lia. lia.
  - intros path Hpath Hpe Hunsigned Hout. pose proof (replacements_fresh _ _ Hrs) as Hfresh.
    apply assign_iff in Hassign as ([_ Haccepted] & -> & ->); [|done]. destruct (Haccepted path Hpath Hpe Hunsigned) as ([key r] & Hr & Hkey).
    cbn in Hkey. subst key. destruct Hfresh as [Hnd Hfresh].
    destruct (replacements_from _ _ _ _ Hrs Hr) as (request & certificate & Hargs & Hitem & _).
    assert (Hget : dget path changes = Some (rp_signed r)).
    { eapply changes_replaced; [done|apply elem_of_replaced; eauto| |done].
      intros x (_ & r' & Hr' & ->)%elem_of_replaced; [|done]. f_equal. by eapply string_keys_unique. }
    apply dget_Some_elem in Hget. rewrite verify_iff in Hverify. destruct (Hverify _ _ Hget) as (found & Hfound & Hdata).
    by exists (rp_signed r), request, certificate, found.
Qed.

(** C29: When keys are enrolled, every PE binary on the partition that can be started (a file .efi, or one that a linux
    or efi line of a boot loader entry names) is trusted by the db variable that the db.auth file carries: a replaced one by
    its request's certificate, another one by the signer that openssl finds in its signature. The files PK.auth, KEK.auth and
    db.auth are all given. *)
Theorem enrolled_binaries_trusted args output metadata :
  ia_auto_enroll_key args ≠ [] →
  sign_image trusts embedded float_repr mtools apply args = Ok (output, metadata) →
  ∃ esp offset tree name data signed_data lists,
    extract_esp (ia_image args) (ia_partition_metadata args) = Ok (esp, offset) ∧ mtools esp = Ok tree ∧
    (name, data) ∈ ia_auto_enroll_key args ∧ split_suffix name = (lit "db", lit ".auth") ∧ parse_auth (lit "db") data = Ok (signed_data, lists) ∧
    (∀ variable, variable ∈ REQUIRED → ∃ file contents, (file, contents) ∈ ia_auto_enroll_key args ∧ split_suffix file = (variable, lit ".auth")) ∧
    ∀ path, startable tree path → pe_file tree path = true →
      (∃ signed request certificate der, (signed, request, certificate) ∈ ia_signed args ∧
         item request "unsigned_sha256" = Ok (JStr (_sha256 (file_data tree path))) ∧
         isolated_certificate_der certificate = Ok der ∧ db_trusts lists der) ∨
      (∃ signer chain, _embedded_signer embedded tree path = Ok (signer, chain) ∧
         trusts (x509_certificates lists ≫= certificate_pem) signer chain = true).
Proof.
  intros Hkeys Hsign. unfold sign_image in Hsign. apply bind_Ok_inv in Hsign as (rs & Hrs & Hsign).
  apply bind_Ok_inv in Hsign as ([esp offset] & Hesp & Hsign). apply bind_Ok_inv in Hsign as (tree & Htree & Hsign).
  apply bind_Ok_inv in Hsign as ([rs' presigned] & Hassign & Hsign). apply bind_Ok_inv in Hsign as ([changes manifest] & Hchanges & _).
  unfold _changes in Hchanges. apply bind_Ok_inv in Hchanges as ([keys changes'] & Hchanges & _).
  destruct (ia_auto_enroll_key args) as [|file files]; [done|]. apply bind_Ok_inv in Hchanges as (keys' & Henroll & Hchanges).
  apply bind_Ok_inv in Hchanges as ([data lists] & Hdb%of_option_Ok & Hchanges). apply bind_Ok_inv in Hchanges as ([] & Htrust & _).
  destruct (enrollment_keys_from _ _ _ _ _ Henroll (dget_Some_elem _ _ _ Hdb)) as (name & signed_data & Hname & Hsplit & Hparse).
  exists esp, offset, tree, name, data, signed_data, lists. split_and!; [done..| |].
  - intros variable. by apply enrollment_keys_required with keys'.
  - apply check_db_trusts_inv in Htrust as [Hreplaced Hpre]. pose proof (replacements_fresh _ _ Hrs) as Hfresh.
    apply assign_iff in Hassign as (_ & -> & ->); [|done].
    intros path [Hpath Hstart]%startable_iff%elem_of_filter_bool Hpe. destruct (covered tree rs path) eqn:Hcov.
    + left. apply covered_iff in Hcov as ([key r] & Hr & Hkey). cbn in Hkey. subst key.
      destruct (replacements_from _ _ _ _ Hrs Hr) as (request & certificate & Hargs & Hitem & Hder).
      exists (rp_signed r), request, certificate, (rp_certificate r). split_and!; [done..|].
      exact (Hreplaced _ (list_elem_of_fmap_2 (assigned_over tree (tree_files tree)) _ _ Hr)).
    + right. apply Hpre. apply elem_of_filter_bool. split; [|done]. by apply elem_of_leftover.
Qed.
End image.

(** ** A demonstration: one binary to sign, one signed already, and keys to enroll *)

#[local] Existing Instance ascii_ucd.

Definition demo_auth : bytes := Eval vm_compute in
  match efi_time 2024 1 1, certificate_lists [(demo_certificate, zeros 16)] with
  | Ok ts, Ok data => match auth_file ts [x30; x01] data with Ok f => f | Err _ => [] end
  | _, _ => []
  end.

Definition demo_tree : esp_tree :=
  {| t_files := [(lit "EFI/BOOT/BOOTX64.EFI", demo_unsigned); (lit "EFI/shim.efi", demo_signed);
                 (lit "loader/entries/a.conf", blit "title A" ++ [x0a] ++ blit "linux   \Linux " ++ [x0a]); (lit "linux", demo_signed);
                 (lit "loader/loader.conf", blit "timeout 3" ++ [x0a] ++ blit "secure-boot-enroll off" ++ [x0a])];
     t_directories := [lit "EFI"; lit "EFI/BOOT"; lit "loader"; lit "loader/entries"] |}.

Definition demo_image_args : image_args := {|
  ia_image := blit "GPT!" ++ blit "partition" ++ blit "root";
  ia_partition_metadata := JObj [(lit "partitions", JList [JObj [(lit "type_guid", JStr ESP); (lit "start_bytes", JInt 4); (lit "size_bytes", JInt 9)]])];
  ia_signed := [(demo_signed, demo_request, certificate_pem demo_certificate)];
  ia_auto_enroll_key := [(lit "PK.auth", demo_auth); (lit "KEK.auth", demo_auth); (lit "db.auth", demo_auth)];
  ia_mode := lit "if-safe" |}.

Definition demo_trusts (bundle signer : bytes) (chain : option bytes) : bool := bool_decide (chain = Some (blit "chain")).
Definition demo_embedded (payload : bytes) : option (bytes * bytes) := Some (certificate_pem demo_certificate, blit "chain").
Definition demo_float (f : pyfloat) : text := [].

Definition replacements_of (rs : result (list (json * replacement))) : list (json * replacement) := match rs with Ok rs => rs | Err _ => [] end.
Definition demo_replacements : list (json * replacement) := Eval vm_compute in replacements_of (_replacements (ia_signed demo_image_args)).

Definition demo_assigned : result (list (json * replacement) * list text) := Eval vm_compute in _assign demo_tree demo_replacements.

Definition changes_of (assigned : result (list (json * replacement) * list text)) : dict text bytes :=
  match assigned ≫= λ '(rs, presigned),
    _changes demo_trusts demo_embedded demo_float (ia_auto_enroll_key demo_image_args) (ia_mode demo_image_args) demo_tree rs presigned with
  | Ok (changes, _) => changes
  | Err _ => []
  end.
Definition demo_changes : dict text bytes := Eval vm_compute in changes_of demo_assigned.

(** The script reverses the bytes of the partition, which then holds the changed files. *)
Definition demo_mtools (esp : bytes) : result esp_tree :=
  Ok (if bool_decide (esp = blit "partition") then demo_tree else {| t_files := demo_changes; t_directories := t_directories demo_tree |}).
Definition demo_apply (esp : bytes) (directories : list text) (changes : list (text * bytes)) : result bytes := Ok (reverse esp).

Definition demo_result : result (bytes * text) := Eval vm_compute in sign_image demo_trusts demo_embedded demo_float demo_mtools demo_apply demo_image_args.

Lemma assign_exact_witness :
  _assign demo_tree demo_replacements = Ok (assigned_over demo_tree (tree_files demo_tree) <$> demo_replacements, [lit "EFI/shim.efi"; lit "linux"]) ∧
  accepted demo_tree demo_replacements.
Proof.
  assert (H : _assign demo_tree demo_replacements = Ok (assigned_over demo_tree (tree_files demo_tree) <$> demo_replacements, [lit "EFI/shim.efi"; lit "linux"]))
    by by_compute.
  split; [exact H|]. apply assign_exact in H; [exact (proj1 H)|]. apply (replacements_fresh (ia_signed demo_image_args)). by_compute.
Defined.

Lemma loader_conf_one_enroll_witness :
  let content := lit "timeout 3" ++ [10] ++ lit "secure-boot-enroll if-safe" ++ [10] in
  _loader_conf demo_tree (lit "if-safe") = Ok (_LOADER_CONF, content) ∧ List.filter enroll_line (splitlines content) = [lit "secure-boot-enroll if-safe"].
Proof.
  intros content. assert (H : _loader_conf demo_tree (lit "if-safe") = Ok (_LOADER_CONF, content)) by by_compute. split; [exact H|].
  destruct (loader_conf_one_enroll demo_tree (lit "if-safe") _LOADER_CONF content) as (before & _ & _ & _ & Hone); [by repeat constructor|exact H|exact Hone].
Defined.

Definition metadata_of (r : result (bytes * text)) : text := match r with Ok (_, metadata) => metadata | Err _ => [] end.

Lemma demo_signs :
  sign_image demo_trusts demo_embedded demo_float demo_mtools demo_apply demo_image_args
  = Ok (blit "GPT!" ++ blit "noititrap" ++ blit "root", metadata_of demo_result).
Proof. by_compute. Qed.

Lemma demo_tree_read : demo_mtools (slice 4 (4 + 9) (ia_image demo_image_args)) = Ok demo_tree.
Proof. by_compute. Qed.

Lemma sign_image_sound_witness :
  ∃ esp' tree' found, demo_mtools esp' = Ok tree' ∧ blit "GPT!" ++ blit "noititrap" ++ blit "root" = blit "GPT!" ++ esp' ++ blit "root" ∧
    _find (tree_files tree') (lit "EFI/BOOT/BOOTX64.EFI") = Some found ∧ file_data tree' found = demo_signed.
Proof.
  destruct (sign_image_sound demo_trusts demo_embedded demo_float demo_mtools demo_apply demo_image_args 4 9 _ _
    ltac:(intros esp ? ? ? [= <-]; unfold len; by rewrite length_reverse) ltac:(by_compute) ltac:(lia) demo_signs)
    as (esp' & tree & tree' & Htree & Htree' & _ & _ & Hout & Hall).
  rewrite demo_tree_read in Htree. apply Ok_inj in Htree. subst tree.
  assert (Hpre : slice 0 4 (ia_image demo_image_args) = blit "GPT!") by by_compute. rewrite Hpre in Hout.
  assert (Hpost : slice_from (4 + 9) (ia_image demo_image_args) = blit "root") by by_compute. rewrite Hpost in Hout.
  destruct (Hall (lit "EFI/BOOT/BOOTX64.EFI")) as (signed & request & certificate & found & Hin & _ & Hfound & Hdata).
  - apply (bool_decide_unpack _). vm_compute. exact I.
  - by_compute.
  - by_compute.
  - by_compute.
  - exists esp', tree', found. split_and!; [exact Htree'|exact Hout|exact Hfound|]. rewrite Hdata.
    apply list_elem_of_singleton in Hin. exact (f_equal (λ x, fst (fst x)) Hin).
Defined.

Lemma enrolled_binaries_trusted_witness :
  ∃ signed_data lists signer chain, parse_auth (lit "db") demo_auth = Ok (signed_data, lists) ∧
    _embedded_signer demo_embedded demo_tree (lit "linux") = Ok (signer, chain) ∧
    demo_trusts (x509_certificates lists ≫= certificate_pem) signer chain = true.
Proof.
  destruct (enrolled_binaries_trusted demo_trusts demo_embedded demo_float demo_mtools demo_apply demo_image_args _ _ ltac:(discriminate) demo_signs)
    as (esp & offset & tree & name & data & signed_data & lists & Hesp & Htree & Hname & Hsplit & Hparse & _ & Hall).
  assert (He : extract_esp (ia_image demo_image_args) (ia_partition_metadata demo_image_args) = Ok (blit "partition", 4)) by by_compute.
  rewrite He in Hesp. apply Ok_inj, pair_eq in Hesp as [<- <-]. assert (Ht : demo_mtools (blit "partition") = Ok demo_tree) by by_compute.
  rewrite Ht in Htree. apply Ok_inj in Htree. subst tree.
  assert (Hdata : data ∈ [demo_auth; demo_auth; demo_auth]) by exact (list_elem_of_fmap_2 snd _ _ Hname).
  assert (Heq : data = demo_auth) by (rewrite !elem_of_cons in Hdata; destruct Hdata as [E|[E|[E|E]]]; [exact E..|exact (False_rect _ (not_elem_of_nil _ E))]).
  rewrite Heq in Hparse.
  destruct (Hall (lit "linux")) as [(signed & request & certificate & der & Hin & Hitem & _)|(signer & chain & Hs & Ht')].
  - apply startable_iff. apply (bool_decide_unpack _). vm_compute. exact I.
  - by_compute.
  - exfalso. apply list_elem_of_singleton in Hin. apply (f_equal (λ x, snd (fst x))) in Hin. cbn [fst snd] in Hin. rewrite Hin in Hitem. clear Hin.
    vm_compute in Hitem. discriminate.
  - exists signed_data, lists, signer, chain. split_and!; [exact Hparse|exact Hs|exact Ht'].
Defined.
