(* ===== verification/CommandLine.v ===== *)
(** * The command line of run_mkosi.py: [mkosi_runner/mkosi_options.py] and [mkosi_runner/command_line.py]

    mkosi's option table and its rule for negative numbers come from mkosi's argument parser, and [os.path.abspath] from
    the working directory of the process: they are the interface [Mkosi]. The other definitions are those of the two files. *)
From S2P Require Import Prelude Bytes PyText Collections.

(** ** mkosi_options.py *)

Definition DIRECTORY : text := lit "directory".

Inductive arity := ArgNone | ArgOne | ArgOptional.
#[export] Instance arity_eq_dec : EqDecision arity.
Proof. solve_decision. Defined.

Inductive path_kind := PathValue | TreeValue.

Record Option := {
  o_dest : text; o_arguments : arity; o_path : option path_kind; o_path_list : bool; o_constants : list text }.

Definition _items (o : Option) (value : text) : list text :=
  if o_path_list o then split_ws (replace_char 44 [32] value) else if bool_decide (value = []) then [] else [value].

(** [item.partition(":")] for a tree. *)
Definition _source (o : Option) (item : text) : text * text * text :=
  match o_path o with
  | Some TreeValue =>
      match partition_on 58 item with
      | (source, Some target) => (source, [58], target)
      | (source, None) => (source, [], [])
      end
  | _ => (item, [], [])
  end.

Definition _map_item (o : Option) (item : text) (f : text → text) : text :=
  let '(source, separator, target) := _source o item in f source ++ separator ++ target.

Definition option_declared_paths (o : Option) (value : text) : list text :=
  (λ item, (_source o item).1.1) <$> List.filter (λ item, negb (bool_decide (item ∈ o_constants o))) (_items o value).

Definition map_paths (o : Option) (value : text) (f : text → text) : text :=
  let items := (λ item, if bool_decide (item ∈ o_constants o) then item else _map_item o item f) <$> _items o value in
  if o_path_list o then join (lit ",") items else join [] items.

Record Occurrence := { oc_option : Option; oc_spelling : text; oc_index : Z; oc_prefix : text; oc_value : option text }.

(** [arguments[self.index] = self.prefix + value]. *)
Definition replace (oc : Occurrence) (arguments : list text) (value : text) : list text :=
  <[Z.to_nat (oc_index oc) := oc_prefix oc ++ value]> arguments.

(** mkosi's argument parser and the process: the options by spelling, the arguments that it reads as negative numbers, and
    [os.path.abspath]. *)
Class Mkosi := {
  option_table : dict text Option;
  _is_negative_number : text → bool;
  abspath : text → text }.

(** The release stages. *)
Inductive stage := StageImage | StageBase | StageFinalize.
#[export] Instance stage_eq_dec : EqDecision stage.
Proof. solve_decision. Defined.

Definition is_some {A} (o : option A) : bool := match o with Some _ => true | None => false end.

Section mkosi.
Context `{Mkosi} `{Ucd}.

Definition option_ (spelling : text) : result Option :=
  of_option (SystemExit "mkosi has no {} option; this mkosi version is not supported" [AText spelling])
    (dget spelling option_table).

Definition _parse_option (argument : text) : option (text * text * option text) :=
  if dmem argument option_table then Some (argument, argument, None) else
  if negb (startswith argument (lit "-")) || (len argument =? 1) then None else
  let attached := match partition_on 61 argument with
    | (name, Some value) => if dmem name option_table then Some (name, name ++ [61], Some value) else None
    | (_, None) => None
    end in
  match attached with
  | Some found => Some found
  | None =>
      let short := slice 0 2 argument in
      if negb (bool_decide (argument !! 1%nat = Some 45)) && dmem short option_table
      then Some (short, short, Some (slice_from 2 argument)) else None
  end.

Definition _is_option (argument : text) : bool :=
  if negb (startswith argument (lit "-")) || (len argument =? 1) then false
  else match _parse_option argument with
    | Some _ => true
    | None => negb (_is_negative_number argument) && negb (bool_decide (32 ∈ argument))
    end.

Definition takes_none (spelling : text) : bool :=
  match dget spelling option_table with Some o => bool_decide (o_arguments o = ArgNone) | None => false end.

(** The loop of [_scan] over the rest of a single-dash flag; [None] when the argument is skipped. *)
Fixpoint flags_loop (spelling prefix explicit : text) : option (text * text * option text) :=
  match explicit with
  | [] => Some (spelling, prefix, Some [])
  | c :: rest =>
      if negb (takes_none spelling) then Some (spelling, prefix, Some explicit) else
      if endswith prefix (lit "=") || negb (dmem [45; c] option_table) then None else
      match rest with
      | [] => Some ([45; c], prefix ++ [c], None)
      | d :: rest' => if d =? 61 then flags_loop [45; c] (prefix ++ [c] ++ lit "=") rest' else flags_loop [45; c] (prefix ++ [c]) rest
      end
  end.

(** [_scan]: the occurrences it appends and the next index. *)
Definition _scan (arguments : list text) (index : Z) : result (list Occurrence * Z) :=
  argument ← get arguments index;
  let parsed := '(spelling, prefix, explicit) ← _parse_option argument;
    match explicit with Some e => flags_loop spelling prefix e | None => Some (spelling, prefix, None) end in
  match parsed with
  | None => mret ([], index + 1)
  | Some (spelling, prefix, explicit) =>
      current ← of_option KeyError (dget spelling option_table);
      let occurrence i p v := {| oc_option := current; oc_spelling := spelling; oc_index := i; oc_prefix := p; oc_value := v |} in
      if bool_decide (o_arguments current = ArgNone) || bool_decide (explicit ≠ None) then
        mret ([occurrence index prefix explicit], index + 1)
      else
        let following := index + 1 in
        match arguments !! Z.to_nat following with
        | Some value =>
            if negb (bool_decide (value = lit "--")) && negb (_is_option value)
            then mret ([occurrence following [] (Some value)], following + 1)
            else mret ([occurrence index prefix None], index + 1)
        | None => mret ([occurrence index prefix None], index + 1)
        end
  end.

Fixpoint occurrences_loop (fuel : nat) (arguments : list text) (index : Z) : result (list Occurrence) :=
  match arguments !! Z.to_nat index with
  | None => mret []
  | Some argument =>
      if bool_decide (argument = lit "--") then mret [] else
      match fuel with
      | O => Err OutOfFuel
      | S fuel =>
          '(found, next) ← _scan arguments index;
          rest ← occurrences_loop fuel arguments next;
          mret (found ++ rest)
      end
  end.

Definition occurrences (arguments : list text) : result (list Occurrence) :=
  occurrences_loop (length arguments) arguments 0.

(** ** command_line.py *)

(** The value of a preamble option after its conversion. *)
Inductive preamble_arg := PText (t : text) | PInt (z : Z) | PTexts (ts : list text).

(** The preamble: an attribute that no option sets is [None]. *)
Record Preamble := { executable_paths : list text; attributes : dict text preamble_arg }.

Definition _source_date_epoch (value : text) : result preamble_arg :=
  PInt <$> of_option (SystemExit "release source date epoch must be an integer" []) (py_int value).

Definition _snapshot_components (value : text) : result preamble_arg :=
  let components := split_on 44 value in
  raise_if (negb (bool_decide (lit "main" ∈ components)) || bool_decide ([] ∈ components))
    (SystemExit "Debian snapshot components must be a comma-separated list including main" []);;
  mret (PTexts components).

Definition _verbatim (value : text) : result preamble_arg := Ok (PText value).
Definition abspath_arg (value : text) : result preamble_arg := Ok (PText (abspath value)).

Definition _EXECUTABLE_PATH_OPTION : text := lit "--executable-path".

Definition _PREAMBLE_OPTIONS : dict text (text * (text → result preamble_arg)) :=
  [(lit "--staging-manifest", (lit "staging_manifest", abspath_arg));
   (lit "--debian-tools-archive", (lit "debian_tools_archive", abspath_arg));
   (lit "--debian-tools-extractor", (lit "debian_tools_extractor", abspath_arg));
   (lit "--debian-tools-sha256", (lit "debian_tools_sha256", _verbatim));
   (lit "--kernel-preflight", (lit "kernel_preflight", abspath_arg));
   (lit "--debian-snapshot-repository", (lit "debian_snapshot_repository", abspath_arg));
   (lit "--release-seed", (lit "release_seed", _verbatim));
   (lit "--release-source-date-epoch", (lit "release_source_date_epoch", _source_date_epoch));
   (lit "--release-distribution", (lit "release_distribution", _verbatim));
   (lit "--release-codename", (lit "release_codename", _verbatim));
   (lit "--release-snapshot", (lit "release_snapshot", _verbatim));
   (lit "--release-firmware", (lit "release_firmware", _verbatim));
   (lit "--image-version-file", (lit "image_version_file", abspath_arg));
   (lit "--slot-label-image-id", (lit "slot_label_image_id", _verbatim));
   (lit "--release-base-tree", (lit "release_base_tree", abspath_arg));
   (lit "--release-initrd", (lit "release_initrd", abspath_arg));
   (lit "--release-base-initrd-output", (lit "release_base_initrd_output", abspath_arg));
   (lit "--debian-snapshot-components", (lit "debian_snapshot_components", _snapshot_components))].

(** [_apply_preamble_option] at the option [opt] of the arguments that follow; the result has the arguments after its value. *)
Definition _apply_preamble_option (preamble : Preamble) (opt : text) (following : list text) : result (Preamble * list text) :=
  let invalid := SystemExit "invalid run_mkosi.py preamble" [] in
  require (bool_decide (opt = _EXECUTABLE_PATH_OPTION) || dmem opt _PREAMBLE_OPTIONS) invalid;;
  match following with
  | [] => Err invalid
  | value :: rest =>
      if bool_decide (opt = _EXECUTABLE_PATH_OPTION) then
        mret ({| executable_paths := executable_paths preamble ++ [value]; attributes := attributes preamble |}, rest)
      else
        '(name, convert) ← of_option KeyError (dget opt _PREAMBLE_OPTIONS);
        v ← convert value;
        mret ({| executable_paths := executable_paths preamble; attributes := dset name v (attributes preamble) |}, rest)
  end.

(** The loop of [parse_preamble] at a suffix of the arguments. *)
Fixpoint preamble_loop (fuel : nat) (preamble : Preamble) (argv : list text) : result (Preamble * list text) :=
  match fuel, argv with
  | _, [] => Err (SystemExit "run_mkosi.py preamble is missing --" [])
  | O, _ => Err OutOfFuel
  | S fuel, opt :: following =>
      if bool_decide (opt = lit "--") then mret (preamble, following)
      else '(preamble, rest) ← _apply_preamble_option preamble opt following; preamble_loop fuel preamble rest
  end.

Definition parse_preamble (argv : list text) : result (Preamble * list text) :=
  '(preamble, arguments) ← preamble_loop (length argv) {| executable_paths := []; attributes := [] |} argv;
  let preflight := match dget (lit "kernel_preflight") (attributes preamble) with Some (PText (_ :: _)) => true | _ => false end in
  require preflight (SystemExit "run_mkosi.py requires --kernel-preflight" []);;
  mret (preamble, arguments).

(** [preamble_value], over the pairs of [range(0, len(argv) - 1, 2)]. *)
Fixpoint preamble_value (argv : list text) (opt : text) : option text :=
  match argv with
  | name :: value :: rest =>
      if bool_decide (name = lit "--") then None
      else if bool_decide (name = opt) then Some value else preamble_value rest opt
  | _ => None
  end.

Definition _occurrences_of (arguments : list text) (opt : text) : result (list Occurrence) :=
  o ← option_ opt;
  found ← occurrences arguments;
  mret (List.filter (λ oc, bool_decide (o_dest (oc_option oc) = o_dest o)) found).

(** [argv[argv.index("--") + 1:]]. *)
Fixpoint after_separator (argv : list text) : result (list text) :=
  match argv with
  | [] => Err (ValueError "'--' is not in list" [])
  | a :: argv => if bool_decide (a = lit "--") then mret argv else after_separator argv
  end.

Definition mkosi_option_value (argv : list text) (opt : text) : result text :=
  arguments ← after_separator argv;
  found ← _occurrences_of arguments opt;
  match found with
  | [oc] => of_option (SystemExit "expected exactly one mkosi {} argument" [AText opt]) (oc_value oc)
  | _ => Err (SystemExit "expected exactly one mkosi {} argument" [AText opt])
  end.

Definition value_after (arguments : list text) (opt : text) : result text :=
  found ← _occurrences_of arguments opt;
  of_option (SystemExit "mkosi {} argument is missing" [AText opt]) (last found ≫= oc_value).

Definition missing_value : exn := SystemExit "mkosi path option is missing its value" [].

Definition configuration_directory (arguments : list text) : result (option Occurrence) :=
  found ← occurrences arguments;
  match last (List.filter (λ oc, bool_decide (o_dest (oc_option oc) = DIRECTORY)) found) with
  | Some oc => if bool_decide (oc_value oc = None) then Err missing_value else mret (Some oc)
  | None => mret None
  end.

Definition path_occurrences (arguments : list text) : result (list Occurrence) :=
  found ← occurrences arguments;
  let found := List.filter (λ oc, match o_path (oc_option oc) with Some _ => true | None => false end) found in
  raise_if (existsb (λ oc, bool_decide (oc_value oc = None)) found) missing_value;;
  mret found.

Definition absolute_paths (arguments : list text) : result (list text) :=
  found ← path_occurrences arguments;
  mret (foldl (λ result oc, replace oc result (map_paths (oc_option oc) (default [] (oc_value oc)) abspath)) arguments found).

Definition declared_paths (arguments : list text) : result (list text) :=
  found ← path_occurrences arguments;
  mret (found ≫= λ oc, option_declared_paths (oc_option oc) (default [] (oc_value oc))).

(** The positions of the arguments that satisfy a test. *)
Fixpoint positions (f : text → bool) (i : nat) (l : list text) : list nat :=
  match l with [] => [] | x :: l => if f x then i :: positions f (S i) l else positions f (S i) l end.

Definition with_image_version (arguments : list text) (image_version : text) : result (list text) :=
  match positions (λ a, startswith a (lit "--image-id=")) 0 arguments with
  | [i] => mret (take (S i) arguments ++ [lit "--image-version=" ++ image_version] ++ drop (S i) arguments)
  | _ => Err (SystemExit "--image-version-file requires exactly one --image-id= mkosi argument" [])
  end.

Definition _requested_release_stage (repository base_tree initrd base_initrd_output : option text) : result (option stage) :=
  if is_some base_tree || is_some initrd then
    require (is_some base_tree && is_some initrd)
      (SystemExit "release finalization requires both --release-base-tree and --release-initrd" []);;
    raise_if (is_some repository || is_some base_initrd_output)
      (SystemExit "release finalization cannot use the Debian snapshot or produce a base" []);;
    mret (Some StageFinalize)
  else if is_some repository then mret (Some (if is_some base_initrd_output then StageBase else StageImage))
  else
    raise_if (is_some base_initrd_output) (SystemExit "a release base requires the Debian snapshot repository" []);;
    mret None.

Definition release_stage (release : bool) (repository base_tree initrd base_initrd_output : option text) : result (option stage) :=
  s ← _requested_release_stage repository base_tree initrd base_initrd_output;
  raise_if (negb (Bool.eqb (is_some s) release) && negb (bool_decide (s = Some StageImage)))
    (SystemExit "incomplete release configuration" []);;
  mret (if release then s else None).
End mkosi.
