(* ===== verification/CommandLineProofs.v ===== *)
(** * The command line: what the scanner finds and what rewriting paths keeps *)
From S2P Require Import Prelude Bytes PyText Collections CommandLine.

Section mkosi.
Context `{Mkosi} `{Ucd}.

(** ** Parsing one argument *)

(** An attached value ends its argument; without one the prefix is the whole argument. *)
Definition splits (argument prefix : text) (explicit : option text) : Prop :=
  match explicit with Some e => argument = prefix ++ e | None => prefix = argument end.

Lemma dmem_dget s : dmem s option_table = true ↔ ∃ o, dget s option_table = Some o.
Proof.
  unfold dmem. rewrite bool_decide_eq_true. split.
  - intros Hs. destruct (dget s option_table) as [o|] eqn:E; [by exists o|]. by apply dget_None in E.
  - intros [o Ho]. apply dget_Some_elem in Ho. by apply (list_elem_of_fmap_2 fst) in Ho.
Qed.

Lemma parse_option_splits a sp pre ex :
  _parse_option a = Some (sp, pre, ex) → dmem sp option_table = true ∧ splits a pre ex.
Proof.
  unfold _parse_option. destruct (dmem a option_table) eqn:Ea; [by intros [= <- <- <-]|].
  destruct (negb _ || _); [done|]. destruct (partition_on 61 a) as [name [value|]] eqn:Ep.
  - apply partition_on_Some in Ep as [-> _]. destruct (dmem name option_table) eqn:En.
    { intros [= <- <- <-]. split; [done|]. simpl. by rewrite <- app_assoc. }
    destruct (negb _ && dmem _ _) eqn:E; [|done]. intros [= <- <- <-]. bool_inv. split; [done|]. simpl.
    by rewrite slice_slice_from.
  - destruct (negb _ && dmem _ _) eqn:E; [|done]. intros [= <- <- <-]. bool_inv. split; [done|]. simpl.
    by rewrite slice_slice_from.
Qed.

Lemma flags_loop_splits e sp pre sp' pre' ex :
  dmem sp option_table = true → flags_loop sp pre e = Some (sp', pre', ex) →
  dmem sp' option_table = true ∧ splits (pre ++ e) pre' ex.
Proof.
  remember (length e) as n eqn:Hn. revert e sp pre Hn. induction (lt_wf n) as [n _ IH]. intros e sp pre Hn Hsp Hf.
  destruct e as [|c rest]; cbn [flags_loop] in Hf; [by injection Hf as <- <- <-|].
  destruct (negb (takes_none sp)); [by injection Hf as <- <- <-|].
  destruct (endswith pre _ || _) eqn:Ed; [done|]. bool_inv. destruct rest as [|d rest']; [by injection Hf as <- <- <-|].
  destruct (d =? 61) eqn:E; bool_inv.
  - subst d. destruct (IH (length rest') ltac:(subst n; simpl; lia) rest' _ _ eq_refl ltac:(done) Hf) as [Hm Hs]. split; [done|].
    by rewrite <- !app_assoc in Hs.
  - destruct (IH (length (d :: rest')) ltac:(subst n; simpl; lia) (d :: rest') _ _ eq_refl ltac:(done) Hf) as [Hm Hs]. split; [done|].
    by rewrite <- !app_assoc in Hs.
Qed.

(** What [_scan] reads in one argument. *)
Definition read_argument (a : text) : option (text * text * option text) :=
  '(spelling, prefix, explicit) ← _parse_option a;
  match explicit with Some e => flags_loop spelling prefix e | None => Some (spelling, prefix, None) end.

Lemma read_argument_splits a sp pre ex :
  read_argument a = Some (sp, pre, ex) → dmem sp option_table = true ∧ splits a pre ex.
Proof.
  unfold read_argument. destruct (_parse_option a) as [[[sp0 pre0] ex0]|] eqn:Ep; [|done].
  apply parse_option_splits in Ep as [Hm Hs]. cbn. destruct ex0 as [e|]; [|by intros [= <- <- <-]].
  intros Hf. simpl in Hs. subst a. by eapply flags_loop_splits.
Qed.

(** ** Scanning *)

(** An occurrence names an option of the table, and its value is its argument without the prefix. *)
Definition occurs (arguments : list text) (oc : Occurrence) : Prop :=
  0 <= oc_index oc < len arguments ∧ dget (oc_spelling oc) option_table = Some (oc_option oc) ∧
  ∀ v, oc_value oc = Some v → arguments !! Z.to_nat (oc_index oc) = Some (oc_prefix oc ++ v).

Lemma scan_spec arguments index :
  0 <= index < len arguments →
  ∃ found next, _scan arguments index = Ok (found, next) ∧ index < next ∧ (length found ≤ 1)%nat ∧
    Forall (λ oc, index <= oc_index oc < next ∧ occurs arguments oc) found.
Proof.
  intros Hi. destruct (get_in_range arguments index Hi) as (a & Hget & Ha). unfold _scan. rewrite Hget. cbn [mbind result_bind].
  fold (read_argument a). destruct (read_argument a) as [[[sp pre] ex]|] eqn:Er.
  2: { exists [], (index + 1). split_and!; [done|lia|simpl; lia|constructor]. }
  destruct (read_argument_splits _ _ _ _ Er) as [[o Ho]%dmem_dget Hs]. rewrite Ho. cbn [of_option mbind result_bind].
  destruct (bool_decide (o_arguments o = ArgNone) || bool_decide (ex ≠ None)).
  { eexists _, _. split_and!; [done|lia|simpl; lia|]. constructor; [|constructor]. simpl. split; [lia|]. split_and!; [simpl; lia..|done|].
    simpl. intros v ->. simpl in Hs. by subst a. }
  assert (Hnone : ∃ found next,
    Ok (([{| oc_option := o; oc_spelling := sp; oc_index := index; oc_prefix := pre; oc_value := None |}] : list Occurrence), index + 1) =
      Ok (found, next) ∧ index < next ∧ (length found ≤ 1)%nat ∧
      Forall (λ oc, index <= oc_index oc < next ∧ occurs arguments oc) found).
  { eexists _, _. split_and!; [done|lia|simpl; lia|]. constructor; [|constructor]. simpl. split; [lia|]. split_and!; [simpl; lia..|done|done]. }
  destruct (arguments !! Z.to_nat (index + 1)) as [value|] eqn:Ev; [|exact Hnone].
  destruct (negb _ && negb _); [|exact Hnone].
  eexists _, _. split_and!; [done|lia|simpl; lia|]. constructor; [|constructor]. simpl.
  assert (Hlt := lookup_lt_Some _ _ _ Ev). split; [lia|]. split_and!; [simpl; unfold len; lia..|done|]. simpl. intros v [= <-]. done.
Qed.

(** Sorted by position. *)
Definition in_order (found : list Occurrence) : Prop := StronglySorted (λ a b, oc_index a < oc_index b) found.

Lemma occurrences_loop_spec fuel arguments index :
  0 <= index → len arguments <= index + Z.of_nat fuel →
  ∃ found, occurrences_loop fuel arguments index = Ok found ∧ in_order found ∧
    Forall (λ oc, index <= oc_index oc ∧ occurs arguments oc) found.
Proof.
  assert (Hnil : ∀ index, ∃ found, Ok [] = Ok found ∧ in_order found ∧
    Forall (λ oc, index <= oc_index oc ∧ occurs arguments oc) found).
  { intros i. exists []. split_and!; [done|constructor|constructor]. }
  revert index. induction fuel as [|fuel IH]; intros index Hi Hf; cbn [occurrences_loop];
    (destruct (arguments !! Z.to_nat index) as [a|] eqn:Ea; [|apply Hnil]); (case_bool_decide; [apply Hnil|]);
    assert (Hlt := lookup_lt_Some _ _ _ Ea).
  { unfold len in Hf. lia. }
  destruct (scan_spec arguments index) as (f & next & Hs & Hn & Hl & Hfa); [unfold len; lia|]. rewrite Hs. cbn [mbind result_bind].
  destruct (IH next) as (rest & -> & Ho & Hr); [lia|lia|]. exists (f ++ rest). split_and!; [done| |].
  - destruct f as [|oc [|? ?]]; [done| |simpl in Hl; lia]. simpl. constructor; [done|]. apply Forall_cons in Hfa as [[? _] _].
    eapply Forall_impl; [exact Hr|]. intros oc' [? _]. simpl. lia.
  - apply Forall_app. split; (eapply Forall_impl; [eassumption|]); intros oc [? ?]; split; (done || lia).
Qed.

Lemma occurrences_spec arguments :
  ∃ found, occurrences arguments = Ok found ∧ in_order found ∧ Forall (occurs arguments) found.
Proof.
  destruct (occurrences_loop_spec (length arguments) arguments 0) as (found & Hf & Ho & Hfa); [lia|unfold len; lia|].
  exists found. split_and!; [done..|]. eapply Forall_impl; [exact Hfa|]. by intros oc [_ ?].
Qed.

(** ** Rewriting paths *)

(** An occurrence with its paths made absolute. *)
Definition path_value (oc : Occurrence) : option text :=
  match o_path (oc_option oc), oc_value oc with
  | Some _, Some v => Some (map_paths (oc_option oc) v abspath)
  | _, _ => None
  end.

Definition absolute (oc : Occurrence) : Occurrence :=
  match path_value oc with
  | Some v => {| oc_option := oc_option oc; oc_spelling := oc_spelling oc; oc_index := oc_index oc; oc_prefix := oc_prefix oc;
                 oc_value := Some v |}
  | None => oc
  end.

(** The argument list with the values of path options rewritten in place. *)
Definition rewrites (arguments arguments' : list text) (found : list Occurrence) : Prop :=
  length arguments' = length arguments ∧
  (∀ oc v, oc ∈ found → path_value oc = Some v → arguments' !! Z.to_nat (oc_index oc) = Some (oc_prefix oc ++ v)) ∧
  (∀ i : nat, (∀ oc v, oc ∈ found → path_value oc = Some v → Z.to_nat (oc_index oc) ≠ i) → arguments' !! i = arguments !! i).

Definition rewrite_value (result : list text) (oc : Occurrence) : list text :=
  replace oc result (map_paths (oc_option oc) (default [] (oc_value oc)) abspath).

Lemma rewrite_values_spec found arguments :
  in_order found → Forall (occurs arguments) found → (∀ oc, oc ∈ found → path_value oc ≠ None) →
  rewrites arguments (foldl rewrite_value arguments found) found.
Proof.
  intros Ho Hf Hp. induction found as [|oc found IH] using rev_ind.
  { split_and!; [done|by intros oc v ?%elem_of_nil|done]. }
  rewrite foldl_app. cbn [foldl]. apply Forall_app in Hf as [Hf Hoc]. apply Forall_cons in Hoc as [Hoc _].
  assert (Hord : Forall (λ a, oc_index a < oc_index oc) found).
  { clear -Ho. induction found as [|a found IH]; [constructor|]. simpl in Ho. inv Ho. constructor; [|auto].
    rewrite Forall_forall in H2. apply H2. set_solver. }
  destruct IH as (Hl & Hin & Hout).
  { clear -Ho. unfold in_order in *. induction found as [|a found IH]; [constructor|]. simpl in Ho. inv Ho.
    constructor; [auto|]. by apply Forall_app in H2 as [? _]. }
  { done. }
  { intros a Ha. apply Hp. set_solver. }
  destruct Hoc as (Hi & _ & _). unfold rewrite_value at 1, replace. split_and!.
  - by rewrite length_insert.
  - intros a v [Ha|Ha]%elem_of_app Hv.
    + rewrite Forall_forall in Hord. rewrite Forall_forall in Hf. specialize (Hord a Ha). destruct (Hf a Ha) as (? & _).
      rewrite list_lookup_insert_ne by lia. by apply Hin.
    + apply list_elem_of_singleton in Ha as ->. rewrite list_lookup_insert_eq by (unfold len in *; lia).
      unfold path_value in Hv. destruct (o_path (oc_option oc)), (oc_value oc); try done. by injection Hv as <-.
  - intros i Hno. rewrite list_lookup_insert_ne.
    + apply Hout. intros a v Ha. apply Hno. set_solver.
    + destruct (path_value oc) as [v|] eqn:Ev; [|by destruct (Hp oc ltac:(set_solver))]. eapply Hno; [|exact Ev]. set_solver.
Qed.

Lemma in_order_filter f found : in_order found → in_order (List.filter f found).
Proof.
  unfold in_order. induction 1 as [|a found Hs IH Ha]; [constructor|]. simpl. destruct (f a); [|done]. constructor; [done|].
  apply Forall_forall. intros x Hx. rewrite Forall_forall in Ha. apply Ha.
  apply list_elem_of_In, List.filter_In in Hx as [Hx _]. by apply list_elem_of_In.
Qed.

(** [absolute_paths] rewrites exactly the values of path options, in place. *)
Lemma absolute_paths_spec arguments arguments' :
  absolute_paths arguments = Ok arguments' →
  ∃ found, occurrences arguments = Ok found ∧ in_order found ∧ Forall (occurs arguments) found ∧
    rewrites arguments arguments' found ∧ ∀ oc, oc ∈ found → o_path (oc_option oc) ≠ None → oc_value oc ≠ None.
Proof.
  destruct (occurrences_spec arguments) as (found & Hocc & Ho & Hf). unfold absolute_paths, path_occurrences. rewrite Hocc.
  cbn [mbind result_bind]. set (paths := List.filter _ found). intros Ha.
  apply bind_Ok_inv in Ha as (l & Hl & Ha). apply bind_Ok_inv in Hl as ([] & Hm%raise_if_Ok & [= <-]). injection Ha as <-.
  assert (Hvals : ∀ oc, oc ∈ paths → oc_value oc ≠ None).
  { intros oc Hoc Hn. apply not_true_iff_false in Hm. apply Hm, existsb_exists. exists oc. split; [by apply list_elem_of_In|].
    by apply bool_decide_eq_true. }
  assert (Hpaths : ∀ oc, oc ∈ paths ↔ oc ∈ found ∧ o_path (oc_option oc) ≠ None).
  { intros oc. unfold paths. rewrite list_elem_of_In, List.filter_In, <- list_elem_of_In. destruct (o_path (oc_option oc)); naive_solver. }
  exists found. split_and!; [done..| |].
  2: { intros oc Hoc Hp. apply Hvals. by apply Hpaths. }
  destruct (rewrite_values_spec paths arguments) as (Hlen & Hin & Hout).
  - by apply in_order_filter.
  - apply Forall_forall. intros oc Hoc. rewrite Forall_forall in Hf. apply Hf. by apply Hpaths.
  - intros oc Hoc. specialize (Hvals oc Hoc). apply Hpaths in Hoc as [_ Hp]. unfold path_value.
    destruct (o_path (oc_option oc)), (oc_value oc); done.
  - split_and!; [done| |].
    + intros oc v Hoc Hv. apply Hin; [|done]. apply Hpaths. split; [done|]. unfold path_value in Hv. by destruct (o_path (oc_option oc)).
    + intros i Hno. apply Hout. intros oc v Hoc. apply Hno. by apply Hpaths in Hoc as [? _].
Qed.
End mkosi.

(** ** Reading the rewritten arguments again *)

(** What mkosi's table and [os.path.abspath] guarantee: spellings are dashed words, a constant is no option, lists of paths have
    long spellings only, and absolute paths start with a slash. *)
Class MkosiLaws `{Mkosi} : Prop := {
  abspath_absolute : ∀ p, ∃ q, abspath p = 47 :: q;
  spelling_form : ∀ s o, dget s option_table = Some o → ∃ c r, s = 45 :: c :: r ∧ s ≠ lit "--" ∧ (47 ∉ s) ∧ (61 ∉ s);
  constant_form : ∀ s o k, dget s option_table = Some o → k ∈ o_constants o → head k ≠ Some 45;
  list_spelling : ∀ s o, dget s option_table = Some o → o_path_list o = true → ∃ r, s = 45 :: 45 :: r }.

Section laws.
Context `{MkosiLaws} `{Ucd}.

Lemma slash_not_spelling s : 47 ∈ s → dmem s option_table = false.
Proof.
  intros Hs. apply not_true_iff_false. intros [o Ho]%dmem_dget. destruct (spelling_form _ _ Ho) as (? & ? & _ & _ & Hn & _). done.
Qed.
Lemma equals_not_spelling s : 61 ∈ s → dmem s option_table = false.
Proof.
  intros Hs. apply not_true_iff_false. intros [o Ho]%dmem_dget. destruct (spelling_form _ _ Ho) as (? & ? & _ & _ & _ & Hn). done.
Qed.

Lemma map_item_slash o item : ∃ q, _map_item o item abspath = 47 :: q.
Proof.
  unfold _map_item. destruct (_source o item) as [[source separator] target].
  destruct (abspath_absolute source) as [q ->]. eauto.
Qed.

Lemma map_paths_nil o : map_paths o [] abspath = [].
Proof. unfold map_paths, _items. by destruct (o_path_list o). Qed.

Lemma map_paths_constant o v :
  o_path_list o = false → v ∈ o_constants o → map_paths o v abspath = v.
Proof.
  intros Hl Hv. unfold map_paths, _items. rewrite Hl. case_bool_decide as E; [by subst|]. cbn. by rewrite bool_decide_true by done.
Qed.

Lemma map_paths_slash o v :
  o_path_list o = false → v ≠ [] → v ∉ o_constants o → ∃ q, map_paths o v abspath = 47 :: q.
Proof.
  intros Hl Hv Hc. unfold map_paths, _items. rewrite Hl. rewrite bool_decide_false by done. cbn. rewrite bool_decide_false by done.
  apply map_item_slash.
Qed.

Lemma split_ws_nonempty t : Forall (λ w, w ≠ []) (split_ws t).
Proof.
  unfold split_ws. assert (Hg : ∀ cur, Forall (λ w, w ≠ []) (split_ws_aux cur t)); [|apply Hg].
  induction t as [|c t IH]; intros cur; simpl; repeat case_match; repeat constructor; auto;
    repeat match goal with H : bool_decide _ = _ |- _ => first [apply bool_decide_eq_true in H | apply bool_decide_eq_false in H] end;
    try (intros Hr; apply (f_equal length) in Hr; rewrite ?length_reverse in Hr; destruct cur; done).
Qed.

(** A rewritten value never looks like an option. *)
Lemma map_paths_head s o v : dget s option_table = Some o → head (map_paths o v abspath) ≠ Some 45.
Proof.
  intros Ho. destruct (o_path_list o) eqn:Hl.
  - unfold map_paths, _items. rewrite Hl. assert (Hw := split_ws_nonempty (replace_char 44 [32] v)).
    destruct (split_ws _) as [|w ws]; [done|]. apply Forall_cons in Hw as [Hw _]. rewrite fmap_cons.
    assert (Hi : ∃ c r, (if bool_decide (w ∈ o_constants o) then w else _map_item o w abspath) = c :: r ∧ c ≠ 45).
    { case_bool_decide as E.
      - destruct w as [|c r]; [done|]. exists c, r. split; [done|]. intros ->. by apply (constant_form _ _ _ Ho E).
      - destruct (map_item_slash o w) as [q ->]. by exists 47, q. }
    destruct Hi as (c & r & -> & Hc). destruct (_ <$> ws); simpl; congruence.
  - destruct (decide (v = [])) as [->|Hv]; [by rewrite map_paths_nil|].
    destruct (decide (v ∈ o_constants o)) as [Hc|Hc]; [rewrite map_paths_constant by done; by eapply constant_form|].
    destruct (map_paths_slash o v Hl Hv Hc) as [q ->]. done.
Qed.

(** The two ways to attach a value. *)
Lemma parse_option_attached a sp pre e :
  _parse_option a = Some (sp, pre, Some e) →
  (pre = sp ++ [61] ∧ a = sp ++ 61 :: e) ∨
  (∃ c, sp = [45; c] ∧ pre = [45; c] ∧ a = 45 :: c :: e ∧ c ≠ 45 ∧
    ∀ name value, a = name ++ 61 :: value → 61 ∉ name → dmem name option_table = false).
Proof.
  unfold _parse_option. destruct (dmem a option_table) eqn:Ea; [done|]. destruct (negb _ || _); [done|].
  assert (Hshort : (∀ name value, a = name ++ 61 :: value → 61 ∉ name → dmem name option_table = false) →
    (if negb (bool_decide (a !! 1%nat = Some 45)) && dmem (slice 0 2 a) option_table
     then Some (slice 0 2 a, slice 0 2 a, Some (slice_from 2 a)) else None) = Some (sp, pre, Some e) →
    ∃ c, sp = [45; c] ∧ pre = [45; c] ∧ a = 45 :: c :: e ∧ c ≠ 45 ∧
      ∀ name value, a = name ++ 61 :: value → 61 ∉ name → dmem name option_table = false).
  { intros Hno. destruct (negb _ && dmem _ _) eqn:E; [|done]. apply andb_true_iff in E as [E1 E2]. bool_inv. intros [= <- <- <-].
    apply dmem_dget in E2 as [o Ho]. destruct (spelling_form _ _ Ho) as (c & r & Hs & _).
    assert (Hr : r = []).
    { pose proof (len_slice_le 0 2 a ltac:(lia) ltac:(lia)) as Hl. rewrite Hs in Hl. rewrite !len_cons in Hl.
      destruct r as [|x r]; [done|]. rewrite len_cons in Hl. pose proof (len_nonneg r). lia. }
    subst r. exists c. assert (Ha := slice_slice_from 2 a ltac:(lia)). rewrite Hs in Ha.
    split_and!; [done|done|exact (eq_sym Ha)| |done]. intros ->. apply E1. rewrite <- Ha. done. }
  destruct (partition_on 61 a) as [name [value|]] eqn:Ep.
  - destruct (dmem name option_table) eqn:En.
    + intros [= <- <- <-]. left. apply partition_on_Some in Ep as [-> _]. done.
    + intros Hs. right. apply Hshort; [|done]. intros n v Hn Hn'.
      assert (Hp : partition_on 61 a = (n, Some v)) by (by apply partition_on_Some). rewrite Ep in Hp. by injection Hp as <- <-.
  - intros Hs. right. apply Hshort; [|done]. intros n v Hn Hn'.
    assert (Hp : partition_on 61 a = (n, Some v)) by (by apply partition_on_Some). by rewrite Ep in Hp.
Qed.

(** Reading flags stops at the same place when the value that follows them is replaced by a path. *)
Lemma flags_loop_replace e0 sp pre sp' pre' e q :
  flags_loop sp pre e0 = Some (sp', pre', Some e) → e ≠ [] →
  ∃ w, e0 = w ++ e ∧ pre' = pre ++ w ∧ flags_loop sp pre (w ++ 47 :: q) = Some (sp', pre', Some (47 :: q)) ∧
    (w = [] ∧ sp' = sp ∨ ∃ c, sp' = [45; c] ∧ dmem [45; c] option_table = true).
Proof.
  remember (length e0) as n eqn:Hn. revert e0 sp pre Hn. induction (lt_wf n) as [n _ IH]. intros e0 sp pre Hn Hf He.
  destruct e0 as [|c rest]; cbn [flags_loop] in Hf; [by injection Hf as <- <- <-|].
  destruct (negb (takes_none sp)) eqn:Et.
  { injection Hf as <- <- <-. exists []. split_and!; [done|by rewrite app_nil_r| |by left]. cbn [app flags_loop]. by rewrite Et. }
  destruct (endswith pre _ || _) eqn:Ed; [done|]. assert (Hd := Ed). apply orb_false_iff in Hd as [_ Hd%negb_false_iff].
  destruct rest as [|d rest']; [done|]. destruct (d =? 61) eqn:E.
  - destruct (IH (length rest') ltac:(subst n; simpl; lia) rest' _ _ eq_refl Hf He) as (w & -> & -> & Hfl & Hor).
    exists (c :: d :: w). split_and!; [done| | |].
    + rewrite Z.eqb_eq in E. subst d. by rewrite <- !app_assoc.
    + cbn [app flags_loop]. rewrite Et, Ed, E. done.
    + right. destruct Hor as [[_ ->]|Hor]; [by exists c|done].
  - destruct (IH (length (d :: rest')) ltac:(subst n; simpl; lia) (d :: rest') _ _ eq_refl Hf He) as (w & Hw & -> & Hfl & Hor).
    exists (c :: w). split_and!; [by rewrite Hw|by rewrite <- app_assoc| |].
    + cbn [app flags_loop]. rewrite Et, Ed. destruct w as [|x w]; [exact Hfl|]. injection Hw as <- _. cbn [app]. by rewrite E.
    + right. destruct Hor as [[_ ->]|Hor]; [by exists c|done].
Qed.

Lemma flags_loop_value sp pre e0 sp' pre' e :
  flags_loop sp pre e0 = Some (sp', pre', Some e) → e ≠ [] → takes_none sp' = false.
Proof.
  remember (length e0) as n eqn:Hn. revert e0 sp pre Hn. induction (lt_wf n) as [n _ IH]. intros e0 sp pre Hn Hf He.
  destruct e0 as [|c rest]; cbn [flags_loop] in Hf; [by injection Hf as <- <- <-|].
  destruct (negb (takes_none sp)) eqn:Et; [injection Hf as <- <- <-; by bool_inv|].
  destruct (endswith pre _ || _); [done|]. destruct rest as [|d rest']; [done|]. destruct (d =? 61).
  - eapply (IH (length rest')); [subst n; simpl; lia|done|exact Hf|done].
  - eapply (IH (length (d :: rest'))); [subst n; simpl; lia|done|exact Hf|done].
Qed.

(** An option starts with a dash and is not the separator. *)
Lemma parse_option_form a r : _parse_option a = Some r → ∃ c l, a = 45 :: c :: l ∧ a ≠ lit "--".
Proof.
  intros Hp. destruct r as [[sp pre] ex]. destruct (parse_option_splits _ _ _ _ Hp) as [[o Ho]%dmem_dget Hs].
  destruct (spelling_form _ _ Ho) as (c & l & -> & Hne & _). destruct ex as [e|].
  - destruct (parse_option_attached _ _ _ _ Hp) as [[_ ->]|(c' & _ & _ & -> & Hc & _)].
    + exists c, (l ++ 61 :: e). split; [done|]. destruct l; done.
    + exists c', e. split; [done|]. intros [= -> _]. done.
  - simpl in Hs. subst pre. unfold _parse_option in Hp. destruct (dmem a option_table) eqn:Ea.
    + injection Hp as ->. eauto.
    + exfalso. repeat case_match; simplify_eq.
Qed.

Lemma is_option_parsed a r : _parse_option a = Some r → _is_option a = true.
Proof.
  intros Hp. destruct (parse_option_form _ _ Hp) as (c & l & -> & _). unfold _is_option. rewrite Hp.
  replace (len (45 :: c :: l) =? 1) with false; [done|]. rewrite !len_cons. pose proof (len_nonneg l). lia.
Qed.

Lemma parse_option_long sp o e' :
  dget sp option_table = Some o → _parse_option (sp ++ 61 :: e') = Some (sp, sp ++ [61], Some e').
Proof.
  intros Ho. unfold _parse_option. rewrite equals_not_spelling by set_solver. destruct (spelling_form _ _ Ho) as (c & l & Hs & _ & _ & Hn).
  assert (startswith (sp ++ 61 :: e') (lit "-") = true) as ->.
  { subst sp. apply startswith_spec. by exists (c :: l ++ 61 :: e'). }
  replace (len (sp ++ 61 :: e') =? 1) with false.
  2: { subst sp. cbn [app]. rewrite !len_cons. pose proof (len_nonneg (l ++ 61 :: e')). lia. }
  assert (partition_on 61 (sp ++ 61 :: e') = (sp, Some e')) as -> by (by apply partition_on_Some).
  cbn. by rewrite (proj2 (dmem_dget sp)) by eauto.
Qed.

Lemma parse_option_short c w e q :
  dmem [45; c] option_table = true → c ≠ 45 →
  (∀ name value, 45 :: c :: w ++ e = name ++ 61 :: value → 61 ∉ name → dmem name option_table = false) →
  _parse_option (45 :: c :: w ++ 47 :: q) = Some ([45; c], [45; c], Some (w ++ 47 :: q)).
Proof.
  intros Hm Hc Hno. unfold _parse_option. rewrite slash_not_spelling by set_solver.
  assert (startswith (45 :: c :: w ++ 47 :: q) (lit "-") = true) as -> by (apply startswith_spec; by eexists).
  replace (len (45 :: c :: w ++ 47 :: q) =? 1) with false.
  2: { rewrite !len_cons. pose proof (len_nonneg (w ++ 47 :: q)). lia. }
  assert (Hshort : (if negb (bool_decide ((45 :: c :: w ++ 47 :: q) !! 1%nat = Some 45)) && dmem (slice 0 2 (45 :: c :: w ++ 47 :: q)) option_table
    then Some (slice 0 2 (45 :: c :: w ++ 47 :: q), slice 0 2 (45 :: c :: w ++ 47 :: q), Some (slice_from 2 (45 :: c :: w ++ 47 :: q)))
    else None) = Some ([45; c], [45; c], Some (w ++ 47 :: q))).
  { assert (slice 0 2 (45 :: c :: w ++ 47 :: q) = [45; c]) as -> by (rewrite slice_take_drop by lia; reflexivity).
    assert (slice_from 2 (45 :: c :: w ++ 47 :: q) = w ++ 47 :: q) as -> by (rewrite slice_from_drop; reflexivity).
    rewrite bool_decide_false by (intros [= ->]; done). by rewrite Hm. }
  cbn [negb orb]. destruct (partition_on 61 _) as [name [value|]] eqn:Ep; [|exact Hshort].
  assert (dmem name option_table = false) as ->; [|exact Hshort].
  apply partition_on_Some in Ep as [Ep Hn]. change (45 :: c :: w ++ 47 :: q) with ((45 :: c :: w) ++ 47 :: q) in Ep.
  apply app_eq_app in Ep as (l & [[Hl Hr]|[Hl Hr]]).
  - destruct l as [|x l]; [done|]. injection Hr as <- _. apply (Hno name (l ++ e)); [|done].
    change (45 :: c :: w ++ e) with ((45 :: c :: w) ++ e). rewrite Hl, <- app_assoc. done.
  - destruct l as [|x l]; [done|]. injection Hr as <- _. apply slash_not_spelling. rewrite Hl. set_solver.
Qed.

(** An attached path is read again as the value of the same option. *)
Lemma read_attached a sp pre e o :
  read_argument a = Some (sp, pre, Some e) → dget sp option_table = Some o →
  read_argument (pre ++ map_paths o e abspath) = Some (sp, pre, Some (map_paths o e abspath)).
Proof.
  intros Hr Ho. assert (Hs := read_argument_splits _ _ _ _ Hr). destruct Hs as [_ Hs]. simpl in Hs.
  destruct (decide (e = [])) as [->|He]; [rewrite map_paths_nil; by rewrite <- Hs|].
  unfold read_argument in Hr. destruct (_parse_option a) as [[[sp0 pre0] ex0]|] eqn:Ep; [|done]. cbn in Hr.
  destruct ex0 as [e0|]; [|done]. assert (Hv := flags_loop_value _ _ _ _ _ _ Hr He).
  destruct (parse_option_attached _ _ _ _ Ep) as [[-> Ha]|(c & -> & -> & Ha & Hc & Hno)].
  - destruct e0 as [|x e0]; cbn [flags_loop] in Hr; [by injection Hr as <- <- <-|].
    destruct (negb (takes_none sp0)) eqn:Et.
    2: { replace (endswith (sp0 ++ [61]) (lit "=")) with true in Hr; [done|]. symmetry. apply bool_decide_eq_true. by exists sp0. }
    injection Hr as <- <- <-. rewrite <- app_assoc. cbn [app]. unfold read_argument. rewrite (parse_option_long _ o) by done.
    cbn. destruct (map_paths _ _ _) as [|y l]; cbn [flags_loop]; [done|]. by rewrite Et.
  - destruct (parse_option_splits _ _ _ _ Ep) as [Hm _].
    destruct (flags_loop_replace _ _ _ _ _ _ [] Hr He) as (w & -> & -> & _ & Hsp).
    assert (Hl : o_path_list o = false).
    { apply not_true_iff_false. intros Hl. destruct (list_spelling _ _ Ho Hl) as [r Hsp'].
      destruct Hsp as [[_ ->]|(c' & -> & Hm')]; [by injection Hsp' as -> _|]. injection Hsp' as -> _.
      apply dmem_dget in Hm' as [o' Ho']. by destruct (spelling_form _ _ Ho') as (? & ? & _ & Hne & _). }
    destruct (decide (e ∈ o_constants o)) as [Hk|Hk]; [rewrite map_paths_constant by done; rewrite <- Hs; unfold read_argument; by rewrite Ep|].
    destruct (map_paths_slash o e Hl He Hk) as [q ->].
    destruct (flags_loop_replace _ _ _ _ _ _ q Hr He) as (w' & Hw & Hpre & Hfl & _).
    assert (w' = w) as -> by (by apply app_inv_head in Hpre). rewrite <- app_assoc. unfold read_argument. cbn [app].
    rewrite (parse_option_short c w e q) by (try done; by rewrite <- Ha). exact Hfl.
Qed.

(** An argument that no option takes as its value. *)
Definition blocked (a : text) : bool := bool_decide (a = lit "--") || _is_option a.

Lemma read_blocked a r : read_argument a = Some r → blocked a = true ∧ a ≠ lit "--".
Proof.
  unfold read_argument. destruct (_parse_option a) as [r'|] eqn:Ep; [|done]. intros _. unfold blocked.
  rewrite (is_option_parsed _ _ Ep), orb_true_r. split; [done|]. by destruct (parse_option_form _ _ Ep) as (? & ? & _ & ?).
Qed.

Lemma path_not_blocked s o v : dget s option_table = Some o → blocked (map_paths o v abspath) = false.
Proof.
  intros Ho. assert (Hh := map_paths_head s o v Ho). unfold blocked, _is_option.
  destruct (map_paths o v abspath) as [|c l]; [done|].
  assert (c ≠ 45) as Hc by (intros ->; done). rewrite bool_decide_false by (intros [= -> _]; done).
  replace (startswith (c :: l) (lit "-")) with false; [done|]. symmetry. apply not_true_iff_false. rewrite startswith_spec.
  intros [t [= -> _]]. done.
Qed.

(** [_scan] by what it reads in the argument and, for an option without attached value, in the next one. *)
Lemma scan_read arguments index a :
  0 <= index → arguments !! Z.to_nat index = Some a →
  _scan arguments index =
  match read_argument a with
  | None => Ok ([], index + 1)
  | Some (sp, pre, ex) =>
      o ← of_option KeyError (dget sp option_table);
      let oc i p v := {| oc_option := o; oc_spelling := sp; oc_index := i; oc_prefix := p; oc_value := v |} in
      if bool_decide (o_arguments o = ArgNone) || bool_decide (ex ≠ None) then Ok ([oc index pre ex], index + 1)
      else match arguments !! Z.to_nat (index + 1) with
        | Some value => if blocked value then Ok ([oc index pre None], index + 1)
            else Ok ([oc (index + 1) [] (Some value)], index + 1 + 1)
        | None => Ok ([oc index pre None], index + 1)
        end
  end.
Proof.
  intros Hi Ha. unfold _scan. rewrite (get_lookup _ _ _ Hi Ha). cbn [mbind result_bind]. fold (read_argument a).
  destruct (read_argument a) as [[[sp pre] ex]|]; [|done]. destruct (dget sp option_table) as [o|]; [|done]. cbn [of_option mbind result_bind].
  destruct (bool_decide (o_arguments o = ArgNone) || bool_decide (ex ≠ None)); [done|].
  destruct (arguments !! Z.to_nat (index + 1)) as [value|]; [|done]. unfold blocked.
  destruct (bool_decide (value = lit "--")), (_is_option value); done.
Qed.

(** The rewritten list agrees with the original one, from a position on, up to the paths found there. *)
Definition agrees (arguments arguments' : list text) (index : Z) (found : list Occurrence) : Prop :=
  (∀ oc v, oc ∈ found → path_value oc = Some v → arguments' !! Z.to_nat (oc_index oc) = Some (oc_prefix oc ++ v)) ∧
  (∀ i : nat, index <= Z.of_nat i → (∀ oc v, oc ∈ found → path_value oc = Some v → Z.to_nat (oc_index oc) ≠ i) →
    arguments' !! i = arguments !! i).

(** No path at a position where nothing, or something without a path, was found. *)
Lemma agrees_at arguments arguments' index found rest :
  0 <= index → agrees arguments arguments' index (found ++ rest) → Forall (λ oc, index + 1 <= oc_index oc) rest →
  Forall (λ oc, oc_index oc = index → path_value oc = None) found → Forall (λ oc, index <= oc_index oc) found →
  arguments' !! Z.to_nat index = arguments !! Z.to_nat index.
Proof.
  intros Hi [_ Hout] Hr Hf Hfi. apply Hout; [lia|]. intros oc v [Hoc|Hoc]%elem_of_app Hv Heq.
  - rewrite Forall_forall in Hf. rewrite Forall_forall in Hfi. specialize (Hf oc Hoc). specialize (Hfi oc Hoc).
    rewrite Hf in Hv; [done|]. lia.
  - rewrite Forall_forall in Hr. specialize (Hr oc Hoc). lia.
Qed.

Lemma agrees_rest arguments arguments' index next found rest :
  index <= next → agrees arguments arguments' index (found ++ rest) → Forall (λ oc, 0 <= oc_index oc < next) found →
  0 <= next → agrees arguments arguments' next rest.
Proof.
  intros Hn [Hin Hout] Hf Hnx. split.
  - intros oc v Hoc. apply Hin. set_solver.
  - intros i Hi Hno. apply Hout; [lia|]. intros oc v [Hoc|Hoc]%elem_of_app Hv; [|by eapply Hno].
    rewrite Forall_forall in Hf. specialize (Hf oc Hoc). lia.
Qed.

(** One scan of the rewritten list. The last hypothesis is about the argument after the scanned one, when it is not its value. *)
Lemma scan_rewritten arguments arguments' index a f next rest :
  0 <= index → arguments !! Z.to_nat index = Some a → a ≠ lit "--" → _scan arguments index = Ok (f, next) →
  agrees arguments arguments' index (f ++ rest) → Forall (λ oc, next <= oc_index oc) rest →
  (next = index + 1 →
   (arguments !! Z.to_nat next = None → arguments' !! Z.to_nat next = None) ∧
   ∀ b, arguments !! Z.to_nat next = Some b → blocked b = true → ∃ b', arguments' !! Z.to_nat next = Some b' ∧ blocked b' = true) →
  ∃ a', arguments' !! Z.to_nat index = Some a' ∧ a' ≠ lit "--" ∧ _scan arguments' index = Ok (absolute <$> f, next) ∧
    (blocked a = true → blocked a' = true).
Proof.
  intros Hi Ha Hne Hs Hag Hr Hnext. rewrite (scan_read _ _ _ Hi Ha) in Hs.
  assert (Hsame : index + 1 <= next → Forall (λ oc, oc_index oc = index → path_value oc = None) f →
    Forall (λ oc, index <= oc_index oc) f → arguments' !! Z.to_nat index = Some a).
  { intros Hn Hp Hfi. rewrite <- Ha. eapply agrees_at; [done|exact Hag| |done|done].
    eapply Forall_impl; [exact Hr|]. intros oc ?. simpl in *. lia. }
  destruct (read_argument a) as [[[sp pre] ex]|] eqn:Er.
  2: { injection Hs as <- <-. specialize (Hsame ltac:(lia) (Forall_nil_2 _) (Forall_nil_2 _)). exists a. split_and!; [done|done| |done].
    rewrite (scan_read _ _ _ Hi Hsame), Er. done. }
  apply bind_Ok_inv in Hs as (o & Ho%of_option_Ok & Hs). cbn zeta in Hs.
  destruct (bool_decide (o_arguments o = ArgNone) || bool_decide (ex ≠ None)) eqn:Ec.
  - injection Hs as <- <-. set (oc := {| oc_option := o; oc_spelling := sp; oc_index := index; oc_prefix := pre; oc_value := ex |}) in *.
    destruct (path_value oc) as [v|] eqn:Ev.
    + assert (Ha' : arguments' !! Z.to_nat index = Some (pre ++ v)) by (apply (proj1 Hag oc v); [set_solver|done]).
      unfold path_value in Ev. cbn in Ev. destruct (o_path o) eqn:Eo; [|done]. destruct ex as [e|]; [|done]. injection Ev as <-.
      assert (Hr' := read_attached _ _ _ _ _ Er Ho). destruct (read_blocked _ _ Hr') as [Hb Hn'].
      exists (pre ++ map_paths o e abspath). split_and!; [done|done| |done].
      rewrite (scan_read _ _ _ Hi Ha'), Hr', Ho. cbn [of_option mbind result_bind].
      rewrite (bool_decide_true (Some _ ≠ None)) by done. rewrite orb_true_r.
      unfold oc, absolute, path_value. cbn. by rewrite Eo.
    + specialize (Hsame ltac:(lia) ltac:(apply Forall_cons_2; [intros _; exact Ev|apply Forall_nil_2]) ltac:(repeat constructor; cbn; lia)).
      exists a. split_and!; [done|done| |done]. rewrite (scan_read _ _ _ Hi Hsame), Er, Ho. cbn.
      rewrite Ec. unfold absolute. by rewrite Ev.
  - assert (Hnone : Ok ([{| oc_option := o; oc_spelling := sp; oc_index := index; oc_prefix := pre; oc_value := None |}], index + 1) =
        Ok (f, next) → (∀ b', arguments' !! Z.to_nat (index + 1) = Some b' → blocked b' = true) →
      ∃ a', arguments' !! Z.to_nat index = Some a' ∧ a' ≠ lit "--" ∧ _scan arguments' index = Ok (absolute <$> f, next) ∧
        (blocked a = true → blocked a' = true)).
    { intros [= <- <-] Hb'. assert (Hpv : ∀ i p, path_value {| oc_option := o; oc_spelling := sp; oc_index := i; oc_prefix := p; oc_value := None |} = None)
        by (intros; unfold path_value; cbn; by destruct (o_path o)).
      specialize (Hsame ltac:(lia) ltac:(apply Forall_cons_2; [intros _; apply Hpv|apply Forall_nil_2]) ltac:(repeat constructor; cbn; lia)).
      exists a. split_and!; [done|done| |done]. rewrite (scan_read _ _ _ Hi Hsame), Er, Ho. cbn. rewrite Ec.
      unfold absolute. rewrite Hpv. destruct (arguments' !! Z.to_nat (index + 1)) as [b'|]; [|done]. by rewrite (Hb' b') by done. }
    destruct (arguments !! Z.to_nat (index + 1)) as [value|] eqn:Eval.
    2: { apply Hnone; [exact Hs|]. injection Hs as _ <-. destruct (Hnext eq_refl) as [Hno _]. rewrite Hno by done. done. }
    destruct (blocked value) eqn:Eb.
    { apply Hnone; [exact Hs|]. injection Hs as _ <-. destruct (Hnext eq_refl) as [_ Hbl].
      destruct (Hbl value Eval Eb) as (b' & -> & Hb'). by intros ? [= <-]. }
    clear Hnone. injection Hs as <- <-.
    set (oc := {| oc_option := o; oc_spelling := sp; oc_index := index + 1; oc_prefix := []; oc_value := Some value |}) in *.
    specialize (Hsame ltac:(lia) ltac:(apply Forall_cons_2; [cbn; lia|apply Forall_nil_2]) ltac:(repeat constructor; cbn; lia)).
    exists a. split_and!; [done|done| |done]. rewrite (scan_read _ _ _ Hi Hsame), Er, Ho. cbn [of_option mbind result_bind]. rewrite Ec.
    destruct (path_value oc) as [v|] eqn:Ev.
    + assert (Ha' : arguments' !! Z.to_nat (index + 1) = Some v) by (apply (proj1 Hag oc v); [set_solver|done]).
      rewrite Ha'. unfold path_value in Ev. cbn in Ev. destruct (o_path o) eqn:Eo; [|done]. injection Ev as <-.
      rewrite (path_not_blocked sp) by done. cbn. unfold absolute, path_value. cbn. by rewrite Eo.
    + assert (arguments' !! Z.to_nat (index + 1) = Some value) as ->.
      { rewrite <- Eval. apply (proj2 Hag); [lia|]. intros oc' v [->%list_elem_of_singleton|Hoc]%elem_of_app Hv; [by rewrite Ev in Hv|].
        rewrite Forall_forall in Hr. specialize (Hr oc' Hoc). lia. }
      rewrite Eb. cbn. unfold absolute. by rewrite Ev.
Qed.

Lemma occurrences_loop_rewritten fuel arguments arguments' index found :
  0 <= index → len arguments <= index + Z.of_nat fuel →
  occurrences_loop fuel arguments index = Ok found → agrees arguments arguments' index found →
  occurrences_loop fuel arguments' index = Ok (absolute <$> found) ∧
  (arguments !! Z.to_nat index = None → arguments' !! Z.to_nat index = None) ∧
  (∀ a, arguments !! Z.to_nat index = Some a → blocked a = true →
    ∃ a', arguments' !! Z.to_nat index = Some a' ∧ blocked a' = true).
Proof.
  revert index found. induction fuel as [|fuel IH]; intros index found Hi Hf Hl Hag;
    assert (Hempty : found = [] → arguments' !! Z.to_nat index = arguments !! Z.to_nat index)
      by (intros ->; apply (proj2 Hag); [lia|by intros oc v ?%elem_of_nil]);
    cbn [occurrences_loop] in Hl |- *;
    (destruct (arguments !! Z.to_nat index) as [a|] eqn:Ea; [|injection Hl as <-; rewrite (Hempty eq_refl); done]);
    assert (Hlt := lookup_lt_Some _ _ _ Ea).
  { unfold len in Hf. lia. }
  destruct (decide (a = lit "--")) as [->|Hne].
  { rewrite bool_decide_true in Hl by done. injection Hl as <-. rewrite (Hempty eq_refl). rewrite bool_decide_true by done.
    split_and!; [done|done|]. intros b [= <-] Hb. eauto. }
  rewrite bool_decide_false in Hl by done. apply bind_Ok_inv in Hl as ([f next] & Hs & Hl). apply bind_Ok_inv in Hl as (rest & Hrest & [= <-]).
  destruct (scan_spec arguments index) as (f' & next' & Hs' & Hn & _ & Hfa); [unfold len; lia|]. rewrite Hs in Hs'. injection Hs' as <- <-.
  destruct (occurrences_loop_spec fuel arguments next) as (rest' & Hrest' & _ & Hra); [lia|lia|]. rewrite Hrest in Hrest'. injection Hrest' as <-.
  destruct (IH next rest) as (Hloop & Hnn & Hnb); [lia|lia|done| |].
  { eapply agrees_rest; [|exact Hag| |lia]; [lia|]. eapply Forall_impl; [exact Hfa|]. intros oc [? _]. simpl. lia. }
  destruct (scan_rewritten _ _ _ _ _ _ _ Hi Ea Hne Hs Hag) as (a' & Ha' & Hne' & Hscan & Hbl).
  { eapply Forall_impl; [exact Hra|]. by intros oc [? _]. }
  { intros _. split; [done|]. intros b Hb. by apply Hnb. }
  rewrite Ha'. rewrite bool_decide_false by done. rewrite Hscan. cbn. rewrite Hloop. cbn. rewrite fmap_app.
  split_and!; [done|done|]. intros b [= <-] Hb. eauto.
Qed.

(** Mkosi reads the arguments that [absolute_paths] returns as the same options in the same places: every path option gets
    its value with each path made absolute and constants and tree targets kept, and every other option keeps its value. *)
Theorem absolute_paths_reread arguments arguments' :
  absolute_paths arguments = Ok arguments' →
  ∃ found, occurrences arguments = Ok found ∧ occurrences arguments' = Ok (absolute <$> found) ∧
    length arguments' = length arguments ∧
    ∀ i : nat, (∀ oc v, oc ∈ found → path_value oc = Some v → Z.to_nat (oc_index oc) ≠ i) → arguments' !! i = arguments !! i.
Proof.
  intros Ha. destruct (absolute_paths_spec _ _ Ha) as (found & Hocc & _ & _ & (Hlen & Hin & Hout) & _).
  exists found. split_and!; [done| |done|done]. unfold occurrences in *. rewrite Hlen.
  apply (occurrences_loop_rewritten _ arguments); [lia|unfold len; lia|done|]. split; [done|]. intros i _. apply Hout.
Qed.
End laws.

(** The scanner terminates on every argument list; the options it reports come from the table, stand at increasing
    positions, and have as value their argument without the prefix. *)
Theorem occurrences_exact `{Mkosi} arguments :
  ∃ found, occurrences arguments = Ok found ∧ in_order found ∧ Forall (occurs arguments) found.
Proof. apply occurrences_spec. Qed.

(** ** The preamble *)

Section preamble.
Context `{Mkosi} `{Ucd}.

(** Options and values in pairs. *)
Definition flatten (pairs : list (text * text)) : list text := pairs ≫= λ p, [p.1; p.2].

(** The preamble ends a build with a message: no other exception escapes, and its loop ends, since every option takes two arguments. *)
Definition is_system_exit (e : exn) : Prop := ∃ fmt args, e = SystemExit fmt args.

Lemma system_exit fmt args : is_system_exit (SystemExit fmt args).
Proof. by eexists _, _. Qed.

Lemma convert_errors opt name convert value :
  dget opt _PREAMBLE_OPTIONS = Some (name, convert) → raises is_system_exit (convert value).
Proof.
  intros Hd. apply dget_Some_elem in Hd. unfold _PREAMBLE_OPTIONS in Hd.
  repeat (apply elem_of_cons in Hd as [Hd|Hd]; [injection Hd as _ _ ->|]); try exact I; [..|by apply elem_of_nil in Hd].
  - apply raises_fmap, raises_of_option, system_exit.
  - unfold _snapshot_components. apply raises_bind; [apply raises_raise_if, system_exit|done].
Qed.

Lemma apply_preamble_errors p opt following : raises is_system_exit (_apply_preamble_option p opt following).
Proof.
  unfold _apply_preamble_option. destruct (require _ _) as [[]|e] eqn:Er; cbn [mbind result_bind].
  - destruct following as [|value rest]; [apply system_exit|]. case_bool_decide as Eo; [exact I|]. apply require_Ok in Er.
    unfold dmem in Er. destruct (dget opt _PREAMBLE_OPTIONS) as [[name convert]|] eqn:Ed; [|by apply dget_None in Ed; repeat case_bool_decide].
    cbn [of_option mbind result_bind]. apply raises_bind; [by eapply convert_errors|]. intros v _. exact I.
  - unfold require in Er. destruct (_ || _); [done|]. injection Er as <-. apply system_exit.
Qed.

Lemma preamble_loop_errors fuel p argv : (length argv ≤ fuel)%nat → raises is_system_exit (preamble_loop fuel p argv).
Proof.
  revert p argv. induction fuel as [|fuel IH]; intros p [|opt following] Hfuel; try apply system_exit; [simpl in Hfuel; lia|].
  cbn [preamble_loop]. case_bool_decide; [exact I|]. apply raises_bind; [apply apply_preamble_errors|]. intros [q rest] Ha. apply IH.
  unfold _apply_preamble_option in Ha. apply bind_Ok_inv in Ha as ([] & _ & Ha). destruct following as [|value following]; [done|].
  case_bool_decide; [injection Ha as _ <-; simpl in Hfuel; lia|]. apply bind_Ok_inv in Ha as ([name convert] & _ & Ha).
  apply bind_Ok_inv in Ha as (v & _ & Ha). injection Ha as _ <-. simpl in Hfuel. lia.
Qed.

Lemma parse_preamble_errors argv : raises is_system_exit (parse_preamble argv).
Proof.
  unfold parse_preamble. apply raises_bind; [apply preamble_loop_errors; lia|]. intros [p rest] _.
  apply raises_bind; [apply raises_require, system_exit|]. intros _ _. exact I.
Qed.

Lemma preamble_loop_pairs fuel p argv p' rest :
  preamble_loop fuel p argv = Ok (p', rest) →
  ∃ pairs, argv = flatten pairs ++ lit "--" :: rest ∧ Forall (λ q, q.1 ≠ lit "--") pairs ∧
    foldM (λ p q, fst <$> _apply_preamble_option p q.1 [q.2]) p pairs = Ok p'.
Proof.
  revert p argv. induction fuel as [|fuel IH]; intros p argv Hl; destruct argv as [|opt following]; try done.
  cbn [preamble_loop] in Hl. case_bool_decide as E; [subst; injection Hl as <- <-; by exists []|].
  apply bind_Ok_inv in Hl as ([p1 r1] & Hap & Hl). destruct (IH _ _ Hl) as (pairs & -> & Hne & Hf).
  assert (Hv : ∃ value, following = value :: flatten pairs ++ lit "--" :: rest ∧ _apply_preamble_option p opt [value] = Ok (p1, [])).
  { unfold _apply_preamble_option in *. apply bind_Ok_inv in Hap as (u & Hu & Hap). rewrite Hu. cbn [mbind result_bind].
    destruct following as [|value r2]; [done|]. exists value. case_bool_decide as Ee.
    - injection Hap as <- <-. done.
    - apply bind_Ok_inv in Hap as ([name convert] & Hg & Hap). rewrite Hg. cbn [mbind result_bind].
      apply bind_Ok_inv in Hap as (x & Hx & Hap). rewrite Hx. injection Hap as <- <-. done. }
  destruct Hv as (value & -> & Hap'). exists ((opt, value) :: pairs). split_and!; [done|by constructor|].
  cbn [foldM fst snd]. rewrite Hap'. done.
Qed.

(** The attribute that a known option sets. *)
Definition attribute_of (opt : text) : option (text * (text → result preamble_arg)) := dget opt _PREAMBLE_OPTIONS.

Lemma apply_option_attributes p opt value p' name convert :
  _apply_preamble_option p opt [value] = Ok (p', []) → attribute_of opt = Some (name, convert) → opt ≠ _EXECUTABLE_PATH_OPTION →
  ∃ x, convert value = Ok x ∧ attributes p' = dset name x (attributes p).
Proof.
  unfold _apply_preamble_option, attribute_of. intros Hap Hd Hne. apply bind_Ok_inv in Hap as (u & _ & Hap).
  rewrite bool_decide_false in Hap by done. rewrite Hd in Hap. cbn in Hap. apply bind_Ok_inv in Hap as (x & Hx & Hap).
  injection Hap as <-. eauto.
Qed.

Lemma attribute_names_distinct : NoDup ((λ e : text * (text * (text → result preamble_arg)), e.2.1) <$> _PREAMBLE_OPTIONS).
Proof. apply (bool_decide_unpack _). vm_compute. exact I. Qed.

Lemma attribute_inj opt opt' name c c' :
  attribute_of opt = Some (name, c) → attribute_of opt' = Some (name, c') → opt = opt'.
Proof.
  intros H1%dget_Some_elem H2%dget_Some_elem.
  apply list_elem_of_lookup in H1 as [i Hi]. apply list_elem_of_lookup in H2 as [j Hj].
  assert (i = j) as ->.
  { eapply NoDup_lookup; [exact attribute_names_distinct| |]; rewrite list_lookup_fmap, ?Hi, ?Hj; done. }
  rewrite Hi in Hj. by injection Hj.
Qed.

Lemma executable_path_no_attribute : attribute_of _EXECUTABLE_PATH_OPTION = None.
Proof. reflexivity. Qed.

(** Options other than [opt] leave its attribute alone. *)
Lemma apply_other p q p' opt name convert :
  fst <$> _apply_preamble_option p q.1 [q.2] = Ok p' → attribute_of opt = Some (name, convert) → q.1 ≠ opt →
  dget name (attributes p') = dget name (attributes p).
Proof.
  intros Hap Ho Hne. apply fmap_Ok_inv in Hap as ([p1 r1] & Hap & ->). unfold _apply_preamble_option in Hap.
  apply bind_Ok_inv in Hap as (u & _ & Hap). case_bool_decide as E; [by injection Hap as <- <-|].
  apply bind_Ok_inv in Hap as ([name' convert'] & Hd%of_option_Ok & Hap). apply bind_Ok_inv in Hap as (x & Hx & Hap). injection Hap as <- <-.
  cbn. rewrite dget_dset. rewrite decide_False; [done|]. intros ->. apply Hne. by eapply attribute_inj.
Qed.

Lemma pairs_other pairs p p' opt name convert :
  foldM (λ p q, fst <$> _apply_preamble_option p q.1 [q.2]) p pairs = Ok p' → attribute_of opt = Some (name, convert) →
  Forall (λ q, q.1 ≠ opt) pairs → dget name (attributes p') = dget name (attributes p).
Proof.
  intros Hf Ho. revert p Hf. induction pairs as [|q pairs IH]; intros p Hf Hne; [by injection Hf as <-|].
  apply Forall_cons in Hne as [Hq Hne]. cbn [foldM] in Hf. apply bind_Ok_inv in Hf as (p1 & H1 & Hf).
  rewrite (IH _ Hf Hne). by eapply apply_other.
Qed.

Lemma preamble_value_flatten pairs rest opt :
  Forall (λ q, q.1 ≠ lit "--") pairs →
  preamble_value (flatten pairs ++ lit "--" :: rest) opt = snd <$> head (List.filter (λ q, bool_decide (q.1 = opt)) pairs).
Proof.
  induction 1 as [|[o v] pairs Hq Hp IH]; [by destruct rest|]. cbn [flatten mbind list_bind app preamble_value fst snd List.filter].
  rewrite bool_decide_false by done. case_bool_decide; [done|]. apply IH.
Qed.

Lemma split_at opt (pairs : list (text * text)) :
  Forall (λ q, q.1 ≠ opt) pairs ∨ ∃ pre v post, pairs = pre ++ (opt, v) :: post ∧ Forall (λ q, q.1 ≠ opt) pre.
Proof.
  induction pairs as [|[o v] pairs IH]; [left; constructor|]. destruct (decide (o = opt)) as [->|Hne].
  { right. exists [], v, pairs. split; [done|constructor]. }
  destruct IH as [IH|(pre & w & post & -> & Hpre)]; [left; by constructor|].
  right. exists ((o, v) :: pre), w, post. split; [done|]. by constructor.
Qed.

Lemma filter_none opt (pairs : list (text * text)) :
  Forall (λ q, q.1 ≠ opt) pairs → List.filter (λ q, bool_decide (q.1 = opt)) pairs = [].
Proof. induction 1 as [|q pairs Hq _ IH]; [done|]. simpl. by rewrite bool_decide_false. Qed.

(** [preamble_value] and [parse_preamble] agree. When the preamble parses and names an option at most once, the attribute that
    the option sets is the converted value that [preamble_value] returns, and is unset when it returns none. *)
Theorem preamble_value_agrees argv p rest opt name convert :
  parse_preamble argv = Ok (p, rest) → dget opt _PREAMBLE_OPTIONS = Some (name, convert) →
  (∀ a v b w c, argv = a ++ [opt; v] ++ b ++ [opt; w] ++ c → (length c < length rest)%nat) →
  match preamble_value argv opt with
  | Some v => ∃ x, convert v = Ok x ∧ dget name (attributes p) = Some x
  | None => dget name (attributes p) = None
  end.
Proof.
  unfold parse_preamble. intros Hp Ho Honce. apply bind_Ok_inv in Hp as ([p' rest'] & Hl & Hp).
  apply bind_Ok_inv in Hp as (u & _ & [= <- <-]).
  destruct (preamble_loop_pairs _ _ _ _ _ Hl) as (pairs & -> & Hne & Hf). rewrite preamble_value_flatten by done.
  destruct (split_at opt pairs) as [Hno|(pre & v & post & -> & Hpre)].
  { rewrite filter_none by done. cbn. by rewrite (pairs_other _ _ _ _ _ _ Hf Ho Hno). }
  assert (Hpost : Forall (λ q, q.1 ≠ opt) post).
  { destruct (split_at opt post) as [Hno|(mid & w & post' & -> & _)]; [done|]. exfalso.
    assert (Hc := Honce (flatten pre) v (flatten mid) w (flatten post' ++ lit "--" :: rest')).
    assert (Hlen : (length (flatten post' ++ lit "--" :: rest') < length rest')%nat).
    { apply Hc. unfold flatten. rewrite !bind_app, !bind_cons, !bind_app, bind_cons. cbn [fst snd]. by rewrite <- !app_assoc. }
    rewrite length_app in Hlen. simpl in Hlen. lia. }
  rewrite List.filter_app, filter_none by done. cbn [app List.filter fst]. rewrite bool_decide_true by done. cbn [head fmap option_fmap option_map snd].
  rewrite foldM_app in Hf. apply bind_Ok_inv in Hf as (p1 & _ & Hf). cbn [foldM] in Hf. apply bind_Ok_inv in Hf as (p2 & H2 & Hf).
  apply fmap_Ok_inv in H2 as ([p2' r2] & H2 & ->). cbn [fst snd] in *.
  rewrite (pairs_other _ _ _ _ _ _ Hf Ho Hpost). unfold _apply_preamble_option in H2. apply bind_Ok_inv in H2 as (u' & _ & H2).
  rewrite bool_decide_false in H2 by (intros ->; by pose proof executable_path_no_attribute as He; unfold attribute_of in He; rewrite He in Ho).
  rewrite Ho in H2. cbn in H2. apply bind_Ok_inv in H2 as (x & Hx & H2). injection H2 as <- <-. exists x. split; [done|].
  cbn. rewrite dget_dset. by rewrite decide_True.
Qed.
End preamble.

(** ** A small table *)
Module MkosiDemo.
Definition entry (dest : string) (a : arity) (path : option path_kind) (list : bool) : Option :=
  {| o_dest := lit dest; o_arguments := a; o_path := path; o_path_list := list; o_constants := [lit "default"] |}.
Definition table : dict text Option :=
  [(lit "-C", entry "directory" ArgOne (Some PathValue) false); (lit "--directory", entry "directory" ArgOne (Some PathValue) false);
   (lit "--extra-tree", entry "extra_trees" ArgOne (Some TreeValue) true); (lit "-f", entry "force" ArgNone None false);
   (lit "--image-id", entry "image_id" ArgOne None false)].
Definition mkosi : Mkosi := {| option_table := table; _is_negative_number := λ _, false; abspath := λ p, lit "/w/" ++ p |}.
Definition arguments : list text :=
  lit <$> ["-fCsub"; "--extra-tree"; "a:/etc,b"; "--image-id=x"; "--directory=default"; "--"; "-C"; "y"]%string.
Definition rewritten : list text :=
  lit <$> ["-fC/w/sub"; "--extra-tree"; "/w/a:/etc,/w/b"; "--image-id=x"; "--directory=default"; "--"; "-C"; "y"]%string.
Definition argv : list text := lit <$> ["--kernel-preflight"; "k"; "--release-seed"; "s"; "--"; "-f"]%string.
End MkosiDemo.

#[local] Instance mkosi_demo_laws : @MkosiLaws MkosiDemo.mkosi.
Proof.
  constructor.
  - intros p. by exists (lit "w/" ++ p).
  - intros s o Ho%dget_Some_elem. apply (list_elem_of_fmap_2 fst) in Ho. cbn [fst] in Ho.
    assert (Ha : Forall (λ s, ∃ c r, s = 45 :: c :: r ∧ s ≠ lit "--" ∧ (47 ∉ s) ∧ (61 ∉ s)) (fst <$> @option_table MkosiDemo.mkosi)).
    { repeat constructor; (eexists _, _; split; [reflexivity|]; split; [by vm_compute|]; split; apply (bool_decide_unpack _); by vm_compute). }
    rewrite Forall_forall in Ha. by apply Ha.
  - intros s o k Ho%dget_Some_elem. apply (list_elem_of_fmap_2 snd) in Ho. cbn [snd] in Ho.
    assert (Ha : Forall (λ o, ∀ k, k ∈ o_constants o → head k ≠ Some 45) (snd <$> @option_table MkosiDemo.mkosi)).
    { repeat constructor; intros k' ->%list_elem_of_singleton; by vm_compute. }
    rewrite Forall_forall in Ha. by apply Ha.
  - intros s o Ho%dget_Some_elem Hl.
    assert (Ha : Forall (λ e : text * Option, o_path_list e.2 = true → ∃ r, e.1 = 45 :: 45 :: r) (@option_table MkosiDemo.mkosi)).
    { repeat constructor; cbn; intros He; first [discriminate He | eexists; reflexivity]. }
    rewrite Forall_forall in Ha. by apply (Ha (s, o)).
Qed.

Lemma absolute_paths_reread_witness :
  @absolute_paths MkosiDemo.mkosi MkosiDemo.arguments = Ok MkosiDemo.rewritten ∧
  ∃ found, @occurrences MkosiDemo.mkosi MkosiDemo.arguments = Ok found ∧
    @occurrences MkosiDemo.mkosi MkosiDemo.rewritten = Ok (@absolute MkosiDemo.mkosi <$> found).
Proof.
  assert (Ha : @absolute_paths MkosiDemo.mkosi MkosiDemo.arguments = Ok MkosiDemo.rewritten) by by_compute.
  split; [exact Ha|].
  destruct (@absolute_paths_reread MkosiDemo.mkosi mkosi_demo_laws MkosiDemo.arguments MkosiDemo.rewritten Ha) as (found & H1 & H2 & _).
  exists found. split; [exact H1|exact H2].
Defined.

Lemma preamble_value_agrees_witness :
  ∃ p rest, @parse_preamble MkosiDemo.mkosi ascii_ucd MkosiDemo.argv = Ok (p, rest) ∧
    dget (lit "release_seed") (attributes p) = Some (PText (lit "s")).
Proof.
  destruct (@parse_preamble MkosiDemo.mkosi ascii_ucd MkosiDemo.argv) as [[p rest]|] eqn:Hp; [|exfalso; vm_compute in Hp; discriminate].
  exists p, rest. split; [reflexivity|].
  assert (Hrest : rest = [lit "-f"]) by (vm_compute in Hp; injection Hp as _ <-; reflexivity).
  destruct (@preamble_value_agrees MkosiDemo.mkosi ascii_ucd MkosiDemo.argv p rest (lit "--release-seed") (lit "release_seed") _verbatim Hp)
    as (x & Hx & Hd).
  - vm_compute. reflexivity.
  - intros a v b w c Hc. exfalso. apply (f_equal (λ l, length (List.filter (λ t, bool_decide (t = lit "--release-seed")) l))) in Hc.
    rewrite !List.filter_app in Hc. cbn [List.filter] in Hc. rewrite !(bool_decide_true (lit "--release-seed" = _)) in Hc by reflexivity.
    rewrite !length_app in Hc. change (length (List.filter _ MkosiDemo.argv)) with 1%nat in Hc.
    repeat case_match; cbn [length] in Hc; lia.
  - injection Hx as <-. exact Hd.
Defined.
