(* ===== verification/ReleaseValidation.v ===== *)
(** * Release validation: [mkosi_runner/release_validation.py] and [mkosi_runner/repart_definitions.py]

    A parsed mkosi configuration is an object with attributes: [config] maps their names to values of the types that mkosi's
    settings have. What the code asks of the host (resolving a path, listing a directory of text files) and [uuid.UUID] are
    the interface [Host]; the definition files are readable text. *)
From S2P Require Import Prelude Bytes PyText Collections.

(** A resolved path: its components. *)
Abbreviation path := (list text).

(** Values of settings. [CObject] is an object with a [source] attribute, such as a tree or a key source; [CEnum] has the
    name and value of an enum member. *)
Inductive cval :=
  | CNone
  | CBool (b : bool)
  | CInt (z : Z)
  | CStr (t : text)
  | CUuid (z : Z)
  | CPath (t : text)
  | CEnum (name value : text)
  | CObject (source : cval)
  | CSeq (l : list cval)
  | CDict (items : list (text * cval)).

Abbreviation config := (dict text cval).

(** [bool(v)]. *)
Definition truthy (v : cval) : bool :=
  match v with
  | CNone => false
  | CBool b => b
  | CInt z => negb (z =? 0)
  | CStr t => negb (bool_decide (t = []))
  | CSeq l => negb (bool_decide (length l = 0%nat))
  | CDict l => negb (bool_decide (length l = 0%nat))
  | _ => true
  end.

(** A directory that exists: its entries, with the text of those that are not directories. *)
Class Host := {
  resolve : text → path;
  parse_uuid : text → option Z;
  list_dir : text → option (list (text * option text));
  path_name : text → text;
  str_of : cval → text }.

(** ** repart_definitions.py *)

Definition _MINIMIZE_OFF : list text := lit <$> [""; "off"; "0"; "no"; "n"; "false"; "f"]%string.

Section host.
Context `{Host} `{Ucd}.

(** The text of [directory / name] for the normalised text of a path and a relative name. *)
Definition child (directory name : text) : text :=
  if bool_decide (directory = lit ".") then name
  else if endswith directory (lit "/") then directory ++ name else directory ++ lit "/" ++ name.

(** A definition file: its path and text. *)
Abbreviation definition := (text * text)%type.

(** The files of [sorted(directory.glob("*.conf"))] that are not directories. *)
Definition conf_files (directory : text) : list (text * definition) :=
  match list_dir directory with
  | None => []
  | Some entries =>
      merge_sort (λ a b, text_le a.1 b.1) entries ≫= λ '(name, content),
        match content with
        | Some t => if endswith name (lit ".conf") then [(name, (child directory name, t))] else []
        | None => []
        end
  end.

(** [files.setdefault(name, path)]. *)
Definition setdefault {V} (files : dict text V) (e : text * V) : dict text V :=
  if dmem e.1 files then files else dset e.1 e.2 files.

Definition _first_by_name (directories : list text) : dict text definition :=
  foldl (λ files directory, foldl setdefault files (conf_files directory)) [] directories.

(** One line of a definition: the section and the settings so far. *)
Definition settings_line (state : option text * dict text text) (line : text) : option text * dict text text :=
  let '(section, settings) := state in
  let line := strip line in
  if startswith line (lit "[") && endswith line (lit "]") then (Some (slice 1 (len line - 1) line), settings)
  else if bool_decide (section = Some (lit "Partition")) && bool_decide (61 ∈ line) &&
          negb (startswith line (lit "#") || startswith line (lit ";"))
  then match partition_on 61 line with
    | (key, value) => (section, dset (strip key) (strip (default [] value)) settings)
    end
  else state.

Definition _partition_settings (texts : list text) : dict text text :=
  foldl (λ settings t, (foldl settings_line (None, settings) (splitlines t)).2) [] texts.

(** [sorted(files.items())]: the names are distinct. *)
Definition sorted_files (files : dict text definition) : list (text * definition) := merge_sort (λ a b, text_le a.1 b.1) files.

Definition _definitions (directories : list text) : list (text * dict text text) :=
  (λ '(name, (path, t)),
    let dropins := _first_by_name ((λ directory, child directory (name ++ lit ".d")) <$> directories) in
    (path, _partition_settings (t :: ((λ f, f.2.2) <$> sorted_files dropins)))) <$>
  sorted_files (_first_by_name directories).

Definition _is_unsized_verity_hash (settings : dict text text) : bool :=
  bool_decide (dget (lit "Verity") settings = Some (lit "hash")) &&
  bool_decide (default [] (dget (lit "SizeMinBytes") settings) = []) &&
  bool_decide (lower (default [] (dget (lit "Minimize") settings)) ∈ _MINIMIZE_OFF).

Definition unsized_verity_hash_definitions (directories : list text) : list text :=
  fst <$> List.filter (λ d, _is_unsized_verity_hash d.2) (_definitions directories).

(** ** release_validation.py *)

Record ReleaseSettings := {
  rs_seed : text; rs_source_date_epoch : Z; rs_distribution : text; rs_codename : text; rs_snapshot : text;
  rs_firmware : text; rs_components : list text; rs_stage : text; rs_base_tree : option text; rs_base_initrd : option text }.

Record _Context := {
  cx_settings : ReleaseSettings; cx_seed : Z; cx_base : option (path * path); cx_allowed_roots : list path;
  cx_allowed_extra_tree : option path }.

Abbreviation exit fmt args := (SystemExit fmt args).

(** [getattr(config, name, default)] and [config.name]. *)
Definition getattr (c : config) (name : string) (d : cval) : cval := default d (dget (lit name) c).
Definition attr (c : config) (name : string) : result cval := of_option AttributeError (dget (lit name) c).

Definition _declared_base (settings : ReleaseSettings) : result (option (path * path)) :=
  if negb (bool_decide (rs_stage settings = lit "finalize")) then mret None else
  match rs_base_tree settings, rs_base_initrd settings with
  | Some tree, Some initrd => mret (Some (resolve tree, resolve initrd))
  | _, _ => Err (exit "release finalization requires a declared base tree and initrd" [])
  end.

Definition is_declared (p : path) (roots : list path) : bool := existsb (λ root, bool_decide (root `prefix_of` p)) roots.

Definition validate_ini_section (section : text) : result unit :=
  raise_if (bool_decide (section ∈ [lit "Match"; lit "TriggerMatch"]))
    (exit "release configuration cannot use [{}] host-dependent matching" [AText section]).

(** [dict.fromkeys]. *)
Definition distinct (l : list text) : list text := foldl (λ acc x, if bool_decide (x ∈ acc) then acc else acc ++ [x]) [] l.

Definition release_apt_components (repositories release_components : list text) : result (list text) :=
  let components := distinct (lit "main" :: repositories) in
  let missing := List.filter (λ c, negb (bool_decide (c ∈ release_components))) components in
  require (bool_decide (missing = []))
    (exit "configuration Repositories= requests components absent from the Debian snapshot: {} (snapshot components: {})"
       [ATexts missing; ATexts release_components]);;
  mret components.

Definition _enum_value (c : config) (name : string) (d : text) : text :=
  match getattr c name CNone with CEnum _ v => v | _ => d end.

(** A (label, violated) pair. *)
Abbreviation rule := (text * (config → result bool))%type.

Definition _is_set (name : text) (c : config) : result bool := Ok (truthy (default (CSeq []) (dget name c))).

Definition _has_source (name : text) (c : config) : result bool :=
  Ok match dget name c with Some (CObject s) => truthy s | _ => false end.

(** ["host" in v]. *)
Definition _includes_host (name : text) (c : config) : result bool :=
  match default (CSeq []) (dget name c) with
  | CSeq l => Ok (existsb (λ v, match v with CStr t => bool_decide (t = lit "host") | _ => false end) l)
  | CDict items => Ok (dmem (lit "host") items)
  | CStr t => Ok (contains (lit "host") t)
  | _ => Err TypeError
  end.

Fixpoint _reject_first (c : config) (rules : list rule) (message : text → exn) : result unit :=
  match rules with
  | [] => mret tt
  | (label, violated) :: rules => violated c ≫= λ b : bool, if b then Err (message label) else _reject_first c rules message
  end.

Definition _set_rules (names_and_labels : list (string * string)) : list rule :=
  (λ '(name, label), (lit label, _is_set (lit name))) <$> names_and_labels.

Definition _BASE_KERNEL_MODULES_INITRD_RULES : list rule :=
  [(lit "KernelModulesInitrd=no", λ c : config, Ok match getattr c "kernel_modules_initrd" (CBool true) with CBool false => true | _ => false end);
   (lit "KernelModulesInitrdInclude=/KernelInitrdModules=", _is_set (lit "kernel_modules_initrd_include"));
   (lit "KernelModulesInitrdExclude=", _is_set (lit "kernel_modules_initrd_exclude"))].

Definition _FINALIZE_INITRD_RULES : list rule := _set_rules
  [("initrd_packages", "InitrdPackages="); ("initrd_volatile_packages", "InitrdVolatilePackages=");
   ("initrd_profiles", "InitrdProfiles=")]%string.

Definition _FINALIZE_PACKAGE_RULES : list rule := _set_rules
  [("packages", "Packages="); ("build_packages", "BuildPackages="); ("volatile_packages", "VolatilePackages=");
   ("remove_packages", "RemovePackages="); ("package_directories", "PackageDirectories=");
   ("volatile_package_directories", "VolatilePackageDirectories=")]%string.

Definition _HOST_MODULE_RULES : list rule :=
  (λ name, (lit name, _includes_host (lit name))) <$> ["kernel_modules_include"; "kernel_modules_initrd_include"]%string.

Definition unsupported_settings : list text := lit <$>
  ["sync_scripts"; "prepare_scripts"; "build_scripts"; "postinst_scripts"; "finalize_scripts"; "postoutput_scripts";
   "configure_scripts"; "clean_scripts"; "microcode_host"; "kernel_modules_include_host";
   "kernel_modules_initrd_include_host"]%string.
Definition unsupported_sources : list text := lit <$>
  ["secure_boot_key_source"; "secure_boot_certificate_source"; "verity_key_source"; "verity_certificate_source";
   "sign_expected_pcr_key_source"; "sign_expected_pcr_certificate_source"]%string.

Definition _UNSUPPORTED_RULES : list rule :=
  ((λ name, (name, _is_set name)) <$> unsupported_settings) ++ ((λ name, (name, _has_source name)) <$> unsupported_sources).

(** [getattr(bootloader, "name", str(bootloader or "none"))]. *)
Definition bootloader_name (v : cval) : text :=
  match v with
  | CEnum name _ => name
  | CPath p => path_name p
  | _ => if truthy v then match v with CStr t => t | _ => str_of v end else lit "none"
  end.

Definition _check_firmware (c : config) (context : _Context) : result unit :=
  if negb (bool_decide (rs_firmware (cx_settings context) = lit "bios")) then mret tt else
  raise_if (truthy (getattr c "secure_boot" (CBool false))) (exit "bios firmware is incompatible with SecureBoot" []);;
  raise_if (bool_decide (_enum_value c "unified_kernel_images" (lit "no") = lit "yes"))
    (exit "bios firmware is incompatible with UnifiedKernelImages" []);;
  raise_if (negb (bool_decide (lower (bootloader_name (getattr c "bootloader" CNone)) = lit "none")))
    (exit "bios firmware is incompatible with a UEFI Bootloader" []).

Definition _check_network_and_cache (c : config) (context : _Context) : result unit :=
  raise_if (truthy (getattr c "proxy_url" CNone)) (exit "release configuration cannot use a proxy" []);;
  raise_if (negb (bool_decide (_enum_value c "incremental" (lit "no") = lit "no")))
    (exit "release configuration incremental mode is not supported" []).

(** [v == t] for a string [t]. *)
Definition is_text (v : cval) (t : text) : bool := match v with CStr s => bool_decide (s = t) | _ => false end.

Definition _snapshot_matches (c : config) (settings : ReleaseSettings) : result bool :=
  v ← attr c "snapshot";
  mret (is_text v (rs_snapshot settings) ||
        (bool_decide (rs_stage settings = lit "finalize") && match v with CNone => true | _ => false end)).

Definition _check_distribution (c : config) (context : _Context) : result unit :=
  let distribution := getattr c "distribution" CNone in
  if negb (truthy distribution) then mret tt else
  let settings := cx_settings context in
  let mismatch := exit "release configuration must resolve to {} {} snapshot {}"
    [AText (rs_distribution settings); AText (rs_codename settings); AText (rs_snapshot settings)] in
  value ← match distribution with CEnum _ v => Ok v | _ => Err AttributeError end;
  require (bool_decide (value = rs_distribution settings)) mismatch;;
  release ← attr c "release";
  require (is_text release (rs_codename settings)) mismatch;;
  matches ← _snapshot_matches c settings;
  require matches mismatch.

(** The items of [for item in v]. *)
Definition iterate (v : cval) : result (list cval) :=
  match v with
  | CSeq l => Ok l
  | CStr t => Ok ((λ c, CStr [c]) <$> t)
  | CDict items => Ok ((λ i, CStr i.1) <$> items)
  | _ => Err TypeError
  end.

(** Strings to join: an item that is no string raises, and is in no tuple of strings. *)
Definition texts_of (v : cval) : result (list text) :=
  l ← iterate v; mapM (λ v, match v with CStr t => Ok t | _ => Err TypeError end) l.

Definition _check_repositories (c : config) (context : _Context) : result unit :=
  repositories ← texts_of (getattr c "repositories" (CSeq []));
  _ ← release_apt_components repositories (rs_components (cx_settings context));
  mret tt.

(** [Path(v).resolve()]. *)
Definition resolve_value (v : cval) : result path :=
  match v with CPath t | CStr t => Ok (resolve t) | _ => Err TypeError end.

Definition _require_exactly (c : config) (name : string) (expected : path) (requirement : string) : result unit :=
  l ← iterate (getattr c name (CSeq []));
  resolved ← mapM resolve_value l;
  require (bool_decide (resolved = [expected])) (exit "release finalize configuration {}" [AStr requirement]).

Definition _check_base (c : config) (context : _Context) : result unit :=
  raise_if (truthy (getattr c "image_version" CNone))
    (exit "release base configuration cannot set ImageVersion=; set the version on the mkosi_image that finalizes the base" []);;
  _reject_first c _BASE_KERNEL_MODULES_INITRD_RULES (λ label,
    exit "release base configuration cannot use {}: the kernel modules initrd is built when mkosi_image(base = ...) finalizes the base, so set it in the finalize configuration" [AText label]).

Definition _check_finalize (c : config) (context : _Context) : result unit :=
  _reject_first c _FINALIZE_INITRD_RULES (λ label,
    exit "release finalize configuration cannot use {}: the default initrd is built by mkosi_base, so set its contents in the base configuration" [AText label]);;
  _reject_first c _FINALIZE_PACKAGE_RULES (λ label,
    exit "release finalize configuration cannot use {}: packages are installed only by mkosi_base, which has the Debian snapshot" [AText label]);;
  '(base_tree, base_initrd) ← of_option TypeError (cx_base context);
  _require_exactly c "base_trees" base_tree "BaseTrees= must resolve to exactly the declared base tree";;
  _require_exactly c "initrds" base_initrd "Initrds= must resolve to exactly the declared base initrd";;
  require (bool_decide (_enum_value c "cacheonly" (lit "always") = lit "always"))
    (exit "release finalize configuration CacheOnly= must resolve to always so that no package metadata is synchronized" []).

Definition _check_stage (c : config) (context : _Context) : result unit :=
  let stage := rs_stage (cx_settings context) in
  if bool_decide (stage = lit "image") then mret tt
  else if bool_decide (stage = lit "base") then _check_base c context
  else if bool_decide (stage = lit "finalize") then _check_finalize c context
  else Err (exit "unknown release stage {}" [AText stage]).

Definition _check_reproducibility (c : config) (context : _Context) : result unit :=
  seed ← attr c "seed";
  require match seed with CUuid z => z =? cx_seed context | _ => false end
    (exit "release configuration Seed must resolve to {}" [AInt (cx_seed context)]);;
  epoch ← attr c "source_date_epoch";
  require match epoch with CInt z => z =? rs_source_date_epoch (cx_settings context)
    | CBool b => Z.b2z b =? rs_source_date_epoch (cx_settings context) | _ => false end
    (exit "release configuration SourceDateEpoch must resolve to {}" [AInt (rs_source_date_epoch (cx_settings context))]).

(** [any(Path(tree.source).resolve() != allowed for tree in trees)]. *)
Fixpoint other_tree (allowed : path) (trees : list cval) : result bool :=
  match trees with
  | [] => mret false
  | tree :: trees =>
      source ← match tree with CObject s => resolve_value s | _ => Err AttributeError end;
      if bool_decide (source = allowed) then other_tree allowed trees else mret true
  end.

Definition _check_extra_trees (c : config) (context : _Context) : result unit :=
  let extra_trees := getattr c "extra_trees" (CSeq []) in
  if negb (truthy extra_trees) then mret tt else
  let unsupported := exit "release configuration extra_trees is not supported" [] in
  match cx_allowed_extra_tree context with
  | None => Err unsupported
  | Some allowed => trees ← iterate extra_trees; other ← other_tree allowed trees; raise_if other unsupported
  end.

Definition _check_host_modules (c : config) (context : _Context) : result unit :=
  _reject_first c _HOST_MODULE_RULES (λ label, exit "release configuration {} cannot include host modules" [AText label]).

Definition _IMAGE_PATH_SETTINGS : list text := [lit "splash"].

(** The paths inside a value, in order. *)
Fixpoint _configuration_paths (v : cval) : list text :=
  match v with
  | CPath t => [t]
  | CObject s => if truthy s then _configuration_paths s else []
  | CSeq l => concat (List.map _configuration_paths l)
  | CDict items => concat (List.map (λ i, _configuration_paths (snd i)) items)
  | _ => []
  end.

Fixpoint check_paths (name : text) (roots : list path) (paths : list text) : result unit :=
  match paths with
  | [] => mret tt
  | p :: paths =>
      if is_declared (resolve p) roots then check_paths name roots paths
      else Err (exit "release configuration {} resolves undeclared path {}" [AText name; ATexts (resolve p)])
  end.

Fixpoint check_declared (roots : list path) (items : config) : result unit :=
  match items with
  | [] => mret tt
  | (name, value) :: items =>
      (if bool_decide (name ∈ _IMAGE_PATH_SETTINGS) then mret tt else check_paths name roots (_configuration_paths value));;
      check_declared roots items
  end.

Definition _check_declared_paths (c : config) (context : _Context) : result unit :=
  check_declared (cx_allowed_roots context) c.

(** The directories of [repart_dirs]. *)
Definition directories_of (v : cval) : result (list text) :=
  l ← iterate v; mapM (λ v, match v with CPath t | CStr t => Ok t | _ => Err TypeError end) l.

Definition _check_verity_hash_sizes (c : config) (context : _Context) : result unit :=
  directories ← directories_of (getattr c "repart_dirs" (CSeq []));
  match unsized_verity_hash_definitions directories with
  | [] => mret tt
  | first :: _ => Err (exit "release configuration repart definition {} sets Verity=hash without SizeMinBytes= or Minimize=, so systemd-repart would give its hash partition only 4 KiB; add SizeMinBytes= with room for the hash tree (about 1% of the data partition), or Minimize=best to it and to its Verity=data partition" [AText first])
  end.

Definition _check_unsupported (c : config) (context : _Context) : result unit :=
  _reject_first c _UNSUPPORTED_RULES (λ label, exit "release configuration {} is not supported" [AText label]).

Definition _PRIMARY_IMAGE_CHECKS : list (config → _Context → result unit) :=
  [_check_firmware; _check_network_and_cache; _check_distribution; _check_repositories; _check_stage; _check_reproducibility;
   _check_extra_trees; _check_host_modules; _check_declared_paths; _check_verity_hash_sizes; _check_unsupported].

Definition validate_release_configuration (images : list config) (settings : ReleaseSettings) (allowed_paths : list text)
    (allowed_extra_tree : option path) : result (list path) :=
  seed ← of_option (ValueError "badly formed hexadecimal UUID string" []) (parse_uuid (rs_seed settings));
  base ← _declared_base settings;
  let allowed_roots := (resolve <$> allowed_paths) ++ match base with Some (tree, initrd) => [tree; initrd] | None => [] end in
  match last images with
  | None => mret allowed_roots
  | Some image =>
      let context := {| cx_settings := settings; cx_seed := seed; cx_base := base; cx_allowed_roots := allowed_roots;
                        cx_allowed_extra_tree := allowed_extra_tree |} in
      foldM (λ _ check, check image context) tt _PRIMARY_IMAGE_CHECKS;;
      mret allowed_roots
  end.

(** The default initrd configuration of a finalization: [exists_], [is_symlink] and [is_file] are the methods of a path. *)
Definition validate_finalize_config_directory (exists_ is_symlink is_file : text → bool) (directory : text) : result unit :=
  let directory := if negb (exists_ (child directory (lit "mkosi.conf"))) && is_file (child directory (lit "mkosi/mkosi.conf"))
    then child directory (lit "mkosi") else directory in
  foldM (λ _ name, raise_if (exists_ (child directory name) || is_symlink (child directory name))
    (exit "release finalize configuration cannot contain {}: the default initrd is built by mkosi_base, so put it in the base configuration" [AText name]))
    tt [lit "mkosi.initrd.conf"; lit "mkosi.initrd"].
End host.
