(* ===== verification/RepartProofs.v ===== *)
(** * Repart definitions: which files count and what they set

    [_first_by_name] keeps of each name the file of the earliest directory, [_partition_settings] keeps of each key the last
    assignment in a [Partition] section, and a definition is reported exactly when these say so. *)
From S2P Require Import Prelude Bytes PyText Collections ReleaseValidation.

(** A directory lists each name once. *)
Class HostLaws `(Host) := {
  list_dir_names : ∀ directory entries, list_dir directory = Some entries → NoDup (entries.*1) }.

Section repart.
Context `{HostLaws} `{Ucd}.

(** ** The earliest directory wins *)

Definition has_file (directory name t : text) : Prop :=
  ∃ entries, list_dir directory = Some entries ∧ (name, Some t) ∈ entries ∧ endswith name (lit ".conf") = true.

(** The file that [name] stands for: the one of the first directory that has it. *)
Definition effective (directories : list text) (name : text) (d : text * text) : Prop :=
  ∃ before directory after t, directories = before ++ directory :: after ∧ has_file directory name t ∧
    d = (child directory name, t) ∧ ∀ directory' t', directory' ∈ before → ¬ has_file directory' name t'.

Lemma elem_conf_files directory name d :
  (name, d) ∈ conf_files directory ↔ ∃ t, d = (child directory name, t) ∧ has_file directory name t.
Proof.
  unfold conf_files, has_file. destruct (list_dir directory) as [entries|]; [|set_solver].
  rewrite list_elem_of_bind. split.
  - intros ([n [t|]] & Hin & Hn); [|set_solver]. rewrite (merge_sort_Permutation _) in Hn.
    destruct (endswith n _) eqn:E; [|set_solver]. apply list_elem_of_singleton in Hin. simplify_eq. eauto 6.
  - intros (t & -> & e & [= <-] & Hin & He). exists (name, Some t). rewrite (merge_sort_Permutation _), He. set_solver.
Qed.

Lemma conf_files_ok directory : dict_ok (conf_files directory).
Proof.
  unfold conf_files, dict_ok, dkeys. destruct (list_dir directory) as [entries|] eqn:E; [|constructor].
  apply list_dir_names in E. assert (Hs : NoDup ((merge_sort (λ a b, text_le a.1 b.1) entries).*1)).
  { by rewrite (merge_sort_Permutation _). }
  induction (merge_sort _ entries) as [|[n c] l IH]; simpl; [constructor|]. inv Hs. specialize (IH ltac:(done)).
  destruct c as [t|]; [|done]. destruct (endswith n _); [|done]. simpl. constructor; [|done].
  rewrite list_elem_of_fmap. intros ([n' d] & Heq & Hin). simpl in Heq. subst n'. apply list_elem_of_bind in Hin as ([m [u|]] & Hm & Hl); [|set_solver].
  destruct (endswith m _); [|set_solver]. apply list_elem_of_singleton in Hm. simplify_eq.
  apply (list_elem_of_fmap_2 fst) in Hl. done.
Qed.

Lemma dget_conf_files directory name d :
  dget name (conf_files directory) = Some d ↔ ∃ t, d = (child directory name, t) ∧ has_file directory name t.
Proof.
  rewrite <- elem_conf_files. split; [apply dget_Some_elem|]. apply elem_dget, conf_files_ok.
Qed.

Lemma dget_setdefault {V} (files : dict text V) e name :
  dget name (setdefault files e) = match dget name files with Some v => Some v | None => if decide (name = e.1) then Some e.2 else None end.
Proof.
  unfold setdefault, dmem. case_bool_decide as E.
  - destruct (dget name files) eqn:Ef; [done|]. rewrite decide_False; [done|]. intros ->. by apply dget_None in Ef.
  - rewrite dget_dset. case_decide as Ed; [|by destruct (dget name files)]. subst name.
    apply dget_None in E. by rewrite E.
Qed.

Lemma dget_setdefaults {V} (files l : dict text V) name :
  dget name (foldl setdefault files l) = match dget name files with Some v => Some v | None => dget name l end.
Proof.
  revert files. induction l as [|[k v] l IH]; intros files; simpl; [by destruct (dget name files)|].
  rewrite IH, dget_setdefault. simpl. by destruct (dget name files), (decide (name = k)).
Qed.

Lemma first_by_name_from directories files name :
  dget name (foldl (λ files directory, foldl setdefault files (conf_files directory)) files directories) =
  match dget name files with Some v => Some v | None => head (omap (λ directory, dget name (conf_files directory)) directories) end.
Proof.
  revert files. induction directories as [|directory l IH]; intros files; simpl; [by destruct (dget name files)|].
  rewrite IH, dget_setdefaults. destruct (dget name files); [done|]. by destruct (dget name (conf_files directory)).
Qed.

Lemma first_by_name_effective directories name d :
  dget name (_first_by_name directories) = Some d ↔ effective directories name d.
Proof.
  unfold _first_by_name. rewrite first_by_name_from. simpl. induction directories as [|directory l IH]; simpl.
  { split; [done|]. intros (b & ? & ? & ? & Heq & _). by destruct b. }
  destruct (dget name (conf_files directory)) as [d'|] eqn:E.
  - apply dget_conf_files in E as (t & -> & Hf). simpl. split.
    + intros [= <-]. exists [], directory, l, t. set_solver.
    + intros ([|d0 b] & dir & a & t' & Heq & Hf' & -> & Hb); simplify_eq/=; [|destruct (Hb d0 t); [by left|done]].
      assert (dget name (conf_files dir) = Some (child dir name, t)) as E1 by (apply dget_conf_files; eauto).
      assert (dget name (conf_files dir) = Some (child dir name, t')) as E2 by (apply dget_conf_files; eauto). congruence.
  - assert (Hno : ∀ t, ¬ has_file directory name t).
    { intros t Ht. assert (dget name (conf_files directory) = Some (child directory name, t)) by (apply dget_conf_files; eauto). congruence. }
    simpl. rewrite IH. split.
    + intros (b & dir & a & t & -> & Hf & -> & Hb). exists (directory :: b), dir, a, t. split_and!; [done..|].
      intros dir' t' [->|Hin]%elem_of_cons; [apply Hno|by apply Hb].
    + intros ([|d0 b] & dir & a & t & Heq & Hf & -> & Hb); simplify_eq/=; [by destruct (Hno t)|].
      exists b, dir, a, t. split_and!; [done..|]. intros. apply Hb. by right.
Qed.

Lemma dict_ok_setdefault {V} (files : dict text V) e : dict_ok files → dict_ok (setdefault files e).
Proof. unfold setdefault. destruct (dmem _ _); [done|apply dict_ok_dset]. Qed.

Lemma foldl_inv {A S} (P : S → Prop) (f : S → A → S) l s : (∀ s x, P s → P (f s x)) → P s → P (foldl f s l).
Proof. intros Hf. revert s. induction l as [|x l IH]; intros s Hs; simpl; eauto. Qed.

Lemma first_by_name_ok directories : dict_ok (_first_by_name directories).
Proof.
  unfold _first_by_name. apply foldl_inv; [|constructor]. intros files directory Hf.
  apply foldl_inv; [|done]. intros s e. apply dict_ok_setdefault.
Qed.

(** The files of a dictionary in the order of their names. *)
Definition by_name (files : list (text * (text * text))) : Prop := StronglySorted (λ a b, text_le a.1 b.1) files.

(** The files that [directories] have, each once and in the order of their names. *)
Definition effective_files (directories : list text) (files : list (text * (text * text))) : Prop :=
  by_name files ∧ NoDup (files.*1) ∧ ∀ name d, (name, d) ∈ files ↔ effective directories name d.

#[local] Instance by_name_trans : Transitive (λ a b : text * (text * text), text_le a.1 b.1).
Proof. intros a b c Hab Hbc. by transitivity b.1. Qed.
#[local] Instance by_name_total : Total (λ a b : text * (text * text), text_le a.1 b.1).
Proof. intros a b. apply text_le_total. Qed.

Lemma elem_first_by_name directories name d : (name, d) ∈ _first_by_name directories ↔ effective directories name d.
Proof.
  rewrite <- first_by_name_effective. split; [apply elem_dget, first_by_name_ok|apply dget_Some_elem].
Qed.

Lemma sorted_files_effective directories : effective_files directories (sorted_files (_first_by_name directories)).
Proof.
  unfold sorted_files. split_and!.
  - apply StronglySorted_merge_sort; apply _.
  - rewrite (merge_sort_Permutation _). apply first_by_name_ok.
  - intros name d. by rewrite (merge_sort_Permutation _), elem_first_by_name.
Qed.

Lemma NoDup_keys_inj {V} (l : dict text V) a b : dict_ok l → a ∈ l → b ∈ l → a.1 = b.1 → a = b.
Proof.
  destruct a as [k v], b as [k' v']. intros Hl Ha Hb Heq. simpl in Heq. subst k'.
  apply elem_dget in Ha, Hb; [congruence|done..].
Qed.

Lemma effective_files_unique directories l k : effective_files directories l → effective_files directories k → l = k.
Proof.
  intros (Hl & Nl & El) (Hk & Nk & Ek). assert (Hlk : ∀ x, x ∈ l ↔ x ∈ k) by (intros [n d]; by rewrite El, Ek).
  eapply StronglySorted_unique_strong; [|exact Hl|exact Hk|].
  - intros a b Ha Hb Hab Hba. eapply (NoDup_keys_inj l); [exact Nl|done|by apply Hlk|]. by apply (anti_symm text_le).
  - apply NoDup_Permutation; [by eapply NoDup_fmap_1|by eapply NoDup_fmap_1|done].
Qed.

(** ** The last assignment of a key wins *)

(** The section that a header line opens. *)
Definition header (line : text) : option text :=
  if startswith line (lit "[") && endswith line (lit "]") then Some (slice 1 (len line - 1) line) else None.

(** The section that the line after [lines] is in. *)
Definition section_of (lines : list text) : option text := last (omap header lines).

(** The key and value that line [i] assigns. *)
Definition assignment (lines : list text) (i : nat) : option (text * text) :=
  line ← lines !! i;
  match partition_on 61 line with
  | (key, Some value) =>
      if bool_decide (header line = None ∧ section_of (take i lines) = Some (lit "Partition") ∧
        ¬ (lit "#" `prefix_of` line) ∧ ¬ (lit ";" `prefix_of` line)) then Some (strip key, strip value) else None
  | _ => None
  end.

Definition line_assignments (lines : list text) : list (text * text) := omap (assignment lines) (seq 0 (length lines)).
Definition assignments (t : text) : list (text * text) := line_assignments (strip <$> splitlines t).

(** The last value that the texts assign to [key]. *)
Definition last_assigned (key : text) (texts : list text) : option text :=
  last (omap (λ a : text * text, if decide (a.1 = key) then Some a.2 else None) (texts ≫= assignments)).

Definition assign (settings : dict text text) (a : text * text) : dict text text := dset a.1 a.2 settings.

Lemma omap_ext_in {A B} (f g : A → option B) (l : list A) : (∀ x, x ∈ l → f x = g x) → omap f l = omap g l.
Proof.
  intros Hfg. induction l as [|x l IH]; [done|]. cbn. rewrite (Hfg x) by (by left). rewrite IH by set_solver. done.
Qed.

Lemma section_of_snoc lines line :
  section_of (lines ++ [line]) = match header line with Some s => Some s | None => section_of lines end.
Proof.
  unfold section_of. rewrite omap_app. simpl. destruct (header line); simpl; [apply last_snoc|by rewrite app_nil_r].
Qed.

Lemma line_assignments_snoc lines line :
  line_assignments (lines ++ [line]) = line_assignments lines ++ option_list (assignment (lines ++ [line]) (length lines)).
Proof.
  unfold line_assignments. rewrite length_app. simpl. rewrite seq_app, omap_app. simpl. f_equal.
  apply omap_ext_in. intros i Hi%elem_of_seq. unfold assignment. rewrite lookup_app_l, take_app_le by lia. done.
Qed.

Lemma in_line c line : bool_decide (c ∈ line) = true ↔ ∃ key value, partition_on c line = (key, Some value).
Proof.
  rewrite bool_decide_eq_true. destruct (partition_on c line) as [key [value|]] eqn:E.
  - apply partition_on_Some in E as [-> _]. split; [eauto|set_solver].
  - apply partition_on_None in E as [-> Hc]. split; [done|]. by intros (? & ? & ?).
Qed.

Lemma settings_line_step lines line settings :
  settings_line (section_of lines, settings) line =
  let all := lines ++ [strip line] in
  (section_of all, foldl assign settings (option_list (assignment all (length lines)))).
Proof.
  cbn [settings_line]. rewrite section_of_snoc. unfold assignment. rewrite list_lookup_middle, take_app_length by done. cbn [mbind option_bind].
  set (l := strip line). destruct (startswith l (lit "[") && endswith l (lit "]")) eqn:Eh.
  { unfold header. rewrite Eh. destruct (partition_on 61 l) as [key [value|]]; [|done].
    rewrite bool_decide_eq_false_2; [done|]. by intros [? _]. }
  unfold header. rewrite Eh. destruct (partition_on 61 l) as [key [value|]] eqn:Ep.
  - assert (Hin : bool_decide (61 ∈ l) = true) by (apply in_line; eauto). rewrite Hin, andb_true_r. unfold startswith.
    repeat case_bool_decide; simpl; try done; exfalso; naive_solver.
  - destruct (bool_decide (61 ∈ l)) eqn:Hin; [apply in_line in Hin as (? & ? & ?); congruence|]. by rewrite andb_false_r.
Qed.

Lemma settings_lines lines settings :
  foldl settings_line (None, settings) lines =
  (section_of (strip <$> lines), foldl assign settings (line_assignments (strip <$> lines))).
Proof.
  induction lines as [|line lines IH] using rev_ind; [done|].
  rewrite foldl_app, IH. cbn [foldl]. rewrite settings_line_step, fmap_app. cbv zeta.
  change (strip <$> [line]) with [strip line]. by rewrite line_assignments_snoc, foldl_app.
Qed.

Lemma partition_settings_fold texts settings :
  foldl (λ settings t, (foldl settings_line (None, settings) (splitlines t)).2) settings texts =
  foldl assign settings (texts ≫= assignments).
Proof.
  revert settings. induction texts as [|t texts IH]; intros settings; [done|]. cbn [foldl mbind list_bind].
  by rewrite IH, settings_lines, foldl_app.
Qed.

Lemma dget_assigns key l settings :
  dget key (foldl assign settings l) =
  match last (omap (λ a : text * text, if decide (a.1 = key) then Some a.2 else None) l) with Some v => Some v | None => dget key settings end.
Proof.
  induction l as [|a l IH] using rev_ind; [done|]. rewrite foldl_app, omap_app. simpl. unfold assign at 1. rewrite dget_dset.
  destruct (decide (a.1 = key)) as [->|Hne]; [by rewrite decide_True, last_snoc|].
  by rewrite decide_False, app_nil_r, IH by done.
Qed.

Lemma dget_partition_settings key texts : dget key (_partition_settings texts) = last_assigned key texts.
Proof. unfold _partition_settings, last_assigned. rewrite partition_settings_fold, dget_assigns. by destruct (last _). Qed.

(** ** The definitions reported *)

(** The texts of a definition and of the drop-ins that complete it. *)
Definition definition_texts (directories : list text) (name t : text) (texts : list text) : Prop :=
  ∃ dropins, effective_files ((λ directory, child directory (name ++ lit ".d")) <$> directories) dropins ∧
    texts = t :: ((λ f, f.2.2) <$> dropins).

(** A hash partition that systemd-repart would not give any room for its tree. *)
Definition unsized_hash (texts : list text) : Prop :=
  last_assigned (lit "Verity") texts = Some (lit "hash") ∧
  default [] (last_assigned (lit "SizeMinBytes") texts) = [] ∧
  lower (default [] (last_assigned (lit "Minimize") texts)) ∈ _MINIMIZE_OFF.

Lemma is_unsized_texts texts : _is_unsized_verity_hash (_partition_settings texts) = true ↔ unsized_hash texts.
Proof.
  unfold _is_unsized_verity_hash, unsized_hash. rewrite !dget_partition_settings, !andb_true_iff, !bool_decide_eq_true. tauto.
Qed.

Lemma elem_definitions directories p settings :
  (p, settings) ∈ _definitions directories ↔
  ∃ name t texts, effective directories name (p, t) ∧ definition_texts directories name t texts ∧ settings = _partition_settings texts.
Proof.
  unfold _definitions. rewrite list_elem_of_fmap. split.
  - intros ([name [q t]] & [= -> ->] & Hin). apply sorted_files_effective in Hin. eexists name, t, _. split_and!; [done| |done].
    eexists. split; [apply sorted_files_effective|done].
  - intros (name & t & texts & He & (dropins & Hd & ->) & ->). exists (name, (p, t)). split.
    + by rewrite (effective_files_unique _ _ _ Hd (sorted_files_effective _)).
    + by apply sorted_files_effective.
Qed.

Lemma elem_unsized directories p :
  p ∈ unsized_verity_hash_definitions directories ↔
  ∃ name t texts, effective directories name (p, t) ∧ definition_texts directories name t texts ∧ unsized_hash texts.
Proof.
  unfold unsized_verity_hash_definitions. rewrite list_elem_of_fmap. split.
  - intros ([q settings] & -> & Hin). apply list_elem_of_In, filter_In in Hin as [Hin Hu]. apply list_elem_of_In in Hin.
    apply elem_definitions in Hin as (name & t & texts & ? & ? & ->). apply is_unsized_texts in Hu. eauto 6.
  - intros (name & t & texts & He & Ht & Hu). exists (p, _partition_settings texts). split; [done|].
    apply list_elem_of_In, filter_In. rewrite <- list_elem_of_In, elem_definitions. split; [eauto 6|]. by apply is_unsized_texts.
Qed.

(** [unsized_verity_hash_definitions] returns a path exactly when it is the file that some name stands for (the file of
    that name in the earliest directory that has one) and, in this file followed by the drop-ins that count, in the order of
    their names, the last assignments of the [Partition] sections say [Verity=hash], leave [SizeMinBytes] unset or empty
    and [Minimize] off. *)
Theorem unsized_definitions_exact directories p :
  p ∈ unsized_verity_hash_definitions directories ↔
  ∃ name t texts, effective directories name (p, t) ∧ definition_texts directories name t texts ∧ unsized_hash texts.
Proof. apply elem_unsized. Qed.
End repart.

(** ** Concrete definitions *)

Module RepartDemo.
Definition dir : text := lit "/work/repart".
Definition late : text := lit "/work/late".
Definition data : text := lit "[Partition]" ++ [10] ++ lit "Verity=data" ++ [10].
Definition hash : text := lit "[Partition]" ++ [10] ++ lit " Verity = hash" ++ [10] ++ lit "# SizeMinBytes=1M" ++ [10].
Definition sized : text := hash ++ lit "SizeMinBytes=64M" ++ [10].
Definition dropin : text := lit "[Partition]" ++ [10] ++ lit "SizeMinBytes=" ++ [10] ++ lit "Minimize=OFF" ++ [10].

(** Two directories: the earlier one has the sized definition and a drop-in that takes its size away. *)
Definition listing (directory : text) : option (list (text * option text)) :=
  if bool_decide (directory = dir) then
    Some [(lit "20-hash.conf", Some sized); (lit "10-data.conf", Some data); (lit "20-hash.conf.d", None); (lit "notes", Some hash)]
  else if bool_decide (directory = late) then Some [(lit "20-hash.conf", Some data); (lit "10-data.conf", Some hash)]
  else if bool_decide (directory = dir ++ lit "/20-hash.conf.d") then Some [(lit "size.conf", Some dropin)]
  else None.

#[export] Instance host : Host := {|
  resolve := split_on 47;
  parse_uuid := λ t, if bool_decide (t = lit "00000000-0000-0000-0000-000000000007") then Some 7 else None;
  list_dir := listing;
  path_name := λ t, (rpartition_on 47 t).2;
  str_of := λ _, lit "?" |}.

#[export] Instance laws : HostLaws host.
Proof.
  constructor. intros directory entries. cbn [list_dir host]. unfold listing. repeat case_bool_decide; try done; intros Heq; injection Heq as <-;
    apply (bool_decide_unpack _); by vm_compute.
Defined.
End RepartDemo.

Section demo.
#[local] Existing Instances RepartDemo.host RepartDemo.laws ascii_ucd.

Lemma unsized_definitions_exact_witness :
  RepartDemo.dir ++ lit "/20-hash.conf" ∈ unsized_verity_hash_definitions [RepartDemo.dir; RepartDemo.late] ∧
  ∃ name t texts, effective [RepartDemo.dir; RepartDemo.late] name (RepartDemo.dir ++ lit "/20-hash.conf", t) ∧
    definition_texts [RepartDemo.dir; RepartDemo.late] name t texts ∧ unsized_hash texts.
Proof.
  assert (Hin : RepartDemo.dir ++ lit "/20-hash.conf" ∈ unsized_verity_hash_definitions [RepartDemo.dir; RepartDemo.late]).
  { apply (bool_decide_unpack _). by vm_compute. }
  split; [exact Hin|]. by apply (unsized_definitions_exact [RepartDemo.dir; RepartDemo.late]).
Defined.
End demo.
