(* ===== verification/ReleaseProofs.v ===== *)
(** * Release validation: the configurations it accepts

    [hermetic] states the release contract of the primary image, one field per promise, and [validate_release_accepts] shows
    that [validate_release_configuration] returns exactly for the configurations that keep it. *)
From S2P Require Import Prelude Bytes PyText Collections ReleaseValidation RepartProofs.

Section release.
Context `{HostLaws} `{Ucd}.

Lemma reject_first_iff c rules message :
  _reject_first c rules message = Ok tt ↔ ∀ r, r ∈ rules → r.2 c = Ok false.
Proof.
  induction rules as [|[label violated] rules IH]; simpl; [split; [set_solver|done]|]. rewrite bind_Ok_iff. split.
  - intros ([] & Hv & Hl) r [->|Hin]%elem_of_cons; try done. by apply IH.
  - intros Hall. exists false. split; [apply (Hall (label, violated)); by left|]. apply IH. intros. apply Hall. by right.
Qed.

(** ** What the settings of an image say *)

(** A path that a value holds, inside lists, dictionaries and the sources of objects. *)
Inductive holds_path (p : text) : cval → Prop :=
  | holds_here : holds_path p (CPath p)
  | holds_source s : truthy s = true → holds_path p s → holds_path p (CObject s)
  | holds_item l v : v ∈ l → holds_path p v → holds_path p (CSeq l)
  | holds_value items k v : (k, v) ∈ items → holds_path p v → holds_path p (CDict items).

(** The setting [name] is absent or false. *)
Definition is_unset (c : config) (name : text) : Prop := ∀ v, dget name c = Some v → truthy v = false.

(** The setting [name] is no object with a source. *)
Definition no_source (c : config) (name : text) : Prop := ∀ s, dget name c = Some (CObject s) → truthy s = false.

(** The setting [name] names no host modules. *)
Definition no_host (c : config) (name : text) : Prop := _includes_host name c = Ok false.

(** The enum setting [name] has the value [v], or is not set and [v] is its default. *)
Definition enum_is (c : config) (name : string) (d v : text) : Prop := _enum_value c name d = v.

(** The list setting [name] is exactly the path [p]. *)
Definition is_exactly (c : config) (name : string) (p : path) : Prop :=
  ∃ v, iterate (getattr c name (CSeq [])) = Ok [v] ∧ resolve_value v = Ok p.

Lemma elem_configuration_paths p v : p ∈ _configuration_paths v ↔ holds_path p v.
Proof.
  revert v. fix IH 1. intros v. destruct v as [|b|z|t|z|t|n t|s|l|items]; simpl;
    try (split; [set_solver|by inversion 1]).
  - rewrite list_elem_of_singleton. split; [intros <-; constructor|by inversion 1].
  - destruct (truthy s) eqn:E.
    + rewrite IH. split; [by constructor|by inversion 1].
    + split; [set_solver|]. inversion 1; congruence.
  - split.
    + induction l as [|v l IHl]; simpl; [set_solver|]. rewrite elem_of_app. intros [Hv|Hl].
      * apply holds_item with v; [by left|by apply IH].
      * apply IHl in Hl. inversion Hl; subst. eapply holds_item; [by right|done].
    + inversion 1 as [| |l' v Hv Hp|]; subst. clear -IH Hv Hp. induction l as [|w l IHl]; [set_solver|]. simpl. rewrite elem_of_app.
      apply elem_of_cons in Hv as [->|Hv]; [left; by apply IH|right; auto].
  - split.
    + induction items as [|[k v] l IHl]; simpl; [set_solver|]. rewrite elem_of_app. intros [Hv|Hl].
      * apply holds_value with k v; [by left|by apply IH].
      * apply IHl in Hl. inversion Hl; subst. eapply holds_value; [by right|done].
    + inversion 1 as [| | |items' k v Hv Hp]; subst. clear -IH Hv Hp. induction items as [|[k' w] l IHl]; [set_solver|]. simpl.
      rewrite elem_of_app. apply elem_of_cons in Hv as [Heq|Hv]; [injection Heq as -> ->; left; by apply IH|right; auto].
Qed.

Lemma is_set_iff name c : _is_set name c = Ok false ↔ is_unset c name.
Proof.
  unfold _is_set, is_unset. destruct (dget name c) as [w|]; simpl; [|by split]. split.
  - intros [= Hw] v [= <-]. done.
  - intros Hv. by rewrite (Hv w).
Qed.

Lemma has_source_iff name c : _has_source name c = Ok false ↔ no_source c name.
Proof. 
  unfold _has_source, no_source. destruct (dget name c) as [v|]; [|by split].
  destruct v; (split; [intros Hs s Heq|intros Hs]); try done; try (by f_equal; apply Hs).
  injection Heq as <-. by injection Hs.
Qed.

Lemma set_rules_iff c names message :
  _reject_first c (_set_rules names) message = Ok tt ↔ ∀ name, name ∈ names.*1 → is_unset c (lit name).
Proof.
  rewrite reject_first_iff. unfold _set_rules. split.
  - intros Hall name Hin. apply list_elem_of_fmap in Hin as ([n label] & -> & Hin). apply is_set_iff. apply (Hall (lit label, _is_set (lit n))).
    apply list_elem_of_fmap. by exists (n, label).
  - intros Hall r Hin. apply list_elem_of_fmap in Hin as ([name label] & -> & Hin). apply is_set_iff. apply Hall.
    by apply (list_elem_of_fmap_2 fst) in Hin.
Qed.

Lemma unset_getattr c name d : truthy d = false → truthy (getattr c name d) = false ↔ is_unset c (lit name).
Proof.
  intros Hd. unfold getattr, is_unset. destruct (dget _ c) as [w|]; simpl; [|by split]. split; [by intros Hw v [= <-]|auto].
Qed.

(** ** The contract *)

(** What a configuration must not or must set in each stage of a release build. *)
Inductive stage_contract (settings : ReleaseSettings) (base : option (path * path)) (c : config) : Prop :=
  | image_stage : rs_stage settings = lit "image" → stage_contract settings base c
  | base_stage :
      rs_stage settings = lit "base" → is_unset c (lit "image_version") →
      dget (lit "kernel_modules_initrd") c ≠ Some (CBool false) →
      is_unset c (lit "kernel_modules_initrd_include") → is_unset c (lit "kernel_modules_initrd_exclude") →
      stage_contract settings base c
  | finalize_stage tree initrd :
      rs_stage settings = lit "finalize" → base = Some (tree, initrd) →
      (∀ name, name ∈ ["initrd_packages"; "initrd_volatile_packages"; "initrd_profiles"]%string → is_unset c (lit name)) →
      (∀ name, name ∈ ["packages"; "build_packages"; "volatile_packages"; "remove_packages"; "package_directories";
                       "volatile_package_directories"]%string → is_unset c (lit name)) →
      is_exactly c "base_trees" tree → is_exactly c "initrds" initrd →
      enum_is c "cacheonly" (lit "always") (lit "always") →
      stage_contract settings base c.

(** The snapshot the packages come from; a finalization installs none and may leave it unset. *)
Definition snapshot_declared (settings : ReleaseSettings) (c : config) : Prop :=
  dget (lit "snapshot") c = Some (CStr (rs_snapshot settings)) ∨
  (rs_stage settings = lit "finalize" ∧ dget (lit "snapshot") c = Some CNone).

Record hermetic (settings : ReleaseSettings) (seed : Z) (base : option (path * path)) (roots : list path)
    (extra_tree : option path) (c : config) : Prop := {
  only_declared_paths : ∀ name v p, (name, v) ∈ c → name ≠ lit "splash" → holds_path p v →
    ∃ root, root ∈ roots ∧ root `prefix_of` resolve p;
  pinned_seed : dget (lit "seed") c = Some (CUuid seed);
  pinned_epoch : ∃ v, dget (lit "source_date_epoch") c = Some v ∧
    (v = CInt (rs_source_date_epoch settings) ∨ ∃ b, v = CBool b ∧ Z.b2z b = rs_source_date_epoch settings);
  no_network : is_unset c (lit "proxy_url");
  no_cache : enum_is c "incremental" (lit "no") (lit "no");
  pinned_distribution : is_unset c (lit "distribution") ∨
    ((∃ n, dget (lit "distribution") c = Some (CEnum n (rs_distribution settings))) ∧
     dget (lit "release") c = Some (CStr (rs_codename settings)) ∧ snapshot_declared settings c);
  known_repositories : ∃ l, texts_of (getattr c "repositories" (CSeq [])) = Ok l ∧
    ∀ x, x ∈ lit "main" :: l → x ∈ rs_components settings;
  stage_kept : stage_contract settings base c;
  only_extra_tree : is_unset c (lit "extra_trees") ∨ ∃ allowed trees, extra_tree = Some allowed ∧
    iterate (getattr c "extra_trees" (CSeq [])) = Ok trees ∧
    ∀ tree, tree ∈ trees → ∃ s, tree = CObject s ∧ resolve_value s = Ok allowed;
  no_host_modules : no_host c (lit "kernel_modules_include") ∧ no_host c (lit "kernel_modules_initrd_include");
  no_scripts : ∀ name, name ∈ unsupported_settings → is_unset c name;
  no_keys : ∀ name, name ∈ unsupported_sources → no_source c name;
  sized_hashes : ∃ directories, directories_of (getattr c "repart_dirs" (CSeq [])) = Ok directories ∧
    ∀ name p t texts, effective directories name (p, t) → definition_texts directories name t texts → ¬ unsized_hash texts;
  bios_only : rs_firmware settings = lit "bios" →
    is_unset c (lit "secure_boot") ∧ ¬ enum_is c "unified_kernel_images" (lit "no") (lit "yes") ∧
    lower (bootloader_name (getattr c "bootloader" CNone)) = lit "none" }.

(** ** One lemma per check *)

Section checks.
Context (c : config) (context : _Context).
Abbreviation settings := (cx_settings context).

Lemma check_firmware_iff :
  _check_firmware c context = Ok tt ↔
  (rs_firmware settings = lit "bios" → is_unset c (lit "secure_boot") ∧ ¬ enum_is c "unified_kernel_images" (lit "no") (lit "yes") ∧
    lower (bootloader_name (getattr c "bootloader" CNone)) = lit "none").
Proof.
  unfold _check_firmware, enum_is. case_bool_decide as E; simpl; [|naive_solver].
  autorewrite with checks. rewrite unset_getattr by done. tauto.
Qed.

Lemma check_network_iff :
  _check_network_and_cache c context = Ok tt ↔ is_unset c (lit "proxy_url") ∧ enum_is c "incremental" (lit "no") (lit "no").
Proof. unfold _check_network_and_cache, enum_is. autorewrite with checks. by rewrite unset_getattr. Qed.

Lemma is_text_iff v t : is_text v t = true ↔ v = CStr t.
Proof. destruct v; simpl; rewrite ?bool_decide_eq_true; naive_solver. Qed.

Lemma snapshot_matches_iff : _snapshot_matches c settings = Ok true ↔ snapshot_declared settings c.
Proof.
  unfold _snapshot_matches, attr, snapshot_declared. rewrite bind_Ok_iff. setoid_rewrite of_option_iff. split.
  - intros (v & Hv & [= Hm]). rewrite Hv. apply orb_true_iff in Hm as [Hm|Hm]; [left; by apply is_text_iff in Hm as ->|right].
    apply andb_true_iff in Hm as [Hs Hn]. apply bool_decide_eq_true in Hs. by destruct v.
  - intros [Hv|[Hs Hv]]; (eexists; split; [exact Hv|]).
    + unfold mret, result_ret. f_equal. apply orb_true_iff. left. by apply is_text_iff.
    + unfold mret, result_ret. f_equal. rewrite bool_decide_eq_true_2 by done. by rewrite orb_true_r.
Qed.

Lemma check_distribution_iff :
  _check_distribution c context = Ok tt ↔ is_unset c (lit "distribution") ∨
    ((∃ n, dget (lit "distribution") c = Some (CEnum n (rs_distribution settings))) ∧
     dget (lit "release") c = Some (CStr (rs_codename settings)) ∧ snapshot_declared settings c).
Proof.
  unfold _check_distribution. destruct (truthy _) eqn:Et; simpl.
  - assert (Hset : ¬ is_unset c (lit "distribution")) by (rewrite <- (unset_getattr c "distribution" CNone) by done; congruence).
    rewrite bind_Ok_iff. setoid_rewrite then_Ok. unfold attr. setoid_rewrite bind_Ok_iff. setoid_rewrite then_Ok.
    setoid_rewrite bind_Ok_iff. setoid_rewrite of_option_iff. setoid_rewrite require_iff. setoid_rewrite is_text_iff.
    unfold getattr in *. destruct (dget (lit "distribution") c) as [v|]; [|done]. simpl in *. split.
    + intros (d & Hd & He & r & Hr & -> & m & Hm & ->). right. apply bool_decide_eq_true in He. subst d.
      destruct v; try done. injection Hd as ->. split_and!; [eauto|done|by apply snapshot_matches_iff].
    + intros [?|([n [= ->]] & Hr & Hs)]; [done|]. eexists. split; [done|]. split; [by apply bool_decide_eq_true|].
      eexists. split; [exact Hr|]. split; [done|]. exists true. split; [by apply snapshot_matches_iff|done].
  - split; [|done]. intros _. left. by rewrite <- (unset_getattr c "distribution" CNone).
Qed.

Lemma distinct_from (l acc : list text) x : x ∈ foldl (λ acc x, if bool_decide (x ∈ acc) then acc else acc ++ [x]) acc l ↔ x ∈ acc ∨ x ∈ l.
Proof. revert acc. induction l as [|y l IH]; intros acc; simpl; [set_solver|]. rewrite IH. case_bool_decide; set_solver. Qed.

Lemma elem_distinct (l : list text) x : x ∈ distinct l ↔ x ∈ l.
Proof. unfold distinct. rewrite distinct_from. set_solver. Qed.

Lemma release_apt_components_iff repositories components r :
  release_apt_components repositories components = Ok r ↔
  r = distinct (lit "main" :: repositories) ∧ ∀ x, x ∈ lit "main" :: repositories → x ∈ components.
Proof.
  unfold release_apt_components. rewrite then_Ok, require_iff, bool_decide_eq_true.
  assert (Hm : List.filter (λ x, negb (bool_decide (x ∈ components))) (distinct (lit "main" :: repositories)) = [] ↔
    ∀ x, x ∈ lit "main" :: repositories → x ∈ components).
  { split.
    - intros Hf x Hx. apply dec_stable. intros Hn. apply (not_elem_of_nil (A := text) x). rewrite <- Hf.
      apply list_elem_of_In, filter_In. rewrite <- list_elem_of_In, elem_distinct. split; [done|]. by rewrite bool_decide_eq_false_2.
    - intros Hall. apply elem_of_nil_inv. intros x Hx. apply list_elem_of_In, filter_In in Hx as [Hx Hn].
      apply list_elem_of_In, elem_distinct, Hall in Hx. by rewrite bool_decide_eq_true_2 in Hn. }
  rewrite Hm. split; [intros [? [= <-]]; done|intros [-> ?]; done].
Qed.

Lemma check_repositories_iff :
  _check_repositories c context = Ok tt ↔
  ∃ l, texts_of (getattr c "repositories" (CSeq [])) = Ok l ∧ ∀ x, x ∈ lit "main" :: l → x ∈ rs_components settings.
Proof.
  unfold _check_repositories. rewrite bind_Ok_iff. setoid_rewrite bind_Ok_iff. setoid_rewrite release_apt_components_iff. naive_solver.
Qed.

Lemma mapM_one {A B} (f : A → result B) l y : mapM f l = Ok [y] ↔ ∃ x, l = [x] ∧ f x = Ok y.
Proof.
  destruct l as [|x [|x' l]]; simpl.
  - split; [done|]. by intros (? & ? & _).
  - rewrite bind_Ok_iff. split; [intros (z & Hz & [= <-]); eauto|]. intros (? & [= <-] & ->). eauto.
  - split; [|by intros (? & ? & _)]. intros Hm. res_inv. discriminate.
Qed.

Lemma require_exactly_iff name p requirement :
  _require_exactly c name p requirement = Ok tt ↔ is_exactly c name p.
Proof.
  unfold _require_exactly, is_exactly. rewrite bind_Ok_iff. setoid_rewrite bind_Ok_iff. setoid_rewrite require_iff.
  setoid_rewrite bool_decide_eq_true. split.
  - intros (l & Hl & r & Hr & ->). apply mapM_one in Hr as (v & -> & Hv). eauto.
  - intros (v & Hv & Hp). exists [v]. split; [done|]. exists [p]. split; [|done]. apply mapM_one. eauto.
Qed.

Lemma check_base_iff :
  _check_base c context = Ok tt ↔
  is_unset c (lit "image_version") ∧ dget (lit "kernel_modules_initrd") c ≠ Some (CBool false) ∧
  is_unset c (lit "kernel_modules_initrd_include") ∧ is_unset c (lit "kernel_modules_initrd_exclude").
Proof.
  unfold _check_base. rewrite then_Ok, raise_if_iff, unset_getattr, reject_first_iff by done. apply and_iff_compat_l.
  unfold _BASE_KERNEL_MODULES_INITRD_RULES. rewrite <- (Forall_forall (λ r : text * (config → result bool), r.2 c = Ok false)).
  rewrite !Forall_cons, Forall_nil. cbn [snd]. rewrite !is_set_iff. unfold getattr. split.
  - intros (Hk & Hi & He & _). split_and!; [|done..]. intros Heq. by rewrite Heq in Hk.
  - intros (Hk & Hi & He). split_and!; [|done..]. destruct (dget _ c) as [[|[]| | | | | | | |]|]; done.
Qed.

Lemma check_finalize_iff :
  _check_finalize c context = Ok tt ↔ ∃ tree initrd, cx_base context = Some (tree, initrd) ∧
    (∀ name, name ∈ ["initrd_packages"; "initrd_volatile_packages"; "initrd_profiles"]%string → is_unset c (lit name)) ∧
    (∀ name, name ∈ ["packages"; "build_packages"; "volatile_packages"; "remove_packages"; "package_directories";
                     "volatile_package_directories"]%string → is_unset c (lit name)) ∧
    is_exactly c "base_trees" tree ∧ is_exactly c "initrds" initrd ∧ enum_is c "cacheonly" (lit "always") (lit "always").
Proof.
  unfold _check_finalize, enum_is. rewrite then_Ok, then_Ok, bind_Ok_iff. setoid_rewrite of_option_iff.
  unfold _FINALIZE_INITRD_RULES, _FINALIZE_PACKAGE_RULES. rewrite !set_rules_iff. split.
  - intros (Hi & Hp & [tree initrd] & Hb & Hr). rewrite !then_Ok, !require_exactly_iff, require_iff, bool_decide_eq_true in Hr. naive_solver.
  - intros (tree & initrd & Hb & Hi & Hp & Ht & Hn & Hc). split_and!; [done..|]. exists (tree, initrd). split; [done|].
    rewrite !then_Ok, !require_exactly_iff, require_iff, bool_decide_eq_true. done.
Qed.

Lemma check_stage_iff : _check_stage c context = Ok tt ↔ stage_contract settings (cx_base context) c.
Proof.
  unfold _check_stage. case_bool_decide as E1; [split; [by constructor|done]|].
  case_bool_decide as E2.
  { rewrite check_base_iff. split; [intros (? & ? & ? & ?); by apply base_stage|]. inversion 1 as [| |? ? Hs]; [done..|]. by rewrite E2 in Hs. }
  case_bool_decide as E3; [|split; [done|by inversion 1]].
  rewrite check_finalize_iff. split; [intros (? & ? & ? & ? & ? & ? & ? & ?); by eapply finalize_stage|].
  inversion 1; [congruence..|]. eauto 10.
Qed.

Lemma check_reproducibility_iff :
  _check_reproducibility c context = Ok tt ↔
  dget (lit "seed") c = Some (CUuid (cx_seed context)) ∧ ∃ v, dget (lit "source_date_epoch") c = Some v ∧
    (v = CInt (rs_source_date_epoch settings) ∨ ∃ b, v = CBool b ∧ Z.b2z b = rs_source_date_epoch settings).
Proof.
  unfold _check_reproducibility, attr. rewrite bind_Ok_iff. setoid_rewrite then_Ok. setoid_rewrite bind_Ok_iff.
  setoid_rewrite of_option_iff. setoid_rewrite require_iff. split.
  - intros (v & Hv & Hs & w & Hw & He). split.
    + rewrite Hv. destruct v; try done. f_equal. f_equal. by apply Z.eqb_eq.
    + exists w. split; [done|]. destruct w; try done; apply Z.eqb_eq in He; [right; eauto|left; by f_equal].
  - intros (Hs & w & Hw & He). eexists. split; [exact Hs|]. split; [by apply Z.eqb_eq|]. exists w. split; [done|].
    destruct He as [->|(b & -> & He)]; by apply Z.eqb_eq.
Qed.

Lemma other_tree_iff allowed trees :
  other_tree allowed trees = Ok false ↔ ∀ tree, tree ∈ trees → ∃ s, tree = CObject s ∧ resolve_value s = Ok allowed.
Proof.
  induction trees as [|tree trees IH]; cbn [other_tree]; [split; [set_solver|done]|]. rewrite bind_Ok_iff. split.
  - intros (p & Hp & Ho) t [->|Ht]%elem_of_cons; (case_bool_decide as E; [subst p|done]); [destruct tree; try done; eauto|by apply IH].
  - intros Hall. destruct (Hall tree) as (s & -> & Hs); [by left|]. exists allowed. split; [done|].
    rewrite bool_decide_eq_true_2 by done. apply IH. intros t Ht. apply Hall. by right.
Qed.

Lemma check_extra_trees_iff :
  _check_extra_trees c context = Ok tt ↔ is_unset c (lit "extra_trees") ∨ ∃ allowed trees,
    cx_allowed_extra_tree context = Some allowed ∧ iterate (getattr c "extra_trees" (CSeq [])) = Ok trees ∧
    ∀ tree, tree ∈ trees → ∃ s, tree = CObject s ∧ resolve_value s = Ok allowed.
Proof.
  unfold _check_extra_trees. rewrite <- (unset_getattr c "extra_trees" (CSeq [])) by done. destruct (truthy _); simpl; [|tauto].
  destruct (cx_allowed_extra_tree context) as [allowed|]; [|naive_solver].
  rewrite bind_Ok_iff. setoid_rewrite bind_Ok_iff. setoid_rewrite raise_if_iff. setoid_rewrite <- other_tree_iff. naive_solver.
Qed.

Lemma check_host_modules_iff :
  _check_host_modules c context = Ok tt ↔ no_host c (lit "kernel_modules_include") ∧ no_host c (lit "kernel_modules_initrd_include").
Proof.
  unfold _check_host_modules. rewrite reject_first_iff, <- (Forall_forall (λ r : text * (config → result bool), r.2 c = Ok false)).
  unfold _HOST_MODULE_RULES. rewrite Forall_fmap, !Forall_cons, Forall_nil. unfold no_host. simpl. tauto.
Qed.

Lemma check_unsupported_iff :
  _check_unsupported c context = Ok tt ↔
  (∀ name, name ∈ unsupported_settings → is_unset c name) ∧ ∀ name, name ∈ unsupported_sources → no_source c name.
Proof.
  unfold _check_unsupported. rewrite reject_first_iff, <- (Forall_forall (λ r : text * (config → result bool), r.2 c = Ok false)).
  unfold _UNSUPPORTED_RULES. rewrite Forall_app, !Forall_fmap, !Forall_forall. setoid_rewrite <- is_set_iff.
  setoid_rewrite <- has_source_iff. done.
Qed.

Lemma is_declared_iff p roots : is_declared p roots = true ↔ ∃ root, root ∈ roots ∧ root `prefix_of` p.
Proof.
  unfold is_declared. rewrite existsb_exists. setoid_rewrite bool_decide_eq_true. setoid_rewrite <- list_elem_of_In. done.
Qed.

Lemma check_paths_iff name roots paths : check_paths name roots paths = Ok tt ↔ ∀ p, p ∈ paths → is_declared (resolve p) roots = true.
Proof.
  induction paths as [|p paths IH]; cbn [check_paths]; [split; [set_solver|done]|]. destruct (is_declared (resolve p) roots) eqn:E.
  - rewrite IH. split; [|set_solver]. intros Hall q [->|Hq]%elem_of_cons; auto.
  - split; [done|]. intros Hall. rewrite (Hall p) in E; [done|by left].
Qed.

Lemma check_declared_iff roots items :
  check_declared roots items = Ok tt ↔
  ∀ name v p, (name, v) ∈ items → name ≠ lit "splash" → holds_path p v → ∃ root, root ∈ roots ∧ root `prefix_of` resolve p.
Proof.
  induction items as [|[name v] items IH]; cbn [check_declared]; [split; [set_solver|done]|].
  rewrite then_Ok, IH. unfold _IMAGE_PATH_SETTINGS. setoid_rewrite <- elem_configuration_paths. setoid_rewrite <- is_declared_iff. split.
  - intros [Hv Hl] n w p [Heq|Hin]%elem_of_cons Hn Hp; [|by eapply Hl]. injection Heq as -> ->.
    rewrite bool_decide_eq_false_2 in Hv by set_solver. by eapply check_paths_iff.
  - intros Hall. split; [|intros n w p Hin; apply (Hall n w); by right]. case_bool_decide as E; [done|].
    apply check_paths_iff. intros p. apply (Hall name v); [by left|set_solver].
Qed.

Lemma check_verity_iff :
  _check_verity_hash_sizes c context = Ok tt ↔ ∃ directories, directories_of (getattr c "repart_dirs" (CSeq [])) = Ok directories ∧
    ∀ name p t texts, effective directories name (p, t) → definition_texts directories name t texts → ¬ unsized_hash texts.
Proof.
  unfold _check_verity_hash_sizes. rewrite bind_Ok_iff. split; intros (l & Hl & Hu); exists l; (split; [done|]).
  - intros name p t texts He Ht Hh. assert (Hin : p ∈ unsized_verity_hash_definitions l) by (apply elem_unsized; eauto 6).
    destruct (unsized_verity_hash_definitions l); [by apply elem_of_nil in Hin|done].
  - destruct (unsized_verity_hash_definitions l) as [|p l'] eqn:E; [done|].
    destruct (elem_unsized l p) as [(name & t & texts & ? & ? & ?) _]; [rewrite E; by left|]. by destruct (Hu name p t texts).
Qed.

Lemma primary_checks_iff :
  (∀ check, check ∈ _PRIMARY_IMAGE_CHECKS → check c context = Ok tt) ↔
  hermetic settings (cx_seed context) (cx_base context) (cx_allowed_roots context) (cx_allowed_extra_tree context) c.
Proof.
  rewrite <- (Forall_forall (λ check : config → _Context → result unit, check c context = Ok tt)).
  unfold _PRIMARY_IMAGE_CHECKS, _check_declared_paths.
  rewrite !Forall_cons, Forall_nil, check_firmware_iff, check_network_iff, check_distribution_iff, check_repositories_iff, check_stage_iff,
    check_reproducibility_iff, check_extra_trees_iff, check_host_modules_iff, check_declared_iff, check_verity_iff, check_unsupported_iff.
  split; [intros (? & [? ?] & ? & ? & ? & [? ?] & ? & ? & ? & ? & [? ?] & _); by constructor|].
  intros []. destruct no_host_modules0. split_and!; assumption || exact I.
Qed.
End checks.

(** The tree and the initrd that a finalization starts from; the other stages start from none. *)
Definition base_declared (settings : ReleaseSettings) (base : option (path * path)) : Prop :=
  (rs_stage settings ≠ lit "finalize" ∧ base = None) ∨
  (rs_stage settings = lit "finalize" ∧ ∃ tree initrd, rs_base_tree settings = Some tree ∧ rs_base_initrd settings = Some initrd ∧
     base = Some (resolve tree, resolve initrd)).

Definition base_paths (base : option (path * path)) : list path := match base with Some (tree, initrd) => [tree; initrd] | None => [] end.

Lemma declared_base_iff settings base : _declared_base settings = Ok base ↔ base_declared settings base.
Proof.
  unfold _declared_base, base_declared. case_bool_decide as E; simpl.
  - destruct (rs_base_tree settings), (rs_base_initrd settings); split; try done; try (intros [[? _]|(_ & ? & ? & ? & ? & _)]; done).
    + intros [= <-]. right. eauto 8.
    + intros [[? _]|(_ & ? & ? & [= <-] & [= <-] & ->)]; done.
  - split; [intros [= <-]; by left|]. by intros [[_ ->]|[? _]].
Qed.

(** C12: [validate_release_configuration] returns the roots [roots] exactly when the seed of the release is a UUID, a finalization
    declares its base tree and initrd, [roots] are the resolved declared paths with those two, and the last image keeps the
    contract [hermetic]: every path that a setting other than [splash] holds, also inside lists, dictionaries and sources, resolves
    below one of [roots]; seed, epoch, distribution and snapshot are those of the release; repositories, extra trees, kernel
    modules, scripts, keys, verity definitions and the settings of the stage are as the release demands. *)
Theorem validate_release_accepts images settings allowed extra_tree roots :
  validate_release_configuration images settings allowed extra_tree = Ok roots ↔
  ∃ seed base, parse_uuid (rs_seed settings) = Some seed ∧ base_declared settings base ∧
    roots = (resolve <$> allowed) ++ base_paths base ∧
    ∀ image, last images = Some image → hermetic settings seed base roots extra_tree image.
Proof.
  unfold validate_release_configuration. rewrite bind_Ok_iff. setoid_rewrite bind_Ok_iff. setoid_rewrite of_option_iff.
  setoid_rewrite declared_base_iff. split.
  - intros (seed & Hs & base & Hb & Hr). exists seed, base. split; [done|]. split; [done|].
    destruct (last images) as [image|]; [|by injection Hr as <-]. rewrite then_Ok in Hr. destruct Hr as [Hc [= <-]]. split; [done|].
    intros ? [= <-]. rewrite (foldM_checks (λ check, check image _)) in Hc. by apply primary_checks_iff in Hc.
  - intros (seed & base & Hs & Hb & -> & Himage). exists seed. split; [done|]. exists base. split; [done|].
    destruct (last images) as [image|]; [|done]. rewrite then_Ok. split; [|done].
    rewrite (foldM_checks (λ check, check image _)). apply primary_checks_iff. by apply Himage.
Qed.
End release.

(** ** A concrete release *)

Module ReleaseDemo.
Import RepartDemo.
Definition settings : ReleaseSettings := {|
  rs_seed := lit "00000000-0000-0000-0000-000000000007"; rs_source_date_epoch := 1700000000; rs_distribution := lit "debian";
  rs_codename := lit "trixie"; rs_snapshot := lit "20250101T000000Z"; rs_firmware := lit "uefi"; rs_components := [lit "main"];
  rs_stage := lit "finalize"; rs_base_tree := Some (lit "/base/tree"); rs_base_initrd := Some (lit "/base/initrd") |}.

Definition image : config :=
  [(lit "seed", CUuid 7); (lit "source_date_epoch", CInt 1700000000); (lit "distribution", CEnum (lit "debian") (lit "debian"));
   (lit "release", CStr (lit "trixie")); (lit "snapshot", CNone); (lit "base_trees", CSeq [CPath (lit "/base/tree")]);
   (lit "initrds", CSeq [CPath (lit "/base/initrd")]); (lit "splash", CPath (lit "/usr/share/splash.bmp"));
   (lit "extra_trees", CSeq [CObject (CPath (lit "/work/extra"))]);
   (lit "environment", CDict [(lit "tools", CPath (lit "/work/tools/bin"))])].

Definition roots : list path := [split_on 47 (lit "/work"); split_on 47 (lit "/base/tree"); split_on 47 (lit "/base/initrd")].
End ReleaseDemo.

Section demo.
#[local] Existing Instances RepartDemo.host RepartDemo.laws ascii_ucd.

Lemma validate_release_accepts_witness :
  validate_release_configuration [ReleaseDemo.image] ReleaseDemo.settings [lit "/work"] (Some (split_on 47 (lit "/work/extra"))) =
    Ok ReleaseDemo.roots ∧
  ∃ seed base, parse_uuid (rs_seed ReleaseDemo.settings) = Some seed ∧ base_declared ReleaseDemo.settings base ∧
    ReleaseDemo.roots = (resolve <$> [lit "/work"]) ++ base_paths base ∧
    ∀ image, last [ReleaseDemo.image] = Some image →
      hermetic ReleaseDemo.settings seed base ReleaseDemo.roots (Some (split_on 47 (lit "/work/extra"))) image.
Proof.
  assert (Hv : validate_release_configuration [ReleaseDemo.image] ReleaseDemo.settings [lit "/work"]
    (Some (split_on 47 (lit "/work/extra"))) = Ok ReleaseDemo.roots) by (by vm_compute).
  split; [exact Hv|]. by apply (validate_release_accepts [ReleaseDemo.image]).
Defined.
End demo.
