(* ===== verification/FunctionSize.v ===== *)
(** * The function size check: [ci/check_function_size.py]

    [ast.parse], the file system and git are the interface [Repository]; a syntax tree keeps the nodes that the walk
    distinguishes. The lengths, the baseline file, its violations and its ratchet are the definitions of the file. *)
From S2P Require Import Prelude Bytes PyText Collections Json.

Definition MAX_LINES : Z := 40.
Definition BASELINE : text := lit "ci/function_size_baseline.txt".
Definition BASELINE_HEADER : text :=
  lit "# Functions longer than the limit enforced by ci/check_function_size.py, with their current length." ++ [10] ++
  lit "# Entries may only be lowered or removed; run `python3 ci/check_function_size.py --update-baseline` after" ++ [10] ++
  lit "# shortening a function. Format: <path>:<qualified function name> <lines>" ++ [10].

(** ** Function lengths *)

Inductive def_kind := FunctionDef | AsyncFunctionDef | ClassDef.
Definition is_class (k : def_kind) : bool := match k with ClassDef => true | _ => false end.

(** The nodes of a syntax tree with their children in order. *)
Inductive node :=
  | Def (kind : def_kind) (name : text) (lineno : Z) (end_lineno : option Z) (children : list node)
  | Other (children : list node).

(** [(child.end_lineno or child.lineno) - child.lineno + 1]. *)
Definition span (lineno : Z) (end_lineno : option Z) : Z :=
  match end_lineno with
  | Some e => if e =? 0 then lineno else e
  | None => lineno
  end - lineno + 1.

(** ["%s#%d" % (name, count)]. *)
Definition numbered (name : text) (count : Z) : text := name ++ lit "#" ++ dec count.

(** [while key in lengths]: the first of [name], [name#2], [name#3] and so on that is free. *)
Fixpoint free_key (fuel : nat) (lengths : dict text Z) (name key : text) (count : Z) : result text :=
  if dmem key lengths then
    match fuel with
    | O => Err OutOfFuel
    | S fuel => free_key fuel lengths name (numbered name (count + 1)) (count + 1)
    end
  else mret key.

(** What [visit] records for one definition. *)
Definition record_length (lengths : dict text Z) (kind : def_kind) (name : text) (length_ : Z) : result (dict text Z) :=
  if is_class kind then mret lengths else
  key ← free_key (length lengths) lengths name name 1;
  mret (dset key length_ lengths).

(** The body of the loop of [visit] over the children of a node. *)
Fixpoint visit (prefix : text) (child : node) (lengths : dict text Z) : result (dict text Z) :=
  match child with
  | Def kind name lineno end_lineno children =>
      let name := prefix ++ name in
      lengths ← record_length lengths kind name (span lineno end_lineno);
      foldM (λ lengths child, visit (name ++ lit ".") child lengths) lengths children
  | Other children => foldM (λ lengths child, visit prefix child lengths) lengths children
  end.

(** [children] are those of the module that [ast.parse] returns. *)
Definition function_lengths (children : list node) : result (dict text Z) :=
  foldM (λ lengths child, visit [] child lengths) [] children.

(** What the check reads: the text of a tracked file, its module, and git's answers. *)
Class Repository := {
  read_source : text → result text;
  ast_parse : text → text → result (list node);
  git_ls_files : result text;
  git_merge_base : text → result text;
  git_verify : text → result unit;
  git_has_blob : text → bool;
  git_show : text → result text }.

(** [lengths["%s:%s" % (path, name)] = length]. *)
Definition add_length (path : text) (lengths : dict text Z) (e : text * Z) : dict text Z :=
  dset (path ++ lit ":" ++ e.1) e.2 lengths.

Definition collect_lengths `{Repository} (paths : list text) : result (dict text Z) :=
  foldM (λ lengths path,
    source ← read_source path;
    tree ← ast_parse source path;
    found ← function_lengths tree;
    mret (foldl (add_length path) lengths found)) [] paths.

(** ** The baseline file *)

Section baseline.
Context `{Ucd}.

Definition read_line (baseline : dict text Z) (line : Z * text) : result (dict text Z) :=
  let '(number, line) := line in
  if bool_decide (strip line = []) || startswith line (lit "#") then mret baseline else
  let '(key, length_) := rpartition_on 32 line in
  let key := default [] key in
  raise_if (bool_decide (key = []) || negb (all_digits length_) || negb (bool_decide (58 ∈ key)))
    (ValueError "baseline line %d is not '<path>:<function> <lines>': %r" [AInt number; AText line]);;
  raise_if (dmem key baseline) (ValueError "baseline line %d repeats %s" [AInt number; AText key]);;
  n ← of_option (ValueError "invalid literal for int() with base 10: %r" [AText length_]) (py_int length_);
  mret (dset key n baseline).

(** [enumerate(lines, start=1)]. *)
Definition enumerate (lines : list text) : list (Z * text) := zip (seqZ 1 (len lines)) lines.

Definition read_baseline (t : text) : result (dict text Z) := foldM read_line [] (enumerate (splitlines t)).

Definition format_entry (e : text * Z) : text := e.1 ++ lit " " ++ dec e.2 ++ [10].
Definition format_baseline (baseline : dict text Z) : text :=
  BASELINE_HEADER ++ (sort_items baseline ≫= format_entry).

(** ** Violations *)

Definition length_violation (baseline : dict text Z) (max_lines : Z) (e : text * Z) : list text :=
  let '(key, length_) := e in
  match dget key baseline with
  | Some allowed =>
      if allowed <? length_ then
        [key ++ lit ": grew to " ++ dec length_ ++ lit " lines; the baseline allows " ++ dec allowed] else []
  | None =>
      if max_lines <? length_ then
        [key ++ lit ": " ++ dec length_ ++ lit " lines exceeds the " ++ dec max_lines ++ lit "-line limit"] else []
  end.

Definition entry_violation (lengths : dict text Z) (max_lines : Z) (e : text * Z) : list text :=
  let '(key, allowed) := e in
  match dget key lengths with
  | None => [key ++ lit ": function no longer exists; remove its baseline entry"]
  | Some current =>
      if current <=? max_lines then
        [key ++ lit ": now " ++ dec current ++ lit " lines and within the limit; remove its baseline entry"]
      else if current <? allowed then
        [key ++ lit ": shrank to " ++ dec current ++ lit " lines; lower its baseline entry from " ++ dec allowed]
      else []
  end.

Definition violations (lengths baseline : dict text Z) (max_lines : Z) : list text :=
  (sort_items lengths ≫= length_violation baseline max_lines) ++ (sort_items baseline ≫= entry_violation lengths max_lines).

Definition ratchet_violation (base_baseline : dict text Z) (e : text * Z) : list text :=
  let '(key, allowed) := e in
  match dget key base_baseline with
  | None => [key ++ lit ": new baseline entry; shorten the function instead of listing it"]
  | Some base =>
      if base <? allowed then
        [key ++ lit ": baseline entry raised from " ++ dec base ++ lit " to " ++ dec allowed ++ lit "; entries may only shrink"]
      else []
  end.

Definition ratchet_violations (baseline base_baseline : dict text Z) : list text :=
  sort_items baseline ≫= ratchet_violation base_baseline.

Definition shrunk_entry (lengths : dict text Z) (max_lines : Z) (e : text * Z) : option (text * Z) :=
  match dget e.1 lengths with
  | Some l => if max_lines <? l then Some (e.1, Z.min e.2 l) else None
  | None => None
  end.
Definition shrunk_baseline (lengths baseline : dict text Z) (max_lines : Z) : dict text Z :=
  omap (shrunk_entry lengths max_lines) baseline.

(** ** The command *)

Context `{Repository}.

Definition tracked_sources : result (list text) :=
  stdout ← git_ls_files;
  mret (sorted_texts (List.filter (λ path, negb (bool_decide (path = []))) (split_on 0 stdout))).

Definition base_revision (base_ref : option text) : result text :=
  match base_ref with
  | None | Some [] => mret (lit "HEAD")
  | Some ref => strip <$> git_merge_base ref
  end.

Definition committed_baseline (revision path : text) : result (option (dict text Z)) :=
  git_verify (revision ++ lit "^{commit}");;
  let blob := revision ++ lit ":" ++ path in
  if git_has_blob blob then (t ← git_show blob; Some <$> read_baseline t) else mret None.

(** [main]: the exit status, the new text of the baseline file if it is written, and the errors. *)
Record outcome := { status : Z; written : option text; errors : list text }.

Definition main (baseline_text : text) (max_lines : Z) (update_baseline : bool) (base_ref : option text) (baseline_path : text) : result outcome :=
  baseline ← read_baseline baseline_text;
  sources ← tracked_sources;
  lengths ← collect_lengths sources;
  let baseline := if update_baseline then shrunk_baseline lengths baseline max_lines else baseline in
  let written := if update_baseline then Some (format_baseline baseline) else None in
  let errors := violations lengths baseline max_lines in
  revision ← base_revision base_ref;
  base_baseline ← committed_baseline revision baseline_path;
  let errors := errors ++ match base_baseline with Some base => ratchet_violations baseline base | None => [] end in
  mret {| status := if bool_decide (errors = []) then 0 else 1; written := written; errors := errors |}.
End baseline.
