(* ===== verification/FunctionSizeProofs.v ===== *)
(** * The function size check: what it counts, what it accepts and how its baseline reads back *)
From S2P Require Import Prelude Bytes PyText Decimal Collections Json FunctionSize.

(** ** The walk records every function once *)

(** The functions of a tree in the order of the walk, with their qualified names and lengths. *)
Fixpoint functions (prefix : text) (n : node) : list (text * Z) :=
  match n with
  | Def kind name lineno end_lineno children =>
      (if is_class kind then [] else [(prefix ++ name, span lineno end_lineno)]) ++
      concat (List.map (functions (prefix ++ name ++ lit ".")) children)
  | Other children => concat (List.map (functions prefix) children)
  end.

(** An entry of the result for a function: its length, under its name or a numbered form of it. *)
Definition entry_for (entry fn : text * Z) : Prop :=
  entry.2 = fn.2 ∧ (entry.1 = fn.1 ∨ ∃ n, 2 <= n ∧ entry.1 = numbered fn.1 n).

(** The keys that the search for a free one tries. *)
Definition candidate (name : text) (i : Z) : text := if i =? 1 then name else numbered name i.

Lemma candidate_inj name i j : candidate name i = candidate name j → i = j.
Proof.
  assert (Hn : ∀ k, name ≠ numbered name k).
  { intros k Hk. apply (f_equal length) in Hk. unfold numbered in Hk. rewrite !length_app in Hk. simpl in Hk. lia. }
  unfold candidate. destruct (i =? 1) eqn:Ei, (j =? 1) eqn:Ej; intros Heq.
  - lia.
  - by apply Hn in Heq.
  - symmetry in Heq. by apply Hn in Heq.
  - unfold numbered in Heq. apply app_inv_head in Heq. injection Heq as Heq. by apply (inj dec) in Heq.
Qed.

Lemma NoDup_candidates name i n : NoDup (candidate name <$> seqZ i n).
Proof. apply NoDup_fmap_2; [|apply NoDup_seqZ]. intros a b. apply candidate_inj. Qed.

(** There are more candidates than keys, so that the search finds a free key within its fuel. *)
Lemma free_key_loop fuel lengths name count :
  1 <= count → count + Z.of_nat fuel = len lengths + 1 →
  (∀ i, 1 <= i < count → candidate name i ∈ dkeys lengths) →
  ∃ k, count <= k ∧ free_key fuel lengths name (candidate name count) count = Ok (candidate name k) ∧ candidate name k ∉ dkeys lengths.
Proof.
  revert count. induction fuel as [|fuel IH]; intros count Hc Hf Hseen; cbn [free_key]; unfold dmem; case_bool_decide as E.
  - exfalso. assert (Hsub : candidate name <$> seqZ 1 count ⊆+ dkeys lengths).
    { apply NoDup_submseteq; [apply NoDup_candidates|]. intros x Hx. apply list_elem_of_fmap in Hx as (i & -> & Hi).
      apply elem_of_seqZ in Hi. destruct (decide (i = count)) as [->|]; [done|]. apply Hseen. lia. }
    apply submseteq_length in Hsub. unfold dkeys in Hsub. rewrite !length_fmap, length_seqZ in Hsub. unfold len in Hf. lia.
  - exists count. eauto with lia.
  - change (numbered name (count + 1)) with (if false then name else numbered name (count + 1)).
    replace false with (count + 1 =? 1) by lia. destruct (IH (count + 1)) as (k & Hk & Hr); [lia..| |exists k; split; [lia|done]].
    intros i Hi. destruct (decide (i = count)) as [->|]; [done|]. apply Hseen. lia.
  - exists count. eauto with lia.
Qed.

Lemma record_length_spec lengths kind name l :
  dict_ok lengths → ∃ new, record_length lengths kind name l = Ok (lengths ++ new) ∧ dict_ok (lengths ++ new) ∧
    Forall2 entry_for new (if is_class kind then [] else [(name, l)]).
Proof.
  intros Hok. unfold record_length. destruct (is_class kind); [exists []; rewrite app_nil_r; split_and!; [done..|constructor]|].
  destruct (free_key_loop (length lengths) lengths name 1) as (k & Hk & Hr & Hfresh); [lia|unfold len; lia|lia|].
  change (candidate name 1) with name in Hr. rewrite Hr. cbn [mbind result_bind]. exists [(candidate name k, l)].
  rewrite <- dset_fresh by done. split_and!; [done|by apply dict_ok_dset|]. constructor; [|constructor]. split; [done|]. simpl.
  unfold candidate. destruct (k =? 1) eqn:E; [by left|right]. exists k. split; [lia|done].
Qed.

(** What a step of the walk adds for the functions [fns]. *)
Definition appends (step : dict text Z → result (dict text Z)) (fns : list (text * Z)) : Prop :=
  ∀ lengths, dict_ok lengths → ∃ new, step lengths = Ok (lengths ++ new) ∧ dict_ok (lengths ++ new) ∧ Forall2 entry_for new fns.

Lemma appends_bind f g fns gns : appends f fns → appends g gns → appends (λ lengths, f lengths ≫= g) (fns ++ gns).
Proof.
  intros Hf Hg lengths Hok. destruct (Hf lengths Hok) as (new & Hr & Hok' & Hnew). destruct (Hg _ Hok') as (new' & Hr' & Hok'' & Hnew').
  exists (new ++ new'). rewrite app_assoc, Hr. cbn [mbind result_bind]. split_and!; [done..|]. by apply Forall2_app.
Qed.

Lemma appends_foldM {A} (f : dict text Z → A → result (dict text Z)) (fns : A → list (text * Z)) l :
  (∀ x, x ∈ l → appends (λ lengths, f lengths x) (fns x)) → appends (λ lengths, foldM f lengths l) (concat (List.map fns l)).
Proof.
  induction l as [|x l IH]; intros Hl; cbn [foldM List.map concat].
  - intros lengths Hok. exists []. rewrite app_nil_r. split_and!; [done..|constructor].
  - apply (appends_bind (λ lengths, f lengths x) (λ lengths, foldM f lengths l)); [apply Hl; by left|]. apply IH. intros. apply Hl. by right.
Qed.

(** Induction over trees, with the hypothesis for every child. *)
Lemma node_tree_ind (P : node → Prop) :
  (∀ kind name lineno e children, Forall P children → P (Def kind name lineno e children)) →
  (∀ children, Forall P children → P (Other children)) → ∀ n, P n.
Proof.
  intros HD HO. fix IH 1. intros [kind name lineno e children|children]; [apply HD|apply HO].
  - induction children as [|c children IHc]; constructor; [apply IH|apply IHc].
  - induction children as [|c children IHc]; constructor; [apply IH|apply IHc].
Qed.

Lemma visit_appends n : ∀ prefix, appends (visit prefix n) (functions prefix n).
Proof.
  induction n as [kind name lineno e children IH|children IH] using node_tree_ind; intros prefix; cbn [visit functions]; rewrite Forall_forall in IH.
  - apply (appends_bind (λ lengths, record_length lengths kind (prefix ++ name) (span lineno e))); [intros lengths; apply record_length_spec|].
    rewrite app_assoc. apply (appends_foldM (λ lengths child, visit ((prefix ++ name) ++ lit ".") child lengths)). intros x Hx. by apply IH.
  - apply (appends_foldM (λ lengths child, visit prefix child lengths)). intros x Hx. by apply IH.
Qed.

(** [function_lengths] always returns, its keys are distinct, and its entries are the functions of the module in the order
    of the walk, each with its length and under its qualified name or a numbered form of that name: no function is lost when
    names repeat. *)
Theorem function_lengths_exact children :
  ∃ lengths, function_lengths children = Ok lengths ∧ NoDup (dkeys lengths) ∧
    Forall2 entry_for lengths (concat (List.map (functions []) children)).
Proof.
  destruct (appends_foldM (λ lengths child, visit [] child lengths) (functions []) children) with (lengths := @nil (text * Z))
    as (new & Hr & Hok & Hnew).
  - intros x _. apply visit_appends.
  - constructor.
  - by exists new.
Qed.

(** ** The baseline lists exactly the long functions *)

Lemma bind_nil {A B} (f : A → list B) (l : list A) : l ≫= f = [] ↔ ∀ x, x ∈ l → f x = [].
Proof.
  induction l as [|x l IH]; cbn; [split; [set_solver|done]|]. rewrite app_nil, IH. split.
  - intros [Hx Hl] y [->|Hy]%elem_of_cons; auto.
  - intros Hall. split; [apply Hall; by left|]. intros. apply Hall. by right.
Qed.

Lemma sort_items_nil {V B} (f : text * V → list B) (d : dict text V) :
  dict_ok d → sort_items d ≫= f = [] ↔ ∀ k v, dget k d = Some v → f (k, v) = [].
Proof.
  intros Hok. rewrite bind_nil. unfold sort_items. setoid_rewrite stable_sort_perm. split.
  - intros Hall k v Hk. apply Hall. by apply dget_Some_elem.
  - intros Hall [k v] Hin. apply Hall. by apply elem_dget.
Qed.

(** The length of a function above the limit. *)
Definition long (lengths : dict text Z) (max_lines : Z) (key : text) : option Z :=
  l ← dget key lengths; if max_lines <? l then Some l else None.

Section check.
Context `{Ucd}.

Lemma violations_nil lengths baseline max_lines :
  dict_ok lengths → dict_ok baseline →
  violations lengths baseline max_lines = [] ↔ ∀ key, dget key baseline = long lengths max_lines key.
Proof.
  intros Hl Hb. unfold violations. rewrite app_nil, !sort_items_nil by done. unfold long. split.
  - intros [H1 H2] key. destruct (dget key baseline) as [allowed|] eqn:Eb, (dget key lengths) as [l|] eqn:El; cbn [mbind option_bind]; [| |..|done].
    + specialize (H1 key l El). specialize (H2 key allowed Eb). simpl in H1, H2. rewrite Eb in H1. rewrite El in H2.
      destruct (allowed <? l) eqn:E1; [done|]. destruct (l <=? max_lines) eqn:E2; [done|]. destruct (l <? allowed) eqn:E3; [done|].
      replace (max_lines <? l) with true by lia. f_equal. lia.
    + specialize (H2 key allowed Eb). simpl in H2. by rewrite El in H2.
    + specialize (H1 key l El). simpl in H1. rewrite Eb in H1. by destruct (max_lines <? l).
  - intros Hall. split; intros key v Hk; specialize (Hall key); rewrite Hk in Hall; cbn [mbind option_bind] in Hall; simpl.
    + rewrite Hall. destruct (max_lines <? v) eqn:E; [by rewrite Z.ltb_irrefl|done].
    + destruct (dget key lengths) as [l|]; [|done]. cbn [mbind option_bind] in Hall. destruct (max_lines <? l) eqn:E; [|done].
      injection Hall as <-. replace (v <=? max_lines) with false by lia. by rewrite Z.ltb_irrefl.
Qed.

Lemma ratchet_nil baseline base :
  dict_ok baseline →
  ratchet_violations baseline base = [] ↔ ∀ key l, dget key baseline = Some l → ∃ b, dget key base = Some b ∧ l <= b.
Proof.
  intros Hb. unfold ratchet_violations. rewrite sort_items_nil by done. split; intros Hall key l Hk; specialize (Hall key l Hk); simpl in *.
  - destruct (dget key base) as [b|]; [|done]. exists b. split; [done|]. destruct (b <? l) eqn:E; [done|lia].
  - destruct Hall as (b & -> & Hle). by replace (b <? l) with false by lia.
Qed.

Lemma dkeys_shrunk lengths baseline max_lines : dkeys (shrunk_baseline lengths baseline max_lines) `sublist_of` dkeys baseline.
Proof.
  unfold shrunk_baseline, dkeys. induction baseline as [|[k v] baseline IH]; [done|]. cbn. unfold shrunk_entry at 1. simpl.
  destruct (dget k lengths) as [l|]; [destruct (max_lines <? l)|]; by constructor.
Qed.

Lemma dict_ok_shrunk lengths baseline max_lines : dict_ok baseline → dict_ok (shrunk_baseline lengths baseline max_lines).
Proof. unfold dict_ok. intros Hb. eapply sublist_NoDup; [exact Hb|apply dkeys_shrunk]. Qed.

Lemma dget_shrunk lengths baseline max_lines key :
  dget key (shrunk_baseline lengths baseline max_lines) =
  allowed ← dget key baseline; l ← long lengths max_lines key; Some (Z.min allowed l).
Proof.
  unfold shrunk_baseline, long. induction baseline as [|[k v] baseline IH]; [done|]. cbn. unfold shrunk_entry at 1. simpl.
  destruct (decide (key = k)) as [->|Hne].
  - destruct (dget k lengths) as [l|] eqn:El; [destruct (max_lines <? l) eqn:E|]; simpl; [by rewrite decide_True, E|..];
      rewrite IH; simpl; rewrite ?E; destruct (dget k baseline); simpl; rewrite ?E; done.
  - destruct (dget k lengths) as [l|]; [destruct (max_lines <? l)|]; simpl; rewrite ?decide_False by done; apply IH.
Qed.

(** Lowering the baseline never trips the ratchet, and leaves violations only for functions that outgrew their entries or the limit. *)
Lemma shrunk_violations lengths baseline max_lines :
  dict_ok lengths → dict_ok baseline →
  violations lengths (shrunk_baseline lengths baseline max_lines) max_lines = [] ↔
  ∀ key l, long lengths max_lines key = Some l → ∃ allowed, dget key baseline = Some allowed ∧ l <= allowed.
Proof.
  intros Hl Hb. rewrite violations_nil by (done || by apply dict_ok_shrunk). setoid_rewrite dget_shrunk. split.
  - intros Hall key l Hk. specialize (Hall key). rewrite Hk in Hall. destruct (dget key baseline) as [allowed|]; [|done]. simpl in Hall.
    injection Hall as Hmin. exists allowed. split; [done|lia].
  - intros Hall key. destruct (long lengths max_lines key) as [l|] eqn:E; [|by destruct (dget key baseline)].
    destruct (Hall key l E) as (allowed & -> & Hle). simpl. f_equal. lia.
Qed.

(** ** Reading the baseline *)

Lemma read_line_ok baseline line baseline' : dict_ok baseline → read_line baseline line = Ok baseline' → dict_ok baseline'.
Proof.
  destruct line as [number line]. cbn [read_line]. destruct (_ || _); [by intros ? [= <-]|]. destruct (rpartition_on 32 line) as [key l].
  intros Hok Hr. res_inv. by apply dict_ok_dset.
Qed.

Lemma read_baseline_ok t baseline : read_baseline t = Ok baseline → dict_ok baseline.
Proof. apply (foldM_inv dict_ok); [|constructor]. intros s x s' _. apply read_line_ok. Qed.

Lemma collect_lengths_ok `{Repository} paths lengths : collect_lengths paths = Ok lengths → dict_ok lengths.
Proof.
  apply (foldM_inv dict_ok); [|constructor]. intros s path s' _ Hs Hr. res_inv.
  assert (Hg : ∀ l acc, dict_ok acc → dict_ok (foldl (add_length path) acc l)); [|by apply Hg].
  induction l as [|e l IH]; intros acc Hacc; [done|]. apply IH. by apply dict_ok_dset.
Qed.

Lemma main_status_iff lengths baseline base max_lines (update : bool) :
  dict_ok lengths → dict_ok baseline →
  let listed := if update then shrunk_baseline lengths baseline max_lines else baseline in
  violations lengths listed max_lines ++ match base with Some b => ratchet_violations listed b | None => [] end = [] ↔
  (∀ key, dget key listed = long lengths max_lines key) ∧
  ∀ b key l, base = Some b → long lengths max_lines key = Some l → ∃ allowed, dget key b = Some allowed ∧ l <= allowed.
Proof.
  intros Hl Hb listed. assert (Hk : dict_ok listed) by (subst listed; destruct update; [by apply dict_ok_shrunk|done]).
  rewrite app_nil, violations_nil by done. split; intros [Hv Hr]; (split; [done|]).
  - intros b key l -> Hlong. rewrite ratchet_nil in Hr by done. apply Hr. by rewrite Hv.
  - destruct base as [b|]; [|done]. apply ratchet_nil; [done|]. intros key l Hkey. apply (Hr b); [done|]. by rewrite <- Hv.
Qed.

(** When the check reports success, then the baseline that it read (after lowering it, with [--update-baseline]) lists
    exactly the tracked functions above the limit with their exact lengths, and when the base revision has a baseline, each
    of these functions is listed there with at least its length: a function above the limit neither appears nor grows. When
    it reports failure, one of these is wrong. *)
Theorem main_ratchet `{Repository} baseline_text max_lines update base_ref path o :
  main baseline_text max_lines update base_ref path = Ok o →
  ∃ baseline sources lengths revision base,
    read_baseline baseline_text = Ok baseline ∧ tracked_sources = Ok sources ∧ collect_lengths sources = Ok lengths ∧
    base_revision base_ref = Ok revision ∧ committed_baseline revision path = Ok base ∧
    (status o = 0 ↔
     (∀ key, dget key (if update then shrunk_baseline lengths baseline max_lines else baseline) = long lengths max_lines key) ∧
     ∀ b key l, base = Some b → long lengths max_lines key = Some l → ∃ allowed, dget key b = Some allowed ∧ l <= allowed).
Proof.
  intros Hm. unfold main in Hm. apply bind_Ok_inv in Hm as (baseline & Hb & Hm). apply bind_Ok_inv in Hm as (sources & Hs & Hm).
  apply bind_Ok_inv in Hm as (lengths & Hl & Hm). apply bind_Ok_inv in Hm as (revision & Hr & Hm). apply bind_Ok_inv in Hm as (base & Hc & Hm).
  injection Hm as <-. exists baseline, sources, lengths, revision, base. split_and!; [done..|].
  rewrite <- main_status_iff by (first [by eapply collect_lengths_ok | by eapply read_baseline_ok]). simpl. by case_bool_decide.
Qed.

(** ** The baseline file reads back *)

(** The keys that the check writes: [path:name] on one line. *)
Definition key_ok (key : text) : Prop :=
  58 ∈ key ∧ ¬ (lit "#" `prefix_of` key) ∧ Forall (λ c, is_linebreak c = false) key.

Lemma rpartition_on_last sep a b : sep ∉ b → rpartition_on sep (a ++ sep :: b) = (Some a, b).
Proof.
  intros Hb. unfold rpartition_on. rewrite reverse_app, reverse_cons, <- app_assoc. simpl.
  rewrite (proj2 (partition_on_Some sep (reverse b ++ sep :: reverse a) (reverse b) (reverse a))).
  - simpl. by rewrite !reverse_involutive.
  - split; [done|]. by rewrite elem_of_reverse.
Qed.

Lemma digits_plain ds c : Forall (λ c, ascii_digit c = true) ds → c ∈ ds → 48 <= c <= 57.
Proof. rewrite Forall_forall. intros Hf Hc. specialize (Hf c Hc). unfold ascii_digit in Hf. simpl in Hf. lia. Qed.

Lemma read_line_entry baseline number key n :
  key_ok key → 0 <= n → key ∉ dkeys baseline →
  read_line baseline (number, key ++ lit " " ++ dec n) = Ok (baseline ++ [(key, n)]).
Proof.
  intros (Hcolon & Hhash & _) Hn Hfresh. destruct (dec_digits n Hn) as [[Hd _] _]. cbn [read_line].
  assert (Hs : strip (key ++ lit " " ++ dec n) ≠ []).
  { rewrite strip_nil, Forall_app. intros [Hk _]. rewrite Forall_forall in Hk. by specialize (Hk 58 Hcolon). }
  assert (Hp : startswith (key ++ lit " " ++ dec n) (lit "#") = false).
  { apply bool_decide_eq_false. intros [rest Hrest]. destruct key as [|c key]; [set_solver|]. injection Hrest as -> _. apply Hhash. by exists key. }
  rewrite bool_decide_eq_false_2, Hp by done. simpl. change (lit " " ++ dec n) with (32 :: dec n).
  assert (Hsp : 32 ∉ dec n) by (intros Hin; pose proof (digits_plain (dec n) 32 Hd Hin); lia).
  rewrite rpartition_on_last by done.
  cbn [default]. rewrite all_digits_dec, py_int_dec by done. change (id key) with key.
  assert (Hne : key ≠ []) by (intros ->; set_solver). unfold dmem.
  rewrite (bool_decide_eq_false_2 (key = [])), (bool_decide_eq_false_2 (key ∈ dkeys baseline)), (bool_decide_eq_true_2 (58 ∈ key)) by done.
  rewrite <- dset_fresh by done. reflexivity.
Qed.

Lemma read_entries baseline numbers items :
  Forall (λ e, key_ok e.1 ∧ 0 <= e.2) items → dict_ok (baseline ++ items) → length numbers = length items →
  foldM read_line baseline (zip numbers ((λ e, e.1 ++ lit " " ++ dec e.2) <$> items)) = Ok (baseline ++ items).
Proof.
  revert baseline numbers. induction items as [|[key n] items IH]; intros baseline [|number numbers] Hf Hok Hlen; try done; [by rewrite app_nil_r|].
  apply Forall_cons in Hf as [[Hk Hn] Hf]. rewrite fmap_cons. cbn [zip zip_with foldM]. rewrite read_line_entry; [|done..|].
  - cbn [mbind result_bind]. rewrite IH; [by rewrite <- app_assoc|done|by rewrite <- app_assoc|by injection Hlen].
  - unfold dict_ok, dkeys in Hok. rewrite fmap_app, fmap_cons in Hok. apply NoDup_app in Hok as (_ & Hd & _). intros Hin. apply (Hd key Hin). by left.
Qed.

(** The lines that [format_baseline] writes. *)
Definition baseline_lines (baseline : dict text Z) : list text :=
  [lit "# Functions longer than the limit enforced by ci/check_function_size.py, with their current length.";
   lit "# Entries may only be lowered or removed; run `python3 ci/check_function_size.py --update-baseline` after";
   lit "# shortening a function. Format: <path>:<qualified function name> <lines>"] ++
  ((λ e, e.1 ++ lit " " ++ dec e.2) <$> sort_items baseline).

Lemma format_baseline_lines baseline : format_baseline baseline = baseline_lines baseline ≫= λ l, l ++ [10].
Proof.
  unfold format_baseline, baseline_lines. rewrite bind_app. f_equal.
  induction (sort_items baseline) as [|e l IH]; [done|]. rewrite fmap_cons, !bind_cons, IH. unfold format_entry. by rewrite <- !app_assoc.
Qed.

Lemma plain_line key n : key_ok key → 0 <= n → Forall (λ c, is_linebreak c = false) (key ++ lit " " ++ dec n).
Proof.
  intros (_ & _ & Hk) Hn. destruct (dec_digits n Hn) as [[Hd _] _]. apply Forall_app. split; [done|]. constructor; [done|].
  eapply Forall_impl; [exact Hd|]. intros c Hc. unfold ascii_digit in Hc. unfold is_linebreak. simpl in *. lia.
Qed.

Lemma enumerate_app ls ks : enumerate (ls ++ ks) = enumerate ls ++ zip (seqZ (1 + len ls) (len ks)) ks.
Proof.
  unfold enumerate. rewrite len_app, seqZ_app by apply len_nonneg. apply zip_with_app. rewrite length_seqZ. unfold len. lia.
Qed.

(** The baseline file reads back: for keys of the form that the check writes (one line with a colon that is no comment) and
    lengths that are not negative, [read_baseline] of the text of [format_baseline] returns the same entries in the order of
    their keys. *)
Theorem baseline_round_trip baseline :
  dict_ok baseline → Forall (λ e, key_ok e.1 ∧ 0 <= e.2) baseline →
  read_baseline (format_baseline baseline) = Ok (sort_items baseline) ∧ sort_items baseline ≡ₚ baseline.
Proof.
  intros Hok Hf. assert (Hp : sort_items baseline ≡ₚ baseline) by apply stable_sort_perm. split; [|done].
  assert (Hf' : Forall (λ e, key_ok e.1 ∧ 0 <= e.2) (sort_items baseline)) by (by rewrite Hp).
  unfold read_baseline. rewrite format_baseline_lines, splitlines_lines.
  - unfold baseline_lines. rewrite enumerate_app, foldM_app.
    match goal with |- context [foldM read_line [] ?l] => replace (foldM read_line [] l) with (Ok (@nil (text * Z))) by (by vm_compute) end.
    cbn [mbind result_bind]. apply read_entries; [done| |].
    + unfold dict_ok, dkeys in *. simpl. by rewrite Hp.
    + rewrite length_seqZ. unfold len. rewrite length_fmap. lia.
  - unfold baseline_lines. apply Forall_app. split; [apply (bool_decide_unpack _); by vm_compute|]. apply Forall_fmap.
    eapply Forall_impl; [exact Hf'|]. intros e [Hk Hn]. by apply plain_line.
Qed.
End check.

(** ** A concrete repository *)

Module SizeDemo.
(** Two functions of the same name above a limit of 3 lines, and a short method. *)
Definition tree : list node :=
  [Def FunctionDef (lit "f") 1 (Some 5) []; Def ClassDef (lit "C") 7 (Some 9) [Def AsyncFunctionDef (lit "m") 8 (Some 9) []];
   Other [Def FunctionDef (lit "f") 11 (Some 14) []]].
Definition baseline : dict text Z := [(lit "b.py:f#2", 4); (lit "b.py:f", 5)].

#[export] Instance repository : Repository := {|
  read_source := λ _, Ok [];
  ast_parse := λ _ _, Ok tree;
  git_ls_files := Ok (lit "b.py" ++ [0]);
  git_merge_base := λ r, Ok (r ++ [10]);
  git_verify := λ _, Ok tt;
  git_has_blob := λ _, true;
  git_show := λ _, Ok (format_baseline [(lit "b.py:f", 9); (lit "b.py:f#2", 4); (lit "gone.py:g", 50)]) |}.
End SizeDemo.

Section demo.
#[local] Existing Instances SizeDemo.repository ascii_ucd.

Lemma main_ratchet_witness :
  ∃ o, main (format_baseline SizeDemo.baseline) 3 false None BASELINE = Ok o ∧ status o = 0 ∧
    ∃ baseline sources lengths revision base,
      read_baseline (format_baseline SizeDemo.baseline) = Ok baseline ∧ tracked_sources = Ok sources ∧ collect_lengths sources = Ok lengths ∧
      base_revision None = Ok revision ∧ committed_baseline revision BASELINE = Ok base ∧
      (status o = 0 ↔ (∀ key, dget key baseline = long lengths 3 key) ∧
       ∀ b key l, base = Some b → long lengths 3 key = Some l → ∃ allowed, dget key b = Some allowed ∧ l <= allowed).
Proof.
  assert (Hm : main (format_baseline SizeDemo.baseline) 3 false None BASELINE = Ok {| status := 0; written := None; errors := [] |}) by (by vm_compute).
  exists {| status := 0; written := None; errors := [] |}. split; [exact Hm|]. split; [reflexivity|]. exact (main_ratchet _ _ _ _ _ _ Hm).
Defined.

Lemma baseline_round_trip_witness :
  read_baseline (format_baseline SizeDemo.baseline) = Ok (sort_items SizeDemo.baseline) ∧ sort_items SizeDemo.baseline ≡ₚ SizeDemo.baseline.
Proof. apply (baseline_round_trip SizeDemo.baseline); apply (bool_decide_unpack _); by vm_compute. Defined.
End demo.
