(* ===== verification/OpenPgp.v ===== *)
(** * OpenPGP framing: [mkosi/private/openpgp.py]

    Armor, packets, certificates, detached signatures and the encoders of the test signer. SHA-1 is an entry of the [hashlib] interface. *)
From S2P Require Import Prelude Bytes PyText ByteText Hashing.

Definition TAG_SIGNATURE : Z := 2.
Definition TAG_SECRET_KEY : Z := 5.
Definition TAG_PUBLIC_KEY : Z := 6.
Definition TAG_SECRET_SUBKEY : Z := 7.
Definition TAG_TRUST : Z := 12.
Definition TAG_USER_ID : Z := 13.
Definition TAG_PUBLIC_SUBKEY : Z := 14.
Definition TAG_USER_ATTRIBUTE : Z := 17.

Definition _CERTIFICATE_TAGS : list Z :=
  [TAG_PUBLIC_KEY; TAG_SIGNATURE; TAG_TRUST; TAG_USER_ID; TAG_PUBLIC_SUBKEY; TAG_USER_ATTRIBUTE].

(** ** Armor *)

Definition crc24_bit (crc : Z) : Z :=
  let crc := Z.shiftl crc 1 in
  if negb (Z.land crc 0x1000000 =? 0) then Z.lxor crc 0x1864CFB else crc.
Definition crc24_byte (crc : Z) (b : byte) : Z := Nat.iter 8 crc24_bit (Z.lxor crc (Z.shiftl (b2Z b) 16)).
Definition crc24 (data : bytes) : Z := Z.land (foldl crc24_byte 0xB704CE data) 0xFFFFFF.

(** [\r?\n]. *)
Definition eol (l : bytes) : option bytes :=
  match l with
  | x0a :: l => Some l
  | x0d :: x0a :: l => Some l
  | _ => None
  end.

Definition is_label (b : byte) : bool := let c := b2Z b in ((65 <=? c) && (c <=? 90)) || (c =? 32).
Definition not_eol (b : byte) : bool := negb (bool_decide (b = x0a) || bool_decide (b = x0d)).

(** [(?:[^\r\n]+\r?\n)*?\r?\n]: the header lines and the empty line after them. Only an empty line ends the headers, and no
    header line is empty, so that the match is unique. *)
Fixpoint skip_headers (fuel : nat) (l : bytes) : option bytes :=
  match eol l with
  | Some body => Some body
  | None =>
      match fuel, bspan not_eol l with
      | S fuel, (_ :: _, rest) => rest ← eol rest; skip_headers fuel rest
      | _, _ => None
      end
  end.

(** [_ARMOR.fullmatch]: the label and the body. *)
Definition _ARMOR (l : bytes) : option (bytes * bytes) :=
  l ← bprefix (blit "-----BEGIN PGP ") l;
  let '(label, l) := bspan is_label l in
  if bool_decide (label = []) then None else
  l ← bprefix (blit "-----") l;
  l ← eol l;
  l ← skip_headers (length l) l;
  body ← bsuffix (blit "-----END PGP " ++ label ++ blit "-----") l;
  Some (label, body).

Definition b64_error : exn := ValueError "Incorrect padding" [].

Definition dearmor (data : bytes) (label : bytes) : result bytes :=
  if negb (bool_decide (blit "-----BEGIN PGP " `prefix_of` blstrip data)) then mret data else
  let expected := ValueError "expected one ASCII-armored 'PGP {}' block" [AText (b2Z <$> label)] in
  match _ARMOR (bstrip data) with
  | None => Err expected
  | Some (found, body) =>
      require (bool_decide (found = label)) expected;;
      let lines := bsplit body in
      '(lines, checksum) ← match last lines with
        | Some (x3d :: sum) => c ← of_option b64_error (b64decode sum); mret (take (length lines - 1) lines, Some c)
        | _ => mret (lines, None)
        end;
      binary ← of_option b64_error (b64decode (concat lines));
      match checksum with
      | Some c => require (bool_decide (c = be_encode 3 (crc24 binary))) (ValueError "ASCII armor checksum mismatch" [])
      | None => mret tt
      end;;
      mret binary
  end.

(** ** Packets *)

Definition _header (data : bytes) (offset : Z) : result (Z * Z * Z) :=
  first ← byte_at data offset;
  raise_if (Z.land first 0x80 =? 0) (ValueError "invalid OpenPGP packet header at byte {}" [AInt offset]);;
  if Z.land first 0x40 =? 0 then
    let length_type := Z.land first 0x03 in
    raise_if (length_type =? 3) (ValueError "indeterminate OpenPGP packet lengths are not supported" []);;
    let length_bytes := if length_type =? 0 then 1 else if length_type =? 1 then 2 else 4 in
    let start := offset + 1 + length_bytes in
    mret (Z.land (Z.shiftr first 2) 0x0F, start, be_decode (slice (offset + 1) start data))
  else
    octet ← byte_at data (offset + 1);
    if octet <? 192 then mret (Z.land first 0x3F, offset + 2, octet)
    else if octet <? 224 then
      (next ← byte_at data (offset + 2); mret (Z.land first 0x3F, offset + 3, Z.shiftl (octet - 192) 8 + next + 192))
    else if octet =? 255 then mret (Z.land first 0x3F, offset + 6, be_decode (slice (offset + 2) (offset + 6) data))
    else Err (ValueError "partial OpenPGP packet lengths are not supported" []).

(** [except IndexError]. *)
Definition is_index_error (e : exn) : bool := match e with IndexError => true | _ => false end.

Fixpoint packets_loop (fuel : nat) (data : bytes) (offset : Z) : result (list (Z * bytes)) :=
  if offset <? len data then
    match fuel with
    | O => Err OutOfFuel
    | S fuel =>
        '(tag, start, length_) ← recast is_index_error (λ _, ValueError "truncated OpenPGP packet header" []) (_header data offset);
        raise_if (len data <? start + length_) (ValueError "truncated OpenPGP packet" []);;
        rest ← packets_loop fuel data (start + length_);
        mret ((tag, slice start (start + length_) data) :: rest)
    end
  else mret [].

Definition packets (data : bytes) : result (list (Z * bytes)) :=
  found ← packets_loop (length data) data 0;
  raise_if (bool_decide (found = [])) (ValueError "no OpenPGP packets" []);;
  mret found.

Definition packet (tag : Z) (body : bytes) : result bytes :=
  length_ ← (if len body <? 192 then byte_of (len body)
    else if len body <? 8384 then
      (a ← byte_of (Z.shiftr (len body - 192) 8 + 192); b ← byte_of (Z.land (len body - 192) 0xFF); mret (a ++ b))
    else n ← pack_be 4 (len body); mret (xff :: n));
  first ← byte_of (Z.lor 0xC0 tag);
  mret (first ++ length_ ++ body).

(** ** Certificates and signatures *)

Section hashes.
Context `{Hashlib} `{Ucd}.

Definition sha1 (m : bytes) : bytes := hash_digest (lit "sha1") m.

Definition fingerprint (public_key_body : bytes) : result text :=
  match public_key_body with
  | x04 :: _ => n ← pack_be 2 (len public_key_body); mret (upper (hex (sha1 (x99 :: n ++ public_key_body))))
  | _ => Err (ValueError "only version 4 OpenPGP keys are supported" [])
  end.

Definition certificate (data : bytes) : result (bytes * text) :=
  binary ← dearmor data (blit "PUBLIC KEY BLOCK");
  parsed ← packets binary;
  let tags := parsed.*1 in
  raise_if (bool_decide (TAG_SECRET_KEY ∈ tags ∨ TAG_SECRET_SUBKEY ∈ tags))
    (ValueError "public_key contains secret key material; pass only the public certificate" []);;
  require (bool_decide (head tags = Some TAG_PUBLIC_KEY) &&
           bool_decide (length (List.filter (Z.eqb TAG_PUBLIC_KEY) tags) = 1%nat))
    (ValueError "public_key must contain exactly one OpenPGP certificate" []);;
  require (forallb (λ t, bool_decide (t ∈ _CERTIFICATE_TAGS)) tags)
    (ValueError "public_key contains packets that do not belong in an OpenPGP certificate" []);;
  '(_, body) ← get parsed 0;
  f ← fingerprint body;
  mret (binary, f).

Definition detached_signature (data : bytes) : result bytes :=
  binary ← dearmor data (blit "SIGNATURE");
  parsed ← packets binary;
  let tags := parsed.*1 in
  raise_if (existsb (λ t, negb (t =? TAG_SIGNATURE)) tags) (ValueError "expected a detached OpenPGP signature" []);;
  require (len tags =? 1) (ValueError "expected exactly one OpenPGP signature, found {}" [AInt (len tags)]);;
  mret binary.

(** ** Encoders *)

(** [value.bit_length()]. *)
Definition bit_length (value : N) : Z := Z.of_N (N.size value).

Definition mpi (value : N) : result bytes :=
  n ← pack_be 2 (bit_length value);
  mret (n ++ be_encode (Z.to_nat ((bit_length value + 7) / 8)) (Z.of_N value)).

Definition rsa_public_key (modulus exponent : N) (created : Z) : result bytes :=
  time ← pack_be 4 created;
  m ← mpi modulus;
  e ← mpi exponent;
  mret ([x04] ++ time ++ [x01] ++ m ++ e).

Definition _subpacket (kind : Z) (value : bytes) : result bytes :=
  n ← byte_of (len value + 1); k ← byte_of kind; mret (n ++ k ++ value).

Definition rsa_sha256_signature (public_key_body : bytes) (signature_type created : Z) (signed_data : bytes)
    (sign_digest : bytes → N) (key_flags : option Z) : result bytes :=
  f ← fingerprint public_key_body;
  key_fingerprint ← of_option (ValueError "non-hexadecimal number found in fromhex() arg" []) (unhex f);
  time ← pack_be 4 created;
  s2 ← _subpacket 2 time;
  s33 ← _subpacket 33 (x04 :: key_fingerprint);
  s27 ← match key_flags with Some flags => (b ← byte_of flags; _subpacket 27 b) | None => mret [] end;
  let hashed := s2 ++ s33 ++ s27 in
  kind ← pack_be 1 signature_type;
  n ← pack_be 2 (len hashed);
  let fields := [x04] ++ kind ++ [x01; x08] ++ n ++ hashed in
  m ← pack_be 4 (len fields);
  let digest := sha256 (signed_data ++ fields ++ [x04; xff] ++ m) in
  unhashed ← _subpacket 16 (drop (length key_fingerprint - 8) key_fingerprint);
  u ← pack_be 2 (len unhashed);
  s ← mpi (sign_digest digest);
  mret (fields ++ u ++ unhashed ++ take 2 digest ++ s).

Definition user_id_certification_data (public_key_body user_id : bytes) : result bytes :=
  n ← pack_be 2 (len public_key_body);
  m ← pack_be 4 (len user_id);
  mret ((x99 :: n ++ public_key_body) ++ [xb4] ++ m ++ user_id).
End hashes.
