(* ===== verification/OpenPgpProofs.v ===== *)
(** * OpenPGP framing: packets as a grammar, certificates and detached signatures *)
From S2P Require Import Prelude Bytes PyText ByteText Hashing OpenPgp.

(** ** The frames of a packet *)

(** The encodings of a packet that RFC 4880 allows and the code reads: old format with a length of one, two or four bytes, and
    new format with a length of one, two or five bytes. *)
Inductive frame (tag : Z) (body : bytes) : bytes → Prop :=
  | old_frame kind (n : nat) :
      0 <= tag < 16 → (kind, n) ∈ [(0, 1%nat); (1, 2%nat); (2, 4%nat)] → len body < 256 ^ Z.of_nat n →
      frame tag body (Z2b (128 + 4 * tag + kind) :: be_encode n (len body) ++ body)
  | new_frame_1 :
      0 <= tag < 64 → len body < 192 → frame tag body (Z2b (192 + tag) :: Z2b (len body) :: body)
  | new_frame_2 :
      0 <= tag < 64 → 192 <= len body < 8384 →
      frame tag body (Z2b (192 + tag) :: Z2b (192 + (len body - 192) / 256) :: Z2b ((len body - 192) mod 256) :: body)
  | new_frame_5 :
      0 <= tag < 64 → len body < 256 ^ 4 → frame tag body (Z2b (192 + tag) :: xff :: be_encode 4 (len body) ++ body).

(** The data is the concatenation of frames for the packets. *)
Definition framed (ps : list (Z * bytes)) (data : bytes) : Prop :=
  ∃ fs, data = concat fs ∧ Forall2 (λ p f, frame p.1 p.2 f) ps fs.

Lemma frame_nonempty tag body f : frame tag body f → f ≠ [].
Proof. by destruct 1. Qed.

(** ** Reading a header depends on the data from its offset on *)

(** The offset that an error message names. *)
Definition shift_error (n : Z) (e : exn) : exn :=
  match e with ValueError f [AInt z] => ValueError f [AInt (n + z)] | e => e end.
Definition shift_header (n : Z) (m : result (Z * Z * Z)) : result (Z * Z * Z) :=
  match m with Ok (tag, start, l) => Ok (tag, n + start, l) | Err e => Err (shift_error n e) end.

Lemma header_shift pre d : _header (pre ++ d) (len pre) = shift_header (len pre) (_header d 0).
Proof.
  unfold _header. replace (byte_at (pre ++ d) (len pre)) with (byte_at d 0) by (rewrite <- (byte_at_shift pre) by lia; f_equal; lia).
  destruct (byte_at d 0) as [first|e] eqn:E; [|apply byte_at_error in E; by subst e]. cbn [mbind result_bind].
  destruct (Z.land first 0x80 =? 0); cbn; [by rewrite Z.add_0_r|]. destruct (Z.land first 0x40 =? 0).
  - destruct (Z.land first 0x03 =? 3); cbn; [done|]. rewrite <- !Z.add_assoc, slice_shift by lia. done.
  - rewrite (byte_at_shift pre d 1), (byte_at_shift pre d 2) by lia. change (0 + 1) with 1. change (0 + 2) with 2. destruct (byte_at d 1) as [octet|e] eqn:E1; [|apply byte_at_error in E1; by subst e]. cbn.
    destruct (octet <? 192); [done|]. destruct (octet <? 224).
    + destruct (byte_at d 2) as [next|e] eqn:E2; [done|apply byte_at_error in E2; by subst e].
    + destruct (octet =? 255); [|done]. rewrite slice_shift by lia. done.
Qed.

(** ** The first byte *)

Section first_byte.
Context (b : byte).
Lemma first_tagged : (Z.land (b2Z b) 0x80 =? 0) = (b2Z b <? 128).
Proof. by destruct b. Qed.
Lemma first_new : (Z.land (b2Z b) 0x40 =? 0) = (b2Z b mod 128 <? 64).
Proof. by destruct b. Qed.
Lemma first_old_tag : Z.land (Z.shiftr (b2Z b) 2) 0x0F = b2Z b mod 64 / 4.
Proof. by destruct b. Qed.
Lemma first_old_kind : Z.land (b2Z b) 0x03 = b2Z b mod 4.
Proof. by destruct b. Qed.
Lemma first_new_tag : Z.land (b2Z b) 0x3F = b2Z b mod 64.
Proof. by destruct b. Qed.
End first_byte.

(** [_header] at the start of the data, by the first byte. *)
Lemma header_cons b d :
  _header (b :: d) 0 =
  if b2Z b <? 128 then Err (ValueError "invalid OpenPGP packet header at byte {}" [AInt 0])
  else if b2Z b <? 192 then
    if b2Z b mod 4 =? 3 then Err (ValueError "indeterminate OpenPGP packet lengths are not supported" [])
    else let n := if b2Z b mod 4 =? 0 then 1 else if b2Z b mod 4 =? 1 then 2 else 4 in
      Ok ((b2Z b - 128) / 4, 1 + n, be_decode (slice 0 n d))
  else
    octet ← byte_at d 0;
    if octet <? 192 then Ok (b2Z b - 192, 2, octet)
    else if octet <? 224 then (next ← byte_at d 1; Ok (b2Z b - 192, 3, (octet - 192) * 256 + next + 192))
    else if octet =? 255 then Ok (b2Z b - 192, 6, be_decode (slice 1 5 d))
    else Err (ValueError "partial OpenPGP packet lengths are not supported" []).
Proof.
  pose proof (b2Z_range b) as Hb. unfold _header. rewrite byte_at_0. cbn [mbind result_bind].
  rewrite first_tagged, first_new, first_old_tag, first_old_kind, first_new_tag. destruct (b2Z b <? 128) eqn:E1; [done|]. cbn.
  replace (b2Z b mod 128) with (b2Z b - 128) by (apply Z.mod_unique_pos with 1; lia).
  replace (b2Z b - 128 <? 64) with (b2Z b <? 192) by lia. destruct (b2Z b <? 192) eqn:E2.
  - destruct (_ =? 3); [done|]. cbn. replace (b2Z b mod 64) with (b2Z b - 128) by (apply Z.mod_unique_pos with 2; lia).
    set (n := if _ =? 0 then 1 else _). do 3 f_equal. apply (slice_shift [b] d 0 n). lia.
  - replace (b2Z b mod 64) with (b2Z b - 192) by (apply Z.mod_unique_pos with 3; lia).
    change (0 + 1) with (1 + 0). change (0 + 2) with (1 + 1). rewrite (byte_at_S b d 0), (byte_at_S b d 1) by lia. destruct (byte_at d 0) as [octet|]; [|done]. cbn. destruct (octet <? 192); [done|].
    destruct (octet <? 224); [destruct (byte_at d 1); [cbn; by rewrite Z.shiftl_mul_pow2|done]|].
    destruct (octet =? 255); [|done]. do 3 f_equal. apply (slice_shift [b] d 1 5). lia.
Qed.

(** ** A header reads exactly the frames *)

Lemma old_first b : 128 <= b2Z b → Z2b (128 + 4 * ((b2Z b - 128) / 4) + b2Z b mod 4) = b.
Proof. intros Hb. rewrite <- (Z2b_b2Z b) at 3. f_equal. Z.to_euclidean_division_equations. lia. Qed.

Lemma new_first b : Z2b (192 + (b2Z b - 192)) = b.
Proof. rewrite <- (Z2b_b2Z b) at 2. f_equal. lia. Qed.

Lemma split_middle {A} (d : list A) a l : 0 <= a → 0 <= l → a + l <= len d →
  ∃ pre body post, d = pre ++ body ++ post ∧ len pre = a ∧ len body = l.
Proof.
  intros Ha Hl Hle. exists (slice 0 a d), (slice a (a + l) d), (slice_from (a + l) d). split_and!.
  - rewrite slice_take_drop, slice_take_drop, slice_from_drop by lia. change (Z.to_nat 0) with 0%nat. rewrite drop_0.
    replace (Z.to_nat (a + l)) with (Z.to_nat a + Z.to_nat l)%nat by lia. replace (Z.to_nat (a - 0)) with (Z.to_nat a) by lia.
    replace (Z.to_nat (a + l - a)) with (Z.to_nat l) by lia. by rewrite <- drop_drop, take_drop, take_drop.
  - rewrite len_slice; lia.
  - rewrite len_slice; lia.
Qed.

Lemma slice_body {A} (pre body post : list A) : slice (len pre) (len pre + len body) (pre ++ body ++ post) = body.
Proof. rewrite slice_app_r by lia. rewrite Z.sub_diag. replace (len pre + len body - len pre) with (len body) by lia. apply slice_app_exact. Qed.

Lemma be_field h body post :
  be_decode (slice 0 (len h) (h ++ body ++ post)) = len body → be_encode (length h) (len body) = h.
Proof. rewrite slice_app_exact. intros <-. apply be_encode_decode. Qed.

Lemma be_field_bound h n : be_decode h = n → n < 256 ^ len h.
Proof. intros <-. apply be_decode_range. Qed.

(** An old-format header of [n] length bytes. *)
Lemma old_frame_inv b h body post kind (n : nat) :
  128 <= b2Z b < 192 → (kind, n) ∈ [(0, 1%nat); (1, 2%nat); (2, 4%nat)] → b2Z b mod 4 = kind → len h = Z.of_nat n →
  be_decode (slice 0 (Z.of_nat n) (h ++ body ++ post)) = len body →
  frame ((b2Z b - 128) / 4) body (b :: h ++ body).
Proof.
  intros Hb Hk Hm Hn Hd. rewrite <- Hn in Hd. pose proof Hd as Hbound. rewrite slice_app_exact in Hbound. apply be_field_bound in Hbound.
  apply be_field in Hd. replace (length h) with n in Hd by (unfold len in Hn; lia).
  rewrite <- (old_first b), <- Hd, Hm by lia. replace ((b2Z (Z2b _) - 128) / 4) with ((b2Z b - 128) / 4).
  - apply old_frame; [|done|by rewrite <- Hn]. split; [apply Z.div_pos; lia|apply Z.div_lt_upper_bound; lia].
  - by rewrite <- Hm, old_first by lia.
Qed.

(** The bytes before the body, in the cases of the new format. *)
Lemma new_frame_inv b h body post start :
  192 <= b2Z b → len h = start - 1 →
  (octet ← byte_at (h ++ body ++ post) 0;
   if octet <? 192 then Ok (b2Z b - 192, 2, octet)
   else if octet <? 224 then (next ← byte_at (h ++ body ++ post) 1; Ok (b2Z b - 192, 3, (octet - 192) * 256 + next + 192))
   else if octet =? 255 then Ok (b2Z b - 192, 6, be_decode (slice 1 5 (h ++ body ++ post)))
   else Err (ValueError "partial OpenPGP packet lengths are not supported" [])) = Ok (b2Z b - 192, start, len body) →
  frame (b2Z b - 192) body (b :: h ++ body).
Proof.
  intros Hb Hh Hr. pose proof (b2Z_range b). apply bind_Ok_inv in Hr as (octet & Ho & Hr). apply byte_at_inv in Ho as (o & Ho & ->); [|lia].
  pose proof (b2Z_range o). rewrite <- (new_first b) at 2. destruct (b2Z o <? 192) eqn:E1.
  - injection Hr as <- Hlen. destruct h as [|o' [|]]; [done| |unfold len in Hh; simpl in Hh; lia]. simpl in Ho. injection Ho as ->.
    rewrite <- (Z2b_b2Z o), Hlen. apply new_frame_1; lia.
  - destruct (b2Z o <? 224) eqn:E2.
    + apply bind_Ok_inv in Hr as (next & Hn & Hr). apply byte_at_inv in Hn as (p & Hp & ->); [|lia]. injection Hr as <- Hlen.
      destruct h as [|o' [|p' [|]]]; try (unfold len in Hh; simpl in Hh; lia). simpl in Ho, Hp. injection Ho as ->. injection Hp as ->.
      pose proof (b2Z_range p).
      replace o with (Z2b (192 + (len body - 192) / 256)) by (rewrite <- (Z2b_b2Z o); f_equal; rewrite <- Hlen; Z.to_euclidean_division_equations; lia).
      replace p with (Z2b ((len body - 192) mod 256)) by (rewrite <- (Z2b_b2Z p); f_equal; rewrite <- Hlen; Z.to_euclidean_division_equations; lia).
      apply new_frame_2; lia.
    + destruct (b2Z o =? 255) eqn:E3; [|done]. injection Hr as <- Hlen.
      destruct h as [|o' h]; [unfold len in Hh; simpl in Hh; lia|]. simpl in Ho. injection Ho as ->. rewrite len_cons in Hh.
      replace o with xff in * by (rewrite <- (Z2b_b2Z o); replace (b2Z o) with 255 by lia; done).
      change ((xff :: h) ++ body ++ post) with ([xff] ++ h ++ body ++ post) in Hlen.
      change (slice 1 5 ([xff] ++ h ++ body ++ post)) with (slice (len [xff] + 0) (len [xff] + 4) ([xff] ++ h ++ body ++ post)) in Hlen.
      rewrite slice_shift in Hlen by lia. replace 4 with (len h) in Hlen by lia. pose proof Hlen as Hbound. rewrite slice_app_exact in Hbound.
      apply be_field_bound in Hbound. replace (len h) with 4 in Hbound by lia. apply be_field in Hlen.
      replace (length h) with 4%nat in Hlen by (unfold len in Hh; lia). rewrite <- Hlen. cbn [app]. apply new_frame_5; [lia|done].
Qed.

Lemma header_bounds b d tag start l : _header (b :: d) 0 = Ok (tag, start, l) → 1 <= start ∧ 0 <= l.
Proof.
  rewrite header_cons. intros Hh. destruct (b2Z b <? 128); [done|]. destruct (b2Z b <? 192).
  - destruct (_ =? 3); [done|]. injection Hh as _ <- <-. split; [repeat case_match; lia|apply be_decode_range].
  - apply bind_Ok_inv in Hh as (o & Ho & Hh). apply byte_at_inv in Ho as (x & _ & ->); [|lia]. pose proof (b2Z_range x).
    destruct (b2Z x <? 192) eqn:Ex; [injection Hh as _ <- <-; lia|]. destruct (_ <? 224).
    + apply bind_Ok_inv in Hh as (p & Hp & Hh). apply byte_at_inv in Hp as (y & _ & ->); [|lia]. pose proof (b2Z_range y). injection Hh as _ <- <-. lia.
    + destruct (_ =? 255); [|done]. injection Hh as _ <- <-. split; [lia|apply be_decode_range].
Qed.

Lemma header_frame_inv d tag start l :
  _header d 0 = Ok (tag, start, l) → start + l <= len d →
  ∃ pre body post, d = pre ++ body ++ post ∧ len pre = start ∧ len body = l ∧ frame tag body (pre ++ body).
Proof.
  intros Hh Hle. destruct d as [|b d]; [done|]. destruct (header_bounds _ _ _ _ _ Hh).
  destruct (split_middle (b :: d) start l) as (pre & body & post & Hd & Hpre & Hbody); [lia..|]. exists pre, body, post. split_and!; [done..|].
  destruct pre as [|b' h]; [unfold len in Hpre; simpl in Hpre; lia|]. injection Hd as <- ->. rewrite len_cons in Hpre. rewrite header_cons in Hh.
  pose proof (b2Z_range b). destruct (b2Z b <? 128) eqn:E1; [done|]. destruct (b2Z b <? 192) eqn:E2.
  - destruct (b2Z b mod 4 =? 3) eqn:E3; [done|]. injection Hh as <- Hs Hl. rewrite <- Hbody in Hl.
    assert (Hm : b2Z b mod 4 = 0 ∨ b2Z b mod 4 = 1 ∨ b2Z b mod 4 = 2) by (pose proof (Z.mod_pos_bound (b2Z b) 4); lia).
    destruct Hm as [Hm|[Hm|Hm]]; rewrite Hm in Hs, Hl; cbn in Hs, Hl.
    + eapply (old_frame_inv b h body post 0 1); [lia|by left|done|lia|exact Hl].
    + eapply (old_frame_inv b h body post 1 2); [lia|by right; left|done|lia|exact Hl].
    + eapply (old_frame_inv b h body post 2 4); [lia|by right; right; left|done|lia|exact Hl].
  - assert (tag = b2Z b - 192) as ->.
    { apply bind_Ok_inv in Hh as (o & _ & Hh). repeat case_match; res_inv; simplify_eq; try done; apply bind_Ok_inv in Hh as (? & _ & Hh); by injection Hh. }
    rewrite <- Hbody in Hh. eapply new_frame_inv; [lia| |exact Hh]. lia.
Qed.

Lemma header_of_frame tag body f post :
  frame tag body f → ∃ pre, f = pre ++ body ∧ _header (f ++ post) 0 = Ok (tag, len pre, len body).
Proof.
  pose proof (len_nonneg body) as Hn. destruct 1 as [kind n Ht Hk Hl|Ht Hl|Ht Hl|Ht Hl].
  - exists (Z2b (128 + 4 * tag + kind) :: be_encode n (len body)). split; [done|].
    assert (Hkind : kind = 0 ∧ n = 1%nat ∨ kind = 1 ∧ n = 2%nat ∨ kind = 2 ∧ n = 4%nat) by (set_unfold; naive_solver).
    rewrite <- app_comm_cons, header_cons, b2Z_Z2b_small, len_cons, len_be_encode by lia.
    replace (_ <? 128) with false by lia. replace (_ <? 192) with true by lia.
    replace ((128 + 4 * tag + kind) mod 4) with kind by (Z.to_euclidean_division_equations; lia).
    replace ((128 + 4 * tag + kind - 128) / 4) with tag by (Z.to_euclidean_division_equations; lia).
    destruct Hkind as [[-> ->]|[[-> ->]|[-> ->]]]; cbn [Z.eqb]; cbv zeta; rewrite <- app_assoc;
      rewrite slice_app_l, slice_all, be_decode_encode by (rewrite ?len_be_encode; done || lia); done.
  - exists [Z2b (192 + tag); Z2b (len body)]. split; [done|]. rewrite <- app_comm_cons, header_cons, b2Z_Z2b_small by lia.
    replace (_ <? 128) with false by lia. replace (_ <? 192) with false by lia. rewrite <- app_comm_cons, byte_at_0, b2Z_Z2b_small by lia.
    cbn [mbind result_bind]. replace (_ <? 192) with true by lia. do 2 f_equal. f_equal. lia.
  - exists [Z2b (192 + tag); Z2b (192 + (len body - 192) / 256); Z2b ((len body - 192) mod 256)]. split; [done|].
    assert (0 <= (len body - 192) / 256 < 32) by (Z.to_euclidean_division_equations; lia).
    assert (0 <= (len body - 192) mod 256 < 256) by (apply Z.mod_pos_bound; lia).
    rewrite <- app_comm_cons, header_cons, b2Z_Z2b_small by lia.
    replace (_ <? 128) with false by lia. replace (_ <? 192) with false by lia. rewrite <- !app_comm_cons, byte_at_0, byte_at_1, !b2Z_Z2b_small by lia.
    cbn [mbind result_bind]. replace (192 + _ <? 192) with false by lia. replace (192 + _ <? 224) with true by lia.
    f_equal. f_equal; [f_equal; lia|]. Z.to_euclidean_division_equations; lia.
  - exists (Z2b (192 + tag) :: xff :: be_encode 4 (len body)). split; [done|]. rewrite <- app_comm_cons, header_cons, b2Z_Z2b_small by lia.
    replace (_ <? 128) with false by lia. replace (192 + tag <? 192) with false by lia. rewrite <- app_comm_cons, byte_at_0.
    cbn [mbind result_bind]. change (b2Z xff) with 255. cbn [Z.ltb Z.eqb Z.compare Pos.compare Pos.compare_cont Pos.eqb].
    rewrite !len_cons, len_be_encode. f_equal. f_equal; [f_equal; lia|]. change (slice 1 5 (xff :: (be_encode 4 (len body) ++ body) ++ post)) with
      (slice (len [xff] + 0) (len [xff] + 4) ([xff] ++ (be_encode 4 (len body) ++ body) ++ post)).
    rewrite slice_shift, <- app_assoc, slice_app_l, slice_all, be_decode_encode by (rewrite ?len_be_encode; done || lia). done.
Qed.

(** ** The packets of some data *)

Lemma framed_cons tag body f ps d : frame tag body f → framed ps d → framed ((tag, body) :: ps) (f ++ d).
Proof. intros Hf (fs & -> & Hfs). exists (f :: fs). split; [done|]. by constructor. Qed.

Lemma framed_cons_inv tag body ps d : framed ((tag, body) :: ps) d → ∃ f d', d = f ++ d' ∧ frame tag body f ∧ framed ps d'.
Proof. intros (fs & -> & Hfs). inv Hfs. eexists _, _. split; [done|]. split; [done|]. by eexists. Qed.

Lemma offset_in {A} (pre d : list A) : d ≠ [] → (len pre <? len (pre ++ d)) = true.
Proof. intros Hd. destruct d as [|b d]; [done|]. rewrite len_app, len_cons. pose proof (len_nonneg d). lia. Qed.

(** One round of the loop, after the bytes that it read before. *)
Lemma packets_step fuel pre h body post tag :
  frame tag body (h ++ body) → _header ((h ++ body) ++ post) 0 = Ok (tag, len h, len body) →
  packets_loop (S fuel) (pre ++ (h ++ body) ++ post) (len pre) =
  rest ← packets_loop fuel ((pre ++ h ++ body) ++ post) (len (pre ++ h ++ body)); Ok ((tag, body) :: rest).
Proof.
  intros Hf Hh. pose proof (len_nonneg body). pose proof (len_nonneg post). cbn [packets_loop]. rewrite header_shift, Hh.
  rewrite offset_in by (apply frame_nonempty in Hf; by destruct (h ++ body)). cbn [shift_header recast mbind result_bind].
  replace (len (pre ++ (h ++ body) ++ post) <? len pre + len h + len body) with false by (rewrite !len_app; lia). cbn [raise_if mbind result_bind].
  rewrite <- !app_assoc. replace (len (pre ++ h ++ body)) with (len pre + len h + len body) by (rewrite !len_app; lia).
  destruct (packets_loop fuel _ _); [|done]. cbn. do 3 f_equal. replace (len pre + len h) with (len (pre ++ h)) by apply len_app.
  rewrite app_assoc. apply slice_body.
Qed.

Lemma packets_loop_framed fuel pre d ps : packets_loop fuel (pre ++ d) (len pre) = Ok ps → framed ps d.
Proof.
  revert pre d ps. induction fuel as [|fuel IH]; intros pre d ps Hp; (destruct (decide (d = [])) as [->|Hd];
    [cbn [packets_loop] in Hp; rewrite app_nil_r, Z.ltb_irrefl in Hp; injection Hp as <-; by exists []|]).
  - cbn [packets_loop] in Hp. by rewrite offset_in in Hp.
  - assert (Hread : ∃ tag start l, _header d 0 = Ok (tag, start, l) ∧ start + l <= len d).
    { cbn [packets_loop] in Hp. rewrite offset_in, header_shift in Hp by done. destruct (_header d 0) as [[[tag start] l]|e]; [|done].
      cbn [shift_header recast mbind result_bind] in Hp. exists tag, start, l. split; [done|]. apply bind_Ok_inv in Hp as ([] & Hr & _).
      apply raise_if_Ok in Hr. rewrite len_app in Hr. lia. }
    destruct Hread as (tag & start & l & Hh & Hle). destruct (header_frame_inv _ _ _ _ Hh Hle) as (h & body & post & -> & <- & <- & Hf).
    rewrite (app_assoc h) in Hh, Hp |- *. rewrite (packets_step _ _ _ _ _ _ Hf Hh) in Hp. apply bind_Ok_inv in Hp as (rest & Hr & Hp). injection Hp as <-.
    apply framed_cons; [done|]. by eapply IH.
Qed.

Lemma framed_packets_loop fuel pre ps d : framed ps d → (length ps ≤ fuel)%nat → packets_loop fuel (pre ++ d) (len pre) = Ok ps.
Proof.
  revert fuel pre d. induction ps as [|[tag body] ps IH]; intros fuel pre d Hd Hfuel.
  - destruct Hd as (fs & -> & Hfs). inv Hfs. destruct fuel; cbn; by rewrite app_nil_r, Z.ltb_irrefl.
  - apply framed_cons_inv in Hd as (f & d' & -> & Hf & Hd). destruct fuel as [|fuel]; [simpl in Hfuel; lia|].
    destruct (header_of_frame _ _ _ d' Hf) as (h & -> & Hh). rewrite (packets_step _ _ _ _ _ _ Hf Hh). rewrite IH; [done|done|simpl in Hfuel; lia].
Qed.

Lemma framed_length ps d : framed ps d → (length ps ≤ length d)%nat.
Proof.
  revert d. induction ps as [|[tag body] ps IH]; intros d Hd; [simpl; lia|]. apply framed_cons_inv in Hd as (f & d' & -> & Hf & Hd).
  apply IH in Hd. apply frame_nonempty in Hf. rewrite length_app. destruct f; [done|]. simpl. lia.
Qed.

Lemma packets_iff data ps : packets data = Ok ps ↔ ps ≠ [] ∧ framed ps data.
Proof.
  unfold packets. split.
  - intros Hp. res_inv. bool_inv. split; [done|]. by apply (packets_loop_framed (length data) []).
  - intros [Hne Hd]. pose proof (framed_packets_loop (length data) [] ps data Hd (framed_length _ _ Hd)) as Hp.
    change (packets_loop (length data) data 0 = Ok ps) in Hp. rewrite Hp. cbn [mbind result_bind].
    by rewrite bool_decide_eq_false_2.
Qed.

(** ** Malformed data is rejected with [ValueError] *)

Lemma header_errors data offset : raises (λ e, is_value_error e ∨ e = IndexError) (_header data offset).
Proof.
  assert (Hb : ∀ i, raises (λ e, is_value_error e ∨ e = IndexError) (byte_at data i)).
  { intros i. destruct (byte_at data i) as [z|e] eqn:E; [done|]. apply byte_at_error in E. by right. }
  unfold _header. apply raises_bind; [apply Hb|]. intros first _. apply raises_bind; [apply raises_raise_if; by left|]. intros _ _.
  apply raises_if; intros _.
  - apply raises_bind; [apply raises_raise_if; by left|]. by intros _ _.
  - apply raises_bind; [apply Hb|]. intros octet _. apply raises_if; intros _; [done|]. apply raises_if; intros _.
    + apply raises_bind; [apply Hb|]. by intros next _.
    + apply raises_if; intros _; [done|]. by left.
Qed.

Lemma header_recast data offset :
  raises is_value_error (recast is_index_error (λ _, ValueError "truncated OpenPGP packet header" []) (_header data offset)).
Proof.
  pose proof (header_errors data offset) as He. destruct (_header data offset) as [?|e]; [done|]. simpl in *.
  destruct He as [Hv| ->]; [|apply value_error]. destruct Hv as (fmt & args & ->). apply value_error.
Qed.

(** The fuel of one round per byte is enough, since a frame has at least one. *)
Lemma packets_loop_errors fuel pre d : (length d ≤ fuel)%nat → raises is_value_error (packets_loop fuel (pre ++ d) (len pre)).
Proof.
  revert pre d. induction fuel as [|fuel IH]; intros pre d Hfuel; (destruct (decide (d = [])) as [->|Hd];
    [cbn [packets_loop]; by rewrite app_nil_r, Z.ltb_irrefl|]).
  - destruct d; [done|simpl in Hfuel; lia].
  - destruct (_header d 0) as [[[tag start] l]|e] eqn:Hh.
    + destruct (decide (start + l <= len d)) as [Hle|Hgt].
      * destruct (header_frame_inv _ _ _ _ Hh Hle) as (h & body & post & -> & <- & <- & Hf). rewrite (app_assoc h) in Hh, Hfuel |- *.
        rewrite (packets_step _ _ _ _ _ _ Hf Hh). apply raises_bind; [|done]. apply IH. apply frame_nonempty in Hf. rewrite length_app in Hfuel.
        destruct (h ++ body); [done|]. simpl in Hfuel. lia.
      * cbn [packets_loop]. rewrite offset_in, header_shift, Hh by done. cbn [shift_header recast mbind result_bind].
        replace (len (pre ++ d) <? len pre + start + l) with true by (rewrite len_app; lia). apply value_error.
    + cbn [packets_loop]. rewrite offset_in by done. pose proof (header_recast (pre ++ d) (len pre)) as He. rewrite header_shift, Hh in *.
      exact He.
Qed.

Lemma packets_errors data : raises is_value_error (packets data).
Proof.
  unfold packets. apply raises_bind; [apply (packets_loop_errors (length data) [] data); lia|]. intros found _.
  apply raises_bind; [apply raises_raise_if, value_error|]. by intros _ _.
Qed.

(** [packets] accepts exactly the data that is framed, and rejects everything else with [ValueError]. It returns the packets
    [ps] if and only if there is at least one and the data is, byte for byte, the concatenation of one frame for each of them:
    old or new format, with a length field of a kind that the code supports and that states the length of the body. *)
Theorem packets_exact data :
  raises is_value_error (packets data) ∧ ∀ ps, packets data = Ok ps ↔ ps ≠ [] ∧ framed ps data.
Proof. split; [apply packets_errors|intros ps; apply packets_iff]. Qed.

(** ** The headers of armored data *)

Lemma length_eol l r : eol l = Some r → (length r < length l)%nat.
Proof. unfold eol. intros Hr. repeat case_match; simplify_eq; simpl; lia. Qed.

Lemma length_bspan f l a r : bspan f l = (a, r) → (length a + length r = length l)%nat.
Proof.
  revert a r. induction l as [|b l IH]; intros a r Hs; cbn [bspan] in Hs; [by injection Hs as <- <-|].
  destruct (f b); [|by injection Hs as <- <-]. destruct (bspan f l) as [a' r'] eqn:E. injection Hs as <- <-. specialize (IH _ _ eq_refl). simpl. lia.
Qed.

(** More fuel than the length does not find more: a header line has at least two bytes. *)
Lemma skip_headers_fuel fuel l : (length l ≤ fuel)%nat → skip_headers fuel l = skip_headers (length l) l.
Proof.
  remember (length l) as n eqn:Hn. revert fuel l Hn. induction (lt_wf n) as [n _ IH]. intros fuel l Hn Hfuel.
  destruct n as [|n]; [destruct l; [by destruct fuel|done]|]. destruct fuel as [|fuel]; [lia|]. cbn [skip_headers].
  destruct (eol l); [done|]. destruct (bspan not_eol l) as [[|b a] rest] eqn:Es; [done|]. destruct (eol rest) as [r|] eqn:Er; [|done].
  apply length_bspan in Es. apply length_eol in Er. simpl in Es. cbn [mbind option_bind].
  rewrite (IH (length r)), (IH (length r) ltac:(lia) n); try done; lia.
Qed.

(** ** Encoding *)

Lemma byte_of_Ok z : 0 <= z < 256 → byte_of z = Ok [Z2b z].
Proof. intros Hz. unfold byte_of. by replace ((0 <=? z) && (z <? 256)) with true by lia. Qed.

Lemma pack_be_Ok n z : 0 <= z < 256 ^ Z.of_nat n → pack_be n z = Ok (be_encode n z).
Proof. intros Hz. unfold pack_be. by replace ((0 <=? z) && (z <? 256 ^ Z.of_nat n)) with true by lia. Qed.

Lemma tag_byte tag : 0 <= tag < 64 → Z.lor 0xC0 tag = 192 + tag.
Proof.
  intros Ht. rewrite <- (Z2Nat.id tag) by lia. assert (Hn : (Z.to_nat tag < 64)%nat) by lia. generalize dependent (Z.to_nat tag). clear.
  intros n Hn. do 64 (destruct n as [|n]; [done|]). lia.
Qed.

Lemma packet_frame tag body : 0 <= tag < 64 → len body < 256 ^ 4 → ∃ f, packet tag body = Ok f ∧ frame tag body f.
Proof.
  intros Ht Hl. pose proof (len_nonneg body). unfold packet. rewrite tag_byte by done. rewrite (byte_of_Ok (192 + tag)) by lia.
  destruct (len body <? 192) eqn:E1; [rewrite byte_of_Ok by lia; eexists; split; [done|apply new_frame_1; lia]|].
  destruct (len body <? 8384) eqn:E2.
  - rewrite Z.shiftr_div_pow2 by lia. change (2 ^ 8) with 256. change 0xFF with (Z.ones 8). rewrite Z.land_ones by lia. change (2 ^ 8) with 256.
    rewrite (Z.add_comm _ 192). assert (0 <= (len body - 192) / 256 < 32) by (Z.to_euclidean_division_equations; lia).
    pose proof (Z.mod_pos_bound (len body - 192) 256). rewrite !byte_of_Ok by lia. eexists. split; [done|]. apply new_frame_2; lia.
  - rewrite pack_be_Ok by done. eexists. split; [done|]. by apply new_frame_5.
Qed.

(** The packets that [packet] encodes: tags of six bits and bodies whose length has four bytes. *)
Definition encodable (p : Z * bytes) : Prop := 0 <= p.1 < 64 ∧ len p.2 < 256 ^ 4.

(** The concatenation of the packets that [packet] writes reads back with [packets] as the same tags and bodies, for every
    tag of six bits and every body of less than 4 GiB. *)
Theorem packets_round_trip ps :
  ps ≠ [] → Forall encodable ps → ∃ fs, mapM (λ p, packet p.1 p.2) ps = Ok fs ∧ packets (concat fs) = Ok ps.
Proof.
  intros Hne Hall. assert (Hfs : ∃ fs, mapM (λ p, packet p.1 p.2) ps = Ok fs ∧ Forall2 (λ p f, frame p.1 p.2 f) ps fs).
  { clear Hne. induction Hall as [|p ps [Ht Hl] Hall IH]; [by exists []|]. destruct IH as (fs & Hm & Hfs).
    destruct (packet_frame p.1 p.2 Ht Hl) as (f & Hp & Hf). exists (f :: fs). cbn. rewrite Hp. cbn. rewrite Hm. split; [done|]. by constructor. }
  destruct Hfs as (fs & Hm & Hfs). exists fs. split; [done|]. apply packets_iff. split; [done|]. by exists fs.
Qed.

(** ** Certificates and signatures *)

Section hashes.
Context `{Hashlib} `{Ucd}.

Lemma count_one_cons (t : Z) l : length (List.filter (Z.eqb t) (t :: l)) = 1%nat → t ∉ l.
Proof.
  simpl. rewrite Z.eqb_refl. simpl. intros [= Hl] Hin. apply list_elem_of_In in Hin.
  assert (Hin' : In t (List.filter (Z.eqb t) l)) by (apply filter_In; split; [done|apply Z.eqb_refl]).
  destruct (List.filter (Z.eqb t) l); [done|simpl in Hl; lia].
Qed.

Lemma fingerprint_inv body f :
  fingerprint body = Ok f → head body = Some x04 ∧ len body < 65536 ∧ f = upper (hex (sha1 (x99 :: be_encode 2 (len body) ++ body))).
Proof.
  unfold fingerprint. destruct body as [|x body]; [done|]. destruct x; try done. intros Hf. apply bind_Ok_inv in Hf as (n & Hn & Hf).
  injection Hf as <-. unfold pack_be in Hn. destruct (_ && _) eqn:E; [|done]. injection Hn as <-. change (256 ^ Z.of_nat 2) with 65536 in E.
  split_and!; [done|lia|done].
Qed.

(** What [certificate] accepts is one public certificate and nothing else: the binary data is framed as a version 4 public
    key packet followed by packets of the other certificate kinds, with no second public key and no secret key or subkey
    packet, and the fingerprint is the upper case SHA-1 of the key's framing octet, length and body. *)
Theorem certificate_public data binary f :
  certificate data = Ok (binary, f) →
  ∃ body rest, framed ((TAG_PUBLIC_KEY, body) :: rest) binary ∧ head body = Some x04 ∧ len body < 65536 ∧
    f = upper (hex (sha1 (x99 :: be_encode 2 (len body) ++ body))) ∧
    ∀ p, p ∈ rest → p.1 ∈ [TAG_SIGNATURE; TAG_TRUST; TAG_USER_ID; TAG_PUBLIC_SUBKEY; TAG_USER_ATTRIBUTE].
Proof.
  unfold certificate. intros Hc. apply bind_Ok_inv in Hc as (b & _ & Hc). apply bind_Ok_inv in Hc as (ps & Hp & Hc).
  apply packets_iff in Hp as [_ Hframed]. apply bind_Ok_inv in Hc as ([] & _ & Hc). apply bind_Ok_inv in Hc as ([] & Hone & Hc).
  apply bind_Ok_inv in Hc as ([] & Hkinds & Hc). apply require_Ok, andb_true_iff in Hone as [Hhead Hcount]. apply require_Ok in Hkinds.
  apply bool_decide_eq_true in Hhead, Hcount. destruct ps as [|[tag body] rest]; [done|]. rewrite fmap_cons in Hhead, Hcount, Hkinds.
  injection Hhead as ->. apply count_one_cons in Hcount. apply bind_Ok_inv in Hc as ([t bd] & Hget & Hc). injection Hget as <- <-.
  apply bind_Ok_inv in Hc as (g & Hf & Hc). injection Hc as <- <-. apply fingerprint_inv in Hf as (Hhd & Hlen & ->).
  exists body, rest. split_and!; [done..|]. intros p Hp. apply (list_elem_of_fmap_2 fst) in Hp as Hp1. rewrite forallb_forall in Hkinds.
  specialize (Hkinds p.1). rewrite <- list_elem_of_In, bool_decide_eq_true in Hkinds. specialize (Hkinds ltac:(by right)).
  unfold _CERTIFICATE_TAGS in Hkinds. apply elem_of_cons in Hkinds as [Heq|Hin]; [|done]. rewrite Heq in Hp1. done.
Qed.

(** Framed data is not armored: its first byte has the high bit set. *)
Lemma framed_first ps d : framed ps d → ps ≠ [] → ∃ b d', d = b :: d' ∧ 128 <= b2Z b.
Proof.
  intros Hd Hne. destruct ps as [|[tag body] ps]; [done|]. apply framed_cons_inv in Hd as (f & d' & -> & Hf & _).
  destruct Hf as [kind n Ht Hk Hl|Ht Hl|Ht Hl|Ht Hl]; (eexists _, _; split; [reflexivity|]).
  - assert (0 <= kind <= 2) by (set_unfold; naive_solver lia). rewrite b2Z_Z2b_small; lia.
  - rewrite b2Z_Z2b_small; lia.
  - rewrite b2Z_Z2b_small; lia.
  - rewrite b2Z_Z2b_small; lia.
Qed.

Lemma dearmor_binary b d label : 128 <= b2Z b → dearmor (b :: d) label = Ok (b :: d).
Proof.
  intros Hb. unfold dearmor. assert (Hs : blstrip (b :: d) = b :: d).
  { cbn [blstrip]. unfold bspace. by replace (((9 <=? b2Z b) && (b2Z b <=? 13)) || (b2Z b =? 32)) with false by lia. }
  rewrite Hs. rewrite bool_decide_eq_false_2; [done|]. intros [k Hk]. change (blit "-----BEGIN PGP ") with (x2d :: blit "----BEGIN PGP ") in Hk.
  injection Hk as -> _. by destruct Hb.
Qed.

(** The normalised certificate is its own normal form. *)
Lemma certificate_normalized data binary f : certificate data = Ok (binary, f) → certificate binary = Ok (binary, f).
Proof.
  unfold certificate. intros Hc. apply bind_Ok_inv in Hc as (b & _ & Hc). apply bind_Ok_inv in Hc as (ps & Hp & Hc).
  assert (b = binary) as -> by (by res_inv; case_match; res_inv; simplify_eq). pose proof Hp as Hp'. apply packets_iff in Hp as [Hne Hframed].
  destruct (framed_first _ _ Hframed Hne) as (x & d & -> & Hx). rewrite dearmor_binary by done. cbn [mbind result_bind]. by rewrite Hp'.
Qed.

Lemma detached_signature_framed data binary :
  detached_signature data = Ok binary → ∃ body, framed [(TAG_SIGNATURE, body)] binary.
Proof.
  unfold detached_signature. intros Hd. apply bind_Ok_inv in Hd as (b & _ & Hd). apply bind_Ok_inv in Hd as (ps & Hp & Hd).
  apply packets_iff in Hp as [_ Hframed]. apply bind_Ok_inv in Hd as ([] & Hall & Hd). apply bind_Ok_inv in Hd as ([] & Hone & Hd).
  injection Hd as <-. apply raise_if_Ok in Hall. apply require_Ok in Hone. rewrite len_fmap in Hone.
  destruct ps as [|[tag body] [|q l]]; [done| |rewrite !len_cons in Hone; pose proof (len_nonneg l); lia]. exists body. simpl in Hall.
  destruct (tag =? TAG_SIGNATURE) eqn:E; [|done]. apply Z.eqb_eq in E. by subst tag.
Qed.

(** A version 4 key body whose length does not fit the two bytes of the fingerprint's framing. *)
Definition too_long (body : bytes) : Prop := head body = Some x04 ∧ 65536 <= len body < 256 ^ 4.

(** C40: A public key packet of version 4 with a body of 65536 bytes or more makes [certificate] raise [struct.error] from the
    two-byte length of the fingerprint, and not the [ValueError] that its documentation names and its callers report. *)
Theorem certificate_long_key body f :
  too_long body → packet TAG_PUBLIC_KEY body = Ok f → certificate f = Err StructError.
Proof.
  intros [Hh Hl] Hp. destruct (packet_frame TAG_PUBLIC_KEY body ltac:(done) (proj2 Hl)) as (g & Hg & Hf). rewrite Hp in Hg. injection Hg as <-.
  assert (Hframed : framed [(TAG_PUBLIC_KEY, body)] f) by (rewrite <- (app_nil_r f); apply framed_cons; [done|by exists []]).
  destruct (framed_first _ _ Hframed ltac:(done)) as (x & d & -> & Hx). unfold certificate. rewrite dearmor_binary by done. cbn [mbind result_bind].
  assert (Hps : packets (x :: d) = Ok [(TAG_PUBLIC_KEY, body)]) by (by apply packets_iff).
  assert (Hfp : fingerprint body = Err StructError).
  { destruct body as [|y body]; [done|]. injection Hh as ->. cbn [fingerprint]. unfold pack_be. change (256 ^ Z.of_nat 2) with 65536.
    by replace ((0 <=? len (x04 :: body)) && (len (x04 :: body) <? 65536)) with false by lia. }
  rewrite Hps. transitivity (g ← fingerprint body; Ok (x :: d, g)); [reflexivity|]. by rewrite Hfp.
Qed.
End hashes.

(** ** Concrete packets *)

Module PgpDemo.
Definition key_body : bytes := x04 :: blit "key".
Definition user : bytes := blit "user".
Definition parts : list (Z * bytes) := [(TAG_PUBLIC_KEY, key_body); (TAG_USER_ID, user); (TAG_SIGNATURE, zeros 200)].
Definition long_key : bytes := x04 :: zeros 65536.
End PgpDemo.

Lemma packets_round_trip_witness :
  ∃ fs, mapM (λ p, packet p.1 p.2) PgpDemo.parts = Ok fs ∧ packets (concat fs) = Ok PgpDemo.parts.
Proof. apply (packets_round_trip PgpDemo.parts); [done|]. apply (bool_decide_unpack _). by vm_compute. Defined.

Section demo.
#[local] Existing Instance ascii_ucd.

Lemma certificate_public_witness :
  ∃ data f body rest, certificate data = Ok (data, f) ∧ framed ((TAG_PUBLIC_KEY, body) :: rest) data ∧ head body = Some x04.
Proof.
  assert (Hd : ∃ data f, (fs ← mapM (λ p, packet p.1 p.2) PgpDemo.parts; certificate (concat fs)) = Ok (data, f) ∧ certificate data = Ok (data, f)).
  { eexists _, _. split; [by vm_compute|]. by vm_compute. }
  destruct Hd as (data & f & _ & Hc). destruct (certificate_public data data f Hc) as (body & rest & Hf & Hh & _).
  exists data, f, body, rest. split; [exact Hc|]. split; [exact Hf|exact Hh].
Defined.

Lemma certificate_long_key_witness :
  ∃ f, packet TAG_PUBLIC_KEY PgpDemo.long_key = Ok f ∧ certificate f = Err StructError.
Proof.
  assert (Hl : 65536 <= len PgpDemo.long_key < 256 ^ 4) by (unfold PgpDemo.long_key; rewrite len_cons, len_zeros by lia; by vm_compute).
  destruct (packet_frame TAG_PUBLIC_KEY PgpDemo.long_key ltac:(done) (proj2 Hl)) as (f & Hp & _). exists f. split; [exact Hp|].
  apply (certificate_long_key PgpDemo.long_key f); [split; [reflexivity|exact Hl]|exact Hp].
Defined.
End demo.
