(* ===== verification/Sysupdate.v ===== *)
(** * Update payloads: [mkosi/private/image_version.py] and [mkosi/private/sysupdate.py]

    The file system, [json.loads] and liblzma's compressor are the interface [SysupdateHost]. An output directory is a dictionary
    from names to contents. Numbers in decoded metadata are integers, as the tools that write it print them. *)
From S2P Require Import Prelude Bytes PyText Collections Json Hashing Gpt.

(** ** image_version.py *)

Definition is_version_char (c : Z) : bool := ascii_lower c || ascii_upper c || ascii_digit c || (c =? 46).
Definition GPT_PARTITION_NAME_MAX : Z := 36.

Definition validate_image_version (image_version : text) : result text :=
  raise_if (bool_decide (image_version = []) || negb (forallb is_version_char image_version))
    (ValueError "image_version must be non-empty and use only letters, digits and '.': {!r}" [AText image_version]);;
  mret image_version.

Definition validate_slot_labels (image_id image_version : text) : result unit :=
  let label := image_id ++ lit "_" ++ image_version ++ lit "_verity" in
  require (forallb is_scalar label) UnicodeError;;
  let length_ := utf16_length label in
  raise_if (GPT_PARTITION_NAME_MAX <? length_)
    (ValueError "A/B verity partition label {!r} is {} characters, but GPT partition names are limited to {}; shorten image_id or image_version so that image_id + '_' + image_version + '_verity' fits"
       [AText label; AInt length_; AInt GPT_PARTITION_NAME_MAX]).

(** [except ValueError]: [UnicodeDecodeError] and [UnicodeEncodeError] are value errors too. *)
Definition catches_value_error (e : exn) : bool := match e with ValueError _ _ | UnicodeError => true | _ => false end.

(** The compressor of one xz stream: its state, [compress] and [flush]. *)
Class SysupdateHost := {
  read_bytes : text → result bytes;
  open_source : text → result file;
  json_loads : text → result json;
  xz_state : Type;
  xz_start : xz_state;
  xz_compress : xz_state → bytes → bytes * xz_state;
  xz_flush : xz_state → bytes }.

Section host.
Context `{SysupdateHost} `{Ucd}.

Definition read_image_version (path : text) (slot_label_image_id : option text) : result text :=
  recast catches_value_error (λ _, ValueError "invalid image_version_file {}: {}" [AText path])
    (data ← read_bytes path;
     content ← of_option UnicodeError (utf8_decode data);
     image_version ← validate_image_version (removesuffix content [10]);
     match slot_label_image_id with Some image_id => validate_slot_labels image_id image_version | None => mret tt end;;
     mret image_version).

(** ** sysupdate.py: transfer definitions *)

Definition line (s : string) : text := lit s ++ [10].

Definition _TRANSFER (verify source pattern target : text) : text :=
  line "[Transfer]" ++ line "ProtectVersion=%A" ++ lit "Verify=" ++ verify ++ [10] ++ [10] ++
  line "[Source]" ++ source ++ [10] ++ lit "MatchPattern=" ++ pattern ++ [10] ++ [10] ++
  line "[Target]" ++ target ++ [10].

Definition _DIRECTORY_SOURCE : text := line "Type=regular-file" ++ line "Path=/" ++ lit "PathRelativeTo=explicit".
Definition _URL_SOURCE (url : text) : text := line "Type=url-file" ++ lit "Path=" ++ url.

Definition root_name (image_id version partition_uuid : text) : text :=
  image_id ++ lit "_" ++ version ++ lit ".root." ++ partition_uuid ++ lit ".raw".
Definition verity_name (image_id version partition_uuid : text) : text :=
  image_id ++ lit "_" ++ version ++ lit ".root-verity." ++ partition_uuid ++ lit ".raw".
Definition uki_name (image_id version : text) : text := image_id ++ lit "_" ++ version ++ lit ".efi".

Definition _PARTITION_TARGET (label partition_type : text) (instances : Z) : text :=
  line "Type=partition" ++ line "Path=auto" ++ lit "MatchPattern=" ++ label ++ [10] ++
  lit "MatchPartitionType=" ++ partition_type ++ [10] ++ line "ReadOnly=yes" ++ lit "InstancesMax=" ++ dec instances.

Definition _UKI_TARGET (patterns : text) (instances : Z) : text :=
  line "Type=regular-file" ++ line "Path=/EFI/Linux" ++ line "PathRelativeTo=boot" ++
  lit "MatchPattern=" ++ patterns ++ [10] ++ line "Mode=0444" ++ lit "InstancesMax=" ++ dec instances.

Definition _uki_target (image_id : text) (boot_attempts instances : Z) : text :=
  let counted := [image_id ++ lit "_@v+@l-@d.efi"; image_id ++ lit "_@v+@l.efi"] in
  let uncounted := [image_id ++ lit "_@v.efi"] in
  let target := _UKI_TARGET (join (lit " ") (if boot_attempts =? 0 then uncounted ++ counted else counted ++ uncounted)) instances in
  if boot_attempts =? 0 then target
  else target ++ [10] ++ lit "TriesLeft=" ++ dec boot_attempts ++ [10] ++ lit "TriesDone=0".

Definition COMPRESSION_SUFFIXES : dict text text := [(lit "none", []); (lit "xz", lit ".xz")].

Definition _compressed_or_plain (pattern : text) : text :=
  join (lit " ") ((λ suffix, pattern ++ suffix) <$> reverse (sorted_texts (dvalues COMPRESSION_SUFFIXES))).

Definition transfers (image_id : text) (boot_attempts instances : Z) (url : option text) : dict text text :=
  let url := match url with Some (_ :: _ as u) => Some u | _ => None end in
  let transfer := _TRANSFER (lit (match url with Some _ => "yes" | None => "no" end))
    (match url with Some u => _URL_SOURCE u | None => _DIRECTORY_SOURCE end) in
  let partition source_name label_suffix partition_type :=
    transfer (_compressed_or_plain (source_name image_id (lit "@v") (lit "@u")))
      (_PARTITION_TARGET (image_id ++ lit "_@v" ++ lit label_suffix) (lit partition_type) instances) in
  [(lit "10-root.transfer", partition root_name "" "root-x86-64");
   (lit "20-root-verity.transfer", partition verity_name "_verity" "root-x86-64-verity");
   (lit "90-uki.transfer", transfer (uki_name image_id (lit "@v")) (_uki_target image_id boot_attempts instances))]%string.

(** ** sysupdate.py: payloads *)

(** [bytes.fromhex]: pairs of digits, with ASCII white space before each. *)
Fixpoint fromhex (t : text) : option bytes :=
  match t with
  | [] => Some []
  | a :: t =>
      if ((9 <=? a) && (a <=? 13)) || (a =? 32) then fromhex t else
      match t with
      | [] => None
      | b :: t => x ← unhex_digit a; y ← unhex_digit b; r ← fromhex t; Some (Z2b (16 * x + y) :: r)
      end
  end.

Definition verity_partition_uuids (root_hash : text) : result (text * text) :=
  digest ← of_option (ValueError "non-hexadecimal number found in fromhex() arg" []) (fromhex root_hash);
  require (len digest =? 32) (ValueError "root hash must be a SHA-256 digest" []);;
  mret (uuid_str (slice 0 16 digest), uuid_str (slice_from 16 digest)).

Fixpoint matching (partitions : list json) (type_guid label : text) : result (list json) :=
  match partitions with
  | [] => mret []
  | p :: partitions =>
      t ← item p "type_guid";
      (if is_str t type_guid then (l ← item p "label"; mret (is_str l label)) else mret false) ≫= λ matches : bool,
      rest ← matching partitions type_guid label;
      mret (if matches then p :: rest else rest)
  end.

Definition _populated (partitions : list json) (type_guid label : text) : result json :=
  matches ← matching partitions type_guid label;
  match matches with
  | [p] => mret p
  | _ => Err (ValueError "expected one partition labelled {!r}" [AText label])
  end.

Definition _CHUNK_BYTES : Z := 1024 * 1024.
Definition _ZERO_CHUNK : bytes := zeros _CHUNK_BYTES.

(** [src.read(n)] at [position]; a negative [n] reads to the end. *)
Definition read_at (source : file) (position n : Z) : bytes :=
  fread source position (if n <? 0 then f_size source - position else n).

(** The loop of [_chunks]: the chunks from [position] on and the bytes that are missing at the end. *)
Fixpoint chunks_loop (fuel : nat) (source : file) (position remaining : Z) : result (list bytes * Z) :=
  if remaining =? 0 then mret ([], 0) else
  let chunk := read_at source position (Z.min _CHUNK_BYTES remaining) in
  if bool_decide (chunk = []) then mret ([], remaining) else
  match fuel with
  | O => Err OutOfFuel
  | S fuel =>
      '(rest, missing) ← chunks_loop fuel source (position + len chunk) (remaining - len chunk);
      mret (chunk :: rest, missing)
  end.

Definition _chunks (name : text) (source : file) (size : option Z) : result (list bytes) :=
  let remaining := default (f_size source) size in
  '(chunks, missing) ← chunks_loop (Z.to_nat (f_size source)) source 0 remaining;
  require (missing =? 0) (ValueError "{} is shorter than its dm-verity geometry" [AText name]);;
  mret chunks.

(** A file that is written from its start: its contents and the position, which may be past the end. *)
Record writer := { w_data : bytes; w_pos : Z }.
Definition wwrite (w : writer) (chunk : bytes) : writer :=
  {| w_data := w_data w ++ zeros (w_pos w - len (w_data w)) ++ chunk; w_pos := w_pos w + len chunk |}.
Definition wskip (w : writer) (n : Z) : writer := {| w_data := w_data w; w_pos := w_pos w + n |}.
(** [truncate()] at a position that is not before the end. *)
Definition wtruncate (w : writer) : bytes := w_data w ++ zeros (w_pos w - len (w_data w)).

Definition sparse_step (w : writer) (chunk : bytes) : writer :=
  if bool_decide (chunk = slice 0 (len chunk) _ZERO_CHUNK) then wskip w (len chunk) else wwrite w chunk.

(** The contents that are written and the bytes that are yielded. *)
Definition _write_sparse (chunks : list bytes) : bytes * list bytes :=
  (wtruncate (foldl sparse_step {| w_data := []; w_pos := 0 |} chunks), chunks).

Fixpoint xz_loop (s : xz_state) (chunks : list bytes) : list bytes :=
  match chunks with
  | [] => [xz_flush s]
  | chunk :: chunks => let '(compressed, s) := xz_compress s chunk in compressed :: xz_loop s chunks
  end.
Definition _write_xz (chunks : list bytes) : bytes * list bytes :=
  let yielded := xz_loop xz_start chunks in (concat yielded, yielded).

Definition _WRITERS : dict text (list bytes → bytes * list bytes) := [(lit "none", _write_sparse); (lit "xz", _write_xz)].

(** [_copy] into the directory [files]: the new directory and the digest. *)
Definition _copy (files : dict text bytes) (source name : text) (size : option Z) (compression : text) : result (dict text bytes * text) :=
  raise_if (dmem name files) OSError;;
  write ← of_option KeyError (dget compression _WRITERS);
  src ← open_source source;
  chunks ← _chunks source src size;
  let '(data, yielded) := write chunks in
  mret (dset name data files, hex (sha256 (concat yielded))).

Definition verity_extents (verity_metadata : json) : result (Z * Z) :=
  blocks ← item verity_metadata "data_blocks" ≫= int_of;
  block_size ← item verity_metadata "data_block_size" ≫= int_of;
  offset ← item verity_metadata "tree_offset" ≫= int_of;
  size ← item verity_metadata "tree_size" ≫= int_of;
  mret (blocks * block_size, offset + size).

(** The arguments of the payload command. *)
Record payload_args := {
  a_image_id : text; a_image_version : option text; a_image_version_file : option text; a_root_hash : text;
  a_partition_metadata : text; a_root_image : text; a_verity_image : text; a_verity_metadata : text; a_uki : text;
  a_signed_uki : option text; a_signing_request : option text; a_compression : text }.

(** [Path(path).read_text(encoding="utf-8")] and [encoding="ascii"]. *)
Definition read_utf8 (path : text) : result text :=
  data ← read_bytes path; universal_newlines <$> of_option UnicodeError (utf8_decode data).
Definition read_ascii (path : text) : result text :=
  data ← read_bytes path; universal_newlines <$> of_option UnicodeError (ascii_decode data).

Definition is_some {A} (o : option A) : bool := match o with Some _ => true | None => false end.

Definition _release_uki (args : payload_args) : result text :=
  raise_if (negb (Bool.eqb (is_some (a_signed_uki args)) (is_some (a_signing_request args))))
    (ValueError "--signed-uki and --signing-request must be given together" []);;
  match a_signed_uki args, a_signing_request args with
  | Some signed, Some request =>
      requested ← (t ← read_utf8 request; j ← json_loads t; item j "unsigned_sha256");
      uki ← read_bytes (a_uki args);
      let actual := hex (sha256 uki) in
      require (is_str requested actual)
        (ValueError "signed UKI was requested for unsigned UKI {} but the image's UKI is {}" [AText actual]);;
      mret signed
  | _, _ => mret (a_uki args)
  end.

Definition check_slot_uuid (partitions : list json) (type_guid label expected : text) : result unit :=
  p ← _populated partitions type_guid label;
  let actual := match p with JObj items => jget (lit "uuid") items | _ => JNull end in
  require (is_str actual expected)
    (ValueError "partition {!r} UUID {} does not match root-hash-derived UUID {}" [AText label; AText expected]).

Definition _check_slot_uuids (partitions : list json) (slot root_uuid verity_uuid : text) : result unit :=
  check_slot_uuid partitions ROOT_X86_64 slot root_uuid;;
  check_slot_uuid partitions ROOT_X86_64_VERITY (slot ++ lit "_verity") verity_uuid.

(** One file of the payload: its name, source, size and compression. *)
Definition copy_step (st : dict text bytes * dict text text) (f : text * text * option Z * text) : result (dict text bytes * dict text text) :=
  let '(files, digests) := st in
  let '(name, source, size, method) := f in
  '(files, digest) ← _copy files source name size method;
  mret (files, dset name digest digests).

(** ["{}  {}\n".format(digests[name], name) for name in sorted(digests)]. *)
Definition checksums (digests : dict text text) : text := sort_items digests ≫= λ d, d.2 ++ lit "  " ++ d.1 ++ [10].

(** [payload] into the directory [files], which may exist already. *)
Definition payload (args : payload_args) (files : dict text bytes) : result (dict text bytes) :=
  version ← match a_image_version_file args with
    | Some path => read_image_version path (Some (a_image_id args))
    | None => of_option TypeError (a_image_version args)
    end;
  uki ← _release_uki args;
  root_hash ← (t ← read_ascii (a_root_hash args); mret (lower (strip t)));
  '(root_uuid, verity_uuid) ← verity_partition_uuids root_hash;
  partitions ← (t ← read_utf8 (a_partition_metadata args); j ← json_loads t; p ← item j "partitions"; items_of p);
  _check_slot_uuids partitions (a_image_id args ++ lit "_" ++ version) root_uuid verity_uuid;;
  '(root_size, verity_size) ← (t ← read_utf8 (a_verity_metadata args); j ← json_loads t; verity_extents j);
  suffix ← of_option KeyError (dget (a_compression args) COMPRESSION_SUFFIXES);
  let compression := a_compression args in
  let plan := [(root_name (a_image_id args) version root_uuid ++ suffix, a_root_image args, Some root_size, compression);
               (verity_name (a_image_id args) version verity_uuid ++ suffix, a_verity_image args, Some verity_size, compression);
               (uki_name (a_image_id args) version, uki, None, lit "none")] in
  '(files, digests) ← foldM copy_step (files, []) plan;
  let sums := checksums digests in
  require (forallb is_ascii sums) UnicodeError;;
  mret (dset (lit "SHA256SUMS") (Z2b <$> sums) files).
End host.
