(* ===== verification/SysupdateSigning.v ===== *)
(** * Offline signing of payload manifests: [mkosi/private/sysupdate_signing.py]

    Requests, their check against the manifest and the certificate, and the import of a signature. The tool that verifies a
    signature is the parameter [sqv]: it returns [None] when it accepts, or its error message. The ephemeral test signer runs
    openssl and is not modelled, apart from the certificate that it assembles. *)
From S2P Require Import Prelude Bytes PyText ByteText Collections Json Hashing OpenPgp.

Definition FORMAT_VERSION : text := lit "mkosi-sysupdate-signing-request-v1".
Definition CONTEXT : text := lit "systemd-sysupdate-sha256sums".

Definition is_hex_lower (c : Z) : bool := ascii_digit c || ((97 <=? c) && (c <=? 102)).

(** [_MANIFEST_LINE.fullmatch]: the digest and the file name. *)
Definition _MANIFEST_LINE (line : text) : option (text * text) :=
  let digest := take 64 line in
  let name := drop 66 line in
  if bool_decide (length digest = 64%nat) && forallb is_hex_lower digest && bool_decide (take 2 (drop 64 line) = [32; 32]) &&
     negb (bool_decide (name = [])) && forallb (λ c, negb (c =? 47) && negb (isspace c)) name
  then Some (digest, name) else None.

Definition manifest_line (files : dict text text) (line : text) : result (dict text text) :=
  let invalid := ValueError "invalid SHA256SUMS line {!r}" [AText line] in
  '(digest, name) ← of_option invalid (_MANIFEST_LINE line);
  raise_if (dmem name files) invalid;;
  mret (dset name digest files).

Definition manifest_files (manifest : bytes) : result (dict text text) :=
  t ← of_option UnicodeError (ascii_decode manifest);
  files ← foldM manifest_line [] (splitlines t);
  raise_if (bool_decide (files = [])) (ValueError "SHA256SUMS lists no files" []);;
  mret files.

Section signing.
Context `{Hashlib} `{Ucd}.

(** The request as [json.dumps] takes it. *)
Definition signing_request (manifest : bytes) (files : dict text text) (fingerprint : text) : jv :=
  VObj [(lit "context", VStr CONTEXT); (lit "files", VObj ((λ f, (f.1, VStr f.2)) <$> files));
        (lit "format_version", VStr FORMAT_VERSION); (lit "manifest", VStr (lit "SHA256SUMS"));
        (lit "manifest_sha256", VStr (hex (sha256 manifest))); (lit "signature", VStr (lit "SHA256SUMS.gpg"));
        (lit "signature_format", VStr (lit "openpgp-detached")); (lit "signer_fingerprint", VStr fingerprint)].

(** [create_request]: the manifest, the certificate and the request that are written. *)
Definition create_request (manifest public_key : bytes) : result (bytes * bytes * jv) :=
  files ← manifest_files manifest;
  '(cert, f) ← certificate public_key;
  mret (manifest, cert, signing_request manifest files f).

(** The text of the request file. *)
Definition request_text (request : jv) : text := dumps_indent 0 (sort_keys request) ++ [10].

(** [j[key]] and [j.get(key)] of a decoded document. *)
Definition jitem (j : json) (key : string) : result json :=
  match j with JObj items => of_option KeyError (dget (lit key) items) | _ => Err TypeError end.
Definition jget_attr (j : json) (key : string) : result json :=
  match j with JObj items => Ok (jget (lit key) items) | _ => Err AttributeError end.

Definition _checked_request (request : json) (manifest public_key : bytes) : result (json * bytes * bytes) :=
  v ← jget_attr request "format_version";
  c ← jget_attr request "context";
  require (is_str v FORMAT_VERSION && is_str c CONTEXT) (ValueError "unsupported signing request" []);;
  m ← jitem request "manifest_sha256";
  require (is_str m (hex (sha256 manifest))) (ValueError "SHA256SUMS does not match the signing request" []);;
  '(cert, f) ← certificate public_key;
  s ← jitem request "signer_fingerprint";
  require (is_str s f) (ValueError "public key {} is not the requested signer {}" [AText f]);;
  mret (request, manifest, cert).

(** The loop of [verify] over the candidate signatures; a candidate that cannot be read raises. *)
Fixpoint verify_loop (sqv : bytes → bytes → bytes → option text) (cert manifest : bytes) (candidates : list (result bytes)) : result bytes :=
  match candidates with
  | [] => Err (ValueError "no signature verifies SHA256SUMS {} with key {}: {}" [])
  | candidate :: candidates =>
      data ← candidate;
      match detached_signature data with
      | Ok signature =>
          match sqv cert signature manifest with
          | None => mret signature
          | Some _ => verify_loop sqv cert manifest candidates
          end
      | Err (ValueError _ _) => verify_loop sqv cert manifest candidates
      | Err e => Err e
      end
  end.

(** [verify]: the signature that is written. *)
Definition verify (sqv : bytes → bytes → bytes → option text) (request : json) (manifest public_key : bytes) (candidates : list (result bytes)) : result bytes :=
  '(_, m, cert) ← _checked_request request manifest public_key;
  verify_loop sqv cert m candidates.

(** [_write_certificate]: the certificate that the test signer writes. *)
Definition _write_certificate (public_key : bytes) (sign : bytes → N) (created : Z) : result bytes :=
  let user_id := blit "rules_mkosi ephemeral sysupdate test signer" in
  signed ← user_id_certification_data public_key user_id;
  certification ← rsa_sha256_signature public_key 0x13 created signed sign (Some 0x03);
  k ← packet TAG_PUBLIC_KEY public_key;
  u ← packet TAG_USER_ID user_id;
  s ← packet TAG_SIGNATURE certification;
  mret (k ++ u ++ s).
End signing.
