(* ===== verification/SysupdateProofs.v ===== *)
(** * Update payloads: exact copies, authentic checksums and signatures *)
From S2P Require Import Prelude Bytes PyText ByteText Collections Json Hashing Gpt OpenPgp OpenPgpProofs Sysupdate SysupdateSigning.

(** ** Sparse copies *)

Lemma CHUNK_pos : 0 < _CHUNK_BYTES.
Proof. done. Qed.

Lemma slice_zeros n m : 0 <= n <= m → slice 0 n (zeros m) = zeros n.
Proof.
  intros Hn. rewrite slice_take_drop by lia. change (Z.to_nat 0) with 0%nat. rewrite drop_0. unfold zeros. rewrite take_replicate. f_equal. lia.
Qed.

(** What the file holds once it is truncated at the position. *)
Definition view (w : writer) : bytes := wtruncate w.

Lemma sparse_step_view w chunk :
  len (w_data w) <= w_pos w → len chunk <= _CHUNK_BYTES →
  view (sparse_step w chunk) = view w ++ chunk ∧ len (w_data (sparse_step w chunk)) <= w_pos (sparse_step w chunk).
Proof.
  intros Hw Hc. pose proof (len_nonneg chunk). unfold sparse_step, view, wtruncate, wskip, wwrite, _ZERO_CHUNK. case_bool_decide as E; simpl.
  - rewrite slice_zeros in E by lia. split; [|lia]. rewrite E at 2. rewrite <- app_assoc, <- zeros_app by lia. do 2 f_equal. lia.
  - rewrite !len_app, len_zeros by lia. split; [|lia]. rewrite <- !app_assoc. do 2 f_equal.
    replace (w_pos w + len chunk - _) with 0 by lia. by rewrite app_nil_r.
Qed.

Lemma sparse_view chunks w :
  len (w_data w) <= w_pos w → Forall (λ c, len c <= _CHUNK_BYTES) chunks → view (foldl sparse_step w chunks) = view w ++ concat chunks.
Proof.
  intros Hw Hc. revert w Hw. induction Hc as [|c cs Hc Hcs IH]; intros w Hw; simpl; [by rewrite app_nil_r|].
  destruct (sparse_step_view w c Hw Hc) as [Hv Hw']. by rewrite IH, Hv, <- app_assoc.
Qed.

(** A sparse copy holds the chunks. *)
Lemma write_sparse_exact chunks : Forall (λ c, len c <= _CHUNK_BYTES) chunks → _write_sparse chunks = (concat chunks, chunks).
Proof. intros Hc. unfold _write_sparse. f_equal. apply (sparse_view chunks {| w_data := []; w_pos := 0 |}); [done|exact Hc]. Qed.

(** ** Chunks *)

Lemma read_at_len source position n : 0 <= position → 0 < n → position < f_size source →
  len (read_at source position n) = Z.min n (f_size source - position).
Proof.
  intros Hp Hn Hs. unfold read_at. replace (n <? 0) with false by lia. unfold fread. rewrite len_fmap. unfold len. rewrite length_seqZ. lia.
Qed.

Lemma read_at_end source position n : f_size source <= position → read_at source position n = [].
Proof.
  intros Hs. unfold read_at, fread. destruct (n <? 0) eqn:E.
  - replace (Z.min _ _) with (f_size source - position) by lia. rewrite seqZ_nil by lia. done.
  - rewrite seqZ_nil by lia. done.
Qed.

Lemma chunks_loop_complete fuel source position remaining :
  0 <= position → 0 <= remaining → position + remaining <= f_size source → f_size source - position <= Z.of_nat fuel →
  ∃ cs, chunks_loop fuel source position remaining = Ok (cs, 0) ∧ concat cs = fread source position remaining ∧
    Forall (λ c, len c <= _CHUNK_BYTES) cs.
Proof.
  revert position remaining. induction fuel as [|fuel IH]; intros position remaining Hp Hr Hs Hf; cbn [chunks_loop].
  - replace remaining with 0 by lia. exists []. rewrite fread_nil by lia. done.
  - destruct (remaining =? 0) eqn:E; [exists []; rewrite fread_nil by lia; done|].
    set (n := Z.min _CHUNK_BYTES remaining). pose proof CHUNK_pos. assert (Hn : 0 < n <= remaining) by lia.
    assert (Hl : len (read_at source position n) = n) by (rewrite read_at_len; lia).
    rewrite bool_decide_eq_false_2 by (intros Heq; rewrite Heq in Hl; unfold len in Hl; simpl in Hl; lia). rewrite Hl.
    destruct (IH (position + n) (remaining - n)) as (cs & -> & Hcs & Hall); [lia..|]. exists (read_at source position n :: cs).
    split; [done|]. split; [|constructor; [lia|done]]. cbn [concat]. rewrite Hcs. unfold read_at. replace (n <? 0) with false by lia.
    rewrite <- fread_app by lia. f_equal. lia.
Qed.

Lemma chunks_loop_sound fuel source position remaining cs :
  0 <= position → chunks_loop fuel source position remaining = Ok (cs, 0) → 0 <= remaining ∧ (remaining = 0 ∨ position + remaining <= f_size source).
Proof.
  revert position remaining cs. induction fuel as [|fuel IH]; intros position remaining cs Hp Hc; cbn [chunks_loop] in Hc;
    (destruct (remaining =? 0) eqn:E; [lia|]); (case_bool_decide as Ee; [injection Hc as <- ->; lia|]); [done|].
  set (n := Z.min _CHUNK_BYTES remaining) in *. apply bind_Ok_inv in Hc as ([rest missing] & Hl & Hc). injection Hc as <- ->.
  pose proof (len_nonneg (read_at source position n)). apply IH in Hl as [Hr Hs]; [|lia].
  assert (Hin : position < f_size source) by (destruct (decide (position < f_size source)); [done|]; by rewrite read_at_end in Ee by lia).
  split; [lia|]. right. pose proof CHUNK_pos. destruct Hs as [Hs|Hs]; [|lia].
  rewrite read_at_len in Hs by lia. lia.
Qed.

(** A round per byte of the source is enough for any size asked for, also a negative one. *)
Lemma chunks_loop_fuel fuel source position remaining :
  0 <= position → f_size source - position <= Z.of_nat fuel → is_Ok (chunks_loop fuel source position remaining) = true.
Proof.
  revert position remaining. induction fuel as [|fuel IH]; intros position remaining Hp Hf; cbn [chunks_loop]; (destruct (remaining =? 0); [done|]);
    (case_bool_decide as E; [done|]).
  - destruct E. apply read_at_end. lia.
  - assert (Hl : 1 <= len (read_at source position (Z.min _CHUNK_BYTES remaining))).
    { destruct (read_at _ _ _); [done|]. rewrite len_cons. pose proof (len_nonneg l). lia. }
    specialize (IH (position + len (read_at source position (Z.min _CHUNK_BYTES remaining)))
      (remaining - len (read_at source position (Z.min _CHUNK_BYTES remaining))) ltac:(lia) ltac:(lia)).
    destruct (chunks_loop fuel _ _ _) as [[rest missing]|e]; [done|done].
Qed.

Lemma chunks_errors name source size : raises is_value_error (_chunks name source size).
Proof.
  unfold _chunks. pose proof (chunks_loop_fuel (Z.to_nat (f_size source)) source 0 (default (f_size source) size) ltac:(lia) ltac:(lia)) as Hok.
  destruct (chunks_loop _ _ _ _) as [[cs missing]|e]; [|done]. cbn [mbind result_bind]. apply raises_bind; [apply raises_require, value_error|done].
Qed.

(** The bytes that a copy reads: [size] of them, or all. *)
Definition extent (source : file) (size : option Z) : Z := default (f_size source) size.

Lemma chunks_exact name source size cs :
  _chunks name source size = Ok cs →
  (extent source size = 0 ∨ 0 < extent source size <= f_size source) ∧ concat cs = fread source 0 (extent source size) ∧
  Forall (λ c, len c <= _CHUNK_BYTES) cs.
Proof.
  unfold _chunks. change (default (f_size source) size) with (extent source size). generalize (extent source size) as n. intros n Hc.
  apply bind_Ok_inv in Hc as ([l missing] & Hl & Hc). apply bind_Ok_inv in Hc as ([] & Hm & Hc).
  injection Hc as <-. apply require_Ok, Z.eqb_eq in Hm. subst missing. pose proof (chunks_loop_sound _ _ _ _ _ (Z.le_refl 0) Hl) as [Hr Hs].
  split; [lia|]. destruct (decide (n = 0)) as [->|E].
  - assert (l = []) as -> by (by destruct (Z.to_nat (f_size source)); cbn in Hl; injection Hl). by rewrite fread_nil by lia.
  - destruct (chunks_loop_complete (Z.to_nat (f_size source)) source 0 n) as (cs & Hcs & Hcat & Hall); [lia..|].
    rewrite Hl in Hcs. injection Hcs as ->. done.
Qed.

Lemma chunks_complete name source size :
  0 <= extent source size <= f_size source → ∃ cs, _chunks name source size = Ok cs.
Proof.
  unfold _chunks. change (default (f_size source) size) with (extent source size). generalize (extent source size) as n. intros n Hs.
  destruct (chunks_loop_complete (Z.to_nat (f_size source)) source 0 n) as (cs & Hcs & _); [lia..|]. rewrite Hcs. by exists cs.
Qed.

Section host.
Context `{SysupdateHost} `{Ucd}.

(** Every writer yields what it writes. *)
Lemma writer_yields compression write chunks :
  dget compression _WRITERS = Some write → Forall (λ c, len c <= _CHUNK_BYTES) chunks → (write chunks).1 = concat (write chunks).2.
Proof.
  intros Hw Hc. unfold _WRITERS in Hw. cbn [dget] in Hw. case_decide; [injection Hw as <-; by rewrite write_sparse_exact|].
  case_decide; [by injection Hw as <-|done].
Qed.

(** A copy adds one new file, whose digest it returns. *)
Lemma copy_digest files source name size compression files' digest :
  _copy files source name size compression = Ok (files', digest) →
  (name ∉ dkeys files) ∧ ∃ data, files' = dset name data files ∧ digest = hex (sha256 data).
Proof.
  unfold _copy. intros Hc. apply bind_Ok_inv in Hc as ([] & Hn & Hc). apply raise_if_Ok, bool_decide_eq_false in Hn. split; [done|].
  apply bind_Ok_inv in Hc as (write & Hw & Hc). apply of_option_Ok in Hw. apply bind_Ok_inv in Hc as (src & _ & Hc).
  apply bind_Ok_inv in Hc as (cs & Hcs & Hc). apply chunks_exact in Hcs as (_ & _ & Hall). pose proof (writer_yields _ _ _ Hw Hall) as Hy.
  destruct (write cs) as [data yielded]. simpl in Hy. injection Hc as <- <-. exists data. by rewrite Hy.
Qed.

(** An uncompressed copy is exact. It succeeds exactly when the name is new, the source opens and has the bytes asked for, and
    then the new file holds the first [size] bytes of the source, or all of them, although blocks of zeros are skipped and
    not written; the digest returned is the SHA-256 of these bytes. *)
Theorem copy_exact files source name size files' digest :
  _copy files source name size (lit "none") = Ok (files', digest) ↔
  (name ∉ dkeys files) ∧ ∃ src, open_source source = Ok src ∧ (extent src size = 0 ∨ 0 < extent src size <= f_size src) ∧
    files' = dset name (fread src 0 (extent src size)) files ∧ digest = hex (sha256 (fread src 0 (extent src size))).
Proof.
  unfold _copy. change (dget (lit "none") _WRITERS) with (Some _write_sparse). split.
  - intros Hc. apply bind_Ok_inv in Hc as ([] & Hn & Hc). apply raise_if_Ok, bool_decide_eq_false in Hn. split; [done|].
    apply bind_Ok_inv in Hc as (write & Hw & Hc). injection Hw as <-. apply bind_Ok_inv in Hc as (src & Hs & Hc).
    apply bind_Ok_inv in Hc as (cs & Hcs & Hc). apply chunks_exact in Hcs as (Hx & Hcat & Hall). rewrite write_sparse_exact in Hc by done.
    injection Hc as <- <-. exists src. by rewrite <- Hcat.
  - intros (Hn & src & Hs & Hx & -> & ->). unfold dmem. rewrite bool_decide_eq_false_2 by done. cbn [raise_if mbind result_bind of_option]. rewrite Hs.
    cbn [mbind result_bind]. assert (Hcs : ∃ cs, _chunks source src size = Ok cs).
    { destruct Hx as [Hx|Hx]; [|apply chunks_complete; lia]. exists []. unfold _chunks. change (default (f_size src) size) with (extent src size).
      rewrite Hx. by destruct (Z.to_nat (f_size src)). }
    destruct Hcs as [cs Hcs]. rewrite Hcs. apply chunks_exact in Hcs as (_ & <- & Hall). cbn [mbind result_bind]. by rewrite write_sparse_exact.
Qed.
End host.

(** ** Manifests *)

(** Printable ASCII without the slash: what a file name of the payload consists of. *)
Definition plain_char (c : Z) : Prop := 32 < c < 127 ∧ c ≠ 47.
Definition plain (t : text) : Prop := Forall plain_char t.

Lemma plain_not_space c : plain_char c → isspace c = false.
Proof. intros [Hc _]. unfold isspace. lia. Qed.

Lemma linebreak_space c : isspace c = false → is_linebreak c = false.
Proof. unfold isspace, is_linebreak. lia. Qed.

Lemma plain_app a b : plain (a ++ b) ↔ plain a ∧ plain b.
Proof. apply Forall_app. Qed.

Lemma hex_char_lower z : 0 <= z < 16 → is_hex_lower (hex_digit z) = true ∧ plain_char (hex_digit z).
Proof. intros Hz. unfold is_hex_lower, ascii_digit, plain_char, hex_digit. destruct (z <? 10) eqn:E; lia. Qed.

Lemma hex_lower l : Forall (λ c, is_hex_lower c = true ∧ plain_char c) (hex l).
Proof.
  induction l as [|b l IH]; [constructor|]. rewrite hex_cons. apply Forall_app. split; [|done]. pose proof (b2Z_range b).
  repeat constructor; apply hex_char_lower; first [apply Z.mod_pos_bound; lia|split; [apply Z.div_pos; lia|apply Z.div_lt_upper_bound; lia]].
Qed.

Lemma plain_hex l : plain (hex l).
Proof. eapply Forall_impl; [apply hex_lower|]. by intros c [_ ?]. Qed.

Lemma plain_lit s : forallb (λ c, (32 <? c) && (c <? 127) && negb (c =? 47)) (lit s) = true → plain (lit s).
Proof. rewrite forallb_forall. intros Hs. apply Forall_forall. intros c Hc. apply list_elem_of_In, Hs in Hc. unfold plain_char. lia. Qed.

Lemma plain_uuid u : plain (uuid_str u).
Proof. unfold uuid_str. rewrite !plain_app. repeat split; try apply plain_hex; by apply plain_lit. Qed.

(** A digest as [hexdigest] prints it. *)
Definition digest_ok (t : text) : Prop := ∃ m, t = hex (sha256 m).

Lemma manifest_line_match digest name :
  digest_ok digest → plain name → name ≠ [] → _MANIFEST_LINE (digest ++ lit "  " ++ name) = Some (digest, name).
Proof.
  intros [m ->] Hn Hne. assert (Hl : length (hex (sha256 m)) = 64%nat).
  { pose proof (len_hex (sha256 m)) as Hh. unfold sha256 in Hh. rewrite Sha256.len_sha256 in Hh. unfold len in Hh. unfold sha256. lia. }
  unfold _MANIFEST_LINE. set (d := hex (sha256 m)) in *. assert (Hlow : forallb is_hex_lower d = true).
  { apply forallb_forall. intros c Hc%list_elem_of_In. pose proof (hex_lower (sha256 m)) as Hf. rewrite Forall_forall in Hf. by apply Hf. }
  assert (Hok : forallb (λ c, negb (c =? 47) && negb (isspace c)) name = true).
  { apply forallb_forall. intros c Hc%list_elem_of_In. unfold plain in Hn. rewrite Forall_forall in Hn. specialize (Hn c Hc).
    rewrite plain_not_space by done. destruct Hn as [_ Hn]. apply andb_true_iff. split; [by apply negb_true_iff, Z.eqb_neq|done]. }
  rewrite take_app_length' by done. replace (drop 66 (d ++ lit "  " ++ name)) with name by (rewrite drop_app_ge by lia; by rewrite Hl).
  rewrite drop_app_length' by done. rewrite Hlow, Hok, bool_decide_eq_true_2, (bool_decide_eq_false_2 (name = [])) by done. done.
Qed.

Lemma manifest_line_ok acc name digest :
  digest_ok digest → plain name → name ≠ [] → name ∉ dkeys acc →
  manifest_line acc (digest ++ lit "  " ++ name) = Ok (acc ++ [(name, digest)]).
Proof.
  intros Hd Hp Hn Hfresh. unfold manifest_line. rewrite manifest_line_match by done. cbn [of_option mbind result_bind].
  unfold dmem. rewrite bool_decide_eq_false_2 by done. cbn [raise_if mbind result_bind]. by rewrite dset_fresh.
Qed.

(** The entries that a manifest can list. *)
Definition listable (d : text * text) : Prop := digest_ok d.2 ∧ plain d.1 ∧ d.1 ≠ [].

Lemma manifest_lines acc items :
  Forall listable items → dict_ok (acc ++ items) →
  foldM manifest_line acc ((λ d, d.2 ++ lit "  " ++ d.1) <$> items) = Ok (acc ++ items).
Proof.
  intros Hf. revert acc. induction Hf as [|[name digest] items (Hd & Hp & Hn) Hf IH]; intros acc Hok; [by rewrite app_nil_r|].
  assert (Hfresh : name ∉ dkeys acc).
  { unfold dict_ok, dkeys in Hok. rewrite fmap_app, fmap_cons in Hok. apply NoDup_app in Hok as (_ & Hok & _). intros Hin. apply (Hok name Hin). by left. }
  rewrite fmap_cons. cbn [foldM fst snd]. rewrite manifest_line_ok by done. cbn [mbind result_bind].
  rewrite IH by (by rewrite <- app_assoc). by rewrite <- app_assoc.
Qed.

Lemma listable_line d : listable d → Forall (λ c, 0 <= c < 128 ∧ is_linebreak c = false) (d.2 ++ lit "  " ++ d.1).
Proof.
  intros ([m Hm] & Hp & _). rewrite Hm. assert (Hpl : ∀ t, plain t → Forall (λ c, 0 <= c < 128 ∧ is_linebreak c = false) t).
  { intros t Ht. eapply Forall_impl; [exact Ht|]. intros c Hc. split; [destruct Hc; lia|]. by apply linebreak_space, plain_not_space. }
  rewrite !Forall_app. split_and!; [apply Hpl, plain_hex|repeat constructor; done|by apply Hpl].
Qed.

Lemma checksums_lines digests : checksums digests = ((λ d, d.2 ++ lit "  " ++ d.1) <$> sort_items digests) ≫= λ l, l ++ [10].
Proof.
  unfold checksums. induction (sort_items digests) as [|d l IH]; [done|]. rewrite fmap_cons, !bind_cons, IH. by rewrite <- !app_assoc.
Qed.

Lemma checksums_ascii digests : Forall listable digests → Forall (λ c, 0 <= c < 128) (checksums digests).
Proof.
  intros Hf. rewrite <- (stable_sort_perm (λ a b, negb (text_leb b.1 a.1)) digests) in Hf. unfold checksums, sort_items.
  induction Hf as [|d l Hd Hf IH]; [constructor|]. rewrite bind_cons. apply Forall_app. split; [|done].
  pose proof (listable_line d Hd) as Hl. rewrite !app_assoc. apply Forall_app. split; [|by repeat constructor].
  eapply Forall_impl; [rewrite <- app_assoc; exact Hl|]. by intros c [? _].
Qed.

(** The manifest that the payload writes reads back. *)
Lemma manifest_round_trip digests :
  dict_ok digests → Forall listable digests → digests ≠ [] →
  manifest_files (Z2b <$> checksums digests) = Ok (sort_items digests).
Proof.
  intros Hok Hf Hne. assert (Hp : sort_items digests ≡ₚ digests) by apply stable_sort_perm.
  assert (Hf' : Forall listable (sort_items digests)) by (by rewrite Hp).
  unfold manifest_files. rewrite ascii_round_trip by (by apply checksums_ascii). cbn [of_option mbind result_bind].
  rewrite checksums_lines, splitlines_lines.
  - rewrite (manifest_lines [] (sort_items digests)); [|done|unfold dict_ok, dkeys in *; simpl; by rewrite Hp]. cbn [app mbind result_bind].
    rewrite bool_decide_eq_false_2; [done|]. intros Hs. rewrite Hs in Hp. apply Permutation_nil_l in Hp. done.
  - apply Forall_fmap. eapply Forall_impl; [exact Hf'|]. intros d Hd. apply listable_line in Hd. eapply Forall_impl; [exact Hd|]. by intros c [_ ?].
Qed.

(** ** The payload's checksums are those of its files *)

Section payload.
Context `{SysupdateHost} `{Ucd}.

(** The digests so far are those of the files they name. *)
Definition authentic (st : dict text bytes * dict text text) : Prop :=
  dict_ok st.2 ∧ ∀ name digest, dget name st.2 = Some digest → ∃ data, dget name st.1 = Some data ∧ digest = hex (sha256 data).

Lemma copy_step_authentic st f st' :
  authentic st → copy_step st f = Ok st' → authentic st' ∧ dkeys st'.2 = dkeys st.2 ++ [f.1.1.1].
Proof.
  destruct st as [files digests], f as [[[name source] size] method]. intros [Hok Ha] Hc. cbn [copy_step] in Hc.
  apply bind_Ok_inv in Hc as ([files' digest] & Hcopy & Hc). injection Hc as <-. apply copy_digest in Hcopy as (Hnew & data & -> & ->).
  cbn [fst snd] in *. assert (Hfresh : name ∉ dkeys digests).
  { intros Hin. destruct (dget name digests) as [d|] eqn:E; [|by apply dget_None in E]. destruct (Ha _ _ E) as (x & Hx & _). apply Hnew.
    apply dget_Some_elem in Hx. by apply (list_elem_of_fmap_2 fst) in Hx. }
  split; [split|].
  - by apply dict_ok_dset.
  - intros n d. cbn [fst snd]. rewrite !dget_dset. case_decide; [intros [= <-]; eauto|apply Ha].
  - cbn. rewrite dset_fresh by done. unfold dkeys. by rewrite fmap_app.
Qed.

Lemma copies_authentic plan st st' :
  authentic st → foldM copy_step st plan = Ok st' → authentic st' ∧ dkeys st'.2 = dkeys st.2 ++ ((λ f : text * text * option Z * text, f.1.1.1) <$> plan).
Proof.
  revert st. induction plan as [|f plan IH]; intros st Ha Hf; cbn [foldM] in Hf; [injection Hf as <-; by rewrite app_nil_r|].
  apply bind_Ok_inv in Hf as (st1 & H1 & Hf). destruct (copy_step_authentic _ _ _ Ha H1) as [Ha1 Hk1].
  destruct (IH _ Ha1 Hf) as [Ha' Hk']. split; [done|]. by rewrite Hk', Hk1, <- app_assoc.
Qed.

Lemma version_plain v v' : validate_image_version v = Ok v' → plain v'.
Proof.
  unfold validate_image_version. intros Hv. apply bind_Ok_inv in Hv as ([] & Hv & Heq). injection Heq as <-. apply raise_if_Ok, orb_false_iff in Hv as [_ Hv].
  apply negb_false_iff in Hv. rewrite forallb_forall in Hv. apply Forall_forall. intros c Hc. apply list_elem_of_In, Hv in Hc.
  unfold is_version_char, ascii_lower, ascii_upper, ascii_digit in Hc. unfold plain_char. lia.
Qed.

Lemma read_version_plain path image_id v : read_image_version path image_id = Ok v → plain v.
Proof.
  unfold read_image_version. intros Hv. apply recast_Ok in Hv. apply bind_Ok_inv in Hv as (data & _ & Hv). apply bind_Ok_inv in Hv as (t & _ & Hv).
  apply bind_Ok_inv in Hv as (w & Hw & Hv). apply bind_Ok_inv in Hv as ([] & _ & Hv). injection Hv as <-. by eapply version_plain.
Qed.

Lemma suffix_plain compression suffix : dget compression COMPRESSION_SUFFIXES = Some suffix → plain suffix.
Proof.
  unfold COMPRESSION_SUFFIXES. cbn [dget]. case_decide; [intros [= <-]; constructor|]. case_decide; [|done]. intros [= <-]. by apply plain_lit.
Qed.

(** A name of the payload: plain, and with the underscore that the checksum file's name lacks. *)
Definition payload_name (name : text) : Prop := plain name ∧ 95 ∈ name.

Lemma payload_names image_id version suffix u v :
  plain image_id → plain version → plain suffix →
  Forall payload_name [root_name image_id version (uuid_str u) ++ suffix; verity_name image_id version (uuid_str v) ++ suffix; uki_name image_id version].
Proof.
  intros Hi Hv Hs. unfold payload_name, root_name, verity_name, uki_name. pose proof (plain_uuid u). pose proof (plain_uuid v).
  assert (Hu : 95 ∈ lit "_") by (by left). repeat constructor; rewrite ?plain_app; repeat split; try done; try (by apply plain_lit);
    rewrite ?elem_of_app; tauto.
Qed.

Lemma payload_name_listable name : payload_name name → name ≠ [] ∧ name ≠ lit "SHA256SUMS".
Proof. intros [_ Hu]. split; intros ->; [by apply elem_of_nil in Hu|]. assert (Hn : 95 ∉ lit "SHA256SUMS") by (apply (bool_decide_unpack _); by vm_compute). done. Qed.

(** What the last step of [payload] writes: the checksums of the three files, under the names of the payload. *)
Lemma payload_inv args files out :
  payload args files = Ok out → plain (a_image_id args) → (∀ v, a_image_version args = Some v → plain v) →
  ∃ files' digests, authentic (files', digests) ∧ length digests = 3%nat ∧ Forall payload_name (dkeys digests) ∧
    out = dset (lit "SHA256SUMS") (Z2b <$> checksums digests) files'.
Proof.
  unfold payload. intros Hp Hid Hv. apply bind_Ok_inv in Hp as (version & Hver & Hp).
  assert (Hvp : plain version) by (destruct (a_image_version_file args); [by eapply read_version_plain|apply of_option_Ok in Hver; auto]).
  apply bind_Ok_inv in Hp as (uki & _ & Hp). apply bind_Ok_inv in Hp as (hash & _ & Hp). apply bind_Ok_inv in Hp as ([ru vu] & Huu & Hp).
  unfold verity_partition_uuids in Huu. apply bind_Ok_inv in Huu as (digest & _ & Huu). apply bind_Ok_inv in Huu as ([] & _ & Huu). injection Huu as <- <-.
  apply bind_Ok_inv in Hp as (partitions & _ & Hp). apply bind_Ok_inv in Hp as ([] & _ & Hp). apply bind_Ok_inv in Hp as ([rs vs] & _ & Hp).
  apply bind_Ok_inv in Hp as (suffix & Hsuf & Hp). apply of_option_Ok, suffix_plain in Hsuf. apply bind_Ok_inv in Hp as ([files' digests] & Hf & Hp).
  apply bind_Ok_inv in Hp as ([] & _ & Hp). injection Hp as <-. apply copies_authentic in Hf as [Ha Hk]; [|split; [constructor|done]].
  cbn [snd fst] in Hk. exists files', digests. split; [done|]. rewrite Hk. split_and!; [|exact (payload_names _ _ _ _ _ Hid Hvp Hsuf)|done].
  apply (f_equal length) in Hk. unfold dkeys in Hk. rewrite length_fmap in Hk. exact Hk.
Qed.

(** Every payload comes with authentic checksums. When [payload] succeeds for an image id and version of printable ASCII
    without slashes, its SHA256SUMS is accepted by [manifest_files], lists exactly three files, and each digest listed is the
    SHA-256 of the contents that the output directory has under that name, compressed or not. *)
Theorem payload_checksums args files out :
  payload args files = Ok out → plain (a_image_id args) → (∀ v, a_image_version args = Some v → plain v) →
  ∃ manifest sums, dget (lit "SHA256SUMS") out = Some manifest ∧ manifest_files manifest = Ok sums ∧ length sums = 3%nat ∧
    ∀ name digest, dget name sums = Some digest → ∃ data, dget name out = Some data ∧ digest = hex (sha256 data).
Proof.
  intros Hp Hid Hv. destruct (payload_inv _ _ _ Hp Hid Hv) as (files' & digests & [Hok Ha] & Hlen & Hnames & ->). cbn [fst snd] in *.
  assert (Hperm : sort_items digests ≡ₚ digests) by apply stable_sort_perm. rewrite Forall_forall in Hnames.
  exists (Z2b <$> checksums digests), (sort_items digests). split_and!.
  - by rewrite dget_dset, decide_True.
  - apply manifest_round_trip; [done| |by intros ->]. apply Forall_forall. intros [name digest] Hin.
    apply (list_elem_of_fmap_2 fst) in Hin as Hname. apply Hnames in Hname. destruct (payload_name_listable _ Hname). destruct Hname.
    apply elem_dget, Ha in Hin as (data & _ & ->); [|done]. split; [by eexists|done].
  - by rewrite Hperm.
  - intros name digest Hd. apply dget_Some_elem in Hd. rewrite Hperm in Hd. apply (list_elem_of_fmap_2 fst) in Hd as Hname. apply Hnames in Hname.
    destruct (payload_name_listable _ Hname). apply elem_dget, Ha in Hd as (data & Hdata & ->); [|done]. exists data.
    by rewrite dget_dset, decide_False.
Qed.
End payload.

(** ** Signatures *)

Section signing.
Context `{Hashlib} `{Ucd}.
Implicit Types (sqv : bytes → bytes → bytes → option text).

Lemma jitem_Ok j key v : jitem j key = Ok v ↔ ∃ items, j = JObj items ∧ dget (lit key) items = Some v.
Proof.
  destruct j; simpl; try (split; [done|by intros (? & ? & _)]). split.
  - intros Hd%of_option_Ok. eauto.
  - intros (items' & [= <-] & ->). done.
Qed.

(** What a checked request binds: the manifest's digest and the fingerprint of the certificate. *)
Definition binds (request : json) (manifest : bytes) (f : text) : Prop :=
  ∃ items, request = JObj items ∧ jget (lit "format_version") items = JStr FORMAT_VERSION ∧ jget (lit "context") items = JStr CONTEXT ∧
    dget (lit "manifest_sha256") items = Some (JStr (hex (sha256 manifest))) ∧ dget (lit "signer_fingerprint") items = Some (JStr f).

Lemma checked_request_iff request manifest public_key r m cert :
  _checked_request request manifest public_key = Ok (r, m, cert) ↔
  r = request ∧ m = manifest ∧ ∃ f, certificate public_key = Ok (cert, f) ∧ binds request manifest f.
Proof.
  unfold _checked_request, binds. split.
  - intros Hc. apply bind_Ok_inv in Hc as (v & Hv & Hc). destruct request as [| | | | | |items]; try done. cbn [jget_attr] in Hv. injection Hv as <-.
    apply bind_Ok_inv in Hc as (c & Hcx & Hc). injection Hcx as <-. apply bind_Ok_inv in Hc as ([] & Hfmt & Hc).
    apply require_Ok, andb_true_iff in Hfmt as [Hfmt Hctx]. apply is_str_iff in Hfmt, Hctx.
    apply bind_Ok_inv in Hc as (d & Hd & Hc). apply bind_Ok_inv in Hc as ([] & Hsum & Hc). apply require_Ok, is_str_iff in Hsum. subst d.
    apply bind_Ok_inv in Hc as ([cert' f] & Hcert & Hc). apply bind_Ok_inv in Hc as (s & Hs & Hc). apply bind_Ok_inv in Hc as ([] & Hsig & Hc).
    apply require_Ok, is_str_iff in Hsig. subst s. injection Hc as <- <- <-. apply of_option_Ok in Hd, Hs. eauto 12.
  - intros (-> & -> & f & Hcert & items & -> & Hfmt & Hctx & Hsum & Hsig). cbn [jget_attr mbind result_bind]. rewrite Hfmt, Hctx. cbn [jitem].
    rewrite Hsum, Hsig. unfold is_str. rewrite !bool_decide_eq_true_2 by done. cbn. rewrite bool_decide_eq_true_2 by done. cbn. rewrite Hcert. cbn.
    by rewrite bool_decide_eq_true_2.
Qed.

(** The candidates before the accepted one: readable, and no signature in them verifies. *)
Definition rejected sqv (cert manifest : bytes) (candidate : result bytes) : Prop :=
  ∃ data, candidate = Ok data ∧ ∀ signature, detached_signature data = Ok signature → sqv cert signature manifest ≠ None.

Lemma verify_loop_Ok sqv cert manifest candidates signature :
  verify_loop sqv cert manifest candidates = Ok signature →
  ∃ before data after, candidates = before ++ Ok data :: after ∧ Forall (rejected sqv cert manifest) before ∧
    detached_signature data = Ok signature ∧ sqv cert signature manifest = None.
Proof.
  induction candidates as [|c candidates IH]; [done|]. cbn [verify_loop]. intros Hv. apply bind_Ok_inv in Hv as (data & -> & Hv).
  assert (Hskip : verify_loop sqv cert manifest candidates = Ok signature → rejected sqv cert manifest (Ok data) →
    ∃ before d after, Ok data :: candidates = before ++ Ok d :: after ∧ Forall (rejected sqv cert manifest) before ∧
      detached_signature d = Ok signature ∧ sqv cert signature manifest = None).
  { intros Hrec Hrej. destruct (IH Hrec) as (before & d & after & -> & Hb & ? & ?). exists (Ok data :: before), d, after.
    split; [done|]. split; [by constructor|done]. }
  destruct (detached_signature data) as [s|e] eqn:Ed.
  - destruct (sqv cert s manifest) as [message|] eqn:Es.
    + apply Hskip; [done|]. exists data. split; [done|]. intros s' Hs'. rewrite Ed in Hs'. injection Hs' as <-. by rewrite Es.
    + injection Hv as <-. exists [], data, candidates. split; [done|]. split; [constructor|done].
  - destruct e; try done. apply Hskip; [done|]. exists data. split; [done|]. intros s' Hs'. by rewrite Ed in Hs'.
Qed.

(** The signature that [verify] imports is bound to the request. The request names the SHA-256 of the manifest and the
    fingerprint of the public certificate, the signature is the first candidate that holds exactly one signature packet which
    sqv accepts for that certificate and manifest, and every candidate before it was readable and was not accepted. *)
Theorem verify_sound sqv request manifest public_key candidates signature :
  verify sqv request manifest public_key candidates = Ok signature →
  ∃ cert f body before data after, certificate public_key = Ok (cert, f) ∧ binds request manifest f ∧
    candidates = before ++ Ok data :: after ∧ Forall (rejected sqv cert manifest) before ∧
    detached_signature data = Ok signature ∧ framed [(TAG_SIGNATURE, body)] signature ∧ sqv cert signature manifest = None.
Proof.
  unfold verify. intros Hv. apply bind_Ok_inv in Hv as ([[r m] cert] & Hr & Hv). apply checked_request_iff in Hr as (-> & -> & f & Hcert & Hb).
  apply verify_loop_Ok in Hv as (before & data & after & -> & Hrej & Hd & Hs). destruct (detached_signature_framed _ _ Hd) as [body Hf].
  exists cert, f, body, before, data, after. done.
Qed.

(** What [json.loads] returns for a printed value. *)
Fixpoint decoded (v : jv) : json :=
  match v with
  | VStr t => JStr t
  | VInt z => JInt z
  | VBool b => JBool b
  | VList l => JList (List.map decoded l)
  | VObj items => JObj (List.map (λ i, (fst i, decoded (snd i))) items)
  end.

Lemma request_binds manifest files f : binds (decoded (sort_keys (signing_request manifest files f))) manifest f.
Proof. eexists. split; [reflexivity|]. by repeat split. Qed.

(** A request that [create_request] writes is fulfilled by any signature that sqv accepts: [verify] of the request, the
    manifest and the certificate that were written, with a candidate that holds one signature packet, returns this
    signature. *)
Theorem signing_round_trip sqv manifest public_key m cert request data signature :
  create_request manifest public_key = Ok (m, cert, request) →
  detached_signature data = Ok signature → sqv cert signature manifest = None →
  verify sqv (decoded (sort_keys request)) m cert [Ok data] = Ok signature.
Proof.
  unfold create_request. intros Hc Hd Hs. apply bind_Ok_inv in Hc as (files & _ & Hc). apply bind_Ok_inv in Hc as ([cert' f] & Hcert & Hc).
  injection Hc as <- <- <-. unfold verify. rewrite (proj2 (checked_request_iff _ _ _ _ _ _) (conj eq_refl (conj eq_refl
    (ex_intro _ f (conj (certificate_normalized _ _ _ Hcert) (request_binds manifest files f)))))). cbn [mbind result_bind verify_loop].
  by rewrite Hd, Hs.
Qed.
End signing.

(** ** A concrete payload *)

Module UpdateDemo.
Definition digest : bytes := zeros 31 ++ [x01].
Definition root_uuid : text := uuid_str (slice 0 16 digest).
Definition verity_uuid : text := uuid_str (slice_from 16 digest).
Definition entry (type_guid label uuid : text) : json :=
  JObj [(lit "type_guid", JStr type_guid); (lit "label", JStr label); (lit "uuid", JStr uuid)].
Definition partitions : json :=
  JObj [(lit "partitions", JList [entry ROOT_X86_64 (lit "img_1.0") root_uuid; entry ROOT_X86_64_VERITY (lit "img_1.0_verity") verity_uuid])].
Definition verity : json :=
  JObj [(lit "data_blocks", JInt 2); (lit "data_block_size", JInt 4); (lit "tree_offset", JInt 1); (lit "tree_size", JInt 3)].

(** The version, the root hash and the metadata; the sources have some bytes more than the metadata covers. *)
Definition host : SysupdateHost := {|
  read_bytes := λ p, if bool_decide (p = lit "version") then Ok (blit "1.0" ++ [x0a]) else
    if bool_decide (p = lit "hash") then Ok (Z2b <$> hex digest) else
    if bool_decide (p = lit "partitions") then Ok (blit "p") else if bool_decide (p = lit "verity") then Ok (blit "v") else Err OSError;
  open_source := λ p, if bool_decide (p = lit "root") then Ok (file_of_bytes (blit "rootroot..")) else
    if bool_decide (p = lit "tree") then Ok (file_of_bytes (zeros 9)) else Ok (file_of_bytes (blit "uki"));
  json_loads := λ t, Ok (if bool_decide (t = lit "p") then partitions else verity);
  xz_state := unit; xz_start := tt; xz_compress := λ _ c, (c, tt); xz_flush := λ _, [] |}.

Definition args : payload_args := {|
  a_image_id := lit "img"; a_image_version := None; a_image_version_file := Some (lit "version"); a_root_hash := lit "hash";
  a_partition_metadata := lit "partitions"; a_root_image := lit "root"; a_verity_image := lit "tree"; a_verity_metadata := lit "verity";
  a_uki := lit "uki"; a_signed_uki := None; a_signing_request := None; a_compression := lit "none" |}.

(** A certificate, a signature and a manifest. *)
Definition cert : bytes := Eval vm_compute in match mapM (λ p, packet p.1 p.2) PgpDemo.parts with Ok fs => concat fs | Err _ => [] end.
Definition signature : bytes := Eval vm_compute in match packet TAG_SIGNATURE (blit "signature") with Ok f => f | Err _ => [] end.
Definition manifest : bytes := Eval vm_compute in Z2b <$> checksums [(lit "img_1.0.efi", hex (sha256 []))].
Definition accepts (c s m : bytes) : option text :=
  if bool_decide (c = cert ∧ s = signature ∧ m = manifest) then None else Some (lit "no").
End UpdateDemo.

Section demo.
#[local] Existing Instances UpdateDemo.host ascii_ucd.

Lemma payload_checksums_witness :
  ∃ out, payload UpdateDemo.args [] = Ok out ∧
    ∃ manifest sums, dget (lit "SHA256SUMS") out = Some manifest ∧ manifest_files manifest = Ok sums ∧ length sums = 3%nat ∧
      ∀ name digest, dget name sums = Some digest → ∃ data, dget name out = Some data ∧ digest = hex (sha256 data).
Proof.
  destruct (payload UpdateDemo.args []) as [out|e] eqn:Hp.
  - exists out. split; [reflexivity|]. apply (payload_checksums UpdateDemo.args [] out Hp); [by apply plain_lit|discriminate].
  - exfalso. assert (Hok : is_Ok (payload UpdateDemo.args []) = true) by (by vm_compute). by rewrite Hp in Hok.
Defined.

Lemma signing_round_trip_witness :
  ∃ m c request, create_request UpdateDemo.manifest UpdateDemo.cert = Ok (m, c, request) ∧
    verify UpdateDemo.accepts (decoded (sort_keys request)) m c [Ok UpdateDemo.signature] = Ok UpdateDemo.signature.
Proof.
  destruct (create_request UpdateDemo.manifest UpdateDemo.cert) as [[[m c] request]|e] eqn:Hc.
  - exists m, c, request. split; [reflexivity|]. assert (Hm : (λ r, r.1.2) <$> create_request UpdateDemo.manifest UpdateDemo.cert = Ok UpdateDemo.cert) by (by vm_compute).
    rewrite Hc in Hm. injection Hm as ->.
    apply (signing_round_trip UpdateDemo.accepts UpdateDemo.manifest UpdateDemo.cert m UpdateDemo.cert request UpdateDemo.signature UpdateDemo.signature Hc); by vm_compute.
  - exfalso. assert (Hok : is_Ok (create_request UpdateDemo.manifest UpdateDemo.cert) = true) by (by vm_compute). by rewrite Hc in Hok.
Defined.

Lemma verify_sound_witness :
  ∃ request signature cert f, verify UpdateDemo.accepts request UpdateDemo.manifest UpdateDemo.cert [Ok UpdateDemo.cert; Ok UpdateDemo.signature] = Ok signature ∧
    certificate UpdateDemo.cert = Ok (cert, f) ∧ binds request UpdateDemo.manifest f ∧ UpdateDemo.accepts cert signature UpdateDemo.manifest = None.
Proof.
  set (request := match create_request UpdateDemo.manifest UpdateDemo.cert with Ok (_, r) => decoded (sort_keys r) | Err _ => JNull end).
  assert (Hv : verify UpdateDemo.accepts request UpdateDemo.manifest UpdateDemo.cert [Ok UpdateDemo.cert; Ok UpdateDemo.signature] = Ok UpdateDemo.signature) by (by vm_compute).
  destruct (verify_sound UpdateDemo.accepts request _ _ _ _ Hv) as (cert & f & body & before & data & after & Hc & Hb & _ & _ & _ & _ & Hs).
  exists request, UpdateDemo.signature, cert, f. split; [exact Hv|]. split; [exact Hc|]. split; [exact Hb|exact Hs].
Defined.
End demo.
