(* ===== verification/FileTree.v ===== *)
(** * A POSIX file tree

    The directory tree that the staging and extraction tools write: nodes by physical path, files as inodes so that hard
    links share them, symbolic links resolved as the Linux kernel does (at most 40 of them, [..] at the parent of the
    directory reached). Programs over it are [io] computations: they keep the tree they leave when they raise. [triple]
    specifies a computation on its normal and on its exceptional exits. Permission checks, owners, timestamps and other
    processes are outside the model. *)
From S2P Require Import Prelude Bytes PyText PosixPath.

(** ** The tree *)

Inductive node :=
  | Dir (mode : Z)
  | Reg (inode : N)
  | Sym (target : text)
  | Special.

#[export] Instance node_eq_dec : EqDecision node.
Proof. solve_decision. Defined.

Record fs := {
  tree : gmap (list text) node;
  inodes : gmap N (Z * bytes);  (** mode and contents *)
  cwd : list text;
  umask : Z;
}.

Definition set_tree (f : gmap (list text) node → gmap (list text) node) (s : fs) : fs :=
  {| tree := f (tree s); inodes := inodes s; cwd := cwd s; umask := umask s |}.
Definition set_inodes (f : gmap N (Z * bytes) → gmap N (Z * bytes)) (s : fs) : fs :=
  {| tree := tree s; inodes := f (inodes s); cwd := cwd s; umask := umask s |}.

(** ** Path resolution *)

(** Where a path leads: an existing node, or a name that is free in an existing directory. *)
Inductive found :=
  | At (p : list text) (n : node)
  | Free (parent : list text) (name : text).

Definition is_nil {A} (l : list A) : bool := match l with [] => true | _ => false end.

(** Resolves [comps] from the directory [cur]; [follow] tells whether a symbolic link at the end is followed. *)
Fixpoint walk (s : fs) (follow : bool) (budget : nat) : list text → list text → result found :=
  fix go (cur comps : list text) : result found :=
    match comps with
    | [] => of_option OSError (At cur <$> tree s !! cur)
    | c :: rest =>
        if bool_decide (c = []) || bool_decide (c = dot) then go cur rest
        else if bool_decide (c = dotdot) then go (take (length cur - 1) cur) rest
        else match tree s !! (cur ++ [c]) with
             | None => if is_nil rest then Ok (Free cur c) else Err OSError
             | Some (Dir _) => go (cur ++ [c]) rest
             | Some (Sym t) =>
                 if is_nil rest && negb follow then Ok (At (cur ++ [c]) (Sym t))
                 else match budget with
                      | O => Err OSError
                      | S budget =>
                          walk s follow budget (if startswith t [47] then [] else cur) (split_on 47 t ++ rest)
                      end
             | Some n => if is_nil rest then Ok (At (cur ++ [c]) n) else Err OSError
             end
    end.

(** The number of symbolic links Linux follows before it gives up. *)
Definition MAXSYMLINKS : nat := 40.

Definition start (s : fs) (p : text) : list text := if startswith p [47] then [] else cwd s.

Definition locate (follow : bool) (s : fs) (p : text) : result found :=
  if bool_decide (p = []) then Err OSError else walk s follow MAXSYMLINKS (start s p) (split_on 47 p).

(** ** Computations that change the tree *)

Definition io (A : Type) : Type := fs → result A * fs.

#[export] Instance io_ret : MRet io := λ A a s, (Ok a, s).
#[export] Instance io_bind : MBind io := λ A B f m s,
  match m s with
  | (Ok a, s') => f a s'
  | (Err e, s') => (Err e, s')
  end.

Definition raise {A} (e : exn) : io A := λ s, (Err e, s).
Definition lift {A} (r : result A) : io A := λ s, (r, s).
Definition gets {A} (f : fs → A) : io A := λ s, (Ok (f s), s).
Definition modify (f : fs → fs) : io unit := λ s, (Ok tt, f s).

(** A primitive: the result computed from the tree, or the exception with the tree as it was. *)
Definition update (f : fs → result fs) : io unit := λ s,
  match f s with Ok s' => (Ok tt, s') | Err e => (Err e, s) end.

(** [for x in l: f(x)], and a loop that also threads local state. *)
Fixpoint for_each {A} (l : list A) (f : A → io unit) : io unit :=
  match l with
  | [] => mret tt
  | x :: l => f x ≫= λ _, for_each l f
  end.
Fixpoint fold_io {A S} (f : S → A → io S) (st : S) (l : list A) : io S :=
  match l with
  | [] => mret st
  | x :: l => f st x ≫= λ st, fold_io f st l
  end.

Definition io_when (b : bool) (m : io unit) : io unit := if b then m else mret tt.

(** ** System calls *)

Definition is_at (r : result found) : bool := match r with Ok (At _ _) => true | _ => false end.
Definition os_lexists (p : text) : io bool := gets (λ s, is_at (locate false s p)).
Definition os_exists (p : text) : io bool := gets (λ s, is_at (locate true s p)).
Definition os_isdir (p : text) : io bool := gets (λ s, match locate true s p with Ok (At _ (Dir _)) => true | _ => false end).
Definition os_isfile (p : text) : io bool := gets (λ s, match locate true s p with Ok (At _ (Reg _)) => true | _ => false end).
Definition os_islink (p : text) : io bool := gets (λ s, match locate false s p with Ok (At _ (Sym _)) => true | _ => false end).

(** [stat.S_ISDIR(os.lstat(p).st_mode)]. *)
Definition lstat_isdir (p : text) : io bool := λ s,
  match locate false s p with
  | Ok (At _ (Dir _)) => (Ok true, s)
  | Ok (At _ _) => (Ok false, s)
  | _ => (Err OSError, s)
  end.

Definition with_umask (s : fs) (mode : Z) : Z := Z.land mode (Z.lnot (umask s)).

Definition os_mkdir (p : text) : io unit := update (λ s,
  f ← locate false s p;
  match f with
  | Free d c => Ok (set_tree <[d ++ [c] := Dir (with_umask s 511)]> s)
  | At _ _ => Err OSError
  end).

Definition os_chmod (p : text) (mode : Z) : io unit := update (λ s,
  f ← locate true s p;
  match f with
  | At q (Dir _) => Ok (set_tree <[q := Dir mode]> s)
  | At q (Reg i) => Ok (set_inodes (alter (λ x, (mode, x.2)) i) s)
  | At _ _ => Ok s
  | Free _ _ => Err OSError
  end).

Definition fresh_inode (s : fs) : N := fresh (map_to_list (inodes s)).*1.

(** [open(p, "wb")], the writes and the close: truncates a file that exists. *)
Definition write_file (p : text) (data : bytes) : io unit := update (λ s,
  f ← locate true s p;
  match f with
  | At _ (Reg i) => Ok (set_inodes (alter (λ x, (x.1, data)) i) s)
  | At _ Special => Ok s
  | At _ _ => Err OSError
  | Free d c =>
      let i := fresh_inode s in
      Ok (set_inodes <[i := (with_umask s 438, data)]> (set_tree <[d ++ [c] := Reg i]> s))
  end).

(** The contents of a regular file. *)
Definition file_bytes (s : fs) (p : text) : result bytes :=
  f ← locate true s p;
  match f with
  | At _ (Reg i) => of_option OSError (snd <$> inodes s !! i)
  | _ => Err OSError
  end.
Definition read_file (p : text) : io bytes := λ s, (file_bytes s p, s).

(** [os.link(src, dst)]: like link(2) on Linux it does not follow a symbolic link at [src]. *)
Definition os_link (src dst : text) : io unit := update (λ s,
  f ← locate false s src;
  g ← locate false s dst;
  match f, g with
  | At _ (Dir _), _ => Err OSError
  | At _ n, Free d c => Ok (set_tree <[d ++ [c] := n]> s)
  | _, _ => Err OSError
  end).

Definition os_symlink (target dst : text) : io unit := update (λ s,
  g ← locate false s dst;
  match g with
  | Free d c => if bool_decide (target = []) then Err OSError else Ok (set_tree <[d ++ [c] := Sym target]> s)
  | At _ _ => Err OSError
  end).

Definition os_unlink (p : text) : io unit := update (λ s,
  f ← locate false s p;
  match f with
  | At _ (Dir _) => Err OSError
  | At q _ => Ok (set_tree (delete q) s)
  | Free _ _ => Err OSError
  end).

(** The names in the directory [d], in the order of the directory. *)
Definition entry_name (d p : list text) : option text :=
  match last p with
  | Some c => if bool_decide (take (length p - 1) p = d) then Some c else None
  | None => None
  end.
Definition entries_of (s : fs) (d : list text) : list text := omap (entry_name d) (map_to_list (tree s)).*1.

Definition os_rmdir (p : text) : io unit := update (λ s,
  f ← locate false s p;
  match f with
  | At q (Dir _) => if is_nil (entries_of s q) && negb (is_nil q) then Ok (set_tree (delete q) s) else Err OSError
  | _ => Err OSError
  end).

(** [os.listdir(p)]. *)
Definition os_listdir (p : text) : io (list text) := λ s,
  match locate true s p with
  | Ok (At d (Dir _)) => (Ok (entries_of s d), s)
  | _ => (Err OSError, s)
  end.

(** [os.makedirs(p, exist_ok=True)] for an absolute path. *)
Definition os_makedirs (p : text) : io unit :=
  let comps := List.filter (λ c, negb (bool_decide (c = []))) (split_on 47 p) in
  for_each (seq 1 (length comps)) (λ i,
    let q := abs (take i comps) in
    present ← os_exists q;
    if (present : bool) then
      directory ← os_isdir q;
      if (directory : bool) then mret tt else raise OSError
    else os_mkdir q).

(** [os.walk(top)] whose caller sorts the names of the directories in place: the directory, its subdirectories and its
    other names. A link to a directory is listed with the subdirectories and is not entered. Directories that cannot be
    read are left out. *)
Fixpoint os_walk (fuel : nat) (s : fs) (top : text) : list (text * list text * list text) :=
  match fuel with
  | O => []
  | S fuel =>
      match locate true s top with
      | Ok (At d (Dir _)) =>
          let is_dir name := match locate true s (os_join top name) with Ok (At _ (Dir _)) => true | _ => false end in
          let is_link name := match locate false s (os_join top name) with Ok (At _ (Sym _)) => true | _ => false end in
          let names := entries_of s d in
          let dirnames := sorted_texts (List.filter is_dir names) in
          (top, dirnames, List.filter (λ n, negb (is_dir n)) names)
            :: (List.filter (λ n, negb (is_link n)) dirnames ≫= λ name, os_walk fuel s (os_join top name))
      | _ => []
      end
  end.

(** [os.walk(top, topdown=False)] whose caller changes neither names nor links: the same records, in the order of the
    directory and each directory after those below it. *)
Fixpoint os_walk_up (fuel : nat) (s : fs) (top : text) : list (text * list text * list text) :=
  match fuel with
  | O => []
  | S fuel =>
      match locate true s top with
      | Ok (At d (Dir _)) =>
          let is_dir name := match locate true s (os_join top name) with Ok (At _ (Dir _)) => true | _ => false end in
          let is_link name := match locate false s (os_join top name) with Ok (At _ (Sym _)) => true | _ => false end in
          let names := entries_of s d in
          let dirnames := List.filter is_dir names in
          (List.filter (λ n, negb (is_link n)) dirnames ≫= λ name, os_walk_up fuel s (os_join top name))
            ++ [(top, dirnames, List.filter (λ n, negb (is_dir n)) names)]
      | _ => []
      end
  end.

(** [path.mkdir(exist_ok=True)], and with [parents=True]: when the parent is missing it is made first, also with its
    parents. A parent that is no directory takes the same way and ends in the same [OSError]. *)
Definition path_mkdir (p : pure_path) : io unit := λ s,
  match locate false s (pp_str p) with
  | Ok (Free _ _) => os_mkdir (pp_str p) s
  | Ok (At _ _) => (directory ← os_isdir (pp_str p); if (directory : bool) then mret tt else raise OSError) s
  | Err e => raise OSError s
  end.
Fixpoint path_mkdir_parents (n : nat) (p : pure_path) : io unit := λ s,
  match locate false s (pp_str p), n with
  | Err _, S n => (path_mkdir_parents n (pp_parent p);; path_mkdir p) s
  | _, _ => path_mkdir p s
  end.
Definition path_makedirs (p : pure_path) : io unit := path_mkdir_parents (length (pp_tail p)) p.

(** [shutil.copyfile(src, dst)]: refuses to copy a file onto itself. *)
Definition copyfile (src dst : text) : io unit := λ s,
  match locate true s src, locate true s dst with
  | Ok (At _ (Reg i)), Ok (At _ (Reg j)) => if bool_decide (i = j) then (Err OSError, s) else (data ← read_file src; write_file dst data) s
  | _, _ => (data ← read_file src; write_file dst data) s
  end.

(** A directory lies at most as deep as there are nodes. *)
Definition walk_fuel (s : fs) : nat := S (size (tree s)).

(** ** Specifications *)

(** From every state in [P], [m] either returns a value and a state in [Q] or raises and leaves a state in [E]. *)
Definition triple {A} (P : fs → Prop) (m : io A) (Q : A → fs → Prop) (E : exn → fs → Prop) : Prop :=
  ∀ s, P s → match m s with (Ok a, s') => Q a s' | (Err e, s') => E e s' end.

(** [m] keeps [I], whether it returns or raises. *)
Definition keeps {A} (I : fs → Prop) (m : io A) : Prop := triple I m (λ _, I) (λ _, I).

Section triples.
  Context {A B : Type}.
  Implicit Types (P I : fs → Prop) (E : exn → fs → Prop).

Lemma triple_ret P (a : A) (Q : A → fs → Prop) E : (∀ s, P s → Q a s) → triple P (mret a) Q E.
Proof. intros H s Hs. by apply H. Qed.

Lemma triple_bind P (m : io A) (f : A → io B) R Q E :
  triple P m R E → (∀ a, triple (R a) (f a) Q E) → triple P (m ≫= f) Q E.
Proof.
  intros Hm Hf s Hs. specialize (Hm s Hs). unfold mbind, io_bind.
  destruct (m s) as [[a|e] s']; [by apply Hf|done].
Qed.

Lemma triple_conseq P P' (m : io A) (Q Q' : A → fs → Prop) E E' :
  triple P' m Q' E' → (∀ s, P s → P' s) → (∀ a s, Q' a s → Q a s) → (∀ e s, E' e s → E e s) → triple P m Q E.
Proof.
  intros Hm HP HQ HE s Hs. specialize (Hm s (HP s Hs)). destruct (m s) as [[a|e] s']; eauto.
Qed.

Lemma triple_pure P (φ : Prop) (m : io A) Q E : (φ → triple P m Q E) → triple (λ s, P s ∧ φ) m Q E.
Proof. intros H s [Hs Hφ]. by apply H. Qed.

Lemma triple_raise P e (Q : A → fs → Prop) E : (∀ s, P s → E e s) → triple P (raise e) Q E.
Proof. intros H s Hs. by apply H. Qed.

Lemma triple_lift P (r : result A) Q E :
  (∀ a s, r = Ok a → P s → Q a s) → (∀ e s, r = Err e → P s → E e s) → triple P (lift r) Q E.
Proof. intros HQ HE s Hs. unfold lift. destruct r; eauto. Qed.

Lemma triple_gets P (f : fs → A) Q E : (∀ s, P s → Q (f s) s) → triple P (gets f) Q E.
Proof. intros H s Hs. by apply H. Qed.

Lemma triple_if P (b : bool) (m n : io A) Q E :
  (b = true → triple P m Q E) → (b = false → triple P n Q E) → triple P (if b then m else n) Q E.
Proof. destruct b; auto. Qed.

Lemma triple_update P (f : fs → result fs) (Q : unit → fs → Prop) E :
  (∀ s s', P s → f s = Ok s' → Q tt s') → (∀ s e, P s → f s = Err e → E e s) → triple P (update f) Q E.
Proof. intros HQ HE s Hs. unfold update. destruct (f s) eqn:Ef; eauto. Qed.

End triples.

Section loops.
  Context {A B : Type}.
  Implicit Types (P I : fs → Prop) (E : exn → fs → Prop).

Lemma triple_for_each P (l : list A) f E :
  (∀ x, x ∈ l → triple P (f x) (λ _, P) E) → triple P (for_each l f) (λ _, P) E.
Proof.
  induction l as [|x l IH]; intros Hf; cbn [for_each]; [by apply triple_ret|].
  eapply triple_bind; [apply Hf; by left|]. intros []. apply IH. intros y Hy. apply Hf. by right.
Qed.

(** A loop whose invariant speaks of the elements still to come. *)
Lemma triple_for_each_rest (I : list A → fs → Prop) (l : list A) f E :
  (∀ x k, suffix (x :: k) l → triple (I (x :: k)) (f x) (λ _, I k) E) →
  triple (I l) (for_each l f) (λ _, I []) E.
Proof.
  induction l as [|x l IH]; intros Hf; cbn [for_each]; [by apply triple_ret|].
  eapply triple_bind; [by apply Hf|]. intros []. apply IH. intros y k Hk. apply Hf. by apply suffix_cons_r.
Qed.

Lemma keeps_ret I (a : A) : keeps I (mret a).
Proof. by apply triple_ret. Qed.
Lemma keeps_bind I (m : io A) (f : A → io B) : keeps I m → (∀ a, keeps I (f a)) → keeps I (m ≫= f).
Proof. apply triple_bind. Qed.
Lemma keeps_raise I e : keeps I (raise (A := A) e).
Proof. by apply triple_raise. Qed.
Lemma keeps_lift I (r : result A) : keeps I (lift r).
Proof. by apply triple_lift. Qed.
Lemma keeps_gets I (f : fs → A) : keeps I (gets f).
Proof. by apply triple_gets. Qed.
Lemma keeps_if I (b : bool) (m n : io A) : keeps I m → keeps I n → keeps I (if b then m else n).
Proof. by destruct b. Qed.
Lemma keeps_for_each I (l : list A) f : (∀ x, x ∈ l → keeps I (f x)) → keeps I (for_each l f).
Proof. apply triple_for_each. Qed.
Lemma keeps_read I (f : fs → result A) : keeps I (λ s, (f s, s)).
Proof. intros s Hs. by destruct (f s). Qed.
End loops.

Lemma keeps_fold_io {A S} I (f : S → A → io S) st l : (∀ st x, x ∈ l → keeps I (f st x)) → keeps I (fold_io f st l).
Proof.
  revert st. induction l as [|x l IH]; intros st Hf; cbn [fold_io]; [by apply keeps_ret|].
  apply keeps_bind; [apply Hf; by left|]. intros st'. apply IH. intros st'' y Hy. apply Hf. by right.
Qed.

Lemma keeps_when I b m : (b = true → keeps I m) → keeps I (io_when b m).
Proof. destruct b; [by auto|intros _; apply keeps_ret]. Qed.

Create HintDb keeps discriminated.
#[export] Hint Resolve keeps_ret keeps_bind keeps_raise keeps_lift keeps_gets keeps_if keeps_for_each keeps_when
  keeps_read keeps_fold_io : keeps.

(** ** Resolution along real directories *)

(** Every prefix of [p], itself included, is a directory. *)
Definition dirs (s : fs) (p : list text) : Prop := ∀ q, q `prefix_of` p → ∃ m, tree s !! q = Some (Dir m).

(** No symbolic link on the way from the directory [root] along [cs]; one at the end is allowed unless it is followed. *)
Definition direct (follow : bool) (s : fs) (root cs : list text) : Prop :=
  ∀ ds t, ds `prefix_of` cs → (follow = true ∨ ds ≠ cs) → tree s !! (root ++ ds) ≠ Some (Sym t).

(** The directory that holds [p]. *)
Definition parent (p : list text) : list text := take (length p - 1) p.

(** What a resolution that meets no link finds at [p], whose parent is then a physical directory. *)
Definition found_at (s : fs) (p : list text) (r : result found) : Prop :=
  match r with
  | Ok (At q n) => q = p ∧ tree s !! p = Some n ∧ dirs s (parent p)
  | Ok (Free d c) => d ++ [c] = p ∧ tree s !! p = None ∧ dirs s d
  | Err e => e = OSError
  end.

Lemma parent_snoc d c : parent (d ++ [c]) = d.
Proof. unfold parent. rewrite length_app. simpl. by rewrite Nat.add_sub, take_app_length. Qed.

Lemma dirs_prefix s p q : dirs s p → q `prefix_of` p → dirs s q.
Proof. intros Hp Hq r Hr. apply Hp. by etrans. Qed.

Lemma dirs_snoc s p c m : dirs s p → tree s !! (p ++ [c]) = Some (Dir m) → dirs s (p ++ [c]).
Proof.
  intros Hp Hc q [k Hk]. destruct k as [|x k _] using rev_ind.
  - rewrite app_nil_r in Hk. subst. eauto.
  - rewrite app_assoc in Hk. apply app_inj_tail in Hk as [-> _]. apply Hp. by exists k.
Qed.

Lemma walk_cons s f b cur c rest :
  walk s f b cur (c :: rest) =
    if bool_decide (c = []) || bool_decide (c = dot) then walk s f b cur rest
    else if bool_decide (c = dotdot) then walk s f b (take (length cur - 1) cur) rest
    else match tree s !! (cur ++ [c]) with
         | None => if is_nil rest then Ok (Free cur c) else Err OSError
         | Some (Dir _) => walk s f b (cur ++ [c]) rest
         | Some (Sym t) =>
             if is_nil rest && negb f then Ok (At (cur ++ [c]) (Sym t))
             else match b with
                  | O => Err OSError
                  | S b => walk s f b (if startswith t [47] then [] else cur) (split_on 47 t ++ rest)
                  end
         | Some n => if is_nil rest then Ok (At (cur ++ [c]) n) else Err OSError
         end.
Proof. by destruct b. Qed.

Lemma walk_nil s f b cur : walk s f b cur [] = of_option OSError (At cur <$> tree s !! cur).
Proof. by destruct b. Qed.

(** A plain component is looked up. *)
Lemma walk_name s f b cur c rest :
  name_ok c = true →
  walk s f b cur (c :: rest) =
    match tree s !! (cur ++ [c]) with
    | None => if is_nil rest then Ok (Free cur c) else Err OSError
    | Some (Dir _) => walk s f b (cur ++ [c]) rest
    | Some (Sym t) =>
        if is_nil rest && negb f then Ok (At (cur ++ [c]) (Sym t))
        else match b with
             | O => Err OSError
             | S b => walk s f b (if startswith t [47] then [] else cur) (split_on 47 t ++ rest)
             end
    | Some n => if is_nil rest then Ok (At (cur ++ [c]) n) else Err OSError
    end.
Proof.
  intros (H1 & H2 & H3 & _)%name_ok_spec. rewrite walk_cons.
  by rewrite (bool_decide_false (c = [])), (bool_decide_false (c = dot)), (bool_decide_false (c = dotdot)).
Qed.

(** Walking along directories. *)
Lemma walk_dirs s f b cur cs rest :
  names_ok cs → dirs s (cur ++ cs) → walk s f b cur (cs ++ rest) = walk s f b (cur ++ cs) rest.
Proof.
  revert cur. induction cs as [|c cs IH]; intros cur Hcs Hd; [by rewrite app_nil_r|]. inv Hcs.
  rewrite <- app_comm_cons, walk_name by done.
  destruct (Hd (cur ++ [c])) as [m ->]; [exists cs; by rewrite <- app_assoc|].
  rewrite IH; [|done|]; by rewrite <- app_assoc.
Qed.

Lemma walk_direct s f b cur cs :
  names_ok cs → cs ≠ [] → dirs s cur → direct f s cur cs → found_at s (cur ++ cs) (walk s f b cur cs).
Proof.
  revert cur. induction cs as [|c cs IH]; intros cur Hcs Hne Hcur Hd; [done|]. inv Hcs. rewrite walk_name by done.
  destruct (decide (cs = [])) as [->|Hcs'].
  - cbn [is_nil]. destruct (tree s !! (cur ++ [c])) as [[m|i|t|]|] eqn:E; cbn [found_at];
      rewrite ?parent_snoc; auto.
    + rewrite walk_nil, E. simpl. by rewrite parent_snoc.
    + destruct f; [|simpl; by rewrite parent_snoc]. exfalso. by eapply Hd; [reflexivity|left; done|].
  - replace (is_nil cs) with false by (by destruct cs).
    destruct (tree s !! (cur ++ [c])) as [[m|i|t|]|] eqn:E; cbn [found_at]; auto.
    + replace (cur ++ c :: cs) with ((cur ++ [c]) ++ cs) by (by rewrite <- app_assoc).
      apply IH; [done|done|by eapply dirs_snoc|]. intros ds t Hds Hf. rewrite <- app_assoc. apply Hd.
      * by apply prefix_cons.
      * destruct Hf as [?|?]; [by left|right]. intros [=]. congruence.
    + exfalso. eapply (Hd [c]); [|right|exact E]; [by apply prefix_cons, prefix_nil|].
      intros [= ?]. congruence.
Qed.

Lemma locate_abs f s p : names_ok p → p ≠ [] → locate f s (abs p) = walk s f MAXSYMLINKS [] p.
Proof.
  intros Hp Hne. unfold locate. rewrite bool_decide_false by done. rewrite split_abs by done. unfold start.
  replace (startswith (abs p) [47]) with true by (symmetry; by apply (startswith_app [47])).
  rewrite walk_cons. by rewrite bool_decide_true.
Qed.

(** Resolving a path below a physical directory without links on the way. *)
Lemma locate_direct f s root cs :
  names_ok (root ++ cs) → cs ≠ [] → dirs s root → direct f s root cs →
  found_at s (root ++ cs) (locate f s (abs (root ++ cs))).
Proof.
  intros Hok Hne Hroot Hd. rewrite locate_abs; [|done|by destruct root]. apply names_ok_app in Hok as [Hr Hc].
  rewrite walk_dirs by done. by apply walk_direct.
Qed.

(** The entry [c] of a physical directory. *)
Lemma locate_entry f s d c :
  names_ok (d ++ [c]) → dirs s d → (∀ t, f = true → tree s !! (d ++ [c]) ≠ Some (Sym t)) →
  locate f s (abs (d ++ [c])) =
    match tree s !! (d ++ [c]) with Some n => Ok (At (d ++ [c]) n) | None => Ok (Free d c) end.
Proof.
  intros Hok Hd Hs. rewrite locate_abs; [|done|by destruct d]. apply names_ok_app in Hok as [Hr Hc].
  inv Hc. rewrite walk_dirs by done. cbn [app]. rewrite walk_name by done. cbn [is_nil andb].
  destruct (tree s !! (d ++ [c])) as [[]|] eqn:E; try done.
  - by rewrite walk_nil, E.
  - destruct f; [|done]. by destruct (Hs target).
Qed.

(** ** System calls on an entry of a physical directory *)

Section entry.
Context (s : fs) (d : list text) (c : text) (Hok : names_ok (d ++ [c])) (Hd : dirs s d).

Lemma lexists_entry :
  os_lexists (abs (d ++ [c])) s = (Ok (match tree s !! (d ++ [c]) with Some _ => true | None => false end), s).
Proof. unfold os_lexists, gets. rewrite locate_entry by done. by destruct (tree s !! _). Qed.

Lemma lstat_isdir_entry :
  lstat_isdir (abs (d ++ [c])) s =
    match tree s !! (d ++ [c]) with
    | Some (Dir _) => (Ok true, s) | Some _ => (Ok false, s) | None => (Err OSError, s)
    end.
Proof. unfold lstat_isdir. rewrite locate_entry by done. by destruct (tree s !! _) as [[]|]. Qed.

Lemma islink_entry :
  os_islink (abs (d ++ [c])) s = (Ok (match tree s !! (d ++ [c]) with Some (Sym _) => true | _ => false end), s).
Proof. unfold os_islink, gets. rewrite locate_entry by done. by destruct (tree s !! _) as [[]|]. Qed.

Lemma mkdir_entry :
  os_mkdir (abs (d ++ [c])) s =
    match tree s !! (d ++ [c]) with
    | None => (Ok tt, set_tree <[d ++ [c] := Dir (with_umask s 511)]> s)
    | Some _ => (Err OSError, s)
    end.
Proof. unfold os_mkdir, update. rewrite locate_entry by done. by destruct (tree s !! _). Qed.

Lemma symlink_entry t :
  os_symlink t (abs (d ++ [c])) s =
    match tree s !! (d ++ [c]) with
    | None => if bool_decide (t = []) then (Err OSError, s) else (Ok tt, set_tree <[d ++ [c] := Sym t]> s)
    | Some _ => (Err OSError, s)
    end.
Proof.
  unfold os_symlink, update. rewrite locate_entry by done. destruct (tree s !! _); [done|]. simpl. by case_bool_decide.
Qed.

Lemma unlink_entry :
  os_unlink (abs (d ++ [c])) s =
    match tree s !! (d ++ [c]) with
    | None | Some (Dir _) => (Err OSError, s)
    | Some _ => (Ok tt, set_tree (delete (d ++ [c])) s)
    end.
Proof. unfold os_unlink, update. rewrite locate_entry by done. by destruct (tree s !! _) as [[]|]. Qed.

Lemma rmdir_entry :
  os_rmdir (abs (d ++ [c])) s =
    match tree s !! (d ++ [c]) with
    | Some (Dir _) =>
        if is_nil (entries_of s (d ++ [c])) then (Ok tt, set_tree (delete (d ++ [c])) s) else (Err OSError, s)
    | _ => (Err OSError, s)
    end.
Proof.
  unfold os_rmdir, update. rewrite locate_entry by done. destruct (tree s !! _) as [[]|]; simpl; [|done..].
  replace (is_nil (d ++ [c])) with false by (by destruct d). rewrite andb_true_r.
  by destruct (is_nil (entries_of s _)).
Qed.

Context (Hn : ∀ t, tree s !! (d ++ [c]) ≠ Some (Sym t)).

Lemma exists_entry :
  os_exists (abs (d ++ [c])) s = (Ok (match tree s !! (d ++ [c]) with Some _ => true | None => false end), s).
Proof. unfold os_exists, gets. rewrite locate_entry by auto. by destruct (tree s !! _). Qed.

Lemma isdir_entry :
  os_isdir (abs (d ++ [c])) s = (Ok (match tree s !! (d ++ [c]) with Some (Dir _) => true | _ => false end), s).
Proof. unfold os_isdir, gets. rewrite locate_entry by auto. by destruct (tree s !! _) as [[]|]. Qed.

Lemma chmod_entry m :
  os_chmod (abs (d ++ [c])) m s =
    match tree s !! (d ++ [c]) with
    | Some (Dir _) => (Ok tt, set_tree <[d ++ [c] := Dir m]> s)
    | Some (Reg i) => (Ok tt, set_inodes (alter (λ x, (m, x.2)) i) s)
    | Some _ => (Ok tt, s)
    | None => (Err OSError, s)
    end.
Proof. unfold os_chmod, update. rewrite locate_entry by auto. by destruct (tree s !! _) as [[]|]. Qed.

Lemma write_entry data :
  write_file (abs (d ++ [c])) data s =
    match tree s !! (d ++ [c]) with
    | Some (Reg i) => (Ok tt, set_inodes (alter (λ x, (x.1, data)) i) s)
    | Some Special => (Ok tt, s)
    | Some _ => (Err OSError, s)
    | None =>
        (Ok tt, set_inodes <[fresh_inode s := (with_umask s 438, data)]> (set_tree <[d ++ [c] := Reg (fresh_inode s)]> s))
    end.
Proof. unfold write_file, update. rewrite locate_entry by auto. by destruct (tree s !! _) as [[]|]. Qed.
End entry.

Lemma io_bind_eq {A B} (m : io A) (f : A → io B) s :
  (m ≫= f) s = match m s with (Ok a, s') => f a s' | (Err e, s') => (Err e, s') end.
Proof. done. Qed.

Lemma io_ret_eq {A} (a : A) s : (mret a : io A) s = (Ok a, s).
Proof. done. Qed.

(** ** Confinement *)

(** [s] differs from [s0] only below the physical directory [root], and what lies below it shares no inode of [s0]. *)
Record confined (s0 : fs) (root : list text) (s : fs) : Prop := {
  cf_out : ∀ p, ¬ root `prefix_of` p → tree s !! p = tree s0 !! p;
  cf_ino : inodes s0 ⊆ inodes s;
  cf_own : ∀ p i, root `prefix_of` p → tree s !! p = Some (Reg i) → inodes s0 !! i = None;
  cf_root : dirs s root;
}.

(** No symbolic link below [root]. *)
Definition plain (root : list text) (s : fs) : Prop := ∀ cs t, tree s !! (root ++ cs) ≠ Some (Sym t).

Section confined.
Context (s0 : fs) (root : list text).
Implicit Types (s : fs) (cs : list text).

Lemma fresh_inode_spec s : inodes s !! fresh_inode s = None.
Proof.
  apply eq_None_not_Some. intros [x Hx]. apply elem_of_map_to_list in Hx.
  pose proof (infinite_is_fresh (map_to_list (inodes s)).*1) as Hf. apply Hf.
  by apply (list_elem_of_fmap_2 fst) in Hx.
Qed.

Lemma dirs_put_dir s p m q : dirs s q → dirs (set_tree <[p := Dir m]> s) q.
Proof.
  intros Hq r Hr. simpl. destruct (decide (r = p)) as [->|Hne]; [rewrite lookup_insert_eq; eauto|].
  rewrite lookup_insert_ne by done. by apply Hq.
Qed.

Lemma dirs_put_new s p n q : tree s !! p = None → dirs s q → dirs (set_tree <[p := n]> s) q.
Proof.
  intros Hp Hq r Hr. simpl. destruct (Hq r Hr) as [m Hm]. exists m. rewrite lookup_insert_ne; congruence.
Qed.

Lemma not_above cs : cs ≠ [] → ∀ q, q `prefix_of` root → q ≠ root ++ cs.
Proof.
  intros Hne q [k Hk] ->. rewrite <- app_assoc in Hk. apply (f_equal length) in Hk. rewrite !length_app in Hk.
  destruct cs; [done|]. simpl in Hk. lia.
Qed.

Lemma confined_put s cs n :
  confined s0 root s → cs ≠ [] → (∀ i, n = Reg i → inodes s0 !! i = None) →
  confined s0 root (set_tree <[root ++ cs := n]> s).
Proof.
  intros [Hout Hino Hown Hroot] Hne Hn. constructor; simpl.
  - intros p Hp. rewrite lookup_insert_ne; [by apply Hout|]. intros <-. apply Hp. by exists cs.
  - done.
  - intros p i Hp Hi. destruct (decide (root ++ cs = p)) as [<-|Hne'].
    + rewrite lookup_insert_eq in Hi. naive_solver.
    + rewrite lookup_insert_ne in Hi by done. by eapply Hown.
  - intros q Hq. simpl. rewrite lookup_insert_ne by (intros Heq; by eapply not_above). by apply Hroot.
Qed.

Lemma confined_delete s cs : confined s0 root s → cs ≠ [] → confined s0 root (set_tree (delete (root ++ cs)) s).
Proof.
  intros [Hout Hino Hown Hroot] Hne. constructor; simpl.
  - intros p Hp. rewrite lookup_delete_ne; [by apply Hout|]. intros <-. apply Hp. by exists cs.
  - done.
  - intros p i Hp. rewrite lookup_delete_Some. intros [_ Hi]. by eapply Hown.
  - intros q Hq. simpl. rewrite lookup_delete_ne by (intros Heq; by eapply not_above). by apply Hroot.
Qed.

Lemma confined_alter s i f :
  confined s0 root s → inodes s0 !! i = None → confined s0 root (set_inodes (alter f i) s).
Proof.
  intros [Hout Hino Hown Hroot] Hi. constructor; simpl; [done| |done|done].
  apply map_subseteq_spec. intros j x Hj. rewrite lookup_alter_ne by congruence. by eapply map_subseteq_spec.
Qed.

Lemma fresh_outside s : confined s0 root s → inodes s0 !! fresh_inode s = None.
Proof.
  intros Hc. apply eq_None_not_Some. intros [x Hx]. eapply map_subseteq_spec in Hx; [|by apply (cf_ino _ _ _ Hc)].
  by rewrite fresh_inode_spec in Hx.
Qed.

(** Creating a file at a free name. *)
Lemma confined_create s cs x :
  confined s0 root s → cs ≠ [] →
  confined s0 root (set_inodes <[fresh_inode s := x]> (set_tree <[root ++ cs := Reg (fresh_inode s)]> s)).
Proof.
  intros Hc Hne. pose proof (fresh_outside s Hc). apply (confined_put s cs (Reg (fresh_inode s))) in Hc as [Hout Hino Hown Hroot];
    [|done|naive_solver].
  constructor; simpl in *; [done| |done|done]. by apply insert_subseteq_r.
Qed.

Lemma plain_put s cs n : plain root s → (∀ t, n ≠ Sym t) → plain root (set_tree <[root ++ cs := n]> s).
Proof.
  intros Hs Hn ds t. simpl. destruct (decide (root ++ cs = root ++ ds)) as [->|Hne].
  - rewrite lookup_insert_eq. naive_solver.
  - by rewrite lookup_insert_ne.
Qed.

Lemma plain_direct s f cs : plain root s → direct f s root cs.
Proof. intros Hs ds t _ _. apply Hs. Qed.
End confined.

(** ** Creating entries *)

Definition put (p : list text) (n : node) (s : fs) : fs := set_tree <[p := n]> s.

(** A new file with its mode and contents. *)
Definition new_file (p : list text) (x : Z * bytes) (s : fs) : fs :=
  set_inodes <[fresh_inode s := x]> (put p (Reg (fresh_inode s)) s).

Lemma lookup_put p n s q x : tree (put p n s) !! q = Some x ↔ (p = q ∧ n = x) ∨ (p ≠ q ∧ tree s !! q = Some x).
Proof. apply lookup_insert_Some. Qed.
Lemma lookup_new_file p y s q x :
  tree (new_file p y s) !! q = Some x ↔ (p = q ∧ Reg (fresh_inode s) = x) ∨ (p ≠ q ∧ tree s !! q = Some x).
Proof. apply lookup_insert_Some. Qed.

Section create.
Context (s : fs) (d : list text) (c : text) (Hok : names_ok (d ++ [c])) (Hd : dirs s d)
  (Hfree : tree s !! (d ++ [c]) = None).

Lemma write_new data :
  write_file (abs (d ++ [c])) data s = (Ok tt, new_file (d ++ [c]) (with_umask s 438, data) s).
Proof. rewrite write_entry by (done || congruence). by rewrite Hfree. Qed.

Lemma mkdir_chmod m :
  (os_mkdir (abs (d ++ [c])) ≫= λ _, os_chmod (abs (d ++ [c])) m) s = (Ok tt, put (d ++ [c]) (Dir m) s).
Proof.
  rewrite io_bind_eq, mkdir_entry, Hfree by done.
  rewrite chmod_entry; simpl; rewrite ?lookup_insert_eq; [|done|by apply dirs_put_new|done].
  unfold put, set_tree. simpl. by rewrite insert_insert_eq.
Qed.

Lemma write_chmod data m :
  (write_file (abs (d ++ [c])) data ≫= λ _, os_chmod (abs (d ++ [c])) m) s = (Ok tt, new_file (d ++ [c]) (m, data) s).
Proof.
  rewrite io_bind_eq, write_new. unfold new_file, put.
  rewrite chmod_entry; simpl; rewrite ?lookup_insert_eq; [|done|by apply (dirs_put_new s)|done].
  unfold set_inodes. simpl. by rewrite alter_insert_eq.
Qed.
End create.

Lemma dirs_tree_eq s s' p : tree s = tree s' → dirs s p → dirs s' p.
Proof. intros Heq Hs q Hq. rewrite <- Heq. by apply Hs. Qed.

Lemma dirs_new_file s p x q : tree s !! p = None → dirs s q → dirs (new_file p x s) q.
Proof. intros Hp Hq. eapply dirs_tree_eq; [|by apply (dirs_put_new s p (Reg (fresh_inode s)))]. done. Qed.

Lemma new_file_node s p x : tree (new_file p x s) !! p = Some (Reg (fresh_inode s)).
Proof. simpl. by rewrite lookup_insert_eq. Qed.
Lemma new_file_inode s p x : inodes (new_file p x s) !! fresh_inode s = Some x.
Proof. simpl. by rewrite lookup_insert_eq. Qed.

(** ** Well-formed trees *)

(** The parent of every node is a directory. *)
Definition wf (s : fs) : Prop := ∀ d c n, tree s !! (d ++ [c]) = Some n → ∃ m, tree s !! d = Some (Dir m).

Lemma wf_dirs s d c n : wf s → tree s !! (d ++ [c]) = Some n → dirs s d.
Proof.
  intros Hwf. revert c n. induction d as [|x d IH] using rev_ind; intros c n Hn; destruct (Hwf _ _ _ Hn) as [m Hm].
  - intros q Hq. apply prefix_nil_inv in Hq as ->. eauto.
  - apply (dirs_snoc _ _ _ m); [|done]. by eapply IH.
Qed.

Lemma dirs_last s p : dirs s p → ∃ m, tree s !! p = Some (Dir m).
Proof. intros H. by apply H. Qed.

Lemma wf_put_new s d c n : wf s → dirs s d → tree s !! (d ++ [c]) = None → wf (put (d ++ [c]) n s).
Proof.
  intros Hwf Hd Hf d' c' n'. simpl. destruct (decide (d ++ [c] = d' ++ [c'])) as [Heq|Hne].
  - apply app_inj_tail in Heq as [<- <-]. intros _. destruct (dirs_last s d Hd) as [m Hm]. exists m.
    rewrite lookup_insert_ne; [done|]. intros Heq. congruence.
  - rewrite lookup_insert_ne by done. intros Hn. destruct (Hwf _ _ _ Hn) as [m Hm]. exists m.
    rewrite lookup_insert_ne; [done|]. congruence.
Qed.

Lemma wf_put_dir s p m m' : wf s → tree s !! p = Some (Dir m') → wf (put p (Dir m) s).
Proof.
  intros Hwf Hp d c n. simpl. destruct (decide (p = d)) as [<-|Hd]; [rewrite lookup_insert_eq; eauto|].
  rewrite (lookup_insert_ne _ p d) by done. destruct (decide (p = d ++ [c])) as [->|Hc].
  - intros _. by eapply Hwf.
  - rewrite lookup_insert_ne by done. apply Hwf.
Qed.

Lemma wf_tree_eq s s' : tree s = tree s' → wf s → wf s'.
Proof. unfold wf. by intros ->. Qed.

Lemma elem_entries s d c : c ∈ entries_of s d ↔ ∃ n, tree s !! (d ++ [c]) = Some n.
Proof.
  unfold entries_of. rewrite list_elem_of_omap. split.
  - intros (p & Hp & He). apply list_elem_of_fmap in Hp as ([q n] & -> & Hq). apply elem_of_map_to_list in Hq. simpl in *.
    unfold entry_name in He. destruct (last q) as [c'|] eqn:E; [|done]. case_bool_decide as Ht; simplify_eq.
    apply last_Some in E as [k ->]. exists n. fold (parent (k ++ [c])). by rewrite parent_snoc.
  - intros [n Hn]. exists (d ++ [c]). split.
    + apply list_elem_of_fmap. exists (d ++ [c], n). split; [done|]. by apply elem_of_map_to_list.
    + unfold entry_name. rewrite last_snoc. fold (parent (d ++ [c])). by rewrite parent_snoc, bool_decide_true.
Qed.

Lemma wf_delete s p n :
  wf s → tree s !! p = Some n → (∀ m, n = Dir m → entries_of s p = []) → wf (set_tree (delete p) s).
Proof.
  intros Hwf Hp Hempty d c n'. simpl. rewrite lookup_delete_Some. intros [Hne Hn].
  destruct (Hwf _ _ _ Hn) as [m Hm]. exists m. rewrite lookup_delete_ne; [done|]. intros ->. simplify_eq.
  assert (Hc : c ∈ entries_of s d) by (apply elem_entries; eauto). rewrite (Hempty m) in Hc by done.
  by apply elem_of_nil in Hc.
Qed.
