(* ===== verification/ExtractTree.v ===== *)
(** * Extraction of the Debian tools tree

    src/mkosi/debian/extract_tree.py: the members of an authenticated tar archive are indexed, real directories and files
    are written first, then hard links in the order of their targets, then symbolic links whose graph has been validated.
    [tarfile] is the argument [tar_open]; a [tar] lists the members that iterating the archive yields and the exception,
    if any, that ends the iteration. *)
From S2P Require Import Prelude Bytes PyText Hashing Collections PosixPath FileTree.

(** ** Archives *)

Inductive member_type := DIRTYPE | REGTYPE | SYMTYPE | LNKTYPE | OTHERTYPE.

#[export] Instance member_type_eq_dec : EqDecision member_type.
Proof. solve_decision. Defined.

(** A [tarfile.TarInfo] with the data that [extractfile] reads: the bytes, then an exception if the archive is damaged. *)
Record member := {
  m_name : text;
  m_type : member_type;
  m_mode : Z;
  m_linkname : text;
  m_data : bytes;
  m_damage : option exn;
}.
Record tar := { t_members : list member; t_damage : option exn }.

Definition isdir (m : member) : bool := bool_decide (m_type m = DIRTYPE).
Definition isfile (m : member) : bool := bool_decide (m_type m = REGTYPE).
Definition issym (m : member) : bool := bool_decide (m_type m = SYMTYPE).
Definition islnk (m : member) : bool := bool_decide (m_type m = LNKTYPE).

Definition _ALLOWED_DANGLING_SYMLINKS : list text := lit <$> [
  "etc/modules-load.d/modules.conf"; "etc/rmt"; "usr/lib/environment.d/99-environment.conf";
  "usr/lib/systemd/system/cryptdisks-early.service"; "usr/lib/systemd/system/cryptdisks.service";
  "usr/lib/systemd/system/hwclock.service"; "usr/lib/systemd/system/x11-common.service";
  "usr/share/zoneinfo/localtime"]%string.

Definition _EMPTY_DIRECTORY_SYMLINK_TARGETS : dict text (text * text) := [
  (lit "etc/xdg/systemd/user", (lit "etc/systemd/user", lit "../../systemd/user"));
  (lit "usr/lib/ssl/private", (lit "etc/ssl/private", lit "/etc/ssl/private"))].

(** ** Member names *)

(** [while name.startswith("./"): name = name[2:]]. *)
Fixpoint strip_dot_slash (name : text) : text :=
  match name with
  | 46 :: 47 :: name => strip_dot_slash name
  | _ => name
  end.

Definition unsafe_part (part : text) : bool :=
  bool_decide (part = []) || bool_decide (part = dot) || bool_decide (part = dotdot).

Definition member_path (name kind : text) : result text :=
  raise_if (startswith name [47]) (ValueError "absolute %s member: %s" [AText kind; AText name]);;
  let name := strip_dot_slash name in
  if bool_decide (name = []) || bool_decide (name = dot) then mret []
  else
    let parts := split_on 47 name in
    let parts := if bool_decide (last parts = Some []) then take (length parts - 1) parts else parts in
    raise_if (is_nil parts || existsb unsafe_part parts) (ValueError "unsafe %s member: %s" [AText kind; AText name]);;
    mret (os_join_all parts).

Definition archive : text := lit "archive".

(** Creates the missing parents of [relative] below [root] and returns the last of them. *)
Definition _parent (root relative : text) : io text :=
  fold_io (λ parent part,
    if bool_decide (part = []) then mret parent
    else
      let parent := os_join parent part in
      present ← os_lexists parent;
      (if (present : bool) then
         directory ← lstat_isdir parent;
         if (directory : bool) then mret tt
         else raise (ValueError "archive member parent is not a directory: %s" [AText relative])
       else os_mkdir parent;; os_chmod parent 493);;
      mret parent) root (split_on 47 (dirname relative)).

Definition _link_target (relative linkname : text) : result text :=
  if startswith linkname [47] then member_path (drop 1 linkname) archive
  else
    let target := normpath (os_join (dirname relative) linkname) in
    raise_if (bool_decide (target = dotdot) || startswith target (lit "../"))
      (ValueError "symlink escapes output root: %s -> %s" [AText relative; AText linkname]);;
    mret target.

Definition _hardlink_target (linkname : text) : result text :=
  raise_if (startswith linkname [47]) (ValueError "absolute hardlink target: %s" [AText linkname]);;
  member_path linkname archive.

(** ** Placeholders *)

Definition mount_roots : list text :=
  lit <$> ["etc"; "root"; "tmp"; "proc"; "dev"; "workspace"; "inputs"; "outputs"]%string.

Definition _prepare_mount_roots (root : text) : io unit :=
  for_each mount_roots (λ relative,
    let destination := os_join root relative in
    present ← os_lexists destination;
    (if (present : bool) then
       directory ← lstat_isdir destination;
       if (directory : bool) then mret tt
       else raise (ValueError "required namespace mount root is not a directory: %s" [AText relative])
     else _parent root relative;; os_mkdir destination);;
    os_chmod destination 493);;
  let resolv := os_join root (lit "etc/resolv.conf") in
  present ← os_lexists resolv;
  io_when (negb present) (write_file resolv [];; os_chmod resolv 420).

(** The certificates of the packages, directory by directory. *)
Definition certificate_files (s : fs) (root : text) : list text :=
  os_walk (walk_fuel s) s (os_join root (lit "usr/share/ca-certificates")) ≫= λ '(directory, _, names),
    List.filter (λ path, match locate true s path with Ok (At _ (Reg _)) => true | _ => false end)
      (os_join directory <$> List.filter (λ name, endswith name (lit ".crt")) (sorted_texts names)).

Definition _write_ca_bundle (root : text) : io unit :=
  found ← os_isdir (os_join root (lit "usr/share/ca-certificates"));
  certificates ← (if (found : bool) then gets (λ s, certificate_files s root) else mret []);
  io_when (negb (is_nil certificates)) (
    let bundle := os_join root (lit "etc/ssl/certs/ca-certificates.crt") in
    _parent root (lit "etc/ssl/certs/ca-certificates.crt");;
    write_file bundle [];;
    fold_io (λ written certificate,
      data ← read_file certificate;
      let written := written ++ data ++ [x0a] in
      write_file bundle written;; mret written) [] certificates;;
    os_chmod bundle 420).

Definition runtime_link_targets : list text :=
  lit <$> ["etc/environment"; "etc/localtime"; "dev/null"; "etc/modules"; "usr/sbin/rmt"]%string.

Definition _materialize_runtime_link_targets (root : text) : io unit :=
  for_each runtime_link_targets (λ relative,
    let path := os_join root relative in
    present ← os_exists path;
    io_when (negb present) (_parent root relative;; write_file path [];; os_chmod path 420)).

Definition _materialize_empty_directory_symlink_targets (root : text) (symlinks : dict text member) : io unit :=
  for_each _EMPTY_DIRECTORY_SYMLINK_TARGETS (λ '(relative, (target, expected_linkname)),
    match dget relative symlinks with
    | None => mret tt
    | Some member =>
        if negb (bool_decide (m_linkname member = expected_linkname)) then mret tt
        else
          let directory := os_join root target in
          is_directory ← os_isdir directory;
          is_link ← os_islink directory;
          if negb is_directory || is_link then mret tt
          else
            let marker := os_join directory (lit ".rules_mkosi_empty_directory") in
            present ← os_exists marker;
            io_when (negb present) (write_file marker [];; os_chmod marker 420)
    end).

(** ** Symbolic links *)

Definition _raw_link_components (relative linkname : text) : list text :=
  if startswith linkname [47] then split_on 47 linkname
  else (if bool_decide (dirname relative = []) then [] else split_on 47 (dirname relative)) ++ split_on 47 linkname.

(** The state of the loop of [_resolve_link_path]. *)
Record resolution := {
  components : list text;
  resolved_components : list text;
  r_dependencies : list text;
  seen : list text;
  resolutions : nat;
}.

(** One round of the loop, for a state whose [components] are [component :: rest]. *)
Definition resolve_step (relative : text) (symlinks members_by_path : dict text member)
    (st : resolution) (component : text) (rest : list text) : result resolution :=
  let st := {| components := rest; resolved_components := resolved_components st; r_dependencies := r_dependencies st;
               seen := seen st; resolutions := resolutions st |} in
  if bool_decide (component = []) || bool_decide (component = dot) then mret st
  else if bool_decide (component = dotdot) then
    raise_if (is_nil (resolved_components st)) (ValueError "symlink escapes output root: %s" [AText relative]);;
    mret {| components := rest;
            resolved_components := take (length (resolved_components st) - 1) (resolved_components st);
            r_dependencies := r_dependencies st; seen := seen st; resolutions := resolutions st |}
  else
    let resolved := resolved_components st ++ [component] in
    let current := os_join_all resolved in
    match dget current members_by_path with
    | Some member =>
        if issym member then
          raise_if (bool_decide (current ∈ seen st)) (ValueError "symlink cycle involving: %s" [AText current]);;
          let components := _raw_link_components current (m_linkname member) ++ rest in
          let resolutions := S (resolutions st) in
          raise_if (length symlinks + length components + 1 <? resolutions)%nat
            (ValueError "symlink graph resolution exceeded its bound: %s" [AText relative]);;
          mret {| components := components; resolved_components := [];
                  r_dependencies := r_dependencies st ++ [current]; seen := current :: seen st;
                  resolutions := resolutions |}
        else mret {| components := rest; resolved_components := resolved; r_dependencies := r_dependencies st;
                     seen := seen st; resolutions := resolutions st |}
    | None => mret {| components := rest; resolved_components := resolved; r_dependencies := r_dependencies st;
                      seen := seen st; resolutions := resolutions st |}
    end.

Fixpoint resolve_loop (relative : text) (symlinks members_by_path : dict text member) (fuel : nat) (st : resolution)
    : result resolution :=
  match components st with
  | [] => mret st
  | component :: rest =>
      match fuel with
      | O => Err OutOfFuel
      | S fuel =>
          resolve_step relative symlinks members_by_path st component rest
            ≫= resolve_loop relative symlinks members_by_path fuel
      end
  end.

(** Every symbolic link is followed at most once, which bounds the components that the loop consumes. *)
Definition link_components (item : text * member) : nat :=
  if issym item.2 then length (_raw_link_components item.1 (m_linkname item.2)) else 0.
Definition resolve_fuel (relative : text) (m : member) (members_by_path : dict text member) : nat :=
  length (_raw_link_components relative (m_linkname m)) + sum_list (link_components <$> members_by_path).

Definition joined (parts : list text) : text := if is_nil parts then [] else os_join_all parts.

Definition _resolve_link_path (relative : text) (symlinks members_by_path : dict text member)
    : result (text * list text) :=
  m ← of_option KeyError (dget relative symlinks);
  st ← resolve_loop relative symlinks members_by_path (resolve_fuel relative m members_by_path)
         {| components := _raw_link_components relative (m_linkname m); resolved_components := [];
            r_dependencies := []; seen := []; resolutions := 0 |};
  mret (joined (resolved_components st), r_dependencies st).

Inductive visit_state := Visiting | Done.

(** The dictionaries of the depth-first validation. *)
Record link_graph := {
  g_state : dict text visit_state;
  g_resolved : dict text text;
  g_dependencies : dict text (list text);
}.

Section validate.
Context (exists_ : text → bool) (root : text) (symlinks members_by_path : dict text member).

Fixpoint visit_symlink (fuel : nat) (g : link_graph) (relative : text) : result link_graph :=
  match fuel with
  | O => Err OutOfFuel
  | S fuel =>
      match dget relative (g_state g) with
      | Some Visiting => Err (ValueError "symlink cycle involving: %s" [AText relative])
      | Some Done => mret g
      | None =>
          let g := {| g_state := dset relative Visiting (g_state g); g_resolved := g_resolved g;
                      g_dependencies := g_dependencies g |} in
          '(target, direct_dependencies) ← _resolve_link_path relative symlinks members_by_path;
          g ← foldM (λ g dependency,
                if bool_decide (dependency = relative) then mret g else visit_symlink fuel g dependency)
              g direct_dependencies;
          raise_if (negb (exists_ (os_join root target)) && negb (bool_decide (relative ∈ _ALLOWED_DANGLING_SYMLINKS)))
            (ValueError "dangling symlink: %s -> %s"
               [AText relative; AText (from_option m_linkname [] (dget relative symlinks))]);;
          mret {| g_state := dset relative Done (g_state g);
                  g_resolved := dset relative target (g_resolved g);
                  g_dependencies := dset relative direct_dependencies (g_dependencies g) |}
      end
  end.

(** A link is entered at most once while it is being visited, so the recursion is no deeper than there are links. *)
Definition visit_fuel : nat := S (length symlinks).

Definition _validate_symlink_graph : result (dict text text * dict text (list text)) :=
  g ← foldM (visit_symlink visit_fuel) {| g_state := []; g_resolved := []; g_dependencies := [] |}
        (sorted_texts (dkeys symlinks));
  mret (g_resolved g, g_dependencies g).
End validate.

(** The length of the longest chain of links from [relative]. *)
Fixpoint depth (fuel : nat) (dependencies : dict text (list text)) (relative : text) : result Z :=
  match fuel with
  | O => Err OutOfFuel
  | S fuel =>
      direct ← of_option KeyError (dget relative dependencies);
      depths ← mapM (depth fuel dependencies) direct;
      mret (foldr Z.max 0 depths + 1)
  end.

(** The order of [(depth(item), item)] keys. *)
Definition depth_lt (a b : Z * text) : bool :=
  (a.1 <? b.1) || ((a.1 =? b.1) && negb (text_leb b.2 a.2)).

(** [sorted(symlinks, key=lambda item: (depth(item), item))]. *)
Definition links_by_depth (dependencies : dict text (list text)) (names : list text) : result (list text) :=
  keyed ← mapM (λ item, d ← depth (S (length dependencies)) dependencies item; mret (d, item)) names;
  mret (stable_sort depth_lt keyed).*2.

(** Creates the link [relative] with [make], which gets the full path; both kinds of links refuse an occupied name. *)
Definition create_link (root relative : text) (make : text → io unit) : io unit :=
  _parent root relative;;
  let destination := os_join root relative in
  present ← os_lexists destination;
  io_when present (raise (ValueError "archive path collision: %s" [AText relative]));;
  make destination.

(** An absolute link is made relative, so that it stays inside the tree wherever the tree is. *)
Definition make_symlink (root relative : text) (m : member) (resolved : dict text text) (destination : text) : io unit :=
  target ← lift (of_option KeyError (dget relative resolved));
  here ← gets (λ s, abs (cwd s));
  let linkname :=
    if startswith (m_linkname m) [47] then relpath here (os_join root target) (dirname destination)
    else m_linkname m in
  os_symlink linkname destination.

Definition _resolve_symlink_graph (root : text) (symlinks members_by_path : dict text member) : io unit :=
  '(resolved, dependencies) ← (λ s, (_validate_symlink_graph (λ p, is_at (locate true s p)) root symlinks members_by_path, s)) : io _;
  order ← lift (links_by_depth dependencies (dkeys symlinks));
  for_each order (λ relative,
    member ← lift (of_option KeyError (dget relative symlinks));
    create_link root relative (make_symlink root relative member resolved)).

(** ** Hard links *)

Record hard_graph := { h_state : dict text visit_state; h_targets : dict text text }.

Fixpoint visit_hardlink (hardlinks members_by_path : dict text member) (fuel : nat) (g : hard_graph) (relative : text)
    : result (text * hard_graph) :=
  match fuel with
  | O => Err OutOfFuel
  | S fuel =>
      match dget relative (h_state g) with
      | Some Visiting => Err (ValueError "hardlink cycle involving: %s" [AText relative])
      | Some Done => target ← of_option KeyError (dget relative (h_targets g)); mret (target, g)
      | None =>
          let g := {| h_state := dset relative Visiting (h_state g); h_targets := h_targets g |} in
          m ← of_option KeyError (dget relative hardlinks);
          target ← _hardlink_target (m_linkname m);
          target_member ← of_option (ValueError "dangling hardlink: %s -> %s" [AText relative; AText target])
                            (dget target members_by_path);
          '(target, g) ← (if islnk target_member then visit_hardlink hardlinks members_by_path fuel g target
                          else if isfile target_member then mret (target, g)
                          else Err (ValueError "hardlink target is not a regular file: %s" [AText relative]));
          mret (target, {| h_state := dset relative Done (h_state g); h_targets := dset relative target (h_targets g) |})
      end
  end.

Definition _resolve_hardlink_graph (root : text) (hardlinks members_by_path : dict text member) : io unit :=
  fold_io (λ g relative,
    '(target, g) ← lift (visit_hardlink hardlinks members_by_path (S (length hardlinks)) g relative);
    create_link root relative (os_link (os_join root target));;
    mret g) {| h_state := []; h_targets := [] |} (sorted_texts (dkeys hardlinks));;
  mret tt.

(** ** Extraction *)

Definition _authenticate (data : bytes) (expected_digest : text) : result unit :=
  let actual_digest := hex (sha256 data) in
  require (bool_decide (actual_digest = expected_digest))
    (ValueError "Debian tools archive digest mismatch: expected=%s actual=%s" [AText expected_digest; AText actual_digest]).

Definition index_member (st : list (member * text) * dict text member) (m : member)
    : result (list (member * text) * dict text member) :=
  let '(members, members_by_path) := st in
  relative ← member_path (m_name m) archive;
  if is_nil relative then mret st
  else
    raise_if (dmem relative members_by_path) (ValueError "duplicate archive member" []);;
    mret (members ++ [(m, relative)], dset relative m members_by_path).

Definition _index_members (source : tar) : result (list (member * text) * dict text member) :=
  st ← foldM index_member ([], []) (t_members source);
  match t_damage source with None => mret st | Some e => Err e end.

Definition S_IMODE (mode : Z) : Z := Z.land mode 4095.

Definition _materialize_directory (root relative : text) (m : member) : io unit :=
  let destination := os_join root relative in
  _parent root relative;;
  present ← os_lexists destination;
  (if (present : bool) then
     directory ← lstat_isdir destination;
     io_when (negb directory) (raise (ValueError "archive path collision: %s" [AText relative]))
   else mret tt);;
  present ← os_exists destination;
  io_when (negb present) (os_mkdir destination);;
  os_chmod destination (S_IMODE (m_mode m)).

(** [extractfile] gives a file object for every regular member. *)
Definition _materialize_file (root relative : text) (m : member) : io unit :=
  let destination := os_join root relative in
  _parent root relative;;
  present ← os_lexists destination;
  io_when present (raise (ValueError "archive path collision: %s" [AText relative]));;
  io_when (negb (isfile m)) (raise (ValueError "regular archive member has no data: %s" [AText relative]));;
  write_file destination (m_data m);;
  match m_damage m with
  | Some e => raise e
  | None => os_chmod destination (S_IMODE (m_mode m))
  end.

(** The number of separators in a path, and the order of [(count, path)] keys. *)
Definition slashes (t : text) : nat := length (List.filter is_slash t).
Definition level_lt (a b : member * text) : bool :=
  (slashes a.2 <? slashes b.2)%nat || ((slashes a.2 =? slashes b.2)%nat && negb (text_leb b.2 a.2)).

Definition _materialize_regular_members (root : text) (members : list (member * text)) : io unit :=
  for_each (stable_sort level_lt members) (λ '(m, relative),
    if isdir m then _materialize_directory root relative m
    else if isfile m then _materialize_file root relative m
    else io_when (negb (issym m) && negb (islnk m)) (raise (ValueError "unsupported archive member: %s" [AText relative]))).

(** [{relative: member for member, relative in members if f(member)}]. *)
Definition select (f : member → bool) (members : list (member * text)) : dict text member :=
  foldl (λ d '(m, relative), if f m then dset relative m d else d) [] members.

Definition _extract_members (source : tar) (root : text) : io unit :=
  '(members, members_by_path) ← lift (_index_members source);
  let symlinks := select issym members in
  let hardlinks := select islnk members in
  _materialize_regular_members root members;;
  _write_ca_bundle root;;
  _materialize_runtime_link_targets root;;
  _materialize_empty_directory_symlink_targets root symlinks;;
  _resolve_hardlink_graph root hardlinks members_by_path;;
  _resolve_symlink_graph root symlinks members_by_path.

Definition _LEGACY_MERGED_USR_LINKS : list (text * text) := [
  (lit "bin", lit "usr/bin"); (lit "sbin", lit "usr/sbin"); (lit "lib", lit "usr/lib");
  (lit "lib64", lit "usr/lib/x86_64-linux-gnu")].

Definition _link_legacy_merged_usr (root : text) : io unit :=
  for_each _LEGACY_MERGED_USR_LINKS (λ '(legacy, target),
    let path := os_join root legacy in
    link ← os_islink path;
    (if (link : bool) then os_unlink path
     else
       directory ← os_isdir path;
       if (directory : bool) then os_rmdir path
       else
         present ← os_exists path;
         io_when present (raise (ValueError "legacy merged-usr path collision: %s" [AText legacy])));;
    os_symlink target path).

Definition _reject_populated_tmp (root : text) : io unit :=
  let temporary := os_join root (lit "tmp") in
  directory ← os_isdir temporary;
  link ← os_islink temporary;
  io_when (directory && negb link) (
    names ← os_listdir temporary;
    for_each names (λ name, raise (ValueError "package content unexpectedly populated /tmp: %s" [AText name]))).

Definition extract (tar_open : bytes → result tar) (archive root expected_digest : text) : io unit :=
  io_when (is_nil expected_digest) (raise (ValueError "expected archive digest is required" []));;
  data ← read_file archive;
  lift (_authenticate data expected_digest);;
  here ← gets (λ s, abs (cwd s));
  let root := abspath here root in
  os_makedirs root;;
  os_chmod root 493;;
  source ← lift (tar_open data);
  _extract_members source root;;
  _prepare_mount_roots root;;
  _link_legacy_merged_usr root;;
  _reject_populated_tmp root.
