(* ===== verification/ExtractDemo.v ===== *)
(** * Extraction: a concrete archive

    A file system with an archive in it and the members of that archive, on which the theorems about the extraction are
    applied. *)
From S2P Require Import Prelude Bytes PyText Hashing Collections PosixPath FileTree ExtractTree.

Definition demo_data : bytes := blit "tar".

(** [/a.tar] in the root directory, and nothing else. *)
Definition demo_fs : fs := {|
  tree := {[ [] := Dir 493; [lit "a.tar"] := Reg 0 ]};
  inodes := {[ 0%N := (420, demo_data) ]};
  cwd := [];
  umask := 18;
|}.

Definition demo_member (name : string) (type : member_type) (mode : Z) (link : string) (data : bytes) : member :=
  {| m_name := lit name; m_type := type; m_mode := mode; m_linkname := lit link; m_data := data; m_damage := None |}.

(** Links before their targets, a hard link to a hard link, an absolute link through another link. *)
Definition demo_tar : tar := {|
  t_members := [
    demo_member "./" DIRTYPE 493 "" [];
    demo_member "./etc/a" SYMTYPE 511 "/lib/x" [];
    demo_member "./lib" SYMTYPE 511 "usr/lib" [];
    demo_member "./usr/lib/z" LNKTYPE 420 "./usr/lib/y" [];
    demo_member "./usr/lib/y" LNKTYPE 420 "./usr/lib/x" [];
    demo_member "./usr/" DIRTYPE 493 "" [];
    demo_member "./usr/lib/x" REGTYPE 33261 "" (blit "data")];
  t_damage := None;
|}.
Definition demo_open (_ : bytes) : result tar := Ok demo_tar.
Definition demo_digest : text := Eval vm_compute in hex (sha256 demo_data).
Definition out : list text := [lit "out"].

Definition demo_extract : result unit * fs := extract demo_open (lit "/a.tar") (abs out) demo_digest demo_fs.

(** The tree after the members have been extracted. *)
Definition demo_extracted : fs := (_extract_members demo_tar (abs out) (put out (Dir 493) demo_fs)).2.

(** The index of the archive. *)
Definition demo_index : list (member * text) * dict text member :=
  match _index_members demo_tar with Ok st => st | Err _ => ([], []) end.
Definition demo_symlinks : dict text member := select issym demo_index.1.
