(* ===== verification/ExtractPaths.v ===== *)
(** * Extraction: member names and the resolution of links

    The paths that [member_path] accepts are exactly the paths of plain names. [_resolve_link_path] ends within its fuel,
    never reaches its own bound, and its result and dependencies contain no link that is left to follow; the depth-first
    validation therefore meets no cycle that the resolution has not reported, and the depth of every link is defined. *)
From S2P Require Import Prelude Bytes PyText Hashing Collections PosixPath FileTree ExtractTree ExtractDemo.

(** ** Member names *)

Lemma strip_dot_slash_other c t : c ≠ 46 → strip_dot_slash (c :: t) = c :: t.
Proof.
  intros Hc. destruct c as [|p|]; [done| |done].
  do 6 (destruct p as [p|p|]; try done).
Qed.

Lemma strip_dot_slash_dot t : startswith t [47] = false → strip_dot_slash (46 :: t) = 46 :: t.
Proof.
  intros Ht. destruct t as [|c t]; [done|]. destruct (decide (c = 47)) as [->|Hc].
  - pose proof (startswith_app [47] t) as Hs. simpl in Hs. congruence.
  - destruct c as [|p|]; [done| |done]. do 6 (destruct p as [p|p|]; try done).
Qed.

Lemma strip_dot_slash_rel cs : names_ok cs → strip_dot_slash (rel cs) = rel cs.
Proof.
  intros Hcs. destruct cs as [|c cs]; [done|]. inv Hcs. apply name_ok_spec in H1 as (Hn & Hd & _ & Hs).
  destruct c as [|x c]; [done|]. destruct (decide (x = 46)) as [->|Hx].
  - destruct c as [|y c]; [done|]. assert (y ≠ 47) by set_solver.
    replace (rel ((46 :: y :: c) :: cs)) with (46 :: rel ((y :: c) :: cs)) by (unfold rel; by destruct cs).
    apply strip_dot_slash_dot. apply bool_decide_eq_false. intros [k Hk].
    unfold rel in Hk. destruct cs; simpl in Hk; naive_solver.
  - replace (rel ((x :: c) :: cs)) with (x :: rel (c :: cs)) by (unfold rel; by destruct cs).
    by apply strip_dot_slash_other.
Qed.

Lemma rel_not_dot cs : names_ok cs → rel cs ≠ dot.
Proof.
  intros Hcs Heq. assert (Hsplit : split_on 47 (rel cs) = [dot]) by (by rewrite Heq).
  destruct cs as [|c cs]; [done|]. rewrite split_rel in Hsplit by done. simplify_eq. by inv Hcs.
Qed.

Lemma unsafe_part_ok p : 47 ∉ p → unsafe_part p = false ↔ name_ok p = true.
Proof.
  intros Hs. rewrite name_ok_spec. unfold unsafe_part. rewrite !orb_false_iff, !bool_decide_eq_false. tauto.
Qed.

Lemma safe_parts parts : Forall (λ f, 47 ∉ f) parts → existsb unsafe_part parts = false ↔ names_ok parts.
Proof.
  induction 1 as [|p parts Hp Hps IH]; simpl; [split; [constructor|done]|].
  unfold names_ok. rewrite orb_false_iff, Forall_cons, IH, unsafe_part_ok by done. done.
Qed.

Lemma last_name_ok cs : names_ok cs → last cs ≠ Some [].
Proof. intros Hcs Hl. apply last_Some in Hl as [k ->]. apply names_ok_app in Hcs as [_ Hcs]. by inv Hcs. Qed.

(** What [member_path] returns: the archive root, or a path of plain names. *)
Definition safe_path (t : text) : Prop := ∃ cs, names_ok cs ∧ t = rel cs.

Lemma member_path_safe name kind r : member_path name kind = Ok r → safe_path r.
Proof.
  unfold member_path. intros H. res_inv. destruct (bool_decide _ || bool_decide _) eqn:E; res_inv.
  { exists []. split; [constructor|done]. }
  set (parts := if bool_decide _ then _ else _) in *.
  match goal with H : is_nil _ || _ = false |- _ => apply orb_false_iff in H as [Hne Hsafe] end.
  assert (Hno : Forall (λ f, 47 ∉ f) parts).
  { unfold parts. destruct (bool_decide (last _ = _)); [apply Forall_take|]; apply split_on_no_sep. }
  apply safe_parts in Hsafe; [|done]. exists parts. split; [done|]. apply os_join_all_rel; [by destruct parts|done].
Qed.

(** A path of plain names is accepted as it is, also behind [./] and before a final separator. *)
Lemma member_path_rel cs kind : names_ok cs → member_path (rel cs) kind = Ok (rel cs).
Proof.
  intros Hcs. unfold member_path. rewrite startswith_rel, strip_dot_slash_rel by done. cbn [raise_if mbind result_bind].
  destruct (decide (cs = [])) as [->|Hne]; [done|].
  rewrite bool_decide_false by (by intros ?%join_nil_iff). rewrite bool_decide_false by (by apply rel_not_dot).
  cbn [orb]. rewrite split_rel by done. rewrite bool_decide_false by (by apply last_name_ok).
  replace (is_nil cs) with false by (by destruct cs). rewrite (proj2 (safe_parts cs (names_no_slash cs Hcs)) Hcs).
  simpl. by rewrite os_join_all_rel.
Qed.

Lemma member_path_dot_slash cs kind : names_ok cs → member_path (lit "./" ++ rel cs) kind = Ok (rel cs).
Proof.
  intros Hcs. rewrite <- (member_path_rel cs kind) by done. unfold member_path.
  rewrite startswith_rel by done. reflexivity.
Qed.

Lemma member_path_raises name kind : raises is_value_error (member_path name kind).
Proof. unfold member_path. raises_auto. Qed.

(** [..], absolute paths and empty components never pass. *)
Lemma member_path_component name kind r c :
  member_path name kind = Ok r → r ≠ [] → c ∈ split_on 47 r → c ≠ [] ∧ c ≠ dot ∧ c ≠ dotdot.
Proof.
  intros (cs & Hcs & ->)%member_path_safe Hne Hc. rewrite split_rel in Hc; [|by intros ->|done].
  unfold names_ok in Hcs. rewrite Forall_forall in Hcs. apply Hcs, name_ok_spec in Hc. naive_solver.
Qed.

(** ** The resolution of one link *)

(** What [_extract_members] passes: an index of plain paths, and its symbolic links. *)
Record link_index (symlinks M : dict text member) : Prop := {
  li_ok : dict_ok M;
  li_keys : ∀ k m, dget k M = Some m → ∃ cs, cs ≠ [] ∧ names_ok cs ∧ k = rel cs;
  li_links : ∀ k m, dget k symlinks = Some m ↔ dget k M = Some m ∧ issym m = true;
  li_links_ok : dict_ok symlinks;
}.

(** [k] names a symbolic link of the archive. *)
Definition is_link (M : dict text member) (k : text) : Prop := ∃ m, dget k M = Some m ∧ issym m = true.

(** The components of links that have not been followed yet. *)
Definition budget (M : dict text member) (visited : list text) : nat :=
  sum_list ((λ item, if decide (item.1 ∈ visited) then 0%nat else link_components item) <$> M).

Lemma budget_nil M : budget M [] = sum_list (link_components <$> M).
Proof. done. Qed.

Lemma budget_cons k m M v :
  budget ((k, m) :: M) v = ((if decide (k ∈ v) then 0 else link_components (k, m)) + budget M v)%nat.
Proof. done. Qed.

Lemma budget_skip M k v : k ∉ dkeys M → budget M (k :: v) = budget M v.
Proof.
  intros Hk. unfold budget. f_equal. apply list_fmap_ext. intros i x Hx. apply list_elem_of_lookup_2 in Hx.
  assert (x.1 ≠ k). { intros <-. apply Hk. by apply list_elem_of_fmap_2. }
  by rewrite (decide_ext (x.1 ∈ k :: v) (x.1 ∈ v)) by set_solver.
Qed.

Lemma budget_follow M k m v :
  dict_ok M → dget k M = Some m → k ∉ v → (budget M (k :: v) + link_components (k, m) = budget M v)%nat.
Proof.
  unfold dict_ok. induction M as [|[k' m'] M IH]; intros Hok Hk Hv; [done|]. simpl in Hok. inv Hok.
  cbn [dget] in Hk. rewrite !budget_cons. case_decide as Hkk.
  - subst k'. simplify_eq. rewrite decide_True by (by left). rewrite budget_skip by done. rewrite decide_False by done. lia.
  - rewrite <- (IH H2 Hk Hv). rewrite (decide_ext (k' ∈ k :: v) (k' ∈ v)) by set_solver. lia.
Qed.

(** The links met so far are distinct links of the archive, so there are at most as many as [symlinks]. *)
Lemma links_bound symlinks M l : link_index symlinks M → NoDup l → Forall (is_link M) l → (length l ≤ length symlinks)%nat.
Proof.
  intros Hi Hnd Hl. rewrite <- (length_fmap fst symlinks). apply submseteq_length.
  apply NoDup_submseteq; [done|]. intros k Hk. rewrite Forall_forall in Hl. destruct (Hl k Hk) as (m & Hm & Hs).
  assert (Hget : dget k symlinks = Some m) by (by apply (li_links _ _ Hi)).
  apply dget_Some_elem in Hget. by apply (list_elem_of_fmap_2 fst) in Hget.
Qed.

(** The invariant of the loop. *)
Record resolution_ok (M : dict text member) (st : resolution) : Prop := {
  ro_components : Forall (λ c, 47 ∉ c) (components st);
  ro_resolved : names_ok (resolved_components st);
  ro_no_link : ∀ pre, pre ≠ [] → pre `prefix_of` resolved_components st → ¬ is_link M (rel pre);
  ro_seen : NoDup (seen st);
  ro_links : Forall (is_link M) (seen st);
  ro_dependencies : r_dependencies st = reverse (seen st);
  ro_count : resolutions st = length (seen st);
}.

Lemma raw_components_no_slash k l : Forall (λ c, 47 ∉ c) (_raw_link_components k l).
Proof.
  unfold _raw_link_components. case_match; [apply split_on_no_sep|]. apply Forall_app.
  split; [|apply split_on_no_sep]. case_match; [constructor|apply split_on_no_sep].
Qed.

Section resolve.
Context (relative : text) (symlinks M : dict text member) (Hi : link_index symlinks M).

Abbreviation step := (resolve_step relative symlinks M).
Abbreviation loop := (resolve_loop relative symlinks M).

(** The measure of the loop. *)
Definition remaining (st : resolution) : nat := (length (components st) + budget M (seen st))%nat.

Lemma resolve_step_ok st c rest st' :
  resolution_ok M st → components st = c :: rest → step st c rest = Ok st' →
  resolution_ok M st' ∧ S (remaining st') = remaining st.
Proof.
  intros [Hc Hr Hnl Hnd Hl Hdep Hcnt] Hcomp Hstep. rewrite Hcomp in Hc. inv Hc. unfold remaining. rewrite Hcomp.
  unfold resolve_step in Hstep. cbn [resolved_components r_dependencies seen resolutions] in Hstep.
  destruct (bool_decide (c = []) || bool_decide (c = dot)) eqn:E1; [res_inv; by repeat split|].
  apply orb_false_iff in E1 as [E1 E2]. bool_inv.
  case_bool_decide as E3; res_inv.
  { split; [constructor; simpl; auto|done].
    - by apply Forall_take.
    - intros pre Hne Hpre. apply Hnl; [done|]. etrans; [exact Hpre|]. apply prefix_take. }
  assert (Hc : name_ok c = true) by (by apply name_ok_spec).
  assert (Hrc : names_ok (resolved_components st ++ [c])) by (apply names_ok_app; split; [done|by constructor]).
  rewrite os_join_all_rel in Hstep by (done || by destruct (resolved_components st)).
  assert (Hadd : ¬ is_link M (rel (resolved_components st ++ [c])) →
    resolution_ok M {| components := rest; resolved_components := resolved_components st ++ [c];
                       r_dependencies := r_dependencies st; seen := seen st; resolutions := resolutions st |}).
  { intros Hn. constructor; simpl; auto. intros pre Hne [Hpre| ->]%prefix_snoc_inv; auto. }
  destruct (dget _ M) as [m|] eqn:Em; [|res_inv; split; [apply Hadd; intros (m & ? & _); congruence|done]].
  destruct (issym m) eqn:Es; [|res_inv; split; [apply Hadd; intros (m' & ? & ?); congruence|done]].
  res_inv. bool_inv. split.
  - constructor; simpl; auto.
    + apply Forall_app. split; [apply raw_components_no_slash|done].
    + constructor.
    + intros pre Hne Hpre. by apply prefix_nil_inv in Hpre.
    + by constructor.
    + constructor; [|done]. by exists m.
    + by rewrite reverse_cons, Hdep.
  - simpl. rewrite length_app. pose proof (budget_follow M _ m (seen st) (li_ok _ _ Hi) Em ltac:(done)) as Hb.
    unfold link_components in Hb. simpl in Hb. rewrite Es in Hb. lia.
Qed.

(** The errors of one round: the bound is never the reason. *)
Definition escape_or_cycle (e : exn) : Prop :=
  (∃ args, e = ValueError "symlink escapes output root: %s" args) ∨
  (∃ args, e = ValueError "symlink cycle involving: %s" args).

Lemma resolve_step_raises st c rest :
  resolution_ok M st → components st = c :: rest → raises escape_or_cycle (step st c rest).
Proof.
  intros [Hc Hr Hnl Hnd Hl Hdep Hcnt] Hcomp. unfold resolve_step. cbn [resolved_components r_dependencies seen resolutions].
  destruct (_ || _); [done|]. case_bool_decide as E3.
  { apply raises_bind; [|done]. apply raises_raise_if. left. eauto. }
  destruct (dget _ M) as [m|] eqn:Em; [|done]. destruct (issym m) eqn:Es; [|done].
  apply raises_bind; [apply raises_raise_if; right; eauto|]. intros u Hu. apply raise_if_Ok in Hu. bool_inv.
  assert (Hb : (length (os_join_all (resolved_components st ++ [c]) :: seen st) ≤ length symlinks)%nat).
  { eapply links_bound; [done|by constructor|]. constructor; [by exists m|done]. }
  simpl in Hb. destruct (_ <? _)%nat eqn:E; [|done]. apply Nat.ltb_lt in E. lia.
Qed.

Lemma resolve_loop_ok fuel st st' : resolution_ok M st → loop fuel st = Ok st' → resolution_ok M st' ∧ components st' = [].
Proof.
  revert st. induction fuel as [|fuel IH]; intros st Hst Hl; simpl in Hl; destruct (components st) as [|c rest] eqn:E; res_inv; try done.
  eapply IH; [|done]. by eapply resolve_step_ok.
Qed.

Lemma resolve_loop_raises fuel st :
  resolution_ok M st → (remaining st ≤ fuel)%nat → raises escape_or_cycle (loop fuel st).
Proof.
  revert st. induction fuel as [|fuel IH]; intros st Hst Hf; simpl; destruct (components st) as [|c rest] eqn:E; try done.
  - unfold remaining in Hf. rewrite E in Hf. simpl in Hf. lia.
  - apply raises_bind; [by apply resolve_step_raises|]. intros st' Hst'.
    destruct (resolve_step_ok st c rest st' Hst E Hst') as [Hok Hrem]. apply IH; [done|lia].
Qed.
End resolve.

(** Fuel beyond what a run needs changes nothing. *)
Lemma resolve_loop_mono relative symlinks M f1 f2 st r :
  (f1 ≤ f2)%nat → resolve_loop relative symlinks M f1 st = r → r ≠ Err OutOfFuel →
  resolve_loop relative symlinks M f2 st = r.
Proof.
  revert f2 st. induction f1 as [|f1 IH]; intros f2 st Hle H Hr.
  - simpl in H. destruct (components st) as [|c rest] eqn:E; [|by subst]. destruct f2; simpl; by rewrite E.
  - destruct f2 as [|f2]; [lia|]. simpl in *. destruct (components st) as [|c rest] eqn:E; [done|].
    destruct (resolve_step _ _ _ _ _ _) as [st'|e] eqn:Es; [|done]. simpl in *. apply IH; [lia|done|done].
Qed.

(** *** A link met on the way resolves on its own, through links that were met after it *)

Section embedded.
Context (symlinks M : dict text member) (Hi : link_index symlinks M).

(** [st'] runs the first components of [st]. *)
Record embeds (R : list text) (st st' : resolution) : Prop := {
  em_ok : resolution_ok M st;
  em_ok' : resolution_ok M st';
  em_components : components st = components st' ++ R;
  em_resolved : resolved_components st = resolved_components st';
  em_seen : seen st' ⊆ seen st;
}.

Lemma embeds_step r r' R st st' c rest st1 :
  embeds R st st' → components st' = c :: rest → resolve_step r symlinks M st c (rest ++ R) = Ok st1 →
  ∃ st1' D, resolve_step r' symlinks M st' c rest = Ok st1' ∧ embeds R st1 st1' ∧
    r_dependencies st1 = r_dependencies st ++ D ∧ r_dependencies st1' = r_dependencies st' ++ D.
Proof.
  intros [Hok Hok' Hcomp Hres Hseen] Hc Hstep. rewrite Hc in Hcomp. cbn [app] in Hcomp.
  assert (Hok1 : resolution_ok M st1) by (by apply (resolve_step_ok r symlinks M Hi st c (rest ++ R) st1)).
  pose proof (resolve_step_raises r' symlinks M Hi st' c rest Hok' Hc) as Hno.
  assert (Hgoal : ∀ st1' D, resolve_step r' symlinks M st' c rest = Ok st1' → components st1 = components st1' ++ R →
    resolved_components st1 = resolved_components st1' → seen st1' ⊆ seen st1 →
    r_dependencies st1 = r_dependencies st ++ D → r_dependencies st1' = r_dependencies st' ++ D →
    ∃ st1' D, resolve_step r' symlinks M st' c rest = Ok st1' ∧ embeds R st1 st1' ∧
      r_dependencies st1 = r_dependencies st ++ D ∧ r_dependencies st1' = r_dependencies st' ++ D).
  { intros st1' D Hs ? ? ? ? ?. exists st1', D. split; [done|]. split; [|done]. split; [done| |done..].
    by apply (resolve_step_ok r' symlinks M Hi st' c rest st1'). }
  clear Hok1. unfold resolve_step in *. cbn [resolved_components r_dependencies seen resolutions] in *. rewrite <- Hres in *.
  destruct (_ || _) in *; [res_inv; eapply (Hgoal _ []); rewrite ?app_nil_r; done|].
  case_bool_decide.
  { destruct (is_nil _) in *; [done|]. res_inv. eapply (Hgoal _ []); rewrite ?app_nil_r; done. }
  destruct (dget _ M) as [m|] eqn:Em; [|res_inv; eapply (Hgoal _ []); rewrite ?app_nil_r; done].
  destruct (issym m) eqn:Es; [|res_inv; eapply (Hgoal _ []); rewrite ?app_nil_r; done].
  res_inv. bool_inv. rewrite bool_decide_false in * by (intros Hin; by apply Hseen in Hin).
  cbn [raise_if mbind result_bind] in *. rewrite app_assoc in *.
  match type of Hno with context [raise_if ?b _] => assert (Hb : b = false) end.
  { apply not_true_is_false. intros Hb. rewrite Hb in Hno. by destruct Hno as [[? ?]|[? ?]]. }
  rewrite Hb in *. eapply (Hgoal _ [_]); [done|done|done| |done..].
  simpl. set_solver.
Qed.

Lemma embeds_run r r' R fuel st st' fin :
  embeds R st st' → resolve_loop r symlinks M fuel st = Ok fin →
  ∃ fuel1 fuel2 mid mid' D E, resolve_loop r' symlinks M fuel1 st' = Ok mid' ∧
    (fuel2 ≤ fuel)%nat ∧ resolve_loop r symlinks M fuel2 mid = Ok fin ∧ resolution_ok M mid ∧ components mid = R ∧
    resolved_components mid = resolved_components mid' ∧
    r_dependencies mid' = r_dependencies st' ++ D ∧ r_dependencies fin = r_dependencies st ++ D ++ E.
Proof.
  assert (Hgrow : ∀ fuel st fin, resolve_loop r symlinks M fuel st = Ok fin → resolution_ok M st →
    ∃ E, r_dependencies fin = r_dependencies st ++ E).
  { clear fuel st st' fin. induction fuel as [|fuel IH]; intros st fin Hl Hok; simpl in Hl;
      destruct (components st) as [|c rest] eqn:E; res_inv; try by (exists []; rewrite app_nil_r).
    assert (Hs : embeds [] st st) by (split; rewrite ?app_nil_r; done).
    destruct (embeds_step r r [] st st c rest x Hs E) as (st1' & D & H1 & Hem & HD & _); [by rewrite app_nil_r|].
    destruct (IH _ _ Hl) as [E' ->]; [apply Hem|]. exists (D ++ E'). by rewrite HD, app_assoc. }
  revert st st'. induction fuel as [|fuel IH]; intros st st' Hem Hl; destruct (components st') as [|c rest] eqn:Ec;
    pose proof (em_components _ _ _ Hem) as Hc; rewrite Ec in Hc.
  1, 3: destruct (Hgrow _ _ _ Hl (em_ok _ _ _ Hem)) as [E HE]; exists 0%nat; eexists _, st, st', [], E; simpl; rewrite Ec, app_nil_r;
    (split; [done|]); (split; [|split; [exact Hl|]]); [lia|]; destruct Hem; done.
  - simpl in Hl. rewrite Hc in Hl. done.
  - simpl in Hl. rewrite Hc in Hl. cbn [app] in Hl. res_inv.
    destruct (embeds_step r r' R st st' c rest x Hem Ec H) as (st1' & D & H1 & Hem1 & HD & HD').
    destruct (IH _ _ Hem1 Hl) as (fuel1 & fuel2 & mid & mid' & D2 & E & Hrun & Hle & Hrest & Hok & Hm & Hr & Hd & Hf).
    exists (S fuel1), fuel2, mid, mid', (D ++ D2), E. simpl. rewrite Ec, H1. simpl. split; [done|]. split; [lia|].
    do 4 (split; [done|]). rewrite Hd, Hf, HD, HD'. by rewrite <- !app_assoc.
Qed.
End embedded.

(** The state in which [_resolve_link_path] starts. *)
Definition initial (k : text) (m : member) : resolution :=
  {| components := _raw_link_components k (m_linkname m); resolved_components := []; r_dependencies := []; seen := [];
     resolutions := 0 |}.

Section links.
Context (symlinks M : dict text member) (Hi : link_index symlinks M).

Abbreviation resolve k := (_resolve_link_path k symlinks M).

Lemma initial_ok k m : resolution_ok M (initial k m).
Proof.
  constructor; simpl; try done; [apply raw_components_no_slash|constructor| |constructor].
  intros pre Hne Hpre. by apply prefix_nil_inv in Hpre.
Qed.

Lemma initial_remaining k m : remaining M (initial k m) = resolve_fuel k m M.
Proof. unfold remaining, resolve_fuel. simpl. by rewrite budget_nil. Qed.

Lemma resolve_Ok k t ds :
  resolve k = Ok (t, ds) ↔
  ∃ m st, dget k symlinks = Some m ∧ resolve_loop k symlinks M (resolve_fuel k m M) (initial k m) = Ok st ∧
    t = joined (resolved_components st) ∧ ds = r_dependencies st.
Proof.
  unfold _resolve_link_path. split.
  - intros H. res_inv. eexists _, _. split; [done|]. split; [done|]. by simplify_eq.
  - intros (m & st & Hm & Hl & -> & ->). rewrite Hm. simpl. unfold initial in Hl. by rewrite Hl.
Qed.

Lemma resolve_raises k : is_link M k → raises escape_or_cycle (resolve k).
Proof.
  intros (m & Hm & Hs). assert (Hk : dget k symlinks = Some m) by (by apply (li_links _ _ Hi)).
  unfold _resolve_link_path. rewrite Hk. simpl. apply raises_bind; [|done].
  apply (resolve_loop_raises k symlinks M Hi _ (initial k m)); [apply initial_ok|]. by rewrite initial_remaining.
Qed.

(** The result of a resolution: a plain path without links, reached through distinct links. *)
Lemma resolve_result k t ds :
  resolve k = Ok (t, ds) →
  ∃ cs, names_ok cs ∧ t = rel cs ∧ (∀ pre, pre ≠ [] → pre `prefix_of` cs → ¬ is_link M (rel pre)) ∧
    NoDup ds ∧ Forall (is_link M) ds.
Proof.
  intros (m & st & Hm & Hl & -> & ->)%resolve_Ok.
  destruct (resolve_loop_ok k symlinks M Hi _ _ _ (initial_ok k m) Hl) as [[_ Hr Hn Hnd Hlk Hd _] _].
  exists (resolved_components st). split; [done|]. split.
  - unfold joined. destruct (resolved_components st) as [|c cs]; [done|]. by rewrite os_join_all_rel.
  - split; [done|]. rewrite Hd. by rewrite reverse_Permutation.
Qed.

(** The state of a run in which it follows the link [d]. *)
Lemma run_meets r fuel st fin d :
  resolution_ok M st → resolve_loop r symlinks M fuel st = Ok fin → d ∈ r_dependencies fin → d ∉ r_dependencies st →
  ∃ fuel' st1 rest m, resolve_loop r symlinks M fuel' st1 = Ok fin ∧ resolution_ok M st1 ∧
    components st1 = _raw_link_components d (m_linkname m) ++ rest ∧ resolved_components st1 = [] ∧
    last (r_dependencies st1) = Some d ∧ dget d M = Some m ∧ issym m = true.
Proof.
  revert st. induction fuel as [|fuel IH]; intros st Hok Hl Hd Hnd; simpl in Hl;
    destruct (components st) as [|c rest] eqn:E; res_inv; try done.
  destruct (resolve_step_ok r symlinks M Hi st c rest x Hok E H) as [Hok1 _].
  destruct (decide (d ∈ r_dependencies x)) as [Hin|Hout]; [|by apply (IH x)].
  exists fuel, x. unfold resolve_step in H. cbn [resolved_components r_dependencies seen resolutions] in H.
  destruct (_ || _); [by res_inv; simpl in Hin|]. case_bool_decide; [by res_inv; simpl in Hin|].
  destruct (dget (os_join_all _) M) as [m|] eqn:Em; [|by res_inv; simpl in Hin]. destruct (issym m) eqn:Es; [|by res_inv; simpl in Hin].
  res_inv. simpl in Hin. apply elem_of_app in Hin as [?|Hin]; [done|]. apply list_elem_of_singleton in Hin as ->.
  exists rest, m. simpl. rewrite last_snoc. done.
Qed.

(** A run that ends with any fuel ends with the fuel that [_resolve_link_path] gives it. *)
Lemma resolve_any_fuel k m fuel st :
  resolve_loop k symlinks M fuel (initial k m) = Ok st → resolve_loop k symlinks M (resolve_fuel k m M) (initial k m) = Ok st.
Proof.
  intros Hrun. pose proof (resolve_loop_raises k symlinks M Hi (resolve_fuel k m M) (initial k m) (initial_ok k m)) as Hr.
  rewrite initial_remaining in Hr. specialize (Hr (le_n _)). set (top := Nat.max (resolve_fuel k m M) fuel).
  apply (resolve_loop_mono _ _ _ _ top) in Hrun; [|lia|done].
  destruct (resolve_loop k symlinks M (resolve_fuel k m M) (initial k m)) as [x|e] eqn:Ex;
    apply (resolve_loop_mono _ _ _ _ top) in Ex; [congruence|lia|done|congruence|lia|].
  intros [= ->]. by destruct Hr as [[? ?]|[? ?]].
Qed.

Lemma dependency_resolves r t ds d :
  resolve r = Ok (t, ds) → d ∈ ds →
  ∃ t' ds', resolve d = Ok (t', ds') ∧ ∃ pre post, ds = pre ++ d :: ds' ++ post.
Proof.
  intros (m & st & Hm & Hl & -> & ->)%resolve_Ok Hd.
  destruct (run_meets r _ _ _ d (initial_ok r m) Hl Hd) as (fuel & st1 & rest & md & Hrun & Hok & Hc & Hr & Hlast & Hmd & Hs);
    [apply not_elem_of_nil|].
  assert (Hem : embeds M rest st1 (initial d md)).
  { split; [done|apply initial_ok|done|done|]. intros x Hx. by apply elem_of_nil in Hx. }
  destruct (embeds_run symlinks M Hi r d rest fuel _ _ _ Hem Hrun) as (fuel' & _ & _ & mid & D & E & Hrun' & _ & _ & _ & _ & _ & HD & HE).
  apply resolve_any_fuel in Hrun'.
  exists (joined (resolved_components mid)), D. split.
  - apply resolve_Ok. exists md, mid. split; [by apply (li_links _ _ Hi)|]. split; [done|]. by rewrite HD.
  - apply last_Some in Hlast as [pre Hpre]. exists pre, E. rewrite HE, Hpre. by rewrite <- app_assoc.
Qed.

(** No link is its own dependency. *)
Lemma no_self_dependency r t ds : resolve r = Ok (t, ds) → r ∉ ds.
Proof.
  intros Hr Hin. destruct (dependency_resolves r t ds r Hr Hin) as (t' & ds' & Hr' & pre & post & Heq).
  rewrite Hr in Hr'. injection Hr' as <- <-. apply (f_equal length) in Heq. rewrite length_app in Heq. simpl in Heq.
  rewrite length_app in Heq. lia.
Qed.

Lemma dependency_shorter r t ds d t' ds' :
  resolve r = Ok (t, ds) → d ∈ ds → resolve d = Ok (t', ds') → ds' ⊆ ds ∧ (length ds' < length ds)%nat.
Proof.
  intros Hr Hin Hd. destruct (dependency_resolves r t ds d Hr Hin) as (t2 & ds2 & Hd2 & pre & post & ->).
  rewrite Hd in Hd2. simplify_eq. split; [set_solver|]. rewrite length_app. simpl. rewrite length_app. lia.
Qed.
End links.

(** ** The index *)

Record indexed (members : list (member * text)) (M : dict text member) : Prop := {
  ix_map : M = (λ x, (x.2, x.1)) <$> members;
  ix_keys : NoDup members.*2;
  ix_safe : ∀ m r, (m, r) ∈ members → ∃ cs, cs ≠ [] ∧ names_ok cs ∧ r = rel cs;
}.

Lemma index_member_ok st m st' :
  indexed st.1 st.2 → index_member st m = Ok st' → indexed st'.1 st'.2.
Proof.
  destruct st as [members M]. intros [Hm Hk Hs] H. unfold index_member in H. apply bind_Ok_inv in H as (r & Hr & H).
  apply member_path_safe in Hr as (cs & Hcs & ->). destruct (is_nil (rel cs)) eqn:E; [res_inv; by constructor|].
  apply bind_Ok_inv in H as (u & Hd & H). apply raise_if_Ok in Hd. unfold dmem in Hd. apply bool_decide_eq_false in Hd.
  res_inv. simpl in *.
  assert (Hnew : rel cs ∉ members.*2).
  { intros Hin. apply Hd. subst M. unfold dkeys. by rewrite <- list_fmap_compose. }
  constructor.
  - simpl in *. rewrite fmap_app. simpl. rewrite <- Hm. by apply dset_fresh.
  - rewrite fmap_app. apply NoDup_app. split; [done|]. split; [set_solver|]. apply NoDup_singleton.
  - intros m' r [Hin|Hin]%elem_of_app; [by eapply Hs|]. apply list_elem_of_singleton in Hin. simplify_eq.
    exists cs. split; [|done]. by intros ->.
Qed.

Lemma index_members_ok source members M : _index_members source = Ok (members, M) → indexed members M.
Proof.
  unfold _index_members. intros H. apply bind_Ok_inv in H as (st & Hf & H). destruct (t_damage source); [done|].
  apply Ok_inj in H. subst st. apply (foldM_inv (λ st, indexed st.1 st.2)) in Hf; [done| |].
  - intros st x st' _. apply index_member_ok.
  - constructor; simpl; [done|constructor|]. intros m r Hin. by apply elem_of_nil in Hin.
Qed.

Section indexed.
Context (members : list (member * text)) (M : dict text member) (Hx : indexed members M).

Lemma indexed_dict_ok : dict_ok M.
Proof. unfold dict_ok, dkeys. rewrite (ix_map _ _ Hx), <- list_fmap_compose. apply (ix_keys _ _ Hx). Qed.

Lemma indexed_lookup m r : dget r M = Some m ↔ (m, r) ∈ members.
Proof.
  split.
  - intros H%dget_Some_elem. rewrite (ix_map _ _ Hx) in H. apply list_elem_of_fmap in H as ([m' r'] & ? & H). by simplify_eq.
  - intros H. apply elem_dget; [apply indexed_dict_ok|]. rewrite (ix_map _ _ Hx).
    apply list_elem_of_fmap. by exists (m, r).
Qed.

Lemma select_items f : select f members = (λ x, (x.2, x.1)) <$> List.filter (λ x, f x.1) members.
Proof.
  unfold select. pose proof (ix_keys _ _ Hx) as Hk. revert Hk.
  assert (Hg : ∀ l acc, NoDup (dkeys acc ++ l.*2) →
    foldl (λ d '(m, r), if f m then dset r m d else d) acc l = acc ++ ((λ x : member * text, (x.2, x.1)) <$> List.filter (λ x, f x.1) l)).
  { induction l as [|[m r] l IH]; intros acc Hnd; simpl in *; [by rewrite app_nil_r|].
    assert (Hr : r ∉ dkeys acc). { apply NoDup_app in Hnd as (_ & Hd & _). intros Hin. apply (Hd r Hin). by left. }
    destruct (f m); simpl.
    - rewrite dset_fresh by done. rewrite IH; [by rewrite <- app_assoc|]. unfold dkeys. rewrite fmap_app. simpl.
      by rewrite <- app_assoc.
    - apply IH. eapply sublist_NoDup; [exact Hnd|]. apply sublist_app; [done|]. by apply sublist_cons. }
  intros Hk. by rewrite Hg.
Qed.

Lemma select_dict_ok f : dict_ok (select f members).
Proof.
  unfold dict_ok, dkeys. rewrite select_items, <- list_fmap_compose. eapply sublist_NoDup; [apply (ix_keys _ _ Hx)|].
  apply fmap_sublist. clear. induction members as [|x l IH]; simpl; [done|].
  destruct (f x.1); [by apply sublist_skip|by apply sublist_cons].
Qed.

Lemma select_lookup f k m : dget k (select f members) = Some m ↔ dget k M = Some m ∧ f m = true.
Proof.
  rewrite indexed_lookup. split.
  - intros H%dget_Some_elem. rewrite select_items in H. apply list_elem_of_fmap in H as ([m' r'] & ? & H). simplify_eq.
    apply list_elem_of_In, filter_In in H as [H Hf]. by rewrite list_elem_of_In.
  - intros [H Hf]. apply elem_dget; [apply select_dict_ok|]. rewrite select_items. apply list_elem_of_fmap. exists (m, k). split; [done|].
    apply list_elem_of_In, filter_In. by rewrite <- list_elem_of_In.
Qed.

Lemma indexed_links : link_index (select issym members) M.
Proof.
  split; [apply indexed_dict_ok| |apply select_lookup|apply select_dict_ok].
  intros k m Hk%indexed_lookup. by eapply (ix_safe _ _ Hx).
Qed.
End indexed.

(** The index of the demonstration archive. *)
Lemma demo_links : link_index demo_symlinks demo_index.2.
Proof. apply indexed_links, (index_members_ok demo_tar). vm_compute. reflexivity. Qed.

(** ** Termination *)

(** The resolution of a link always ends and never runs into its own bound on the number of links followed: it fails
    only for a link that leaves the root or meets a link a second time. Otherwise its result is a path of plain names
    without any link in it, reached through distinct links of the archive other than the link itself. *)
Theorem resolve_link_bounded symlinks M k :
  link_index symlinks M → is_link M k →
  match _resolve_link_path k symlinks M with
  | Ok (t, ds) => ∃ cs, names_ok cs ∧ t = rel cs ∧ (∀ pre, pre ≠ [] → pre `prefix_of` cs → ¬ is_link M (rel pre)) ∧
      NoDup ds ∧ Forall (is_link M) ds ∧ k ∉ ds
  | Err e => escape_or_cycle e
  end.
Proof.
  intros Hi Hk. pose proof (resolve_raises symlinks M Hi k Hk) as Hr.
  destruct (_resolve_link_path k symlinks M) as [[t ds]|e] eqn:E; [|done].
  destruct (resolve_result symlinks M Hi k t ds E) as (cs & ? & ? & ? & ? & ?). exists cs.
  repeat (split; [done|]). by eapply no_self_dependency.
Qed.

Lemma resolve_link_bounded_witness :
  is_link demo_index.2 (lit "etc/a") ∧
  ∃ cs, names_ok cs ∧ lit "usr/lib/x" = rel cs ∧ (∀ pre, pre ≠ [] → pre `prefix_of` cs → ¬ is_link demo_index.2 (rel pre)) ∧
    NoDup [lit "lib"] ∧ Forall (is_link demo_index.2) [lit "lib"] ∧ lit "etc/a" ∉ [lit "lib"].
Proof.
  assert (Hk : is_link demo_index.2 (lit "etc/a")) by (eexists; split; [vm_compute; reflexivity|reflexivity]).
  split; [exact Hk|]. exact (resolve_link_bounded demo_symlinks demo_index.2 (lit "etc/a") demo_links Hk).
Defined.

(** ** A link met twice is not a cycle *)

(** [/lib] is a link to usr/lib, [/usr/lib/x] a link to /lib/y, and [/etc/a] a link to /lib/x. *)
Definition merged_usr : tar := {|
  t_members := [
    demo_member "./lib" SYMTYPE 511 "usr/lib" [];
    demo_member "./usr/lib/x" SYMTYPE 511 "/lib/y" [];
    demo_member "./etc/a" SYMTYPE 511 "/lib/x" [];
    demo_member "./usr/lib/y" REGTYPE 420 "" (blit "data")];
  t_damage := None;
|}.

(** A plain unpacking of an archive into an empty root directory: missing parents are made, and every member is created under
    its own name, links with the targets that the archive gives. *)
Definition unpacked_path (name : text) : list text := List.filter (λ c, negb (bool_decide (c = []) || bool_decide (c = dot))) (split_on 47 name).
Definition make_parent (p : list text) (s : fs) (i : nat) : fs :=
  match tree s !! take i p with None => set_tree <[take i p := Dir 493]> s | Some _ => s end.
Definition unpack_member (s : fs) (m : member) : fs :=
  let p := unpacked_path (m_name m) in
  let s := foldl (make_parent p) s (seq 1 (length p - 1)) in
  match m_type m with
  | DIRTYPE => set_tree <[p := Dir (S_IMODE (m_mode m))]> s
  | SYMTYPE => set_tree <[p := Sym (m_linkname m)]> s
  | REGTYPE => let i := fresh_inode s in set_inodes <[i := (S_IMODE (m_mode m), m_data m)]> (set_tree <[p := Reg i]> s)
  | LNKTYPE => match tree s !! unpacked_path (m_linkname m) with Some n => set_tree <[p := n]> s | None => s end
  | OTHERTYPE => set_tree <[p := Special]> s
  end.
Definition unpack (source : tar) : fs :=
  foldl unpack_member {| tree := {[ [] := Dir 493 ]}; inodes := ∅; cwd := []; umask := 18 |} (t_members source).

(** C33: A link met twice on the way is reported as a cycle even when there is none: with a merged /usr, the chain
    etc/a -> /lib/x -> /lib/y passes the link lib twice. In the plainly unpacked archive the kernel follows every link, and
    etc/a to a regular file; the extraction of the archive ends with "symlink cycle involving: lib". *)
Theorem resolve_reports_no_cycle :
  (extract (λ _, Ok merged_usr) (lit "/a.tar") (abs out) demo_digest demo_fs).1 = Err (ValueError "symlink cycle involving: %s" [AText (lit "lib")]) ∧
  (∀ m, m ∈ t_members merged_usr → is_at (locate true (unpack merged_usr) (abs (unpacked_path (m_name m)))) = true) ∧
  file_bytes (unpack merged_usr) (lit "/etc/a") = Ok (blit "data").
Proof.
  split; [by_compute|]. split; [|by_compute]. apply Forall_forall. repeat constructor; vm_compute; reflexivity.
Qed.
