(* ===== verification/ExtractLinks.v ===== *)
(** * Extraction: the graph of symbolic links

    The depth-first validation accepts exactly the archives whose links all resolve to something that exists (or are
    allowed to dangle), and the order in which links are created puts every link after the links it leads through. *)
From S2P Require Import Prelude Bytes PyText Hashing Collections PosixPath FileTree ExtractTree ExtractDemo ExtractPaths.

Section graph.
Context (exists_ : text → bool) (root : text) (symlinks M : dict text member) (Hi : link_index symlinks M).

Abbreviation resolve k := (_resolve_link_path k symlinks M).
Abbreviation visit := (visit_symlink exists_ root symlinks M).

Definition acceptable (k t : text) : bool :=
  exists_ (os_join root t) || bool_decide (k ∈ _ALLOWED_DANGLING_SYMLINKS).

Definition dangling (k : text) : exn :=
  ValueError "dangling symlink: %s -> %s" [AText k; AText (from_option m_linkname [] (dget k symlinks))].

(** A reason to refuse the archive: a link that does not resolve, or one that dangles. *)
Definition broken (e : exn) : Prop :=
  ∃ k, is_link M k ∧
    (resolve k = Err e ∨ ∃ t ds, resolve k = Ok (t, ds) ∧ acceptable k t = false ∧ e = dangling k).

(** The invariant: a link is done when it is recorded, accepted, and its dependencies are done. *)
Definition done_in (g : link_graph) (k : text) : Prop :=
  ∃ t ds, resolve k = Ok (t, ds) ∧ acceptable k t = true ∧ dget k (g_resolved g) = Some t ∧
    dget k (g_dependencies g) = Some ds.
Definition graph_ok (g : link_graph) : Prop := ∀ k, dget k (g_state g) = Some Done → done_in g k.

(** What a visit changes. *)
Record advances (g g' : link_graph) : Prop := {
  ad_done : ∀ v, dget v (g_state g) = Some Done → dget v (g_state g') = Some Done;
  ad_visiting : ∀ v, dget v (g_state g') = Some Visiting ↔ dget v (g_state g) = Some Visiting;
}.

Lemma advances_refl g : advances g g.
Proof. by split. Qed.
Lemma advances_trans g1 g2 g3 : advances g1 g2 → advances g2 g3 → advances g1 g3.
Proof. intros [H1 H2] [H3 H4]. split; [auto|]. intros v. by rewrite H4, H2. Qed.

Definition enter (g : link_graph) (k : text) : link_graph :=
  {| g_state := dset k Visiting (g_state g); g_resolved := g_resolved g; g_dependencies := g_dependencies g |}.
Definition leave (g : link_graph) (k t : text) (ds : list text) : link_graph :=
  {| g_state := dset k Done (g_state g); g_resolved := dset k t (g_resolved g);
     g_dependencies := dset k ds (g_dependencies g) |}.
Definition visit_all (fuel : nat) (k : text) (g : link_graph) (ds : list text) : result link_graph :=
  foldM (λ g d, if bool_decide (d = k) then mret g else visit fuel g d) g ds.

Lemma visit_S fuel g k :
  visit (S fuel) g k =
    match dget k (g_state g) with
    | Some Visiting => Err (ValueError "symlink cycle involving: %s" [AText k])
    | Some Done => Ok g
    | None =>
        '(t, ds) ← resolve k;
        g ← visit_all fuel k (enter g k) ds;
        raise_if (negb (acceptable k t)) (dangling k);; mret (leave g k t ds)
    end.
Proof.
  unfold acceptable, dangling. cbn [visit_symlink]. destruct (dget k (g_state g)) as [[]|]; try done.
  destruct (resolve k) as [[t ds]|]; [|done]. cbn [mbind result_bind]. unfold visit_all.
  destruct (foldM _ _ _); [|done]. cbn [mbind result_bind]. by rewrite negb_orb.
Qed.

Lemma enter_ok g k : dget k (g_state g) = None → graph_ok g → graph_ok (enter g k).
Proof.
  intros Hk Hg v. simpl. rewrite dget_dset. case_decide; [done|]. intros Hv. destruct (Hg v Hv) as (t & ds & ?). by exists t, ds.
Qed.

Lemma leave_ok g k t ds : graph_ok g → resolve k = Ok (t, ds) → acceptable k t = true → graph_ok (leave g k t ds).
Proof.
  intros Hg Hk Ha v. simpl. unfold done_in. simpl. rewrite !dget_dset. case_decide as Hv.
  - subst v. intros _. by exists t, ds.
  - intros Hd. destruct (Hg v Hd) as (tv & dv & ?). by exists tv, dv.
Qed.

Lemma enter_leave g g' k t ds :
  dget k (g_state g) = None → advances (enter g k) g' → advances g (leave g' k t ds).
Proof.
  intros Hk [Hd Hv]. split; intros v; simpl in *; rewrite dget_dset; case_decide as Hvk; subst; try done.
  - intros Hg. apply Hd. by rewrite dget_dset, decide_False.
  - split; [done|congruence].
  - rewrite Hv, dget_dset, decide_False by done. done.
Qed.

Lemma visit_sound fuel g k g' :
  graph_ok g → visit fuel g k = Ok g' → graph_ok g' ∧ dget k (g_state g') = Some Done ∧ advances g g'.
Proof.
  revert g k g'. induction fuel as [|fuel IH]; intros g k g' Hg Hv; [done|]. rewrite visit_S in Hv.
  destruct (dget k (g_state g)) as [[]|] eqn:Ek; [done| |].
  { res_inv. split; [done|]. split; [done|]. apply advances_refl. }
  destruct (resolve k) as [[t ds]|] eqn:Er; [|done]. cbn [mbind result_bind] in Hv. res_inv. bool_inv.
  assert (Hall : ∀ l g1 g2, graph_ok g1 → visit_all fuel k g1 l = Ok g2 → graph_ok g2 ∧ advances g1 g2).
  { clear -IH. induction l as [|d l IHl]; intros g1 g2 Hg1 Hl; unfold visit_all in *; simpl in Hl.
    - res_inv. split; [done|apply advances_refl].
    - res_inv. case_bool_decide; [res_inv; by apply IHl|]. destruct (IH _ _ _ Hg1 H) as (Hx & _ & Ha).
      destruct (IHl _ _ Hx Hl) as [? ?]. split; [done|]. by eapply advances_trans. }
  destruct (Hall _ _ _ (enter_ok g k Ek Hg) H) as [Hx Hadv].
  split; [by apply leave_ok|]. split; [|by eapply enter_leave]. simpl. by rewrite dget_dset, decide_True.
Qed.

(** A visit fails only over a broken link: the ancestors being visited all depend on [k], so [k] is not one of them. *)
Lemma visit_raises fuel g k :
  graph_ok g → is_link M k →
  (∀ t ds, resolve k = Ok (t, ds) → (length ds < fuel)%nat) → (0 < fuel)%nat →
  (∀ v, dget v (g_state g) = Some Visiting → ∃ tv dv, resolve v = Ok (tv, dv) ∧ k ∈ dv) →
  raises broken (visit fuel g k).
Proof.
  revert g k. induction fuel as [|fuel IH]; intros g k Hg Hk Hf Hpos Hanc; [lia|]. rewrite visit_S.
  destruct (dget k (g_state g)) as [[]|] eqn:Ek; [| done |].
  { destruct (Hanc k Ek) as (tv & dv & Hr & Hin). by destruct (no_self_dependency symlinks M Hi _ _ _ Hr). }
  destruct (resolve k) as [[t ds]|e] eqn:Er; [|exists k; by auto]. cbn [mbind result_bind].
  destruct (resolve_result symlinks M Hi k t ds Er) as (_ & _ & _ & _ & _ & Hlinks).
  assert (Hall : ∀ l g1, l ⊆ ds → graph_ok g1 →
    (∀ v, dget v (g_state g1) = Some Visiting ↔ v = k ∨ dget v (g_state g) = Some Visiting) →
    raises broken (visit_all fuel k g1 l)).
  { induction l as [|d l IHl]; intros g1 Hsub Hg1 Hvis; [done|]. unfold visit_all. cbn [foldM].
    assert (Hd : d ∈ ds) by (apply Hsub; by left).
    rewrite bool_decide_false by (intros ->; by eapply (no_self_dependency symlinks M Hi)).
    apply raises_bind.
    - rewrite Forall_forall in Hlinks. apply IH; [done|by apply Hlinks| | |].
      + intros td dd Hdd. specialize (Hf _ _ eq_refl).
        destruct (dependency_shorter symlinks M Hi k t ds d td dd Er Hd Hdd). lia.
      + specialize (Hf _ _ eq_refl). destruct ds; [by apply elem_of_nil in Hd|]. simpl in Hf. lia.
      + intros v [->|Hv]%Hvis; [by exists t, ds|]. destruct (Hanc v Hv) as (tv & dv & Hrv & Hkv).
        exists tv, dv. split; [done|].
        by destruct (dependency_shorter symlinks M Hi v tv dv k t ds Hrv Hkv Er) as [Hss _]; apply Hss.
    - intros g2 Hg2. destruct (visit_sound _ _ _ _ Hg1 Hg2) as (Hok2 & _ & Hadv). apply IHl; [|done|].
      + intros x Hx. apply Hsub. by right.
      + intros v. by rewrite (ad_visiting _ _ Hadv), Hvis. }
  apply raises_bind.
  - apply Hall; [done|by apply enter_ok|]. intros v. simpl. rewrite dget_dset. case_decide; naive_solver.
  - intros g1 _. destruct (acceptable k t) eqn:Ea; [done|]. simpl. exists k. split; [done|]. right. by exists t, ds.
Qed.

Lemma symlink_key_link k : k ∈ dkeys symlinks ↔ is_link M k.
Proof.
  split.
  - intros (p & -> & Hp)%list_elem_of_fmap. destruct p as [k m]. exists m. apply (li_links _ _ Hi).
    by apply elem_dget; [apply (li_links_ok _ _ Hi)|].
  - intros (m & Hm). apply (li_links _ _ Hi), dget_Some_elem in Hm. by apply (list_elem_of_fmap_2 fst) in Hm.
Qed.

Lemma validate_loop l g :
  (∀ k, k ∈ l → is_link M k) → graph_ok g → (∀ v, dget v (g_state g) ≠ Some Visiting) →
  match foldM (visit (visit_fuel symlinks)) g l with
  | Ok g' => graph_ok g' ∧ (∀ k, k ∈ l → dget k (g_state g') = Some Done) ∧ (∀ v, dget v (g_state g) = Some Done → dget v (g_state g') = Some Done)
  | Err e => broken e
  end.
Proof.
  revert g. induction l as [|k l IH]; intros g Hl Hg Hv; cbn [foldM].
  { split; [done|]. split; [|done]. intros k Hk. by apply elem_of_nil in Hk. }
  assert (Hr : raises broken (visit (visit_fuel symlinks) g k)).
  { apply visit_raises; [done|apply Hl; by left| |unfold visit_fuel; lia|].
    - intros t ds Hr. destruct (resolve_result symlinks M Hi k t ds Hr) as (_ & _ & _ & _ & Hnd & Hlinks).
      pose proof (links_bound _ _ _ Hi Hnd Hlinks). unfold visit_fuel. lia.
    - intros v Hvis. by destruct (Hv v). }
  destruct (visit _ g k) as [g1|e] eqn:E; [|done]. cbn [mbind result_bind].
  destruct (visit_sound _ _ _ _ Hg E) as (Hg1 & Hk & Hadv).
  specialize (IH g1 ltac:(intros; apply Hl; by right) Hg1 ltac:(intros v Hvis; by apply (ad_visiting _ _ Hadv), Hv in Hvis)).
  destruct (foldM _ _ _); [|done]. destruct IH as (Hok & Hdone & Hmono). split; [done|]. split.
  - intros x [->|Hx]%elem_of_cons; auto.
  - intros v Hd. apply Hmono, (ad_done _ _ Hadv), Hd.
Qed.

(** Validation succeeds exactly when no link is broken, and then records how each link resolves. *)
Lemma validate_spec :
  match _validate_symlink_graph exists_ root symlinks M with
  | Ok (resolved, dependencies) =>
      ∀ k, is_link M k → ∃ t ds, resolve k = Ok (t, ds) ∧ acceptable k t = true ∧ dget k resolved = Some t ∧
        dget k dependencies = Some ds
  | Err e => broken e
  end.
Proof.
  unfold _validate_symlink_graph.
  pose proof (validate_loop (sorted_texts (dkeys symlinks)) {| g_state := []; g_resolved := []; g_dependencies := [] |}) as H.
  destruct (foldM _ _ _) as [g|e].
  - simpl. intros k Hk. destruct H as (Hok & Hdone & _); [|by intros ?|by intros ?|].
    + intros x Hx. unfold sorted_texts in Hx. rewrite merge_sort_Permutation in Hx. by apply symlink_key_link.
    + apply Hok, Hdone. unfold sorted_texts. rewrite merge_sort_Permutation. by apply symlink_key_link.
  - apply H; [|by intros ?|by intros ?]. intros x Hx. unfold sorted_texts in Hx. rewrite merge_sort_Permutation in Hx.
    by apply symlink_key_link.
Qed.
End graph.

(** ** The order of creation *)

Lemma foldr_max_ge (l : list Z) x : x ∈ l → x <= foldr Z.max 0 l.
Proof. induction l as [|y l IH]; [by intros ?%elem_of_nil|]. intros [->|Hx]%elem_of_cons; simpl; [lia|]. specialize (IH Hx). lia. Qed.

Section order.
Context (symlinks M : dict text member) (Hi : link_index symlinks M) (D : dict text (list text)).
Context (HD : ∀ k, is_link M k → ∃ t ds, _resolve_link_path k symlinks M = Ok (t, ds) ∧ dget k D = Some ds).

Abbreviation resolve k := (_resolve_link_path k symlinks M).

Lemma depth_total fuel k t ds :
  is_link M k → resolve k = Ok (t, ds) → (length ds < fuel)%nat → ∃ n, depth fuel D k = Ok n.
Proof.
  revert k t ds. induction fuel as [|fuel IH]; intros k t ds Hk Hr Hf; [lia|]. cbn [depth].
  destruct (HD k Hk) as (t' & ds' & Hr' & ->). rewrite Hr in Hr'. simplify_eq. cbn [of_option mbind result_bind].
  destruct (resolve_result symlinks M Hi k _ _ Hr) as (_ & _ & _ & _ & _ & Hlinks). rewrite Forall_forall in Hlinks.
  assert (Hall : ∃ ns, mapM (depth fuel D) ds' = Ok ns); [|destruct Hall as [ns ->]; simpl; eauto].
  assert (Hsub : ds' ⊆ ds') by done. revert Hsub. generalize ds' at 1 3 as l.
  induction l as [|d l IHl]; intros Hsub; [by exists []|]. simpl.
  assert (Hd : d ∈ ds') by (apply Hsub; by left). destruct (dependency_resolves symlinks M Hi _ _ _ _ Hr Hd) as (td & dd & Hdd & _).
  destruct (IH d td dd) as [n ->]; [by apply Hlinks|done| |].
  { destruct (dependency_shorter symlinks M Hi _ _ _ _ _ _ Hr Hd Hdd). lia. }
  destruct IHl as [ns Hns]; [intros x Hx; apply Hsub; by right|]. simpl in *. rewrite Hns. simpl. eauto.
Qed.

Lemma depth_mono f1 f2 k n : (f1 ≤ f2)%nat → depth f1 D k = Ok n → depth f2 D k = Ok n.
Proof.
  revert f2 k n. induction f1 as [|f1 IH]; intros f2 k n Hle H; [done|]. destruct f2 as [|f2]; [lia|].
  cbn [depth] in *. apply bind_Ok_inv in H as (ds & -> & H). apply bind_Ok_inv in H as (ns & Hns & H). simpl.
  apply mapM_Forall2 in Hns. rewrite (proj2 (mapM_Forall2 _ _ ns)); [done|]. eapply Forall2_impl; [exact Hns|].
  intros d y Hd. apply IH; [lia|done].
Qed.

(** A link is deeper than the links it leads through. *)
Lemma depth_dependency fuel k n d nd ds :
  depth fuel D k = Ok n → dget k D = Some ds → d ∈ ds → depth fuel D d = Ok nd → nd < n.
Proof.
  destruct fuel as [|fuel]; [done|]. intros Hk Hds Hd Hnd. cbn [depth] in Hk. rewrite Hds in Hk. simpl in Hk.
  apply bind_Ok_inv in Hk as (ns & H & Hk). res_inv. apply mapM_Forall2 in H. apply list_elem_of_lookup in Hd as [i Hd].
  destruct (Forall2_lookup_l _ _ _ _ _ H Hd) as (y & Hy & Hdy). apply (depth_mono _ (S fuel)) in Hdy; [|lia].
  rewrite Hnd in Hdy. simplify_eq. apply list_elem_of_lookup_2, foldr_max_ge in Hy. lia.
Qed.
End order.

Lemma text_leb_total a b : text_leb a b = false → text_leb b a = true.
Proof. intros H. destruct (text_le_total a b) as [H'|H']; unfold text_le in H'; congruence. Qed.

Lemma text_leb_trans a b c : text_leb a b = true → text_leb b c = true → text_leb a c = true.
Proof. apply text_le_trans. Qed.

Lemma depth_lt_spec a b : depth_lt a b = true ↔ a.1 < b.1 ∨ (a.1 = b.1 ∧ text_leb b.2 a.2 = false).
Proof. unfold depth_lt. rewrite orb_true_iff, andb_true_iff, negb_true_iff, Z.ltb_lt, Z.eqb_eq. done. Qed.

Lemma depth_lt_false a b : depth_lt a b = false ↔ b.1 < a.1 ∨ (a.1 = b.1 ∧ text_leb b.2 a.2 = true).
Proof.
  rewrite <- not_true_iff_false, depth_lt_spec. destruct (text_leb b.2 a.2); lia.
Qed.

Lemma depth_lt_asym x y : depth_lt x y = true → depth_lt y x = false.
Proof.
  rewrite depth_lt_spec, depth_lt_false. intros [?|[? Ht]]; [by left|]. right. split; [done|]. by apply text_leb_total.
Qed.

Lemma depth_lt_trans x y z : depth_lt x y = true → depth_lt z y = false → depth_lt z x = false.
Proof.
  rewrite depth_lt_spec, !depth_lt_false. intros [?|[? Ht]] [?|[? Hz]]; [lia..|lia|]. right. split; [lia|].
  eapply text_leb_trans; [|exact Hz]. by apply text_leb_total.
Qed.

(** The links in the order in which [_resolve_symlink_graph] creates them: all of them, each after its dependencies. *)
Lemma links_by_depth_spec symlinks M D :
  link_index symlinks M →
  (∀ k, is_link M k → ∃ t ds, _resolve_link_path k symlinks M = Ok (t, ds) ∧ dget k D = Some ds) →
  ∃ order, links_by_depth D (dkeys symlinks) = Ok order ∧ order ≡ₚ dkeys symlinks ∧
    (∀ l1 k l2 ds d, order = l1 ++ k :: l2 → dget k D = Some ds → d ∈ ds → d ∈ l1).
Proof.
  intros Hi HD. unfold links_by_depth. set (f := λ item, d ← depth _ D item; mret (d, item)).
  assert (Hbound : ∀ k t ds, _resolve_link_path k symlinks M = Ok (t, ds) → (length ds < S (length D))%nat).
  { intros k t ds Hr. destruct (resolve_result symlinks M Hi k _ _ Hr) as (_ & _ & _ & _ & Hnd & Hl).
    apply le_n_S. rewrite <- (length_fmap fst D). apply submseteq_length, NoDup_submseteq; [done|].
    intros d Hd. rewrite Forall_forall in Hl. destruct (HD d (Hl d Hd)) as (? & dd & _ & Hdd).
    apply dget_Some_elem in Hdd. by apply (list_elem_of_fmap_2 fst) in Hdd. }
  assert (Htot : ∀ k, k ∈ dkeys symlinks → ∃ n, depth (S (length D)) D k = Ok n).
  { intros k Hk%(symlink_key_link symlinks M Hi). destruct (HD k Hk) as (t & ds & Hr & _).
    eapply (depth_total symlinks M Hi D HD); eauto. }
  assert (Hall : ∀ l, l ⊆ dkeys symlinks → ∃ keyed, mapM f l = Ok keyed ∧ keyed.*2 = l).
  { induction l as [|k l IH]; intros Hsub; [by exists []|]. destruct (Htot k) as [n Hn]; [apply Hsub; by left|].
    destruct IH as (keyed & Hk & Heq); [intros x Hx; apply Hsub; by right|].
    exists ((n, k) :: keyed). split; [|by rewrite fmap_cons, Heq].
    change (mapM f (k :: l)) with (y ← f k; ys ← mapM f l; mret (y :: ys)). assert (Hf : f k = Ok (n, k)) by (unfold f; by rewrite Hn).
    by rewrite Hf, Hk. }
  destruct (Hall (dkeys symlinks)) as (keyed & Hk & Heq); [done|]. rewrite Hk. simpl. eexists. split; [done|]. split.
  { by rewrite stable_sort_perm, Heq. }
  intros l1 k l2 ds d Ho Hds Hd.
  pose proof (stable_sort_sorted depth_lt depth_lt_trans depth_lt_asym keyed) as Hsort.
  apply mapM_Forall2 in Hk.
  assert (Hdepth : ∀ n x, (n, x) ∈ stable_sort depth_lt keyed → depth (S (length D)) D x = Ok n ∧ x ∈ dkeys symlinks).
  { intros n x Hx. rewrite stable_sort_perm in Hx. split.
    - apply list_elem_of_lookup in Hx as [i Hx]. destruct (Forall2_lookup_r _ _ _ _ _ Hk Hx) as (y & _ & Hy).
      unfold f in Hy. res_inv. by simplify_eq.
    - rewrite <- Heq. by apply (list_elem_of_fmap_2 snd) in Hx. }
  apply fmap_app_inv in Ho as (k1 & k2 & -> & Hk2 & Ho). symmetry in Hk2.
  apply fmap_cons_inv in Hk2 as ([n k'] & k3 & -> & -> & ->). rewrite Ho in Hsort, Hdepth. simpl in Hds.
  destruct (Hdepth n k') as [Hn Hkin]; [set_solver|].
  assert (Hlink : is_link M d).
  { apply (symlink_key_link symlinks M Hi) in Hkin. destruct (HD k' Hkin) as (t & ds' & Hr & Hds'). simplify_eq.
    destruct (resolve_result symlinks M Hi k' _ _ Hr) as (_ & _ & _ & _ & _ & Hl). rewrite Forall_forall in Hl. auto. }
  assert (Hin : d ∈ (k1 ++ (n, k') :: k3).*2).
  { rewrite <- Ho, stable_sort_perm, Heq. by apply (symlink_key_link symlinks M Hi). }
  apply list_elem_of_fmap in Hin as ([nd d'] & -> & Hin). cbn [fst snd] in *. destruct (Hdepth nd d' Hin) as [Hnd _].
  pose proof (depth_dependency D _ _ _ _ _ _ Hn Hds Hd Hnd) as Hlt.
  apply elem_of_app in Hin as [Hin|Hin]; [by apply (list_elem_of_fmap_2 snd) in Hin|].
  apply StronglySorted_app_1_r in Hsort. inv Hsort.
  apply elem_of_cons in Hin as [?|Hin]; [simplify_eq; lia|]. rewrite Forall_forall in H2.
  specialize (H2 _ Hin). simpl in H2. apply depth_lt_false in H2. simpl in H2. lia.
Qed.

(** The depth-first validation of the link graph accepts an archive exactly when every link resolves to something that
    exists or may dangle; it then knows the resolved target and the dependencies of each link, and the links are created in
    an order that contains each of them once and after every link it leads through. Otherwise the error names a broken
    link: the validation never reports a cycle of its own and never runs out of depth. *)
Theorem symlink_graph_exact exists_ root symlinks M :
  link_index symlinks M →
  match _validate_symlink_graph exists_ root symlinks M with
  | Ok (resolved, dependencies) =>
      (∀ k, is_link M k → ∃ t ds, _resolve_link_path k symlinks M = Ok (t, ds) ∧ acceptable exists_ root k t = true ∧
         dget k resolved = Some t ∧ dget k dependencies = Some ds) ∧
      ∃ order, links_by_depth dependencies (dkeys symlinks) = Ok order ∧ order ≡ₚ dkeys symlinks ∧
        (∀ l1 k l2 ds d, order = l1 ++ k :: l2 → dget k dependencies = Some ds → d ∈ ds → d ∈ l1)
  | Err e => broken exists_ root symlinks M e
  end.
Proof.
  intros Hi. pose proof (validate_spec exists_ root symlinks M Hi) as Hv.
  destruct (_validate_symlink_graph exists_ root symlinks M) as [[resolved D]|e]; [|done]. split; [done|].
  apply (links_by_depth_spec symlinks M); [done|]. intros k Hk. destruct (Hv k Hk) as (t & ds & ? & _ & _ & ?). eauto.
Qed.

(** In the demonstration archive [lib] is created before [etc/a], which leads through it. *)
Lemma symlink_graph_exact_witness :
  match _validate_symlink_graph (λ _, true) (abs out) demo_symlinks demo_index.2 with
  | Ok (resolved, dependencies) =>
      (∀ k, is_link demo_index.2 k → ∃ t ds, _resolve_link_path k demo_symlinks demo_index.2 = Ok (t, ds) ∧
         acceptable (λ _, true) (abs out) k t = true ∧ dget k resolved = Some t ∧ dget k dependencies = Some ds) ∧
      ∃ order, links_by_depth dependencies (dkeys demo_symlinks) = Ok order ∧ order ≡ₚ dkeys demo_symlinks ∧
        (∀ l1 k l2 ds d, order = l1 ++ k :: l2 → dget k dependencies = Some ds → d ∈ ds → d ∈ l1)
  | Err e => broken (λ _, true) (abs out) demo_symlinks demo_index.2 e
  end.
Proof. apply symlink_graph_exact. apply demo_links. Defined.
