(* ===== verification/ExtractConfined.v ===== *)
(** * Extraction: nothing is written outside the output

    Every step of the extraction, whether it succeeds or raises, changes the tree only below the output directory: parents
    are created and checked one by one, so each name that is written is an entry of a physical directory below it. *)
From S2P Require Import Prelude Bytes PyText Hashing Collections PosixPath FileTree ExtractTree ExtractDemo ExtractPaths.

Section below.
Context (rs : list text) (Hrs : names_ok rs) (Hne : rs ≠ []).

Abbreviation root := (abs rs).

(** An invariant that survives the creation of directories and files at free names below the output directory. *)
Record stable (I : fs → Prop) : Prop := {
  st_dirs : ∀ s, I s → dirs s rs;
  st_mkdir : ∀ s d c, I s → names_ok (d ++ [c]) → dirs s (rs ++ d) → tree s !! ((rs ++ d) ++ [c]) = None →
    I (put ((rs ++ d) ++ [c]) (Dir 493) s);
  st_file : ∀ s d c x, I s → names_ok (d ++ [c]) → dirs s (rs ++ d) → tree s !! ((rs ++ d) ++ [c]) = None →
    I (new_file ((rs ++ d) ++ [c]) x s);
}.

Lemma names_below d c : names_ok (d ++ [c]) → names_ok ((rs ++ d) ++ [c]).
Proof. intros H. rewrite <- app_assoc. by apply names_ok_app. Qed.

Lemma join_root cs : cs ≠ [] → names_ok cs → os_join root (rel cs) = abs (rs ++ cs).
Proof. intros. by apply os_join_abs. Qed.

Lemma join_entry d c : names_ok (d ++ [c]) → os_join (abs (rs ++ d)) c = abs ((rs ++ d) ++ [c]).
Proof.
  intros H%names_below. apply names_ok_app in H as [H1 H2]. change c with (rel [c]) at 1. by apply os_join_abs.
Qed.

(** The creation of parents needs the invariant only at the prefixes of the path. *)
Section parents.
Context (I : fs → Prop) (all : list text) (Hroot : ∀ s, I s → dirs s rs).
Context (Hmk : ∀ s d c, I s → names_ok (d ++ [c]) → d ++ [c] `prefix_of` all → dirs s (rs ++ d) →
  tree s !! ((rs ++ d) ++ [c]) = None → I (put ((rs ++ d) ++ [c]) (Dir 493) s)).

Lemma parent_loop message ds pre :
  names_ok (pre ++ ds) → pre ++ ds = all →
  triple (λ s, I s ∧ dirs s (rs ++ pre))
    (fold_io (λ parent part,
       if bool_decide (part = []) then mret parent
       else
         let parent := os_join parent part in
         present ← os_lexists parent;
         (if (present : bool) then
            directory ← lstat_isdir parent;
            if (directory : bool) then mret tt
            else raise message
          else os_mkdir parent;; os_chmod parent 493);;
         mret parent) (abs (rs ++ pre)) ds)
    (λ p s, p = abs (rs ++ pre ++ ds) ∧ I s ∧ dirs s (rs ++ pre ++ ds)) (λ _, I).
Proof.
  revert pre. induction ds as [|c ds IH]; intros pre Hok Hall; cbn [fold_io].
  { apply triple_ret. intros s [Hs Hd]. by rewrite app_nil_r. }
  replace (pre ++ c :: ds) with ((pre ++ [c]) ++ ds) in Hok, Hall |- * by (by rewrite <- app_assoc).
  assert (Hc : names_ok (pre ++ [c])) by (by apply names_ok_app in Hok as [? _]).
  assert (Hcn : c ≠ []). { apply names_ok_app in Hc as [_ Hc]. inv Hc. by apply name_ok_spec in H1 as [? _]. }
  rewrite bool_decide_false by done. cbv zeta. rewrite join_entry by done.
  eapply (triple_bind _ _ _ (λ p s, p = abs ((rs ++ pre) ++ [c]) ∧ I s ∧ dirs s ((rs ++ pre) ++ [c]))).
  - intros s [Hs Hd]. pose proof (names_below pre c Hc) as Hok'. rewrite io_bind_eq, lexists_entry by done.
    destruct (tree s !! _) as [n|] eqn:E.
    + rewrite io_bind_eq, io_bind_eq, lstat_isdir_entry, E by done. destruct n; simpl; try done.
      split; [done|]. split; [done|]. by eapply dirs_snoc.
    + rewrite io_bind_eq, mkdir_chmod by done. simpl. split; [done|].
      split; [apply Hmk; [done|done|by exists ds|done..]|]. apply (dirs_snoc _ _ _ 493); [by apply dirs_put_dir|].
      simpl. by rewrite lookup_insert_eq.
  - intros p. intros s (-> & Hs & Hd). rewrite <- app_assoc in Hd |- *. apply (IH (pre ++ [c]) Hok Hall s). done.
Qed.

Lemma parent_gen c :
  names_ok (all ++ [c]) →
  triple I (_parent root (rel (all ++ [c]))) (λ p s, p = abs (rs ++ all) ∧ I s ∧ dirs s (rs ++ all)) (λ _, I).
Proof.
  intros Hok. apply names_ok_app in Hok as [Hds Hc]. unfold _parent.
  assert (Hs : 47 ∉ c). { inv Hc. by apply name_ok_spec in H1 as (_ & _ & _ & ?). }
  rewrite dirname_rel by done. destruct (decide (all = [])) as [->|Hd].
  - simpl. intros s Hs'. simpl. rewrite app_nil_r. split; [done|]. split; [done|]. by apply Hroot.
  - rewrite split_rel by done. pose proof (parent_loop
      (ValueError "archive member parent is not a directory: %s" [AText (rel (all ++ [c]))]) all []) as Hl.
    rewrite app_nil_r in Hl. eapply triple_conseq; [by apply Hl| |done|done].
    intros s Hs'. split; [done|]. by apply Hroot.
Qed.
End parents.

Section specs.
Context (I : fs → Prop) (HI : stable I).

(** [_parent] leaves the name itself alone. *)
Lemma parent_spec d c x :
  names_ok (d ++ [c]) →
  triple (λ s, I s ∧ tree s !! ((rs ++ d) ++ [c]) = x) (_parent root (rel (d ++ [c])))
    (λ p s, I s ∧ dirs s (rs ++ d) ∧ tree s !! ((rs ++ d) ++ [c]) = x) (λ _, I).
Proof.
  intros Hok. eapply triple_conseq.
  - apply (parent_gen (λ s, I s ∧ tree s !! ((rs ++ d) ++ [c]) = x) d); [|  |done].
    + intros s [Hs _]. by apply (st_dirs _ HI).
    + intros s d' c' [Hs Hx] Hok' [k Hk] Hd Hf. split; [by apply (st_mkdir _ HI)|]. simpl. rewrite lookup_insert_ne; [done|].
      rewrite <- app_assoc. intros Heq%(f_equal length). subst d. rewrite !length_app in Heq. simpl in Heq. lia.
  - done.
  - naive_solver.
  - naive_solver.
Qed.

(** *** Regular members *)

Lemma materialize_directory_spec (J : fs → Prop) d c m :
  names_ok (d ++ [c]) →
  (∀ s, I s → dirs s (rs ++ d) → (∀ n, tree s !! ((rs ++ d) ++ [c]) = Some n → ∃ o, n = Dir o) →
     J (put ((rs ++ d) ++ [c]) (Dir (S_IMODE (m_mode m))) s)) →
  triple I (_materialize_directory root (rel (d ++ [c])) m) (λ _, J) (λ _, I).
Proof.
  intros Hok HJ. pose proof (names_below d c Hok) as Hok'. unfold _materialize_directory.
  rewrite join_root by (done || by destruct d). rewrite app_assoc.
  intros s Hs. pose proof (parent_spec d c _ Hok s (conj Hs eq_refl)) as Hp. rewrite io_bind_eq.
  destruct (_parent _ _ s) as [[p|e] s1]; [|done]. destruct Hp as (Hs1 & Hd & _). clear s Hs.
  rewrite io_bind_eq, lexists_entry by done. destruct (tree s1 !! _) as [n|] eqn:E.
  - rewrite !io_bind_eq, lstat_isdir_entry, E by done. destruct n as [o| | |]; try done. cbn [io_when negb].
    assert (Hn : ∀ t, tree s1 !! ((rs ++ d) ++ [c]) ≠ Some (Sym t)) by congruence.
    rewrite io_ret_eq. cbn iota. rewrite io_bind_eq, exists_entry, E by done. cbn [negb io_when].
    rewrite io_bind_eq. rewrite io_ret_eq. cbn iota. rewrite chmod_entry, E by done.
    apply HJ; [done|done|]. rewrite E. naive_solver.
  - rewrite io_bind_eq. rewrite io_ret_eq. cbn iota.
    rewrite io_bind_eq, exists_entry, E by (done || congruence). cbn [negb io_when].
    rewrite mkdir_chmod by done. apply HJ; [done|done|]. by rewrite E.
Qed.

(** The data of a member that turns out to be damaged stays behind with the default mode. *)
Lemma materialize_file_spec (J : fs → Prop) d c m :
  names_ok (d ++ [c]) →
  (∀ s, I s → dirs s (rs ++ d) → tree s !! ((rs ++ d) ++ [c]) = None →
     J (new_file ((rs ++ d) ++ [c]) (S_IMODE (m_mode m), m_data m) s)) →
  triple I (_materialize_file root (rel (d ++ [c])) m) (λ _, J) (λ _, I).
Proof.
  intros Hok HJ. pose proof (names_below d c Hok) as Hok'. unfold _materialize_file.
  rewrite join_root by (done || by destruct d). rewrite app_assoc.
  intros s Hs. pose proof (parent_spec d c _ Hok s (conj Hs eq_refl)) as Hp. rewrite io_bind_eq.
  destruct (_parent _ _ s) as [[p|e] s1]; [|done]. destruct Hp as (Hs1 & Hd & _). clear s Hs.
  rewrite io_bind_eq, lexists_entry by done. destruct (tree s1 !! _) as [n|] eqn:E; [done|].
  cbn [io_when]. rewrite io_bind_eq. rewrite io_ret_eq. cbn iota. rewrite io_bind_eq.
  destruct (isfile m); [|done]. cbn [io_when negb]. rewrite io_ret_eq. cbn iota.
  destruct (m_damage m) as [e|].
  - rewrite io_bind_eq, write_new by done. by apply (st_file _ HI).
  - rewrite write_chmod by done. by apply HJ.
Qed.

(** *** Placeholders in a tree without links *)

Context (Hplain : ∀ s, I s → plain rs s) (Hwf : ∀ s, I s → wf s).

Lemma plain_entry s d c t : I s → tree s !! ((rs ++ d) ++ [c]) ≠ Some (Sym t).
Proof. intros Hs. rewrite <- app_assoc. by apply Hplain. Qed.

Lemma exists_plain s d c :
  I s → names_ok (d ++ [c]) →
  os_exists (abs ((rs ++ d) ++ [c])) s =
    (Ok (match tree s !! ((rs ++ d) ++ [c]) with Some _ => true | None => false end), s).
Proof.
  intros Hs Hok. pose proof (names_below d c Hok) as Hok'. destruct (tree s !! _) as [n|] eqn:E.
  - rewrite exists_entry, E; [done|done|by eapply wf_dirs; auto|]. intros t. by apply plain_entry.
  - pose proof (locate_direct true s rs (d ++ [c])) as Hl. rewrite app_assoc in Hl. unfold os_exists, gets.
    specialize (Hl Hok' ltac:(by destruct d) (st_dirs _ HI s Hs) (plain_direct rs s _ _ (Hplain s Hs))).
    destruct (locate true s _) as [[p n|p x]|e]; simpl in *; [|done..]. naive_solver.
Qed.

Lemma place_missing d c :
  names_ok (d ++ [c]) →
  keeps I (
    let path := os_join root (rel (d ++ [c])) in
    present ← os_exists path;
    io_when (negb present) (_parent root (rel (d ++ [c]));; write_file path [];; os_chmod path 420)).
Proof.
  intros Hok s Hs. pose proof (names_below d c Hok) as Hok'. cbv zeta. rewrite join_root by (done || by destruct d).
  rewrite app_assoc. rewrite io_bind_eq, exists_plain by done. destruct (tree s !! _) as [n|] eqn:E; [done|].
  cbn [negb io_when]. pose proof (parent_spec d c _ Hok s (conj Hs E)) as Hp. rewrite io_bind_eq.
  destruct (_parent _ _ s) as [[p|e] s1]; [|done]. destruct Hp as (Hs1 & Hd & Hf).
  rewrite write_chmod by done. by apply (st_file _ HI).
Qed.

Lemma runtime_link_targets_keep : keeps I (_materialize_runtime_link_targets root).
Proof.
  apply keeps_for_each. intros relative Hr.
  assert (Hsafe : ∃ d c, relative = rel (d ++ [c]) ∧ names_ok (d ++ [c])); [|destruct Hsafe as (d & c & -> & Hok); by apply place_missing].
  unfold runtime_link_targets in Hr. apply list_elem_of_fmap in Hr as (x & -> & Hx).
  repeat (apply elem_of_cons in Hx as [->|Hx]); [..|by apply elem_of_nil in Hx].
  all: match goal with |- context [lit ?x] =>
    exists (take (length (split_on 47 (lit x)) - 1) (split_on 47 (lit x))), (List.last (split_on 47 (lit x)) []) end.
  all: split; [vm_compute; reflexivity|repeat constructor].
Qed.

Lemma isdir_plain s cs :
  I s → cs ≠ [] → names_ok cs → match locate true s (abs (rs ++ cs)) with Ok (At _ (Dir _)) => dirs s (rs ++ cs) | _ => True end.
Proof.
  intros Hs Hcs Hok. pose proof (locate_direct true s rs cs) as Hl.
  specialize (Hl ltac:(by apply names_ok_app) Hcs (st_dirs _ HI s Hs) (plain_direct rs s _ _ (Hplain s Hs))).
  destruct (locate true s _) as [[p [o| | |]|p x]|e]; simpl in *; try done. destruct Hl as (-> & Hn & Hd).
  destruct (exists_last Hcs) as (d & c & ->). rewrite app_assoc in *. rewrite parent_snoc in Hd. by eapply dirs_snoc.
Qed.

Lemma empty_directories_keep symlinks : keeps I (_materialize_empty_directory_symlink_targets root symlinks).
Proof.
  apply keeps_for_each. intros [relative [target expected]] Hr.
  assert (Hsafe : ∃ cs, target = rel cs ∧ cs ≠ [] ∧ names_ok cs).
  { unfold _EMPTY_DIRECTORY_SYMLINK_TARGETS in Hr.
    repeat (apply elem_of_cons in Hr as [Hr|Hr]); [..|by apply elem_of_nil in Hr]; injection Hr as -> -> ->;
    match goal with |- context [lit ?x] => exists (split_on 47 (lit x)) end;
    (split; [vm_compute; reflexivity|split; [done|repeat constructor]]). }
  destruct Hsafe as (cs & -> & Hcs & Hok). set (name := lit ".rules_mkosi_empty_directory").
  assert (Hok2 : names_ok (cs ++ [name])) by (apply names_ok_app; split; [done|by repeat constructor]).
  pose proof (names_below cs name Hok2) as Hok3.
  destruct (dget relative symlinks) as [m|]; [|apply keeps_ret]. apply keeps_if; [apply keeps_ret|].
  cbv zeta. rewrite join_root by done. rewrite join_entry by done.
  intros s Hs. pose proof (isdir_plain s cs Hs Hcs Hok) as Hdir. rewrite io_bind_eq. unfold os_isdir at 1, gets at 1.
  destruct (locate true s _) as [[p [o| | |]|p x]|e]; try done; try (by rewrite io_bind_eq).
  rewrite io_bind_eq. unfold os_islink, gets. destruct (locate false s _) as [[p' [o'| | |]|p' x]|e]; try done.
  all: cbn [negb orb]; rewrite io_bind_eq, exists_plain by done; destruct (tree s !! _) as [n|] eqn:E; [done|];
    cbn [negb io_when]; rewrite write_chmod by done; by apply (st_file _ HI).
Qed.

(** The certificate bundle may overwrite a file of the archive. *)
Definition bundle_path : list text := split_on 47 (lit "etc/ssl/certs").
Definition bundle_name : text := lit "ca-certificates.crt".

Lemma ca_bundle_keep :
  (∀ s i f, I s → tree s !! ((rs ++ bundle_path) ++ [bundle_name]) = Some (Reg i) → I (set_inodes (alter f i) s)) →
  keeps I (_write_ca_bundle root).
Proof.
  intros Hrew. assert (Hok : names_ok (bundle_path ++ [bundle_name])) by (by repeat constructor).
  pose proof (names_below _ _ Hok) as Hok'. unfold _write_ca_bundle.
  apply keeps_bind; [apply keeps_gets|]. intros found. apply keeps_bind; [destruct found; [apply keeps_gets|apply keeps_ret]|].
  intros certificates. apply keeps_when. intros _. cbv zeta.
  change (lit "etc/ssl/certs/ca-certificates.crt") with (rel (bundle_path ++ [bundle_name])).
  rewrite join_root by done. rewrite app_assoc.
  set (p := (rs ++ bundle_path) ++ [bundle_name]) in *.
  set (K := λ s, I s ∧ dirs s (rs ++ bundle_path) ∧ ∃ n, tree s !! p = Some n ∧ (n = Special ∨ ∃ i, n = Reg i)).
  assert (Hwrite : ∀ data, triple (λ s, I s ∧ dirs s (rs ++ bundle_path)) (write_file (abs p) data) (λ _, K) (λ _, I)).
  { intros data s [Hs Hd]. unfold p. rewrite write_entry; [|done|done|intros t; by apply plain_entry]. fold p.
    destruct (tree s !! p) as [[| | |]|] eqn:E; try done.
    - split; [by apply Hrew|]. split; [by eapply dirs_tree_eq|]. simpl. eauto.
    - split; [done|]. split; [done|]. eauto.
    - split; [by apply (st_file _ HI)|]. split; [by apply dirs_new_file|].
      eexists. split; [apply new_file_node|eauto]. }
  assert (HK : ∀ s, K s → I s) by (by intros s [? _]).
  intros s Hs. pose proof (parent_spec _ _ _ Hok s (conj Hs eq_refl)) as Hp. rewrite io_bind_eq.
  destruct (_parent _ _ s) as [[p'|e] s1]; [|done]. destruct Hp as (Hs1 & Hd & _). clear s Hs.
  match goal with |- match ?m s1 with _ => _ end => enough (Hm : triple (λ s, I s ∧ dirs s (rs ++ bundle_path)) m (λ _, I) (λ _, I))
    by (by apply Hm) end.
  eapply triple_bind; [apply Hwrite|]. intros []. eapply (triple_bind _ _ _ (λ _, K)).
  - clear s1 Hs1 Hd. generalize (@nil byte) at 3 as written. induction certificates as [|cert l IH]; intros written; cbn [fold_io].
    { by apply triple_ret. }
    eapply triple_bind; [|intros written'; apply IH]. eapply (triple_bind _ _ _ (λ _, K)).
    { intros s HKs. unfold read_file. destruct (file_bytes s cert); [done|by apply HK]. }
    intros data. cbv zeta. eapply (triple_bind _ _ _ (λ _, K)); [|intros ?; by apply triple_ret].
    eapply triple_conseq; [apply Hwrite| |done|done]. by intros s (? & ? & _).
  - intros _ s (Hs & Hd' & n & Hn & Hcase). unfold p. rewrite chmod_entry; [|done|done|intros t; by apply plain_entry].
    fold p. rewrite Hn. destruct Hcase as [->|[i ->]]; [done|]. by apply Hrew.
Qed.

End specs.

(** *** Links *)

Section links.
Context (I : fs → Prop) (HI : stable I).

(** [make] is called with a free name of a physical directory. *)
Lemma create_link_spec (J : fs → Prop) d c make :
  names_ok (d ++ [c]) →
  triple (λ s, I s ∧ dirs s (rs ++ d) ∧ tree s !! ((rs ++ d) ++ [c]) = None) (make (abs ((rs ++ d) ++ [c]))) (λ _, J) (λ _, I) →
  triple I (create_link root (rel (d ++ [c])) make) (λ _, J) (λ _, I).
Proof.
  intros Hok Hmake s Hs. pose proof (names_below d c Hok) as Hok'. unfold create_link.
  rewrite join_root by (done || by destruct d). rewrite app_assoc.
  pose proof (parent_spec I HI d c _ Hok s (conj Hs eq_refl)) as Hp. rewrite io_bind_eq.
  destruct (_parent _ _ s) as [[p|e] s1]; [|done]. destruct Hp as (Hs1 & Hd & _). clear s Hs.
  rewrite io_bind_eq, lexists_entry by done. destruct (tree s1 !! _) as [n|] eqn:E; [done|]. cbn [io_when].
  rewrite io_bind_eq, io_ret_eq. cbn iota. by apply Hmake.
Qed.

Lemma hardlink_spec (J : fs → Prop) d c cs :
  names_ok (d ++ [c]) → names_ok cs → cs ≠ [] → (∀ s, I s → plain rs s) →
  (∀ s n, I s → dirs s (rs ++ d) → tree s !! ((rs ++ d) ++ [c]) = None → tree s !! (rs ++ cs) = Some n →
     (∀ m, n ≠ Dir m) → J (put ((rs ++ d) ++ [c]) n s)) →
  triple I (create_link root (rel (d ++ [c])) (os_link (os_join root (rel cs)))) (λ _, J) (λ _, I).
Proof.
  intros Hok Hcs Hne' Hplain HJ. pose proof (names_below d c Hok) as Hok'. apply create_link_spec; [done|].
  rewrite join_root by done. intros s (Hs & Hd & E). unfold os_link, update.
  pose proof (locate_direct false s rs cs) as Hl.
  specialize (Hl ltac:(by apply names_ok_app) Hne' (st_dirs _ HI s Hs) (plain_direct rs s _ _ (Hplain s Hs))).
  destruct (locate false s (abs (rs ++ cs))) as [[q n|q x]|e]; cbn [found_at mbind result_bind] in *; [| |done].
  - destruct Hl as (-> & Hn & _). rewrite locate_entry, E by done. cbn [mbind result_bind].
    destruct n as [o| | |]; try done; by apply HJ.
  - rewrite locate_entry, E by done. done.
Qed.

(** The text of the link that [make_symlink] writes. *)
Definition link_text (s : fs) (relative : text) (m : member) (target : text) : text :=
  if startswith (m_linkname m) [47]
  then relpath (abs (cwd s)) (os_join root target) (dirname (os_join root relative)) else m_linkname m.

Lemma symlink_spec (J : fs → Prop) d c m resolved :
  names_ok (d ++ [c]) →
  (∀ s t, I s → dirs s (rs ++ d) → tree s !! ((rs ++ d) ++ [c]) = None → dget (rel (d ++ [c])) resolved = Some t →
     J (put ((rs ++ d) ++ [c]) (Sym (link_text s (rel (d ++ [c])) m t)) s)) →
  triple I (create_link root (rel (d ++ [c])) (make_symlink root (rel (d ++ [c])) m resolved)) (λ _, J) (λ _, I).
Proof.
  intros Hok HJ. pose proof (names_below d c Hok) as Hok'. apply create_link_spec; [done|].
  intros s (Hs & Hd & E). unfold make_symlink. rewrite io_bind_eq. unfold lift.
  destruct (dget _ resolved) as [t|] eqn:Er; [|done]. cbn [of_option]. rewrite io_bind_eq. unfold gets.
  rewrite symlink_entry, E by done. case_bool_decide; [done|].
  specialize (HJ s t Hs Hd E eq_refl). unfold link_text in HJ. rewrite join_root in HJ by (done || by destruct d).
  by rewrite app_assoc in HJ.
Qed.
End links.
End below.
