(* ===== verification/ExtractProofs.v ===== *)
(** * Extraction: the whole run

    [extract] changes the tree only below its output directory. *)
From S2P Require Import Prelude Bytes PyText Hashing Collections PosixPath FileTree ExtractTree ExtractDemo ExtractPaths ExtractLinks ExtractConfined.

(** ** Hard link targets *)

Section hardlinks.
Context (hardlinks M : dict text member).

Definition file_member (t : text) : Prop := ∃ m, dget t M = Some m ∧ isfile m = true.
Definition targets_ok (g : hard_graph) : Prop := ∀ k t, dget k (h_targets g) = Some t → file_member t.

(** A hard link leads to a regular file of the archive. *)
Lemma visit_hardlink_target fuel g k t g' :
  targets_ok g → visit_hardlink hardlinks M fuel g k = Ok (t, g') → file_member t ∧ targets_ok g'.
Proof.
  revert g k t g'. induction fuel as [|fuel IH]; intros g k t g' Hg H; [done|]. cbn [visit_hardlink] in H.
  destruct (dget k (h_state g)) as [[]|]; [done| |].
  { res_inv. simplify_eq. split; [by eapply Hg|done]. }
  res_inv. destruct x2 as [t' g2]. res_inv. simplify_eq.
  assert (Hstep : file_member t ∧ targets_ok g2).
  { destruct (islnk x1); [by apply IH in H3|]. destruct (isfile x1) eqn:Ef; [|done]. res_inv. simplify_eq. split; [|done]. by eexists. }
  destruct Hstep as [Ht Hg2]. split; [done|]. intros k' t'. simpl. rewrite dget_dset. case_decide; [naive_solver|]. apply Hg2.
Qed.
End hardlinks.

(** ** Confinement *)

Section confinement.
Context (s0 : fs) (rs : list text) (Hrs : names_ok rs) (Hne : rs ≠ []).

Abbreviation root := (abs rs).

(** The tree differs from [s0] only below the output; with [b], it has no links there. *)
Definition conf (b : bool) (s : fs) : Prop := confined s0 rs s ∧ wf s ∧ (b = true → plain rs s).

Lemma conf_put b s d c n :
  conf b s → dirs s (rs ++ d) → tree s !! ((rs ++ d) ++ [c]) = None →
  (∀ i, n = Reg i → inodes s0 !! i = None) → (b = true → ∀ t, n ≠ Sym t) → conf b (put ((rs ++ d) ++ [c]) n s).
Proof.
  intros (Hc & Hw & Hp) Hd Hf Hi Hn. split; [|split].
  - rewrite <- app_assoc. apply confined_put; [done|by destruct d|done].
  - by apply wf_put_new.
  - intros Hb. rewrite <- app_assoc. apply plain_put; auto.
Qed.

Lemma conf_new b s d c x :
  conf b s → dirs s (rs ++ d) → tree s !! ((rs ++ d) ++ [c]) = None → conf b (new_file ((rs ++ d) ++ [c]) x s).
Proof.
  intros Hs Hd Hf. pose proof (conf_put b s d c (Reg (fresh_inode s)) Hs Hd Hf) as Hput.
  destruct Hs as (Hc & _ & _). destruct Hput as (_ & Hw & Hp); [|done|].
  - intros i [= <-]. by eapply fresh_outside.
  - split; [|split; [by eapply wf_tree_eq|exact Hp]]. unfold new_file. rewrite <- app_assoc.
    apply confined_create; [done|by destruct d].
Qed.

Lemma conf_chmod b s cs m o : conf b s → tree s !! (rs ++ cs) = Some (Dir o) → conf b (put (rs ++ cs) (Dir m) s).
Proof.
  intros (Hc & Hw & Hp) Ho. split; [|split].
  - destruct (decide (cs = [])) as [->|Hcs]; [|by apply confined_put].
    rewrite app_nil_r in *. destruct Hc as [Hout Hino Hown Hroot]. constructor; simpl; [| done | |by apply dirs_put_dir].
    + intros p Hnp. rewrite lookup_insert_ne; [by apply Hout|]. intros <-. by apply Hnp.
    + intros p i Hpre. destruct (decide (rs = p)) as [<-|Hnep]; [by rewrite lookup_insert_eq|].
      rewrite lookup_insert_ne by done. by apply Hown.
  - by eapply wf_put_dir.
  - intros Hb. apply plain_put; [by apply Hp|done].
Qed.

Lemma conf_stable b : stable rs (conf b).
Proof.
  split.
  - intros s (Hc & _). apply Hc.
  - intros s d c Hs Hok Hd Hf. by apply conf_put.
  - intros s d c x Hs Hok Hd Hf. by apply conf_new.
Qed.

Lemma conf_rewrite b s d c i f :
  conf b s → tree s !! ((rs ++ d) ++ [c]) = Some (Reg i) → conf b (set_inodes (alter f i) s).
Proof.
  intros (Hc & Hw & Hp) Hi. split; [|split; [by eapply wf_tree_eq|exact Hp]]. apply confined_alter; [done|].
  eapply (cf_own _ _ _ Hc); [|exact Hi]. rewrite <- app_assoc. by exists (d ++ [c]).
Qed.

Lemma conf_weaken b s : conf b s → conf false s.
Proof. intros (? & ? & _). by split; [|split]. Qed.

Lemma safe_snoc r : (∃ cs, cs ≠ [] ∧ names_ok cs ∧ r = rel cs) → ∃ d c, r = rel (d ++ [c]) ∧ names_ok (d ++ [c]).
Proof. intros (cs & Hn & Hok & ->). destruct (exists_last Hn) as (d & c & ->). by exists d, c. Qed.

Lemma regular_members_keep members M : indexed members M → keeps (conf true) (_materialize_regular_members root members).
Proof.
  intros Hx. apply keeps_for_each. intros [m r] Hin. rewrite stable_sort_perm in Hin.
  destruct (safe_snoc r (ix_safe _ _ Hx m r Hin)) as (d & c & -> & Hok).
  destruct (isdir m); [|destruct (isfile m); [|apply keeps_when; intros; apply keeps_raise]].
  - apply materialize_directory_spec; [done|apply conf_stable|done|]. intros s Hs Hd Hn.
    destruct (tree s !! _) as [n|] eqn:E.
    + destruct (Hn n eq_refl) as [o ->]. rewrite <- app_assoc in *. by eapply conf_chmod.
    + by apply conf_put.
  - apply materialize_file_spec; [done|apply conf_stable|done|]. intros s Hs Hd Hf. by apply conf_new.
Qed.

Lemma hardlink_graph_keep members M :
  indexed members M → keeps (conf true) (_resolve_hardlink_graph root (select islnk members) M).
Proof.
  intros Hx. unfold _resolve_hardlink_graph. apply keeps_bind; [|intros; apply keeps_ret].
  set (keys := sorted_texts _). assert (Hkeys : ∀ k, k ∈ keys → ∃ m, (m, k) ∈ members).
  { intros k Hk. unfold keys, sorted_texts in Hk. rewrite merge_sort_Permutation in Hk.
    apply list_elem_of_fmap in Hk as ([k' m] & -> & Hk). exists m.
    apply (indexed_lookup _ _ Hx), (proj1 (select_lookup _ _ Hx islnk k' m)), elem_dget; [|done]. by eapply select_dict_ok. }
  assert (Hg : targets_ok M {| h_state := []; h_targets := [] |}) by done. revert Hg.
  generalize {| h_state := []; h_targets := [] |} as g. induction keys as [|k keys IH]; intros g Hg; cbn [fold_io]; [apply keeps_ret|].
  assert (Hall : ∀ x, x ∈ keys → ∃ m, (m, x) ∈ members) by (intros; apply Hkeys; by right).
  destruct (Hkeys k) as [mk Hk]; [by left|]. destruct (safe_snoc k (ix_safe _ _ Hx mk k Hk)) as (d & c & -> & Hok).
  eapply (triple_bind _ _ _ (λ g' s, conf true s ∧ targets_ok M g')).
  - unfold keeps, lift. intros s Hs. rewrite io_bind_eq.
    destruct (visit_hardlink _ _ _ _ _) as [[t g']|e] eqn:Ev; [|done].
    apply visit_hardlink_target in Ev as [(m & Hm & Hf) Hg']; [|done]. rewrite io_bind_eq.
    apply (indexed_lookup _ _ Hx) in Hm. destruct (ix_safe _ _ Hx m t Hm) as (cs & Hcs & Hcok & ->).
    pose proof (hardlink_spec rs Hrs (conf true) (conf_stable true) (conf true) d c cs Hok Hcok Hcs) as Hl.
    assert (Hl' : keeps (conf true) (create_link root (rel (d ++ [c])) (os_link (os_join root (rel cs))))).
    { apply Hl; [by intros s' (_ & _ & Hp); apply Hp|]. intros s' n Hs' Hd Hfree Hn Hnd. apply conf_put; [done|done|done| |].
      - intros i ->. eapply (cf_own _ _ _ (proj1 Hs')); [|exact Hn]. by exists cs.
      - intros _ t ->. destruct Hs' as (_ & _ & Hp). by apply Hp in Hn. }
    specialize (Hl' s Hs). destruct (create_link _ _ _ s) as [[[]|e] s']; done.
  - intros g' s [Hs Hg']. by apply (IH Hall g' Hg').
Qed.

Lemma symlink_graph_keep members M b :
  indexed members M → triple (conf b) (_resolve_symlink_graph root (select issym members) M) (λ _, conf false) (λ _, conf false).
Proof.
  intros Hx. pose proof (indexed_links _ _ Hx) as Hi. intros s Hs%conf_weaken. unfold _resolve_symlink_graph.
  rewrite io_bind_eq. pose proof (validate_spec (λ p, is_at (locate true s p)) root _ _ Hi) as Hv.
  destruct (_validate_symlink_graph _ _ _ _) as [[resolved deps]|e]; [|done].
  destruct (links_by_depth_spec _ _ deps Hi) as (order & Ho & Hperm & _).
  { intros k Hk. destruct (Hv k Hk) as (t & ds & Hr & _ & _ & Hd). eauto. }
  rewrite io_bind_eq. unfold lift. rewrite Ho. apply (keeps_for_each (conf false) order); [|done].
  intros k Hk. rewrite Hperm in Hk. apply (symlink_key_link _ _ Hi) in Hk as (m & Hm & Hs').
  assert (Hk : dget k (select issym members) = Some m) by (by apply (select_lookup _ _ Hx)).
  rewrite Hk. apply (indexed_lookup _ _ Hx) in Hm. destruct (safe_snoc k (ix_safe _ _ Hx m k Hm)) as (d & c & -> & Hok).
  apply (symlink_spec rs Hrs (conf false) (conf_stable false)); [done|].
  intros s' t Hs'' Hd Hf _. by apply conf_put.
Qed.

Lemma extract_members_keep source :
  triple (conf true) (_extract_members source root) (λ _, conf false) (λ _, conf false).
Proof.
  unfold _extract_members. intros s Hs. rewrite io_bind_eq. unfold lift.
  destruct (_index_members source) as [[members M]|e] eqn:E; [|by eapply conf_weaken].
  apply index_members_ok in E. revert s Hs.
  assert (Hp : ∀ s, conf true s → plain rs s) by (by intros s (_ & _ & Hp); apply Hp).
  assert (Hw : ∀ s, conf true s → wf s) by (by intros s (_ & Hw & _)).
  assert (Hk : ∀ m, keeps (conf true) m → triple (conf true) m (λ _ : unit, conf true) (λ _, conf false)).
  { intros m Hm. eapply triple_conseq; [exact Hm|done|done|]. intros e s. apply conf_weaken. }
  change (triple (conf true) (_materialize_regular_members root members;; _write_ca_bundle root;;
    _materialize_runtime_link_targets root;; _materialize_empty_directory_symlink_targets root (select issym members);;
    _resolve_hardlink_graph root (select islnk members) M;; _resolve_symlink_graph root (select issym members) M)
    (λ _, conf false) (λ _, conf false)).
  eapply triple_bind; [apply Hk; by eapply regular_members_keep|]. intros [].
  eapply triple_bind; [apply Hk, (ca_bundle_keep rs Hrs _ (conf_stable true) Hp); intros s i f Hs; apply (conf_rewrite _ _ _ _ _ _ Hs)|]. intros [].
  eapply triple_bind; [apply Hk, (runtime_link_targets_keep rs Hrs _ (conf_stable true) Hp Hw)|]. intros [].
  eapply triple_bind; [apply Hk, (empty_directories_keep rs Hrs _ (conf_stable true) Hp Hw)|]. intros [].
  eapply triple_bind; [apply Hk; by apply hardlink_graph_keep|]. intros []. by apply symlink_graph_keep.
Qed.

(** *** The namespace mount points and the links of a merged /usr *)

Lemma conf_delete s d c n :
  conf false s → tree s !! ((rs ++ d) ++ [c]) = Some n → (∀ m, n = Dir m → entries_of s ((rs ++ d) ++ [c]) = []) →
  conf false (set_tree (delete ((rs ++ d) ++ [c])) s).
Proof.
  intros (Hc & Hw & _) Hn He. split; [|split; [by eapply wf_delete|done]].
  rewrite <- app_assoc. apply confined_delete; [done|by destruct d].
Qed.

Lemma top_entry c s : name_ok c = true → conf false s →
  os_join root c = abs (rs ++ [c]) ∧ names_ok (rs ++ [c]) ∧ dirs s rs.
Proof.
  intros Hc (Hs & _). assert (Hok : names_ok [c]) by (by constructor). split; [|split; [by apply names_ok_app|apply Hs]].
  change c with (rel [c]) at 1. by apply os_join_abs.
Qed.

Definition mount_root (relative : text) : io unit :=
  let destination := os_join root relative in
  present ← os_lexists destination;
  (if (present : bool) then
     directory ← lstat_isdir destination;
     if (directory : bool) then mret tt
     else raise (ValueError "required namespace mount root is not a directory: %s" [AText relative])
   else _parent root relative;; os_mkdir destination);;
  os_chmod destination 493.

Lemma parent_top c s : name_ok c = true → _parent root c s = (Ok root, s).
Proof.
  intros (_ & _ & _ & Hc)%name_ok_spec. unfold _parent, dirname. by rewrite rpartition_absent.
Qed.

Lemma mount_root_spec c q :
  name_ok c = true →
  triple (λ s, conf false s ∧ dirs s q) (mount_root c) (λ _ s, conf false s ∧ dirs s q ∧ dirs s (rs ++ [c])) (λ _, conf false).
Proof.
  intros Hc s [Hs Hq]. destruct (top_entry c s Hc Hs) as (Hj & Hok & Hd). unfold mount_root. rewrite Hj. cbv zeta.
  rewrite io_bind_eq, lexists_entry by done. destruct (tree s !! _) as [n|] eqn:E.
  - rewrite !io_bind_eq, lstat_isdir_entry, E by done. destruct n as [o| | |]; try done. rewrite io_ret_eq. cbn iota.
    rewrite chmod_entry, E by (done || congruence). split; [by eapply conf_chmod|]. split; [by apply dirs_put_dir|].
    apply (dirs_snoc _ _ _ 493); [by apply dirs_put_dir|]. simpl. by rewrite lookup_insert_eq.
  - rewrite !io_bind_eq, parent_top by done. pose proof (mkdir_chmod s rs c Hok Hd E 493) as Hm. rewrite io_bind_eq in Hm.
    rewrite Hm. pose proof (conf_put false s [] c (Dir 493)) as Hp. rewrite app_nil_r in Hp.
    split; [by apply Hp|]. split; [by apply dirs_put_dir|].
    apply (dirs_snoc _ _ _ 493); [by apply dirs_put_dir|]. simpl. by rewrite lookup_insert_eq.
Qed.

Lemma mount_roots_keep : keeps (conf false) (_prepare_mount_roots root).
Proof.
  unfold _prepare_mount_roots. change (for_each mount_roots _) with (for_each mount_roots mount_root).
  eapply (triple_bind _ _ _ (λ _ s, conf false s ∧ dirs s (rs ++ [lit "etc"]))).
  - change (for_each mount_roots mount_root) with (mount_root (lit "etc") ≫= λ _, for_each (tail mount_roots) mount_root).
    eapply triple_bind; [eapply triple_conseq; [by apply (mount_root_spec (lit "etc") rs)| | |]|].
    + intros s Hs. split; [done|]. apply Hs.
    + intros a s (H1 & _ & H2). exact (conj H1 H2).
    + done.
    + intros []. cbv beta. eapply triple_conseq; [apply (triple_for_each (λ s, conf false s ∧ dirs s (rs ++ [lit "etc"])) _ _ (λ _, conf false))|done|done|done].
      intros c Hc. eapply triple_conseq; [apply (mount_root_spec c (rs ++ [lit "etc"]))|done| |done].
      * by repeat (apply elem_of_cons in Hc as [->|Hc]); [..|apply elem_of_nil in Hc].
      * naive_solver.
  - intros [] s [Hs Hd]. cbv zeta. change (lit "etc/resolv.conf") with (rel ([lit "etc"] ++ [lit "resolv.conf"])).
    assert (Hok : names_ok ([lit "etc"] ++ [lit "resolv.conf"])) by (by repeat constructor).
    rewrite os_join_abs by done. rewrite app_assoc. pose proof (names_below rs Hrs _ _ Hok) as Hok'.
    rewrite io_bind_eq, lexists_entry by done. destruct (tree s !! _) as [n|] eqn:E; [done|]. cbn [negb io_when].
    rewrite write_chmod by done. by apply conf_new.
Qed.

Lemma legacy_links_keep : keeps (conf false) (_link_legacy_merged_usr root).
Proof.
  apply keeps_for_each. intros [c target] Hin.
  assert (Hc : name_ok c = true ∧ target ≠ []).
  { by repeat (apply elem_of_cons in Hin as [Hin|Hin]); [injection Hin as -> ->..|apply elem_of_nil in Hin]. }
  destruct Hc as [Hc Ht]. intros s Hs. destruct (top_entry c s Hc Hs) as (Hj & Hok & Hd). cbv zeta. rewrite Hj.
  assert (Hlink : ∀ s', conf false s' → tree s' !! (rs ++ [c]) = None →
    match os_symlink target (abs (rs ++ [c])) s' with (Ok _, s2) => conf false s2 | (Err _, s2) => conf false s2 end).
  { intros s' Hs' Hf. rewrite symlink_entry, Hf; [|done|apply Hs']. case_bool_decide; [done|].
    pose proof (conf_put false s' [] c (Sym target)) as Hp. rewrite app_nil_r in Hp. apply Hp; try done. apply Hs'. }
  assert (Hdel : ∀ n, tree s !! (rs ++ [c]) = Some n → (∀ m, n = Dir m → entries_of s (rs ++ [c]) = []) →
    conf false (set_tree (delete (rs ++ [c])) s)).
  { intros n. pose proof (conf_delete s [] c n) as Hx. rewrite app_nil_r in Hx. by apply Hx. }
  rewrite io_bind_eq, islink_entry by done. destruct (tree s !! _) as [[o|i|t|]|] eqn:E; cbn iota.
  - rewrite !io_bind_eq, isdir_entry, E by (done || congruence). cbn iota. rewrite rmdir_entry, E by done.
    destruct (is_nil _) eqn:En; [|done]. apply Hlink; [|simpl; by rewrite lookup_delete_eq].
    eapply Hdel; [done|]. intros _ _. by destruct (entries_of s _).
  - rewrite !io_bind_eq, isdir_entry, E by (done || congruence). cbn iota. rewrite io_bind_eq, exists_entry, E by (done || congruence).
    done.
  - rewrite io_bind_eq, unlink_entry, E by done. apply Hlink; [|simpl; by rewrite lookup_delete_eq].
    eapply Hdel; [done|]. by intros m [=].
  - rewrite !io_bind_eq, isdir_entry, E by (done || congruence). cbn iota. rewrite io_bind_eq, exists_entry, E by (done || congruence).
    done.
  - rewrite !io_bind_eq, isdir_entry, E by (done || congruence). cbn iota. rewrite io_bind_eq, exists_entry, E by (done || congruence).
    cbn [io_when]. rewrite io_ret_eq. by apply Hlink.
Qed.

Lemma populated_tmp_keep b : keeps (conf b) (_reject_populated_tmp root).
Proof.
  unfold _reject_populated_tmp. apply keeps_bind; [apply keeps_gets|]. intros dir. apply keeps_bind; [apply keeps_gets|].
  intros link. apply keeps_when. intros _. apply keeps_bind; [|intros names; apply keeps_for_each; intros; apply keeps_raise].
  intros s Hs. unfold os_listdir. by destruct (locate _ _ _) as [[? []|]|].
Qed.
End confinement.

(** ** The output directory *)

Lemma for_each_id {A} (f : A → io unit) l s : (∀ x, x ∈ l → f x s = (Ok tt, s)) → for_each l f s = (Ok tt, s).
Proof.
  induction l as [|x l IH]; intros Hf; [done|]. cbn [for_each]. rewrite io_bind_eq, Hf by (by left).
  apply IH. intros y Hy. apply Hf. by right.
Qed.

Lemma for_each_app {A} (f : A → io unit) l k s :
  for_each (l ++ k) f s = match for_each l f s with (Ok _, s') => for_each k f s' | (Err e, s') => (Err e, s') end.
Proof.
  revert s. induction l as [|x l IH]; intros s; [done|]. cbn [for_each app]. rewrite !io_bind_eq.
  destruct (f x s) as [[[]|e] s']; [apply IH|done].
Qed.

(** A directory that does not exist yet in an existing one, or exists and is empty. *)
Record fresh_output (s : fs) (rs : list text) : Prop := {
  fo_names : names_ok rs;
  fo_name : rs ≠ [];
  fo_wf : wf s;
  fo_parent : dirs s (parent rs);
  fo_self : tree s !! rs = None ∨ ∃ m, tree s !! rs = Some (Dir m);
  fo_empty : ∀ cs, cs ≠ [] → tree s !! (rs ++ cs) = None;
}.

Lemma makedirs_chmod s rs m :
  fresh_output s rs → (os_makedirs (abs rs) ≫= λ _, os_chmod (abs rs) m) s = (Ok tt, put rs (Dir m) s).
Proof.
  intros [Hok Hne _ Hp Hself _]. destruct (exists_last Hne) as (d & c & ->). rewrite parent_snoc in Hp.
  rewrite io_bind_eq. unfold os_makedirs. rewrite split_abs by done. cbn [List.filter].
  rewrite bool_decide_true by done. cbn [negb].
  assert (Hfilter : List.filter (λ c, negb (bool_decide (c = []))) (d ++ [c]) = d ++ [c]).
  { clear Hne Hp Hself. induction (d ++ [c]) as [|x l IH]; [done|]. inv Hok. simpl. apply name_ok_spec in H1 as [Hx _].
    rewrite bool_decide_false by done. simpl. by rewrite IH. }
  rewrite Hfilter, length_app, seq_app, for_each_app. rewrite for_each_id.
  - cbn [length seq for_each]. rewrite take_ge by (rewrite length_app; simpl; lia). rewrite !io_bind_eq.
    assert (Hn : ∀ t, tree s !! (d ++ [c]) ≠ Some (Sym t)) by (destruct Hself as [->|[? ->]]; done).
    rewrite exists_entry by done. destruct Hself as [E|[o E]]; rewrite E; cbn iota.
    + rewrite mkdir_entry, E by done. rewrite io_ret_eq. cbn iota. pose proof (mkdir_chmod s d c Hok Hp E m) as Hm.
      rewrite io_bind_eq, mkdir_entry, E in Hm by done. exact Hm.
    + rewrite io_bind_eq, isdir_entry, E by done. cbn iota. rewrite !io_ret_eq. cbn iota. by rewrite chmod_entry, E.
  - intros i Hi. apply elem_of_seq in Hi. rewrite take_app_le by lia.
    assert (Hti : take i d ≠ []). { intros Hnil%(f_equal length). rewrite length_take in Hnil. simpl in Hnil. lia. }
    destruct (exists_last Hti) as (d' & c' & Heq). rewrite Heq.
    assert (Hd' : dirs s (d' ++ [c'])). { eapply dirs_prefix; [exact Hp|]. rewrite <- Heq. apply prefix_take. }
    assert (Hok' : names_ok (d' ++ [c'])).
    { rewrite <- Heq. apply names_ok_app in Hok as [Hok _]. by apply Forall_take. }
    destruct (dirs_last _ _ Hd') as [o Ho]. pose proof (dirs_prefix s _ d' Hd' ltac:(by exists [c'])) as Hd''.
    rewrite io_bind_eq, exists_entry, Ho by (done || congruence). cbn iota.
    by rewrite io_bind_eq, isdir_entry, Ho by (done || congruence).
Qed.

Lemma fresh_output_conf s rs m : fresh_output s rs → conf s rs true (put rs (Dir m) s).
Proof.
  intros [Hok Hne Hw Hp Hself Hempty]. destruct (exists_last Hne) as (d & c & ->). rewrite parent_snoc in Hp.
  assert (Hd : dirs (put (d ++ [c]) (Dir m) s) (d ++ [c])).
  { apply (dirs_snoc _ _ _ m); [by apply dirs_put_dir|]. simpl. by rewrite lookup_insert_eq. }
  assert (Hnode : ∀ cs n, tree (put (d ++ [c]) (Dir m) s) !! ((d ++ [c]) ++ cs) = Some n → n = Dir m).
  { intros cs n. simpl. destruct cs as [|x cs].
    - rewrite app_nil_r, lookup_insert_eq. congruence.
    - rewrite lookup_insert_ne by (intros Heq%(f_equal length); rewrite !length_app in Heq; simpl in Heq; lia).
      by rewrite Hempty. }
  split; [constructor|split].
  - intros p Hnp. simpl. rewrite lookup_insert_ne; [done|]. intros <-. by apply Hnp.
  - done.
  - intros p i [cs ->] Hi. by apply Hnode in Hi.
  - done.
  - destruct Hself as [E|[o E]]; [by apply wf_put_new|by eapply wf_put_dir].
  - intros _ cs t Ht. by apply Hnode in Ht.
Qed.

(** Every path outside [rs] and every file of [s0] is as before. *)
Definition outside_unchanged (s0 : fs) (rs : list text) (s : fs) : Prop :=
  (∀ p, ¬ rs `prefix_of` p → tree s !! p = tree s0 !! p) ∧ inodes s0 ⊆ inodes s ∧
  (∀ p i, rs `prefix_of` p → tree s !! p = Some (Reg i) → inodes s0 !! i = None).

Lemma conf_outside s0 rs b s : conf s0 rs b s → outside_unchanged s0 rs s.
Proof. intros ([] & _). by split. Qed.

(** The demonstration file system has no directory [/out] yet. *)
Lemma demo_fresh : fresh_output demo_fs out.
Proof.
  assert (Htree : ∀ p n, tree demo_fs !! p = Some n → p = [] ∨ p = [lit "a.tar"]).
  { intros p n H. unfold demo_fs in H. cbn [tree] in H.
    apply lookup_insert_Some in H as [[<- _]|[_ H]]; [auto|]. apply lookup_singleton_Some in H as [<- _]. auto. }
  split.
  - by repeat constructor.
  - done.
  - intros d c n Hn. exists 493. destruct (Htree _ _ Hn) as [H|H]; [by destruct d|].
    destruct d as [|x d]; [done|]. exfalso. by destruct d.
  - intros q Hq. apply prefix_nil_inv in Hq as ->. by exists 493.
  - by left.
  - intros cs Hcs. destruct (tree demo_fs !! (out ++ cs)) as [n|] eqn:E; [|done].
    destruct (Htree _ _ E) as [H|H]; [done|]. unfold out in H. simpl in H. injection H as H _. vm_compute in H. done.
Qed.

(** C7: Extraction into an output directory that is empty or does not exist yet, in an existing directory, writes only below
    it: whatever the archive holds, and whether it is accepted or refused at any point, every path outside the output and
    every file that existed before is as it was. *)
Theorem extract_confined tar_open archive digest s0 rs :
  fresh_output s0 rs →
  outside_unchanged s0 rs (extract tar_open archive (abs rs) digest s0).2.
Proof.
  intros Hf. pose proof (fo_names _ _ Hf) as Hok. pose proof (fo_name _ _ Hf) as Hne.
  assert (Hsame : outside_unchanged s0 rs s0).
  { split; [done|]. split; [done|]. intros p i [cs ->] Hi. destruct (decide (cs = [])) as [->|Hcs].
    - rewrite app_nil_r in Hi. by destruct (fo_self _ _ Hf) as [E|[o E]]; rewrite E in Hi.
    - by rewrite (fo_empty _ _ Hf) in Hi. }
  unfold extract. rewrite io_bind_eq. destruct (is_nil digest); [done|]. cbn [io_when]. rewrite io_ret_eq. cbn iota.
  rewrite io_bind_eq. unfold read_file. destruct (file_bytes s0 archive) as [data|]; [|done].
  rewrite io_bind_eq. unfold lift at 1. destruct (_authenticate data digest); [|done].
  rewrite io_bind_eq. unfold gets at 1. cbv zeta. unfold abspath.
  replace (startswith (abs rs) [47]) with true by (symmetry; apply (startswith_app [47])). rewrite normpath_abs by done.
  pose proof (makedirs_chmod s0 rs 493 Hf) as Hmk. rewrite io_bind_eq in Hmk. rewrite io_bind_eq.
  destruct (os_makedirs (abs rs) s0) as [[[]|e] s1]; [|by simplify_eq]. rewrite io_bind_eq, Hmk. clear s1 Hmk.
  pose proof (fresh_output_conf s0 rs 493 Hf) as Hc. revert Hc. generalize (put rs (Dir 493) s0) as s. intros s Hc.
  rewrite io_bind_eq. unfold lift at 1. destruct (tar_open data) as [source|]; [|by eapply conf_outside].
  assert (Hall : triple (conf s0 rs true) (_extract_members source (abs rs);; _prepare_mount_roots (abs rs);;
    _link_legacy_merged_usr (abs rs);; _reject_populated_tmp (abs rs)) (λ _, conf s0 rs false) (λ _, conf s0 rs false)).
  { eapply triple_bind; [by apply extract_members_keep|]. intros []. eapply triple_bind; [by apply mount_roots_keep|].
    intros []. eapply triple_bind; [by apply legacy_links_keep|]. intros []. apply populated_tmp_keep. }
  specialize (Hall s Hc). match type of Hall with context [let (_, _) := ?x in _] => destruct x as [[[]|e] s'] end;
    by eapply conf_outside.
Qed.

(** On the demonstration archive the extraction succeeds. *)
Lemma extract_confined_witness : demo_extract.1 = Ok tt ∧ outside_unchanged demo_fs out demo_extract.2.
Proof. split; [vm_compute; reflexivity|]. apply extract_confined. apply demo_fresh. Defined.
