(* ===== verification/ExtractResult.v ===== *)
(** * Extraction: the tree that results

    After a successful run every member of the archive is in place: directories and files with their modes and contents,
    hard links with the inode of the regular file they lead to, symbolic links with their text. *)
From S2P Require Import Prelude Bytes PyText Hashing Collections PosixPath FileTree ExtractTree ExtractDemo ExtractPaths ExtractLinks ExtractConfined ExtractProofs.

(** The regular file that a hard link leads to, through other hard links. *)
Inductive leads (M : dict text member) : text → text → Prop :=
  | leads_file k m t mt : dget k M = Some m → islnk m = true → _hardlink_target (m_linkname m) = Ok t →
      dget t M = Some mt → isfile mt = true → leads M k t
  | leads_link k m t mt u : dget k M = Some m → islnk m = true → _hardlink_target (m_linkname m) = Ok t →
      dget t M = Some mt → islnk mt = true → leads M t u → leads M k u.

Lemma leads_file_member M k t : leads M k t → file_member M t.
Proof. induction 1; [by eexists|done]. Qed.

Lemma visit_hardlink_leads hardlinks M fuel g k t g' :
  (∀ k m, dget k hardlinks = Some m → dget k M = Some m ∧ islnk m = true) →
  (∀ k t, dget k (h_targets g) = Some t → leads M k t) →
  visit_hardlink hardlinks M fuel g k = Ok (t, g') →
  leads M k t ∧ ∀ k t, dget k (h_targets g') = Some t → leads M k t.
Proof.
  intros Hh. revert g k t g'. induction fuel as [|fuel IH]; intros g k t g' Hg H; [done|]. cbn [visit_hardlink] in H.
  destruct (dget k (h_state g)) as [[]|]; [done| |].
  { res_inv. simplify_eq. auto. }
  apply bind_Ok_inv in H as (m & Hm & H). apply of_option_Ok, Hh in Hm as [Hm Hl].
  apply bind_Ok_inv in H as (t1 & Ht1 & H). apply bind_Ok_inv in H as (mt & Hmt & H). apply of_option_Ok in Hmt.
  apply bind_Ok_inv in H as ([t2 g2] & Hstep & H). res_inv. simplify_eq.
  assert (Hk : leads M k t ∧ ∀ k t, dget k (h_targets g2) = Some t → leads M k t).
  { destruct (islnk mt) eqn:El.
    - apply IH in Hstep as [? ?]; [|done]. split; [by eapply leads_link|done].
    - destruct (isfile mt) eqn:Ef; [|done]. res_inv. simplify_eq. split; [by eapply leads_file|done]. }
  destruct Hk as [Ht Hg2]. split; [done|]. intros k' t'. simpl. rewrite dget_dset. case_decide; [naive_solver|]. apply Hg2.
Qed.

Section result.
Context (s0 : fs) (rs : list text) (Hrs : names_ok rs).

Abbreviation root := (abs rs).

(** The certificate bundle is the one file whose contents the extraction replaces. *)
Definition bundle : list text := bundle_path ++ [bundle_name].

(** A member that is not a link is in place. *)
Definition placed (s : fs) (m : member) (cs : list text) : Prop :=
  (isdir m = true → tree s !! (rs ++ cs) = Some (Dir (S_IMODE (m_mode m)))) ∧
  (isfile m = true → ∃ i, tree s !! (rs ++ cs) = Some (Reg i) ∧
     (cs ≠ bundle → inodes s !! i = Some (S_IMODE (m_mode m), m_data m))).

(** Files below the output have inodes, and no two share one. *)
Record unshared (s : fs) : Prop := {
  us_inode : ∀ cs i, tree s !! (rs ++ cs) = Some (Reg i) → is_Some (inodes s !! i);
  us_inj : ∀ cs ds i, tree s !! (rs ++ cs) = Some (Reg i) → tree s !! (rs ++ ds) = Some (Reg i) → cs = ds;
}.

Definition all_placed (s : fs) (l : list (member * text)) : Prop :=
  ∀ m cs, names_ok cs → (m, rel cs) ∈ l → placed s m cs.

Lemma placed_put s m cs p n : rs ++ cs ≠ p → placed s m cs → placed (put p n s) m cs.
Proof.
  intros Hne [Hd Hf]. split.
  - intros H. simpl. rewrite lookup_insert_ne; auto.
  - intros H. destruct (Hf H) as (i & Hi & Hx). exists i. simpl. rewrite lookup_insert_ne; auto.
Qed.

Lemma placed_new s m cs p x : rs ++ cs ≠ p → placed s m cs → placed (new_file p x s) m cs.
Proof.
  intros Hne [Hd Hf]. split.
  - intros H. simpl. rewrite lookup_insert_ne; auto.
  - intros H. destruct (Hf H) as (i & Hi & Hx). exists i. simpl. rewrite lookup_insert_ne by done. split; [done|].
    intros Hb. specialize (Hx Hb). rewrite lookup_insert_ne; [done|]. intros <-. by rewrite fresh_inode_spec in Hx.
Qed.

Lemma placed_exists s m cs : placed s m cs → isdir m = true ∨ isfile m = true → is_Some (tree s !! (rs ++ cs)).
Proof. intros [Hd Hf] [H|H]; [by rewrite Hd|]. destruct (Hf H) as (i & -> & _). done. Qed.

Definition is_regular (x : member * text) : bool := isdir x.1 || isfile x.1.

(** Entries created at a free name keep what is in place. *)
Lemma all_placed_put s l p n : all_placed s l → tree s !! p = None → all_placed (put p n s) l.
Proof.
  intros Hl Hf m cs Hcs Hin. specialize (Hl m cs Hcs Hin). split; intros H.
  - pose proof (placed_exists _ _ _ Hl (or_introl H)) as [x Hx]. apply placed_put; [congruence|done..].
  - pose proof (placed_exists _ _ _ Hl (or_intror H)) as [x Hx]. apply placed_put; [congruence|done..].
Qed.

Lemma all_placed_new s l p x : all_placed s l → tree s !! p = None → all_placed (new_file p x s) l.
Proof.
  intros Hl Hf m cs Hcs Hin. specialize (Hl m cs Hcs Hin). split; intros H.
  - pose proof (placed_exists _ _ _ Hl (or_introl H)) as [y Hy]. apply placed_new; [congruence|done..].
  - pose proof (placed_exists _ _ _ Hl (or_intror H)) as [y Hy]. apply placed_new; [congruence|done..].
Qed.

Lemma unshared_put s p n : unshared s → (∀ i, n ≠ Reg i) → unshared (put p n s).
Proof.
  intros [H1 H2] Hn. constructor.
  - intros cs i Hi%lookup_put. destruct Hi as [[_ Hi]|[_ Hi]]; [by destruct (Hn i)|by eapply H1].
  - intros cs ds i Hi%lookup_put Hj%lookup_put.
    destruct Hi as [[_ Hi]|[_ Hi]], Hj as [[_ Hj]|[_ Hj]]; [by destruct (Hn i)..|]. by eapply H2.
Qed.

Lemma unshared_new s p x : unshared s → unshared (new_file p x s).
Proof.
  intros [H1 H2]. constructor.
  - intros cs i Hi%lookup_new_file. simpl. destruct (decide (fresh_inode s = i)) as [<-|Hne]; [by rewrite lookup_insert_eq|].
    rewrite lookup_insert_ne by done. destruct Hi as [[_ [= Hi]]|[_ Hi]]; [done|by eapply H1].
  - intros cs ds i Hi%lookup_new_file Hj%lookup_new_file.
    assert (Hfresh : ∀ es, tree s !! (rs ++ es) = Some (Reg (fresh_inode s)) → False).
    { intros es Hes%H1. rewrite fresh_inode_spec in Hes. by destruct Hes. }
    destruct Hi as [[Hp [= <-]]|[_ Hi]], Hj as [[Hq Hj]|[_ Hj]].
    + by apply (app_inv_head rs); rewrite <- Hp.
    + by apply Hfresh in Hj.
    + injection Hj as <-. by apply Hfresh in Hi.
    + by eapply H2.
Qed.

(** *** Regular members *)

Abbreviation conf := (conf s0 rs).

Definition regular (l : list (member * text)) (s : fs) : Prop := conf true s ∧ unshared s ∧ all_placed s l ∧ cwd s = cwd s0.

Lemma regular_stable l : stable rs (regular l).
Proof.
  split.
  - intros s [Hc _]. apply Hc.
  - intros s d c (Hc & Hu & Hl & Hw) Hok Hd Hf. split; [by apply conf_put|]. split; [by apply unshared_put|].
    split; [by apply all_placed_put|done].
  - intros s d c x (Hc & Hu & Hl & Hw) Hok Hd Hf. split; [by apply conf_new|]. split; [by apply unshared_new|].
    split; [by apply all_placed_new|done].
Qed.

Lemma isdir_isfile m : isdir m = true → isfile m = true → False.
Proof. unfold isdir, isfile. rewrite !bool_decide_eq_true. congruence. Qed.

Lemma all_placed_snoc s s' l m cs :
  names_ok cs → NoDup (l ++ [(m, rel cs)]).*2 → all_placed s l →
  (∀ m' cs', cs' ≠ cs → placed s m' cs' → placed s' m' cs') → placed s' m cs → all_placed s' (l ++ [(m, rel cs)]).
Proof.
  intros Hcs Hnd Hl Hpres Hm m' cs' Hok [Hin|Hin]%elem_of_app.
  - apply Hpres; [|by apply Hl]. intros ->. rewrite fmap_app in Hnd.
    apply NoDup_app in Hnd as (_ & Hd & _). apply (Hd (rel cs)); [by apply (list_elem_of_fmap_2 snd) in Hin|by left].
  - apply list_elem_of_singleton in Hin. injection Hin as -> Heq. apply rel_inj in Heq as ->; done.
Qed.

Lemma app_ne cs ds : cs ≠ ds → rs ++ cs ≠ rs ++ ds.
Proof. intros H Heq. by apply app_inv_head in Heq. Qed.

Lemma regular_members_placed members M :
  indexed members M →
  triple (regular []) (_materialize_regular_members root members) (λ _, regular members) (λ _ _, True).
Proof.
  intros Hx. unfold _materialize_regular_members. set (l := stable_sort level_lt members).
  assert (Hperm : l ≡ₚ members) by apply stable_sort_perm.
  set (Inv := λ (k : list (member * text)) s, ∃ pre, l = pre ++ k ∧ regular pre s).
  eapply triple_conseq; [apply (triple_for_each_rest Inv l _ (λ _ _, True))| | |done].
  2:{ intros s Hs. by exists []. }
  2:{ intros [] s (pre & Heq & Hc & Hu & Hl & Hw). rewrite app_nil_r in Heq. subst pre. split; [done|]. split; [done|]. split; [|done].
      intros m cs Hok Hin. apply Hl; [done|]. by rewrite Hperm. }
  intros [m r] k _. assert (Hgoal : ∀ pre, l = pre ++ (m, r) :: k →
    triple (regular pre) (if isdir m then _materialize_directory root r m else if isfile m then _materialize_file root r m
      else io_when (negb (issym m) && negb (islnk m)) (raise (ValueError "unsupported archive member: %s" [AText r])))
      (λ _, regular (pre ++ [(m, r)])) (λ _ _, True)).
  2:{ intros s (pre & Heq & Hs). specialize (Hgoal pre Heq s Hs).
      match type of Hgoal with context [let (_, _) := ?x in _] => destruct x as [[[]|e] s'] end; [|done].
      exists (pre ++ [(m, r)]). split; [by rewrite <- app_assoc|done]. }
  intros pre Heq. assert (Hin : (m, r) ∈ members) by (rewrite <- Hperm, Heq; set_solver).
  destruct (safe_snoc r (ix_safe _ _ Hx m r Hin)) as (d & c & -> & Hok).
  assert (Hnd : NoDup (pre ++ [(m, rel (d ++ [c]))]).*2).
  { pose proof (ix_keys _ _ Hx) as Hk. rewrite <- Hperm, Heq in Hk. rewrite fmap_app in Hk |- *. simpl in *.
    eapply sublist_NoDup; [exact Hk|]. apply sublist_app; [done|]. apply sublist_skip, sublist_nil_l. }
  destruct (isdir m) eqn:Ed; [|destruct (isfile m) eqn:Ef].
  - eapply triple_conseq; [apply (materialize_directory_spec rs Hrs _ (regular_stable pre) (regular (pre ++ [(m, rel (d ++ [c]))])))
      |done|done|done]; [done|].
    intros s (Hc & Hu & Hl & Hw) Hd Hn. rewrite <- app_assoc in *. split; [|split; [by apply unshared_put|split; [|done]]].
    + destruct (tree s !! _) as [n|] eqn:E; [destruct (Hn n eq_refl) as [o ->]; by eapply conf_chmod|].
      rewrite app_assoc in *. by apply conf_put.
    + apply (all_placed_snoc s); [done|done|done| |].
      * intros m' cs' Hne. apply placed_put. by apply app_ne.
      * split; [intros _; simpl; by rewrite lookup_insert_eq|]. intros Hf. by destruct (isdir_isfile m).
  - eapply triple_conseq; [apply (materialize_file_spec rs Hrs _ (regular_stable pre) (regular (pre ++ [(m, rel (d ++ [c]))])))
      |done|done|done]; [done|].
    intros s (Hc & Hu & Hl & Hw) Hd Hf. split; [by apply conf_new|]. split; [by apply unshared_new|]. split; [|done].
    rewrite <- app_assoc in *. apply (all_placed_snoc s); [done|done|done| |].
    + intros m' cs' Hne. apply placed_new. by apply app_ne.
    + split; [congruence|]. intros _. eexists. split; [apply new_file_node|]. intros _. apply new_file_inode.
  - intros s (Hc & Hu & Hl & Hw). unfold io_when. destruct (_ && _); [done|]. split; [done|]. split; [done|]. split; [|done].
    apply (all_placed_snoc s); [done|done|done|done|]. split; congruence.
Qed.

(** *** Placeholders *)

Lemma regular_bundle l s i f :
  regular l s → tree s !! ((rs ++ bundle_path) ++ [bundle_name]) = Some (Reg i) → regular l (set_inodes (alter f i) s).
Proof.
  intros (Hc & Hu & Hl & Hw) Hi. split; [by eapply conf_rewrite|]. rewrite <- app_assoc in Hi. fold bundle in Hi.
  split; [|split; [|done]].
  - destruct Hu as [H1 H2]. constructor; [|exact H2]. intros cs j Hj. simpl in *. rewrite lookup_alter_is_Some. by eapply H1.
  - intros m cs Hok Hin. destruct (Hl m cs Hok Hin) as [Hd Hf]. split; [done|]. intros Hm.
    destruct (Hf Hm) as (j & Hj & Hx). exists j. split; [done|]. intros Hb. simpl. rewrite lookup_alter_ne; [by apply Hx|].
    intros <-. apply Hb. by eapply (us_inj _ Hu).
Qed.

Lemma placeholders_keep l :
  keeps (regular l) (_write_ca_bundle root) ∧ keeps (regular l) (_materialize_runtime_link_targets root) ∧
  (∀ symlinks, keeps (regular l) (_materialize_empty_directory_symlink_targets root symlinks)).
Proof.
  assert (Hp : ∀ s, regular l s → plain rs s) by (by intros s ((_ & _ & Hp) & _); apply Hp).
  assert (Hw : ∀ s, regular l s → wf s) by (by intros s ((_ & Hw & _) & _)).
  split; [apply (ca_bundle_keep rs Hrs _ (regular_stable l) Hp); intros s i f Hs; by apply regular_bundle|].
  split; [apply (runtime_link_targets_keep rs Hrs _ (regular_stable l) Hp Hw)|].
  apply (empty_directories_keep rs Hrs _ (regular_stable l) Hp Hw).
Qed.

(** *** Hard links *)

Context (members : list (member * text)) (M : dict text member) (Hx : indexed members M).

(** The hard link [cs] shares the inode of the file it leads to. *)
Definition hard_placed (s : fs) (cs : list text) : Prop :=
  ∃ ts i, names_ok ts ∧ leads M (rel cs) (rel ts) ∧ tree s !! (rs ++ cs) = Some (Reg i) ∧ tree s !! (rs ++ ts) = Some (Reg i).

Definition hard (ks : list text) (s : fs) : Prop :=
  conf true s ∧ all_placed s members ∧ (∀ cs, names_ok cs → rel cs ∈ ks → hard_placed s cs) ∧ cwd s = cwd s0.

Lemma hard_placed_mono s s' cs : (∀ p n, tree s !! p = Some n → tree s' !! p = Some n) → hard_placed s cs → hard_placed s' cs.
Proof. intros H (ts & i & Hts & Hl & H1 & H2). exists ts, i. auto. Qed.

Lemma put_free s p n q x : tree s !! p = None → tree s !! q = Some x → tree (put p n s) !! q = Some x.
Proof. intros Hp Hq. apply lookup_put. right. split; [congruence|done]. Qed.

Lemma new_free s p y q x : tree s !! p = None → tree s !! q = Some x → tree (new_file p y s) !! q = Some x.
Proof. intros Hp Hq. apply lookup_new_file. right. split; [congruence|done]. Qed.

Lemma hard_stable ks : stable rs (hard ks).
Proof.
  split.
  - intros s [Hc _]. apply Hc.
  - intros s d c (Hc & Hl & Hh & Hw) Hok Hd Hf. split; [by apply conf_put|]. split; [by apply all_placed_put|].
    split; [|done]. intros cs Hcs Hin. eapply hard_placed_mono; [|by apply Hh]. intros p n. by apply put_free.
  - intros s d c x (Hc & Hl & Hh & Hw) Hok Hd Hf. split; [by apply conf_new|]. split; [by apply all_placed_new|].
    split; [|done]. intros cs Hcs Hin. eapply hard_placed_mono; [|by apply Hh]. intros p n. by apply new_free.
Qed.

Lemma hardlink_step ks d c ts :
  names_ok (d ++ [c]) → names_ok ts → leads M (rel (d ++ [c])) (rel ts) →
  triple (hard ks) (create_link root (rel (d ++ [c])) (os_link (os_join root (rel ts)))) (λ _, hard (ks ++ [rel (d ++ [c])])) (λ _ _, True).
Proof.
  intros Hok Hts Hl. pose proof (leads_file_member _ _ _ Hl) as (mt & Hmt & Hft). apply (indexed_lookup _ _ Hx) in Hmt.
  assert (Hne : ts ≠ []).
  { destruct (ix_safe _ _ Hx _ _ Hmt) as (cs & Hcs & Hcok & Heq). apply rel_inj in Heq; [|done..]. by subst. }
  eapply triple_conseq; [apply (hardlink_spec rs Hrs (hard ks) (hard_stable ks) (hard (ks ++ [rel (d ++ [c])])) d c ts)|done|done|done];
    [done|done|done|by intros s ((_ & _ & Hp) & _); apply Hp|].
  intros s n (Hc & Hal & Hh & Hw) Hd Hf Hn Hnd.
  destruct (proj2 (Hal mt ts Hts Hmt) Hft) as (i & Hi & _). rewrite Hn in Hi. injection Hi as ->.
  split; [|split; [by apply all_placed_put|split; [|done]]].
  - apply conf_put; [done|done|done| |done]. intros j [= <-]. eapply (cf_own _ _ _ (proj1 Hc)); [|exact Hn]. by exists ts.
  - intros cs Hcs [Hin|Hin]%elem_of_app.
    + eapply hard_placed_mono; [|by apply Hh]. intros p n'. by apply put_free.
    + apply list_elem_of_singleton in Hin. apply rel_inj in Hin as ->; [|done..]. exists ts, i. split; [done|]. split; [done|].
      rewrite <- app_assoc in *. split; [simpl; by rewrite lookup_insert_eq|by apply put_free].
Qed.

Lemma hardlink_graph_placed :
  triple (hard []) (_resolve_hardlink_graph root (select islnk members) M) (λ _, hard (dkeys (select islnk members))) (λ _ _, True).
Proof.
  unfold _resolve_hardlink_graph. set (keys := sorted_texts _).
  assert (Hkeys : keys ≡ₚ dkeys (select islnk members)) by apply merge_sort_Permutation.
  assert (Hsel : ∀ k m, dget k (select islnk members) = Some m → dget k M = Some m ∧ islnk m = true).
  { intros k m. by apply (select_lookup _ _ Hx). }
  assert (Hsafe : ∀ k, k ∈ keys → ∃ d c, k = rel (d ++ [c]) ∧ names_ok (d ++ [c])).
  { intros k Hk. rewrite Hkeys in Hk. apply list_elem_of_fmap in Hk as ([k' m] & -> & Hk).
    apply (elem_dget _ _ _ (select_dict_ok _ _ Hx islnk)), Hsel in Hk as [Hk _]. apply (indexed_lookup _ _ Hx) in Hk.
    by apply safe_snoc, (ix_safe _ _ Hx m). }
  match goal with |- triple _ (fold_io ?f ?g ?l ≫= _) _ _ =>
    enough (Hloop : ∀ todo done gr, done ++ todo = keys → (∀ k t, dget k (h_targets gr) = Some t → leads M k t) →
      triple (hard done) (fold_io f gr todo) (λ _, hard keys) (λ _ _, True)) end.
  { eapply triple_bind; [apply (Hloop keys []); done|]. intros g s (Hc & Hl & Hh & Hw). split; [done|]. split; [done|].
    split; [|done]. intros cs Hcs Hin. apply Hh; [done|]. by rewrite Hkeys. }
  induction todo as [|k todo IH]; intros done gr Heq Hg; cbn [fold_io].
  { rewrite app_nil_r in Heq. subst done. by apply triple_ret. }
  destruct (Hsafe k) as (d & c & -> & Hok); [rewrite <- Heq; set_solver|].
  eapply (triple_bind _ _ _ (λ gr' s, hard (done ++ [rel (d ++ [c])]) s ∧ ∀ k t, dget k (h_targets gr') = Some t → leads M k t)).
  - intros s Hs. rewrite io_bind_eq. unfold lift. destruct (visit_hardlink _ _ _ _ _) as [[t gr']|e] eqn:Ev; [|done].
    apply visit_hardlink_leads in Ev as [Hl Hg']; [|done|done]. rewrite io_bind_eq.
    destruct (leads_file_member _ _ _ Hl) as (mt & Hmt & _). apply (indexed_lookup _ _ Hx) in Hmt.
    destruct (ix_safe _ _ Hx _ _ Hmt) as (ts & _ & Hts & ->).
    pose proof (hardlink_step done d c ts Hok Hts Hl s Hs) as Hstep.
    destruct (create_link _ _ _ s) as [[[]|e] s']; done.
  - intros gr' s [Hs Hg']. apply (IH (done ++ [rel (d ++ [c])]) gr'); [by rewrite <- app_assoc|done|done].
Qed.

(** *** Symbolic links *)

(** The text of a link: as in the archive, or the way to the resolved target for an absolute one. *)
Definition soft_placed (s : fs) (m : member) (cs : list text) : Prop :=
  ∃ t ds, _resolve_link_path (rel cs) (select issym members) M = Ok (t, ds) ∧
    tree s !! (rs ++ cs) = Some (Sym (link_text rs s0 (rel cs) m t)).

Definition soft (ks : list text) (s : fs) : Prop :=
  conf false s ∧ all_placed s members ∧ (∀ cs, names_ok cs → rel cs ∈ dkeys (select islnk members) → hard_placed s cs) ∧
  (∀ m cs, names_ok cs → rel cs ∈ ks → dget (rel cs) (select issym members) = Some m → soft_placed s m cs) ∧
  (∀ cs t, tree s !! (rs ++ cs) = Some (Sym t) → names_ok cs ∧ rel cs ∈ ks) ∧ cwd s = cwd s0.

Lemma soft_stable ks : stable rs (soft ks).
Proof.
  split.
  - intros s [Hc _]. apply Hc.
  - intros s d c (Hc & Hl & Hh & Hs & Ho & Hw) Hok Hd Hf. split; [by apply conf_put|]. split; [by apply all_placed_put|].
    split; [intros cs Hcs Hin; eapply hard_placed_mono; [|by apply Hh]; intros p n; by apply put_free|]. split; [|split; [|done]].
    + intros m cs Hcs Hin Hm. destruct (Hs m cs Hcs Hin Hm) as (t & ds & Hr & Ht). exists t, ds. split; [done|]. by apply put_free.
    + intros cs t [[_ ?]|[_ Ht]]%lookup_put; [done|]. by eapply Ho.
  - intros s d c x (Hc & Hl & Hh & Hs & Ho & Hw) Hok Hd Hf. split; [by apply conf_new|]. split; [by apply all_placed_new|].
    split; [intros cs Hcs Hin; eapply hard_placed_mono; [|by apply Hh]; intros p n; by apply new_free|]. split; [|split; [|done]].
    + intros m cs Hcs Hin Hm. destruct (Hs m cs Hcs Hin Hm) as (t & ds & Hr & Ht). exists t, ds. split; [done|]. by apply new_free.
    + intros cs t [[_ ?]|[_ Ht]]%lookup_new_file; [done|]. by eapply Ho.
Qed.

Lemma link_text_cwd s r m t : cwd s = cwd s0 → link_text rs s r m t = link_text rs s0 r m t.
Proof. unfold link_text. by intros ->. Qed.

Lemma symlink_graph_placed :
  triple (hard (dkeys (select islnk members))) (_resolve_symlink_graph root (select issym members) M)
    (λ _, soft (dkeys (select issym members))) (λ _ _, True).
Proof.
  pose proof (indexed_links _ _ Hx) as Hi. intros s (Hc & Hl & Hh & Hw). unfold _resolve_symlink_graph.
  rewrite io_bind_eq. pose proof (validate_spec (λ p, is_at (locate true s p)) root _ _ Hi) as Hv.
  destruct (_validate_symlink_graph _ _ _ _) as [[resolved deps]|e]; [|done].
  destruct (links_by_depth_spec _ _ deps Hi) as (order & Ho & Hperm & _).
  { intros k Hk. destruct (Hv k Hk) as (t & ds & Hr & _ & _ & Hd). eauto. }
  rewrite io_bind_eq. unfold lift. rewrite Ho.
  set (Inv := λ (k : list text) s, ∃ pre, order = pre ++ k ∧ soft pre s).
  match goal with |- match for_each ?l ?f s with _ => _ end =>
    enough (Ht : triple (Inv l) (for_each l f) (λ _, Inv []) (λ _ _, True)) end.
  { specialize (Ht s). destruct (for_each _ _ s) as [[[]|e] s']; [|done].
    destruct Ht as (pre & Heq & Hc' & Hl' & Hh' & Hs' & Ho' & Hw').
    - exists []. split; [done|]. split; [by eapply conf_weaken|]. split; [done|]. split; [done|]. split; [|split; [|done]].
      + intros m cs _ Hin. by apply elem_of_nil in Hin.
      + intros cs t Ht. destruct Hc as (_ & _ & Hp). by apply Hp in Ht.
    - rewrite app_nil_r in Heq. subst pre. split; [done|]. split; [done|]. split; [done|]. split; [|split; [|done]].
      + intros m cs Hcs Hin. apply Hs'; [done|]. by rewrite Hperm.
      + intros cs t Ht. destruct (Ho' cs t Ht). by rewrite <- Hperm. }
  apply triple_for_each_rest. intros k rest _ s' (pre & Heq & Hs').
  assert (Hk : is_link M k). { apply (symlink_key_link _ _ Hi). rewrite <- Hperm, Heq. set_solver. }
  destruct (Hv k Hk) as (t & ds & Hr & _ & Hres & _). destruct Hk as (m & Hm & Hsym).
  assert (Hkm : dget k (select issym members) = Some m) by (by apply (select_lookup _ _ Hx)). rewrite Hkm. cbn [of_option].
  apply (indexed_lookup _ _ Hx) in Hm. destruct (safe_snoc k (ix_safe _ _ Hx m k Hm)) as (d & c & -> & Hok).
  rewrite io_bind_eq. pose proof (symlink_spec rs Hrs (soft pre) (soft_stable pre) (soft (pre ++ [rel (d ++ [c])])) d c m resolved Hok) as Hstep.
  assert (Hpost : triple (soft pre) (create_link root (rel (d ++ [c])) (make_symlink root (rel (d ++ [c])) m resolved))
    (λ _, soft (pre ++ [rel (d ++ [c])])) (λ _, soft pre)).
  { apply Hstep. intros s2 t2 (Hc2 & Hl2 & Hh2 & Hs2 & Ho2 & Hw2) Hd2 Hf2 Ht2. rewrite Hres in Ht2. injection Ht2 as <-.
    split; [by apply conf_put|]. split; [by apply all_placed_put|].
    split; [intros cs Hcs Hin; eapply hard_placed_mono; [|by apply Hh2]; intros p n; by apply put_free|]. split; [|split; [|done]].
    2:{ intros cs t2 [[Heq2 _]|[_ Ht2]]%lookup_put.
        - rewrite <- app_assoc in Heq2. apply app_inv_head in Heq2 as <-. split; [done|]. set_solver.
        - destruct (Ho2 cs t2 Ht2). split; [done|]. set_solver. }
    intros m2 cs Hcs [Hin|Hin]%elem_of_app Hm2.
    - destruct (Hs2 m2 cs Hcs Hin Hm2) as (t2 & ds2 & Hr2 & Ht2). exists t2, ds2. split; [done|]. by apply put_free.
    - apply list_elem_of_singleton in Hin. apply rel_inj in Hin as ->; [|done..]. rewrite Hkm in Hm2. injection Hm2 as <-.
      exists t, ds. split; [done|]. rewrite <- app_assoc. simpl. rewrite lookup_insert_eq, link_text_cwd by done. done. }
  specialize (Hpost s' Hs'). destruct (create_link _ _ _ s') as [[[]|e] s2]; [|done].
  exists (pre ++ [rel (d ++ [c])]). split; [by rewrite <- app_assoc|done].
Qed.
End result.

(** ** The result *)

(** A member is in place: a directory or file with its mode and contents (the certificate bundle is rewritten), a hard link
    to the file it leads to, a symbolic link with its text. *)
Definition in_place (s0 : fs) (rs : list text) (members : list (member * text)) (M : dict text member) (s : fs)
    (m : member) (cs : list text) : Prop :=
  match m_type m with
  | DIRTYPE => tree s !! (rs ++ cs) = Some (Dir (S_IMODE (m_mode m)))
  | REGTYPE => ∃ i, tree s !! (rs ++ cs) = Some (Reg i) ∧
      (cs ≠ bundle → inodes s !! i = Some (S_IMODE (m_mode m), m_data m))
  | LNKTYPE => hard_placed rs M s cs
  | SYMTYPE => soft_placed s0 rs members M s m cs
  | OTHERTYPE => False
  end.

Lemma regular_start s0 rs m : fresh_output s0 rs → regular s0 rs [] (put rs (Dir m) s0).
Proof.
  intros Hf. pose proof (fresh_output_conf s0 rs m Hf) as Hc. split; [done|].
  assert (Hno : ∀ cs i, tree (put rs (Dir m) s0) !! (rs ++ cs) ≠ Some (Reg i)).
  { intros cs i [[_ H]|[Hne H]]%lookup_put; [done|]. rewrite (fo_empty _ _ Hf) in H; [done|].
    intros ->. by rewrite app_nil_r in Hne. }
  split; [constructor|split; [|done]].
  - intros cs i Hi. by apply Hno in Hi.
  - intros cs ds i Hi. by apply Hno in Hi.
  - intros m' cs _ Hin. by apply elem_of_nil in Hin.
Qed.

Lemma unsupported_refused root members m r s s' :
  (m, r) ∈ members → m_type m = OTHERTYPE → _materialize_regular_members root members s ≠ (Ok tt, s').
Proof.
  intros Hin Ht. unfold _materialize_regular_members. rewrite <- (stable_sort_perm level_lt) in Hin. revert s.
  induction (stable_sort level_lt members) as [|x l IH]; intros s; [by apply elem_of_nil in Hin|]. cbn [for_each].
  rewrite io_bind_eq. apply elem_of_cons in Hin as [<-|Hin].
  - unfold isdir, isfile, issym, islnk. rewrite Ht. done.
  - destruct (_ s) as [[[]|e] s1]; [by apply IH|done].
Qed.

(** The state after a successful run. *)
Lemma extract_members_soft s0 rs mode source s :
  fresh_output s0 rs →
  _extract_members source (abs rs) (put rs (Dir mode) s0) = (Ok tt, s) →
  ∃ members M, _index_members source = Ok (members, M) ∧ (∀ m r, (m, r) ∈ members → m_type m ≠ OTHERTYPE) ∧
    soft s0 rs members M (dkeys (select issym members)) s.
Proof.
  intros Hf H. pose proof (fo_names _ _ Hf) as Hrs. pose proof (regular_start s0 rs mode Hf) as Hreg. unfold _extract_members in H.
  rewrite io_bind_eq in H. unfold lift in H. destruct (_index_members source) as [[members M]|] eqn:E; [|done].
  pose proof (index_members_ok _ _ _ E) as Hx. exists members, M. split; [done|]. rewrite io_bind_eq in H.
  pose proof (regular_members_placed s0 rs Hrs members M Hx _ Hreg) as H1.
  destruct (_materialize_regular_members _ _ _) as [[[]|] s1] eqn:Er; [|done].
  assert (Hno : ∀ m r, (m, r) ∈ members → m_type m ≠ OTHERTYPE).
  { intros m r Hin Ht. by eapply unsupported_refused in Er. }
  split; [done|]. destruct (placeholders_keep s0 rs Hrs members) as (Hk1 & Hk2 & Hk3).
  assert (Hp : triple (regular s0 rs members) (_write_ca_bundle (abs rs);; _materialize_runtime_link_targets (abs rs);;
    _materialize_empty_directory_symlink_targets (abs rs) (select issym members);;
    _resolve_hardlink_graph (abs rs) (select islnk members) M;; _resolve_symlink_graph (abs rs) (select issym members) M)
    (λ _, soft s0 rs members M (dkeys (select issym members))) (λ _ _, True)).
  { assert (Hweak : ∀ m : io unit, keeps (regular s0 rs members) m → triple (regular s0 rs members) m (λ _, regular s0 rs members) (λ _ _, True)).
    { intros m Hm. by eapply triple_conseq; [exact Hm|..]. }
    eapply triple_bind; [by apply Hweak|]. intros []. eapply triple_bind; [by apply Hweak|]. intros [].
    eapply triple_bind; [by apply Hweak|]. intros [].
    eapply triple_bind; [eapply triple_conseq; [by apply (hardlink_graph_placed s0 rs Hrs members M Hx)| |done|done]|].
    - intros s' (Hc & _ & Hl & Hw). split; [done|]. split; [done|]. split; [|done]. intros cs _ Hin. by apply elem_of_nil in Hin.
    - intros []. by apply symlink_graph_placed. }
  specialize (Hp s1 H1). rewrite H in Hp. done.
Qed.

(** A successful extraction puts every member of the archive in its place below the output: directories and files
    have the modes and contents of the archive, every hard link shares the inode of the regular file it leads to, and every
    symbolic link has the text of the archive, or the relative way to its resolved target when it was absolute. *)
Theorem extract_members_result s0 rs mode source s :
  fresh_output s0 rs →
  _extract_members source (abs rs) (put rs (Dir mode) s0) = (Ok tt, s) →
  ∃ members M, _index_members source = Ok (members, M) ∧
    ∀ m cs, names_ok cs → (m, rel cs) ∈ members → in_place s0 rs members M s m cs.
Proof.
  intros Hf H. destruct (extract_members_soft _ _ _ _ _ Hf H) as (members & M & E & Hno & Hsoft).
  pose proof (index_members_ok _ _ _ E) as Hx. exists members, M. split; [done|]. destruct Hsoft as (_ & Hl & Hh & Hs & _).
  intros m cs Hcs Hin. assert (Hget : dget (rel cs) M = Some m) by (by apply (indexed_lookup _ _ Hx)).
  assert (Hkey : ∀ f, f m = true → dget (rel cs) (select f members) = Some m ∧ rel cs ∈ dkeys (select f members)).
  { intros f Hfm. assert (Hd : dget (rel cs) (select f members) = Some m) by (by apply (select_lookup _ _ Hx)).
    split; [done|]. apply dget_Some_elem in Hd. by apply (list_elem_of_fmap_2 fst) in Hd. }
  destruct (Hl m cs Hcs Hin) as [Hdir Hfile]. unfold in_place. destruct (m_type m) eqn:Et.
  - apply Hdir. unfold isdir. by rewrite Et, bool_decide_true.
  - apply Hfile. unfold isfile. by rewrite Et, bool_decide_true.
  - destruct (Hkey issym) as [Hd Hk]; [unfold issym; by rewrite Et, bool_decide_true|]. by apply Hs.
  - destruct (Hkey islnk) as [Hd Hk]; [unfold islnk; by rewrite Et, bool_decide_true|]. by apply Hh.
  - by eapply Hno.
Qed.

Lemma extract_members_result_witness :
  ∃ members M, _index_members demo_tar = Ok (members, M) ∧
    ∀ m cs, names_ok cs → (m, rel cs) ∈ members → in_place demo_fs out members M demo_extracted m cs.
Proof. apply (extract_members_result demo_fs out 493 demo_tar); [apply demo_fresh|]. vm_compute. reflexivity. Defined.
