(* ===== verification/ExtractSafety.v ===== *)
(** * Extraction: links stay inside the output

    In the tree that [_extract_members] leaves, the kernel follows every symbolic link of the archive to the path that
    [_resolve_link_path] computed for it, and that path lies below the output directory. [extract] then prepares the mount
    roots and replaces the links of a merged /usr; the tree after that is the subject of [ExtractProofs] and [ExtractResult]. *)
From S2P Require Import Prelude Bytes PyText Hashing Collections PosixPath FileTree ExtractTree ExtractDemo ExtractPaths ExtractLinks ExtractConfined ExtractProofs ExtractResult.

Definition path_of (f : found) : list text := match f with At p _ => p | Free d c => d ++ [c] end.

(** ** Walking without links *)

Section walking.
Context (s : fs) (b : nat).

Lemma walk_up cur up rest :
  walk s true b (cur ++ up) (replicate (length up) dotdot ++ rest) = walk s true b cur rest.
Proof.
  induction up as [|x up IH] using rev_ind; simpl; [by rewrite app_nil_r|].
  rewrite length_app, Nat.add_comm. cbn [Nat.add length replicate app]. rewrite walk_cons. rewrite !bool_decide_false by done.
  cbn [orb]. rewrite bool_decide_true by done. rewrite app_assoc. fold (parent ((cur ++ up) ++ [x])). rewrite parent_snoc. apply IH.
Qed.

(** Names that are no links lead to their path, or to an error. *)
Lemma walk_down cur down rest r :
  names_ok down → (∀ pre t, pre ≠ [] → pre `prefix_of` down → tree s !! (cur ++ pre) ≠ Some (Sym t)) →
  walk s true b cur (down ++ rest) = Ok r →
  walk s true b (cur ++ down) rest = Ok r ∨ (rest = [] ∧ path_of r = cur ++ down).
Proof.
  revert cur. induction down as [|c down IH]; intros cur Hok Hno H; [left; by rewrite app_nil_r|].
  rewrite <- app_comm_cons in H. inv Hok. rewrite walk_name in H by done.
  assert (Hnil : is_nil (down ++ rest) = true → down = [] ∧ rest = []) by (destruct down, rest; done).
  assert (Hc : ∀ t, tree s !! (cur ++ [c]) ≠ Some (Sym t)) by (intros t; by apply Hno; [|apply prefix_cons, prefix_nil]).
  destruct (tree s !! (cur ++ [c])) as [[o|i|t|]|] eqn:E.
  - replace (cur ++ c :: down) with ((cur ++ [c]) ++ down) by (by rewrite <- app_assoc). apply IH; [done| |done].
    intros pre t Hne Hpre. rewrite <- app_assoc. apply Hno; [done|]. by apply prefix_cons.
  - destruct (is_nil _); [|done]. destruct Hnil as [-> ->]; [done|]. injection H as <-. by right.
  - by destruct (Hc t).
  - destruct (is_nil _); [|done]. destruct Hnil as [-> ->]; [done|]. injection H as <-. by right.
  - destruct (is_nil _); [|done]. destruct Hnil as [-> ->]; [done|]. injection H as <-. by right.
Qed.
End walking.

(** ** The kernel follows the resolution *)

Section safety.
Context (s0 : fs) (rs : list text) (Hrs : names_ok rs) (Hne : rs ≠ []).
Context (members : list (member * text)) (M : dict text member) (Hx : indexed members M) (s : fs).
Context (Hsoft : soft s0 rs members M (dkeys (select issym members)) s).

Abbreviation symlinks := (select issym members).

(** The links of the tree are those of the archive. *)
Lemma tree_link cs : names_ok cs → is_link M (rel cs) →
  ∃ m t ds, dget (rel cs) symlinks = Some m ∧ _resolve_link_path (rel cs) symlinks M = Ok (t, ds) ∧
    tree s !! (rs ++ cs) = Some (Sym (link_text rs s0 (rel cs) m t)).
Proof.
  intros Hcs Hl. destruct Hsoft as (_ & _ & _ & Hs & _). pose proof (indexed_links _ _ Hx) as Hi.
  pose proof Hl as (m & Hm). apply (li_links _ _ Hi) in Hm. apply (symlink_key_link _ _ Hi) in Hl.
  destruct (Hs m cs Hcs Hl Hm) as (t & ds & Hr & Ht). eauto 6.
Qed.

Lemma tree_no_link cs : ¬ is_link M (rel cs) → ∀ t, tree s !! (rs ++ cs) ≠ Some (Sym t).
Proof.
  intros Hn t Ht. destruct Hsoft as (_ & _ & _ & _ & Ho & _). destruct (Ho cs t Ht) as [_ Hin].
  apply Hn. by apply (symlink_key_link _ _ (indexed_links _ _ Hx)).
Qed.

(** Components that are no links are appended. *)
Lemma loop_plain r fuel st fin d X :
  resolution_ok M st → components st = d ++ X → names_ok d →
  (∀ pre, pre ≠ [] → pre `prefix_of` d → ¬ is_link M (rel (resolved_components st ++ pre))) →
  resolve_loop r symlinks M fuel st = Ok fin →
  ∃ fuel' st', (fuel' ≤ fuel)%nat ∧ resolution_ok M st' ∧ components st' = X ∧
    resolved_components st' = resolved_components st ++ d ∧ resolve_loop r symlinks M fuel' st' = Ok fin.
Proof.
  revert fuel st. induction d as [|c d IH]; intros fuel st Hok Hc Hd Hno Hl.
  { exists fuel, st. rewrite app_nil_r. done. }
  destruct fuel as [|fuel]; simpl in Hl; rewrite Hc in Hl; [done|]. cbn [app] in Hl, Hc. inv Hd.
  apply bind_Ok_inv in Hl as (st1 & Hst & Hl). pose proof (indexed_links _ _ Hx) as Hi.
  pose proof (resolve_step_ok r symlinks M Hi st c (d ++ X) st1 Hok Hc Hst) as [Hok1 _].
  assert (Hst1 : components st1 = d ++ X ∧ resolved_components st1 = resolved_components st ++ [c]).
  { specialize (Hno [c]). pose proof (name_ok_spec c) as Hn. destruct Hn as [Hn _]. destruct Hn as (H3 & H4 & H5 & _); [done|].
    unfold resolve_step in Hst. cbn [resolved_components r_dependencies seen resolutions] in Hst.
    rewrite (bool_decide_false (c = [])), (bool_decide_false (c = dot)), (bool_decide_false (c = dotdot)) in Hst by done. cbn [orb] in Hst.
    rewrite os_join_all_rel in Hst.
    - destruct (dget _ M) as [m|] eqn:Em; [|by res_inv]. destruct (issym m) eqn:Es; [|by res_inv].
      destruct Hno; [done|by apply prefix_cons, prefix_nil|]. by exists m.
    - by destruct (resolved_components st).
    - apply names_ok_app. split; [apply Hok|by constructor]. }
  destruct Hst1 as [Hc1 Hr1].
  destruct (IH fuel st1 Hok1 Hc1 H2) as (fuel' & st' & Hle & Hok' & Hc' & Hr' & Hl'); [|done|].
  - intros pre Hnp Hpre. rewrite Hr1, <- app_assoc. apply Hno; [done|]. by apply prefix_cons.
  - exists fuel', st'. split; [lia|]. split; [done|]. split; [done|]. split; [|done]. rewrite Hr', Hr1. by rewrite <- app_assoc.
Qed.

(** The link [cs = d ++ [c]], once read, leads the kernel to where it leads the resolution. *)
Definition leads_kernel (d : list text) (b : nat) (text_ : text) (ts rest : list text) : Prop :=
  ∀ r, walk s true b (rs ++ d) (split_on 47 text_ ++ rest) = Ok r →
    walk s true b (rs ++ ts) rest = Ok r ∨ (rest = [] ∧ path_of r = rs ++ ts).

Lemma absolute_text d c t ts b rest :
  names_ok (d ++ [c]) → names_ok ts → t = rel ts →
  (∀ pre, pre ≠ [] → pre `prefix_of` ts → ¬ is_link M (rel pre)) →
  ∀ text_, text_ = relpath (abs (cwd s0)) (os_join (abs rs) t) (dirname (os_join (abs rs) (rel (d ++ [c])))) →
  startswith text_ [47] = false ∧ leads_kernel d b text_ ts rest.
Proof.
  intros Hok Hts -> Hno text_ ->. pose proof Hok as Hok'. apply names_ok_app in Hok' as [Hd Hc].
  assert (Hdir : dirname (os_join (abs rs) (rel (d ++ [c]))) = abs (rs ++ d)).
  { rewrite os_join_abs by (done || by destruct d). rewrite app_assoc. apply dirname_abs; [by apply names_ok_app|].
    inv Hc. by apply name_ok_spec in H1 as (_ & _ & _ & ?). }
  assert (Hp : abspath (abs (cwd s0)) (os_join (abs rs) (rel ts)) = abs (rs ++ ts)).
  { destruct (decide (ts = [])) as [->|Hn].
    - change (rel []) with (@nil Z). rewrite os_join_abs_nil, app_nil_r by done. by apply abspath_trailing.
    - rewrite os_join_abs by done. apply abspath_abs. by apply names_ok_app. }
  destruct (relpath_spec (abs (cwd s0)) (os_join (abs rs) (rel ts)) (abs (rs ++ d)) (rs ++ ts) (rs ++ d)) as
    (e & up & down & HQ & HP & Hsl & _ & Hsplit); [by apply names_ok_app|by apply names_ok_app|by destruct rs|by destruct rs|done|
    apply abspath_abs; by apply names_ok_app|].
  rewrite Hdir. split; [done|]. intros r. rewrite Hsplit.
  (* the common ancestor lies below the output *)
  assert (He : ∀ pre t, pre ≠ [] → pre `prefix_of` down → tree s !! (e ++ pre) ≠ Some (Sym t)).
  { intros pre t Hnp [k Hk] Ht. subst down. rewrite app_assoc in HP.
    destruct (decide (rs `prefix_of` e ++ pre)) as [[q Hq]|Hnot].
    - rewrite Hq in Ht. destruct (decide (q = [])) as [->|Hqn].
      + destruct Hsoft as (([Hout _ _ Hroot] & _) & _). rewrite app_nil_r in Ht.
        destruct (Hroot rs) as [o Ho]; [done|]. congruence.
      + revert Ht. apply tree_no_link, Hno; [done|]. exists k. rewrite Hq, <- app_assoc in HP. by apply app_inv_head in HP.
    - destruct Hsoft as (([Hout _ _ Hroot] & _) & _).
      assert (Hpre : e ++ pre `prefix_of` rs).
      { destruct (prefix_weak_total (e ++ pre) rs (rs ++ ts)) as [?|?]; [by exists k|by exists ts|done|done]. }
      destruct (Hroot _ Hpre) as [o Ho]. congruence. }
  case_decide as Hcase.
  - destruct Hcase as [-> ->]. rewrite app_nil_r in *. subst e. rewrite <- HP. cbn [app]. rewrite walk_cons.
    rewrite (bool_decide_true (dot = dot)) by done. rewrite orb_true_r. by left.
  - intros Hw. rewrite HQ, <- app_assoc, walk_up in Hw. apply walk_down in Hw; [by rewrite HP| |done].
    apply (names_ok_app e). rewrite <- HP. by apply names_ok_app.
Qed.

Lemma raw_relative d c m :
  names_ok (d ++ [c]) → startswith (m_linkname m) [47] = false →
  _raw_link_components (rel (d ++ [c])) (m_linkname m) = d ++ split_on 47 (m_linkname m).
Proof.
  intros Hdc Eabs. unfold _raw_link_components. rewrite Eabs. apply names_ok_app in Hdc as [Hd Hc]. inv Hc.
  rewrite dirname_rel; [|done|by apply name_ok_spec in H1 as (_ & _ & _ & ?)].
  destruct (decide (d = [])) as [->|Hdn]; [done|]. rewrite bool_decide_false by (by intros ?%join_nil_iff). by rewrite split_rel.
Qed.

(** A resolution that follows the link [cs] arrives at the target of the link with the components after it. *)
Lemma run_through_link r cs m ts ds fuel st fin rest :
  dget (rel cs) symlinks = Some m → _resolve_link_path (rel cs) symlinks M = Ok (rel ts, ds) → names_ok ts →
  resolution_ok M st → components st = _raw_link_components (rel cs) (m_linkname m) ++ rest → resolved_components st = [] →
  resolve_loop r symlinks M fuel st = Ok fin →
  ∃ fuel' mid, (fuel' ≤ fuel)%nat ∧ resolution_ok M mid ∧ components mid = rest ∧ resolved_components mid = ts ∧
    resolve_loop r symlinks M fuel' mid = Ok fin.
Proof.
  intros Hm Hr Hts Hok Hc Hres Hl. pose proof (indexed_links _ _ Hx) as Hi.
  assert (Hem : embeds M rest st (initial (rel cs) m)).
  { split; [done|apply initial_ok|done|done|]. intros x Hx'. by apply elem_of_nil in Hx'. }
  destruct (embeds_run symlinks M Hi r (rel cs) rest fuel _ _ _ Hem Hl) as
    (fuel1 & fuel2 & mid & mid' & D & E & Hrun & Hle & Hfin & Hokm & Hcm & Hrm & _).
  apply (resolve_any_fuel _ _ Hi) in Hrun. apply resolve_Ok in Hr as (m2 & st2 & Hm2 & Hl2 & Hts2 & _).
  assert (m2 = m) as -> by congruence. rewrite Hrun in Hl2. injection Hl2 as <-.
  destruct (resolve_loop_ok _ _ _ Hi _ _ _ (initial_ok M _ m) Hrun) as [Hok' _].
  exists fuel2, mid. split; [done|]. split; [done|]. split; [done|]. split; [|done].
  rewrite Hrm. apply rel_inj; [apply Hok'|done|]. rewrite Hts2. unfold joined.
  destruct (resolved_components mid') as [|y l] eqn:Ey; [done|]. rewrite os_join_all_rel; [done|done|]. rewrite <- Ey. apply Hok'.
Qed.

(** A component that is no link: the kernel enters it or stops at it. *)
Lemma kernel_plain fuel r c rest st1 fin b f d :
  resolve_loop r symlinks M fuel st1 = Ok fin → components st1 = rest → resolved_components st1 = d ++ [c] →
  ¬ is_link M (rel (d ++ [c])) →
  match tree s !! ((rs ++ d) ++ [c]) with
  | None => if is_nil rest then Ok (Free (rs ++ d) c) else Err OSError
  | Some (Dir _) => walk s true b ((rs ++ d) ++ [c]) rest
  | Some (Sym t) => Err OSError
  | Some n => if is_nil rest then Ok (At ((rs ++ d) ++ [c]) n) else Err OSError
  end = Ok f →
  walk s true b (rs ++ resolved_components st1) (components st1) = Ok f ∨ path_of f = rs ++ resolved_components fin.
Proof.
  intros Hl Hc Hr Hnl Hw. rewrite Hc, Hr. rewrite app_assoc.
  assert (Hend : is_nil rest = true → path_of f = (rs ++ d) ++ [c] → path_of f = rs ++ resolved_components fin).
  { intros En ->. destruct rest; [|done]. rewrite <- app_assoc, <- Hr. destruct fuel; simpl in Hl; rewrite Hc in Hl; by injection Hl as <-. }
  destruct (tree s !! _) as [[o|i|t|]|]; [by left| |done| |];
    (destruct (is_nil rest) eqn:En; [|done]); right; injection Hw as <-; by apply Hend.
Qed.

Lemma kernel_resolves fuel r st fin b f :
  resolution_ok M st → resolve_loop r symlinks M fuel st = Ok fin →
  walk s true b (rs ++ resolved_components st) (components st) = Ok f → path_of f = rs ++ resolved_components fin.
Proof.
  revert st b. induction (lt_wf fuel) as [fuel _ IH]. intros st b Hok Hl Hw. pose proof (indexed_links _ _ Hx) as Hi.
  destruct (components st) as [|c rest] eqn:Ec.
  { destruct fuel; simpl in Hl; rewrite Ec in Hl; injection Hl as <-; rewrite walk_nil in Hw; by destruct (tree s !! _); simplify_eq/=. }
  destruct fuel as [|fuel]; simpl in Hl; rewrite Ec in Hl; [done|]. apply bind_Ok_inv in Hl as (st1 & Hst & Hl).
  pose proof (resolve_step_ok r symlinks M Hi st c rest st1 Hok Ec Hst) as [Hok1 _].
  assert (HIH : ∀ b, walk s true b (rs ++ resolved_components st1) (components st1) = Ok f → path_of f = rs ++ resolved_components fin).
  { intros b'. apply (IH fuel); [lia|done|done]. }
  rewrite walk_cons in Hw. unfold resolve_step in Hst. cbn [resolved_components r_dependencies seen resolutions] in Hst.
  destruct (bool_decide (c = []) || bool_decide (c = dot)) eqn:E1; [res_inv; by apply (HIH b)|].
  apply orb_false_iff in E1 as [E1 E2]. bool_inv. case_bool_decide as E3.
  { apply bind_Ok_inv in Hst as (u & Hn & Hst). apply raise_if_Ok in Hn. res_inv. apply (HIH b). simpl.
    destruct (exists_last (l := resolved_components st)) as (p & x & Hp); [by destruct (resolved_components st)|].
    rewrite Hp, app_assoc in Hw. fold (parent ((rs ++ p) ++ [x])) in Hw. rewrite parent_snoc in Hw.
    rewrite Hp. fold (parent (p ++ [x])). by rewrite parent_snoc. }
  set (d := resolved_components st) in *.
  assert (Hc : name_ok c = true). { apply name_ok_spec. pose proof (ro_components _ _ Hok) as Hf. rewrite Ec in Hf. by inv Hf. }
  assert (Hdc : names_ok (d ++ [c])) by (apply names_ok_app; split; [apply Hok|by constructor]).
  rewrite os_join_all_rel in Hst by (done || by destruct d).
  assert (Hplain : ¬ is_link M (rel (d ++ [c])) → components st1 = rest → resolved_components st1 = d ++ [c] →
    path_of f = rs ++ resolved_components fin).
  { intros Hnl Hc1 Hr1. pose proof (tree_no_link _ Hnl) as Hnt. rewrite app_assoc in Hnt.
    destruct (kernel_plain fuel r c rest st1 fin b f d) as [Hw'|?]; [done..| |by apply (HIH b)|done].
    destruct (tree s !! _) as [[]|]; try done. by destruct (Hnt target). }
  destruct (dget _ M) as [m|] eqn:Em; [|apply Hplain; [intros (? & ? & _); congruence|by res_inv..]].
  destruct (issym m) eqn:Es; [|apply Hplain; [intros (? & ? & ?); congruence|by res_inv..]]. clear Hplain.
  apply bind_Ok_inv in Hst as (u & _ & Hst). apply bind_Ok_inv in Hst as (u' & _ & Hst). injection Hst as Hst.
  destruct (tree_link (d ++ [c]) Hdc) as (m' & t & ds & Hm' & Hr & Ht); [by exists m|].
  assert (m' = m) as ->. { apply (li_links _ _ Hi) in Hm' as [Hm' _]. congruence. }
  rewrite app_assoc in Ht. rewrite Ht in Hw. cbn [negb] in Hw. rewrite andb_false_r in Hw. destruct b as [|b]; [done|].
  unfold link_text in Hw. destruct (startswith (m_linkname m) [47]) eqn:Eabs.
  - (* an absolute link was rewritten to its target *)
    destruct (resolve_result symlinks M Hi _ _ _ Hr) as (ts & Hts & -> & Hno & _).
    destruct (absolute_text d c (rel ts) ts b rest Hdc Hts eq_refl Hno _ eq_refl) as [Hsl Hk]. rewrite Hsl in Hw. apply Hk in Hw.
    destruct (run_through_link r (d ++ [c]) m ts ds fuel st1 fin rest) as (fuel2 & mid & Hle & Hokm & Hcm & Hmid & Hfin);
      [done..|by rewrite <- Hst|by rewrite <- Hst|done|].
    destruct Hw as [Hw|[-> Hp]].
    + apply (IH fuel2 ltac:(lia) mid b); [done|done|]. by rewrite Hmid, Hcm.
    + rewrite Hp. destruct fuel2; simpl in Hfin; rewrite Hcm in Hfin; injection Hfin as <-; by rewrite Hmid.
  - (* a relative link continues from the directory that holds it *)
    rewrite Eabs in Hw. pose proof (raw_relative d c m Hdc Eabs) as Hraw.
    destruct (loop_plain r fuel st1 fin d (split_on 47 (m_linkname m) ++ rest)) as (fuel' & st' & Hle & Hok' & Hc' & Hr' & Hl');
      [done|rewrite <- Hst; simpl; by rewrite Hraw, <- app_assoc|by apply names_ok_app in Hdc as [? _]| |done|].
    + intros pre Hnp Hpre. rewrite <- Hst. simpl. by apply (ro_no_link _ _ Hok).
    + apply (IH fuel' ltac:(lia) st' b); [done|done|]. rewrite Hr', Hc', <- Hst. done.
Qed.

(** Following the link [d ++ [c]] from the root of the file system. *)
Lemma link_resolves d c f :
  names_ok (d ++ [c]) → is_link M (rel (d ++ [c])) → locate true s (abs (rs ++ d ++ [c])) = Ok f →
  ∃ ts ds, _resolve_link_path (rel (d ++ [c])) symlinks M = Ok (rel ts, ds) ∧ names_ok ts ∧ path_of f = rs ++ ts.
Proof.
  intros Hdc Hlink Hloc. pose proof (indexed_links _ _ Hx) as Hi.
  destruct (tree_link (d ++ [c]) Hdc Hlink) as (m & t & ds & Hm & Hr & Ht).
  destruct (resolve_result symlinks M Hi _ _ _ Hr) as (ts & Hts & -> & Hno & _). exists ts, ds. split; [done|]. split; [done|].
  assert (Hd : dirs s (rs ++ d)). { rewrite app_assoc in Ht. destruct Hsoft as ((_ & Hw & _) & _). by eapply wf_dirs. }
  rewrite locate_abs in Hloc; [|by apply names_ok_app|by destruct rs]. rewrite app_assoc, walk_dirs in Hloc;
    [|apply names_ok_app; split; [done|by apply names_ok_app in Hdc as [? _]]|done]. cbn [app] in Hloc.
  assert (Hc : name_ok c = true) by (apply names_ok_app in Hdc as [_ Hc]; by inv Hc).
  rewrite walk_name in Hloc by done. rewrite app_assoc in Ht. rewrite Ht in Hloc. cbn [is_nil negb andb MAXSYMLINKS] in Hloc.
  unfold link_text in Hloc. destruct (startswith (m_linkname m) [47]) eqn:Eabs.
  - destruct (absolute_text d c (rel ts) ts 39 [] Hdc Hts eq_refl Hno _ eq_refl) as [Hsl Hk]. rewrite Hsl in Hloc.
    apply Hk in Hloc as [Hw|[_ Hp]]; [|done]. rewrite walk_nil in Hw. by destruct (tree s !! _); simplify_eq/=.
  - rewrite Eabs, app_nil_r in Hloc. pose proof (raw_relative d c m Hdc Eabs) as Hraw.
    apply resolve_Ok in Hr as (m2 & fin & Hm2 & Hl & Hts2 & _). assert (m2 = m) as -> by congruence.
    destruct (loop_plain (rel (d ++ [c])) (resolve_fuel (rel (d ++ [c])) m M) (initial (rel (d ++ [c])) m) fin d (split_on 47 (m_linkname m)))
      as (fuel' & st' & Hle & Hok' & Hc' & Hr' & Hl'); [apply initial_ok|done|by apply names_ok_app in Hdc as [? _]| |done|].
    + intros pre Hnp Hpre Hlk. simpl in Hlk.
      assert (Hpn : names_ok pre). { apply names_ok_app in Hdc as [Hdn _]. destruct Hpre as [k ->]. by apply names_ok_app in Hdn as [? _]. }
      destruct (tree_link pre Hpn Hlk) as (? & ? & ? & _ & _ & Hsym). destruct (Hd (rs ++ pre)) as [o Ho]; [|congruence].
      by apply prefix_app.
    + assert (Hp : path_of f = rs ++ resolved_components fin).
      { eapply (kernel_resolves fuel' (rel (d ++ [c])) st' fin 39); [done|done|]. by rewrite Hr', Hc'. }
      rewrite Hp. f_equal. destruct (resolve_loop_ok _ _ _ Hi _ _ _ (initial_ok M _ m) Hl) as [[] _].
      apply rel_inj; [done|done|]. rewrite Hts2. unfold joined. destruct (resolved_components fin) as [|y l]; [done|].
      by rewrite os_join_all_rel.
Qed.
End safety.

(** C6: In the tree that [_extract_members] leaves, with all members of the archive created, the kernel follows every
    symbolic link of the archive that it can follow to the path that the link resolution computed for it before any link
    was created; that path is below the output directory, so in this tree no link of the archive leads out of it. (This is
    the tree before extract() prepares the mount roots and replaces the links bin, sbin, lib and lib64 of the merged /usr.) *)
Theorem links_stay_inside s0 rs mode source s members M m cs f :
  fresh_output s0 rs →
  _extract_members source (abs rs) (put rs (Dir mode) s0) = (Ok tt, s) →
  _index_members source = Ok (members, M) → dget (rel cs) M = Some m → names_ok cs → issym m = true →
  locate true s (abs (rs ++ cs)) = Ok f →
  ∃ ts ds, _resolve_link_path (rel cs) (select issym members) M = Ok (rel ts, ds) ∧ names_ok ts ∧ path_of f = rs ++ ts.
Proof.
  intros Hf Hrun Hix Hm Hcs Hs Hloc. destruct (extract_members_soft _ _ _ _ _ Hf Hrun) as (members' & M' & E & _ & Hsoft).
  rewrite Hix in E. injection E as <- <-. pose proof (index_members_ok _ _ _ Hix) as Hx.
  assert (Hne : cs ≠ []).
  { intros ->. apply (indexed_lookup _ _ Hx) in Hm. destruct (ix_safe _ _ Hx _ _ Hm) as (ds & Hne & Hok & Heq).
    apply rel_inj in Heq; [by subst|done|done]. }
  destruct (exists_last Hne) as (d & c & ->).
  eapply (link_resolves s0 rs (fo_names _ _ Hf) (fo_name _ _ Hf) members M Hx s Hsoft); [done| |done]. by exists m.
Qed.

(** [/out/etc/a], an absolute link through another link, leads to [/out/usr/lib/x]. *)
Lemma links_stay_inside_witness :
  ∃ ts ds, _resolve_link_path (rel [lit "etc"; lit "a"]) (select issym demo_index.1) demo_index.2 = Ok (rel ts, ds) ∧
    names_ok ts ∧ path_of (At [lit "out"; lit "usr"; lit "lib"; lit "x"] (Reg 1)) = out ++ ts.
Proof.
  apply (links_stay_inside demo_fs out 493 demo_tar demo_extracted demo_index.1 demo_index.2
    (demo_member "./etc/a" SYMTYPE 511 "/lib/x" []) [lit "etc"; lit "a"]).
  - apply demo_fresh.
  - vm_compute. reflexivity.
  - vm_compute. reflexivity.
  - vm_compute. reflexivity.
  - by repeat constructor.
  - reflexivity.
  - vm_compute. reflexivity.
Defined.
