(* ===== verification/PackageArchive.v ===== *)
(** * The archive of the Debian package tree

    src/mkosi/debian/package_archive.py: authenticated packages are opened (an ar archive whose data member is a tar
    archive), their members are collected by path, later packages over earlier ones, and written as one tar archive in a
    fixed order. [tarfile] is the argument [tar_open] for reading; what is written is the list of members. *)
From S2P Require Import Prelude Bytes PyText Decimal Hashing Collections PosixPath FileTree ExtractTree ExtractDemo ExtractPaths.

Section package_archive.
Context `{Ucd}.

(** ** The ar container *)

(** Python's [l[a:b]] for any integers: negative positions count from the end. *)
Definition pyslice {A} (a b : Z) (l : list A) : list A :=
  let index i := if i <? 0 then Z.max 0 (i + len l) else i in
  slice (index a) (index b) l.

(** One round of the loop: the name and data of the member at [offset], and the offset of the next one. *)
Definition ar_member (data : bytes) (offset : Z) : result (text * bytes * Z) :=
  raise_if (len data <? offset + 60) (ValueError "truncated Debian ar header" []);;
  let header := pyslice offset (offset + 60) data in
  require (bool_decide (pyslice 58 60 header = [x60; x0a])) (ValueError "invalid Debian ar header" []);;
  name ← of_option UnicodeError (ascii_decode (pyslice 0 16 header));
  let name := rstrip_by is_slash (strip name) in
  size_text ← of_option UnicodeError (ascii_decode (pyslice 48 58 header));
  size ← of_option (ValueError "invalid literal for int() with base 10" []) (py_int (strip size_text));
  let start := offset + 60 in
  let end_ := start + size in
  raise_if (len data <? end_) (ValueError "truncated Debian ar member" []);;
  mret (name, pyslice start end_ data, end_ + Z.land end_ 1).

(** What the generator yields from [offset] on, and the exception that ends it, if any. *)
Fixpoint ar_from (fuel : nat) (data : bytes) (offset : Z) : list (text * bytes) * option exn :=
  if len data <=? offset then ([], None)
  else match fuel with
  | O => ([], Some OutOfFuel)
  | S fuel =>
      match ar_member data offset with
      | Err e => ([], Some e)
      | Ok (name, member, next) => let '(ms, e) := ar_from fuel data next in ((name, member) :: ms, e)
      end
  end.

(** A member of a size that is not negative takes at least its header. *)
Definition ar_fuel (data : bytes) : nat := length data.

Definition _ar_members (data : bytes) : list (text * bytes) * option exn :=
  if bool_decide (blit "!<arch>" ++ [x0a] `prefix_of` data) then ar_from (ar_fuel data) data 8
  else ([], Some (ValueError "not a Debian ar archive" [])).

Definition _package_data (data : bytes) : result bytes :=
  let '(members, e) := _ar_members data in
  match List.find (λ x : text * bytes, startswith x.1 (lit "data.tar")) members with
  | Some (_, member) => mret member
  | None =>
      match e with
      | Some e => Err e
      | None => Err (ValueError "Debian package has no data archive" [])
      end
  end.

(** ** Authenticated packages *)

(** The lines of a file opened as text, with their final newline. *)
Fixpoint file_lines (t : text) : list text :=
  match t with
  | [] => []
  | c :: t =>
      if c =? 10 then [10] :: file_lines t
      else match file_lines t with
           | [] => [[c]]
           | l :: ls => (c :: l) :: ls
           end
  end.

Definition manifest_line (expected : dict text text) (line : text) : result (dict text text) :=
  match split_max 2 124 (rstrip_by (λ c, c =? 10) line) with
  | [name; digest; _] =>
      raise_if (dmem name expected) (ValueError "invalid or duplicate package manifest entry" []);;
      mret (dset name digest expected)
  | _ => Err (ValueError "invalid or duplicate package manifest entry" [])
  end.

Definition _read_manifest (manifest : text) : io (dict text text) :=
  data ← read_file manifest;
  lift (t ← of_option UnicodeError (universal_newlines <$> utf8_decode data);
        foldM manifest_line [] (file_lines t)).

Definition _open_authenticated (package expected_digest : text) : io bytes :=
  data ← read_file package;
  let actual := hex (sha256 data) in
  io_when (negb (bool_decide (actual = expected_digest)))
    (raise (ValueError "Debian package digest mismatch for %s: expected=%s actual=%s"
       [AText (basename package); AText expected_digest; AText actual]));;
  mret data.

Definition authenticated_stream (expected : dict text text) (st : list (text * bytes) * list text) (package : text)
    : io (list (text * bytes) * list text) :=
  let '(streams, seen) := st in
  let name := basename package in
  match dget name expected with
  | None => raise (ValueError "package is absent from manifest: %s" [AText name])
  | Some digest =>
      if bool_decide (name ∈ seen) then raise (ValueError "package is duplicated in action inputs: %s" [AText name])
      else
        data ← _open_authenticated package digest;
        mret (streams ++ [(package, data)], name :: seen)
  end.

Definition _authenticated_streams (packages : list text) (expected : dict text text) : io (list (text * bytes)) :=
  io_when (negb (length expected =? length packages)%nat)
    (raise (ValueError "package manifest does not match package inputs" []));;
  '(streams, seen) ← fold_io (authenticated_stream expected) ([], []) packages;
  io_when (negb (forallb (λ k, bool_decide (k ∈ seen)) (dkeys expected)))
    (raise (ValueError "package manifest does not match package inputs" []));;
  mret streams.

(** ** Collecting members *)

Inductive object_kind := ODir | OFile | OSymlink | OHardlink.
Record object := { o_kind : object_kind; o_mode : Z; o_source : option text; o_linkname : option text }.
Abbreviation objects := (dict text object).

Definition _ensure_parent (objs : objects) (relative : text) : objects :=
  let parent := dirname relative in
  if bool_decide (parent = []) then objs
  else
    let pieces := split_on 47 parent in
    foldl (λ objs index,
      let current := os_join_all (take index pieces) in
      if dmem current objs then objs
      else dset current {| o_kind := ODir; o_mode := 493; o_source := None; o_linkname := None |} objs)
      objs (seq 1 (length pieces)).

Definition _extract_file (m : member) (relative work : text) : io text :=
  let destination := os_join work relative in
  os_makedirs (dirname destination);;
  io_when (negb (isfile m)) (raise (ValueError "package member has no data: %s" [AText relative]));;
  write_file destination (m_data m);;
  match m_damage m with Some e => raise e | None => mret destination end.

Definition _member_object (m : member) (relative work : text) : io object :=
  let mode := S_IMODE (m_mode m) in
  if isdir m then mret {| o_kind := ODir; o_mode := mode; o_source := None; o_linkname := None |}
  else if isfile m then
    source ← _extract_file m relative work;
    mret {| o_kind := OFile; o_mode := mode; o_source := Some source; o_linkname := None |}
  else if issym m then mret {| o_kind := OSymlink; o_mode := mode; o_source := None; o_linkname := Some (m_linkname m) |}
  else if islnk m then mret {| o_kind := OHardlink; o_mode := mode; o_source := None; o_linkname := Some (m_linkname m) |}
  else raise (ValueError "unsupported package member: %s" [AText relative]).

Definition collect_member (work : text) (objs : objects) (m : member) : io objects :=
  relative ← lift (member_path (m_name m) (lit "package"));
  if is_nil relative then mret objs
  else
    let objs := _ensure_parent objs relative in
    object ← _member_object m relative work;
    mret (dset relative object objs).

Definition _collect_package (tar_open : bytes → result tar) (work : text) (objs : objects) (stream : text * bytes) : io objects :=
  data ← lift (_package_data stream.2);
  source ← lift (tar_open data);
  objs ← fold_io (collect_member work) objs (t_members source);
  match t_damage source with Some e => raise e | None => mret objs end.

Definition _collect (tar_open : bytes → result tar) (packages : list text) (manifest work : text) : io objects :=
  expected ← _read_manifest manifest;
  streams ← _authenticated_streams packages expected;
  fold_io (_collect_package tar_open work) [] streams.

(** ** Writing *)

(** The order of [(count("/"), path)] keys. *)
Definition path_level_lt (a b : text) : bool :=
  (slashes a <? slashes b)%nat || ((slashes a =? slashes b)%nat && negb (text_leb b a)).

(** The member written for one object; owners, times and names of owners are constants of the archive. *)
Definition archive_member (relative : text) (o : object) : io member :=
  let member type link data :=
    {| m_name := lit "./" ++ relative; m_type := type; m_mode := o_mode o; m_linkname := link; m_data := data; m_damage := None |} in
  match o_kind o with
  | ODir => mret (member DIRTYPE [] [])
  | OFile =>
      data ← match o_source o with Some source => read_file source | None => raise TypeError end;
      mret (member REGTYPE [] data)
  | OSymlink => mret (member SYMTYPE (default [] (o_linkname o)) [])
  | OHardlink => mret (member LNKTYPE (default [] (o_linkname o)) [])
  end.

Definition _archive (objs : objects) : io (list member) :=
  fold_io (λ written relative,
    o ← lift (of_option KeyError (dget relative objs));
    m ← archive_member relative o;
    mret (written ++ [m])) [] (stable_sort path_level_lt (dkeys objs)).
End package_archive.

Abbreviation objects := (dict text object).

(** ** The ar container reads back *)

Definition padded (n : nat) (t : text) : text := t ++ replicate (n - length t) 32.

(** A member header: the name, 32 bytes for date, owner and mode that are not read, and the size. *)
Definition ar_header (name : text) (meta : bytes) (size : Z) : bytes :=
  (Z2b <$> padded 16 name) ++ meta ++ (Z2b <$> padded 10 (dec size)) ++ [x60; x0a].

Definition ar_entry (e : text * bytes * bytes) : bytes :=
  let '(name, meta, data) := e in
  ar_header name meta (len data) ++ data ++ (if Z.even (len data) then [] else [x0a]).

Definition ar_print (es : list (text * bytes * bytes)) : bytes := blit "!<arch>" ++ [x0a] ++ (es ≫= ar_entry).

(** A name of printable characters that fits its field and does not end in a slash; data whose size fits its field. *)
Record ar_plain (e : text * bytes * bytes) : Prop := {
  ap_name : Forall (λ c, 32 < c < 127) e.1.1;
  ap_length : (length e.1.1 ≤ 16)%nat;
  ap_slash : last e.1.1 ≠ Some 47;
  ap_meta : length e.1.2 = 32%nat;
  ap_size : (length (dec (len e.2)) ≤ 10)%nat;
}.

Section ar.
Context `{Ucd}.

Lemma pyslice_slice {A} a b (l : list A) : 0 <= a → 0 <= b → pyslice a b l = slice a b l.
Proof. intros Ha Hb. unfold pyslice. by rewrite !(proj2 (Z.ltb_ge _ _)) by lia. Qed.

Lemma length_padded n t : (length t ≤ n)%nat → length (padded n t) = n.
Proof. intros Hn. unfold padded. rewrite length_app, length_replicate. lia. Qed.

Lemma ascii_padded n t : Forall (λ c, 32 < c < 127) t → ascii_decode (Z2b <$> padded n t) = Some (padded n t).
Proof.
  intros Ht. apply ascii_round_trip. apply Forall_app. split.
  - eapply Forall_impl; [exact Ht|]. simpl. lia.
  - apply Forall_replicate. lia.
Qed.

Lemma not_space c : 32 < c < 127 → isspace c = false.
Proof. intros Hc. unfold isspace. lia. Qed.

Lemma dec_printable n : 0 <= n → Forall (λ c, 32 < c < 127) (dec n).
Proof.
  intros Hn. destruct (dec_digits n Hn) as [[Hf _] _]. eapply Forall_impl; [exact Hf|]. intros c Hc. unfold ascii_digit in Hc.
  simpl in Hc. lia.
Qed.

Lemma rstrip_slash_none (t : text) : last t ≠ Some 47 → rstrip_by is_slash t = t.
Proof.
  intros Hl. destruct t as [|x t _] using rev_ind; [done|]. unfold rstrip_by. rewrite reverse_app. simpl.
  rewrite last_snoc in Hl. unfold is_slash at 1. destruct (Z.eqb_spec x 47); [congruence|]. by rewrite reverse_cons, reverse_involutive.
Qed.

Lemma ar_header_fields name meta size :
  (length name ≤ 16)%nat → length meta = 32%nat → (length (dec size) ≤ 10)%nat →
  let h := ar_header name meta size in
  len h = 60 ∧ slice 0 16 h = Z2b <$> padded 16 name ∧ slice 48 58 h = Z2b <$> padded 10 (dec size) ∧ slice 58 60 h = [x60; x0a].
Proof.
  intros Hn Hm Hs h. assert (H1 : len (Z2b <$> padded 16 name) = 16) by (rewrite len_fmap; unfold len; rewrite length_padded by done; done).
  assert (H2 : len meta = 32) by (unfold len; by rewrite Hm).
  assert (H3 : len (Z2b <$> padded 10 (dec size)) = 10) by (rewrite len_fmap; unfold len; rewrite length_padded by done; done).
  unfold h, ar_header. split; [rewrite !len_app, H1, H2, H3; done|]. split; [|split].
  - rewrite <- H1. apply slice_app_exact.
  - rewrite slice_app_r, H1 by lia. rewrite slice_app_r, H2 by lia. replace (58 - 16 - 32) with (len (Z2b <$> padded 10 (dec size))) by lia.
    replace (48 - 16 - 32) with 0 by lia. apply slice_app_exact.
  - rewrite slice_app_r, H1 by lia. rewrite slice_app_r, H2 by lia. rewrite slice_app_r, H3 by lia. done.
Qed.

Lemma len_ar_entry e : ar_plain e → len (ar_entry e) = 60 + len e.2 + (if Z.even (len e.2) then 0 else 1).
Proof.
  destruct e as [[name meta] data]. intros [Hn Hl Hs Hm Hz]. simpl in *.
  destruct (ar_header_fields name meta (len data) Hl Hm Hz) as [Hlen _]. rewrite !len_app, Hlen. destruct (Z.even (len data)); rewrite ?len_nil, ?len_cons, ?len_nil; lia.
Qed.

Lemma ar_member_print pre e rest :
  ar_plain e → Z.even (len pre) = true →
  ar_member (pre ++ ar_entry e ++ rest) (len pre) = Ok (e.1.1, e.2, len pre + len (ar_entry e)).
Proof.
  intros He Hev. pose proof (len_ar_entry e He) as Hle. destruct e as [[name meta] data]. destruct He as [Hn Hl Hs Hm Hz].
  cbn [fst snd] in *. destruct (ar_header_fields name meta (len data) Hl Hm Hz) as (H1 & H2 & H3 & H4).
  pose proof (len_nonneg pre). pose proof (len_nonneg rest). pose proof (len_nonneg data).
  unfold ar_member. assert (Hhead : pyslice (len pre) (len pre + 60) (pre ++ ar_entry (name, meta, data) ++ rest) = ar_header name meta (len data)).
  { rewrite pyslice_slice by lia. rewrite slice_app_r by lia. replace (len pre - len pre) with 0 by lia.
    replace (len pre + 60 - len pre) with (len (ar_header name meta (len data))) by lia. unfold ar_entry. rewrite <- app_assoc.
    apply slice_app_exact. }
  cbv zeta. rewrite Hhead. rewrite (pyslice_slice 58 60), (pyslice_slice 0 16), (pyslice_slice 48 58), H2, H3, H4 by lia.
  rewrite !len_app, Hle.
  assert (Hpad : 0 <= (if Z.even (len data) then 0 else 1)) by (by destruct (Z.even (len data))).
  rewrite (proj2 (Z.ltb_ge _ (len pre + 60))) by lia. cbn [raise_if require mbind result_bind].
  rewrite bool_decide_true by done. cbn [require mbind result_bind]. rewrite (ascii_padded 16 name) by done. cbn [of_option mbind result_bind].
  rewrite ascii_padded by (by apply dec_printable). cbn [of_option mbind result_bind]. unfold padded.
  rewrite !strip_padded by (eapply Forall_impl; [first [exact Hn|by apply dec_printable]|]; intros; by apply not_space).
  rewrite py_int_dec by done. cbn [of_option mbind result_bind].
  rewrite (proj2 (Z.ltb_ge _ (len pre + 60 + len data))) by lia. cbn [raise_if mbind result_bind].
  rewrite rstrip_slash_none by done. rewrite pyslice_slice by lia. unfold mret, result_ret. f_equal. f_equal; [f_equal|].
  - rewrite slice_app_r by lia. replace (len pre + 60 - len pre) with 60 by lia. unfold ar_entry. rewrite <- !app_assoc.
    rewrite slice_app_r, H1 by lia. replace (len pre + 60 + len data - len pre - 60) with (len data) by lia.
    replace (60 - 60) with 0 by lia. apply slice_app_exact.
  - change (Z.land (len pre + 60 + len data) 1) with (Z.land (len pre + 60 + len data) (Z.ones 1)). rewrite Z.land_ones by lia.
    change (2 ^ 1) with 2. rewrite Zmod_even, !Z.even_add, Hev. destruct (Z.even (len data)); simpl; lia.
Qed.

Lemma ar_from_print fuel pre es :
  Forall ar_plain es → Z.even (len pre) = true → (length es ≤ fuel)%nat →
  ar_from fuel (pre ++ (es ≫= ar_entry)) (len pre) = ((λ e, (e.1.1, e.2)) <$> es, None).
Proof.
  revert fuel pre. induction es as [|e es IH]; intros fuel pre He Hev Hf.
  { destruct fuel; simpl; by rewrite app_nil_r, Z.leb_refl. }
  inv He. destruct fuel as [|fuel]; simpl in Hf; [lia|]. rewrite bind_cons. cbn [ar_from].
  pose proof (len_ar_entry e H2) as Hle. pose proof (len_nonneg (es ≫= ar_entry)). pose proof (len_nonneg e.2).
  rewrite (proj2 (Z.leb_gt _ (len pre))) by (rewrite !len_app; destruct (Z.even (len e.2)) in Hle; lia).
  rewrite ar_member_print by done. rewrite <- len_app, app_assoc. rewrite IH; [done|done| |lia].
  rewrite len_app, Z.even_add, Hev, Hle, Z.even_add, Z.even_add. by destruct (Z.even (len e.2)).
Qed.

Lemma ar_entries_long es : Forall ar_plain es → (length es ≤ length (es ≫= ar_entry))%nat.
Proof.
  induction 1 as [|e es He Hes IH]; [done|]. rewrite bind_cons, length_app. pose proof (len_ar_entry e He) as Hle.
  pose proof (len_nonneg e.2). unfold len in Hle at 1. destruct (Z.even _) in Hle; simpl; lia.
Qed.
End ar.

(** An ar container with plain member headers reads back as its members, in order, with padding removed; the data
    member of a package is therefore the first one whose name starts with data.tar. *)
Theorem ar_round_trip `{Ucd} es :
  Forall ar_plain es →
  _ar_members (ar_print es) = ((λ e, (e.1.1, e.2)) <$> es, None) ∧
  _package_data (ar_print es) =
    match List.find (λ e, startswith e.1.1 (lit "data.tar")) es with
    | Some e => Ok e.2
    | None => Err (ValueError "Debian package has no data archive" [])
    end.
Proof.
  intros He. assert (Hm : _ar_members (ar_print es) = ((λ e, (e.1.1, e.2)) <$> es, None)).
  { unfold _ar_members, ar_print. rewrite app_assoc. rewrite bool_decide_true by (by eexists).
    apply (ar_from_print _ (blit "!<arch>" ++ [x0a]) es He); [done|]. unfold ar_fuel. rewrite length_app.
    pose proof (ar_entries_long es He). lia. }
  split; [done|]. unfold _package_data. rewrite Hm. clear He Hm. induction es as [|e es IH]; [done|]. simpl in *.
  by destruct (startswith e.1.1 (lit "data.tar")).
Qed.

Lemma ar_round_trip_witness :
  let es := [(lit "debian-binary", replicate 32 x20, blit "2.0"); (lit "data.tar.xz", replicate 32 x20, blit "data")] in
  @_package_data ascii_ucd (ar_print es) = Ok (blit "data").
Proof. apply (@ar_round_trip ascii_ucd). repeat constructor; simpl; try lia; done. Defined.

(** A header whose size field is -60. *)
Definition negative_size : bytes :=
  blit "!<arch>" ++ [x0a] ++ (Z2b <$> padded 16 (lit "x")) ++ replicate 32 x20 ++ (Z2b <$> padded 10 (lit "-60")) ++ [x60; x0a].

(** C32: A negative size makes the reader loop: the size field goes through int(), which accepts a sign, and the size -60
    leads back to the same header, so the generator yields the same empty member forever, whatever the number of rounds. *)
Theorem negative_size_never_ends `{Ucd} fuel :
  ar_from fuel negative_size 8 = (replicate fuel (lit "x", []), Some OutOfFuel).
Proof.
  induction fuel as [|fuel IH]; [done|]. cbn [ar_from]. change (len negative_size <=? 8) with false. cbn iota.
  replace (ar_member negative_size 8) with (Ok (lit "x", @nil byte, 8)) by (vm_compute; reflexivity). by rewrite IH.
Qed.
