(* ===== verification/ArchiveProofs.v ===== *)
(** * Package archive: what is archived can be indexed

    The streams that are archived are exactly the packages of the manifest; the objects collected from them have safe
    paths with all their parents; and the archive written from them is one whose members the extraction can
    index, with every parent before its children. *)
From S2P Require Import Prelude Bytes PyText Decimal Hashing Collections PosixPath FileTree ExtractTree ExtractDemo ExtractPaths ExtractLinks PackageArchive.

(** ** Results of computations *)

(** Every value that [m] returns satisfies [P], whatever the tree. *)
Definition yields {A} (P : A → Prop) (m : io A) : Prop := ∀ s a s', m s = (Ok a, s') → P a.

Lemma yields_run {A} (P : A → Prop) (m : io A) s a s' : yields P m → m s = (Ok a, s') → P a.
Proof. intros Hm. apply Hm. Qed.

Lemma yields_ret {A} (P : A → Prop) a : P a → yields P (mret a).
Proof. intros HP s b s' H. unfold mret, io_ret in H. by simplify_eq. Qed.

Lemma yields_raise {A} (P : A → Prop) e : yields P (raise e).
Proof. intros s a s' H. done. Qed.

Lemma yields_lift {A} (P : A → Prop) r : (∀ a, r = Ok a → P a) → yields P (lift r).
Proof. intros HP s a s' H. unfold lift in H. simplify_eq. by apply HP. Qed.

Lemma yields_any {A} (m : io A) : yields (λ _, True) m.
Proof. done. Qed.

Lemma yields_bind {A B} (R : A → Prop) (P : B → Prop) (m : io A) (f : A → io B) :
  yields R m → (∀ a, R a → yields P (f a)) → yields P (m ≫= f).
Proof.
  intros Hm Hf s b s'. unfold mbind, io_bind. destruct (m s) as [[a|e] s1] eqn:E; [|done].
  apply Hf. by eapply Hm.
Qed.

Lemma yields_fold {A S} (P : S → Prop) (f : S → A → io S) l st :
  (∀ st x, P st → yields P (f st x)) → P st → yields P (fold_io f st l).
Proof.
  intros Hf. revert st. induction l as [|x l IH]; intros st Hst; cbn [fold_io]; [by apply yields_ret|].
  eapply yields_bind; [by apply Hf|]. intros st' Hst'. by apply IH.
Qed.

Lemma yields_fold_app {A B} (P : A → B → Prop) (f : list B → A → io (list B)) l st :
  (∀ st x, yields (λ st', ∃ y, st' = st ++ [y] ∧ P x y) (f st x)) →
  yields (λ st', ∃ ys, st' = st ++ ys ∧ Forall2 P l ys) (fold_io f st l).
Proof.
  intros Hf. revert st. induction l as [|x l IH]; intros st; cbn [fold_io].
  { apply yields_ret. exists []. rewrite app_nil_r. split; [done|constructor]. }
  eapply yields_bind; [apply Hf|]. intros st' (y & -> & Hy). intros s a s' H%IH. destruct H as (ys & -> & Hys).
  exists (y :: ys). rewrite <- app_assoc. split; [done|by constructor].
Qed.

(** ** The collected objects *)

(** A path below the root whose parent, if it is not the root, is a key. *)
Definition placed (ks : list text) (k : text) : Prop :=
  ∃ cs c, names_ok (cs ++ [c]) ∧ k = rel (cs ++ [c]) ∧ (cs = [] ∨ rel cs ∈ ks).

Definition objects_ok (objs : objects) : Prop := dict_ok objs ∧ Forall (placed (dkeys objs)) (dkeys objs).

Lemma placed_mono ks ks' k : ks ⊆ ks' → placed ks k → placed ks' k.
Proof. intros Hs (cs & c & Hn & -> & Hp). exists cs, c. split; [done|]. split; [done|]. set_solver. Qed.

Lemma dkeys_dset_subset (objs : objects) k o : dkeys objs ⊆ dkeys (dset k o objs).
Proof. rewrite dkeys_dset. destruct (decide _); set_solver. Qed.

Lemma elem_dkeys_dset (objs : objects) k o k' : k' ∈ dkeys (dset k o objs) ↔ k' = k ∨ k' ∈ dkeys objs.
Proof. rewrite dkeys_dset. destruct (decide _); set_solver. Qed.

Lemma objects_ok_dset objs k o : objects_ok objs → placed (dkeys objs) k → objects_ok (dset k o objs).
Proof.
  intros [Hd Hp] Hk. split; [by apply dict_ok_dset|]. rewrite Forall_forall in *. intros k' Hk'.
  eapply placed_mono; [apply dkeys_dset_subset|]. apply elem_dkeys_dset in Hk' as [Hk'|Hk']; [by subst|by apply Hp].
Qed.

Lemma ensure_parent_ok objs cs c :
  objects_ok objs → names_ok (cs ++ [c]) →
  objects_ok (_ensure_parent objs (rel (cs ++ [c]))) ∧ placed (dkeys (_ensure_parent objs (rel (cs ++ [c])))) (rel (cs ++ [c])).
Proof.
  intros Ho Hn. pose proof Hn as [Hcs Hc]%names_ok_app. inv Hc. unfold _ensure_parent.
  rewrite dirname_rel; [|done|by apply name_ok_spec]. case_bool_decide as E.
  { apply join_nil_iff in E; [|done]. split; [done|]. exists cs, c. naive_solver. }
  assert (Hne : cs ≠ []) by (by intros ->). rewrite split_rel by done. set (f := λ _ _, _).
  assert (Hloop : ∀ n, (n ≤ length cs)%nat → objects_ok (foldl f objs (seq 1 n)) ∧
    (n = 0%nat ∨ rel (take n cs) ∈ dkeys (foldl f objs (seq 1 n)))).
  { induction n as [|n IH]; intros Hle; [by auto|]. destruct IH as [Hok Hin]; [lia|].
    rewrite seq_S, foldl_app. cbn [foldl]. set (o1 := foldl f objs (seq 1 n)) in *. unfold f. cbv zeta.
    change (1 + n)%nat with (S n). assert (Ht : take (S n) cs ≠ []) by (destruct cs; simpl; done).
    assert (Hnt : names_ok (take (S n) cs)) by (by apply Forall_take).
    rewrite os_join_all_rel by done. unfold dmem. case_bool_decide as Hm; [by auto|]. split.
    - apply objects_ok_dset; [done|]. destruct (lookup_lt_is_Some_2 cs n) as [x Hx]; [lia|].
      rewrite (take_S_r _ _ _ Hx) in *. exists (take n cs), x. split; [done|]. split; [done|].
      destruct Hin as [Hz|Hin]; [left; by subst n|by right].
    - right. apply elem_dkeys_dset. by left. }
  destruct (Hloop (length cs)) as [Hok Hin]; [done|]. split; [done|]. exists cs, c. split; [done|]. split; [done|].
  destruct Hin as [Hz|Hin]; [by left; apply length_zero_iff_nil|]. right. by rewrite firstn_all in Hin.
Qed.

Lemma collect_member_ok `{Ucd} work objs m : objects_ok objs → yields objects_ok (collect_member work objs m).
Proof.
  intros Ho. unfold collect_member. eapply (yields_bind safe_path).
  { apply yields_lift. intros r. apply member_path_safe. }
  intros r (cs & Hcs & ->). destruct (is_nil (rel cs)) eqn:E; [by apply yields_ret|].
  destruct cs as [|c cs _] using rev_ind; [done|]. cbv zeta. destruct (ensure_parent_ok objs cs c Ho Hcs) as [Hok Hp].
  eapply yields_bind; [apply yields_any|]. intros o _. apply yields_ret. by apply objects_ok_dset.
Qed.

Lemma collect_ok `{Ucd} tar_open packages manifest work : yields objects_ok (_collect tar_open packages manifest work).
Proof.
  unfold _collect. eapply yields_bind; [apply yields_any|]. intros expected _. eapply yields_bind; [apply yields_any|].
  intros streams _. apply yields_fold; [|by split; constructor]. intros objs stream Ho. unfold _collect_package.
  eapply yields_bind; [apply yields_any|]. intros data _. eapply yields_bind; [apply yields_any|]. intros source _.
  eapply yields_bind; [by apply yields_fold; [apply collect_member_ok|]|]. intros objs' Ho'.
  destruct (t_damage source); [apply yields_raise|by apply yields_ret].
Qed.

(** ** The archive *)

Definition kind_type (k : object_kind) : member_type :=
  match k with ODir => DIRTYPE | OFile => REGTYPE | OSymlink => SYMTYPE | OHardlink => LNKTYPE end.

(** The member [m] of an archive represents the object [k] of [objs]. *)
Definition represents (objs : objects) (k : text) (m : member) : Prop :=
  m_name m = lit "./" ++ k ∧ ∃ o, dget k objs = Some o ∧ m_type m = kind_type (o_kind o) ∧ m_mode m = o_mode o ∧
    (o_kind o = OSymlink ∨ o_kind o = OHardlink → m_linkname m = default [] (o_linkname o)).

Lemma archive_member_represents objs k o : dget k objs = Some o → yields (represents objs k) (archive_member k o).
Proof.
  intros Hk. unfold archive_member, represents. cbv zeta. destruct (o_kind o) eqn:Eo.
  2: { eapply yields_bind; [apply yields_any|]. intros data _. apply yields_ret. rewrite Hk. split; [done|].
       exists o. rewrite Eo. naive_solver. }
  all: apply yields_ret; rewrite Hk; split; [done|]; exists o; rewrite Eo; naive_solver.
Qed.

Lemma archive_represents objs : yields (Forall2 (represents objs) (stable_sort path_level_lt (dkeys objs))) (_archive objs).
Proof.
  unfold _archive. intros s ms s' H.
  eapply (yields_fold_app (represents objs)) in H as (ys & -> & Hys); [done|].
  clear. intros st k. eapply (yields_bind (λ o, dget k objs = Some o)).
  { apply yields_lift. by intros o Ho%of_option_Ok. }
  intros o Ho. eapply yields_bind; [by apply archive_member_represents|]. intros m Hm. apply yields_ret. eauto.
Qed.

(** Archive members with distinct plain paths are indexed as they come. *)
Lemma index_written ks ms members M :
  Forall2 (λ k m, (∃ cs, cs ≠ [] ∧ names_ok cs ∧ k = rel cs) ∧ m_name m = lit "./" ++ k) ks ms →
  NoDup (dkeys M ++ ks) →
  foldM index_member (members, M) ms = Ok (members ++ zip ms ks, M ++ zip ks ms).
Proof.
  intros Hks. revert members M. induction Hks as [|k m ks ms Hk Hks IH]; intros members M Hnd.
  { by rewrite !app_nil_r. }
  destruct Hk as [(cs & Hne & Hcs & ->) Hm]. apply NoDup_app in Hnd as Hnd'. destruct Hnd' as (_ & Hdis & _).
  assert (Hf : rel cs ∉ dkeys M) by (intros Hin; apply (Hdis _ Hin); by left).
  assert (Hstep : index_member (members, M) m = Ok (members ++ [(m, rel cs)], M ++ [(rel cs, m)])).
  { unfold index_member. rewrite Hm, member_path_dot_slash by done. cbn [mbind result_bind].
  replace (is_nil (rel cs)) with false by (destruct (rel cs) eqn:E; [by apply join_nil_iff in E|done]).
  unfold dmem. rewrite bool_decide_false by done. cbn [raise_if mbind result_bind mret result_ret].
  by rewrite dset_fresh. }
  cbn [foldM]. rewrite Hstep. cbn [mbind result_bind]. rewrite IH.
  - cbn [zip_with]. by rewrite <- !app_assoc.
  - unfold dkeys. rewrite fmap_app, <- app_assoc. done.
Qed.

(** ** Order *)

Lemma slashes_rel cs c : names_ok (cs ++ [c]) → slashes (rel (cs ++ [c])) = length cs.
Proof.
  assert (Hno : ∀ d, name_ok d = true → List.filter is_slash d = []).
  { intros d (_ & _ & _ & Hs)%name_ok_spec. induction d as [|x d IH]; [done|]. simpl. unfold is_slash at 1.
    destruct (Z.eqb_spec x 47) as [->|]; [set_solver|]. apply IH. set_solver. }
  induction cs as [|d cs IH]; intros Hn; inv Hn; unfold slashes, rel in *.
  - simpl. by rewrite Hno.
  - assert (Hj : join [47] ((d :: cs) ++ [c]) = d ++ 47 :: join [47] (cs ++ [c])) by (by destruct cs).
    rewrite Hj, List.filter_app, length_app, Hno by done. cbn [List.filter is_slash]. change (is_slash 47) with true. cbn iota.
    simpl. by rewrite IH.
Qed.

Lemma path_level_depth a b : path_level_lt a b = depth_lt (Z.of_nat (slashes a), a) (Z.of_nat (slashes b), b).
Proof.
  unfold path_level_lt, depth_lt. simpl. f_equal; [|f_equal].
  - destruct (Nat.ltb_spec (slashes a) (slashes b)), (Z.ltb_spec (Z.of_nat (slashes a)) (Z.of_nat (slashes b))); done || lia.
  - destruct (Nat.eqb_spec (slashes a) (slashes b)), (Z.eqb_spec (Z.of_nat (slashes a)) (Z.of_nat (slashes b))); done || lia.
Qed.

Lemma levels_sorted ks : StronglySorted (λ a b, path_level_lt b a = false) (stable_sort path_level_lt ks).
Proof.
  apply stable_sort_sorted; intros *; rewrite !path_level_depth; [apply depth_lt_trans|apply depth_lt_asym].
Qed.

(** In the order of levels a parent comes before its children. *)
Lemma parent_first objs pre k post :
  objects_ok objs → stable_sort path_level_lt (dkeys objs) = pre ++ k :: post → placed pre k.
Proof.
  intros [Hd Hp] Ho. pose proof (levels_sorted (dkeys objs)) as Hs. pose proof (stable_sort_perm path_level_lt (dkeys objs)) as Hperm.
  rewrite Ho in Hs, Hperm. assert (Hk : k ∈ dkeys objs) by (rewrite <- Hperm; set_solver).
  rewrite Forall_forall in Hp. destruct (Hp k Hk) as (cs & c & Hn & -> & Hpar). exists cs, c. split; [done|]. split; [done|].
  destruct cs as [|d cs _] using rev_ind; [by left|]. right. destruct Hpar as [Hnil|Hpar]; [by destruct cs|].
  rewrite <- Hperm in Hpar. apply names_ok_app in Hn as Hn'. destruct Hn' as [Hcs _].
  apply elem_of_app in Hpar as [Hin|Hin]; [done|]. exfalso. apply elem_of_cons in Hin as [Heq|Hin].
  - apply rel_inj in Heq; [|done|done]. apply (f_equal length) in Heq. rewrite !length_app in Heq. simpl in Heq. lia.
  - apply StronglySorted_app_1_r, StronglySorted_cons in Hs as [Hs _]. rewrite Forall_forall in Hs. apply Hs in Hin.
    unfold path_level_lt in Hin. rewrite !slashes_rel, length_app in Hin by done. simpl in Hin.
    rewrite (proj2 (Nat.ltb_lt _ _)) in Hin by lia. done.
Qed.

(** ** The archive is accepted *)

(** C18: Whatever is collected and archived passes the first step of the extraction, the index of the members: the index of
    the written members has exactly the collected paths, each once, in the order of the archive; every member carries the
    type, mode and link of its object; and the parent of every member that is not at the top comes before it. (Later
    steps of the extraction can still refuse such an archive, for example for a dangling link.) *)
Theorem archive_extractable `{Ucd} tar_open packages manifest work s s1 s2 objs written :
  _collect tar_open packages manifest work s = (Ok objs, s1) → _archive objs s1 = (Ok written, s2) →
  let order := stable_sort path_level_lt (dkeys objs) in
  _index_members {| t_members := written; t_damage := None |} = Ok (zip written order, zip order written) ∧
  order ≡ₚ dkeys objs ∧ NoDup order ∧ Forall2 (represents objs) order written ∧
  (∀ pre k post, order = pre ++ k :: post → placed pre k).
Proof.
  intros Hc Ha order. apply (yields_run objects_ok) in Hc; [|apply collect_ok].
  apply (yields_run _ _ _ _ _ (archive_represents objs)) in Ha. fold order in Ha. destruct Hc as [Hd Hp].
  assert (Hperm : order ≡ₚ dkeys objs) by apply stable_sort_perm.
  assert (Hnd : NoDup order) by (by rewrite Hperm).
  split; [|split; [done|]; split; [done|]; split; [done|]; intros; by eapply parent_first].
  unfold _index_members. cbn [t_members t_damage]. rewrite (index_written order written [] []); [done| |done].
  assert (Hp' : Forall (placed (dkeys objs)) order) by (by rewrite Hperm). clear -Ha Hp'. revert Hp'.
  induction Ha as [|k m ks ms Hk Hks IH]; intros Hp; constructor; inv Hp; [|by apply IH].
  destruct H1 as (cs & c & Hn & -> & _). split; [|apply Hk]. exists (cs ++ [c]). split; [by destruct cs|done].
Qed.

(** Two packages: the second adds a file below a directory that only it implies. *)
Definition demo_package (name : string) : bytes := ar_print [(lit "data.tar", replicate 32 x20, blit name)].
Definition demo_package_open (data : bytes) : result tar :=
  mret {| t_members :=
    if bool_decide (data = blit "first") then [demo_member "./etc/" DIRTYPE 493 "" []; demo_member "./etc/z" SYMTYPE 511 "a/b" []]
    else [demo_member "./usr/lib/x" REGTYPE 33261 "" (blit "data")]; t_damage := None |}.
Definition demo_manifest : bytes :=
  (Z2b <$> (lit "a.deb|" ++ hex (sha256 (demo_package "first")) ++ lit "|0" ++ [10] ++
            lit "b.deb|" ++ hex (sha256 (demo_package "second")) ++ lit "|0" ++ [10])).
Definition demo_packages_fs : fs := Eval vm_compute in {|
  tree := {[ [] := Dir 493; [lit "w"] := Dir 448; [lit "manifest"] := Reg 0; [lit "a.deb"] := Reg 1; [lit "b.deb"] := Reg 2 ]};
  inodes := {[ 0%N := (420, demo_manifest); 1%N := (420, demo_package "first"); 2%N := (420, demo_package "second") ]};
  cwd := [];
  umask := 18;
|}.

Definition demo_collect : io objects :=
  @_collect ascii_ucd demo_package_open (lit <$> ["/b.deb"; "/a.deb"]%string) (lit "/manifest") (lit "/w").
Definition run_or {A} (d : A) (r : result A * fs) : A * fs := (match r.1 with Ok a => a | Err _ => d end, r.2).
Definition demo_collected : objects * fs := run_or [] (demo_collect demo_packages_fs).
Definition demo_archived : list member := (run_or [] (_archive demo_collected.1 demo_collected.2)).1.

Lemma archive_extractable_witness :
  _index_members {| t_members := demo_archived; t_damage := None |} =
    Ok (zip demo_archived (stable_sort path_level_lt (dkeys demo_collected.1)), zip (stable_sort path_level_lt (dkeys demo_collected.1)) demo_archived) ∧
  length demo_archived = 5%nat.
Proof.
  split; [|vm_compute; reflexivity].
  apply (@archive_extractable ascii_ucd demo_package_open (lit <$> ["/b.deb"; "/a.deb"]%string) (lit "/manifest") (lit "/w")
    demo_packages_fs demo_collected.2 demo_collected.2 demo_collected.1 demo_archived); vm_compute; reflexivity.
Defined.

(** ** Authenticated streams *)

(** [x] is the package [p] with the contents that the manifest names. *)
Definition authentic (expected : dict text text) (s : fs) (p : text) (x : text * bytes) : Prop :=
  x.1 = p ∧ file_bytes s p = Ok x.2 ∧ dget (basename p) expected = Some (hex (sha256 x.2)).

Lemma authenticated_stream_Ok expected streams seen p s st s' :
  authenticated_stream expected (streams, seen) p s = (Ok st, s') ↔
  s' = s ∧ (basename p ∉ seen) ∧ ∃ x, authentic expected s p x ∧ st = (streams ++ [x], basename p :: seen).
Proof.
  unfold authenticated_stream, authentic. destruct (dget (basename p) expected) as [d|]; [|naive_solver].
  case_bool_decide as Hs; [naive_solver|]. unfold _open_authenticated, read_file, mbind, io_bind, io_when, mret, io_ret, raise.
  destruct (file_bytes s p) as [data|e]; simpl; [|naive_solver].
  case_bool_decide as Hd; simpl; split.
  - intros ?. simplify_eq. split; [done|]. split; [done|]. by exists (p, data).
  - intros (-> & _ & [x1 x2] & (? & ? & ?) & ->). by cbn [fst snd] in *; simplify_eq.
  - done.
  - intros (-> & _ & [x1 x2] & (? & ? & ?) & ->). by cbn [fst snd] in *; simplify_eq.
Qed.

Lemma fold_streams_Ok expected l streams seen s st s' :
  fold_io (authenticated_stream expected) (streams, seen) l s = (Ok st, s') ↔
  s' = s ∧ NoDup (basename <$> l) ∧ (∀ n, n ∈ basename <$> l → n ∉ seen) ∧
  ∃ xs, Forall2 (authentic expected s) l xs ∧ st = (streams ++ xs, reverse (basename <$> l) ++ seen).
Proof.
  revert streams seen. induction l as [|p l IH]; intros streams seen; cbn [fold_io].
  { unfold mret, io_ret. split.
    - intros ?. simplify_eq. split; [done|]. split; [constructor|]. split; [set_solver|]. exists []. by rewrite app_nil_r.
    - intros (-> & _ & _ & xs & Hx & ->). inv Hx. by rewrite app_nil_r. }
  rewrite fmap_cons, NoDup_cons, reverse_cons. unfold mbind, io_bind.
  destruct (authenticated_stream expected (streams, seen) p s) as [[st1|e] s1] eqn:E.
  - apply authenticated_stream_Ok in E as (-> & Hp & x & Hx & ->). rewrite IH. split.
    + intros (-> & Hnd & Hd & xs & Hxs & ->). split; [done|]. split; [set_solver|]. split; [set_solver|].
      exists (x :: xs). split; [by constructor|]. by rewrite <- !app_assoc.
    + intros (-> & [Hn Hnd] & Hd & xs & Hxs & ->). inv Hxs. split; [done|]. split; [done|]. split; [set_solver|].
      exists l'. split; [done|]. rewrite <- !app_assoc. destruct Hx as (? & Hf & _), H1 as (? & Hf' & _).
      assert (x = y) as -> by (destruct x, y; simplify_eq/=; congruence). done.
  - split; [done|]. intros (-> & [Hn Hnd] & Hd & xs & Hxs & ->). inv Hxs.
    enough (authenticated_stream expected (streams, seen) p s = (Ok (streams ++ [y], basename p :: seen), s)) by congruence.
    apply authenticated_stream_Ok. split; [done|]. split; [apply Hd; by left|]. by exists y.
Qed.

Lemma read_manifest_dict manifest : yields dict_ok (_read_manifest manifest).
Proof.
  unfold _read_manifest. eapply yields_bind; [apply yields_any|]. intros data _. apply yields_lift. intros d Hd.
  apply bind_Ok_inv in Hd as (t & _ & Hd). refine (foldM_inv dict_ok manifest_line _ [] d _ _ Hd); [|apply NoDup_nil_2].
  intros st line st' _ Hst Hl. unfold manifest_line in Hl. destruct (split_max _ _ _) as [|a [|b [|c [|]]]]; try done.
  res_inv. by apply dict_ok_dset.
Qed.

(** Authentication succeeds exactly when the file names of the packages are the keys of the manifest, each once,
    and every package has the digest that the manifest gives for its name; what is then parsed are the bytes that were
    hashed, in the order of the packages. *)
Theorem authenticated_streams_exact manifest packages expected s s' streams :
  _read_manifest manifest s = (Ok expected, s) →
  _authenticated_streams packages expected s = (Ok streams, s') ↔
  s' = s ∧ (basename <$> packages) ≡ₚ dkeys expected ∧ Forall2 (authentic expected s) packages streams.
Proof.
  intros Hm%(yields_run dict_ok); [|apply read_manifest_dict]. unfold _authenticated_streams.
  assert (Hlen : length expected = length (dkeys expected)) by (unfold dkeys; by rewrite length_fmap).
  destruct (Nat.eqb_spec (length expected) (length packages)) as [Hl|Hl]; cbn [negb io_when].
  2: { split; [done|]. intros (_ & Hp%Permutation_length & _). rewrite length_fmap in Hp. lia. }
  change (mret () ≫= _) with ((λ k : unit → io (list (text * bytes)), k ()) (λ _, '(streams, seen) ← fold_io (authenticated_stream expected) ([], []) packages;
    io_when (negb (forallb (λ k, bool_decide (k ∈ seen)) (dkeys expected))) (raise (ValueError "package manifest does not match package inputs" []));;
    mret streams)). cbv beta. unfold mbind at 1, io_bind at 1.
  destruct (fold_io _ _ _ s) as [[st|e] s1] eqn:E.
  - apply fold_streams_Ok in E as (-> & Hnd & _ & xs & Hxs & ->). rewrite app_nil_r. cbn [app]. cbn iota.
    destruct (forallb _ _) eqn:Ef; unfold mbind, io_bind, io_when, raise, mret, io_ret; cbn [negb].
    + rewrite forallb_forall in Ef. split.
      * intros ?. simplify_eq. split; [done|]. split; [|done]. symmetry. apply submseteq_length_Permutation; [|by rewrite length_fmap, <- Hl, Hlen].
        apply NoDup_submseteq; [done|]. intros k Hk. rewrite <- elem_of_reverse. eapply bool_decide_eq_true_1, Ef. by apply list_elem_of_In.
      * intros (-> & _ & Hys). f_equal. f_equal. clear -Hxs Hys. revert streams Hys. induction Hxs as [|p x l xs Hx Hxs IH]; intros ys Hys; inv Hys; [done|].
        f_equal; [|by apply IH]. destruct Hx as (? & Hf & _), H1 as (? & Hf' & _). destruct x, y; simplify_eq/=; congruence.
    + split; [done|]. intros (_ & Hp & _). enough (false = true) by done. rewrite <- Ef. apply forallb_forall. intros k Hk%list_elem_of_In.
      apply bool_decide_eq_true. rewrite elem_of_reverse. by rewrite Hp.
  - split; [done|]. intros (_ & Hp & Hx). enough (fold_io (authenticated_stream expected) ([], []) packages s = (Ok (streams, reverse (basename <$> packages) ++ []), s)) by congruence.
    apply fold_streams_Ok. split; [done|]. split; [by rewrite Hp|]. split; [set_solver|]. by exists streams.
Qed.

Definition demo_expected : dict text text := (run_or [] (_read_manifest (lit "/manifest") demo_packages_fs)).1.
Definition demo_streams : list (text * bytes) :=
  [(lit "/b.deb", demo_package "second"); (lit "/a.deb", demo_package "first")].

Lemma authenticated_streams_exact_witness :
  _read_manifest (lit "/manifest") demo_packages_fs = (Ok demo_expected, demo_packages_fs) ∧
  (basename <$> demo_streams.*1) ≡ₚ dkeys demo_expected.
Proof.
  assert (Hm : _read_manifest (lit "/manifest") demo_packages_fs = (Ok demo_expected, demo_packages_fs)) by (vm_compute; reflexivity).
  split; [exact Hm|].
  apply (proj1 (authenticated_streams_exact (lit "/manifest") demo_streams.*1 demo_expected demo_packages_fs demo_packages_fs
    demo_streams Hm)). vm_compute. reflexivity.
Defined.
