(* ===== verification/RepoTree.v ===== *)
(** * Trees of regular files

    The contents of a directory that tools fill with new files: [repo root F s] says that below [root] there are only
    directories and regular files, the files are those of the map [F], and no file shares its inode. Making directories,
    writing and copying files below the root are specified on [F]; [grows] says that nothing that was there has changed. *)
From S2P Require Import Prelude Bytes PyText Hashing Collections PosixPath FileTree.

(** ** Inverting computations *)

Lemma io_bind_inv {A B} (m : io A) (f : A → io B) s b s' :
  (m ≫= f) s = (Ok b, s') → ∃ a s1, m s = (Ok a, s1) ∧ f a s1 = (Ok b, s').
Proof. rewrite io_bind_eq. destruct (m s) as [[a|e] s1]; [eauto|done]. Qed.

Lemma io_ret_inv {A} (a b : A) s s' : (mret a : io A) s = (Ok b, s') → a = b ∧ s = s'.
Proof. rewrite io_ret_eq. naive_solver. Qed.

Lemma io_lift_inv {A} (r : result A) a s s' : lift r s = (Ok a, s') → r = Ok a ∧ s = s'.
Proof. unfold lift. naive_solver. Qed.

Lemma io_raise_when_inv b e u s s' : io_when b (raise e) s = (Ok u, s') → b = false ∧ s = s'.
Proof. destruct b; [done|]. unfold io_when. intros [_ ->]%io_ret_inv. done. Qed.

Lemma read_file_inv p s d s' : read_file p s = (Ok d, s') → file_bytes s p = Ok d ∧ s = s'.
Proof. unfold read_file. naive_solver. Qed.

(** Takes the computation in [H] apart, one step. *)
Ltac io_step H :=
  match type of H with
  | (_ ≫= _) _ = (Ok _, _) => apply io_bind_inv in H as (? & ? & ? & H)
  | mret _ _ = (Ok _, _) => apply io_ret_inv in H as [? ?]
  | lift _ _ = (Ok _, _) => apply io_lift_inv in H as [? ?]
  | io_when _ (raise _) _ = (Ok _, _) => apply io_raise_when_inv in H as [? ?]
  | read_file _ _ = (Ok _, _) => apply read_file_inv in H as [? ?]
  end.

(** A loop that returns passes every element. *)
Lemma fold_io_inv {A S} (I : list A → S → fs → Prop) (f : S → A → io S) l st s st' s' :
  fold_io f st l s = (Ok st', s') → I [] st s →
  (∀ done x rest st1 s1 st2 s2, l = done ++ x :: rest → I done st1 s1 → f st1 x s1 = (Ok st2, s2) → I (done ++ [x]) st2 s2) →
  I l st' s'.
Proof.
  intros Hl H0 Hf. change l with ([] ++ l). revert H0.
  assert (Hsplit : l = [] ++ l) by done. revert Hsplit. generalize (@nil A) as pre. revert Hl. generalize l at 1 3 4 as k.
  intros k. revert st s. induction k as [|x k IH]; intros st s Hl pre Hpre HI; cbn [fold_io] in Hl.
  { io_step Hl. subst st' s'. by rewrite app_nil_r. }
  apply io_bind_inv in Hl as (st1 & s1 & Hx & Hl). rewrite (cons_middle x pre k), app_assoc in *.
  eapply IH; [exact Hl|done|]. eapply Hf; [|exact HI|exact Hx]. by rewrite Hpre, <- app_assoc.
Qed.

Lemma for_each_inv {A} (I : list A → fs → Prop) (f : A → io unit) l s s' u :
  for_each l f s = (Ok u, s') → I [] s →
  (∀ done x rest s1 s2, l = done ++ x :: rest → I done s1 → f x s1 = (Ok tt, s2) → I (done ++ [x]) s2) → I l s'.
Proof.
  intros Hl H0 Hf. apply (fold_io_inv (λ done (_ : unit) s, I done s) (λ _ x, f x) l tt s tt s'); [|done|].
  - clear H0 Hf. destruct u. revert s Hl. induction l as [|x l IH]; intros s Hl; [done|]. cbn [for_each fold_io] in *.
    rewrite io_bind_eq in *. destruct (f x s) as [[[]|e] s1]; [by apply IH|done].
  - intros done x rest [] s1 [] s2. apply Hf.
Qed.

(** A loop of checks that do not change the tree. *)
Lemma for_each_checks {A} (f : A → io unit) (P : A → fs → Prop) l s s' u :
  (∀ x s1 s2, x ∈ l → f x s1 = (Ok tt, s2) → s2 = s1 ∧ P x s1) →
  for_each l f s = (Ok u, s') → s' = s ∧ Forall (λ x, P x s) l.
Proof.
  intros Hf Hl. apply (for_each_inv (λ done s1, s1 = s ∧ Forall (λ x, P x s) done)) in Hl; [done|by split; constructor|].
  intros done x rest s1 s2 -> [-> Hd] H. apply Hf in H as [-> HP]; [|set_solver]. split; [done|]. apply Forall_app. by repeat constructor.
Qed.

(** ** Growth *)

Record grows (s s' : fs) : Prop := {
  g_tree : tree s ⊆ tree s';
  g_data : ∀ i m d, inodes s !! i = Some (m, d) → ∃ m', inodes s' !! i = Some (m', d);
  g_cwd : cwd s' = cwd s;
}.

#[export] Instance grows_preorder : PreOrder grows.
Proof.
  split; [intros s; split; eauto|]. intros s1 s2 s3 [T1 D1 C1] [T2 D2 C2]. split; [by etrans| |congruence].
  intros i m d Hi. destruct (D1 _ _ _ Hi) as [m' Hm]. by apply (D2 _ m').
Qed.

Lemma grows_put_new s p n : tree s !! p = None → grows s (put p n s).
Proof. intros Hp. split; simpl; [by apply insert_subseteq|eauto|done]. Qed.

Lemma grows_new_file s p x : tree s !! p = None → grows s (new_file p x s).
Proof.
  intros Hp. split; simpl; [by apply insert_subseteq| |done]. intros i m d Hi. exists m.
  rewrite lookup_insert_ne; [done|]. intros <-. by rewrite fresh_inode_spec in Hi.
Qed.

Lemma grows_mode s i m : grows s (set_inodes (alter (λ x, (m, x.2)) i) s).
Proof.
  split; simpl; [done| |done]. intros j m' d Hj. destruct (decide (i = j)) as [->|Hne].
  - rewrite lookup_alter_eq, Hj. simpl. eauto.
  - rewrite lookup_alter_ne by done. eauto.
Qed.

(** What was found is still found. *)
Lemma walk_grows s s' f b cur comps p n :
  tree s ⊆ tree s' → walk s f b cur comps = Ok (At p n) → walk s' f b cur comps = Ok (At p n).
Proof.
  intros Hs. assert (Hl : ∀ q x, tree s !! q = Some x → tree s' !! q = Some x) by (by apply map_subseteq_spec).
  revert cur comps. induction b as [|b IHb]; intros cur comps; revert cur; (induction comps as [|c comps IH]; intros cur H;
    [rewrite walk_nil in *; destruct (tree s !! cur) eqn:E; [|done]; by rewrite (Hl _ _ E)|]);
    rewrite walk_cons in *; (destruct (_ || _); [by apply IH|]); (destruct (bool_decide _); [by apply IH|]);
    (destruct (tree s !! (cur ++ [c])) as [x|] eqn:E; [rewrite (Hl _ _ E)|by destruct (is_nil comps)]);
    destruct x; auto; destruct (_ && _); auto.
Qed.

Lemma walk_At s f b cur comps p n : walk s f b cur comps = Ok (At p n) → tree s !! p = Some n.
Proof.
  revert cur comps. induction b as [|b IHb]; intros cur comps; revert cur; (induction comps as [|c comps IH]; intros cur H;
    [rewrite walk_nil in *; destruct (tree s !! cur) eqn:E; [|done]; simpl in H; by simplify_eq|]);
    rewrite walk_cons in *; (destruct (_ || _); [by eapply IH|]); (destruct (bool_decide _); [by eapply IH|]);
    (destruct (tree s !! (cur ++ [c])) as [x|] eqn:E; [|by destruct (is_nil comps)]);
    destruct x; eauto; destruct (is_nil comps); simpl in H; simplify_eq; eauto; destruct f; simpl in H; simplify_eq; eauto.
Qed.

Lemma locate_grows s s' f p q n : grows s s' → locate f s p = Ok (At q n) → locate f s' p = Ok (At q n).
Proof.
  intros [Ht _ Hc]. unfold locate, start. rewrite Hc. case_bool_decide; [done|]. by apply walk_grows.
Qed.

Lemma locate_At s f p q n : locate f s p = Ok (At q n) → tree s !! q = Some n.
Proof. unfold locate. case_bool_decide; [done|]. apply walk_At. Qed.

Lemma file_bytes_At s p d : file_bytes s p = Ok d ↔ ∃ q i m, locate true s p = Ok (At q (Reg i)) ∧ inodes s !! i = Some (m, d).
Proof.
  unfold file_bytes. split.
  - intros H. apply bind_Ok_inv in H as (f & Hf & H). destruct f as [q [|i| |]|]; try done.
    apply of_option_Ok in H. destruct (inodes s !! i) as [[m d']|] eqn:E; [|done]. simpl in H. simplify_eq. eauto 6.
  - intros (q & i & m & -> & Hi). simpl. by rewrite Hi.
Qed.

Lemma file_bytes_grows s s' p d : grows s s' → file_bytes s p = Ok d → file_bytes s' p = Ok d.
Proof.
  intros Hg. rewrite !file_bytes_At. intros (q & i & m & Hq & Hi). destruct (g_data _ _ Hg _ _ _ Hi) as [m' Hm].
  exists q, i, m'. split; [|done]. by eapply locate_grows.
Qed.

(** ** Paths of the path library *)

(** Components without the empty ones and the dots between and after the others. *)
Inductive trim : list text → list text → Prop :=
  | trim_nil : trim [] []
  | trim_keep c l l' : trim l l' → trim (c :: l) (c :: l')
  | trim_drop c l l' : pure_component c = false → trim l l' → trim (c :: l) l'.

Lemma trim_app l k k' : trim k k' → trim (l ++ k) (l ++ k').
Proof. intros Hk. induction l; simpl; [done|by constructor]. Qed.

Lemma trim_filter l : trim l (List.filter pure_component l).
Proof. induction l as [|c l IH]; simpl; [constructor|]. destruct (pure_component c) eqn:E; by constructor. Qed.

Lemma walk_trim s b cur l l' p i :
  trim l l' → walk s true b cur l = Ok (At p (Reg i)) → walk s true b cur l' = Ok (At p (Reg i)).
Proof.
  revert cur l l'. induction b as [|b IHb]; intros cur l l' Ht; revert cur; induction Ht as [|c l l' Ht IH|c l l' Hc Ht IH];
    intros cur H; try done.
  all: rewrite walk_cons in H; try (unfold pure_component in Hc; apply negb_false_iff in Hc; rewrite Hc in H; by apply IH).
  all: rewrite walk_cons; (destruct (_ || _); [by apply IH|]); (destruct (bool_decide _); [by apply IH|]).
  all: (destruct (tree s !! (cur ++ [c])) as [x|] eqn:E; [|by destruct (is_nil l)]).
  all: assert (Hn : is_nil l = true → is_nil l' = true) by (destruct l; [by inv Ht|done]).
  all: destruct x; auto; rewrite ?andb_false_r in *; try done; try (destruct (is_nil l); [rewrite Hn by done; done|done]).
  eapply IHb; [|exact H]. by apply trim_app.
Qed.

Lemma split_slashes n t : split_on 47 (replicate n 47 ++ t) = replicate n [] ++ split_on 47 t.
Proof. induction n as [|n IH]; simpl; [done|]. by rewrite IH. Qed.

Lemma walk_empties s b cur n l : walk s true b cur (replicate n [] ++ l) = walk s true b cur l.
Proof. induction n as [|n IH]; simpl; [done|]. by rewrite walk_cons. Qed.

(** A file is found under the normalised form of its path. *)
Lemma file_bytes_pure s p d : file_bytes s p = Ok d → file_bytes s (pp_str (PurePosixPath p)) = Ok d.
Proof.
  rewrite !file_bytes_At. intros (q & i & m & Hq & Hi). exists q, i, m. split; [|done]. revert Hq. unfold locate.
  case_bool_decide as Hp; [done|]. intros Hw. unfold pp_str, PurePosixPath. cbn [pp_root pp_tail].
  set (cs := List.filter pure_component (split_on 47 p)).
  assert (Hcs : parts_ok cs).
  { unfold cs. pose proof (split_on_no_sep 47 p) as Hs. unfold parts_ok. rewrite Forall_forall in *. intros c Hc.
    apply list_elem_of_In in Hc. apply filter_In in Hc as [Hc Hpc]. split; [by intros ->|]. apply Hs. by apply list_elem_of_In. }
  apply (walk_trim _ _ _ _ cs) in Hw; [|apply trim_filter]. clearbody cs. unfold start in *.
  assert (Hslash : startswith p [47] = negb (initial_slashes p =? 0)%nat).
  { unfold initial_slashes. destruct (startswith p [47]) eqn:E; [|done]. by destruct (_ && _). }
  rewrite Hslash in Hw. clear Hslash Hp. destruct (initial_slashes p) as [|n]; cbn [replicate app Nat.eqb negb] in *.
  - fold (rel cs). destruct (decide (cs = [])) as [->|Hne].
    + rewrite (bool_decide_true (rel [] = [])) by done. cbv zeta. change (split_on 47 dot) with [dot]. rewrite bool_decide_false by done. rewrite walk_cons. exact Hw.
    + rewrite (bool_decide_false (rel cs = [])) by (by intros ?%join_nil_parts). cbv zeta.
      rewrite bool_decide_false by (by intros ?%join_nil_parts). rewrite startswith_parts by done. by rewrite split_parts.
  - rewrite bool_decide_false by done. cbv zeta. rewrite bool_decide_false by done.
    change (startswith (47 :: replicate n 47 ++ join [47] cs) [47]) with (startswith ([47] ++ replicate n 47 ++ join [47] cs) [47]).
    rewrite startswith_app. change (47 :: replicate n 47 ++ join [47] cs) with (replicate (S n) 47 ++ rel cs).
    rewrite split_slashes, walk_empties. destruct (decide (cs = [])) as [->|Hne].
    + change (split_on 47 (rel [])) with [@nil Z]. rewrite walk_cons. exact Hw.
    + by rewrite split_parts.
Qed.

(** ** Repositories *)

Section repo.
Context (root : list text).

Record repo (F : gmap (list text) bytes) (s : fs) : Prop := {
  repo_root : dirs s root;
  repo_wf : wf s;
  repo_inodes : ∀ q i, tree s !! q = Some (Reg i) → is_Some (inodes s !! i);
  repo_kinds : ∀ cs n, tree s !! (root ++ cs) = Some n → (∃ m, n = Dir m) ∨ (∃ i, n = Reg i);
  repo_file : ∀ cs i, tree s !! (root ++ cs) = Some (Reg i) → ∃ m d, F !! cs = Some d ∧ inodes s !! i = Some (m, d);
  repo_all : ∀ cs d, F !! cs = Some d → ∃ i, tree s !! (root ++ cs) = Some (Reg i);
  repo_solo : ∀ cs i q, tree s !! (root ++ cs) = Some (Reg i) → tree s !! q = Some (Reg i) → q = root ++ cs;
}.

Context (Hroot : names_ok root).
Implicit Types (F : gmap (list text) bytes) (s : fs) (cs : list text).

Lemma repo_plain F s : repo F s → plain root s.
Proof. intros Hr cs t Ht. destruct (repo_kinds _ _ Hr _ _ Ht) as [[? ?]|[? ?]]; done. Qed.

Lemma repo_free F s cs : repo F s → tree s !! (root ++ cs) = None → F !! cs = None.
Proof. intros Hr Hn. destruct (F !! cs) eqn:E; [|done]. apply (repo_all _ _ Hr) in E as [i Hi]. congruence. Qed.

Lemma repo_put_dir F s ds c m :
  repo F s → dirs s (root ++ ds) → tree s !! (root ++ ds ++ [c]) = None → repo F (put (root ++ ds ++ [c]) (Dir m) s).
Proof.
  intros Hr Hd Hn. rewrite app_assoc in *. pose proof Hr as [R W I K Fi A S]. split.
  - by apply dirs_put_dir.
  - by apply wf_put_new.
  - intros q i [[_ ?]|[_ Hq]]%lookup_put; [done|]. by eapply I.
  - intros cs n [[_ <-]|[_ Hq]]%lookup_put; [eauto|]. by eapply K.
  - intros cs i [[_ ?]|[_ Hq]]%lookup_put; [done|]. by eapply Fi.
  - intros cs d Hcs. destruct (A _ _ Hcs) as [i Hi]. exists i. apply lookup_put. right. split; [congruence|done].
  - intros cs i q [[_ ?]|[_ Hq]]%lookup_put [[_ ?]|[_ Hq']]%lookup_put; try done. by eapply S.
Qed.

Lemma repo_new_file F s ds c m d :
  repo F s → dirs s (root ++ ds) → tree s !! (root ++ ds ++ [c]) = None →
  repo (<[ds ++ [c] := d]> F) (new_file (root ++ ds ++ [c]) (m, d) s).
Proof.
  intros Hr Hd Hn. pose proof Hr as [R W I K Fi A S]. pose proof (fresh_inode_spec s) as Hf.
  assert (Hold : ∀ q i, tree s !! q = Some (Reg i) → i ≠ fresh_inode s).
  { intros q i Hq ->. apply I in Hq. rewrite Hf in Hq. by destruct Hq. }
  split.
  - by apply dirs_new_file.
  - rewrite app_assoc in *. eapply wf_tree_eq; [|by apply (wf_put_new s (root ++ ds) c (Reg (fresh_inode s)))]. done.
  - intros q i [[_ ?]|[_ Hq]]%lookup_new_file; simplify_eq.
    + rewrite new_file_inode. eauto.
    + simpl. rewrite lookup_insert_ne by (intros E; by eapply Hold). by eapply I.
  - intros cs n [[_ <-]|[_ Hq]]%lookup_new_file; [eauto|]. by eapply K.
  - intros cs i [[Heq ?]|[Hne Hq]]%lookup_new_file.
    + simplify_eq. exists m, d. by rewrite lookup_insert_eq, new_file_inode.
    + destruct (Fi _ _ Hq) as (m' & d' & Hc & Hi). exists m', d'. rewrite lookup_insert_ne by congruence. split; [done|].
      simpl. rewrite lookup_insert_ne; [done|]. intros E. by eapply Hold.
  - intros cs d' [[<- <-]|[Hne Hc]]%lookup_insert_Some.
    + exists (fresh_inode s). apply new_file_node.
    + destruct (A _ _ Hc) as [i Hi]. exists i. apply lookup_new_file. right. split; [|done]. intros E. by apply app_inv_head in E.
  - intros cs i q [[<- Hi]|[Hne Hq]]%lookup_new_file [[<- Hi']|[Hne' Hq']]%lookup_new_file; simplify_eq; [done|..].
    + by destruct (Hold _ _ Hq').
    + by destruct (Hold _ _ Hq).
    + by eapply S.
Qed.

Lemma repo_write F s cs i d :
  repo F s → tree s !! (root ++ cs) = Some (Reg i) →
  repo (<[cs := d]> F) (set_inodes (alter (λ x, (x.1, d)) i) s).
Proof.
  intros Hr Hi. pose proof Hr as [R W I K Fi A S]. split; simpl; try done.
  - intros q j Hq. destruct (decide (i = j)) as [<-|Hne].
    + rewrite lookup_alter_eq, fmap_is_Some. by eapply I.
    + rewrite lookup_alter_ne by done. by eapply I.
  - intros ds j Hj. destruct (decide (i = j)) as [<-|Hne].
    + assert (ds = cs) as -> by (eapply app_inv_head, S; done). destruct (Fi _ _ Hi) as (m & d' & _ & Hm).
      exists m, d. by rewrite lookup_insert_eq, lookup_alter_eq, Hm.
    + rewrite lookup_alter_ne by done. rewrite lookup_insert_ne by congruence. by apply Fi.
  - intros ds d' [[<- _]|[_ Hc]]%lookup_insert_Some; [eauto|by eapply A].
Qed.

Lemma repo_mode F s i m : repo F s → repo F (set_inodes (alter (λ x, (m, x.2)) i) s).
Proof.
  intros Hr. pose proof Hr as [R W I K Fi A S]. split; simpl; try done.
  - intros q j Hq. destruct (decide (i = j)) as [<-|Hne].
    + rewrite lookup_alter_eq, fmap_is_Some. by eapply I.
    + rewrite lookup_alter_ne by done. by eapply I.
  - intros ds j Hj. destruct (Fi _ _ Hj) as (m' & d & Hc & Hm). destruct (decide (i = j)) as [<-|Hne].
    + exists m, d. by rewrite lookup_alter_eq, Hm.
    + exists m', d. by rewrite lookup_alter_ne.
Qed.

Lemma repo_dir_mode F s p m m' : repo F s → tree s !! p = Some (Dir m') → repo F (put p (Dir m) s).
Proof.
  intros Hr Hp. pose proof Hr as [R W I K Fi A S]. split.
  - by apply dirs_put_dir.
  - by eapply wf_put_dir.
  - intros q i [[_ ?]|[_ Hq]]%lookup_put; [done|]. by eapply I.
  - intros cs n [[_ <-]|[_ Hq]]%lookup_put; [eauto|]. by eapply K.
  - intros cs i [[_ ?]|[_ Hq]]%lookup_put; [done|]. by eapply Fi.
  - intros cs d Hcs. destruct (A _ _ Hcs) as [i Hi]. exists i. apply lookup_put. right. split; [congruence|done].
  - intros cs i q [[_ ?]|[_ Hq]]%lookup_put [[_ ?]|[_ Hq']]%lookup_put; try done. by eapply S.
Qed.

Lemma repo_delete F s cs i :
  cs ≠ [] → repo F s → tree s !! (root ++ cs) = Some (Reg i) → repo (delete cs F) (set_tree (delete (root ++ cs)) s).
Proof.
  intros Hne Hr Hi. pose proof Hr as [R W I K Fi A S]. split; simpl.
  - intros q Hq. simpl. rewrite lookup_delete_ne; [by apply R|]. intros <-. by eapply not_above.
  - by eapply wf_delete.
  - intros q j [_ Hq]%lookup_delete_Some. by eapply I.
  - intros ds n [_ Hq]%lookup_delete_Some. by eapply K.
  - intros ds j [Hd Hq]%lookup_delete_Some. rewrite lookup_delete_ne by congruence. by apply Fi.
  - intros ds d [Hd Hc]%lookup_delete_Some. destruct (A _ _ Hc) as [j Hj]. exists j. rewrite lookup_delete_ne; [done|].
    intros E. by apply app_inv_head in E.
  - intros ds j q [_ Hq]%lookup_delete_Some [_ Hq']%lookup_delete_Some. by eapply S.
Qed.

(** [chmod] changes neither names nor contents, wherever it leads. *)
Lemma chmod_repo F p m : keeps (repo F) (os_chmod p m).
Proof.
  apply triple_update; [|done]. intros s s' Hr H. apply bind_Ok_inv in H as (f & Hf & H).
  destruct f as [q [|i| |]|]; simplify_eq; try done.
  - apply locate_At in Hf. by eapply repo_dir_mode.
  - by apply repo_mode.
Qed.

(** ** Operations below the root *)

Definition below (cs : list text) : pure_path := {| pp_root := [47]; pp_tail := root ++ cs |}.

Lemma pp_str_below cs : pp_str (below cs) = abs (root ++ cs).
Proof. done. Qed.

Lemma pp_parent_below ds c : pp_parent (below (ds ++ [c])) = below ds.
Proof. unfold pp_parent, below. simpl. rewrite app_assoc. fold (parent ((root ++ ds) ++ [c])). by rewrite parent_snoc. Qed.

Lemma pp_div_below cs ds : pp_div (below cs) {| pp_root := []; pp_tail := ds |} = below (cs ++ ds).
Proof. unfold pp_div, below. simpl. by rewrite app_assoc. Qed.

Lemma repo_lookup F s cs d : names_ok cs → cs ≠ [] → repo F s → F !! cs = Some d → file_bytes s (abs (root ++ cs)) = Ok d.
Proof.
  intros Hcs Hne Hr Hd. destruct (repo_all _ _ Hr _ _ Hd) as [i Hi]. destruct (repo_file _ _ Hr _ _ Hi) as (m & d' & Hd' & Hm).
  simplify_eq. destruct (exists_last Hne) as (ds & c & ->). rewrite app_assoc in *. apply file_bytes_At. exists ((root ++ ds) ++ [c]), i, m.
  split; [|done]. rewrite locate_entry; [by rewrite Hi| | |].
  - rewrite <- app_assoc. by apply names_ok_app.
  - eapply wf_dirs; [apply (repo_wf _ _ Hr)|exact Hi].
  - intros t _ Ht. congruence.
Qed.

(** What a path below the root resolves to. *)
Lemma repo_locate F s f cs :
  names_ok cs → cs ≠ [] → repo F s → found_at s (root ++ cs) (locate f s (abs (root ++ cs))).
Proof.
  intros Hcs Hne Hr. apply locate_direct; [by apply names_ok_app|done|apply (repo_root _ _ Hr)|]. by eapply plain_direct, repo_plain.
Qed.

Lemma repo_lookup_inv F s cs d : names_ok cs → cs ≠ [] → repo F s → file_bytes s (abs (root ++ cs)) = Ok d → F !! cs = Some d.
Proof.
  intros Hcs Hne Hr (q & i & m & Hq & Hi)%file_bytes_At. pose proof (repo_locate F s true cs Hcs Hne Hr) as Hf. rewrite Hq in Hf.
  destruct Hf as (-> & Hn & _). destruct (repo_file _ _ Hr _ _ Hn) as (m' & d' & Hd & Hm). congruence.
Qed.

Lemma locate_root F s f : root ≠ [] → repo F s → ∃ m, locate f s (abs root) = Ok (At root (Dir m)).
Proof.
  intros Hne Hr. destruct (exists_last Hne) as (d & c & Heq). pose proof (repo_root _ _ Hr) as Hd.
  destruct (dirs_last s root Hd) as [m Hm]. exists m. rewrite Heq in *. rewrite locate_entry; [by rewrite Hm|done| |congruence].
  eapply dirs_prefix; [exact Hd|]. by exists [c].
Qed.

Lemma path_mkdir_below F s cs r s' :
  root ≠ [] → names_ok cs → repo F s → path_mkdir (below cs) s = (r, s') →
  repo F s' ∧ grows s s' ∧ (r = Ok tt → dirs s' (root ++ cs)).
Proof.
  intros Hrne Hcs Hr. unfold path_mkdir. rewrite pp_str_below. destruct (decide (cs = [])) as [->|Hne].
  { rewrite app_nil_r. destruct (locate_root F s false Hrne Hr) as [m ->]. destruct (locate_root F s true Hrne Hr) as [m' Hm'].
    unfold os_isdir, gets. rewrite io_bind_eq, Hm'. unfold mret, io_ret, raise. intros H. simplify_eq/=. split; [done|]. split; [reflexivity|]. intros _.
    apply (repo_root _ _ Hr). }
  pose proof (repo_locate F s false cs Hcs Hne Hr) as Hf. pose proof (repo_locate F s true cs Hcs Hne Hr) as Ht.
  destruct (exists_last Hne) as (ds & c & ->). rewrite app_assoc in *.
  destruct (locate false s _) as [[q n|d x]|e] eqn:E; cbn [found_at] in Hf.
  - destruct Hf as (-> & Hn & Hp). unfold os_isdir, gets. rewrite io_bind_eq. unfold mret, io_ret, raise. destruct (locate true s _) as [[q' n'|]|] eqn:E'; cbn [found_at] in Ht.
    + destruct Ht as (-> & Hn' & _). destruct n' as [m'| | |]; intros H; simplify_eq/=.
      { split; [done|]. split; [reflexivity|]. intros _. eapply dirs_snoc; [|exact Hn']. by rewrite parent_snoc in Hp. }
      all: split; [done|]; split; [reflexivity|]; done.
    + intros H; simplify_eq/=. split; [done|]. split; [reflexivity|]. done.
    + intros H; simplify_eq/=. split; [done|]. split; [reflexivity|]. done.
  - destruct Hf as (Hdx & Hn & Hd). apply app_inj_tail in Hdx as [-> ->]. unfold os_mkdir, update. rewrite E. cbn [mbind result_bind].
    intros H. simplify_eq. fold (put ((root ++ ds) ++ [c]) (Dir (with_umask s 511)) s). split; [|split].
    + rewrite <- app_assoc in *. by apply repo_put_dir.
    + by apply grows_put_new.
    + intros _. eapply dirs_snoc; [by apply dirs_put_new|]. apply lookup_put. left. done.
  - intros H. unfold raise in H. simplify_eq. split; [done|]. split; [reflexivity|]. done.
Qed.

Lemma path_mkdir_parents_below F n s cs r s' :
  root ≠ [] → names_ok cs → repo F s → path_mkdir_parents n (below cs) s = (r, s') →
  repo F s' ∧ grows s s' ∧ (r = Ok tt → dirs s' (root ++ cs)).
Proof.
  intros Hrne. revert s cs r s'. induction n as [|n IH]; intros s cs r s' Hcs Hr H; cbn [path_mkdir_parents] in H.
  { eapply path_mkdir_below; [done..|]. by destruct (locate _ _ _). }
  destruct (locate false s (pp_str (below cs))) as [f|e] eqn:E; [by eapply path_mkdir_below|].
  destruct (decide (cs = [])) as [->|Hne].
  { rewrite pp_str_below, app_nil_r in E. destruct (locate_root F s false Hrne Hr) as [m Hm]. congruence. }
  destruct (exists_last Hne) as (ds & c & ->). rewrite pp_parent_below, io_bind_eq in H.
  assert (Hds : names_ok ds) by (by apply names_ok_app in Hcs as [? _]).
  destruct (path_mkdir_parents n (below ds) s) as [r1 s1] eqn:E1. destruct (IH _ _ _ _ Hds Hr E1) as (Hr1 & Hg1 & Hd1).
  destruct r1; [|by simplify_eq]. destruct (path_mkdir_below F s1 _ _ _ Hrne Hcs Hr1 H) as (Hr2 & Hg2 & Hd2).
  split; [done|]. split; [by etrans|done].
Qed.

Lemma write_below F s ds c d u s' :
  names_ok (ds ++ [c]) → dirs s (root ++ ds) → repo F s → write_file (abs (root ++ ds ++ [c])) d s = (Ok u, s') →
  repo (<[ds ++ [c] := d]> F) s' ∧ (F !! (ds ++ [c]) = None → grows s s').
Proof.
  intros Hn Hd Hr H. assert (Hok : names_ok ((root ++ ds) ++ [c])) by (rewrite <- app_assoc; by apply names_ok_app).
  rewrite app_assoc in H. rewrite write_entry in H; [|done|done|rewrite <- app_assoc; by apply (repo_plain F)].
  rewrite <- app_assoc in H. destruct (tree s !! (root ++ ds ++ [c])) as [[m|i|t|]|] eqn:E; simplify_eq.
  - split; [by apply repo_write|]. intros Hf. destruct (repo_file _ _ Hr _ _ E) as (? & ? & ? & _). congruence.
  - by destruct (repo_kinds _ _ Hr _ _ E) as [[? ?]|[? ?]].
  - fold (put (root ++ ds ++ [c]) (Reg (fresh_inode s)) s).
    fold (new_file (root ++ ds ++ [c]) (with_umask s 438, d) s). split; [by apply repo_new_file|]. intros _. by apply grows_new_file.
Qed.

Lemma chmod_below F s ds c m u s' :
  names_ok (ds ++ [c]) → dirs s (root ++ ds) → repo F s → is_Some (F !! (ds ++ [c])) →
  os_chmod (abs (root ++ ds ++ [c])) m s = (Ok u, s') → repo F s' ∧ grows s s'.
Proof.
  intros Hn Hd Hr [d HF] H. split; [pose proof (chmod_repo F (abs (root ++ ds ++ [c])) m s Hr) as Hk; by rewrite H in Hk|].
  assert (Hok : names_ok ((root ++ ds) ++ [c])) by (rewrite <- app_assoc; by apply names_ok_app).
  rewrite app_assoc in H. rewrite chmod_entry in H; [|done|done|rewrite <- app_assoc; by apply (repo_plain F)].
  destruct (repo_all _ _ Hr _ _ HF) as [i Hi]. rewrite <- app_assoc, Hi in H. simplify_eq. apply grows_mode.
Qed.

Lemma copyfile_inv src dst s u s' :
  copyfile src dst s = (Ok u, s') → ∃ d, file_bytes s src = Ok d ∧ write_file dst d s = (Ok u, s').
Proof.
  intros H. enough ((data ← read_file src; write_file dst data) s = (Ok u, s')) as H'.
  { apply io_bind_inv in H' as (d & s1 & Hd & H'). io_step Hd. subst s1. eauto. }
  unfold copyfile in H. destruct (locate true s src) as [[? [|i| |]|]|], (locate true s dst) as [[? [|j| |]|]|]; try done.
  by destruct (bool_decide (i = j)).
Qed.

Lemma unlink_below F s ds c u s' :
  names_ok (ds ++ [c]) → repo F s → is_Some (F !! (ds ++ [c])) → os_unlink (abs (root ++ ds ++ [c])) s = (Ok u, s') →
  repo (delete (ds ++ [c]) F) s'.
Proof.
  intros Hn Hr [d HF] H. destruct (repo_all _ _ Hr _ _ HF) as [i Hi].
  assert (Hok : names_ok ((root ++ ds) ++ [c])) by (rewrite <- app_assoc; by apply names_ok_app).
  rewrite app_assoc in H, Hi. rewrite unlink_entry in H; [|done|eapply wf_dirs; [apply (repo_wf _ _ Hr)|exact Hi]].
  rewrite Hi in H. simplify_eq. rewrite <- app_assoc in *. eapply repo_delete; [by destruct ds|done|done].
Qed.
End repo.

(** ** An empty output directory, as a check *)

Definition is_dir_at (s : fs) (p : list text) : bool := match tree s !! p with Some (Dir _) => true | _ => false end.
Definition empty_output (root : list text) (s : fs) : bool :=
  is_dir_at s root &&
  forallb (λ '(p, n),
    (is_nil p || is_dir_at s (parent p)) &&
    match n with Reg i => bool_decide (is_Some (inodes s !! i)) | _ => true end &&
    (negb (bool_decide (root `prefix_of` p)) || bool_decide (p = root))) (map_to_list (tree s)).

Lemma empty_output_repo root s : root ≠ [] → empty_output root s = true → repo root ∅ s.
Proof.
  intros Hne. unfold empty_output, is_dir_at. rewrite andb_true_iff, forallb_forall. intros [Hr Hall].
  destruct (tree s !! root) as [[m| | |]|] eqn:Er; try done.
  assert (Hn : ∀ p n, tree s !! p = Some n → (p = [] ∨ ∃ m, tree s !! parent p = Some (Dir m)) ∧
    (∀ i, n = Reg i → is_Some (inodes s !! i)) ∧ (root `prefix_of` p → p = root)).
  { intros p n Hp. apply elem_of_map_to_list, list_elem_of_In, Hall in Hp. rewrite !andb_true_iff, !orb_true_iff in Hp.
    destruct Hp as [[H1 H2] H3]. split; [|split].
    - destruct H1 as [H1|H1]; [left; by destruct p|right]. destruct (tree s !! parent p) as [[]|]; try done. eauto.
    - intros i ->. by apply bool_decide_eq_true in H2.
    - intros Hpre. destruct H3 as [H3|H3]; [by rewrite bool_decide_true in H3|by apply bool_decide_eq_true in H3]. }
  assert (Hwf : wf s).
  { intros d c n Hd. destruct (Hn _ _ Hd) as ([?|[m' Hm]] & _); [by destruct d|]. rewrite parent_snoc in Hm. eauto. }
  assert (Hin : ∀ cs n, tree s !! (root ++ cs) = Some n → cs = [] ∧ n = Dir m).
  { intros cs n Hcs. destruct (Hn _ _ Hcs) as (_ & _ & Hp). assert (cs = []) as ->.
    { apply (app_inv_head root). rewrite app_nil_r. apply Hp. by exists cs. }
    rewrite app_nil_r in Hcs. split; congruence. }
  split.
  - destruct (exists_last Hne) as (d & c & ->). eapply dirs_snoc; [|exact Er]. by eapply wf_dirs.
  - done.
  - intros q i Hq. by eapply Hn.
  - intros cs n [_ ->]%Hin. eauto.
  - intros cs i [_ ?]%Hin. done.
  - intros cs d Hd. by rewrite lookup_empty in Hd.
  - intros cs i q [_ ?]%Hin. done.
Qed.
