(* ===== verification/Snapshot.v ===== *)
(** * The Debian snapshot repository

    src/mkosi/private/debian_snapshot.py: the locked release files, indexes and packages are checked against their
    digests, the release file against its signature (sqv, run by the launcher of the Debian tools) and the indexes
    against the release file; the packages of the lock have to be in the indexes as the lock says, and everything is
    copied into a repository tree. The launcher is the argument [run], [lzma] the argument [xz], and the environment of
    the process the argument [environ]. *)
From S2P Require Import Prelude Bytes PyText Decimal Hashing Collections PosixPath FileTree DebControl.

Section snapshot.
Context `{Ucd}.

(** A command with its environment: the return code and what it wrote to its standard error. *)
Variable run : list text → dict text text → io (Z * bytes).
(** The bytes that reading an xz file gives, and the exception that ends the reading, if any. *)
Variable xz : bytes → bytes * option exn.
Variable environ : dict text text.

Record snapshot_args := {
  a_inrelease : text; a_release : text; a_release_gpg : text;
  a_packages_xz : text; a_packages_all_xz : text;
  a_output : text; a_scratch : text; a_launcher : text;
  a_inrelease_sha256 : text; a_release_sha256 : text; a_release_gpg_sha256 : text;
  a_packages_xz_sha256 : text; a_packages_all_xz_sha256 : text;
  a_packages_path : text; a_packages_all_path : text; a_codename : text;
  a_component_indexes : list text; a_component_index_files : list text;
  a_package_records : list text; a_packages : list text; a_package_names : list text;
}.

(** ** Digests *)

Definition _verify_digest (path expected description : text) : io unit :=
  data ← read_file path;
  let actual := hex (sha256 data) in
  io_when (negb (bool_decide (actual = expected)))
    (raise (ValueError "%s digest mismatch: expected=%s actual=%s" [AText description; AText expected; AText actual])).

Definition _verify_package (path expected_digest : text) (expected_size : Z) (description : text) : io unit :=
  _verify_digest path expected_digest description;;
  data ← read_file path;
  let actual_size := len data in
  io_when (negb (actual_size =? expected_size))
    (raise (ValueError "%s size mismatch: expected=%d actual=%d" [AText description; AInt expected_size; AInt actual_size])).

(** ** The release file *)

(** [re.fullmatch(r"[0-9a-fA-F]{64}", t)]. *)
Definition hex_char (c : Z) : bool := ascii_digit c || ((97 <=? c) && (c <=? 102)) || ((65 <=? c) && (c <=? 70)).
Definition is_digest (t : text) : bool := (length t =? 64)%nat && forallb hex_char t.

Record release_scan := { in_sha256 : bool; entry_paths : list text; entries : list (text * Z * text) }.

Definition release_line (st : release_scan) (line : text) : result release_scan :=
  match line with
  | [] => mret st
  | c :: _ =>
      if negb (isspace c) && endswith line (lit ":") then
        mret {| in_sha256 := bool_decide (line = lit "SHA256:"); entry_paths := entry_paths st; entries := entries st |}
      else if negb (in_sha256 st) then mret st
      else
        match split_ws line with
        | [digest; size; entry_path] =>
            require (is_digest digest) (ValueError "malformed SHA256 checksum digest" []);;
            require (all_digits size) (ValueError "malformed SHA256 checksum size" []);;
            raise_if (bool_decide (entry_path ∈ entry_paths st)) (ValueError "duplicate SHA256 checksum entry" []);;
            n ← of_option (ValueError "invalid literal for int() with base 10" []) (py_int size);
            mret {| in_sha256 := true; entry_paths := entry_path :: entry_paths st; entries := entries st ++ [(digest, n, entry_path)] |}
        | _ => Err (ValueError "malformed SHA256 checksum entry" [])
        end
  end.

Definition _sha256_entries (release : bytes) : result (list (text * Z * text)) :=
  t ← of_option UnicodeError (utf8_decode release);
  st ← foldM release_line {| in_sha256 := false; entry_paths := []; entries := [] |} (splitlines t);
  mret (entries st).

Definition release_path (relative_path : text) : result text :=
  if startswith relative_path (lit "dists/") then of_option IndexError (split_max 2 47 relative_path !! 2%nat)
  else mret relative_path.

Definition _release_hash (release : bytes) (relative_path : text) (expected_size : Z) (expected_digest : text) : result unit :=
  path ← release_path relative_path;
  es ← _sha256_entries release;
  match List.filter (λ e : text * Z * text, bool_decide (e.2 = path)) es with
  | [(digest, size, _)] =>
      require (size =? expected_size) (ValueError "Release metadata size disagrees with the lock" []);;
      require (bool_decide (lower digest = lower expected_digest)) (ValueError "Release metadata digest disagrees with the lock" [])
  | _ => Err (ValueError "Packages metadata must have exactly one SHA256 entry" [])
  end.

(** ** Signatures *)

Definition _SQV_KEYRING : text := lit "--keyring=/usr/share/keyrings/debian-archive-keyring.gpg".

Definition _run_sqv (launcher : text) (binds : list (text * text * text)) (sqv_arguments : list text)
    (environment : dict text text) (scratch description : text) : io unit :=
  let command := [launcher] ++ (binds ≫= λ '(option, source, destination), [option; source ++ lit ":" ++ destination])
    ++ [lit "/usr/bin/sqv"; _SQV_KEYRING] ++ sqv_arguments in
  '(returncode, stderr) ← run command (dset (lit "MKOSI_DEBIAN_TOOLS_SCRATCH") scratch environment);
  io_when (negb (returncode =? 0))
    (raise (ValueError "Debian %s signature verification failed: %s" [AText description; AText (strip (utf8_replace stderr))])).

Definition runfiles_variables : list text := lit <$> ["RUNFILES_DIR"; "RUNFILES_MANIFEST_FILE"; "RUNFILES_MANIFEST_ONLY"]%string.

Definition sqv_environment : dict text text :=
  foldl (λ environment variable,
    match dget variable environ with Some v => dset variable v environment | None => environment end)
    [(lit "PATH", [])] runfiles_variables.

Definition io_abspath (p : text) : io text := gets (λ s, abspath (abs (cwd s)) p).

Definition _verify_signature (launcher inrelease release release_gpg output scratch : text) : io unit :=
  scratch ← io_abspath scratch;
  inrelease ← io_abspath inrelease;
  output ← io_abspath output;
  _run_sqv launcher [(lit "--ro-bind", inrelease, lit "/inputs/InRelease"); (lit "--rw-bind", output, lit "/outputs/repository")]
    (lit <$> ["--output=/outputs/repository/verified-release"; "--cleartext"; "/inputs/InRelease"]%string)
    sqv_environment (scratch ++ lit "/inrelease") (lit "InRelease");;
  release ← io_abspath release;
  release_gpg ← io_abspath release_gpg;
  _run_sqv launcher [(lit "--ro-bind", release, lit "/inputs/Release"); (lit "--ro-bind", release_gpg, lit "/inputs/Release.gpg")]
    (lit <$> ["--signature-file=/inputs/Release.gpg"; "/inputs/Release"]%string)
    sqv_environment (scratch ++ lit "/release") (lit "Release").

(** ** Writing *)

Definition _copy (source : text) (destination : pure_path) : io unit :=
  path_makedirs (pp_parent destination);;
  copyfile source (pp_str destination);;
  os_chmod (pp_str destination) 420.

Definition _safe_package_path (filename : text) : result pure_path :=
  let relative := PurePosixPath filename in
  raise_if (pp_is_absolute relative || bool_decide (dotdot ∈ pp_parts relative) || negb (bool_decide (pp_str relative = filename))
            || negb (startswith (pp_str relative) (lit "pool/")))
    (ValueError "unsafe package path: %s" [AText filename]);;
  mret relative.

Definition _decompress (source : text) (destination : pure_path) : io unit :=
  path_makedirs (pp_parent destination);;
  compressed ← read_file source;
  let '(data, damage) := xz compressed in
  write_file (pp_str destination) data;;
  match damage with Some e => raise e | None => mret tt end;;
  os_chmod (pp_str destination) 420.

(** Modes only: timestamps are not part of the tree. *)
Definition _set_deterministic_metadata (root : text) : io unit :=
  records ← gets (λ s, os_walk_up (walk_fuel s) s root);
  for_each records (λ '(directory, dirnames, names),
    let set_mode mode name :=
      let path := os_join directory name in
      link ← os_islink path;
      io_when (negb link) (os_chmod path mode) in
    for_each names (set_mode 420);;
    for_each dirnames (set_mode 493);;
    os_chmod directory 493).

(** ** Package metadata *)

Abbreviation pkey := (text * text * text)%type.
(** (filename, size, digest). *)
Abbreviation pkg_record := (text * Z * text)%type.

Definition metadata_paragraph (index_architecture : text) (expected : list pkey) (actual : dict pkey pkg_record) (p : paragraph)
    : result (dict pkey pkg_record) :=
  match dget (lit "Architecture") p with
  | None => Err (ValueError "unsupported package architecture" [])
  | Some architecture =>
      require (bool_decide (architecture ∈ lit <$> ["amd64"; "all"]%string)) (ValueError "unsupported package architecture" []);;
      raise_if (bool_decide (index_architecture = lit "all") && negb (bool_decide (architecture = lit "all")))
        (ValueError "binary-all index contains non-all package" []);;
      (** no locked package has a key with a field that is absent *)
      let key := name ← dget (lit "Package") p; version ← dget (lit "Version") p; Some (name, version, architecture) in
      match dget (lit "Filename") p, dget (lit "Size") p, dget (lit "SHA256") p with
      | Some filename, Some size, Some digest =>
          raise_if (bool_decide (filename = []) || bool_decide (size = []) || bool_decide (digest = []) || negb (all_digits size))
            (ValueError "incomplete package metadata" []);;
          n ← of_option (ValueError "invalid literal for int() with base 10" []) (py_int size);
          let record := (filename, n, digest) in
          match key with
          | None => mret actual
          | Some key =>
              raise_if (match dget key actual with Some r => negb (bool_decide (r = record)) | None => false end)
                (ValueError "conflicting duplicate package metadata: %s" [AText key.1.1]);;
              mret (if bool_decide (key ∈ expected) then dset key record actual else actual)
          end
      | _, _, _ => Err (ValueError "incomplete package metadata" [])
      end
  end.

Definition _read_package_metadata (indexes : list (pure_path * text)) (expected : list pkey) : io (dict pkey pkg_record) :=
  fold_io (λ actual '(package_index, index_architecture),
    source ← read_file (pp_str package_index);
    lift (t ← of_option UnicodeError (utf8_decode source);
          ps ← paragraphs t;
          foldM (metadata_paragraph index_architecture expected) actual ps)) [] indexes.

Definition _authenticated_release_matches (payload release : bytes) : bool :=
  bool_decide (payload = release) || bool_decide (payload ++ [x0a] = release).

(** ** Indexes *)

(** component, architecture, path in the repository, digest, file *)
Abbreviation index := (text * text * text * text * text)%type.

(** [re.fullmatch(r"[a-z0-9][a-z0-9-]*", t)]. *)
Definition name_start (c : Z) : bool := ascii_lower c || ascii_digit c.
Definition is_component (t : text) : bool :=
  match t with c :: t => name_start c && forallb (λ c, name_start c || (c =? 45)) t | [] => false end.

Definition component_record (record path : text) : result index :=
  match split_on 124 record with
  | [component; architecture; relative; digest] => mret (component, architecture, relative, digest, path)
  | _ => Err (ValueError "component index record must have four fields" [])
  end.

Definition index_path (codename component architecture : text) : text :=
  lit "dists/" ++ codename ++ [47] ++ component ++ lit "/binary-" ++ architecture ++ lit "/Packages.xz".

Definition check_index (codename : text) (seen : list (text * text)) (ix : index) : result (list (text * text)) :=
  let '(component, architecture, relative, _, _) := ix in
  require (is_component component) (ValueError "invalid Debian component: %s" [AText component]);;
  require (bool_decide (architecture ∈ lit <$> ["amd64"; "all"]%string)) (ValueError "unsupported index architecture: %s" [AText architecture]);;
  let expected := index_path codename component architecture in
  require (bool_decide (relative = expected)) (ValueError "Packages index %s must be staged at %s" [AText relative; AText expected]);;
  raise_if (bool_decide ((component, architecture) ∈ seen)) (ValueError "duplicate Packages index: %s %s" [AText component; AText architecture]);;
  mret ((component, architecture) :: seen).

Definition _component_indexes (args : snapshot_args) : result (list index) :=
  require (length (a_component_indexes args) =? length (a_component_index_files args))%nat
    (ValueError "--component-index and --component-index-file counts differ" []);;
  more ← mapM (λ '(record, path), component_record record path) (zip (a_component_indexes args) (a_component_index_files args));
  let indexes :=
    [(lit "main", lit "amd64", a_packages_path args, a_packages_xz_sha256 args, a_packages_xz args);
     (lit "main", lit "all", a_packages_all_path args, a_packages_all_xz_sha256 args, a_packages_all_xz args)] ++ more in
  seen ← foldM (check_index (a_codename args)) [] indexes;
  let wanted := indexes ≫= λ '(component, _, _, _, _), [(component, lit "amd64"); (component, lit "all")] in
  require (forallb (λ x, bool_decide (x ∈ wanted)) seen && forallb (λ x, bool_decide (x ∈ seen)) wanted)
    (ValueError "every Debian component needs binary-amd64 and binary-all indexes" []);;
  mret indexes.

Definition _verify_input_digests (args : snapshot_args) (indexes : list index) : io unit :=
  _verify_digest (a_inrelease args) (a_inrelease_sha256 args) (lit "InRelease");;
  _verify_digest (a_release args) (a_release_sha256 args) (lit "Release");;
  _verify_digest (a_release_gpg args) (a_release_gpg_sha256 args) (lit "Release.gpg");;
  for_each indexes (λ '(component, architecture, _, digest, path),
    _verify_digest path digest (lit "Packages " ++ component ++ [47] ++ architecture)).

Definition _verify_authenticated_release (verified : pure_path) (release : text) (indexes : list index) : io unit :=
  authenticated_release ← read_file (pp_str verified);
  locked ← read_file (pp_str (PurePosixPath release));
  io_when (negb (_authenticated_release_matches authenticated_release locked))
    (raise (ValueError "authenticated InRelease does not match locked Release" []));;
  for_each indexes (λ '(_, _, relative, digest, path),
    data ← read_file (pp_str (PurePosixPath path));
    lift (_release_hash authenticated_release relative (len data) digest)).

Definition _stage_release_files (args : snapshot_args) (indexes : list index) (destination : pure_path) : io (list (pure_path * text)) :=
  let dists := pp_div (pp_div destination (PurePosixPath (lit "dists"))) (PurePosixPath (a_codename args)) in
  _copy (a_inrelease args) (pp_div dists (PurePosixPath (lit "InRelease")));;
  _copy (a_release args) (pp_div dists (PurePosixPath (lit "Release")));;
  _copy (a_release_gpg args) (pp_div dists (PurePosixPath (lit "Release.gpg")));;
  fold_io (λ staged_indexes '(_, architecture, relative, _, path),
    let staged := pp_div destination (PurePosixPath (take (length relative - 3) relative)) in
    _decompress path staged;;
    mret (staged_indexes ++ [(staged, architecture)])) [] indexes.

(** ** Packages of the lock *)

(** (filename, size, digest, local name). *)
Record locked := { l_filename : text; l_size : Z; l_digest : text; l_local : text }.
Record lock_scan := { l_expected : dict pkey locked; l_filenames : list text; l_names : list text }.

Definition lock_record (st : lock_scan) (package : text) : result lock_scan :=
  match split_on 124 package with
  | [name; version; architecture; filename; size; digest; local_name] =>
      require (all_digits size) (ValueError "locked package size is invalid" []);;
      let key := (name, version, architecture) in
      path ← _safe_package_path filename;
      let filename := pp_str path in
      raise_if (dmem key (l_expected st)) (ValueError "duplicate locked package: %s" [AText (join [124] [name; version; architecture])]);;
      raise_if (bool_decide (filename ∈ l_filenames st)) (ValueError "package path collision: %s" [AText filename]);;
      raise_if (bool_decide (local_name ∈ l_names st)) (ValueError "duplicate local package name: %s" [AText local_name]);;
      n ← of_option (ValueError "invalid literal for int() with base 10" []) (py_int size);
      mret {| l_expected := dset key {| l_filename := filename; l_size := n; l_digest := digest; l_local := local_name |} (l_expected st);
              l_filenames := filename :: l_filenames st; l_names := local_name :: l_names st |}
  | _ => Err (ValueError "locked package record must have seven fields" [])
  end.

Definition _locked_packages (package_records : list text) : result (dict pkey locked) :=
  st ← foldM lock_record {| l_expected := []; l_filenames := []; l_names := [] |} package_records;
  mret (l_expected st).

(** [sorted] of the keys. *)
Definition pkey_lt (a b : pkey) : bool :=
  let '(n, v, r) := a in let '(n', v', r') := b in
  if bool_decide (n = n') then
    if bool_decide (v = v') then negb (text_leb r' r) else negb (text_leb v' v)
  else negb (text_leb n' n).

Definition record_of (l : locked) : pkg_record := (l_filename l, l_size l, l_digest l).

Definition _verify_package_metadata (staged_indexes : list (pure_path * text)) (expected : dict pkey locked) : io unit :=
  actual ← _read_package_metadata staged_indexes (dkeys expected);
  io_when (negb (forallb (λ k, dmem k expected) (dkeys actual) && forallb (λ k, dmem k actual) (dkeys expected)))
    (raise (ValueError "locked packages do not match Packages metadata" []));;
  for_each (stable_sort pkey_lt (dkeys expected)) (λ key,
    a ← lift (of_option KeyError (dget key actual));
    e ← lift (of_option KeyError (dget key expected));
    io_when (negb (bool_decide (a = record_of e)))
      (raise (ValueError "package metadata disagrees with lock: %s" [AText key.1.1]))).

Definition _stage_packages (args : snapshot_args) (expected : dict pkey locked) (destination : pure_path) : io unit :=
  let records_by_name := foldl (λ d '(_, value), dset (l_local value) value d) [] expected in
  io_when (negb (forallb (λ k, bool_decide (k ∈ a_package_names args)) (dkeys records_by_name)
                 && forallb (λ k, dmem k records_by_name) (a_package_names args)))
    (raise (ValueError "package inputs do not match lock package names" []));;
  for_each (zip (a_packages args) (a_package_names args)) (λ '(package, local_name),
    value ← lift (of_option KeyError (dget local_name records_by_name));
    _verify_package package (l_digest value) (l_size value) (lit "package " ++ local_name);;
    relative ← lift (_safe_package_path (l_filename value));
    _copy package (pp_div destination relative));;
  io_when (negb (length (a_packages args) =? length (a_package_names args))%nat)
    (raise (ValueError "zip() arguments have different lengths" [])).

Definition stage (args : snapshot_args) : io unit :=
  io_when (negb (is_component (a_codename args))) (raise (ValueError "invalid Debian codename: %s" [AText (a_codename args)]));;
  indexes ← lift (_component_indexes args);
  _verify_input_digests args indexes;;
  _verify_signature (a_launcher args) (a_inrelease args) (a_release args) (a_release_gpg args) (a_output args) (a_scratch args);;
  let destination := PurePosixPath (a_output args) in
  let verified := pp_div destination (PurePosixPath (lit "verified-release")) in
  _verify_authenticated_release verified (a_release args) indexes;;
  staged_indexes ← _stage_release_files args indexes destination;
  expected ← lift (_locked_packages (a_package_records args));
  _verify_package_metadata staged_indexes expected;;
  _stage_packages args expected destination;;
  os_unlink (pp_str verified);;
  _set_deterministic_metadata (pp_str destination).
End snapshot.

Abbreviation pkey := (text * text * text)%type.
Abbreviation pkg_record := (text * Z * text)%type.
Abbreviation index := (text * text * text * text * text)%type.
