(* ===== verification/SnapshotDemo.v ===== *)
(** * Debian snapshot: a concrete lock

    A release file with two indexes and one package, with sqv replaced by a program that writes the payload. *)
From S2P Require Import Prelude Bytes PyText Decimal Hashing Collections PosixPath FileTree RepoTree DebControl Snapshot.

Definition nl : text := [10].
Definition demo_bytes (t : text) : bytes := Z2b <$> t.
Definition demo_hash (d : bytes) : text := hex (sha256 d).

Definition demo_deb : bytes := Eval vm_compute in blit "package".
Definition demo_index_amd64 : bytes := Eval vm_compute in
  demo_bytes (lit "Package: a" ++ nl ++ lit "Version: 1" ++ nl ++ lit "Architecture: amd64" ++ nl ++ lit "Filename: pool/a.deb" ++ nl
    ++ lit "Size: 7" ++ nl ++ lit "SHA256: " ++ demo_hash demo_deb ++ nl).
Definition demo_index_all : bytes := Eval vm_compute in demo_bytes nl.
Definition demo_release : bytes := Eval vm_compute in
  demo_bytes (lit "Suite: trixie" ++ nl ++ lit "SHA256:" ++ nl
    ++ lit " " ++ demo_hash demo_index_amd64 ++ lit " " ++ dec (len demo_index_amd64) ++ lit " main/binary-amd64/Packages.xz" ++ nl
    ++ lit " " ++ demo_hash demo_index_all ++ lit " " ++ dec (len demo_index_all) ++ lit " main/binary-all/Packages.xz" ++ nl).

Definition demo_root : list text := [lit "out"].

Definition demo_args : snapshot_args := Eval vm_compute in {|
  a_inrelease := lit "/in/InRelease"; a_release := lit "/in/Release"; a_release_gpg := lit "/in/Release.gpg";
  a_packages_xz := lit "/in/amd64"; a_packages_all_xz := lit "/in/all";
  a_output := abs demo_root; a_scratch := lit "/tmp"; a_launcher := lit "/launcher";
  a_inrelease_sha256 := demo_hash (blit "signed"); a_release_sha256 := demo_hash demo_release;
  a_release_gpg_sha256 := demo_hash (blit "signature");
  a_packages_xz_sha256 := demo_hash demo_index_amd64; a_packages_all_xz_sha256 := demo_hash demo_index_all;
  a_packages_path := lit "dists/trixie/main/binary-amd64/Packages.xz"; a_packages_all_path := lit "dists/trixie/main/binary-all/Packages.xz";
  a_codename := lit "trixie"; a_component_indexes := []; a_component_index_files := [];
  a_package_records := [lit "a|1|amd64|pool/a.deb|7|" ++ demo_hash demo_deb ++ lit "|a.deb"];
  a_packages := [lit "/in/a.deb"]; a_package_names := [lit "a.deb"];
|}.

Definition demo_snapshot_fs : fs := {|
  tree := {[ [] := Dir 493; [lit "in"] := Dir 493; demo_root := Dir 493;
             [lit "in"; lit "InRelease"] := Reg 0; [lit "in"; lit "Release"] := Reg 1; [lit "in"; lit "Release.gpg"] := Reg 2;
             [lit "in"; lit "amd64"] := Reg 3; [lit "in"; lit "all"] := Reg 4; [lit "in"; lit "a.deb"] := Reg 5 ]};
  inodes := {[ 0%N := (420, blit "signed"); 1%N := (420, demo_release); 2%N := (420, blit "signature");
               3%N := (420, demo_index_amd64); 4%N := (420, demo_index_all); 5%N := (420, demo_deb) ]};
  cwd := []; umask := 18;
|}.

(** Writes the payload of InRelease to the output, if there is no such file. *)
Definition demo_run (argv : list text) (env : dict text text) : io (Z * bytes) :=
  if bool_decide (lit "--cleartext" ∈ argv) then
    present ← os_lexists (abs (demo_root ++ [lit "verified-release"]));
    if (present : bool) then raise OSError
    else write_file (abs (demo_root ++ [lit "verified-release"])) demo_release;; mret (0, [])
  else mret (0, []).
Definition demo_xz (d : bytes) : bytes * option exn := (d, None).
Definition demo_stage : result unit * fs := @stage ascii_ucd demo_run demo_xz [] demo_args demo_snapshot_fs.
