(* ===== verification/SnapshotRelease.v ===== *)
(** * Debian snapshot: reading the release file

    The SHA256 section of a release file reads back as its entries, whatever the other fields and checksum sections hold,
    and the check of an index against it accepts exactly the listed digest and size. *)
From S2P Require Import Prelude Bytes PyText Decimal Hashing Collections PosixPath FileTree DebControl Snapshot.

(** ** Rendering *)

(** A word: no white space and no surrogates. *)
Definition word (t : text) : Prop := t ≠ [] ∧ Forall (λ c, isspace c = false) t.

Definition entry_line (e : text * Z * text) : text :=
  let '(digest, size, path) := e in lit " " ++ digest ++ lit " " ++ dec size ++ lit " " ++ path.

Definition release_lines (pre : list text) (es : list (text * Z * text)) (post : list text) : list text :=
  pre ++ [lit "SHA256:"] ++ (entry_line <$> es) ++ post.
Definition render_release (pre : list text) (es : list (text * Z * text)) (post : list text) : bytes :=
  utf8_encode (release_lines pre es post ≫= λ l, l ++ [10]).

(** A line that is not the header of the section. *)
Definition other_line (l : text) : Prop :=
  Forall (λ c, is_linebreak c = false ∧ is_scalar c = true) l ∧ l ≠ lit "SHA256:".

Definition plain_entry (e : text * Z * text) : Prop :=
  is_digest e.1.1 = true ∧ 0 <= e.1.2 ∧ word e.2 ∧ Forall (λ c, is_scalar c = true) e.2.

(** Another header ends the section. *)
Definition section_end (post : list text) : Prop :=
  match post with
  | [] => True
  | l :: _ => ∃ c l', l = c :: l' ∧ isspace c = false ∧ endswith l (lit ":") = true
  end.

Record plain_release (pre : list text) (es : list (text * Z * text)) (post : list text) : Prop := {
  pr_pre : Forall other_line pre;
  pr_entries : Forall plain_entry es;
  pr_paths : NoDup (es.*2);
  pr_end : section_end post;
  pr_post : Forall other_line post;
}.

(** ** Words *)

Lemma linebreak_isspace c : is_linebreak c = true → isspace c = true.
Proof. unfold is_linebreak, isspace. lia. Qed.

Lemma word_no_break t : word t → Forall (λ c, is_linebreak c = false) t.
Proof.
  intros [_ Ht]. eapply Forall_impl; [exact Ht|]. simpl. intros c Hc. destruct (is_linebreak c) eqn:E; [|done].
  apply linebreak_isspace in E. congruence.
Qed.

Lemma hex_char_plain c : hex_char c = true → 48 <= c <= 102.
Proof. unfold hex_char, ascii_digit. lia. Qed.

Lemma digest_word t : is_digest t = true → word t ∧ Forall (λ c, is_scalar c = true) t.
Proof.
  unfold is_digest. rewrite andb_true_iff, Nat.eqb_eq, forallb_forall. intros [Hl Hc].
  assert (Hr : ∀ c, c ∈ t → 48 <= c <= 102) by (intros c Hin; by apply hex_char_plain, Hc, list_elem_of_In).
  split; [split; [by intros ->|]|]; apply Forall_forall; intros c Hin; specialize (Hr c Hin).
  - unfold isspace. lia.
  - unfold is_scalar. lia.
Qed.

Lemma dec_word `{Ucd} n : 0 <= n → word (dec n) ∧ Forall (λ c, is_scalar c = true) (dec n).
Proof.
  intros Hn. destruct (dec_digits n Hn) as [[Hf _] Hne]. split; [split; [done|]|]; (eapply Forall_impl; [exact Hf|]); simpl;
    unfold ascii_digit, isspace, is_scalar; intros c Hc; lia.
Qed.

Lemma split_ws_word cur t u : Forall (λ c, isspace c = false) t → split_ws_aux cur (t ++ u) = split_ws_aux (reverse t ++ cur) u.
Proof.
  revert cur. induction t as [|c t IH]; intros cur Ht; [done|]. inv Ht. simpl. rewrite H1, IH by done.
  by rewrite reverse_cons, <- app_assoc.
Qed.

Lemma split_ws_end t : word t → split_ws_aux [] t = [t].
Proof.
  intros [Hne Ht]. rewrite <- (app_nil_r t) at 1. rewrite split_ws_word, app_nil_r by done. simpl.
  rewrite bool_decide_false; [by rewrite reverse_involutive|]. intros E. apply Hne. by apply reverse_nil_inv in E || (destruct t using rev_ind; [done|]; rewrite reverse_app in E; done).
Qed.

Lemma split_ws_next t u : word t → split_ws_aux [] (t ++ 32 :: u) = t :: split_ws_aux [] u.
Proof.
  intros [Hne Ht]. rewrite split_ws_word, app_nil_r by done. cbn [split_ws_aux]. change (isspace 32) with true. cbn iota.
  rewrite bool_decide_false; [by rewrite reverse_involutive|]. intros E. destruct t as [|c t _] using rev_ind; [done|].
  by rewrite reverse_app in E.
Qed.

Section release.
Context `{Ucd}.

Lemma split_entry e : plain_entry e → split_ws (entry_line e) = [e.1.1; dec e.1.2; e.2].
Proof.
  destruct e as [[digest size] path]. intros (Hd & Hs & Hp & _). unfold split_ws, entry_line.
  change (lit " " ++ digest ++ lit " " ++ dec size ++ lit " " ++ path) with (32 :: digest ++ 32 :: dec size ++ 32 :: path).
  cbn [split_ws_aux]. change (isspace 32) with true. cbn iota. rewrite bool_decide_true by done.
  rewrite split_ws_next by (by apply digest_word). rewrite split_ws_next by (by apply dec_word). by rewrite split_ws_end.
Qed.

Lemma entry_line_plain e : plain_entry e → Forall (λ c, is_linebreak c = false ∧ is_scalar c = true) (entry_line e).
Proof.
  destruct e as [[digest size] path]. intros (Hd & Hs & Hp & Hps). unfold entry_line. simpl in *.
  destruct (digest_word _ Hd) as [Hdw Hds]. destruct (dec_word _ Hs) as [Hnw Hns].
  assert (Hw : ∀ t, word t → Forall (λ c, is_scalar c = true) t → Forall (λ c, is_linebreak c = false ∧ is_scalar c = true) t).
  { intros t Ht Hts. apply Forall_and. split; [by apply word_no_break|done]. }
  repeat (first [apply Forall_app; split | constructor; [done|] | constructor]); by apply Hw.
Qed.

(** ** Reading *)

(** Lines that are no header of the section leave a scan outside of the section as it is. *)
Lemma scan_outside ls st : Forall other_line ls → in_sha256 st = false → foldM release_line st ls = Ok st.
Proof.
  induction 1 as [|l ls [_ Hl] Hls IH]; intros Hst; [done|]. cbn [foldM].
  assert (Hstep : release_line st l = Ok st).
  { unfold release_line. destruct l as [|c l]; [done|]. rewrite Hst. cbn [negb]. destruct (_ && _); [|done].
    rewrite bool_decide_false by done. destruct st; simpl in *. by subst. }
  rewrite Hstep. cbn [mbind result_bind]. by apply IH.
Qed.

Lemma scan_entry st e :
  plain_entry e → in_sha256 st = true → e.2 ∉ entry_paths st →
  release_line st (entry_line e) =
    Ok {| in_sha256 := true; entry_paths := e.2 :: entry_paths st; entries := entries st ++ [e] |}.
Proof.
  intros He Hst Hn. pose proof (split_entry e He) as Hsp. destruct e as [[digest size] path]. destruct He as (Hd & Hs & _).
  cbn [fst snd] in *. unfold release_line. unfold entry_line in *. change (lit " " ++ ?x) with (32 :: x) in *. cbn iota.
  change (isspace 32) with true. cbn [negb andb]. rewrite Hst. cbn [negb]. rewrite Hsp, Hd. cbn [require mbind result_bind].
  rewrite all_digits_dec by done. cbn [require mbind result_bind]. rewrite bool_decide_false by done. cbn [raise_if mbind result_bind].
  by rewrite py_int_dec.
Qed.

Lemma scan_entries es st :
  Forall plain_entry es → NoDup (es.*2) → (∀ p, p ∈ es.*2 → p ∉ entry_paths st) → in_sha256 st = true →
  foldM release_line st (entry_line <$> es) =
    Ok {| in_sha256 := true; entry_paths := reverse (es.*2) ++ entry_paths st; entries := entries st ++ es |}.
Proof.
  intros He. revert st. induction He as [|e es He Hes IH]; intros st Hnd Hdis Hst.
  { rewrite app_nil_r. destruct st. simpl in *. by subst. }
  rewrite !fmap_cons in *. apply NoDup_cons in Hnd as [Hn Hnd]. cbn [foldM].
  rewrite scan_entry; [|done|done|apply Hdis; by left]. cbn [mbind result_bind]. rewrite IH; [|done| |done].
  - cbn [entry_paths entries]. by rewrite reverse_cons, <- !app_assoc.
  - intros p Hp. cbn [entry_paths]. apply not_elem_of_cons. split; [by intros ->|]. apply Hdis. by right.
Qed.

Lemma scan_post es paths post :
  section_end post → Forall other_line post →
  ∃ st, foldM release_line {| in_sha256 := true; entry_paths := paths; entries := es |} post = Ok st ∧ entries st = es.
Proof.
  intros Hend Hpost. destruct post as [|l post]; [by eexists|]. destruct Hend as (c & l' & -> & Hc & He). inv Hpost.
  assert (Hstep : release_line {| in_sha256 := true; entry_paths := paths; entries := es |} (c :: l') =
    Ok {| in_sha256 := false; entry_paths := paths; entries := es |}).
  { unfold release_line. rewrite Hc, He. cbn [negb andb]. rewrite bool_decide_false by apply H2. done. }
  cbn [foldM]. rewrite Hstep. cbn [mbind result_bind]. eexists. rewrite scan_outside by done. done.
Qed.

Lemma scan_header : release_line {| in_sha256 := false; entry_paths := []; entries := [] |} (lit "SHA256:") =
  Ok {| in_sha256 := true; entry_paths := []; entries := [] |}.
Proof. reflexivity. Qed.

Lemma sha256_entries_render pre es post : plain_release pre es post → _sha256_entries (render_release pre es post) = Ok es.
Proof.
  intros [Hpre He Hnd Hend Hpost]. unfold _sha256_entries, render_release.
  assert (Hlines : Forall (Forall (λ c, is_linebreak c = false ∧ is_scalar c = true)) (release_lines pre es post)).
  { unfold release_lines. rewrite !Forall_app. split; [eapply Forall_impl; [exact Hpre|]; by intros l [? _]|].
    split; [repeat constructor|]. split; [|eapply Forall_impl; [exact Hpost|]; by intros l [? _]].
    apply Forall_fmap. eapply Forall_impl; [exact He|]. intros e. apply entry_line_plain. }
  rewrite utf8_round_trip.
  - cbn [of_option mbind result_bind]. rewrite splitlines_lines.
    2: { eapply Forall_impl; [exact Hlines|]. intros l Hl. eapply Forall_impl; [exact Hl|]. by intros c [? _]. }
    unfold release_lines. rewrite foldM_app, scan_outside by done. cbn [mbind result_bind]. rewrite foldM_app.
    change (foldM release_line ?st [lit "SHA256:"]) with (release_line st (lit "SHA256:") ≫= λ st', Ok st'). rewrite scan_header.
    cbn [mbind result_bind]. rewrite foldM_app. rewrite scan_entries by (done || set_solver). cbn [mbind result_bind].
    destruct (scan_post ([] ++ es) (reverse es.*2 ++ []) post Hend Hpost) as (st & Hst & Hes). cbn [entries entry_paths]. rewrite Hst.
    cbn [mbind result_bind]. by rewrite Hes.
  - apply forallb_forall. intros c Hc%list_elem_of_In. apply list_elem_of_bind in Hc as (l & Hc & Hl). rewrite Forall_forall in Hlines.
    apply elem_of_app in Hc as [Hc|Hc]; [|by apply list_elem_of_singleton in Hc as ->].
    specialize (Hlines l Hl). rewrite Forall_forall in Hlines. by apply Hlines.
Qed.
End release.

(** The check of an index against a release file accepts exactly what the SHA256 section lists: the size and, up to
    the case of its letters, the digest of the path without dists and the code name, whatever other fields and checksum
    sections the release file has. *)
Theorem release_hash_exact `{U : Ucd} pre es post relative size digest :
  plain_release pre es post →
  _release_hash (render_release pre es post) relative size digest = Ok tt ↔
  ∃ path listed, release_path relative = Ok path ∧ (listed, size, path) ∈ es ∧ lower listed = lower digest.
Proof.
  intros Hp. unfold _release_hash. rewrite sha256_entries_render by done. destruct Hp as [_ _ Hnd _ _].
  destruct (release_path relative) as [path|e]; cbn [mbind result_bind]; [|naive_solver].
  assert (Hone : ∀ e, e ∈ es → e.2 = path → List.filter (λ e : text * Z * text, bool_decide (e.2 = path)) es = [e]).
  { intros e He Hep. apply list_elem_of_split in He as (l1 & l2 & ->). rewrite fmap_app, fmap_cons in Hnd.
    apply NoDup_app in Hnd as (_ & Hd & [Hn _]%NoDup_cons). rewrite List.filter_app. cbn [List.filter]. rewrite bool_decide_true by done.
    assert (Hnone : ∀ l, e.2 ∉ l.*2 → List.filter (λ e : text * Z * text, bool_decide (e.2 = path)) l = []).
    { induction l as [|x l IH]; intros Hx; [done|]. rewrite fmap_cons, not_elem_of_cons in Hx. simpl.
      rewrite bool_decide_false by (intros E; destruct Hx; congruence). apply IH, Hx. }
    rewrite !Hnone; [done|done|]. intros Hx. apply (Hd _ Hx). by left. }
  split.
  - destruct (List.filter _ es) as [|[[dg sz] p] [|]] eqn:E; [done| |done].
    assert (Hin : (dg, sz, p) ∈ List.filter (λ e : text * Z * text, bool_decide (e.2 = path)) es) by (rewrite E; by left).
    apply list_elem_of_In, filter_In in Hin as [Hin Hb]. apply list_elem_of_In in Hin. apply bool_decide_eq_true in Hb.
    simpl in Hb. subst p. intros Hr. res_inv. exists path, dg. split; [done|].
    repeat match goal with H : _ = true |- _ => first [apply Z.eqb_eq in H; subst|apply bool_decide_eq_true in H] end. done.
  - intros (path' & listed & [= <-] & Hin & Hl). rewrite (Hone _ Hin) by done. rewrite Z.eqb_refl. simpl. by rewrite bool_decide_true.
Qed.

Definition demo_digest_text : text := replicate 64 97.

Lemma release_hash_exact_witness :
  let pre := lit <$> ["Suite: x"; "MD5Sum:"; " 1 2 main/p"]%string in
  let post := lit <$> ["SHA512:"; " ff 12 main/p"]%string in
  @_release_hash ascii_ucd (render_release pre [(demo_digest_text, 12, lit "main/p")] post) (lit "dists/trixie/main/p") 12
    (replicate 64 65) = Ok tt.
Proof.
  intros pre post. apply (@release_hash_exact ascii_ucd).
  - split; [repeat constructor; done|repeat constructor; done|apply NoDup_singleton| |repeat constructor; done].
    exists 83, (lit "HA512:"). done.
  - exists (lit "main/p"), demo_digest_text. split; [done|]. split; [by left|vm_compute; reflexivity].
Defined.
