(* ===== verification/SnapshotProofs.v ===== *)
(** * Debian snapshot: the staged repository is authentic

    When [stage] returns, the output tree holds exactly the release files, the decompressed indexes and the packages of
    the lock; every one of them has the digest that the lock gives, every index is listed with its digest and size in the
    release file that the signature check returned, and every package is in an index as the lock describes it. *)
From S2P Require Import Prelude Bytes PyText Decimal Hashing Collections PosixPath FileTree RepoTree DebControl Snapshot SnapshotDemo.

(** ** Paths of the repository *)

Lemma pure_names cs : names_ok cs → List.filter pure_component cs = cs.
Proof.
  induction 1 as [|c cs Hc Hcs IH]; [done|]. apply name_ok_spec in Hc as (H1 & H2 & _). cbn [List.filter].
  replace (pure_component c) with true; [by rewrite IH|]. unfold pure_component.
  by rewrite (bool_decide_false (c = [])), (bool_decide_false (c = dot)).
Qed.

Lemma PurePosixPath_rel cs : cs ≠ [] → names_ok cs → PurePosixPath (rel cs) = {| pp_root := []; pp_tail := cs |}.
Proof.
  intros Hne Hcs. unfold PurePosixPath, initial_slashes. rewrite startswith_rel, split_rel by done. by rewrite pure_names.
Qed.

Lemma PurePosixPath_abs cs : cs ≠ [] → names_ok cs → PurePosixPath (abs cs) = {| pp_root := [47]; pp_tail := cs |}.
Proof.
  intros Hne Hcs. unfold PurePosixPath. rewrite initial_slashes_abs, split_abs by done. simpl. by rewrite pure_names.
Qed.

Lemma component_name t : is_component t = true → name_ok t = true.
Proof.
  unfold is_component. destruct t as [|c t]; [done|]. rewrite andb_true_iff. intros [Hc Ht]. apply name_ok_spec.
  assert (Hall : ∀ x, x ∈ c :: t → x ≠ 46 ∧ x ≠ 47).
  { intros x [->|Hx]%elem_of_cons.
    - unfold name_start, ascii_lower, ascii_digit in Hc. lia.
    - rewrite forallb_forall in Ht. apply list_elem_of_In, Ht in Hx. unfold name_start, ascii_lower, ascii_digit in Hx. lia. }
  split; [done|]. split; [|split].
  - intros [= -> ->]. by destruct (Hall 46); [left|].
  - intros [= -> ->]. by destruct (Hall 46); [left|].
  - intros Hin. by destruct (Hall 47).
Qed.

(** The components of the path of an index, and of the decompressed index. *)
Definition index_dir (codename component architecture : text) : list text :=
  [lit "dists"; codename; component; lit "binary-" ++ architecture].
Definition staged_index (codename component architecture : text) : list text :=
  index_dir codename component architecture ++ [lit "Packages"].

Lemma index_path_rel codename component architecture :
  index_path codename component architecture = rel (index_dir codename component architecture ++ [lit "Packages.xz"]).
Proof.
  unfold index_path, rel, index_dir. cbn [app join]. rewrite <- !app_assoc. reflexivity.
Qed.

Lemma staged_index_rel codename component architecture :
  let r := index_path codename component architecture in
  take (length r - 3) r = rel (staged_index codename component architecture).
Proof.
  cbv zeta. assert (Heq : index_path codename component architecture =
    rel (staged_index codename component architecture) ++ lit ".xz").
  { unfold index_path, rel, staged_index, index_dir. cbn [app join].
    repeat (rewrite <- app_assoc || rewrite <- app_comm_cons). reflexivity. }
  rewrite Heq, length_app. change (length (lit ".xz")) with 3%nat. by rewrite Nat.add_sub, take_app_length.
Qed.

Definition known_architecture (a : text) : Prop := a ∈ lit <$> ["amd64"; "all"]%string.

Lemma binary_name a : known_architecture a → name_ok (lit "binary-" ++ a) = true.
Proof. intros Ha. repeat (apply elem_of_cons in Ha as [->|Ha]; [done|]). by apply elem_of_nil in Ha. Qed.

Lemma staged_index_names codename component a :
  is_component codename = true → is_component component = true → known_architecture a → names_ok (staged_index codename component a).
Proof. intros Hc Hd Ha. repeat constructor; try done; [by apply component_name..|by apply binary_name]. Qed.

Lemma safe_package_path_Ok filename p :
  _safe_package_path filename = Ok p → ∃ cs, cs ≠ [] ∧ names_ok (lit "pool" :: cs) ∧
    p = {| pp_root := []; pp_tail := lit "pool" :: cs |} ∧ filename = rel (lit "pool" :: cs).
Proof.
  unfold _safe_package_path. intros H. apply bind_Ok_inv in H as (u & Hc & H). apply raise_if_Ok in Hc.
  rewrite !orb_false_iff, !negb_false_iff, bool_decide_eq_false, bool_decide_eq_true in Hc. destruct Hc as [[[Ha Hd] Hs] Hp].
  apply Ok_inj in H. subst p. set (p := PurePosixPath filename) in *.
  unfold pp_is_absolute in Ha. apply negb_false_iff, bool_decide_eq_true in Ha.
  assert (Hparts : pp_parts p = pp_tail p) by (unfold pp_parts, pp_is_absolute; by rewrite bool_decide_true).
  rewrite Hparts in Hd. assert (Htail : names_ok (pp_tail p)).
  { unfold p. simpl. apply Forall_forall. intros c Hc. apply name_ok_spec. assert (Hc' := Hc).
    apply list_elem_of_In, filter_In in Hc as [Hc Hpc]. unfold pure_component in Hpc.
    apply negb_true_iff, orb_false_iff in Hpc as [H1%bool_decide_eq_false H2%bool_decide_eq_false].
    split; [done|]. split; [done|]. split; [by intros ->|].
    pose proof (split_on_no_sep 47 filename) as Hno. rewrite Forall_forall in Hno. apply Hno. by apply list_elem_of_In. }
  assert (Hstr : pp_str p = rel (pp_tail p) ∨ pp_tail p = []).
  { unfold pp_str. rewrite Ha. simpl. case_bool_decide as E; [right; by apply join_nil_iff in E|by left]. }
  destruct Hstr as [Hstr|Hnil]; [|by unfold pp_str in Hp; rewrite Ha, Hnil in Hp].
  apply startswith_spec in Hp as [rest Hp]. rewrite Hstr in Hp. change (lit "pool/" ++ rest) with (lit "pool" ++ [47] ++ rest) in Hp.
  destruct p as [pr [|c cs]]; cbn [pp_root pp_tail] in *; subst pr; [done|]. apply Forall_cons in Htail as [H1 H2].
  assert (Hcs : cs ≠ []).
  { intros ->. unfold rel in Hp. simpl in Hp. subst c. apply name_ok_spec in H1 as (_ & _ & _ & H1). apply H1. cbv. set_solver. }
  assert (c = lit "pool") as ->.
  { unfold rel in Hp. destruct cs as [|d cs]; [done|]. rewrite join_cons2 in Hp.
    assert (Hsp : split_on 47 (c ++ [47] ++ join [47] (d :: cs)) = split_on 47 (lit "pool" ++ [47] ++ rest)) by (by rewrite Hp).
    cbn [app] in Hsp. rewrite !split_on_app in Hsp; [by injection Hsp|cbv; set_solver|by apply name_ok_spec in H1 as (_ & _ & _ & ?)]. }
  exists cs. split; [done|]. split; [by constructor|]. split; [done|]. congruence.
Qed.

(** ** The lock *)

(** A path in the pool of the repository. *)
Definition pool_path (cs : list text) (filename : text) : Prop :=
  filename = rel (lit "pool" :: cs) ∧ cs ≠ [] ∧ names_ok (lit "pool" :: cs).

Record lock_ok (expected : dict pkey locked) : Prop := {
  lk_keys : dict_ok expected;
  lk_files : NoDup (l_filename <$> dvalues expected);
  lk_names : NoDup (l_local <$> dvalues expected);
  lk_pool : ∀ v, v ∈ dvalues expected → ∃ cs, pool_path cs (l_filename v);
}.

Lemma lock_record_ok `{U : Ucd} st package st' :
  lock_record st package = Ok st' →
  lock_ok (l_expected st) ∧ l_filenames st = reverse (l_filename <$> dvalues (l_expected st)) ∧
    l_names st = reverse (l_local <$> dvalues (l_expected st)) →
  lock_ok (l_expected st') ∧ l_filenames st' = reverse (l_filename <$> dvalues (l_expected st')) ∧
    l_names st' = reverse (l_local <$> dvalues (l_expected st')).
Proof.
  intros H ([K Fi N P] & Hf & Hn). unfold lock_record in H.
  destruct (split_on 124 package) as [|name [|version [|architecture [|filename [|size [|digest [|local [|]]]]]]]]; try done.
  apply bind_Ok_inv in H as (u & _ & H). cbv zeta in H. apply bind_Ok_inv in H as (p & Hp & H).
  apply safe_package_path_Ok in Hp as (cs & Hcs & Hok & -> & ->).
  apply bind_Ok_inv in H as (u1 & H1 & H). apply bind_Ok_inv in H as (u2 & H2 & H). apply bind_Ok_inv in H as (u3 & H3 & H).
  apply bind_Ok_inv in H as (n & _ & H). apply Ok_inj in H. subst st'. cbn [l_expected l_filenames l_names].
  apply raise_if_Ok in H1, H2, H3. unfold dmem in H1. apply bool_decide_eq_false in H1, H2, H3.
  rewrite Hf, elem_of_reverse in H2. rewrite Hn, elem_of_reverse in H3.
  assert (Hstr : pp_str {| pp_root := []; pp_tail := lit "pool" :: cs |} = rel (lit "pool" :: cs)).
  { unfold pp_str. simpl. rewrite bool_decide_false; [done|]. by destruct cs. }
  rewrite Hstr in *. rewrite dset_fresh by done. unfold dvalues in *. rewrite !fmap_app, !reverse_app. cbn [fmap list_fmap app].
  split; [|by rewrite Hf, Hn]. split.
  - unfold dict_ok, dkeys in *. rewrite fmap_app. apply NoDup_app. split; [done|]. split; [|apply NoDup_singleton]. set_solver.
  - unfold dvalues. rewrite !fmap_app. apply NoDup_app. split; [done|]. split; [|apply NoDup_singleton]. set_solver.
  - unfold dvalues. rewrite !fmap_app. apply NoDup_app. split; [done|]. split; [|apply NoDup_singleton]. set_solver.
  - intros v. unfold dvalues. rewrite fmap_app, elem_of_app. intros [Hv|Hv]; [by apply P|].
    apply list_elem_of_singleton in Hv as ->. by exists cs.
Qed.

Lemma locked_packages_ok `{U : Ucd} records expected : _locked_packages records = Ok expected → lock_ok expected.
Proof.
  unfold _locked_packages. intros H. apply bind_Ok_inv in H as (st & Hf & H). apply Ok_inj in H. subst expected.
  eapply (foldM_inv (λ st, lock_ok (l_expected st) ∧ l_filenames st = reverse (l_filename <$> dvalues (l_expected st)) ∧
    l_names st = reverse (l_local <$> dvalues (l_expected st)))) in Hf; [apply Hf| |].
  - intros st1 p st2 _ Hst Hp. by eapply lock_record_ok.
  - split; [|done]. split; [apply NoDup_nil_2..|]. intros v Hv. by apply elem_of_nil in Hv.
Qed.

(** ** Indexes *)

Definition index_key (ix : index) : text * text := let '(component, architecture, _, _, _) := ix in (component, architecture).
Definition index_relative (ix : index) : text := let '(_, _, relative, _, _) := ix in relative.
Definition index_digest (ix : index) : text := let '(_, _, _, digest, _) := ix in digest.
Definition index_file (ix : index) : text := let '(_, _, _, _, path) := ix in path.

Definition index_ok (codename : text) (ix : index) : Prop :=
  is_component (index_key ix).1 = true ∧ known_architecture (index_key ix).2 ∧
  index_relative ix = index_path codename (index_key ix).1 (index_key ix).2.

Lemma check_indexes_ok codename seen indexes seen' :
  foldM (check_index codename) seen indexes = Ok seen' →
  NoDup (index_key <$> indexes) ∧ (∀ k, k ∈ index_key <$> indexes → k ∉ seen) ∧ Forall (index_ok codename) indexes.
Proof.
  revert seen. induction indexes as [|ix indexes IH]; intros seen H; [split; [constructor|split; [set_solver|constructor]]|].
  cbn [foldM] in H. apply bind_Ok_inv in H as (seen1 & Hi & H). apply IH in H as (Hnd & Hdis & Hok).
  destruct ix as [[[[component architecture] relative] digest] path]. unfold check_index in Hi. res_inv.
  apply bool_decide_eq_true in H0, H1. apply bool_decide_eq_false in H2. rewrite fmap_cons. cbn [index_key]. split; [|split].
  - apply NoDup_cons. split; [|done]. intros Hin. apply (Hdis _ Hin). by left.
  - intros k [->|Hk]%elem_of_cons; [done|]. intros Hs. apply (Hdis _ Hk). by right.
  - constructor; [|done]. done.
Qed.

Lemma component_indexes_ok args indexes :
  _component_indexes args = Ok indexes → NoDup (index_key <$> indexes) ∧ Forall (index_ok (a_codename args)) indexes.
Proof.
  unfold _component_indexes. intros H. apply bind_Ok_inv in H as (u & _ & H). apply bind_Ok_inv in H as (more & _ & H).
  apply bind_Ok_inv in H as (seen & Hs & H). apply bind_Ok_inv in H as (u' & _ & H). apply Ok_inj in H. subst indexes.
  apply check_indexes_ok in Hs as (? & _ & ?). done.
Qed.

(** ** Metadata *)

(** The contents of an index describe the package [key] as [r]. *)
Definition describes `{Ucd} (data : bytes) (key : pkey) (r : pkg_record) : Prop :=
  ∃ t ps p size, utf8_decode data = Some t ∧ paragraphs t = Ok ps ∧ p ∈ ps ∧
    dget (lit "Package") p = Some key.1.1 ∧ dget (lit "Version") p = Some key.1.2 ∧ dget (lit "Architecture") p = Some key.2 ∧
    dget (lit "Filename") p = Some r.1.1 ∧ dget (lit "SHA256") p = Some r.2 ∧ dget (lit "Size") p = Some size ∧ py_int size = Some r.1.2.

Lemma metadata_paragraph_ok `{U : Ucd} ia expected actual p actual' :
  metadata_paragraph ia expected actual p = Ok actual' →
  ∀ key r, dget key actual' = Some r → dget key actual = Some r ∨
    (dget (lit "Package") p = Some key.1.1 ∧ dget (lit "Version") p = Some key.1.2 ∧ dget (lit "Architecture") p = Some key.2 ∧
     dget (lit "Filename") p = Some r.1.1 ∧ dget (lit "SHA256") p = Some r.2 ∧
     ∃ size, dget (lit "Size") p = Some size ∧ py_int size = Some r.1.2).
Proof.
  unfold metadata_paragraph. intros H key r Hr. destruct (dget (lit "Architecture") p) as [arch|] eqn:Ea; [|done].
  apply bind_Ok_inv in H as (u1 & _ & H). apply bind_Ok_inv in H as (u2 & _ & H). cbv zeta in H.
  destruct (dget (lit "Filename") p) as [filename|] eqn:Ef; [|done]. destruct (dget (lit "Size") p) as [size|] eqn:Es; [|done].
  destruct (dget (lit "SHA256") p) as [digest|] eqn:Ed; [|done]. apply bind_Ok_inv in H as (u3 & _ & H).
  apply bind_Ok_inv in H as (n & Hn & H). apply of_option_Ok in Hn.
  destruct (dget (lit "Package") p) as [name|] eqn:En; [|simpl in H; apply Ok_inj in H; subst; by left].
  destruct (dget (lit "Version") p) as [version|] eqn:Ev; [|simpl in H; apply Ok_inj in H; subst; by left].
  cbn [mbind option_bind] in H. apply bind_Ok_inv in H as (u4 & _ & H). apply Ok_inj in H. subst actual'.
  case_bool_decide; [|by left]. rewrite dget_dset in Hr. case_decide as Hk; [|by left]. simplify_eq. right. simpl. eauto 10.
Qed.

Lemma read_metadata_ok `{U : Ucd} indexes expected s actual s' :
  _read_package_metadata indexes expected s = (Ok actual, s') →
  s' = s ∧ ∀ key r, dget key actual = Some r →
    ∃ path arch data, (path, arch) ∈ indexes ∧ file_bytes s (pp_str path) = Ok data ∧ describes data key r.
Proof.
  intros H. eapply (fold_io_inv (λ _ a s1, s1 = s ∧ ∀ key r, dget key a = Some r →
    ∃ path arch data, (path, arch) ∈ indexes ∧ file_bytes s (pp_str path) = Ok data ∧ describes data key r)) in H; [done|done|].
  intros done [path arch] rest a s1 a' s2 Hin [-> Ha] Hx. apply io_bind_inv in Hx as (data & s3 & Hd & Hx). io_step Hd. subst s3.
  apply io_lift_inv in Hx as [Hx ->]. split; [done|]. apply bind_Ok_inv in Hx as (t & Ht & Hx). apply of_option_Ok in Ht.
  apply bind_Ok_inv in Hx as (ps & Hps & Hx). intros key r Hr.
  enough (dget key a = Some r ∨ describes data key r) as [Hk|Hk]; [by apply Ha|exists path, arch, data; set_solver|].
  revert key r Hr. refine (foldM_inv (λ b, ∀ key r, dget key b = Some r → dget key a = Some r ∨ describes data key r) _ _ _ _ _ _ Hx); [|by left].
  intros b p b' Hp IH Hb key r Hr. destruct (metadata_paragraph_ok _ _ _ _ _ Hb _ _ Hr) as [Hk|Hk]; [by apply IH|].
  right. destruct Hk as (? & ? & ? & ? & ? & size & ? & ?). exists t, ps, p, size. done.
Qed.

Lemma verify_metadata_ok `{U : Ucd} indexes expected s u s' :
  _verify_package_metadata indexes expected s = (Ok u, s') →
  s' = s ∧ ∀ key v, dget key expected = Some v →
    ∃ path arch data, (path, arch) ∈ indexes ∧ file_bytes s (pp_str path) = Ok data ∧ describes data key (record_of v).
Proof.
  unfold _verify_package_metadata. intros H. apply io_bind_inv in H as (actual & s1 & Ha & H).
  apply read_metadata_ok in Ha as [-> Ha]. apply io_bind_inv in H as (u1 & s2 & Hk & H). io_step Hk. subst s2.
  eapply (for_each_checks _ (λ key _, ∀ v, dget key expected = Some v → dget key actual = Some (record_of v))) in H as [-> Hall].
  - split; [done|]. intros key v Hv. apply Ha. rewrite Forall_forall in Hall. apply Hall; [|done].
    rewrite stable_sort_perm. apply dget_Some_elem in Hv. by apply (list_elem_of_fmap_2 fst) in Hv.
  - intros key s1 s2 _ Hx. apply io_bind_inv in Hx as (a & s3 & [H1%of_option_Ok ->]%io_lift_inv & Hx).
    apply io_bind_inv in Hx as (e & s4 & [H2%of_option_Ok ->]%io_lift_inv & Hx). apply io_raise_when_inv in Hx as [Hx ->]. split; [done|].
    intros v Hv. simplify_eq. apply negb_false_iff, bool_decide_eq_true in Hx. by subst a.
Qed.

(** ** Staging *)

Definition verified_name : text := lit "verified-release".

(** The files that are read before the repository is complete. *)
Definition snapshot_inputs (args : snapshot_args) (indexes : list index) : list text :=
  [a_inrelease args; a_release args; a_release_gpg args] ++ (index_file <$> indexes).

Lemma index_input args indexes ix : ix ∈ indexes → index_file ix ∈ snapshot_inputs args indexes.
Proof. intros Hx. apply elem_of_app. right. by apply list_elem_of_fmap_2. Qed.

Lemma release_inputs args indexes :
  a_inrelease args ∈ snapshot_inputs args indexes ∧ a_release args ∈ snapshot_inputs args indexes ∧
  a_release_gpg args ∈ snapshot_inputs args indexes.
Proof. split; [by left|]. split; [by right; left|by right; right; left]. Qed.

(** What is assumed of the sandboxed sqv: in the output directory it leaves at most the file it was asked to write, and
    the inputs, which are bound read-only, stay as they are. *)
Definition writes_only_output (run : list text → dict text text → io (Z * bytes)) (root : list text) (inputs : list text) : Prop :=
  ∀ argv env s r s' F, run argv env s = (Ok r, s') → repo root F s → dom F ⊆ {[ [verified_name] ]} →
    (∃ F', repo root F' s' ∧ dom F' ⊆ {[ [verified_name] ]}) ∧
    (∀ p d, p ∈ inputs → file_bytes s p = Ok d → file_bytes s' p = Ok d).

Section signature.
Context (run : list text → dict text text → io (Z * bytes)) (environ : dict text text) (root : list text).

Lemma run_sqv_inv launcher binds arguments environment scratch description s u s' :
  _run_sqv run launcher binds arguments environment scratch description s = (Ok u, s') →
  ∃ argv env err, run argv env s = (Ok (0, err), s').
Proof.
  unfold _run_sqv. cbv zeta. intros H. apply io_bind_inv in H as ([code err] & s1 & Hrun & H).
  apply io_raise_when_inv in H as [Hc <-]. apply negb_false_iff, Z.eqb_eq in Hc. subst code. eauto.
Qed.

Lemma verify_signature_ok launcher inrelease release gpg output scratch inputs F s u s' :
  writes_only_output run root inputs → repo root F s → dom F ⊆ {[ [verified_name] ]} →
  _verify_signature run environ launcher inrelease release gpg output scratch s = (Ok u, s') →
  (∃ F', repo root F' s' ∧ dom F' ⊆ {[ [verified_name] ]}) ∧ (∀ p d, p ∈ inputs → file_bytes s p = Ok d → file_bytes s' p = Ok d).
Proof.
  intros Hw Hr Hd H. unfold _verify_signature, io_abspath, gets in H.
  do 3 (apply io_bind_inv in H as (? & ? & [= <- <-] & H)). apply io_bind_inv in H as (u1 & s1 & H1 & H).
  do 2 (apply io_bind_inv in H as (? & ? & [= <- <-] & H)).
  apply run_sqv_inv in H1 as (argv1 & env1 & err1 & H1), H as (argv2 & env2 & err2 & H2).
  destruct (Hw _ _ _ _ _ _ H1 Hr Hd) as [(F1 & Hr1 & Hd1) Hi1]. destruct (Hw _ _ _ _ _ _ H2 Hr1 Hd1) as [HF2 Hi2].
  split; [done|]. intros p d Hp Hf. by apply Hi2, Hi1.
Qed.
End signature.

Section stage.
Context `{U : Ucd} (xz : bytes → bytes * option exn).
Context (root : list text) (Hroot : names_ok root) (Hrne : root ≠ []).

Lemma verify_digest_ok path expected description s u s' :
  _verify_digest path expected description s = (Ok u, s') → s' = s ∧ ∃ d, file_bytes s path = Ok d ∧ hex (sha256 d) = expected.
Proof.
  unfold _verify_digest. intros H. apply io_bind_inv in H as (d & s1 & [Hd <-]%read_file_inv & H).
  apply io_raise_when_inv in H as [H <-]. apply negb_false_iff, bool_decide_eq_true in H. eauto.
Qed.

Lemma verify_package_ok path digest size description s u s' :
  _verify_package path digest size description s = (Ok u, s') →
  s' = s ∧ ∃ d, file_bytes s path = Ok d ∧ hex (sha256 d) = digest ∧ len d = size.
Proof.
  unfold _verify_package. intros H. apply io_bind_inv in H as (u1 & s1 & Hd & H). apply verify_digest_ok in Hd as (-> & d & Hd & Hx).
  apply io_bind_inv in H as (d' & s2 & [Hd' <-]%read_file_inv & H). apply io_raise_when_inv in H as [H <-].
  apply negb_false_iff, Z.eqb_eq in H. split; [done|]. exists d. split; [done|]. split; [done|]. congruence.
Qed.

(** Writing a new file below the root, with its parents. *)
Lemma place_ok F s ds c s1 d s2 s3 u1 u2 u3 m :
  names_ok (ds ++ [c]) → repo root F s → path_makedirs (below root ds) s = (Ok u1, s1) →
  write_file (abs (root ++ ds ++ [c])) d s1 = (Ok u2, s2) → os_chmod (abs (root ++ ds ++ [c])) m s2 = (Ok u3, s3) →
  grows s s1 ∧ repo root (<[ds ++ [c] := d]> F) s3 ∧ (F !! (ds ++ [c]) = None → grows s s3).
Proof.
  intros Hn Hr H1 H2 H3. assert (Hds : names_ok ds) by (by apply names_ok_app in Hn as [? _]). destruct u1.
  destruct (path_mkdir_parents_below root Hroot F _ _ _ _ _ Hrne Hds Hr H1) as (Hr1 & Hg1 & Hd1). specialize (Hd1 eq_refl).
  destruct (write_below root Hroot F s1 ds c d _ _ Hn Hd1 Hr1 H2) as [Hr2 Hg2].
  assert (Hd2 : dirs s2 (root ++ ds)).
  { destruct (repo_all _ _ _ Hr2 (ds ++ [c]) d) as [i Hi]; [apply lookup_insert_eq|]. rewrite app_assoc in Hi.
    eapply wf_dirs; [apply (repo_wf _ _ _ Hr2)|exact Hi]. }
  destruct (chmod_below root Hroot _ s2 ds c m _ _ Hn Hd2 Hr2 (mk_is_Some _ _ (lookup_insert_eq _ _ _)) H3) as [Hr3 Hg3].
  split; [done|]. split; [done|]. intros Hf. etrans; [exact Hg1|]. etrans; [by apply Hg2|done].
Qed.

Lemma copy_ok F s src ds c u s' :
  names_ok (ds ++ [c]) → repo root F s → _copy src (below root (ds ++ [c])) s = (Ok u, s') →
  ∃ d, (∀ d', file_bytes s src = Ok d' → d = d') ∧ repo root (<[ds ++ [c] := d]> F) s' ∧ (F !! (ds ++ [c]) = None → grows s s').
Proof.
  intros Hn Hr H. unfold _copy in H. rewrite pp_parent_below, pp_str_below in H.
  apply io_bind_inv in H as (u1 & s1 & H1 & H). apply io_bind_inv in H as (u2 & s2 & H2 & H).
  apply copyfile_inv in H2 as (d & Hd & H2). destruct (place_ok F s ds c s1 d s2 s' _ _ _ _ Hn Hr H1 H2 H) as (Hg & Hr' & Hg').
  exists d. split; [|done]. intros d' Hd'. apply (file_bytes_grows s s1) in Hd'; [|done]. congruence.
Qed.

Lemma decompress_ok F s src ds c u s' :
  names_ok (ds ++ [c]) → repo root F s → _decompress xz src (below root (ds ++ [c])) s = (Ok u, s') →
  ∃ d, (∀ d', file_bytes s src = Ok d' → d = d') ∧ (xz d).2 = None ∧ repo root (<[ds ++ [c] := (xz d).1]> F) s' ∧
    (F !! (ds ++ [c]) = None → grows s s').
Proof.
  intros Hn Hr H. unfold _decompress in H. rewrite pp_parent_below, pp_str_below in H.
  apply io_bind_inv in H as (u1 & s1 & H1 & H). apply io_bind_inv in H as (d & s2 & [Hd <-]%read_file_inv & H).
  destruct (xz d) as [data damage] eqn:Ex. apply io_bind_inv in H as (u2 & s2 & H2 & H).
  apply io_bind_inv in H as (u3 & s3 & H3 & H). destruct damage; [done|]. apply io_ret_inv in H3 as [_ ->].
  destruct (place_ok F s ds c s1 data s3 s' _ _ _ _ Hn Hr H1 H2 H) as (Hg & Hr' & Hg').
  exists d. rewrite Ex. split; [|done]. intros d' Hd'. apply (file_bytes_grows s s1) in Hd'; [|done]. congruence.
Qed.

(** *** Release files *)

Definition release_name (codename name : text) : list text := [lit "dists"; codename; name].
Definition staged_of (codename : text) (ix : index) : list text := staged_index codename (index_key ix).1 (index_key ix).2.

Lemma staged_of_inj codename ix ix' :
  known_architecture (index_key ix).2 → known_architecture (index_key ix').2 →
  staged_of codename ix = staged_of codename ix' → index_key ix = index_key ix'.
Proof.
  intros H1 H2 Heq. unfold staged_of, staged_index, index_dir in Heq. cbn [app] in Heq. injection Heq as Hc Ha.
  destruct (index_key ix), (index_key ix'). simpl in *. by f_equal.
Qed.

(** The staged release files: what the lock names, and the decompressed indexes. *)
Definition release_staged (args : snapshot_args) (indexes : list index) (s : fs) (F : gmap (list text) bytes) : Prop :=
  Forall (λ '(name, src), ∃ d, file_bytes s src = Ok d ∧ F !! release_name (a_codename args) name = Some d)
    [(lit "InRelease", a_inrelease args); (lit "Release", a_release args); (lit "Release.gpg", a_release_gpg args)] ∧
  Forall (λ ix, ∃ d, file_bytes s (index_file ix) = Ok d ∧ (xz d).2 = None ∧
    F !! staged_of (a_codename args) ix = Some (xz d).1) indexes.

Definition release_only (args : snapshot_args) (indexes : list index) (cs : list text) : Prop :=
  cs ∈ release_name (a_codename args) <$> [lit "InRelease"; lit "Release"; lit "Release.gpg"] ∨
  ∃ ix, ix ∈ indexes ∧ cs = staged_of (a_codename args) ix.

Lemma pure_name t : name_ok t = true → PurePosixPath t = {| pp_root := []; pp_tail := [t] |}.
Proof. intros Ht. apply (PurePosixPath_rel [t]); [done|]. by constructor. Qed.

(** A release file at a name that is still free. *)
Lemma copy_release args name F s src d u s' :
  is_component (a_codename args) = true → name_ok name = true → repo root F s → file_bytes s src = Ok d →
  F !! release_name (a_codename args) name = None →
  _copy src (pp_div (pp_div (pp_div (below root []) (PurePosixPath (lit "dists"))) (PurePosixPath (a_codename args))) (PurePosixPath name)) s = (Ok u, s') →
  repo root (<[release_name (a_codename args) name := d]> F) s' ∧ grows s s'.
Proof.
  intros Hc%component_name Hn Hr Hd Hf H. rewrite (pure_name (lit "dists")), !(pure_name _ Hc), (pure_name name Hn), !pp_div_below in H by done.
  change (([] ++ [lit "dists"]) ++ [a_codename args]) with ([lit "dists"] ++ [a_codename args]) in H.
  apply (copy_ok F) in H as (d' & Hd' & Hr' & Hg); [|by repeat constructor|done].
  rewrite (Hd' _ Hd) in Hr'. split; [done|]. by apply Hg.
Qed.

(** The decompressed indexes, one after the other. *)
Lemma stage_indexes_ok args indexes F s staged s' :
  is_component (a_codename args) = true → NoDup (index_key <$> indexes) → Forall (index_ok (a_codename args)) indexes →
  (∀ ix, ix ∈ indexes → ∃ d, file_bytes s (index_file ix) = Ok d) → repo root F s →
  (∀ ix, ix ∈ indexes → F !! staged_of (a_codename args) ix = None) →
  fold_io (λ staged_indexes '(_, architecture, relative, _, path),
    let staged := pp_div (below root []) (PurePosixPath (take (length relative - 3) relative)) in
    _decompress xz path staged;; mret (staged_indexes ++ [(staged, architecture)])) [] indexes s = (Ok staged, s') →
  ∃ F', repo root F' s' ∧
    Forall (λ ix, ∃ d, file_bytes s (index_file ix) = Ok d ∧ (xz d).2 = None ∧ F' !! staged_of (a_codename args) ix = Some (xz d).1) indexes ∧
    (∀ cs, F' !! cs = F !! cs ∨ cs ∈ staged_of (a_codename args) <$> indexes) ∧
    (∀ cs, cs ∉ staged_of (a_codename args) <$> indexes → F' !! cs = F !! cs) ∧
    staged = (λ ix, (below root (staged_of (a_codename args) ix), (index_key ix).2)) <$> indexes.
Proof.
  intros Hc Hnd Hok Hin Hr Hfree H. set (P := staged_of (a_codename args)) in *.
  eapply (fold_io_inv (λ done st s1, grows s s1 ∧ ∃ F', repo root F' s1 ∧
    Forall (λ ix, ∃ d, file_bytes s (index_file ix) = Ok d ∧ (xz d).2 = None ∧ F' !! P ix = Some (xz d).1) done ∧
    (∀ cs, cs ∉ P <$> done → F' !! cs = F !! cs) ∧
    st = (λ ix, (below root (P ix), (index_key ix).2)) <$> done)) in H.
  - destruct H as (_ & F' & H1 & H2 & H3 & H4). exists F'. split; [done|]. split; [done|]. split; [|done].
    intros cs. destruct (decide (cs ∈ P <$> indexes)) as [?|Hn]; [by right|left; by apply H3].
  - split; [reflexivity|]. exists F. split; [done|]. split; [constructor|]. done.
  - clear H s' staged. intros done ix rest st s1 st' s2 Hl (Hg & F' & Hr1 & Hdone & Hsame & ->) H.
    destruct ix as [[[[component architecture] relative] digest] path] eqn:Eix. rewrite <- Eix in *.
    assert (Hix : ix ∈ indexes) by (rewrite Hl; set_solver). rewrite Forall_forall in Hok. pose proof (Hok _ Hix) as (Hk & Ha & Hrel).
    assert (Harch : ∀ x, x ∈ done → known_architecture (index_key x).2) by (intros x Hx; apply Hok; rewrite Hl; set_solver).
    assert (HP : P ix = index_dir (a_codename args) component architecture ++ [lit "Packages"]) by (by subst ix).
    assert (Hnew : P ix ∉ P <$> done).
    { intros (y & Hy & Hyd)%list_elem_of_fmap. apply staged_of_inj in Hy; [|done|by apply Harch].
      rewrite Hl, fmap_app in Hnd. apply NoDup_app in Hnd as (_ & Hdis & _). apply (Hdis (index_key y)).
      - by apply list_elem_of_fmap_2.
      - rewrite <- Hy, fmap_cons. by left. }
    cbv zeta in H. apply io_bind_inv in H as (u & s3 & Hd & H). apply io_ret_inv in H as [<- <-].
    assert (Hnames : names_ok (P ix)) by (by apply staged_index_names).
    assert (Hpath : pp_div (below root []) (PurePosixPath (take (length relative - 3) relative)) = below root (P ix)).
    { subst ix. simpl in Hrel. rewrite Hrel, staged_index_rel. rewrite PurePosixPath_rel; [|done|done]. by rewrite pp_div_below. }
    rewrite Hpath in *. rewrite HP in Hd. apply (decompress_ok F') in Hd as (d & Hd & Hx & Hr2 & Hg2); [|by rewrite <- HP|done].
    rewrite <- HP in *. destruct (Hin _ Hix) as [d0 Hd0].
    assert (Hd1 : d = d0). { apply Hd. assert (index_file ix = path) as <- by (by subst ix). by eapply file_bytes_grows. }
    subst d0. split; [etrans; [exact Hg|]; apply Hg2; rewrite Hsame by done; by apply Hfree|].
    exists (<[P ix := (xz d).1]> F'). split; [done|]. split; [|split].
    + apply Forall_app. split; [|constructor; [|done]].
      * rewrite Forall_forall in *. intros x Hxd. destruct (Hdone x Hxd) as (dx & ? & ? & ?). exists dx. split; [done|]. split; [done|].
        rewrite lookup_insert_ne; [done|]. intros E. apply Hnew. rewrite E. by apply list_elem_of_fmap_2.
      * exists d. by rewrite lookup_insert_eq.
    + intros cs Hcs. rewrite fmap_app in Hcs. rewrite lookup_insert_ne by set_solver. apply Hsame. set_solver.
    + rewrite fmap_app. cbn [fmap list_fmap]. by subst ix.
Qed.

Lemma stage_release_files_ok args indexes F s staged s' :
  is_component (a_codename args) = true → NoDup (index_key <$> indexes) → Forall (index_ok (a_codename args)) indexes →
  (∀ p, p ∈ snapshot_inputs args indexes → ∃ d, file_bytes s p = Ok d) → repo root F s → dom F ⊆ {[ [verified_name] ]} →
  _stage_release_files xz args indexes (below root []) s = (Ok staged, s') →
  ∃ F', repo root F' s' ∧ release_staged args indexes s F' ∧
    (∀ cs, F' !! cs = F !! cs ∨ release_only args indexes cs) ∧
    staged = (λ ix, (below root (staged_of (a_codename args) ix), (index_key ix).2)) <$> indexes.
Proof.
  intros Hc Hnd Hok Hin Hr Hdom H. unfold _stage_release_files in H.
  assert (Hfree : ∀ cs, cs ≠ [verified_name] → F !! cs = None).
  { intros cs Hcs. apply not_elem_of_dom. set_solver. }
  apply io_bind_inv in H as (u1 & s1 & H1 & H). apply io_bind_inv in H as (u2 & s2 & H2 & H). apply io_bind_inv in H as (u3 & s3 & H3 & H).
  destruct (release_inputs args indexes) as (I1 & I2 & I3).
  destruct (Hin _ I1) as [d1 E1], (Hin _ I2) as [d2 E2], (Hin _ I3) as [d3 E3].
  destruct (copy_release args (lit "InRelease") F s _ d1 u1 s1 Hc eq_refl Hr E1 (Hfree (release_name (a_codename args) (lit "InRelease")) ltac:(done)) H1) as [R1 G1].
  assert (N2 : <[release_name (a_codename args) (lit "InRelease") := d1]> F !! release_name (a_codename args) (lit "Release") = None).
  { rewrite lookup_insert_ne by done. by apply Hfree. }
  destruct (copy_release args (lit "Release") _ s1 _ d2 u2 s2 Hc eq_refl R1 (file_bytes_grows _ _ _ _ G1 E2) N2 H2) as [R2 G2].
  assert (G12 : grows s s2) by (etrans; [exact G1|exact G2]).
  assert (N3 : <[release_name (a_codename args) (lit "Release") := d2]> (<[release_name (a_codename args) (lit "InRelease") := d1]> F)
    !! release_name (a_codename args) (lit "Release.gpg") = None).
  { rewrite !lookup_insert_ne by done. by apply Hfree. }
  destruct (copy_release args (lit "Release.gpg") _ s2 _ d3 u3 s3 Hc eq_refl R2 (file_bytes_grows _ _ _ _ G12 E3) N3 H3) as [R3 G3].
  assert (G : grows s s3) by (etrans; [exact G12|exact G3]).
  eapply (stage_indexes_ok args _ _ s3 staged s' Hc Hnd Hok) in H as (F' & R & Hi & Hor & Hsame & ->); [| |exact R3|].
  - exists F'. split; [done|]. split; [split|split; [|done]].
    + assert (Hkeep : ∀ name d, <[release_name (a_codename args) (lit "Release.gpg") := d3]>
          (<[release_name (a_codename args) (lit "Release") := d2]> (<[release_name (a_codename args) (lit "InRelease") := d1]> F))
          !! release_name (a_codename args) name = Some d → F' !! release_name (a_codename args) name = Some d).
      { intros name d <-. apply Hsame. intros (ix & E & _)%list_elem_of_fmap. done. }
      repeat constructor; eexists; (split; [eassumption|]); apply Hkeep.
      * do 2 rewrite lookup_insert_ne by done. apply lookup_insert_eq.
      * rewrite lookup_insert_ne by done. apply lookup_insert_eq.
      * apply lookup_insert_eq.
    + rewrite Forall_forall in *. intros ix Hix. destruct (Hi ix Hix) as (d & Hd & Hx & HF).
      destruct (Hin (index_file ix)) as [d' Hd']; [by apply index_input|].
      apply (file_bytes_grows s s3) in Hd' as Hd''; [|done]. assert (d' = d) as -> by congruence. exists d. split; [assumption|]. split; assumption.
    + intros cs. destruct (Hor cs) as [E|Hcs].
      * destruct (decide (cs ∈ release_name (a_codename args) <$> [lit "InRelease"; lit "Release"; lit "Release.gpg"])) as [?|Hn]; [by right; left|].
        left. rewrite E. cbn [fmap list_fmap] in Hn. rewrite !not_elem_of_cons in Hn. destruct Hn as (? & ? & ? & _).
        by rewrite !lookup_insert_ne by (intros <-; done).
      * right. right. apply list_elem_of_fmap in Hcs as (ix & -> & Hix). eauto.
  - intros ix Hix. destruct (Hin (index_file ix)) as [d Hd]; [by apply index_input|]. exists d. by eapply file_bytes_grows.
  - intros ix _. rewrite !lookup_insert_ne by done. by apply Hfree.
Qed.
(** *** Packages *)

Lemma NoDup_fmap_eq {A B} (f : A → B) l x y : NoDup (f <$> l) → x ∈ l → y ∈ l → f x = f y → x = y.
Proof.
  intros Hnd (i & Hi)%list_elem_of_lookup (j & Hj)%list_elem_of_lookup Hf.
  assert (i = j) as ->; [|congruence].
  eapply (NoDup_lookup _ i j (f x) Hnd); rewrite list_lookup_fmap; [by rewrite Hi|by rewrite Hj, Hf].
Qed.

Definition by_name (expected : dict pkey locked) : dict text locked := foldl (λ d '(_, value), dset (l_local value) value d) [] expected.

Lemma by_name_spec expected :
  (∀ n v, dget n (by_name expected) = Some v → v ∈ dvalues expected ∧ l_local v = n) ∧
  (∀ v, v ∈ dvalues expected → l_local v ∈ dkeys (by_name expected)).
Proof.
  unfold by_name. set (f := λ d '(_, _), _).
  assert (Hg : ∀ l acc, (∀ n v, dget n (foldl f acc l) = Some v → dget n acc = Some v ∨ (v ∈ dvalues l ∧ l_local v = n)) ∧
    (∀ n, n ∈ dkeys acc ∨ n ∈ l_local <$> dvalues l → n ∈ dkeys (foldl f acc l))).
  { induction l as [|[k w] l IH]; intros acc; [split; [by left|intros n [?|Hn]; [done|by apply elem_of_nil in Hn]]|].
    cbn [foldl]. change (f acc (k, w)) with (dset (l_local w) w acc). destruct (IH (dset (l_local w) w acc)) as [H1 H2]. split.
    - intros n v Hv. destruct (H1 n v Hv) as [Hd|[Hd ?]]; [|right; split; [by right|done]].
      rewrite dget_dset in Hd. case_decide; [|by left]. simplify_eq. right. split; [by left|done].
    - intros n Hn. apply H2. rewrite dkeys_dset. unfold dvalues in *. cbn [fmap list_fmap snd] in Hn.
      destruct (decide (l_local w ∈ dkeys acc)); set_solver. }
  destruct (Hg expected []) as [H1 H2]. split.
  - intros n v Hv. by destruct (H1 n v Hv).
  - intros v Hv. apply H2. right. by apply list_elem_of_fmap_2.
Qed.

(** The package [v] of the lock is in the repository. *)
Definition package_staged (F : gmap (list text) bytes) (v : locked) : Prop :=
  ∃ cs d, pool_path cs (l_filename v) ∧ F !! (lit "pool" :: cs) = Some d ∧ hex (sha256 d) = l_digest v ∧ len d = l_size v.

Lemma stage_package_ok expected F s s1 package description v relative u1 u s' :
  lock_ok expected → v ∈ dvalues expected → repo root F s →
  _safe_package_path (l_filename v) = Ok relative →
  _verify_package package (l_digest v) (l_size v) description s = (Ok u1, s1) →
  _copy package (pp_div (below root []) relative) s1 = (Ok u, s') →
  ∃ F', repo root F' s' ∧ package_staged F' v ∧ (∀ w, w ∈ dvalues expected → package_staged F w → package_staged F' w) ∧
    (∀ cs, F' !! cs = F !! cs ∨ (head cs = Some (lit "pool") ∧ rel cs = l_filename v)).
Proof.
  intros Hl Hv Hr Hs H1 H. apply safe_package_path_Ok in Hs as (cs & Hne & Hn & -> & Hf).
  apply verify_package_ok in H1 as (-> & d & Hd & Hx & Hz).
  rewrite pp_div_below in H. cbn [app] in H. destruct (exists_last Hne) as (ds & c & ->). rewrite app_comm_cons in H, Hn.
  apply (copy_ok F) in H as (d' & Hd' & Hr' & _); [|done|done]. rewrite (Hd' _ Hd) in Hr'. rewrite <- app_comm_cons in Hr', Hn.
  eexists. split; [exact Hr'|]. assert (Hvs : package_staged (<[lit "pool" :: ds ++ [c] := d]> F) v).
  { exists (ds ++ [c]), d. split; [done|]. by rewrite lookup_insert_eq. }
  split; [done|]. split.
  - intros w Hw (ws & dw & Hp & HF & Hwx & Hwz). destruct (decide (ws = ds ++ [c])) as [->|Hws].
    + assert (w = v) as ->; [|done]. eapply (NoDup_fmap_eq l_filename); [apply (lk_files _ Hl)|done|done|].
      destruct Hp as [-> _]. done.
    + exists ws, dw. split; [done|]. rewrite lookup_insert_ne; [done|]. congruence.
  - intros ks. destruct (decide (ks = lit "pool" :: ds ++ [c])) as [->|Hks]; [by right|left]. by rewrite lookup_insert_ne.
Qed.

Lemma stage_packages_ok args expected F s u s' :
  lock_ok expected → repo root F s → _stage_packages args expected (below root []) s = (Ok u, s') →
  ∃ F', repo root F' s' ∧ (∀ v, v ∈ dvalues expected → package_staged F' v) ∧
    (∀ cs, F' !! cs = F !! cs ∨ (head cs = Some (lit "pool") ∧ rel cs ∈ l_filename <$> dvalues expected)).
Proof.
  intros Hl Hr H. unfold _stage_packages in H. fold (by_name expected) in H. cbv zeta in H.
  destruct (by_name_spec expected) as [Hby Hnames]. apply io_bind_inv in H as (u1 & s1 & H1 & H). apply io_raise_when_inv in H1 as [H1 <-].
  apply negb_false_iff, andb_true_iff in H1 as [H1 _]. rewrite forallb_forall in H1.
  apply io_bind_inv in H as (u2 & s2 & H2 & H). apply io_raise_when_inv in H as [H <-]. apply negb_false_iff, Nat.eqb_eq in H.
  eapply (for_each_inv (λ done s1, ∃ F', repo root F' s1 ∧
    (∀ n v, n ∈ done.*2 → dget n (by_name expected) = Some v → package_staged F' v) ∧
    (∀ cs, F' !! cs = F !! cs ∨ (head cs = Some (lit "pool") ∧ rel cs ∈ l_filename <$> dvalues expected)))) in H2.
  - destruct H2 as (F' & Hr' & Hd & Hs). exists F'. split; [done|]. split; [|done]. intros v Hv.
    pose proof (Hnames v Hv) as Hk. destruct (dget (l_local v) (by_name expected)) as [w|] eqn:Ew; [|by apply dget_None in Ew].
    destruct (Hby _ _ Ew) as [Hw Hlw]. assert (w = v) as -> by (eapply (NoDup_fmap_eq l_local); [apply (lk_names _ Hl)|done..]).
    apply (Hd (l_local v) v); [|done]. rewrite snd_zip by lia. apply list_elem_of_In, H1 in Hk. by apply bool_decide_eq_true in Hk.
  - exists F. split; [done|]. split; [intros n v Hn; by apply elem_of_nil in Hn|by left].
  - intros done [package name] rest s3 s4 _ (F1 & Hr1 & Hd1 & Hs1) Hx.
    apply io_bind_inv in Hx as (v & s5 & [Hv%of_option_Ok <-]%io_lift_inv & Hx). destruct (Hby _ _ Hv) as [Hvin Hvn].
    apply io_bind_inv in Hx as (u3 & s6 & Hp & Hx). apply io_bind_inv in Hx as (relative & s7 & [Hrel <-]%io_lift_inv & Hx).
    destruct (stage_package_ok expected F1 s3 s6 package _ v relative _ _ s4 Hl Hvin Hr1 Hrel Hp Hx) as (F2 & Hr2 & Hv2 & Hk2 & Hs2).
    exists F2. split; [done|]. split.
    + intros n w Hn Hw. rewrite fmap_app, elem_of_app in Hn. destruct Hn as [Hn|Hn].
      * destruct (Hby _ _ Hw). by apply Hk2; [|eapply Hd1].
      * apply list_elem_of_singleton in Hn as ->. cbn [snd] in Hw. by simplify_eq.
    + intros cs. destruct (Hs2 cs) as [->|[Hh Hf]]; [apply Hs1|]. right. split; [done|]. rewrite Hf. by apply list_elem_of_fmap_2.
Qed.
(** *** Verification *)

Lemma verify_inputs_ok args indexes s u s' :
  _verify_input_digests args indexes s = (Ok u, s') → s' = s ∧
  Forall (λ '(src, digest), ∃ d, file_bytes s src = Ok d ∧ hex (sha256 d) = digest)
    ([(a_inrelease args, a_inrelease_sha256 args); (a_release args, a_release_sha256 args); (a_release_gpg args, a_release_gpg_sha256 args)]
     ++ ((λ ix, (index_file ix, index_digest ix)) <$> indexes)).
Proof.
  unfold _verify_input_digests. intros H. apply io_bind_inv in H as (u1 & s1 & H1 & H). apply verify_digest_ok in H1 as (-> & d1 & H1).
  apply io_bind_inv in H as (u2 & s2 & H2 & H). apply verify_digest_ok in H2 as (-> & d2 & H2).
  apply io_bind_inv in H as (u3 & s3 & H3 & H). apply verify_digest_ok in H3 as (-> & d3 & H3).
  apply (for_each_checks _ (λ ix s, ∃ d, file_bytes s (index_file ix) = Ok d ∧ hex (sha256 d) = index_digest ix)) in H as [-> H].
  - split; [done|]. repeat (constructor; [by eauto|]). by apply Forall_fmap.
  - intros [[[[component architecture] relative] digest] path] s1 s2 _ Hx. apply verify_digest_ok in Hx. exact Hx.
Qed.

Lemma verify_release_ok args indexes s locked u s' :
  file_bytes s (a_release args) = Ok locked →
  _verify_authenticated_release (pp_div (below root []) (PurePosixPath verified_name)) (a_release args) indexes s = (Ok u, s') →
  s' = s ∧ ∃ payload, file_bytes s (abs (root ++ [verified_name])) = Ok payload ∧ _authenticated_release_matches payload locked = true ∧
    Forall (λ ix, ∀ d, file_bytes s (index_file ix) = Ok d →
      _release_hash payload (index_relative ix) (len d) (index_digest ix) = Ok tt) indexes.
Proof.
  intros Hl H. unfold _verify_authenticated_release in H. rewrite (pure_name verified_name), pp_div_below, pp_str_below in H by done.
  apply io_bind_inv in H as (payload & s1 & [Hp <-]%read_file_inv & H). apply io_bind_inv in H as (l & s2 & [Hl' <-]%read_file_inv & H).
  apply file_bytes_pure in Hl. assert (l = locked) as -> by congruence.
  apply io_bind_inv in H as (u1 & s3 & [Hm <-]%io_raise_when_inv & H). apply negb_false_iff in Hm.
  apply (for_each_checks _ (λ ix s, ∀ d, file_bytes s (index_file ix) = Ok d →
      _release_hash payload (index_relative ix) (len d) (index_digest ix) = Ok tt)) in H as [-> H]; [eauto|].
  intros [[[[component architecture] relative] digest] path] s1 s2 _ Hx.
  apply io_bind_inv in Hx as (d & s3 & [Hd <-]%read_file_inv & Hx). apply io_lift_inv in Hx as [Hx <-]. split; [done|].
  intros d' Hd'%file_bytes_pure. cbn [index_file] in Hd'. assert (d' = d) as -> by congruence. done.
Qed.

Lemma metadata_repo F p : keeps (repo root F) (_set_deterministic_metadata p).
Proof.
  unfold _set_deterministic_metadata. apply keeps_bind; [apply keeps_gets|]. intros records. apply keeps_for_each.
  intros [[directory dirnames] names] _. cbv zeta.
  assert (Hset : ∀ mode name, keeps (repo root F)
    (link ← os_islink (os_join directory name); io_when (negb link) (os_chmod (os_join directory name) mode))).
  { intros mode name. apply keeps_bind; [apply keeps_gets|]. intros link. apply keeps_when. intros _. by apply chmod_repo. }
  apply keeps_bind; [apply keeps_for_each; intros; apply Hset|]. intros _.
  apply keeps_bind; [apply keeps_for_each; intros; apply Hset|]. intros _. by apply chmod_repo.
Qed.
End stage.

(** ** The repository *)

(** What a staged repository promises for the lock [args], with the inputs as they are in [s]. *)
Record authentic_repository `{Ucd} (xz : bytes → bytes * option exn) (args : snapshot_args) (s : fs) (indexes : list index)
    (expected : dict pkey locked) (payload : bytes) (F : gmap (list text) bytes) : Prop := {
  (** the signed release file is the locked one, up to a final newline *)
  ar_release : ∃ d, file_bytes s (a_release args) = Ok d ∧ (payload = d ∨ payload ++ [x0a] = d);
  (** the release files are the locked ones *)
  ar_files : Forall (λ '(name, src, digest), ∃ d, file_bytes s src = Ok d ∧ hex (sha256 d) = digest ∧
      F !! release_name (a_codename args) name = Some d)
    [(lit "InRelease", a_inrelease args, a_inrelease_sha256 args); (lit "Release", a_release args, a_release_sha256 args);
     (lit "Release.gpg", a_release_gpg args, a_release_gpg_sha256 args)];
  (** an index is the locked one, and the signed release file lists it with its digest and size *)
  ar_indexes : Forall (λ ix, ∃ d, file_bytes s (index_file ix) = Ok d ∧ hex (sha256 d) = index_digest ix ∧
      _release_hash payload (index_relative ix) (len d) (index_digest ix) = Ok tt ∧
      xz d = (default [] (F !! staged_of (a_codename args) ix), None) ∧ is_Some (F !! staged_of (a_codename args) ix)) indexes;
  (** a package has the digest and size of the lock, and an index describes it so *)
  ar_packages : ∀ key v, dget key expected = Some v → package_staged F v ∧
      ∃ ix data, ix ∈ indexes ∧ F !! staged_of (a_codename args) ix = Some data ∧ describes data key (record_of v);
  (** there is nothing else *)
  ar_only : ∀ cs, is_Some (F !! cs) → release_only args indexes cs ∨ rel cs ∈ l_filename <$> dvalues expected;
}.

Lemma dget_dvalues {K V} `{EqDecision K} (k : K) (v : V) d : dget k d = Some v → v ∈ dvalues d.
Proof. intros H%dget_Some_elem. by apply (list_elem_of_fmap_2 snd) in H. Qed.

(** An input with the digest that the lock gives, as it was at the start and after the signature check. *)
Definition locked_input (s s1 : fs) (src digest : text) : Prop :=
  ∃ d, file_bytes s src = Ok d ∧ file_bytes s1 src = Ok d ∧ hex (sha256 d) = digest.

(** The inputs after the signature check. *)
Lemma locked_inputs args indexes s s1 :
  Forall (λ '(src, digest), ∃ d, file_bytes s src = Ok d ∧ hex (sha256 d) = digest)
    ([(a_inrelease args, a_inrelease_sha256 args); (a_release args, a_release_sha256 args); (a_release_gpg args, a_release_gpg_sha256 args)]
     ++ ((λ ix, (index_file ix, index_digest ix)) <$> indexes)) →
  (∀ p d, p ∈ snapshot_inputs args indexes → file_bytes s p = Ok d → file_bytes s1 p = Ok d) →
  locked_input s s1 (a_inrelease args) (a_inrelease_sha256 args) ∧ locked_input s s1 (a_release args) (a_release_sha256 args) ∧
  locked_input s s1 (a_release_gpg args) (a_release_gpg_sha256 args) ∧
  Forall (λ ix, locked_input s s1 (index_file ix) (index_digest ix)) indexes.
Proof.
  intros Hv Hin. rewrite Forall_app, !Forall_cons, Forall_fmap in Hv. destruct Hv as [(H1 & H2 & H3 & _) Hidx].
  assert (Hl : ∀ src digest, src ∈ snapshot_inputs args indexes → (∃ d, file_bytes s src = Ok d ∧ hex (sha256 d) = digest) →
    locked_input s s1 src digest).
  { intros src digest Hsrc (d & Hd & Hx). exists d. split; [done|]. split; [by apply Hin|done]. }
  destruct (release_inputs args indexes) as (I1 & I2 & I3). split; [|split; [|split]]; [by apply Hl..|].
  rewrite Forall_forall in *. intros ix Hix. apply Hl; [by apply index_input|by apply Hidx].
Qed.

Lemma inputs_present args indexes s s1 p :
  locked_input s s1 (a_inrelease args) (a_inrelease_sha256 args) → locked_input s s1 (a_release args) (a_release_sha256 args) →
  locked_input s s1 (a_release_gpg args) (a_release_gpg_sha256 args) →
  Forall (λ ix, locked_input s s1 (index_file ix) (index_digest ix)) indexes →
  p ∈ snapshot_inputs args indexes → ∃ d, file_bytes s1 p = Ok d.
Proof.
  intros (d1 & _ & ? & _) (d2 & _ & ? & _) (d3 & _ & ? & _) H4 Hp. unfold snapshot_inputs in Hp.
  repeat (apply elem_of_cons in Hp as [->|Hp]; [by eauto|]). apply list_elem_of_fmap in Hp as (ix & -> & Hx).
  rewrite Forall_forall in H4. destruct (H4 ix Hx) as (d & _ & ? & _). eauto.
Qed.

Section assemble.
Context `{U : Ucd} (xz : bytes → bytes * option exn) (args : snapshot_args) (s s1 : fs) (indexes : list index)
  (expected : dict pkey locked) (payload : bytes) (F1 F2 F3 : gmap (list text) bytes).
Context (Hc : is_component (a_codename args) = true) (Hok : Forall (index_ok (a_codename args)) indexes).
Context (Hin : locked_input s s1 (a_inrelease args) (a_inrelease_sha256 args))
  (Hrel : locked_input s s1 (a_release args) (a_release_sha256 args))
  (Hgpg : locked_input s s1 (a_release_gpg args) (a_release_gpg_sha256 args))
  (Hidx : Forall (λ ix, locked_input s s1 (index_file ix) (index_digest ix)) indexes).
Context (Hm : ∀ d, file_bytes s1 (a_release args) = Ok d → _authenticated_release_matches payload d = true)
  (Hh : Forall (λ ix, ∀ d, file_bytes s1 (index_file ix) = Ok d →
          _release_hash payload (index_relative ix) (len d) (index_digest ix) = Ok tt) indexes).
Context (Hd1 : dom F1 ⊆ {[ [verified_name] ]}) (H2 : release_staged xz args indexes s1 F2)
  (Ho2 : ∀ cs, F2 !! cs = F1 !! cs ∨ release_only args indexes cs)
  (H3 : ∀ v, v ∈ dvalues expected → package_staged F3 v)
  (Ho3 : ∀ cs, F3 !! cs = F2 !! cs ∨ (head cs = Some (lit "pool") ∧ rel cs ∈ l_filename <$> dvalues expected))
  (Hmeta : ∀ key v, dget key expected = Some v →
     ∃ ix data, ix ∈ indexes ∧ F2 !! staged_of (a_codename args) ix = Some data ∧ describes data key (record_of v)).

Let F := delete [verified_name] F3.

Lemma final_lookup cs : head cs ≠ Some (lit "pool") → cs ≠ [verified_name] → F !! cs = F2 !! cs.
Proof. intros Hp Hv. unfold F. rewrite lookup_delete_ne by done. by destruct (Ho3 cs) as [?|[? _]]. Qed.

Lemma final_file name src digest :
  locked_input s s1 src digest → (∃ d, file_bytes s1 src = Ok d ∧ F2 !! release_name (a_codename args) name = Some d) →
  ∃ d, file_bytes s src = Ok d ∧ hex (sha256 d) = digest ∧ F !! release_name (a_codename args) name = Some d.
Proof.
  intros (d & Hs & Hs1 & Hx) (d' & Hs1' & HF). assert (d' = d) as -> by congruence. exists d. split; [done|]. split; [done|].
  by rewrite final_lookup.
Qed.

Lemma final_authentic : authentic_repository xz args s indexes expected payload F.
Proof.
  destruct H2 as [Hf2 Hi2]. rewrite !Forall_cons in Hf2. destruct Hf2 as (E1 & E2 & E3 & _). split.
  - destruct Hrel as (d & Hs & Hs1 & _). exists d. split; [done|]. apply Hm, orb_true_iff in Hs1.
    by destruct Hs1 as [?%bool_decide_eq_true|?%bool_decide_eq_true]; auto.
  - repeat constructor; by apply final_file.
  - rewrite Forall_forall in *. intros ix Hx. destruct (Hidx ix Hx) as (d & Hs & Hs1 & Hdg), (Hi2 ix Hx) as (d' & Hs1' & Hn & HF).
    assert (d' = d) as -> by congruence. exists d. split; [done|]. split; [done|]. split; [by apply Hh|].
    rewrite final_lookup, HF by done. split; [|by eauto]. simpl. destruct (xz d). simpl in *. by subst.
  - intros key v Hv. split.
    + destruct (H3 v (dget_dvalues _ _ _ Hv)) as (cs & d & Hp & HF & ?). exists cs, d. split; [done|].
      unfold F. by rewrite lookup_delete_ne.
    + destruct (Hmeta key v Hv) as (ix & data & Hx & HF & Hdesc). exists ix, data. split; [done|]. by rewrite final_lookup.
  - intros cs [d [Hv Hcs]%lookup_delete_Some]. destruct (Ho3 cs) as [E|[_ ?]]; [|by right]. left.
    destruct (Ho2 cs) as [E'|?]; [|done]. exfalso. apply Hv. rewrite E, E' in Hcs. apply elem_of_dom_2 in Hcs. set_solver.
Qed.
End assemble.

(** C5: When [stage] returns for an output directory that was empty, or held at most an old verified release file, and the
    launcher writes nothing but its output file, the output directory is an authentic repository for the lock: it holds exactly the release
    files, decompressed indexes and packages; the locked Release is what the signature check of InRelease returned; every
    index has its locked digest and is listed with that digest and its size in the signed release file; and every package
    has the digest and size that the lock and a listed index agree on, under the path they agree on. *)
Theorem stage_authentic `{U : Ucd} run xz environ root args indexes F0 s u s' :
  names_ok root → root ≠ [] → a_output args = abs root →
  _component_indexes args = Ok indexes → writes_only_output run root (snapshot_inputs args indexes) →
  repo root F0 s → dom F0 ⊆ {[ [verified_name] ]} →
  stage run xz environ args s = (Ok u, s') →
  ∃ expected payload s1 F, _locked_packages (a_package_records args) = Ok expected ∧
    _verify_signature run environ (a_launcher args) (a_inrelease args) (a_release args) (a_release_gpg args) (a_output args)
      (a_scratch args) s = (Ok tt, s1) ∧ file_bytes s1 (abs (root ++ [verified_name])) = Ok payload ∧
    repo root F s' ∧ authentic_repository xz args s indexes expected payload F.
Proof.
  intros Hroot Hrne Hout Hix Hw Hr Hd H. unfold stage in H. rewrite Hout in *. rewrite PurePosixPath_abs in H by done.
  replace {| pp_root := [47]; pp_tail := root |} with (below root []) in H by (unfold below; by rewrite app_nil_r). fold verified_name in H.
  apply io_bind_inv in H as (u0 & s0 & [Hc <-]%io_raise_when_inv & H). apply negb_false_iff in Hc.
  apply io_bind_inv in H as (indexes' & s0 & [Hix' <-]%io_lift_inv & H). assert (indexes' = indexes) as -> by congruence.
  destruct (component_indexes_ok _ _ Hix) as [Hnd Hok]. apply io_bind_inv in H as (u1 & s0 & Hv & H). apply verify_inputs_ok in Hv as [-> Hv].
  apply io_bind_inv in H as ([] & s1 & Hsig & H).
  destruct (verify_signature_ok run environ root _ _ _ _ _ _ _ F0 s _ s1 Hw Hr Hd Hsig) as [(F1 & Hr1 & Hd1) Hin].
  destruct (locked_inputs args indexes s s1 Hv Hin) as (L1 & L2 & L3 & L4). pose proof L2 as (d2 & _ & B2 & _).
  apply io_bind_inv in H as (u2 & s2 & Hpay & H). destruct (verify_release_ok root args indexes s1 _ _ _ B2 Hpay) as (-> & payload & Hp & Hm & Hh).
  apply io_bind_inv in H as (staged & s3 & Hst & H).
  destruct (stage_release_files_ok xz root Hroot Hrne args indexes F1 s1 staged s3 Hc Hnd Hok) as (F2 & Hr2 & Hi2 & Ho2 & ->); try done.
  { intros p. by apply (inputs_present args indexes s s1). }
  apply io_bind_inv in H as (expected & s4 & [Hexp <-]%io_lift_inv & H). pose proof (locked_packages_ok _ _ Hexp) as Hlk.
  apply io_bind_inv in H as (u4 & s4 & Hmeta & H). apply verify_metadata_ok in Hmeta as [-> Hmeta].
  apply io_bind_inv in H as (u5 & s5 & Hpk & H). destruct (stage_packages_ok root Hroot Hrne args expected F2 s3 _ s5 Hlk Hr2 Hpk) as (F3 & Hr3 & Hp3 & Ho3).
  apply io_bind_inv in H as (u6 & s6 & Hun & H). rewrite (pure_name verified_name), pp_div_below, pp_str_below in Hun by done.
  assert (HF1 : F1 !! [verified_name] = Some payload) by (by eapply repo_lookup_inv; [|repeat constructor|..]).
  assert (HF3 : F3 !! [verified_name] = Some payload).
  { destruct (Ho3 [verified_name]) as [->|[? _]]; [|done].
    destruct (Ho2 [verified_name]) as [->|[Hx|(ix & _ & Hx)]]; [done| |done]. by apply list_elem_of_fmap in Hx as (? & Hx & _). }
  assert (Hvn : names_ok ([] ++ [verified_name])) by (by apply Forall_singleton).
  apply (unlink_below root Hroot F3 s5 [] verified_name u6 s6 Hvn Hr3 (mk_is_Some _ _ HF3)) in Hun. cbn [app] in Hun.
  pose proof (metadata_repo root (delete [verified_name] F3) (pp_str (below root [])) s6 Hun) as Hmd. rewrite H in Hmd.
  exists expected, payload, s1, (delete [verified_name] F3). split; [done|]. split; [done|]. split; [done|]. split; [done|].
  eapply (final_authentic xz args s s1 indexes expected payload F1 F2 F3); try done; [intros d Hd'; congruence|].
  intros key v Hk. destruct (Hmeta key v Hk) as (path & arch & data & Hx & Hb & Hdesc).
  apply list_elem_of_fmap in Hx as (ix & [= -> ->] & Hx). exists ix, data. split; [done|]. split; [|done].
  rewrite pp_str_below in Hb. eapply (repo_lookup_inv root); [done| |done|exact Hr2|exact Hb].
  rewrite Forall_forall in Hok. destruct (Hok ix Hx) as (? & ? & _). by apply staged_index_names.
Qed.

Lemma demo_run_writes inputs : writes_only_output demo_run demo_root inputs.
Proof.
  intros argv env s r s' F H Hr Hd. unfold demo_run in H. case_bool_decide.
  2: { apply io_ret_inv in H as [_ <-]. split; [by exists F|done]. }
  assert (Hroot : names_ok demo_root) by (by apply Forall_singleton).
  assert (Hn : names_ok ([] ++ [verified_name])) by (by apply Forall_singleton).
  assert (Hdirs : dirs s demo_root) by apply (repo_root _ _ _ Hr).
  apply io_bind_inv in H as (present & s1 & Hp & H). fold verified_name in *.
  rewrite lexists_entry in Hp; [|by apply names_ok_app|done]. simplify_eq. destruct (tree s1 !! _) eqn:Et; [done|].
  apply io_bind_inv in H as (u & s2 & Hw & H). apply io_ret_inv in H as [_ <-].
  destruct (write_below demo_root Hroot F s1 [] verified_name demo_release u s2 Hn Hdirs Hr Hw) as [Hr1 Hg].
  assert (Hfree : F !! [verified_name] = None) by (by eapply repo_free).
  split; [|intros p d _; apply file_bytes_grows; by apply Hg]. exists (<[[verified_name] := demo_release]> F). split; [done|]. set_solver.
Qed.

Lemma demo_stage_returns : demo_stage.1 = Ok tt.
Proof. vm_compute. reflexivity. Qed.

Lemma stage_authentic_witness :
  demo_stage.1 = Ok tt ∧
  ∃ expected payload F, repo demo_root F demo_stage.2 ∧
    @authentic_repository ascii_ucd demo_xz demo_args demo_snapshot_fs
      [(lit "main", lit "amd64", a_packages_path demo_args, a_packages_xz_sha256 demo_args, a_packages_xz demo_args);
       (lit "main", lit "all", a_packages_all_path demo_args, a_packages_all_xz_sha256 demo_args, a_packages_all_xz demo_args)]
      expected payload F.
Proof.
  split; [apply demo_stage_returns|].
  destruct (@stage_authentic ascii_ucd demo_run demo_xz [] demo_root demo_args
    [(lit "main", lit "amd64", a_packages_path demo_args, a_packages_xz_sha256 demo_args, a_packages_xz demo_args);
     (lit "main", lit "all", a_packages_all_path demo_args, a_packages_all_xz_sha256 demo_args, a_packages_all_xz demo_args)]
    ∅ demo_snapshot_fs tt demo_stage.2) as (expected & payload & s1 & F & _ & _ & _ & Hr & Ha).
  - by apply Forall_singleton.
  - done.
  - vm_compute. reflexivity.
  - vm_compute. reflexivity.
  - apply demo_run_writes.
  - apply empty_output_repo; [done|vm_compute; reflexivity].
  - set_solver.
  - fold demo_stage. rewrite (surjective_pairing demo_stage) at 1. by rewrite demo_stage_returns.
  - by exists expected, payload, F.
Defined.
