(* ===== verification/StageInputs.v ===== *)
(** * Staging of inputs

    src/mkosi/private/stage_inputs.py: declared files and trees are mapped to paths of a staged tree. The manifest of the
    whole tree is built and checked first, reading the file system only; then the output is written. Trees are walked by
    their physical paths: [Path.resolve] of a path that exists is the path of the node that it leads to. *)
From S2P Require Import Prelude Bytes PyText Collections PosixPath FileTree RepoTree Json.

(** ** Queries of [pathlib] *)

Definition is_symlink (s : fs) (p : pure_path) : bool := match locate false s (pp_str p) with Ok (At _ (Sym _)) => true | _ => false end.
Definition is_file (s : fs) (p : pure_path) : bool := match locate true s (pp_str p) with Ok (At _ (Reg _)) => true | _ => false end.
Definition is_dir (s : fs) (p : pure_path) : bool := match locate true s (pp_str p) with Ok (At _ (Dir _)) => true | _ => false end.
Definition path_exists (s : fs) (p : pure_path) : bool := is_at (locate true s (pp_str p)).

(** [path.resolve()] of a path that exists: the physical path. *)
Definition path_resolve (s : fs) (p : pure_path) : option (list text) :=
  match locate true s (pp_str p) with Ok (At q _) => Some q | _ => None end.

(** [os.readlink(p)]. *)
Definition os_readlink (s : fs) (p : text) : result text :=
  match locate false s p with Ok (At _ (Sym t)) => Ok t | _ => Err OSError end.

(** [p / name] for a name of the program. *)
Definition pp_join (p : pure_path) (t : text) : pure_path := pp_div p (PurePosixPath t).

(** ** Paths *)

Definition _normalise_relative (path : text) : result text :=
  let p := PurePosixPath path in
  let parts := pp_parts p in
  raise_if (is_nil parts || pp_is_absolute p
            || existsb (λ part, bool_decide (part = []) || bool_decide (part = dot) || bool_decide (part = dotdot)) parts)
    (ValueError "invalid staged path: {}" [AText path]);;
  mret (join [47] parts).

(** ** Entries *)

Inductive entry_kind := KDirectory | KFile | KSymlink.

#[export] Instance entry_kind_eq_dec : EqDecision entry_kind.
Proof. solve_decision. Defined.

(** (owner, kind, source, link target). *)
Record entry := { e_owner : text; e_kind : entry_kind; e_source : text; e_link : option text }.

#[export] Instance entry_eq_dec : EqDecision entry.
Proof. solve_decision. Defined.

(** The link at the physical path [p] in a tree at the physical path [root]. *)
Definition _check_link (s : fs) (p root : list text) : result text :=
  link_target ← os_readlink s (abs p);
  raise_if (bool_decide (link_target = []) || existsb (λ c, c =? 92) link_target || startswith link_target [47]
            || endswith link_target [47] || negb (bool_decide (normpath link_target = link_target)))
    (ValueError "symlink target is not canonical POSIX relative syntax: {}" [AText (abs p)]);;
  let resolved := path_resolve s (pp_join {| pp_root := [47]; pp_tail := parent p |} link_target) in
  require (match resolved with Some q => bool_decide (root `prefix_of` q) | None => false end)
    (ValueError "symlink escapes or is dangling in declared tree: {}" [AText (abs p)]);;
  mret link_target.

(** The directory entry at the physical path [p]. *)
Definition _tree_item_entry (s : fs) (p source : list text) (owner : text) (generated : bool) : result entry :=
  let made kind src link := {| e_owner := owner; e_kind := kind; e_source := src; e_link := link |} in
  match tree s !! p with
  | Some (Sym t) =>
      if generated && startswith t [47] then
        match locate true s (abs p) with
        | Ok (At q (Reg _)) => mret (made KFile (abs q) None)
        | _ => Err (ValueError "generated tree transport link is not a file: {}" [AText (abs p)])
        end
      else
        link ← _check_link s p source;
        mret (made KSymlink (abs p) (Some link))
  | Some (Dir _) => mret (made KDirectory (abs p) None)
  | Some (Reg _) => mret (made KFile (abs p) None)
  | _ => Err (ValueError "unsupported entry in declared tree: {}" [AText (abs p)])
  end.

(** ["/".join(part for part in parts if part)]. *)
Definition join_parts (parts : list text) : text := join [47] (List.filter (λ p, negb (bool_decide (p = []))) parts).

Section tree.
Context (s : fs) (source : list text) (destination owner : text) (generated : bool).

(** [visit(source_dir, relative)]; the directory is at the physical path [p]. *)
Fixpoint visit_tree (fuel : nat) (entries : dict text entry) (p : list text) (relative : text) : result (dict text entry) :=
  match fuel with
  | O => Err OutOfFuel
  | S fuel =>
      foldM (λ entries name,
        let child := join_parts [destination; relative; name] in
        e ← _tree_item_entry s (p ++ [name]) source owner generated;
        let entries := dset child e entries in
        if bool_decide (e_kind e = KDirectory) then visit_tree fuel entries (p ++ [name]) (join_parts [relative; name])
        else mret entries) entries (sorted_texts (entries_of s p))
  end.
End tree.

Definition _tree_entries (s : fs) (source : pure_path) (destination owner : text) (generated : bool) : result (dict text entry) :=
  match locate true s (pp_str source) with
  | Ok (At p (Dir _)) =>
      let destination := rstrip_by is_slash destination in
      let entries :=
        if bool_decide (destination = []) then []
        else [(destination, {| e_owner := owner; e_kind := KDirectory; e_source := abs p; e_link := None |})] in
      visit_tree s p destination owner generated (walk_fuel s) entries p []
  | Ok (At p _) => Err (ValueError "{} is not a directory" [AText (abs p)])
  | _ => Err (ValueError "{} is not a directory" [AText (pp_str source)])
  end.

Definition _TREE_ROLES : list text := [lit "tree"; lit "generated-tree"].

(** ** Overlapping sources *)

Definition _check_source_overlap (s : fs) (canonical_sources : dict (list text) pure_path) (source : pure_path)
    : result (dict (list text) pure_path) :=
  canonical ← of_option OSError (path_resolve s source);
  match List.find (λ prior : list text * pure_path,
      bool_decide (canonical = prior.1) || bool_decide (prior.1 `prefix_of` canonical) || bool_decide (canonical `prefix_of` prior.1))
      canonical_sources with
  | Some prior =>
      Err (ValueError "source alias '{}' and '{}' overlap at '{}'" [AText (pp_str prior.2); AText (pp_str source); AText (abs canonical)])
  | None => mret (dset canonical source canonical_sources)
  end.

(** ** Source files behind the links of Bazel *)

Definition _MAX_BAZEL_LINKS : nat := 8.
Definition _REPOSITORY_MARKERS : list text := lit <$> ["MODULE.bazel"; "REPO.bazel"; "WORKSPACE"; "WORKSPACE.bazel"]%string.

Definition _is_repository_root (s : fs) (directory : pure_path) : bool :=
  existsb (λ name, is_file s (pp_join directory name)) _REPOSITORY_MARKERS.

Definition marker (name : text) : text := lit "@" ++ name ++ lit ".marker".

(** Called for a directory that has a marker file, so that it resolves. *)
Definition _is_bazel_tree (s : fs) (directory : pure_path) : bool :=
  existsb (λ name, is_symlink s (pp_join directory name)) _REPOSITORY_MARKERS ||
  match path_resolve s directory with
  | Some q =>
      bool_decide (last (parent q) = Some (lit "external")) &&
      is_file s {| pp_root := [47]; pp_tail := parent q ++ [marker (default [] (last q))] |}
  | None => false
  end.

Definition _is_source_checkout (s : fs) (directory : pure_path) : bool :=
  _is_repository_root s directory && negb (_is_bazel_tree s directory).

Definition _mirrors (s : fs) (repository directory : pure_path) : bool :=
  match locate true s (pp_str directory) with
  | Ok (At d (Dir _)) =>
      let names := entries_of s d in
      negb (is_nil names) &&
      forallb (λ name,
        match os_readlink s (pp_str (pp_join repository name)) with
        | Ok t => bool_decide (t = os_join (pp_str directory) name)
        | Err _ => false
        end) names
  | _ => false
  end.

Definition hop := option (pure_path * nat).

Definition _bazel_hop (s : fs) (link : pure_path) (parts : list text) (index repository_depth : nat) : result hop :=
  target ← os_readlink s (pp_str link);
  if negb (startswith target [47]) then mret None
  else
    let prefix := join [47] (take (S index) parts) in
    let root := PurePosixPath (take (length target - length prefix) target) in
    accepted ← (if negb (bool_decide (target = 47 :: prefix)) && endswith target (47 :: prefix) then
                  output_base ← (if bool_decide (head parts = Some (lit "external")) then
                                   name ← of_option IndexError (parts !! 1%nat);
                                   mret (is_file s (pp_join (pp_join root (lit "external")) (marker name)))
                                 else mret false);
                  mret (_is_repository_root s root || output_base)
                else mret false);
    if (accepted : bool) then mret (Some (root, O))
    else
      let directory := pp_parent (PurePosixPath target) in
      let top_level := (index =? repository_depth)%nat && bool_decide (Some (pp_name (PurePosixPath target)) = parts !! index) in
      mret (if top_level && (_is_repository_root s directory || _mirrors s (pp_parent link) directory) then Some (directory, index)
            else None).

(** The rest of the loop from the part at [index]. *)
Fixpoint walk_parts (s : fs) (parts : list text) (package_depth : Z) (source : text) (repository_depth : nat)
    (index : nat) (in_checkout : bool) (current : pure_path) (rest : list text) : result hop :=
  match rest with
  | [] => mret None
  | part :: rest =>
      let current := pp_join current part in
      h ← (if is_symlink s current then
             h ← (if in_checkout then mret None else _bazel_hop s current parts index repository_depth);
             match h with
             | Some h => mret (Some h)
             | None =>
                 raise_if (package_depth <=? Z.of_nat index)
                   (ValueError "source file {} is a symlink or lies below one at {}; Bazel would copy what it points to, so {}"
                      [AText source; AText (join [47] (take (S index) parts))]);;
                 mret None
             end
           else mret None);
      match h with
      | Some h => mret (Some h)
      | None =>
          let in_checkout := if (S index =? repository_depth)%nat then _is_source_checkout s current else in_checkout in
          walk_parts s parts package_depth source repository_depth (S index) in_checkout current rest
      end
  end.

Definition _walk_source_file (s : fs) (root : pure_path) (parts : list text) (package_depth : Z) (source : text) : result hop :=
  first ← of_option IndexError (head parts);
  let repository_depth := if bool_decide (first = lit "external") then 2%nat else 0%nat in
  let in_checkout := (repository_depth =? 0)%nat && _is_source_checkout s root in
  walk_parts s parts package_depth source repository_depth 0 in_checkout root parts.

(** The rounds that are left of [for _ in range(_MAX_BAZEL_LINKS)]. *)
Fixpoint follow_links (s : fs) (source : text) (parts : list text) (package_depth : Z) (rounds : nat) (root : pure_path) (consumed : nat)
    : result unit :=
  match rounds with
  | O => Err (ValueError "source file {} is behind too many links" [AText source])
  | S rounds =>
      h ← _walk_source_file s root (drop consumed parts) (package_depth - Z.of_nat consumed) source;
      match h with
      | None => mret tt
      | Some (root, n) => follow_links s source parts package_depth rounds root (consumed + n)
      end
  end.

Definition _check_source_file (s : fs) (source package : text) : result unit :=
  raise_if (negb (bool_decide (package = [])) && negb (startswith source (package ++ [47])))
    (ValueError "source file {} is not below its package {}" [AText source; AText package]);;
  let package_depth := if bool_decide (package = []) then 0 else len (split_on 47 package) in
  follow_links s source (split_on 47 source) package_depth _MAX_BAZEL_LINKS (PurePosixPath dot) 0.

(** ** Mappings *)

Definition _mapping_entries (s : fs) (source : pure_path) (destination owner role : text) : result (dict text entry) :=
  let tree_role := bool_decide (role ∈ _TREE_ROLES) in
  let file_role := bool_decide (role ∈ [lit "file"; lit "source-file"]) in
  raise_if (tree_role && negb (is_dir s source)) (ValueError "source-tree mapping must be a directory: {}" [AText (pp_str source)]);;
  raise_if (bool_decide (role = lit "source-file") && is_dir s source)
    (ValueError "source file mapping {} is a directory; {}" [AText (pp_str source)]);;
  raise_if (file_role && negb (is_file s source)) (ValueError "file mapping must be a regular file: {}" [AText (pp_str source)]);;
  if tree_role then _tree_entries s source destination owner (bool_decide (role = lit "generated-tree"))
  else
    require file_role (ValueError "unknown mapping role: {}" [AText role]);;
    raise_if (bool_decide (destination = [])) (ValueError "a file mapping requires a destination" []);;
    mret [(destination, {| e_owner := owner; e_kind := KFile; e_source := pp_str source; e_link := None |})].

Definition prefix_collision (destination owner : text) (item : text * entry) : bool :=
  let '(prior_path, prior) := item in
  if bool_decide (e_owner prior = owner) || bool_decide (destination = []) || bool_decide (prior_path = []) then false
  else if startswith destination (prior_path ++ [47]) && bool_decide (e_kind prior = KDirectory) && endswith (e_owner prior) (lit " -> .") then false
  else bool_decide (destination = prior_path) || startswith destination (prior_path ++ [47]) || startswith prior_path (destination ++ [47]).

Definition _check_prefix_collisions (entries : dict text entry) (destination owner : text) : result unit :=
  match List.find (prefix_collision destination owner) entries with
  | Some (prior_path, _) => Err (ValueError "prefix staged collision between '{}' and '{}'" [AText destination; AText prior_path])
  | None => mret tt
  end.

(** [entries], [canonical_sources] and [shared_owners]. *)
Record staging := {
  st_entries : dict text entry;
  st_sources : dict (list text) pure_path;
  st_shared : dict text (list text);
}.

Definition set_add (x : text) (l : list text) : list text := if bool_decide (x ∈ l) then l else l ++ [x].

Definition add_entry (merge : bool) (owner : text) (st : staging) (item : text * entry) : result staging :=
  let '(path, e) := item in
  let add := {| st_entries := dset path e (st_entries st); st_sources := st_sources st; st_shared := st_shared st |} in
  match dget path (st_entries st) with
  | None => mret add
  | Some prior =>
      let merged := merge && bool_decide (e_kind prior = e_kind e) && bool_decide (e_kind e = KDirectory) in
      raise_if (negb (bool_decide (e_owner prior = owner)) && negb merged) (ValueError "exact staged collision at '{}'" [AText path]);;
      mret (if merged then
              {| st_entries := st_entries st; st_sources := st_sources st;
                 st_shared := dset path (set_add owner (default [e_owner prior] (dget path (st_shared st)))) (st_shared st) |}
            else add)
  end.

Definition _add_mapping (s : fs) (merge : bool) (st : staging) (mapping : text * text * text) : result staging :=
  let '(source_string, destination_string, role) := mapping in
  let source := PurePosixPath source_string in
  require (path_exists s source) (ValueError "declared source does not exist: {}" [AText (pp_str source)]);;
  sources ← (if merge then mret (st_sources st) else _check_source_overlap s (st_sources st) source);
  destination ← (if bool_decide (destination_string = dot) then mret [] else _normalise_relative destination_string);
  let owner := pp_str source ++ lit " -> " ++ (if bool_decide (destination = []) then dot else destination) in
  items ← _mapping_entries s source destination owner role;
  st ← foldM (add_entry merge owner) {| st_entries := st_entries st; st_sources := sources; st_shared := st_shared st |} items;
  (if merge then mret tt else _check_prefix_collisions (st_entries st) destination owner);;
  mret st.

(** ** The layout *)

Definition _check_staged_symlink (entries : dict text entry) (path : text) (e : entry) (shared_owners : dict text (list text)) : result unit :=
  link ← of_option TypeError (e_link e);
  let target := pp_div (pp_parent (PurePosixPath path)) (PurePosixPath link) in
  let normalised := PurePosixPath (normpath (pp_str target)) in
  raise_if (pp_is_absolute normalised || bool_decide (dotdot ∈ pp_parts normalised))
    (ValueError "staged symlink escapes output root: {}" [AText path]);;
  let target_path := join [47] (pp_parts normalised) in
  target_entry ← of_option (ValueError "staged symlink is dangling at '{}'" [AText path]) (dget target_path entries);
  raise_if (negb (bool_decide (e_owner target_entry = e_owner e))
            && negb (bool_decide (e_owner e ∈ default [] (dget target_path shared_owners))))
    (ValueError "staged symlink aliases another mapping at '{}'" [AText path]).

(** The paths that follow [path] in the order, up to the first that is not below it. *)
Fixpoint next_children (path : text) (following : list text) : list text :=
  match following with
  | [] => []
  | other :: following => if startswith other (path ++ [47]) then other :: next_children path following else []
  end.

Fixpoint check_paths (entries : dict text entry) (shared_owners : dict text (list text)) (paths : list text) : result unit :=
  match paths with
  | [] => mret tt
  | path :: following =>
      e ← of_option KeyError (dget path entries);
      raise_if (negb (is_nil (next_children path following)) && negb (bool_decide (e_kind e = KDirectory)))
        (ValueError "file/dir staged collision at '{}'" [AText path]);;
      (if bool_decide (e_kind e = KSymlink) then _check_staged_symlink entries path e shared_owners else mret tt);;
      check_paths entries shared_owners following
  end.

Definition _check_layout (entries : dict text entry) (shared_owners : dict text (list text)) : result unit :=
  check_paths entries shared_owners (sorted_texts (dkeys entries)).

Definition _manifest (s : fs) (mappings : list (text * text * text)) (merge : bool) : result (dict text entry) :=
  st ← foldM (_add_mapping s merge) {| st_entries := []; st_sources := []; st_shared := [] |} mappings;
  _check_layout (st_entries st) (st_shared st);;
  mret (st_entries st).

(** ** Writing *)

Definition joinpath (p : pure_path) (parts : list text) : pure_path := foldl pp_join p parts.

(** [sorted(entries.items())]: the paths are distinct. *)
Definition sorted_entries (entries : dict text entry) : list (text * entry) := stable_sort (λ a b, negb (text_leb b.1 a.1)) entries.

(** The order of paths: that of their components. *)
Fixpoint parts_lt (a b : list text) : bool :=
  match a, b with
  | _, [] => false
  | [], _ :: _ => true
  | x :: a, y :: b => if bool_decide (x = y) then parts_lt a b else negb (text_leb y x)
  end.

Definition staged_directories (output : pure_path) (entries : dict text entry) : list pure_path :=
  remove_dups (output :: (entries ≫= λ '(path, e),
    let parts := split_on 47 path in
    (λ i, joinpath output (take i parts)) <$>
      List.filter (λ i, (i <? length parts)%nat || bool_decide (e_kind e = KDirectory)) (seq 1 (length parts)))).

Definition file_mode (executable_paths : list text) (path : text) : Z := if bool_decide (path ∈ executable_paths) then 493 else 420.

Definition stage_entry (output : pure_path) (executable_paths : list text) (item : text * entry) : io unit :=
  let '(path, e) := item in
  let target := joinpath output (split_on 47 path) in
  match e_kind e with
  | KSymlink =>
      path_makedirs (pp_parent target);;
      link ← lift (of_option TypeError (e_link e));
      os_symlink link (pp_str target)
  | KFile =>
      path_makedirs (pp_parent target);;
      copyfile (e_source e) (pp_str target);;
      os_chmod (pp_str target) (file_mode executable_paths path)
  | KDirectory => mret tt
  end.

(** Timestamps are not part of the tree. *)
Definition _copy_manifest (output : pure_path) (entries : dict text entry) (executable_paths : list text) : io unit :=
  for_each (sorted_entries entries) (λ '(path, e),
    io_when (bool_decide (e_kind e = KDirectory)) (path_makedirs (joinpath output (split_on 47 path))));;
  for_each (sorted_entries entries) (stage_entry output executable_paths);;
  for_each (stable_sort (λ a b, parts_lt (pp_parts b) (pp_parts a)) (staged_directories output entries)) (λ target, os_chmod (pp_str target) 493).

Definition kind_text (k : entry_kind) : text :=
  match k with KDirectory => lit "directory" | KFile => lit "file" | KSymlink => lit "symlink" end.

(** One item of the manifest, with its keys in order. *)
Definition manifest_item (executable_paths : list text) (item : text * entry) : text :=
  let '(path, e) := item in
  let field k v := json_str (lit k) ++ lit ":" ++ v in
  lit "{" ++ join (lit ",") [
    field "kind" (json_str (kind_text (e_kind e)));
    field "link_target" (match e_link e with Some t => json_str t | None => lit "null" end);
    field "mode" (dec (file_mode executable_paths path));
    field "path" (json_str path)] ++ lit "}".

Definition _write_manifest (path : pure_path) (entries : dict text entry) (executable_paths : list text) : io unit :=
  let t := lit "[" ++ join (lit ",") (manifest_item executable_paths <$> sorted_entries entries) ++ lit "]" ++ [10] in
  write_file (pp_str path) (utf8_encode t).

Definition _executable_paths (executables : list text) (entries : dict text entry) : result (list text) :=
  paths ← mapM _normalise_relative executables;
  match List.find (λ path, negb (match dget path entries with Some e => bool_decide (e_kind e = KFile) | None => false end)) paths with
  | Some path => Err (ValueError "executable path is not a staged file: {}" [AText path])
  | None => mret paths
  end.

(** [shutil.rmtree(p)] of a directory. *)
Definition rmtree (p : text) : io unit := update (λ s,
  f ← locate false s p;
  match f with
  | At q (Dir _) => Ok (set_tree (filter (λ x : list text * node, ¬ q `prefix_of` x.1)) s)
  | _ => Err OSError
  end).

Definition _reset_output (output : pure_path) : io unit :=
  present ← gets (λ s, path_exists s output);
  io_when present (
    directory ← gets (λ s, is_dir s output);
    io_when (negb directory) (raise (ValueError "staging output is not a directory: {}" [AText (pp_str output)]));;
    rmtree (pp_str output));;
  path_makedirs output.

Record stage_args := {
  sa_output : text; sa_mapping : list (text * text * text); sa_source_file : list (text * text * text);
  sa_executable : list text; sa_manifest : option text; sa_merge : bool;
}.

Definition main (args : stage_args) : io unit :=
  let output := PurePosixPath (sa_output args) in
  link ← gets (λ s, is_symlink s output);
  io_when link (raise (ValueError "staging output already exists: {}" [AText (pp_str output)]));;
  s ← gets id;
  for_each (sa_source_file args) (λ '(source, _, package), lift (_check_source_file s source package));;
  let mappings := sa_mapping args ++ ((λ '(source, destination, _), (source, destination, lit "source-file")) <$> sa_source_file args) in
  entries ← lift (_manifest s mappings (sa_merge args));
  executable_paths ← lift (_executable_paths (sa_executable args) entries);
  _reset_output output;;
  _copy_manifest output entries executable_paths;;
  match sa_manifest args with
  | Some path => _write_manifest (PurePosixPath path) entries executable_paths
  | None => mret tt
  end.
