(* ===== verification/StageTree.v ===== *)
(** * Staging: the entries of a declared tree

    [_tree_entries] terminates on every tree; it succeeds exactly when every entry below the source is acceptable, and
    then its entries are exactly the nodes below the source, under the destination. *)
From S2P Require Import Prelude Bytes PyText Collections PosixPath FileTree RepoTree StageInputs.

(** ** Joined paths *)

Lemma filter_nonempty_rel cs : names_ok cs →
  List.filter (λ p, negb (bool_decide (p = []))) [rel cs] = if decide (cs = []) then [] else [rel cs].
Proof.
  intros Hcs. cbn [List.filter]. case_decide as E; [by subst|]. rewrite bool_decide_false; [done|]. by intros ?%join_nil_iff.
Qed.

Lemma join_rels css : Forall names_ok css → join_parts (rel <$> css) = rel (concat css).
Proof.
  unfold join_parts. induction 1 as [|cs css Hcs Hcss IH]; [done|]. rewrite fmap_cons. cbn [List.filter concat].
  assert (Hall : names_ok (concat css)).
  { clear -Hcss. induction Hcss; [constructor|]. simpl. by apply names_ok_app. }
  destruct (decide (cs = [])) as [->|Hne].
  { rewrite bool_decide_true by done. done. }
  rewrite bool_decide_false by (by intros ?%join_nil_iff). cbn [negb].
  set (l := List.filter _ _) in *. destruct l as [|x l'] eqn:El.
  - cbn [join]. symmetry in IH. apply join_nil_iff in IH; [|done]. by rewrite IH, app_nil_r.
  - rewrite join_cons2, IH. destruct (concat css) as [|c ds] eqn:Ec.
    + exfalso. unfold rel in IH. simpl in IH. assert (Hx : x ≠ []).
      { assert (x ∈ l) by (rewrite El; by left). unfold l in H. apply list_elem_of_In, filter_In in H as [_ H].
        apply negb_true_iff, bool_decide_eq_false in H. done. }
      destruct l'; simpl in IH; [done|]. by destruct x.
    + unfold rel at 2 3. by rewrite join_app1.
Qed.

Lemma rel_cancel ds cs cs' : names_ok ds → names_ok cs → names_ok cs' → rel (ds ++ cs) = rel (ds ++ cs') → cs = cs'.
Proof. intros Hd Hc Hc' H. apply rel_inj in H; [|by apply names_ok_app..]. by apply app_inv_head in H. Qed.

(** ** Depth *)

Lemma wf_prefix s q q' : wf s → is_Some (tree s !! q) → q' `prefix_of` q → is_Some (tree s !! q').
Proof.
  intros Hwf Hq [k ->]. induction k as [|c k IH] using rev_ind; [by rewrite app_nil_r in Hq|].
  apply IH. rewrite app_assoc in Hq. destruct Hq as [n Hn]. destruct (Hwf _ _ _ Hn) as [m Hm]. eauto.
Qed.

Lemma depth_bound s q : wf s → is_Some (tree s !! q) → (length q < size (tree s))%nat.
Proof.
  intros Hwf Hq. rewrite <- size_dom. set (l := (λ i, take i q) <$> seq 0 (S (length q))).
  assert (Hnd : NoDup l).
  { apply NoDup_fmap_2_strong; [|apply NoDup_seq]. intros i j Hi%elem_of_seq Hj%elem_of_seq He.
    apply (f_equal length) in He. rewrite !length_take in He. lia. }
  assert (Hsub : list_to_set l ⊆ dom (tree s)).
  { intros x Hx. apply elem_of_list_to_set, list_elem_of_fmap in Hx as (i & -> & _). apply elem_of_dom.
    eapply wf_prefix; [done|exact Hq|]. apply prefix_take. }
  apply subseteq_size in Hsub. rewrite size_list_to_set in Hsub by done. unfold l in Hsub. rewrite length_fmap, length_seq in Hsub. lia.
Qed.

(** ** Visiting *)

Section visit.
Context (s : fs) (p ds : list text) (owner : text) (generated : bool).
Context (Hwf : wf s) (Hds : names_ok ds) (Hnames : ∀ cs n, tree s !! (p ++ cs) = Some n → names_ok cs).

Abbreviation present cs := (is_Some (tree s !! (p ++ cs))).
Abbreviation item cs := (_tree_item_entry s (p ++ cs) p owner generated).
Abbreviation visit := (visit_tree s p (rel ds) owner generated).

Lemma present_names cs : present cs → names_ok cs.
Proof. intros [n Hn]. by eapply Hnames. Qed.

(** An entry with entries below it is a directory. *)
Lemma item_directory cs c cs' e : present (cs ++ c :: cs') → item cs = Ok e → e_kind e = KDirectory.
Proof.
  intros Hp Hi. assert (Hpre : is_Some (tree s !! ((p ++ cs) ++ [c]))).
  { eapply wf_prefix; [done|exact Hp|]. exists cs'. by rewrite <- !app_assoc. }
  destruct Hpre as [n Hn]. destruct (Hwf _ _ _ Hn) as [m Hm]. unfold _tree_item_entry in Hi. rewrite Hm in Hi. apply Ok_inj in Hi. by subst e.
Qed.

Lemma child_path cs name : names_ok (cs ++ [name]) → join_parts [rel ds; rel cs; name] = rel (ds ++ cs ++ [name]).
Proof.
  intros Hn. apply names_ok_app in Hn as [Hcs Hname]. change [rel ds; rel cs; name] with (rel <$> [ds; cs; [name]]).
  rewrite join_rels; [cbn [concat]; by rewrite app_nil_r|]. by rewrite !(Forall_cons names_ok).
Qed.
Lemma child_relative cs name : names_ok (cs ++ [name]) → join_parts [rel cs; name] = rel (cs ++ [name]).
Proof.
  intros Hn. apply names_ok_app in Hn as [Hcs Hname]. change [rel cs; name] with (rel <$> [cs; [name]]).
  rewrite join_rels; [cbn [concat]; by rewrite app_nil_r|]. by rewrite !(Forall_cons names_ok).
Qed.

Definition visit_child (fuel : nat) (cs : list text) (acc : dict text entry) (name : text) : result (dict text entry) :=
  e ← item (cs ++ [name]);
  let acc := dset (rel (ds ++ cs ++ [name])) e acc in
  if bool_decide (e_kind e = KDirectory) then visit fuel acc (p ++ cs ++ [name]) (rel (cs ++ [name])) else mret acc.

Lemma visit_unfold fuel acc cs :
  visit (S fuel) acc (p ++ cs) (rel cs) = foldM (visit_child fuel cs) acc (sorted_texts (entries_of s (p ++ cs))).
Proof.
  cbn [visit_tree]. set (f := λ entries name, _). assert (Hl : ∀ l, l ⊆ entries_of s (p ++ cs) → ∀ acc, foldM f acc l = foldM (visit_child fuel cs) acc l).
  { clear acc. induction l as [|name l IH]; intros Hsub acc; [done|].
    assert (Hn : names_ok (cs ++ [name])).
    { apply present_names. assert (Hin : name ∈ entries_of s (p ++ cs)) by (apply Hsub; by left).
      apply elem_entries in Hin as [n Hn]. rewrite app_assoc. eauto. }
    assert (Hf : f acc name = visit_child fuel cs acc name).
    { unfold f, visit_child. by rewrite child_path, child_relative, <- app_assoc. }
    cbn [foldM]. rewrite Hf. destruct (visit_child fuel cs acc name); [|done]. cbn [mbind result_bind].
    apply IH. intros x Hx. apply Hsub. by right. }
  apply Hl. intros x. unfold sorted_texts. by rewrite merge_sort_Permutation.
Qed.

(** [fuel] bounds the depth below [cs]. *)
Definition deep_enough (fuel : nat) (cs : list text) : Prop := ∀ cs', present (cs ++ cs') → (length cs' < fuel)%nat.

Lemma deep_enough_child fuel cs name : deep_enough (S fuel) cs → deep_enough fuel (cs ++ [name]).
Proof.
  intros Hd cs' Hp. rewrite <- app_assoc in Hp. specialize (Hd _ Hp). simpl in Hd. lia.
Qed.

(** What a visit of the directory at [cs] has done to [acc]. *)
Definition visited (fuel : nat) (sub : list text → Prop) (cs : list text) (acc acc' : dict text entry) : Prop :=
  (∀ cs', sub cs' → present (cs ++ cs') → ∃ e, item (cs ++ cs') = Ok e ∧ dget (rel (ds ++ cs ++ cs')) acc' = Some e) ∧
  (∀ path, (∀ cs', sub cs' → present (cs ++ cs') → path ≠ rel (ds ++ cs ++ cs')) → dget path acc' = dget path acc).

Definition at_or_below (names : list text) (cs' : list text) : Prop := ∃ name cs'', name ∈ names ∧ cs' = name :: cs''.

Lemma child_visited fuel cs acc name acc' :
  (∀ acc acc', visit fuel acc (p ++ cs ++ [name]) (rel (cs ++ [name])) = Ok acc' → visited fuel (λ cs', cs' ≠ []) (cs ++ [name]) acc acc') →
  present (cs ++ [name]) → visit_child fuel cs acc name = Ok acc' → visited fuel (at_or_below [name]) cs acc acc'.
Proof.
  intros IH Hp H. unfold visit_child in H. apply bind_Ok_inv in H as (e & He & H). cbv zeta in H.
  assert (Hacc : visited fuel (λ cs', cs' ≠ []) (cs ++ [name]) (dset (rel (ds ++ cs ++ [name])) e acc) acc').
  { case_bool_decide as Ek; [by apply IH|]. apply Ok_inj in H. subst acc'. split; [|done]. intros [|c cs'] Hne Hpc; [done|].
    destruct Ek. by eapply item_directory. }
  destruct Hacc as [H1 H2]. split.
  - intros cs' (? & cs'' & ->%list_elem_of_singleton & ->) Hpc. destruct (decide (cs'' = [])) as [->|Hne].
    + exists e. split; [done|]. rewrite H2; [by rewrite dget_dset, decide_True|]. intros k Hk Hpk E.
      rewrite <- (app_assoc cs) in E, Hpk. apply rel_cancel in E; [|done|by apply present_names..]. apply app_inv_head in E. simpl in E.
      by injection E as <-.
    + destruct (H1 cs'' Hne) as (e' & He' & Hd'); [by rewrite <- app_assoc|]. rewrite <- !app_assoc in *. eauto.
  - intros path Hpath. rewrite H2.
    + rewrite dget_dset, decide_False; [done|]. apply Hpath; [|done]. exists name, []. split; [by left|done].
    + intros k Hk Hpk. rewrite <- (app_assoc cs) in *. apply Hpath; [|done]. exists name, k. split; [by left|done].
Qed.

Lemma children_visited fuel cs names acc acc' :
  (∀ name acc acc', visit fuel acc (p ++ cs ++ [name]) (rel (cs ++ [name])) = Ok acc' → visited fuel (λ cs', cs' ≠ []) (cs ++ [name]) acc acc') →
  (∀ name, name ∈ names → present (cs ++ [name])) →
  foldM (visit_child fuel cs) acc names = Ok acc' → visited fuel (at_or_below names) cs acc acc'.
Proof.
  intros IH. revert acc. induction names as [|name names IHn]; intros acc Hp H; cbn [foldM] in H.
  { apply Ok_inj in H. subst acc'. split; [|done]. intros cs' (? & ? & Hin & _). by apply elem_of_nil in Hin. }
  apply bind_Ok_inv in H as (acc1 & H1 & H). apply child_visited in H1 as [A1 B1]; [|by apply IH|apply Hp; by left].
  apply IHn in H as [A2 B2]; [|intros n Hn; apply Hp; by right]. split.
  - intros cs' (n & cs'' & Hn & ->) Hpc. destruct (decide (n ∈ names)) as [Hin|Hnin]; [apply A2; [by exists n, cs''|done]|].
    apply elem_of_cons in Hn as [->|Hn]; [|done]. destruct (A1 (name :: cs'')) as (e & He & Hd); [exists name, cs''; split; [by left|done]|done|].
    exists e. split; [done|]. rewrite B2; [done|]. intros k (n' & k' & Hn' & ->) Hpk E.
    apply rel_cancel in E; [|done|by apply present_names..]. apply app_inv_head in E. injection E as -> _. done.
  - intros path Hpath. rewrite B2, B1; [done|..]; intros k (n' & k' & Hn' & ->) Hpk; (apply Hpath; [|done]); exists n', k'; (split; [|done]).
    + apply list_elem_of_singleton in Hn' as ->. by left.
    + by right.
Qed.

Lemma visit_visited fuel cs acc acc' :
  visit fuel acc (p ++ cs) (rel cs) = Ok acc' → visited fuel (λ cs', cs' ≠ []) cs acc acc'.
Proof.
  revert cs acc acc'. induction fuel as [|fuel IH]; intros cs acc acc' H; [done|]. rewrite visit_unfold in H.
  apply children_visited in H as [A B].
  - split.
    + intros [|c cs'] Hne Hpc; [done|]. apply A; [|done]. exists c, cs'. split; [|done]. unfold sorted_texts. rewrite merge_sort_Permutation.
      apply elem_entries. rewrite <- app_assoc. eapply wf_prefix; [done|exact Hpc|]. exists cs'. by rewrite <- !app_assoc.
    + intros path Hpath. apply B. intros k (n & k' & _ & ->). by apply Hpath.
  - intros name a a' Ha. by apply IH.
  - intros name Hn. unfold sorted_texts in Hn. rewrite merge_sort_Permutation in Hn. apply elem_entries in Hn as [n Hn].
    rewrite app_assoc. eauto.
Qed.

(** The visit succeeds when every entry is acceptable and the fuel reaches the bottom. *)
Lemma visit_total fuel cs acc :
  deep_enough fuel cs → present cs → (∀ cs', cs' ≠ [] → present (cs ++ cs') → ∃ e, item (cs ++ cs') = Ok e) →
  ∃ acc', visit fuel acc (p ++ cs) (rel cs) = Ok acc'.
Proof.
  revert cs acc. induction fuel as [|fuel IH]; intros cs acc Hd Hpc Hok.
  { specialize (Hd []). rewrite app_nil_r in Hd. specialize (Hd Hpc). simpl in Hd. lia. }
  rewrite visit_unfold. assert (Hin : ∀ name, name ∈ sorted_texts (entries_of s (p ++ cs)) → present (cs ++ [name])).
  { intros name Hn. unfold sorted_texts in Hn. rewrite merge_sort_Permutation in Hn. apply elem_entries in Hn as [n Hn].
    rewrite app_assoc. eauto. }
  revert acc Hin. generalize (sorted_texts (entries_of s (p ++ cs))) as l.
  induction l as [|name l IHl]; intros acc Hin; [by eexists|]. cbn [foldM].
  destruct (Hok [name]) as [e He]; [done|apply Hin; by left|].
  assert (Hstep : ∃ acc1, visit_child fuel cs acc name = Ok acc1).
  { unfold visit_child. rewrite He. cbn [mbind result_bind]. case_bool_decide; [|by eexists].
    apply IH; [by apply deep_enough_child|apply Hin; by left|]. intros cs' Hne. rewrite <- app_assoc. by apply Hok. }
  destruct Hstep as [acc1 ->]. cbn [mbind result_bind]. apply IHl. intros n Hn. apply Hin. by right.
Qed.
End visit.

(** The entry of the node at [cs] below the source. *)
Definition entry_below (s : fs) (p ds : list text) (owner : text) (generated : bool) (cs : list text) (e : entry) : Prop :=
  is_Some (tree s !! (p ++ cs)) ∧
  if decide (cs = []) then ds ≠ [] ∧ e = {| e_owner := owner; e_kind := KDirectory; e_source := abs p; e_link := None |}
  else _tree_item_entry s (p ++ cs) p owner generated = Ok e.

Lemma rstrip_rel ds : names_ok ds → rstrip_by is_slash (rel ds) = rel ds.
Proof.
  intros Hds. destruct (decide (ds = [])) as [->|Hne]; [done|]. destruct (last_char_rel ds Hne Hds) as (t & c & -> & Hc).
  unfold rstrip_by. rewrite reverse_app. simpl. unfold is_slash at 1. destruct (Z.eqb_spec c 47); [done|].
  by rewrite reverse_cons, reverse_involutive.
Qed.

(** The staged paths of the nodes below the source. *)
Definition paths_below (s : fs) (p ds : list text) : list text :=
  omap (λ q, if decide (p `prefix_of` q ∧ q ≠ p) then Some (rel (ds ++ drop (length p) q)) else None) (map_to_list (tree s)).*1.

Lemma elem_paths_below s p ds path :
  path ∈ paths_below s p ds ↔ ∃ cs, cs ≠ [] ∧ is_Some (tree s !! (p ++ cs)) ∧ path = rel (ds ++ cs).
Proof.
  unfold paths_below. rewrite list_elem_of_omap. split.
  - intros (q & Hq & Hp). apply list_elem_of_fmap in Hq as ([q' n] & -> & Hq%elem_of_map_to_list). simpl in Hp.
    case_decide as Hpre; simplify_eq. destruct Hpre as [[cs ->] Hne]. exists cs. rewrite drop_app_length. split; [|by eauto].
    intros ->. by rewrite app_nil_r in Hne.
  - intros (cs & Hne & [n Hn] & ->). exists (p ++ cs). split.
    + apply list_elem_of_fmap. exists (p ++ cs, n). split; [done|]. by apply elem_of_map_to_list.
    + rewrite decide_True, drop_app_length; [done|]. split; [by exists cs|]. intros E. apply Hne. apply (app_inv_head p). by rewrite app_nil_r.
Qed.

Lemma tree_entries_spec s source ds owner generated p m :
  wf s → names_ok ds → (∀ cs n, tree s !! (p ++ cs) = Some n → names_ok cs) →
  locate true s (pp_str source) = Ok (At p (Dir m)) →
  ((∃ entries, _tree_entries s source (rel ds) owner generated = Ok entries) ↔
    (∀ cs, cs ≠ [] → is_Some (tree s !! (p ++ cs)) → ∃ e, _tree_item_entry s (p ++ cs) p owner generated = Ok e)) ∧
  (∀ entries, _tree_entries s source (rel ds) owner generated = Ok entries →
    ∀ path e, dget path entries = Some e ↔ ∃ cs, path = rel (ds ++ cs) ∧ entry_below s p ds owner generated cs e).
Proof.
  intros Hwf Hds Hnames Hloc. unfold _tree_entries. rewrite Hloc, rstrip_rel by done. set (acc := if bool_decide _ then _ else _).
  assert (Hroot : is_Some (tree s !! (p ++ []))) by (rewrite app_nil_r; apply locate_At in Hloc; eauto).
  pose proof (visit_visited s p ds owner generated Hwf Hds Hnames (walk_fuel s) [] acc) as Hv.
  rewrite app_nil_r in Hv. change (rel []) with (@nil Z) in Hv. cbv zeta. split; [split|].
  - intros [entries H] cs Hne Hp. destruct (Hv _ H) as [A _]. destruct (A cs Hne Hp) as (e & He & _). eauto.
  - intros Hok. destruct (visit_total s p ds owner generated Hds Hnames (walk_fuel s) [] acc) as [acc' H]; [|done|done|].
    + intros cs' Hp. pose proof (depth_bound s _ Hwf Hp) as Hb. rewrite length_app in Hb. unfold walk_fuel. simpl in Hb. lia.
    + rewrite app_nil_r in H. eauto.
  - intros entries H path e. destruct (Hv _ H) as [A B]. cbn [app] in A, B. unfold entry_below. split.
    + intros Hd. destruct (decide (path ∈ paths_below s p ds)) as [(cs & Hne & Hp & ->)%elem_paths_below|Hno].
      * exists cs. split; [done|]. split; [done|]. rewrite decide_False by done. destruct (A cs Hne Hp) as (e' & He & Hd'). congruence.
      * rewrite B in Hd by (intros cs Hne Hp ->; apply Hno, elem_paths_below; eauto). exists []. unfold acc in Hd. case_bool_decide as En; [done|].
        simpl in Hd. case_decide; simplify_eq. rewrite app_nil_r. split; [done|]. split; [done|]. rewrite decide_True by done. split; [|done].
        by intros ->.
    + intros (cs & -> & Hp & Hcase). case_decide as Hne.
      * subst cs. destruct Hcase as [Hdne ->]. rewrite app_nil_r. rewrite B.
        { unfold acc. rewrite bool_decide_false by (by intros ?%join_nil_iff). simpl. by rewrite decide_True. }
        intros cs Hne Hpc E. rewrite <- (app_nil_r ds) in E at 1. apply rel_cancel in E; [by subst|done|constructor|].
        destruct Hpc as [n Hn]. by eapply Hnames.
      * destruct (A cs Hne Hp) as (e' & He & Hd'). congruence.
Qed.

(** The entries of a declared tree: the walk always terminates; it succeeds exactly when every node below the source
    is acceptable (a directory, a file, or a link that stays in the tree and is not dangling); and then the entries are
    exactly the nodes below the source, each under the destination with its own kind, source and link. *)
Theorem tree_entries_exact s source ds owner generated p m :
  wf s → names_ok ds → (∀ cs n, tree s !! (p ++ cs) = Some n → names_ok cs) →
  locate true s (pp_str source) = Ok (At p (Dir m)) →
  ((∃ entries, _tree_entries s source (rel ds) owner generated = Ok entries) ↔
    (∀ cs, cs ≠ [] → is_Some (tree s !! (p ++ cs)) → ∃ e, _tree_item_entry s (p ++ cs) p owner generated = Ok e)) ∧
  (∀ entries, _tree_entries s source (rel ds) owner generated = Ok entries →
    ∀ path e, dget path entries = Some e ↔ ∃ cs, path = rel (ds ++ cs) ∧ entry_below s p ds owner generated cs e).
Proof. apply tree_entries_spec. Qed.

(** ** A concrete tree *)

(** Every node has a directory as its parent and a plain name. *)
Definition tree_ok (s : fs) : bool :=
  forallb (λ q, (is_nil q || is_dir_at s (parent q)) && forallb name_ok q) (map_to_list (tree s)).*1.

Lemma tree_ok_spec s : tree_ok s = true → wf s ∧ ∀ q n, tree s !! q = Some n → names_ok q.
Proof.
  unfold tree_ok. rewrite forallb_forall. intros Hall.
  assert (H : ∀ q n, tree s !! q = Some n → (is_nil q || is_dir_at s (parent q)) && forallb name_ok q = true).
  { intros q n Hq. apply Hall, list_elem_of_In. apply elem_of_map_to_list in Hq. by apply (list_elem_of_fmap_2 fst) in Hq. }
  split.
  - intros d c n Hn. apply H, andb_true_iff in Hn as [Hn _]. replace (is_nil (d ++ [c])) with false in Hn by (by destruct d).
    rewrite parent_snoc in Hn. unfold is_dir_at in Hn. simpl in Hn. destruct (tree s !! d) as [[]|]; try done. eauto.
  - intros q n Hn. apply H, andb_true_iff in Hn as [_ Hn]. apply Forall_forall. intros c Hc. rewrite forallb_forall in Hn.
    by apply Hn, list_elem_of_In.
Qed.

(** A tree with a link between names that share its prefix, and a file beside it. *)
Definition demo_sources : fs := {|
  tree := {[ [] := Dir 493; [lit "src"] := Dir 493; [lit "src"; lit "a"] := Sym (lit "d"); [lit "src"; lit "a-b"] := Reg 0;
             [lit "src"; lit "d"] := Dir 493; [lit "src"; lit "d"; lit "c"] := Reg 1; [lit "x"] := Reg 2 ]};
  inodes := {[ 0%N := (420, blit "sibling"); 1%N := (420, blit "tree"); 2%N := (420, blit "mapped") ]};
  cwd := []; umask := 18;
|}.

Lemma tree_entries_exact_witness :
  ∃ entries, _tree_entries demo_sources (PurePosixPath (lit "/src")) (rel [lit "t"]) (lit "owner") false = Ok entries ∧
    ∃ cs, lit "t/d/c" = rel ([lit "t"] ++ cs) ∧
      entry_below demo_sources [lit "src"] [lit "t"] (lit "owner") false cs
        {| e_owner := lit "owner"; e_kind := KFile; e_source := lit "/src/d/c"; e_link := None |}.
Proof.
  destruct (tree_ok_spec demo_sources) as [Hwf Hn]; [vm_compute; reflexivity|].
  destruct (tree_entries_exact demo_sources (PurePosixPath (lit "/src")) [lit "t"] (lit "owner") false [lit "src"] 493) as [_ H].
  - done.
  - by apply Forall_singleton.
  - intros cs n Hcs. apply Hn in Hcs. by apply names_ok_app in Hcs as [_ ?].
  - vm_compute. reflexivity.
  - eexists. split; [vm_compute; reflexivity|]. eapply H; vm_compute; reflexivity.
Defined.
