(* ===== verification/StageProofs.v ===== *)
(** * Staging: mappings stay apart

    Paths of different mappings are not nested, up to the mapping of a whole configuration directory; and what the check of
    the layout misses. *)
From S2P Require Import Prelude Bytes PyText Collections PosixPath FileTree RepoTree StageInputs StageTree.

(** ** Text prefixes *)

(** [t] is [d] or lies below it. *)
Definition within (d t : text) : Prop := t = d ∨ startswith t (d ++ [47]) = true.

Lemma startswith_cut (t a b : text) :
  startswith t (a ++ [47]) = true → startswith t (b ++ [47]) = true → a = b ∨ startswith b (a ++ [47]) = true ∨ startswith a (b ++ [47]) = true.
Proof.
  rewrite !startswith_spec. intros [x Hx] [y Hy]. rewrite Hx in Hy. rewrite <- !app_assoc in Hy. simpl in Hy.
  apply app_eq_inv in Hy as [(k & -> & Hk)|(k & -> & Hk)]; (destruct k as [|c k]; [left; by rewrite app_nil_r|]); injection Hk as <- Hk.
  - right. right. exists k. by rewrite <- app_assoc.
  - right. left. exists k. by rewrite <- app_assoc.
Qed.

(** An ancestor of a path within [d] is [d], an ancestor of [d], or below [d]. *)
Lemma ancestor_within d p1 p2 :
  within d p2 → startswith p2 (p1 ++ [47]) = true → d = p1 ∨ startswith d (p1 ++ [47]) = true ∨ startswith p1 (d ++ [47]) = true.
Proof. intros [->|Hd] H; [by right; left|]. by destruct (startswith_cut p2 d p1 Hd H) as [?|[?|?]]; auto. Qed.

Lemma within_below d p1 p2 : within d p1 → startswith p2 (p1 ++ [47]) = true → startswith p2 (d ++ [47]) = true.
Proof.
  intros [->|Hd] H; [done|]. apply startswith_spec in Hd as [x ->], H as [y ->]. rewrite <- !app_assoc. rewrite app_assoc. apply startswith_app.
Qed.

Lemma not_both d p : startswith p (d ++ [47]) = true → startswith d (p ++ [47]) = false.
Proof.
  intros [x ->]%startswith_spec. destruct (startswith d _) eqn:E; [|done]. apply startswith_spec in E as [y Hy].
  apply (f_equal length) in Hy. rewrite !length_app in Hy. simpl in Hy. lia.
Qed.

Lemma within_rel ds cs : names_ok ds → names_ok cs → ds ≠ [] → within (rel ds) (rel (ds ++ cs)).
Proof.
  intros Hd Hc Hne. destruct cs as [|c cs]; [left; by rewrite app_nil_r|]. right. unfold rel. rewrite join_app1 by done.
  rewrite app_assoc. apply startswith_app.
Qed.

(** ** The entries of one mapping *)

Lemma normalise_relative_Ok path dest :
  _normalise_relative path = Ok dest → ∃ ds, ds ≠ [] ∧ names_ok ds ∧ dest = rel ds.
Proof.
  unfold _normalise_relative. intros H. cbv zeta in H. apply bind_Ok_inv in H as (u & Hc & H). apply Ok_inj in H.
  apply raise_if_Ok in Hc. rewrite !orb_false_iff in Hc. destruct Hc as [[Hn Ha] He]. set (p := PurePosixPath path) in *.
  assert (Hparts : pp_parts p = pp_tail p) by (unfold pp_parts; by rewrite Ha). rewrite Hparts in *. exists (pp_tail p).
  split; [by intros E; rewrite E in Hn|]. split; [|by rewrite <- H]. apply Forall_forall. intros c Hc. apply name_ok_spec.
  assert (Hs : 47 ∉ c).
  { unfold p in Hc. simpl in Hc. apply list_elem_of_In, filter_In in Hc as [Hc _]. pose proof (split_on_no_sep 47 path) as Hno.
    rewrite Forall_forall in Hno. apply Hno. by apply list_elem_of_In. }
  assert (Hb : (bool_decide (c = []) || bool_decide (c = dot) || bool_decide (c = dotdot)) = false).
  { destruct (_ || _) eqn:E; [|done]. exfalso. rewrite <- not_true_iff_false in He. apply He. apply existsb_exists. exists c.
    split; [by apply list_elem_of_In|done]. }
  rewrite !orb_false_iff, !bool_decide_eq_false in Hb. tauto.
Qed.

Lemma item_owner s p source owner generated e : _tree_item_entry s p source owner generated = Ok e → e_owner e = owner.
Proof.
  unfold _tree_item_entry. destruct (tree s !! p) as [[]|]; intros H; try (apply Ok_inj in H; by subst e); try done.
  destruct (generated && _).
  - destruct (locate true s (abs p)) as [[? []|]|]; try done. apply Ok_inj in H. by subst e.
  - apply bind_Ok_inv in H as (l & _ & H). apply Ok_inj in H. by subst e.
Qed.

Lemma visit_dict_ok s source destination owner generated fuel acc p relative acc' :
  dict_ok acc → visit_tree s source destination owner generated fuel acc p relative = Ok acc' → dict_ok acc'.
Proof.
  revert acc p relative acc'. induction fuel as [|fuel IH]; intros acc p relative acc' Hacc H; [done|]. cbn [visit_tree] in H.
  eapply (foldM_inv dict_ok); [|exact Hacc|exact H]. intros a name a' _ Ha Hn. cbv zeta in Hn. apply bind_Ok_inv in Hn as (e & _ & Hn).
  case_bool_decide; [by eapply IH; [apply dict_ok_dset|exact Hn]|]. apply Ok_inj in Hn. subst a'. by apply dict_ok_dset.
Qed.

(** Where the entries of a mapping to [ds] may be. *)
Record mapping_items (ds : list text) (owner : text) (items : dict text entry) : Prop := {
  mi_dict : dict_ok items;
  mi_owner : ∀ path e, dget path items = Some e → e_owner e = owner;
  mi_within : ∀ path e, dget path items = Some e → path ≠ [] ∧ (ds ≠ [] → within (rel ds) path);
  mi_closed : ds = [] → ∀ path e p1, dget path items = Some e → startswith path (p1 ++ [47]) = true → p1 ∈ dkeys items;
}.

Lemma split_on_concat sep a b : split_on sep (a ++ sep :: b) = split_on sep a ++ split_on sep b.
Proof.
  induction a as [|c a IH]; simpl; [by rewrite Z.eqb_refl|]. rewrite IH. destruct (c =? sep); [done|].
  pose proof (split_on_not_nil sep a). by destruct (split_on sep a).
Qed.

Lemma dget_key {K V} `{EqDecision K} (k : K) (v : V) d : dget k d = Some v → k ∈ dkeys d.
Proof. intros H%dget_Some_elem. by apply (list_elem_of_fmap_2 fst) in H. Qed.

Lemma key_dget {K V} `{EqDecision K} (k : K) (d : dict K V) : k ∈ dkeys d → ∃ v, dget k d = Some v.
Proof. intros H. destruct (dget k d) eqn:E; [eauto|]. by apply dget_None in E. Qed.

Lemma tree_items s source ds owner generated items :
  wf s → (∀ q n, tree s !! q = Some n → names_ok q) → names_ok ds →
  _tree_entries s source (rel ds) owner generated = Ok items → mapping_items ds owner items.
Proof.
  intros Hwf Hnames Hds H. destruct (locate true s (pp_str source)) as [[p [m| | |]|]|] eqn:Hl;
    try (unfold _tree_entries in H; rewrite Hl in H; done).
  assert (Hn : ∀ cs n, tree s !! (p ++ cs) = Some n → names_ok cs).
  { intros cs n Hcs. apply Hnames in Hcs. by apply names_ok_app in Hcs as [_ ?]. }
  destruct (tree_entries_spec s source ds owner generated p m Hwf Hds Hn Hl) as [[Hall _] Hx]. specialize (Hx _ H).
  specialize (Hall (ex_intro _ items H)).
  split.
  - unfold _tree_entries in H. rewrite Hl, rstrip_rel in H by done. eapply visit_dict_ok; [|exact H].
    case_bool_decide; [apply NoDup_nil_2|apply NoDup_singleton].
  - intros path e Hp. apply Hx in Hp as (cs & _ & _ & Hc). case_decide; [by destruct Hc as [_ ->]|]. by eapply item_owner.
  - intros path e Hp. apply Hx in Hp as (cs & -> & [n Hcs] & Hc). pose proof (Hn _ _ Hcs) as Hok. split.
    + intros E. apply join_nil_iff in E; [|by apply names_ok_app]. apply app_nil in E as [-> ->]. rewrite decide_True in Hc by done. naive_solver.
    + intros Hne. by apply within_rel.
  - intros -> path e p1 Hp Hs. apply Hx in Hp as (cs & -> & Hcs & _). cbn [app] in *. pose proof Hcs as [n Hn']. pose proof (Hn _ _ Hn') as Hok.
    assert (Hne : cs ≠ []) by (intros ->; apply startswith_spec in Hs as [k Hk]; by destruct p1).
    apply startswith_spec in Hs as [rest Hr]. rewrite <- app_assoc in Hr. simpl in Hr.
    assert (Hcut : cs = split_on 47 p1 ++ split_on 47 rest) by (by rewrite <- split_on_concat, <- Hr, split_rel).
    assert (Hp1 : is_Some (tree s !! (p ++ split_on 47 p1))).
    { eapply wf_prefix; [done|exact Hcs|]. exists (split_on 47 rest). by rewrite <- app_assoc, <- Hcut. }
    destruct (Hall _ (split_on_not_nil 47 p1) Hp1) as [e1 He1]. apply (dget_key _ e1), Hx. exists (split_on 47 p1). split.
    { cbn [app]. unfold rel. by rewrite join_split_on. }
    split; [done|]. by rewrite decide_False by apply split_on_not_nil.
Qed.

Lemma mapping_items_ok s source ds owner role items :
  wf s → (∀ q n, tree s !! q = Some n → names_ok q) → names_ok ds →
  _mapping_entries s source (rel ds) owner role = Ok items → mapping_items ds owner items.
Proof.
  intros Hwf Hnames Hds H. unfold _mapping_entries in H. cbv zeta in H. do 3 (apply bind_Ok_inv in H as (? & _ & H)).
  destruct (bool_decide (role ∈ _TREE_ROLES)); [by eapply tree_items|]. apply bind_Ok_inv in H as (? & _ & H).
  apply bind_Ok_inv in H as (? & Hne & H). apply raise_if_Ok, bool_decide_eq_false in Hne. apply Ok_inj in H. subst items.
  split; [apply NoDup_singleton|..].
  - intros path e Hp. simpl in Hp. case_decide; by simplify_eq.
  - intros path e Hp. simpl in Hp. case_decide; simplify_eq. split; [done|by left].
  - intros ->. done.
Qed.

(** ** Adding the entries *)

Lemma add_entries owner items st st' :
  dict_ok items → (∀ path e, dget path items = Some e → e_owner e = owner) →
  foldM (add_entry false owner) st items = Ok st' →
  (∀ path, path ∉ dkeys items → dget path (st_entries st') = dget path (st_entries st)) ∧
  (∀ path e, dget path items = Some e → dget path (st_entries st') = Some e ∧
     ∀ prior, dget path (st_entries st) = Some prior → e_owner prior = owner).
Proof.
  intros Hd Ho. revert st. induction items as [|[k e] items IH]; intros st H.
  { apply Ok_inj in H. by subst st'. }
  cbn [foldM] in H. apply bind_Ok_inv in H as (st1 & H1 & H). unfold dict_ok in Hd. simpl in Hd. apply NoDup_cons in Hd as [Hk Hd].
  assert (Hst1 : st_entries st1 = dset k e (st_entries st) ∧ ∀ prior, dget k (st_entries st) = Some prior → e_owner prior = owner).
  { unfold add_entry in H1. destruct (dget k (st_entries st)) as [prior|] eqn:E.
    - cbn [andb] in H1. apply bind_Ok_inv in H1 as (u & Hc & H1). apply raise_if_Ok in Hc. rewrite andb_true_r in Hc.
      apply negb_false_iff, bool_decide_eq_true in Hc. apply Ok_inj in H1. subst st1. split; [done|]. intros ? [= <-]. done.
    - apply Ok_inj in H1. by subst st1. }
  destruct Hst1 as [Hst1 Hprior]. destruct (IH Hd) with (st := st1) as [A B]; [|done|].
  { intros path e' He'. apply (Ho path). simpl. rewrite decide_False; [done|]. intros ->. apply Hk. by eapply dget_key. }
  split.
  - intros path Hp. simpl in Hp. apply not_elem_of_cons in Hp as [Hne Hp]. rewrite A, Hst1 by done. rewrite dget_dset. by rewrite decide_False.
  - intros path e' He'. simpl in He'. case_decide as Hpk.
    + simplify_eq. split; [|done]. rewrite A, Hst1 by done. by rewrite dget_dset, decide_True.
    + destruct (B _ _ He') as [B1 B2]. split; [done|]. intros prior Hp. apply B2. rewrite Hst1, dget_dset. by rewrite decide_False.
Qed.

(** ** The mappings *)

Definition whole_tree (owner : text) : bool := endswith owner (lit " -> .").

(** No path is below a path of another mapping, unless that is the mapping of a whole directory. *)
Definition separate (entries : dict text entry) : Prop :=
  (∀ path e, dget path entries = Some e → path ≠ []) ∧
  ∀ p1 e1 p2 e2, dget p1 entries = Some e1 → dget p2 entries = Some e2 → startswith p2 (p1 ++ [47]) = true →
    e_owner e1 = e_owner e2 ∨ whole_tree (e_owner e1) = true.

Lemma no_prefix_collision entries destination owner :
  _check_prefix_collisions entries destination owner = Ok tt →
  ∀ path e, dget path entries = Some e → prefix_collision destination owner (path, e) = false.
Proof.
  intros H path e He. unfold _check_prefix_collisions in H. destruct (List.find _ entries) as [[q e']|] eqn:E; [done|].
  eapply (find_none _ _ E). apply list_elem_of_In. by apply dget_Some_elem.
Qed.

Section step.
Context (ds : list text) (owner : text) (items entries entries' : dict text entry).
Context (Hds : names_ok ds) (Hi : mapping_items ds owner items) (Hsep : separate entries).
Context (Hold : ∀ path, path ∉ dkeys items → dget path entries' = dget path entries)
  (Hnew : ∀ path e, dget path items = Some e → dget path entries' = Some e ∧ ∀ prior, dget path entries = Some prior → e_owner prior = owner)
  (Hpre : ∀ path e, dget path entries' = Some e → prefix_collision (rel ds) owner (path, e) = false)
  (Hwhole : ds = [] → whole_tree owner = true).

(** An entry of another mapping was there before; an entry of this one is in its items or was there before. *)
Lemma other_entry path e : dget path entries' = Some e → e_owner e ≠ owner → dget path entries = Some e ∧ path ∉ dkeys items.
Proof.
  intros He Hne. destruct (decide (path ∈ dkeys items)) as [[e' He']%key_dget|Hn].
  - destruct (Hnew _ _ He') as [Hd _]. rewrite He in Hd. simplify_eq. destruct Hne. by eapply mi_owner.
  - split; [|done]. by rewrite <- Hold.
Qed.

Lemma own_entry path e : dget path entries' = Some e → dget path items = Some e ∨ dget path entries = Some e.
Proof.
  intros He. destruct (decide (path ∈ dkeys items)) as [[e' He']%key_dget|Hn].
  - left. destruct (Hnew _ _ He') as [Hd _]. congruence.
  - right. by rewrite <- Hold.
Qed.

Lemma dest_not_nil : ds ≠ [] → rel ds ≠ [].
Proof. intros Hne E. apply Hne. by apply join_nil_iff in E. Qed.

(** A path of this mapping below one of another mapping. *)
Lemma below_other p1 e1 p2 e2 :
  dget p1 entries' = Some e1 → e_owner e1 ≠ owner → dget p2 items = Some e2 → startswith p2 (p1 ++ [47]) = true →
  whole_tree (e_owner e1) = true.
Proof.
  intros H1 Hne H2 Hs. destruct (other_entry _ _ H1 Hne) as [H1' Hn1]. destruct (decide (ds = [])) as [E|Hd].
  { destruct Hn1. by eapply mi_closed. }
  destruct (mi_within _ _ _ Hi _ _ H2) as [_ Hw]. specialize (Hw Hd). pose proof (Hpre _ _ H1) as Hc. unfold prefix_collision in Hc.
  rewrite (bool_decide_false (e_owner e1 = owner)), (bool_decide_false (rel ds = [])), (bool_decide_false (p1 = [])) in Hc;
    [|by apply (proj1 Hsep _ _ H1')|by apply dest_not_nil|done]. cbn [orb] in Hc.
  destruct (_ && _ && _) eqn:Ex; [by apply andb_true_iff in Ex as [_ ?]|]. rewrite !orb_false_iff, bool_decide_eq_false in Hc.
  destruct Hc as [[Hc1 Hc2] Hc3]. destruct (ancestor_within _ _ _ Hw Hs) as [?|[?|?]]; congruence.
Qed.

(** A path of another mapping below one of this mapping. *)
Lemma above_other p1 e1 p2 e2 :
  dget p1 items = Some e1 → dget p2 entries' = Some e2 → e_owner e2 ≠ owner → startswith p2 (p1 ++ [47]) = true →
  whole_tree owner = true.
Proof.
  intros H1 H2 Hne Hs. destruct (other_entry _ _ H2 Hne) as [H2' _]. destruct (decide (ds = [])) as [E|Hd]; [by apply Hwhole|].
  destruct (mi_within _ _ _ Hi _ _ H1) as [_ Hw]. specialize (Hw Hd). pose proof (within_below _ _ _ Hw Hs) as Hb.
  pose proof (Hpre _ _ H2) as Hc. unfold prefix_collision in Hc.
  rewrite (bool_decide_false (e_owner e2 = owner)), (bool_decide_false (rel ds = [])), (bool_decide_false (p2 = [])) in Hc;
    [|by apply (proj1 Hsep _ _ H2')|by apply dest_not_nil|done]. cbn [orb] in Hc. rewrite not_both in Hc by done. cbn [andb] in Hc.
  rewrite Hb, orb_true_r in Hc. done.
Qed.

Lemma separate_step : separate entries'.
Proof.
  split.
  - intros path e He. destruct (own_entry _ _ He) as [He'|He']; [by eapply mi_within|by apply (proj1 Hsep _ _ He')].
  - intros p1 e1 p2 e2 H1 H2 Hs. destruct (decide (e_owner e1 = owner)) as [E1|E1], (decide (e_owner e2 = owner)) as [E2|E2].
    + left. congruence.
    + right. rewrite E1. destruct (own_entry _ _ H1) as [H1'|H1']; [by eapply above_other|].
      destruct (other_entry _ _ H2 E2) as [H2' _]. destruct (proj2 Hsep _ _ _ _ H1' H2' Hs) as [?|?]; congruence.
    + right. destruct (own_entry _ _ H2) as [H2'|H2']; [by eapply below_other|].
      destruct (other_entry _ _ H1 E1) as [H1' _]. destruct (proj2 Hsep _ _ _ _ H1' H2' Hs) as [?|?]; [congruence|done].
    + destruct (other_entry _ _ H1 E1) as [H1' _], (other_entry _ _ H2 E2) as [H2' _]. by eapply (proj2 Hsep).
Qed.
End step.

Lemma add_mapping_separate s st mapping st' :
  wf s → (∀ q n, tree s !! q = Some n → names_ok q) →
  separate (st_entries st) → _add_mapping s false st mapping = Ok st' → separate (st_entries st').
Proof.
  intros Hwf Hn Hsep H. destruct mapping as [[source_string destination_string] role]. unfold _add_mapping in H. cbv zeta in H.
  apply bind_Ok_inv in H as (u & _ & H). apply bind_Ok_inv in H as (sources & _ & H). apply bind_Ok_inv in H as (dest & Hdest & H).
  apply bind_Ok_inv in H as (items & Hi & H). apply bind_Ok_inv in H as (st1 & Ha & H). apply bind_Ok_inv in H as ([] & Hc & H).
  apply Ok_inj in H. subst st1.
  assert (Hds : ∃ ds, names_ok ds ∧ dest = rel ds ∧ (ds = [] ↔ dest = [])).
  { destruct (bool_decide (destination_string = dot)); [apply Ok_inj in Hdest; exists []; split; [constructor|by subst]|].
    apply normalise_relative_Ok in Hdest as (ds & Hne & Hok & ->). exists ds. split; [done|]. split; [done|]. symmetry. by apply join_nil_iff. }
  destruct Hds as (ds & Hok & -> & Hnil). set (owner := pp_str _ ++ _) in *.
  pose proof (mapping_items_ok _ _ _ _ _ _ Hwf Hn Hok Hi) as Hit.
  destruct (add_entries owner items _ _ (mi_dict _ _ _ Hit) (mi_owner _ _ _ Hit) Ha) as [Hold Hnew]. cbn [st_entries] in Hold, Hnew.
  eapply (separate_step ds owner items (st_entries st)); try done.
  - by apply no_prefix_collision.
  - intros ->. unfold owner, whole_tree. rewrite bool_decide_true by done. apply bool_decide_eq_true. by eexists.
Qed.

(** C17: Without merging, mappings stay apart: in an accepted manifest no staged path lies below a path of another mapping,
    except below a mapping of a whole directory to the root of the staged tree. *)
Theorem mappings_separate s mappings entries :
  wf s → (∀ q n, tree s !! q = Some n → names_ok q) → _manifest s mappings false = Ok entries →
  ∀ p1 e1 p2 e2, dget p1 entries = Some e1 → dget p2 entries = Some e2 → startswith p2 (p1 ++ [47]) = true →
    e_owner e1 = e_owner e2 ∨ whole_tree (e_owner e1) = true.
Proof.
  intros Hwf Hn H. unfold _manifest in H. apply bind_Ok_inv in H as (st & Hf & H). apply bind_Ok_inv in H as (u & _ & H).
  apply Ok_inj in H. subst entries. refine (proj2 (_ : separate (st_entries st))).
  refine (foldM_inv (λ st, separate (st_entries st)) _ _ _ _ _ _ Hf); [|split; intros; done].
  intros st1 m st2 _ Hs Hm. by eapply add_mapping_separate.
Qed.

(** ** What the check of the layout misses *)

Definition demo_mapping : list (text * text * text) :=
  [(lit "/x", lit "a/c", lit "file"); (lit "/src", lit ".", lit "tree")].
Definition demo_stage_args : stage_args := {|
  sa_output := lit "/out"; sa_mapping := demo_mapping; sa_source_file := []; sa_executable := []; sa_manifest := None; sa_merge := false |}.

Definition demo_manifest_entries : dict text entry := match _manifest demo_sources demo_mapping false with Ok es => es | Err _ => [] end.

Lemma mappings_separate_witness : e_owner (default {| e_owner := []; e_kind := KFile; e_source := []; e_link := None |} (dget (lit "a") demo_manifest_entries)) = lit "/src -> ." ∧
  whole_tree (lit "/src -> .") = true.
Proof.
  split; [vm_compute; reflexivity|]. destruct (tree_ok_spec demo_sources) as [Hwf Hn]; [vm_compute; reflexivity|].
  destruct (mappings_separate demo_sources demo_mapping demo_manifest_entries Hwf Hn) with (p1 := lit "a") (p2 := lit "a/c")
    (e1 := {| e_owner := lit "/src -> ."; e_kind := KSymlink; e_source := lit "/src/a"; e_link := Some (lit "d") |})
    (e2 := {| e_owner := lit "/x -> a/c"; e_kind := KFile; e_source := lit "/x"; e_link := None |}) as [E|E]; [vm_compute; reflexivity..| |exact E].
  vm_compute in E. discriminate E.
Defined.

(** C34: The check of the layout, which says that it rejects non-directories with staged children, can miss one: in the
    order of the paths a name such as a-b stands between a and a/c, and the check stops there. With a link a to d in one
    mapping and a file for a/c in another, staging succeeds, the manifest lists a/c with its own source, and the output
    has no such file: it is written through the link and then replaced by the file d/c of the tree. *)
Theorem layout_check_misses_child :
  let '(r, s') := main demo_stage_args demo_sources in
  (_manifest demo_sources demo_mapping false = Ok demo_manifest_entries ∧
   (e_kind <$> dget (lit "a") demo_manifest_entries) = Some KSymlink ∧
   (e_source <$> dget (lit "a/c") demo_manifest_entries) = Some (lit "/x")) ∧
  r = Ok tt ∧ file_bytes demo_sources (lit "/x") = Ok (blit "mapped") ∧
  tree s' !! [lit "out"; lit "a"; lit "c"] = None ∧ file_bytes s' (lit "/out/a/c") = Ok (blit "tree").
Proof.
  destruct (main demo_stage_args demo_sources) as [r s'] eqn:E. assert (Hr : r = (main demo_stage_args demo_sources).1) by (by rewrite E).
  assert (Hs : s' = (main demo_stage_args demo_sources).2) by (by rewrite E). rewrite Hr, Hs. clear E Hr Hs r s'.
  split; [vm_compute; done|]. vm_compute. done.
Qed.
