(* ===== verification/ActionGraph.v ===== *)
(** * The audit of Bazel's action graph: [ci/action_graph_validator.py]

    A graph is a message of [bazel aquery --output=jsonproto] after [json.load]. A field that the code reads with [get] and a
    default holds that default when the message lacks it; a field that it reads with [[]] is an option, whose absence raises
    KeyError. The sets of artifact ids are finite sets; Python's iteration order over them, which decides only the error that is
    reported first, is that of [elements]. *)
From S2P Require Import Prelude PyText Collections PosixPath.

Record PathFragment := { pf_id : option Z; pf_label : option text; pf_parentId : option Z }.
Record Artifact := { art_id : option Z; art_pathFragmentId : option Z }.
Record DepSet := { ds_id : option Z; ds_directArtifactIds : list Z; ds_transitiveDepSetIds : list Z }.
Record Variable_ := { var_key : text; var_value : text }.
Record Action := {
  ac_mnemonic : option text; ac_arguments : list text; ac_environmentVariables : list Variable_; ac_outputIds : list Z; ac_inputDepSetIds : list Z }.
Record GraphMessage := {
  gm_actions : list Action; gm_pathFragments : list PathFragment; gm_artifacts : list Artifact; gm_depSetOfFiles : list DepSet }.

(** ** Tables *)

Definition _FIXED_TOOL_PATH : text := lit "/bin:/usr/bin:/usr/local/bin".
Definition _HOST_TOOL_BASENAMES : list text := lit <$> ["ar"; "bash"; "cc"; "clang"; "gcc"; "ld"; "sh"; "strip"].
Definition _HERMETIC_PATH_ACTIONS : list text :=
  lit <$> ["CcStrip"; "CppArchive"; "CppCompile"; "CppLink"; "CppTransitiveArchive"; "PythonZipper"; "RunBinary"].
Definition _IN_PROCESS_ACTIONS : list text :=
  lit <$> ["CppModuleMap"; "ExecutableSymlink"; "FileWrite"; "Middleman"; "RepoMappingManifest"; "RunfilesTree"; "SolibSymlink";
           "SourceSymlinkManifest"; "Symlink"; "SymlinkTree"; "TemplateExpand"; "TranslateBuildInfo"; "UnresolvedSymlink"].
Definition _LLVM_TOOLS : text := lit "external/llvm++".
Definition _SPAWN_EXECUTABLES : dict text text :=
  [(lit "BuildDebianToolsArchive", lit "external/+debian_tools+mkosi_debian_python/python");
   (lit "CcStage0Compile", _LLVM_TOOLS);
   (lit "CcStrip", _LLVM_TOOLS);
   (lit "CopyFile", lit "external/bazel_lib++toolchains+coreutils_linux_amd64/coreutils");
   (lit "CopyToDirectory", lit "external/bazel_lib++toolchains+copy_to_directory_linux_amd64/copy_to_directory");
   (lit "CppArchive", _LLVM_TOOLS);
   (lit "CppCompile", _LLVM_TOOLS);
   (lit "CppLink", _LLVM_TOOLS);
   (lit "CppTransitiveArchive", _LLVM_TOOLS);
   (lit "PyCompile", lit "external/rules_python++python+python_3_");
   (lit "PythonZipper", lit "external/bazel_tools/tools/zip/zipper/zipper");
   (lit "RunBinary", _LLVM_TOOLS)].
Definition _REQUIRED_ACTIONS : list text := lit <$> ["BuildDebianToolsArchive"; "CppCompile"; "CppLink"].
Definition _INPUT_REPOSITORIES : list text :=
  lit <$> ["bazel_lib++toolchains+"; "bazel_tools"; "llvm+"; "rules_cc+"; "rules_python+"; "+debian_tools+"].
Definition _STATUS_FILES : list text := lit <$> ["volatile-status.txt"; "stable-status.txt"].
Definition _HERMETIC_ABSOLUTE_ARGUMENTS : list text := [lit "--sysroot=/dev/null"].
Definition _HOST_TOKENS : list text :=
  lit <$> ["/bin/bash"; "/usr/bin/gcc"; "/usr/bin/clang"; "/usr/bin/ar"; "/usr/bin/ld"; "/usr/bin/strip"; "local_config_cc"].

(** ** The pattern [_ABSOLUTE_PATH], searched in a token *)

Definition path_flags : list text :=
  lit <$> ["include"; "imacros"; "iprefix"; "iwithprefix"; "iwithprefixbefore"; "idirafter"; "iquote"; "isysroot"; "isystem"; "iframework";
           "MF"; "MT"; "MQ"; "MJ"].

(** One of [=:,] followed by a slash. *)
Fixpoint separated_slash (token : text) : bool :=
  match token with
  | c :: (d :: _) as rest => (bool_decide (c ∈ lit "=:,") && (d =? 47)) || separated_slash rest
  | _ => false
  end.

Definition _ABSOLUTE_PATH (token : text) : bool :=
  startswith token [47] || separated_slash token ||
  match token with c :: d :: e :: _ => (c =? 45) && (ascii_lower d || ascii_upper d) && (e =? 47) | _ => false end ||
  existsb (λ flag, startswith token ([45] ++ flag ++ [47])) path_flags.

Definition host_token (t : text) : bool := existsb (λ host, contains host t) _HOST_TOKENS.

(** ** The graph *)

(** [ActionGraph]; of the producers only the keys are read. *)
Record ActionGraph := { g_actions : list Action; g_paths : gmap Z text; g_dep_sets : gmap Z DepSet; g_producers : gset Z }.

Definition truthy_id (i : option Z) : option Z := match i with Some z => if z =? 0 then None else Some z | None => None end.

(** The loop of [_path]. *)
Fixpoint path_loop (fuel : nat) (fragments : gmap Z PathFragment) (fragment_id : option Z) (parts : list text) : result (list text) :=
  match truthy_id fragment_id with
  | None => mret parts
  | Some id =>
      match fuel with
      | O => Err OutOfFuel
      | S fuel =>
          fragment ← of_option KeyError (fragments !! id);
          label ← of_option KeyError (pf_label fragment);
          path_loop fuel fragments (pf_parentId fragment) (parts ++ [label])
      end
  end.

Definition _path (fragments : gmap Z PathFragment) (fragment_id : Z) : result text :=
  parts ← path_loop (S (size fragments)) fragments (Some fragment_id) [];
  mret (join [47] (reverse parts)).

Definition add_fragment (fragments : gmap Z PathFragment) (fragment : PathFragment) : result (gmap Z PathFragment) :=
  id ← of_option KeyError (pf_id fragment);
  mret (<[id := fragment]> fragments).

Definition add_artifact (fragments : gmap Z PathFragment) (paths : gmap Z text) (artifact : Artifact) : result (gmap Z text) :=
  id ← of_option KeyError (art_id artifact);
  fragment_id ← of_option KeyError (art_pathFragmentId artifact);
  path ← _path fragments fragment_id;
  mret (<[id := path]> paths).

Definition add_dep_set (dep_sets : gmap Z DepSet) (dep_set : DepSet) : result (gmap Z DepSet) :=
  id ← of_option KeyError (ds_id dep_set);
  mret (<[id := dep_set]> dep_sets).

Definition action_graph (graph : GraphMessage) : result ActionGraph :=
  fragments ← foldM add_fragment ∅ (gm_pathFragments graph);
  paths ← foldM (add_artifact fragments) ∅ (gm_artifacts graph);
  dep_sets ← foldM add_dep_set ∅ (gm_depSetOfFiles graph);
  mret {| g_actions := gm_actions graph; g_paths := paths; g_dep_sets := dep_sets; g_producers := list_to_set (gm_actions graph ≫= ac_outputIds) |}.

(** The loop of [input_ids]: [pending] is the list in reverse, so that its head is the element that [pop] takes. *)
Fixpoint input_loop (fuel : nat) (dep_sets : gmap Z DepSet) (pending : list Z) (seen artifacts : gset Z) : result (gset Z) :=
  match pending with
  | [] => mret artifacts
  | dep_set_id :: pending =>
      match fuel with
      | O => Err OutOfFuel
      | S fuel =>
          if bool_decide (dep_set_id ∈ seen) then input_loop fuel dep_sets pending seen artifacts
          else
            dep_set ← of_option KeyError (dep_sets !! dep_set_id);
            input_loop fuel dep_sets (reverse (ds_transitiveDepSetIds dep_set) ++ pending) ({[dep_set_id]} ∪ seen)
              (list_to_set (ds_directArtifactIds dep_set) ∪ artifacts)
      end
  end.

(** Every dependency set is expanded at most once. *)
Definition pushes (dep_sets : gmap Z DepSet) : nat := sum_list_with (λ d, length (ds_transitiveDepSetIds (snd d))) (map_to_list dep_sets).

Definition input_ids (graph : ActionGraph) (action : Action) : result (gset Z) :=
  input_loop (length (ac_inputDepSetIds action) + pushes (g_dep_sets graph)) (g_dep_sets graph) (reverse (ac_inputDepSetIds action)) ∅ ∅.

(** ** The checks of an action *)

Definition action_identity (action : Action) : result (list Z) :=
  raise_if (bool_decide (ac_outputIds action = [])) (ValueError "action without outputs: {action.get('mnemonic')}" []);;
  mret (merge_sort Z.le (ac_outputIds action)).

Definition mnemonic_in (action : Action) (names : list text) : bool := match ac_mnemonic action with Some m => bool_decide (m ∈ names) | None => false end.

Definition check_variable (mnemonic : text) (action : Action) (input_paths : list text) (variable : Variable_) : result unit :=
  let value := var_value variable in
  if bool_decide (value = []) || bool_decide (value = lit "/proc/self/cwd") then mret tt
  else if bool_decide (var_key variable = lit "PATH") && bool_decide (value = _FIXED_TOOL_PATH) then
    if bool_decide (mnemonic = lit "CcStrip") && bool_decide (take 1 (ac_arguments action) = [lit "/usr/bin/false"]) then mret tt
    else
      match ac_arguments action with
      | executable :: _ =>
          require (bool_decide (mnemonic ∈ _HERMETIC_PATH_ACTIONS)) (ValueError "nonempty PATH on unsupported action: {mnemonic}" [AText mnemonic]);;
          let basename := pp_name (PurePosixPath executable) in
          raise_if (negb (bool_decide (47 ∈ executable)) && bool_decide (basename ∈ _HOST_TOOL_BASENAMES))
            (ValueError "host-tool basename exposed through PATH: {basename}" [AText basename]);;
          require (bool_decide (executable ∈ input_paths)) (ValueError "PATH executable is not a declared input: {executable}" [AText executable])
      | [] => Err (ValueError "nonempty PATH on unsupported action: {mnemonic}" [AText mnemonic])
      end
  else raise_if (startswith value [47]) (ValueError "host environment path: {mnemonic} {key}={value}" [AText mnemonic; AText (var_key variable); AText value]).

Definition validate_action_environment (action : Action) (input_paths : list text) : result unit :=
  mnemonic ← of_option KeyError (ac_mnemonic action);
  foldM (λ _ variable, check_variable mnemonic action input_paths variable) tt (ac_environmentVariables action).

Definition validate_executable (action : Action) (input_paths : list text) : result unit :=
  if mnemonic_in action _IN_PROCESS_ACTIONS then
    raise_if (negb (bool_decide (ac_arguments action = []))) (ValueError "in-process action starts a process: {mnemonic} {arguments[0]}" [])
  else
    prefix ← of_option (ValueError "unmodeled action mnemonic: {mnemonic} {arguments[:1]}" []) (m ← ac_mnemonic action; dget m _SPAWN_EXECUTABLES);
    let executable := default [] (head (ac_arguments action)) in
    require (startswith executable prefix) (ValueError "unexpected executable for {mnemonic}: {executable}" [AText executable]);;
    require (bool_decide (executable ∈ input_paths)) (ValueError "executable is not a declared input: {mnemonic} {executable}" [AText executable]).

Definition validate_arguments (action : Action) : result unit :=
  foldM (λ _ token,
    if bool_decide (token ∈ _HERMETIC_ABSOLUTE_ARGUMENTS) then mret tt
    else raise_if (_ABSOLUTE_PATH token || host_token token) (ValueError "host path in arguments: {mnemonic} {token}" [AText token])) tt (ac_arguments action).

Definition check_input (graph : ActionGraph) (artifact_id : Z) : result unit :=
  path ← of_option KeyError (g_paths graph !! artifact_id);
  raise_if (host_token path) (ValueError "host toolchain input: {mnemonic} {path}" [AText path]);;
  if startswith path (lit "bazel-out/") then
    raise_if (negb (bool_decide (artifact_id ∈ g_producers graph)) && negb (existsb (endswith path) _STATUS_FILES))
      (ValueError "unproduced bazel-out input: {mnemonic} {path}" [AText path])
  else if startswith path (lit "external/") then
    repository ← get (split_max 2 47 path) 1;
    require (existsb (startswith repository) _INPUT_REPOSITORIES) (ValueError "input from an unmanaged repository: {mnemonic} {path}" [AText path])
  else require (startswith path (lit "mkosi/")) (ValueError "input outside the managed roots: {mnemonic} {path}" [AText path]).

Definition validate_inputs (graph : ActionGraph) (action : Action) : result unit :=
  ids ← input_ids graph action;
  foldM (λ _ artifact_id, check_input graph artifact_id) tt (elements ids).

(** ** The audit *)

Definition audit_action (graph : ActionGraph) (counts : dict text Z) (action : Action) : result (dict text Z) :=
  action_identity action;;
  ids ← input_ids graph action;
  input_paths ← mapM (λ artifact_id, of_option KeyError (g_paths graph !! artifact_id)) (elements ids);
  validate_executable action input_paths;;
  validate_arguments action;;
  validate_action_environment action input_paths;;
  validate_inputs graph action;;
  mnemonic ← of_option KeyError (ac_mnemonic action);
  mret (dset mnemonic (default 0 (dget mnemonic counts) + 1) counts).

Definition audit (graph_json : GraphMessage) : result (dict text Z) :=
  graph ← action_graph graph_json;
  counts ← foldM (audit_action graph) [] (g_actions graph);
  let missing := List.filter (λ mnemonic, negb (dmem mnemonic counts)) _REQUIRED_ACTIONS in
  raise_if (negb (bool_decide (missing = []))) (ValueError "required actions are missing: {', '.join(missing)}" [ATexts missing]);;
  mret counts.
