(* ===== verification/ActionGraphProofs.v ===== *)
(** * The audit of the action graph: what it accepts

    The inputs of an action are exactly the artifacts of the dependency sets it reaches; the walk from a path fragment to the root
    ends unless the parents form a cycle; the audit returns exactly for the graphs whose actions are all [hermetic]. *)
From stdpp Require Import relations.
From S2P Require Import Prelude PyText Collections PosixPath ActionGraph.

(** ** Dependency sets *)

Section inputs.
Context (dep_sets : gmap Z DepSet).

Definition edge (x y : Z) : Prop := ∃ d, dep_sets !! x = Some d ∧ y ∈ ds_transitiveDepSetIds d.
Definition reachable (roots : list Z) (x : Z) : Prop := ∃ r, r ∈ roots ∧ rtc edge r x.
Definition holds_artifact (roots : list Z) (a : Z) : Prop := ∃ x d, reachable roots x ∧ dep_sets !! x = Some d ∧ a ∈ ds_directArtifactIds d.

Definition weight (seen : gset Z) : nat :=
  sum_list_with (λ d, if bool_decide (fst d ∈ seen) then O else length (ds_transitiveDepSetIds (snd d))) (map_to_list dep_sets).

Lemma weight_empty : weight ∅ = pushes dep_sets.
Proof. unfold weight, pushes. induction (map_to_list dep_sets) as [|d l IH]; [done|]. cbn. by rewrite IH. Qed.

Lemma sum_list_with_perm {A} (f : A → nat) l k : l ≡ₚ k → sum_list_with f l = sum_list_with f k.
Proof. induction 1; cbn; lia. Qed.

Lemma weight_see x d seen : dep_sets !! x = Some d → x ∉ seen → weight seen = (length (ds_transitiveDepSetIds d) + weight ({[x]} ∪ seen))%nat.
Proof.
  intros Hx Hseen. unfold weight. rewrite <- !(sum_list_with_perm _ _ _ (map_to_list_delete _ _ _ Hx)). cbn.
  rewrite bool_decide_eq_false_2, bool_decide_eq_true_2 by set_solver. cbn. f_equal.
  assert (Hrest : ∀ p, p ∈ map_to_list (delete x dep_sets) → fst p ≠ x).
  { intros [y e] Hp Heq. cbn in Heq. subst y. apply elem_of_map_to_list in Hp. by rewrite lookup_delete_eq in Hp. }
  induction (map_to_list (delete x dep_sets)) as [|p l IH]; [done|]. cbn. rewrite IH by (intros; apply Hrest; by right). f_equal.
  assert (fst p ≠ x) by (apply Hrest; by left). by rewrite (bool_decide_ext (fst p ∈ {[x]} ∪ seen) (fst p ∈ seen)) by set_solver.
Qed.

(** What the loop keeps: everything found is reachable, and what it has seen leads only to what it has seen or will see. *)
Record input_inv (roots pending : list Z) (seen artifacts : gset Z) : Prop := {
  roots_known : ∀ x, x ∈ roots → x ∈ seen ∨ x ∈ pending;
  pending_reachable : ∀ x, x ∈ pending → reachable roots x;
  seen_reachable : ∀ x, x ∈ seen → reachable roots x;
  seen_closed : ∀ x, x ∈ seen → ∃ d, dep_sets !! x = Some d ∧ ∀ y, y ∈ ds_transitiveDepSetIds d → y ∈ seen ∨ y ∈ pending;
  artifacts_exact : ∀ a, a ∈ artifacts ↔ ∃ x d, x ∈ seen ∧ dep_sets !! x = Some d ∧ a ∈ ds_directArtifactIds d }.

Lemma inv_final roots seen artifacts :
  input_inv roots [] seen artifacts → (∀ x, reachable roots x → is_Some (dep_sets !! x)) ∧ ∀ a, a ∈ artifacts ↔ holds_artifact roots a.
Proof.
  intros [Hroots _ Hreach Hclosed Hart].
  assert (Hseen : ∀ x, reachable roots x → x ∈ seen).
  { intros x (r & Hr & Hrx). assert (r ∈ seen) as Hin by (destruct (Hroots r Hr) as [|?%elem_of_nil]; done). clear Hr.
    induction Hrx as [r|r y x (d & Hd & Hy) _ IH]; [done|]. apply IH. destruct (Hclosed r Hin) as (d' & Hd' & Hall).
    rewrite Hd in Hd'. injection Hd' as <-. destruct (Hall y Hy) as [|?%elem_of_nil]; done. }
  split.
  - intros x Hx. destruct (Hclosed x (Hseen x Hx)) as (d & -> & _). eauto.
  - intros a. rewrite Hart. unfold holds_artifact. naive_solver.
Qed.

Lemma inv_skip roots x pending seen artifacts : x ∈ seen → input_inv roots (x :: pending) seen artifacts → input_inv roots pending seen artifacts.
Proof.
  intros Hx [H1 H2 H3 H4 H5]. split; [|set_solver|done| |done].
  - intros y [|[->|]%elem_of_cons]%H1; auto.
  - intros y Hy. destruct (H4 y Hy) as (d & Hd & Hall). exists d. split; [done|]. intros z [|[->|]%elem_of_cons]%Hall; auto.
Qed.

Lemma inv_expand roots x d pending seen artifacts :
  dep_sets !! x = Some d → input_inv roots (x :: pending) seen artifacts →
  input_inv roots (reverse (ds_transitiveDepSetIds d) ++ pending) ({[x]} ∪ seen) (list_to_set (ds_directArtifactIds d) ∪ artifacts).
Proof.
  intros Hx [H1 H2 H3 H4 H5]. assert (Hr : reachable roots x) by (apply H2; by left). split.
  - intros y [|[->|]%elem_of_cons]%H1; set_solver.
  - intros y [Hy|Hy]%elem_of_app; [|apply H2; by right]. rewrite elem_of_reverse in Hy. destruct Hr as (r & Hr & Hrx). exists r. split; [done|].
    apply rtc_r with x; [done|]. by exists d.
  - intros y [->%elem_of_singleton|]%elem_of_union; auto.
  - intros y [->%elem_of_singleton|Hy]%elem_of_union.
    + exists d. split; [done|]. intros z Hz. right. apply elem_of_app. left. by apply elem_of_reverse.
    + destruct (H4 y Hy) as (e & He & Hall). exists e. split; [done|]. intros z [|[->|]%elem_of_cons]%Hall; set_solver.
  - intros a. rewrite elem_of_union, elem_of_list_to_set, H5. split.
    + intros [Ha|(y & e & Hy & He & Ha)]; [exists x, d|exists y, e]; set_solver.
    + intros (y & e & [->%elem_of_singleton|Hy]%elem_of_union & He & Ha); [left; congruence|right; eauto].
Qed.

Lemma input_loop_spec roots fuel pending seen artifacts :
  (length pending + weight seen ≤ fuel)%nat → input_inv roots pending seen artifacts →
  match input_loop fuel dep_sets pending seen artifacts with
  | Ok found => (∀ x, reachable roots x → is_Some (dep_sets !! x)) ∧ ∀ a, a ∈ found ↔ holds_artifact roots a
  | Err e => e = KeyError ∧ ∃ x, reachable roots x ∧ dep_sets !! x = None
  end.
Proof.
  revert pending seen artifacts. induction fuel as [|fuel IH]; intros pending seen artifacts Hfuel Hinv.
  - destruct pending as [|x pending]; [|cbn in Hfuel; lia]. cbn. by eapply inv_final.
  - destruct pending as [|x pending]; [by eapply inv_final|]. cbn [input_loop length] in *.
    case_bool_decide as Hseen; [apply IH; [lia|by eapply inv_skip]|].
    destruct (dep_sets !! x) as [d|] eqn:Hx; cbn.
    + apply IH; [|by apply inv_expand]. rewrite length_app, length_reverse. rewrite (weight_see x d) in Hfuel by done. lia.
    + split; [done|]. exists x. split; [|done]. apply (pending_reachable _ _ _ _ Hinv). by left.
Qed.
End inputs.

Lemma input_ids_spec graph action :
  match input_ids graph action with
  | Ok found => (∀ x, reachable (g_dep_sets graph) (ac_inputDepSetIds action) x → is_Some (g_dep_sets graph !! x)) ∧
      ∀ a, a ∈ found ↔ holds_artifact (g_dep_sets graph) (ac_inputDepSetIds action) a
  | Err e => e = KeyError ∧ ∃ x, reachable (g_dep_sets graph) (ac_inputDepSetIds action) x ∧ g_dep_sets graph !! x = None
  end.
Proof.
  unfold input_ids. apply input_loop_spec; [rewrite length_reverse, weight_empty; lia|]. split; [| |set_solver..].
  - intros x Hx. right. by apply elem_of_reverse.
  - intros x Hx. rewrite elem_of_reverse in Hx. by exists x.
Qed.

(** The inputs of an action are exactly the artifacts that the dependency sets reachable from it hold, whatever the
    sets share or however they are nested, cycles included; KeyError is raised exactly when a reachable set is missing from the graph,
    and the loop always ends. *)
Theorem input_ids_exact graph action :
  let sets := g_dep_sets graph in let roots := ac_inputDepSetIds action in
  (∃ found, input_ids graph action = Ok found ∧ (∀ x, reachable sets roots x → is_Some (sets !! x)) ∧ ∀ a, a ∈ found ↔ holds_artifact sets roots a) ∨
  (input_ids graph action = Err KeyError ∧ ∃ x, reachable sets roots x ∧ sets !! x = None).
Proof. intros sets roots. pose proof (input_ids_spec graph action) as H. destruct (input_ids graph action) as [found|e]; [left; eauto|]. right. by destruct H as [-> H]. Qed.

(** ** Path fragments *)

Section fragments.
Context (fragments : gmap Z PathFragment).

(** A step of the walk: to the parent of a fragment that has a label. *)
Definition climbs (x y : Z) : Prop :=
  x ≠ 0 ∧ ∃ f label, fragments !! x = Some f ∧ pf_label f = Some label ∧ truthy_id (pf_parentId f) = Some y.

Lemma climbs_det x y z : climbs x y → climbs x z → y = z.
Proof. intros (_ & f & l & Hf & _ & Hy) (_ & f' & l' & Hf' & _ & Hz). congruence. Qed.

Lemma nsteps_det n x y z : nsteps climbs n x y → nsteps climbs n x z → y = z.
Proof.
  intros H. revert z. induction H as [x|n x y z Hxy _ IH]; intros w Hw; inv Hw; [done|]. apply IH.
  match goal with H : climbs x ?u |- _ => by rewrite (climbs_det _ _ _ Hxy H) end.
Qed.

Lemma truthy_spec i x : truthy_id i = Some x ↔ i = Some x ∧ x ≠ 0.
Proof. destruct i as [z|]; cbn; [|naive_solver]. destruct (Z.eqb_spec z 0); naive_solver. Qed.

Lemma path_loop_fuel fuel x parts :
  path_loop fuel fragments (Some x) parts = Err OutOfFuel ↔ x ≠ 0 ∧ ∃ y, nsteps climbs fuel x y.
Proof.
  revert x parts. induction fuel as [|fuel IH]; intros x parts; cbn [path_loop]; destruct (truthy_id (Some x)) as [z|] eqn:Hx.
  - apply truthy_spec in Hx as [[= ->] Hz]. split; [|done]. intros _. split; [done|]. exists z. constructor.
  - split; [done|]. intros [Hz _]. cbn in Hx. by destruct (Z.eqb_spec x 0).
  - apply truthy_spec in Hx as [[= <-] Hz]. destruct (fragments !! x) as [f|] eqn:Hf; cbn.
    2:{ split; [done|]. intros (_ & y & Hy). inv Hy. destruct H0 as (_ & ? & ? & ? & _). congruence. }
    destruct (pf_label f) as [label|] eqn:Hl; cbn.
    2:{ split; [done|]. intros (_ & y & Hy). inv Hy. destruct H0 as (_ & ? & ? & ? & ? & _). congruence. }
    destruct (truthy_id (pf_parentId f)) as [p|] eqn:Hp.
    + assert (Hstep : climbs x p) by (split; [done|eauto]). apply truthy_spec in Hp as [-> Hp0]. rewrite IH. split.
      * intros (_ & y & Hy). split; [done|]. exists y. by econstructor.
      * intros (_ & y & Hy). split; [done|]. exists y. inv Hy. by rewrite (climbs_det _ _ _ Hstep H0).
    + split; [|intros (_ & y & Hy); inv Hy; destruct H0 as (_ & ? & ? & ? & _ & ?); congruence].
      destruct fuel; cbn [path_loop]; by rewrite Hp.
  - split; [done|]. intros [Hz _]. cbn in Hx. by destruct (Z.eqb_spec x 0).
Qed.

Lemma nsteps_prefix n m x y : (n ≤ m)%nat → nsteps (climbs) m x y → ∃ z, nsteps climbs n x z ∧ nsteps climbs (m - n) z y.
Proof. intros Hle H. replace m with (n + (m - n))%nat in H by lia. by apply nsteps_add_inv in H. Qed.

Lemma cycle_forever n x : nsteps climbs (S n) x x → ∀ m, ∃ y, nsteps climbs m x y.
Proof.
  intros Hcycle m. induction (lt_wf m) as [m _ IH]. destruct (decide (m ≤ S n)%nat) as [Hle|Hgt].
  - destruct (nsteps_prefix _ _ _ _ Hle Hcycle) as (z & Hz & _). eauto.
  - destruct (IH (m - S n)%nat) as [y Hy]; [lia|]. exists y. replace m with (S n + (m - S n))%nat by lia. by eapply nsteps_trans.
Qed.

(** The fragments on a walk. *)
Lemma nsteps_trace n x y : nsteps climbs n x y → ∃ l, length l = n ∧ ∀ i z, l !! i = Some z → nsteps climbs i x z ∧ z ∈ dom fragments.
Proof.
  induction 1 as [x|n x y z Hxy _ (l & Hlen & Hl)]; [by exists []|]. exists (x :: l). split; [by cbn; rewrite Hlen|].
  intros [|i] w Hw; cbn in Hw.
  - injection Hw as <-. split; [constructor|]. destruct Hxy as (_ & f & label & Hf & _). by apply elem_of_dom.
  - destruct (Hl i w Hw) as [Hi Hdom]. split; [|done]. by econstructor.
Qed.

Lemma repeated_element (l : list Z) : ¬ NoDup l → ∃ i j x, (i < j)%nat ∧ l !! i = Some x ∧ l !! j = Some x.
Proof.
  induction l as [|x l IH]; intros Hdup; [by destruct Hdup; constructor|]. destruct (decide (x ∈ l)) as [Hx|Hx].
  - apply list_elem_of_lookup in Hx as [j Hj]. exists O, (S j), x. split_and!; [lia|done..].
  - destruct IH as (i & j & y & Hij & Hi & Hj); [intros Hl; apply Hdup; by constructor|]. exists (S i), (S j), y. split_and!; [lia|done..].
Qed.

Lemma long_walk_forever x y : nsteps climbs (S (size fragments)) x y → ∀ m, ∃ z, nsteps climbs m x z.
Proof.
  intros Hwalk. destruct (nsteps_trace _ _ _ Hwalk) as (l & Hlen & Hl). destruct (repeated_element l) as (i & j & z & Hij & Hi & Hj).
  { intros Hnd. assert (Hsub : l ⊆+ elements (dom fragments)).
    { apply NoDup_submseteq; [done|]. intros z (i & Hi)%list_elem_of_lookup. apply elem_of_elements. by apply (Hl i). }
    assert (Hsize : length (elements (dom fragments)) = size fragments) by apply size_dom.
    apply submseteq_length in Hsub. lia. }
  apply Hl in Hi as [Hi _]. apply Hl in Hj as [Hj _].
  assert (Hcycle : nsteps climbs (S (j - i - 1)) z z).
  { destruct (nsteps_prefix i j _ _ ltac:(lia) Hj) as (w & Hw & Hwz). rewrite (nsteps_det _ _ _ _ Hi Hw) at 1.
    by replace (S (j - i - 1)) with (j - i)%nat by lia. }
  intros m. destruct (decide (m ≤ i)%nat) as [Hle|Hgt].
  - destruct (nsteps_prefix _ _ _ _ Hle Hi) as (w & Hw & _). eauto.
  - destruct (cycle_forever _ _ Hcycle (m - i)%nat) as [w Hw]. exists w. replace m with (i + (m - i))%nat by lia. by eapply nsteps_trans.
Qed.

(** The loop that joins the labels of a path ends within one round more than there are fragments, or never: when it
    has not ended by then, no number of rounds is enough, because the parents form a cycle. *)
Theorem path_ends_or_cycles fragment_id :
  _path fragments fragment_id = Err OutOfFuel → ∀ rounds, path_loop rounds fragments (Some fragment_id) [] = Err OutOfFuel.
Proof.
  intros Hpath rounds. unfold _path in Hpath. destruct (path_loop _ _ _ _) as [parts|e] eqn:Hloop; [done|]. injection Hpath as ->.
  apply path_loop_fuel in Hloop as (Hx & y & Hwalk). apply path_loop_fuel. split; [done|]. by eapply long_walk_forever.
Qed.
End fragments.

Lemma path_ends_or_cycles_witness :
  let fragments := <[1 := {| pf_id := Some 1; pf_label := Some (lit "a"); pf_parentId := Some 2 |}]> (<[2 := {| pf_id := Some 2; pf_label := Some (lit "b"); pf_parentId := Some 1 |}]> ∅) in
  ∀ rounds, path_loop rounds fragments (Some 1) [] = Err OutOfFuel.
Proof. intros fragments. apply (path_ends_or_cycles fragments 1). by_compute. Defined.

(** ** What the audit accepts *)

Definition needs (g : ActionGraph) (action : Action) (id : Z) : Prop := holds_artifact (g_dep_sets g) (ac_inputDepSetIds action) id.
Definition input_path (g : ActionGraph) (action : Action) (path : text) : Prop := ∃ id, needs g action id ∧ g_paths g !! id = Some path.

(** A path that an action may read: one that the build produces, one below a managed repository, or one of the module. *)
Definition managed (g : ActionGraph) (id : Z) (path : text) : Prop :=
  host_token path = false ∧
  ((lit "bazel-out/" `prefix_of` path ∧ (id ∈ g_producers g ∨ ∃ name, name ∈ _STATUS_FILES ∧ name `suffix_of` path)) ∨
   (∃ repository, repository ∈ _INPUT_REPOSITORIES ∧ lit "external/" ++ repository `prefix_of` path) ∨
   lit "mkosi/" `prefix_of` path).

Record hermetic (g : ActionGraph) (action : Action) (mnemonic : text) : Prop := {
  has_output : ac_outputIds action ≠ [];
  has_mnemonic : ac_mnemonic action = Some mnemonic;
  known_inputs : ∀ x, reachable (g_dep_sets g) (ac_inputDepSetIds action) x → is_Some (g_dep_sets g !! x);
  managed_inputs : ∀ id, needs g action id → ∃ path, g_paths g !! id = Some path ∧ managed g id path;
  in_build_process :
    (mnemonic ∈ _IN_PROCESS_ACTIONS ∧ ac_arguments action = []) ∨
    (∃ prefix executable arguments, dget mnemonic _SPAWN_EXECUTABLES = Some prefix ∧ ac_arguments action = executable :: arguments ∧
       prefix `prefix_of` executable ∧ input_path g action executable);
  relative_arguments : ∀ token, token ∈ ac_arguments action →
    token = lit "--sysroot=/dev/null" ∨ (_ABSOLUTE_PATH token = false ∧ host_token token = false);
  plain_environment : ∀ v, v ∈ ac_environmentVariables action →
    var_value v = [] ∨ var_value v = lit "/proc/self/cwd" ∨ ¬ lit "/" `prefix_of` var_value v ∨
    (var_key v = lit "PATH" ∧ var_value v = _FIXED_TOOL_PATH ∧ mnemonic ∈ _HERMETIC_PATH_ACTIONS) }.

(** *** The paths of the inputs *)

Lemma prefix_before (c : Z) p part others : c ∉ p → p `prefix_of` part ++ c :: others ↔ p `prefix_of` part.
Proof.
  intros Hc. split; [|intros Hp; by apply prefix_app_r].
  intros Hp. destruct (prefix_weak_total p (part ++ [c]) (part ++ c :: others) Hp) as [Hle|Hge].
  - exists others. by rewrite <- app_assoc.
  - apply prefix_snoc_inv in Hle as [?| ->]; [done|]. destruct Hc. set_solver.
  - destruct Hge as [rest ->]. destruct Hc. set_solver.
Qed.

Lemma startswith_iff t p : startswith t p = true ↔ p `prefix_of` t.
Proof. apply bool_decide_eq_true. Qed.

Lemma repository_prefix repository rest :
  47 ∉ repository → (∃ part, get (split_max 2 47 (lit "external/" ++ rest)) 1 = Ok part ∧ startswith part repository = true) ↔ repository `prefix_of` rest.
Proof.
  intros Hslash. change (lit "external/" ++ rest) with (lit "external" ++ 47 :: rest).
  assert (Hfirst : partition_on 47 (lit "external" ++ 47 :: rest) = (lit "external", Some rest)).
  { apply partition_on_Some. split; [done|]. apply (bool_decide_unpack _). vm_compute. exact I. }
  cbn [split_max]. rewrite Hfirst. destruct (partition_on 47 rest) as [part [others|]] eqn:Hrest.
  - apply partition_on_Some in Hrest as [-> Hpart]. rewrite prefix_before by done. rewrite <- startswith_iff.
    split; [by intros (? & [= <-] & Ht)|]. intros Ht. by exists part.
  - apply partition_on_None in Hrest as [-> Hpart]. rewrite <- startswith_iff. split; [by intros (? & [= <-] & Ht)|]. intros Ht. by exists rest.
Qed.

Lemma repository_match rest :
  (∃ part, get (split_max 2 47 (lit "external/" ++ rest)) 1 = Ok part ∧ existsb (startswith part) _INPUT_REPOSITORIES = true) ↔
  ∃ repository, repository ∈ _INPUT_REPOSITORIES ∧ repository `prefix_of` rest.
Proof.
  assert (Hslash : Forall (λ r, 47 ∉ r) _INPUT_REPOSITORIES) by (apply (bool_decide_unpack _); vm_compute; exact I). rewrite Forall_forall in Hslash.
  setoid_rewrite existsb_exists. setoid_rewrite <- list_elem_of_In. split.
  - intros (part & Hpart & r & Hr & Hs). exists r. split; [done|]. apply repository_prefix; eauto.
  - intros (r & Hr & Hp). apply repository_prefix in Hp as (part & Hpart & Hs); eauto.
Qed.

Lemma check_input_iff g id : check_input g id = Ok tt ↔ ∃ path, g_paths g !! id = Some path ∧ managed g id path.
Proof.
  unfold check_input, managed. rewrite bind_Ok_iff. setoid_rewrite of_option_iff. apply exist_proper. intros path. apply and_iff_compat_l.
  rewrite then_Ok, raise_if_iff. apply and_iff_compat_l.
  destruct (startswith path (lit "bazel-out/")) eqn:Hout; [|destruct (startswith path (lit "external/")) eqn:Hext].
  - apply startswith_spec in Hout as [rest ->]. rewrite raise_if_iff, andb_false_iff, !negb_false_iff, bool_decide_eq_true, existsb_exists. split.
    + intros Hok. left. split; [by eexists|]. destruct Hok as [|(name & Hname & Hs)]; [by left|]. right. exists name.
      split; [by apply list_elem_of_In|]. by apply bool_decide_eq_true in Hs.
    + intros [[_ [|(name & Hname & Hs)]]|[(r & _ & [t Ht])|[t Ht]]]; [by left| |done..]. right. exists name.
      split; [by apply list_elem_of_In|]. by apply bool_decide_eq_true.
  - apply startswith_spec in Hext as [rest ->]. rewrite bind_Ok_iff. setoid_rewrite require_iff. rewrite repository_match. split.
    + intros (r & Hr & Hp). right. left. exists r. split; [done|]. by apply prefix_app.
    + intros [[[t Ht] _]|[(r & Hr & Hp)|[t Ht]]]; [done| |done]. exists r. split; [done|]. by apply prefix_app_inv in Hp.
  - rewrite require_iff, startswith_iff. split; [by right; right|]. intros [[Hp _]|[(r & _ & Hp)|Hp]]; [| |done].
    + apply startswith_iff in Hp. congruence.
    + assert (startswith path (lit "external/") = true); [|congruence]. apply startswith_iff. destruct Hp as [t ->].
      exists (r ++ t). by rewrite app_assoc.
Qed.

Lemma validate_inputs_iff g action :
  validate_inputs g action = Ok tt ↔
  (∀ x, reachable (g_dep_sets g) (ac_inputDepSetIds action) x → is_Some (g_dep_sets g !! x)) ∧
  ∀ id, needs g action id → ∃ path, g_paths g !! id = Some path ∧ managed g id path.
Proof.
  unfold validate_inputs. pose proof (input_ids_spec g action) as Hids. destruct (input_ids g action) as [ids|e]; cbn [mbind result_bind].
  - destruct Hids as [Hknown Hids]. rewrite (foldM_checks (check_input g)). setoid_rewrite elem_of_elements. setoid_rewrite Hids.
    setoid_rewrite check_input_iff. naive_solver.
  - destruct Hids as (-> & x & Hx & Hnone). split; [done|]. intros [Hknown _]. destruct (Hknown x Hx). congruence.
Qed.

(** The list of input paths that the checks get. *)
Definition paths_of (g : ActionGraph) (action : Action) (paths : list text) : Prop := ∀ path, path ∈ paths ↔ input_path g action path.

Lemma input_paths_Ok g action ids paths :
  input_ids g action = Ok ids → mapM (λ id, of_option KeyError (g_paths g !! id)) (elements ids) = Ok paths → paths_of g action paths.
Proof.
  intros Hids Hpaths path. pose proof (input_ids_spec g action) as Hspec. rewrite Hids in Hspec. destruct Hspec as [_ Hspec].
  apply mapM_Forall2 in Hpaths. unfold input_path, needs. setoid_rewrite <- Hspec. setoid_rewrite <- elem_of_elements. split.
  - intros (i & Hi)%list_elem_of_lookup. destruct (Forall2_lookup_r _ _ _ _ _ Hpaths Hi) as (id & Hid & Hp%of_option_Ok).
    exists id. split; [by eapply list_elem_of_lookup_2|done].
  - intros (id & (i & Hi)%list_elem_of_lookup & Hp). destruct (Forall2_lookup_l _ _ _ _ _ Hpaths Hi) as (path' & Hin & Hp'%of_option_Ok).
    rewrite Hp in Hp'. injection Hp' as <-. by eapply list_elem_of_lookup_2.
Qed.

Lemma input_paths_exist g action :
  (∀ x, reachable (g_dep_sets g) (ac_inputDepSetIds action) x → is_Some (g_dep_sets g !! x)) →
  (∀ id, needs g action id → is_Some (g_paths g !! id)) →
  ∃ ids paths, input_ids g action = Ok ids ∧ mapM (λ id, of_option KeyError (g_paths g !! id)) (elements ids) = Ok paths.
Proof.
  intros Hknown Hneeds. pose proof (input_ids_spec g action) as Hspec. destruct (input_ids g action) as [ids|e].
  2:{ destruct Hspec as (-> & x & Hx & Hnone). destruct (Hknown x Hx). congruence. }
  exists ids, ((λ id, default [] (g_paths g !! id)) <$> elements ids). split; [done|]. apply mapM_Forall2, Forall2_fmap_r, Forall_Forall2_diag.
  apply Forall_forall. intros id Hid%elem_of_elements. apply Hspec in Hid. destruct (Hneeds id Hid) as [path Hp]. cbn. by rewrite Hp.
Qed.

(** *** The process *)

Definition process_ok (g : ActionGraph) (action : Action) (m : text) : Prop :=
  (m ∈ _IN_PROCESS_ACTIONS ∧ ac_arguments action = []) ∨
  (∃ prefix executable arguments, dget m _SPAWN_EXECUTABLES = Some prefix ∧ ac_arguments action = executable :: arguments ∧
     prefix `prefix_of` executable ∧ input_path g action executable).

Lemma tables_disjoint m : m ∈ _IN_PROCESS_ACTIONS → dget m _SPAWN_EXECUTABLES = None.
Proof.
  assert (H : Forall (λ m, dget m _SPAWN_EXECUTABLES = None) _IN_PROCESS_ACTIONS) by (apply (bool_decide_unpack _); vm_compute; exact I).
  rewrite Forall_forall in H. apply H.
Qed.

(** Every executable of the table is below external/. *)
Lemma spawn_external m prefix executable :
  dget m _SPAWN_EXECUTABLES = Some prefix → prefix `prefix_of` executable → lit "external/" `prefix_of` executable.
Proof.
  assert (H : Forall (λ e, lit "external/" `prefix_of` snd e) _SPAWN_EXECUTABLES) by (apply (bool_decide_unpack _); vm_compute; exact I).
  rewrite Forall_forall in H. intros Hm%dget_Some_elem. apply H in Hm. cbn in Hm. intros. by etrans.
Qed.

Lemma validate_executable_iff g action m paths :
  ac_mnemonic action = Some m → paths_of g action paths → validate_executable action paths = Ok tt ↔ process_ok g action m.
Proof.
  intros Hm Hpaths. unfold paths_of in Hpaths. unfold validate_executable, mnemonic_in, process_ok. rewrite Hm. cbn [mbind option_bind].
  destruct (bool_decide_reflect (m ∈ _IN_PROCESS_ACTIONS)) as [Hin|Hout].
  - rewrite raise_if_iff, negb_false_iff, bool_decide_eq_true, (tables_disjoint m) by done. naive_solver.
  - destruct (dget m _SPAWN_EXECUTABLES) as [prefix|] eqn:Hspawn; cbn [of_option mbind result_bind]; [|naive_solver].
    rewrite then_Ok, !require_iff, bool_decide_eq_true, startswith_iff, Hpaths. split.
    + intros [Hp Hi]. right. destruct (ac_arguments action) as [|executable arguments] eqn:Hargs; cbn in Hp, Hi.
      * apply (spawn_external m) in Hp as [t Ht]; [done|done].
      * exists prefix, executable, arguments. done.
    + intros [[? _]|(p & executable & arguments & [= <-] & -> & Hp & Hi)]; [done|]. done.
Qed.

Lemma validate_arguments_iff action :
  validate_arguments action = Ok tt ↔
  ∀ token, token ∈ ac_arguments action → token = lit "--sysroot=/dev/null" ∨ (_ABSOLUTE_PATH token = false ∧ host_token token = false).
Proof.
  unfold validate_arguments.
  rewrite (foldM_checks (λ token, if bool_decide (token ∈ _HERMETIC_ABSOLUTE_ARGUMENTS) then mret tt else raise_if _ _)).
  apply forall_proper. intros token. apply forall_proper. intros _.
  destruct (bool_decide_reflect (token ∈ _HERMETIC_ABSOLUTE_ARGUMENTS)) as [Hin|Hout]; unfold _HERMETIC_ABSOLUTE_ARGUMENTS in *.
  - apply list_elem_of_singleton in Hin. naive_solver.
  - rewrite list_elem_of_singleton in Hout. rewrite raise_if_iff, orb_false_iff. naive_solver.
Qed.

(** *** The environment *)

Definition variable_ok (m : text) (v : Variable_) : Prop :=
  var_value v = [] ∨ var_value v = lit "/proc/self/cwd" ∨ ¬ lit "/" `prefix_of` var_value v ∨
  (var_key v = lit "PATH" ∧ var_value v = _FIXED_TOOL_PATH ∧ m ∈ _HERMETIC_PATH_ACTIONS).

Lemma path_actions_spawn m : m ∈ _HERMETIC_PATH_ACTIONS → m ∉ _IN_PROCESS_ACTIONS.
Proof.
  assert (H : Forall (λ m, m ∉ _IN_PROCESS_ACTIONS) _HERMETIC_PATH_ACTIONS) by (apply (bool_decide_unpack _); vm_compute; exact I).
  rewrite Forall_forall in H. apply H.
Qed.

(** Once the process of an action is accepted, the fixed PATH is accepted exactly for the actions of the table. *)
Lemma check_variable_iff g action m paths v :
  paths_of g action paths → process_ok g action m → check_variable m action paths v = Ok tt ↔ variable_ok m v.
Proof.
  intros Hpaths Hprocess. unfold paths_of in Hpaths. unfold check_variable, variable_ok. change (lit "/") with [47].
  destruct (bool_decide_reflect (var_value v = [])) as [He|He]; cbn [orb]; [naive_solver|].
  destruct (bool_decide_reflect (var_value v = lit "/proc/self/cwd")) as [Hc|Hc]; [naive_solver|].
  destruct (bool_decide_reflect (var_key v = lit "PATH")) as [Hk|Hk]; cbn [andb].
  2:{ rewrite raise_if_iff, <- not_true_iff_false, startswith_iff. naive_solver. }
  destruct (bool_decide_reflect (var_value v = _FIXED_TOOL_PATH)) as [Hv|Hv].
  2:{ rewrite raise_if_iff, <- not_true_iff_false, startswith_iff. naive_solver. }
  assert (Habs : [47] `prefix_of` var_value v) by (rewrite Hv; apply (bool_decide_unpack _); vm_compute; exact I).
  assert (Hgoal : (var_value v = [] ∨ var_value v = lit "/proc/self/cwd" ∨ ¬ [47] `prefix_of` var_value v ∨
    var_key v = lit "PATH" ∧ var_value v = _FIXED_TOOL_PATH ∧ m ∈ _HERMETIC_PATH_ACTIONS) ↔ m ∈ _HERMETIC_PATH_ACTIONS) by naive_solver.
  rewrite Hgoal. clear Hgoal. destruct Hprocess as [[Hin Hargs]|(prefix & executable & arguments & Hspawn & Hargs & Hp & Hi)]; rewrite Hargs.
  - replace (bool_decide (take 1 [] = [lit "/usr/bin/false"])) with false by done. rewrite andb_false_r. split; [done|].
    intros Hpath. by apply path_actions_spawn in Hpath.
  - destruct (spawn_external _ _ _ Hspawn Hp) as [rest ->].
    replace (bool_decide (take 1 ((lit "external/" ++ rest) :: arguments) = [lit "/usr/bin/false"])) with false by done.
    rewrite andb_false_r, !then_Ok, !require_iff, raise_if_iff, !bool_decide_eq_true, Hpaths.
    rewrite (bool_decide_eq_true_2 (47 ∈ lit "external/" ++ rest)); [cbn [negb andb]; naive_solver|].
    apply elem_of_app. left. apply (bool_decide_unpack _). vm_compute. exact I.
Qed.

Lemma validate_environment_iff g action m paths :
  ac_mnemonic action = Some m → paths_of g action paths → process_ok g action m →
  validate_action_environment action paths = Ok tt ↔ ∀ v, v ∈ ac_environmentVariables action → variable_ok m v.
Proof.
  intros Hm Hpaths Hprocess. unfold validate_action_environment. rewrite Hm. cbn [of_option mbind result_bind].
  rewrite (foldM_checks (check_variable m action paths)). apply forall_proper. intros v. apply forall_proper. intros _. by eapply check_variable_iff.
Qed.

(** *** One action, and the whole graph *)

Definition tally (mnemonics : list text) : dict text Z := foldl (λ counts m, dset m (default 0 (dget m counts) + 1) counts) [] mnemonics.

Lemma audit_action_iff g counts action counts' :
  audit_action g counts action = Ok counts' ↔ ∃ m, hermetic g action m ∧ counts' = dset m (default 0 (dget m counts) + 1) counts.
Proof.
  unfold audit_action, action_identity. split.
  - intros (out & Hout & H)%bind_Ok_inv. apply bind_Ok_inv in Hout as ([] & Hout%raise_if_Ok & _). apply bool_decide_eq_false in Hout.
    apply bind_Ok_inv in H as (ids & Hids & H). apply bind_Ok_inv in H as (paths & Hmap & H). pose proof (input_paths_Ok _ _ _ _ Hids Hmap) as Hpaths.
    apply bind_Ok_inv in H as ([] & Hexe & H). apply bind_Ok_inv in H as ([] & Hargs & H). apply bind_Ok_inv in H as ([] & Henv & H).
    apply bind_Ok_inv in H as ([] & Hin & H). apply bind_Ok_inv in H as (m & Hm%of_option_Ok & [= <-]). exists m. split; [|done].
    apply (validate_executable_iff g action m paths Hm Hpaths) in Hexe. rewrite validate_arguments_iff in Hargs.
    pose proof (proj1 (validate_environment_iff g action m paths Hm Hpaths Hexe) Henv) as Hvars. apply validate_inputs_iff in Hin as [Hknown Hmanaged]. by split.
  - intros (m & [Hout Hm Hknown Hmanaged Hexe Hargs Henv] & ->). rewrite bool_decide_eq_false_2 by done. cbn [raise_if mbind result_bind mret result_ret].
    destruct (input_paths_exist g action) as (ids & paths & Hids & Hmap); [done|by intros id (p & -> & _)%Hmanaged|].
    pose proof (input_paths_Ok _ _ _ _ Hids Hmap) as Hpaths. rewrite Hids. cbn [mbind result_bind]. rewrite Hmap. cbn [mbind result_bind].
    rewrite (proj2 (validate_executable_iff g _ m _ Hm Hpaths) Hexe). cbn [mbind result_bind].
    rewrite (proj2 (validate_arguments_iff _) Hargs). cbn [mbind result_bind].
    rewrite (proj2 (validate_environment_iff g _ m _ Hm Hpaths Hexe) Henv). cbn [mbind result_bind].
    rewrite (proj2 (validate_inputs_iff _ _) (conj Hknown Hmanaged)). cbn [mbind result_bind]. by rewrite Hm.
Qed.

Lemma audit_actions_iff g actions counts counts' :
  foldM (audit_action g) counts actions = Ok counts' ↔
  ∃ ms, Forall2 (hermetic g) actions ms ∧ counts' = foldl (λ counts m, dset m (default 0 (dget m counts) + 1) counts) counts ms.
Proof.
  revert counts. induction actions as [|a actions IH]; intros counts; cbn [foldM].
  - split; [intros [= <-]; by exists []|]. intros (ms & Hms & ->). by inv Hms.
  - rewrite bind_Ok_iff. setoid_rewrite audit_action_iff. setoid_rewrite IH. split.
    + intros (c & (m & Hm & ->) & ms & Hms & ->). exists (m :: ms). split; [by constructor|done].
    + intros (ms & Hms & ->). inv Hms. eexists. split; [by eexists|]. by eexists.
Qed.

Lemma tally_from (counts : dict text Z) (ms : list text) m : m ∈ dkeys (foldl (λ counts m, dset m (default 0 (dget m counts) + 1) counts) counts ms) ↔ m ∈ dkeys counts ∨ m ∈ ms.
Proof.
  revert counts. induction ms as [|x ms IH]; intros counts; cbn [foldl]; [set_solver|]. rewrite IH, dkeys_dset. case_decide; set_solver.
Qed.

(** The tally of a mnemonic is the number of its actions. *)
Lemma tally_count ms m : default 0 (dget m (tally ms)) = len (List.filter (λ x, bool_decide (x = m)) ms).
Proof.
  assert (Hgen : ∀ counts : dict text Z, default 0 (dget m (foldl (λ counts m, dset m (default 0 (dget m counts) + 1) counts) counts ms))
    = default 0 (dget m counts) + len (List.filter (λ x, bool_decide (x = m)) ms)); [|apply (Hgen [])].
  induction ms as [|x ms IH]; intros counts; cbn [foldl List.filter]; [unfold len; cbn; lia|]. rewrite IH, dget_dset.
  destruct (decide (m = x)) as [->|Hne].
  - rewrite bool_decide_eq_true_2, len_cons by done. cbn. lia.
  - by rewrite bool_decide_eq_false_2 by congruence.
Qed.

(** C22: The audit returns exactly for the graphs whose path fragments, artifacts and dependency sets resolve, in which
    every action keeps the following contract, and in which the required actions occur; it then counts the actions by
    mnemonic. An action has an output, and either Bazel performs it itself and it has no arguments, or its process is a declared
    input whose path starts with the prefix of its mnemonic. No argument other than --sysroot=/dev/null holds an absolute path or
    names a host toolchain. No variable's value starts with a slash, other than /proc/self/cwd and the fixed PATH of the listed
    actions. No artifact that the action reaches names a host toolchain, and each is below bazel-out and either produced by the
    graph or a status file (its path ends in volatile-status.txt or stable-status.txt), or comes from a managed repository or
    from the module. *)
Theorem audit_exact graph counts :
  audit graph = Ok counts ↔
  ∃ g mnemonics, action_graph graph = Ok g ∧ Forall2 (hermetic g) (gm_actions graph) mnemonics ∧
    (∀ m, m ∈ _REQUIRED_ACTIONS → m ∈ mnemonics) ∧ counts = tally mnemonics.
Proof.
  unfold audit. rewrite bind_Ok_iff. apply exist_proper. intros g.
  assert (Hactions : action_graph graph = Ok g → g_actions g = gm_actions graph).
  { unfold action_graph. intros H. repeat (apply bind_Ok_inv in H as (? & _ & H)). by injection H as <-. }
  rewrite bind_Ok_iff. setoid_rewrite audit_actions_iff.
  setoid_rewrite then_Ok. setoid_rewrite raise_if_iff. setoid_rewrite negb_false_iff. setoid_rewrite bool_decide_eq_true. setoid_rewrite filter_nil_iff.
  setoid_rewrite negb_false_iff. setoid_rewrite bool_decide_eq_true. split.
  - intros (Hg & counts' & (ms & Hms & ->) & Hreq & [= <-]). rewrite (Hactions Hg) in Hms. exists ms. split_and!; [done..| |done].
    intros m Hm. destruct (proj1 (tally_from [] ms m) (Hreq m Hm)) as [?%elem_of_nil|]; done.
  - intros (ms & Hg & Hms & Hreq & ->). split; [done|]. exists (tally ms). split_and!.
    + exists ms. by rewrite (Hactions Hg).
    + intros m Hm. apply tally_from. auto.
    + done.
Qed.

(** ** A demonstration *)

Definition demo_action (mnemonic : text) (arguments : list text) (variables : list Variable_) (output : Z) (inputs : list Z) : Action :=
  {| ac_mnemonic := Some mnemonic; ac_arguments := arguments; ac_environmentVariables := variables; ac_outputIds := [output]; ac_inputDepSetIds := inputs |}.

(** Three actions: the compiler and the interpreter come from managed repositories, and the linker reads what was compiled. *)
Definition demo_graph : GraphMessage :=
  let fragment i label parent := {| pf_id := Some i; pf_label := Some label; pf_parentId := parent |} in
  let artifact i f := {| art_id := Some i; art_pathFragmentId := Some f |} in
  let clang := lit "external/llvm++toolchain/clang" in
  {| gm_actions :=
       [demo_action (lit "CppCompile") [clang; lit "-Imkosi"; lit "--sysroot=/dev/null"] [{| var_key := lit "PATH"; var_value := _FIXED_TOOL_PATH |}] 3 [1];
        demo_action (lit "CppLink") [clang; lit "-o"; lit "bazel-out/launcher"] [{| var_key := lit "PWD"; var_value := lit "/proc/self/cwd" |}] 4 [2];
        demo_action (lit "BuildDebianToolsArchive") [lit "external/+debian_tools+mkosi_debian_python/python/bin/python3"] [] 5 [3]];
     gm_pathFragments := [fragment 1 (lit "external") None; fragment 2 (lit "llvm++toolchain") (Some 1); fragment 3 (lit "clang") (Some 2);
                          fragment 4 (lit "bazel-out") None; fragment 5 (lit "launcher.o") (Some 4); fragment 6 (lit "launcher") (Some 4);
                          fragment 7 (lit "+debian_tools+mkosi_debian_python/python/bin/python3") (Some 1); fragment 8 (lit "mkosi/launcher.c") None];
     gm_artifacts := [artifact 1 3; artifact 2 8; artifact 3 5; artifact 4 6; artifact 6 7];
     gm_depSetOfFiles := [{| ds_id := Some 1; ds_directArtifactIds := [1; 2]; ds_transitiveDepSetIds := [] |};
                          {| ds_id := Some 2; ds_directArtifactIds := [3]; ds_transitiveDepSetIds := [1; 1] |};
                          {| ds_id := Some 3; ds_directArtifactIds := [6]; ds_transitiveDepSetIds := [] |}] |}.

Example demo_audit : audit demo_graph = Ok [(lit "CppCompile", 1); (lit "CppLink", 1); (lit "BuildDebianToolsArchive", 1)].
Proof. by_compute. Qed.
