(* ===== verification/Launcher.v ===== *)
(** * The Debian launcher: [mkosi/debian/debian_launcher.py]

    The launcher checks the binds of its command line and the extracted tools tree before it starts the namespace runner. Here are
    the bind specifications, the checks of the tree, the configuration of the launcher and the command line of the runner. The file
    system that the checks look at is the interface [LauncherHost]; making mount points, extracting the tree, locking the scratch
    directory and running the process are not modelled. *)
From S2P Require Import Prelude PyText Decimal Collections Json PosixPath.

Definition TOOLS : dict text text :=
  (λ t, (lit (fst t), lit (snd t))) <$>
  [("shell", "/bin/sh"); ("apt-get", "/usr/bin/apt-get"); ("dpkg", "/usr/bin/dpkg"); ("debugfs", "/usr/sbin/debugfs"); ("mtype", "/usr/bin/mtype");
   ("mdir", "/usr/bin/mdir"); ("mcopy", "/usr/bin/mcopy"); ("systemd-repart", "/usr/bin/systemd-repart"); ("mkfs.ext4", "/usr/sbin/mkfs.ext4");
   ("mkfs.fat", "/usr/sbin/mkfs.fat"); ("mkfs.btrfs", "/usr/sbin/mkfs.btrfs"); ("mkfs.erofs", "/usr/bin/mkfs.erofs"); ("sfdisk", "/usr/sbin/sfdisk");
   ("parted", "/usr/sbin/parted"); ("grub-install", "/usr/sbin/grub-install"); ("bootctl", "/usr/bin/bootctl"); ("objcopy", "/usr/bin/objcopy");
   ("openssl", "/usr/bin/openssl"); ("systemd-sbsign", "/usr/lib/systemd/systemd-sbsign"); ("sqv", "/usr/bin/sqv")].

Definition _MOUNT_ROOTS : list text := lit <$> ["/root"; "/tmp"; "/proc"; "/dev"; "/workspace"; "/inputs"; "/outputs"].
Definition _RUNFILES : dict text text :=
  (λ t, (lit (fst t), lit (snd t))) <$>
  [("archive", "mkosi_debian_tools/flat.tar"); ("config", "mkosi_debian_tools/launcher_config.json");
   ("extractor", "rules_mkosi/mkosi/debian/extract_tree.py"); ("namespace_runner", "mkosi_debian_tools/namespace_runner")].
Definition _LOADER_CANDIDATES : list text :=
  lit <$> ["lib64/ld-linux-x86-64.so.2"; "lib/x86_64-linux-gnu/ld-linux-x86-64.so.2"; "usr/lib/x86_64-linux-gnu/ld-linux-x86-64.so.2"].
Definition _LIBRARY_DIRECTORIES : list text :=
  lit <$> ["/usr/lib/x86_64-linux-gnu"; "/lib/x86_64-linux-gnu"; "/usr/lib/x86_64-linux-gnu/systemd"; "/usr/lib/systemd"; "/usr/lib64"].

(** What the checks read: [os.path]'s predicates, [os.access(path, os.X_OK)], [os.path.realpath], and the device, inode and
    directory bit of [os.stat]; [os.path.exists] is that [os.stat] succeeds. *)
Class LauncherHost := {
  h_realpath : text → text; h_isdir : text → bool; h_isfile : text → bool; h_islink : text → bool; h_executable : text → bool;
  h_getsize : text → Z; h_stat : text → option (Z * Z * bool); h_cwd : text }.

Section launcher.
Context `{LauncherHost}.

(** ** The tools tree *)

Definition _inside_root (root path : text) : bool :=
  let root := h_realpath root in let resolved := h_realpath path in bool_decide (resolved = root) || startswith resolved (root ++ [47]).

Definition below_root (root relative : text) : text := os_join root (lstrip_by is_slash relative).

Definition _require_directory (root relative : text) (allow_symlink : bool) : result unit :=
  let path := below_root root relative in
  raise_if (negb (h_isdir path) || (h_islink path && negb allow_symlink) || negb (_inside_root root path))
    (RuntimeError "Debian tools root has an invalid directory: %s" [AText relative]).

Definition _require_executable (root relative : text) (description : string) : result text :=
  let path := below_root root relative in
  raise_if (negb (h_isfile path) || negb (h_executable path) || negb (_inside_root root path))
    (RuntimeError "%s is missing or not executable: %s" [AText (lit description); AText relative]);;
  mret path.

Definition _require_ca_bundle (root : text) : result unit :=
  let bundle := os_join root (lit "etc/ssl/certs/ca-certificates.crt") in
  raise_if (negb (h_isfile bundle) || h_islink bundle || (h_getsize bundle =? 0) || negb (_inside_root root bundle))
    (RuntimeError "packaged CA bundle is missing or invalid: %s" [AText bundle]).

Definition _find_loader (root : text) : result text :=
  of_option (RuntimeError "Debian bootstrap loader is missing from extracted root" [])
    (List.find (λ path, h_isfile path && h_executable path && _inside_root root path) (os_join root <$> _LOADER_CANDIDATES)).

(** The loop keeps the path of the last mapped tool that is [tool]. *)
Definition require_mapped (root tool : text) (executable : option text) (mapped_tool : text) : result (option text) :=
  mapped_executable ← _require_executable root mapped_tool "mapped Debian executable";
  mret (if bool_decide (mapped_tool = tool) then Some mapped_executable else executable).

Definition _require_tools (root tool : text) : result (option text) :=
  require (bool_decide (tool ∈ dvalues TOOLS)) (RuntimeError "unknown or unmapped Debian tool: %s" [AText tool]);;
  foldM (require_mapped root tool) None (dvalues TOOLS).

Definition _validate_root (root tool : text) : result (text * option text) :=
  raise_if (negb (h_isdir root) || h_islink root) (RuntimeError "Debian tools extraction did not produce a physical root" []);;
  foldM (λ _ relative, _require_directory root relative false) tt (_MOUNT_ROOTS ++ (lit <$> ["/etc"; "/usr"; "/usr/bin"; "/usr/sbin"]));;
  _require_ca_bundle root;;
  loader ← _find_loader root;
  executable ← _require_tools root tool;
  foldM (λ _ library_directory, _require_directory root library_directory (startswith library_directory (lit "/lib"))) tt _LIBRARY_DIRECTORIES;;
  mret (loader, executable).

(** ** Binds *)

Definition _canonical_destination (destination : text) : result text :=
  raise_if (negb (startswith destination [47]) || bool_decide (0 ∈ destination)) (RuntimeError "namespace destination must be absolute: %s" [AText destination]);;
  require (bool_decide (normpath destination = destination)) (RuntimeError "namespace destination is not canonical: %s" [AText destination]);;
  raise_if (existsb (λ part, bool_decide (part ∈ [[]; dot; dotdot])) (tail (split_on 47 destination)))
    (RuntimeError "namespace destination contains unsafe path components: %s" [AText destination]);;
  mret destination.

Definition _under (destination parent : text) : bool := bool_decide (destination = parent) || startswith destination (parent ++ [47]).

Record bind := { b_source : text; b_destination : text; b_device : Z; b_inode : Z; b_directory : bool }.

Inductive bind_kind := RoBind | RwBind.
Definition option_of (kind : bind_kind) : text := match kind with RoBind => lit "--ro-bind" | RwBind => lit "--rw-bind" end.
Definition kind_of (argument : text) : option bind_kind :=
  if bool_decide (argument = lit "--ro-bind") then Some RoBind else if bool_decide (argument = lit "--rw-bind") then Some RwBind else None.

Definition kind_check (kind : bind_kind) (destination : text) : result unit :=
  match kind with
  | RoBind => require (_under destination (lit "/inputs")) (RuntimeError "read-only namespace binds must be under /inputs: %s" [AText destination])
  | RwBind => require (_under destination (lit "/workspace") || _under destination (lit "/outputs"))
                (RuntimeError "read-write namespace binds must be under /workspace or /outputs: %s" [AText destination])
  end.

Definition _parse_bind (kind : bind_kind) (source destination : text) : result bind :=
  raise_if (negb (startswith source [47]) || bool_decide (0 ∈ source)) (RuntimeError "namespace bind source must be absolute: %s" [AText source]);;
  let source := h_realpath source in
  '(device, inode, directory) ← of_option OSError (h_stat source);
  destination ← _canonical_destination destination;
  raise_if (bool_decide (destination ∈ [47] :: _MOUNT_ROOTS)) (RuntimeError "namespace bind destination is a reserved mount root: %s" [AText destination]);;
  kind_check kind destination;;
  mret {| b_source := source; b_destination := destination; b_device := device; b_inode := inode; b_directory := directory |}.

Definition overlap (destination prior : text) : bool := bool_decide (destination = prior) || _under destination prior || _under prior destination.

(** The loop of [_validate_binds]: the binds so far and the arguments that are left. *)
Fixpoint validate_loop (arguments : list text) (ro_binds rw_binds : list bind) (destinations : list text) : result (list bind * list bind * list text) :=
  match arguments with
  | argument :: rest =>
      match kind_of argument with
      | None => mret (ro_binds, rw_binds, arguments)
      | Some kind =>
          match rest with
          | [] => Err (RuntimeError "%s requires SRC:DEST" [AText argument])
          | specification :: rest =>
              match partition_on 58 specification with
              | (_, None) => Err (RuntimeError "%s requires SRC:DEST" [AText argument])
              | (source, Some destination) =>
                  b ← _parse_bind kind source destination;
                  raise_if (existsb (overlap (b_destination b)) destinations) (RuntimeError "namespace bind destinations overlap: %s and %s" [AText (b_destination b)]);;
                  match kind with
                  | RoBind => validate_loop rest (ro_binds ++ [b]) rw_binds (destinations ++ [b_destination b])
                  | RwBind => validate_loop rest ro_binds (rw_binds ++ [b]) (destinations ++ [b_destination b])
                  end
              end
          end
      end
  | [] => mret (ro_binds, rw_binds, [])
  end.

Definition _validate_binds (arguments : list text) : result (list bind * list bind * list text) := validate_loop arguments [] [] [].

Definition _bind_arguments (ro_bind_specs rw_bind_specs : list text) : list text :=
  (ro_bind_specs ≫= λ specification, [option_of RoBind; specification]) ++ (rw_bind_specs ≫= λ specification, [option_of RwBind; specification]).

(** ** The namespace runner *)

Definition mount_argument (option : text) (b : bind) : list text :=
  [option; b_source b; b_destination b; dec (b_device b); dec (b_inode b); if b_directory b then lit "dir" else lit "file"].

Definition _mount_arguments (ro_binds rw_binds : list bind) : list text :=
  (ro_binds ≫= mount_argument (option_of RoBind)) ++ (rw_binds ≫= mount_argument (option_of RwBind)).

(** The command line that [_run] starts. *)
Definition run_command (tool : text) (arguments : list text) (root : text) (binds : list bind * list bind) (workspace outputs home namespace_runner : text) : result (list text) :=
  raise_if (negb (h_isfile namespace_runner) || negb (h_executable namespace_runner)) (RuntimeError "static Debian namespace runner is missing" []);;
  '(loader, _) ← _validate_root root tool;
  mret ([namespace_runner; root; workspace; outputs; home; 47 :: relpath h_cwd loader root; tool] ++ _mount_arguments (fst binds) (snd binds) ++ [lit "--"] ++ arguments).

(** ** The configuration *)

(** [resolver.Rlocation]. *)
Context (rlocation : text → option text).

Definition _required_runfile (logical : text) (executable : bool) : result text :=
  match rlocation logical with
  | Some path =>
      raise_if (bool_decide (path = []) || negb (h_isfile path) || (executable && negb (h_executable path))) (RuntimeError "Debian launcher runfile is missing: %s" [AText logical]);;
      mret path
  | None => Err (RuntimeError "Debian launcher runfile is missing: %s" [AText logical])
  end.

Record RuntimeFiles := { rf_archive : text; rf_archive_sha256 : text; rf_extractor : text; rf_namespace_runner : text }.

Definition lower_hex (c : Z) : bool := bool_decide (c ∈ lit "0123456789abcdef").

(** [load path] is the decoded configuration at a path. A digest that is a list or a dictionary of 64 digits, which the code would take for
    a text, is not considered. *)
Definition _runtime_files (load : text → result json) : result RuntimeFiles :=
  let runfile name := default [] (dget (lit name) _RUNFILES) in
  config_path ← _required_runfile (runfile "config") false;
  config ← load config_path;
  match config with
  | JObj items =>
      require (is_str (jget (lit "format_version") items) (lit "debian-launcher-v1")) (RuntimeError "unsupported Debian launcher configuration" []);;
      match default (JStr []) (dget (lit "archive_sha256") items) with
      | JStr archive_sha256 =>
          raise_if (negb (len archive_sha256 =? 64) || existsb (λ c, negb (lower_hex c)) archive_sha256) (RuntimeError "Debian launcher archive digest is invalid" []);;
          archive ← _required_runfile (runfile "archive") false;
          extractor ← _required_runfile (runfile "extractor") false;
          namespace_runner ← _required_runfile (runfile "namespace_runner") true;
          mret {| rf_archive := archive; rf_archive_sha256 := archive_sha256; rf_extractor := extractor; rf_namespace_runner := namespace_runner |}
      | _ => Err TypeError
      end
  | _ => Err AttributeError
  end.
End launcher.
