(* ===== verification/LauncherProofs.v ===== *)
(** * The Debian launcher: what it binds

    A destination is accepted exactly when it is the canonical path of at least two plain names below the directory of its kind, and
    the accepted destinations are never nested. *)
From S2P Require Import Prelude PyText Decimal Collections Json PosixPath Launcher.

(** ** Canonical destinations *)

Lemma canonical_iff d d' : _canonical_destination d = Ok d' ↔ d' = d ∧ 0 ∉ d ∧ ∃ ns, ns ≠ [] ∧ names_ok ns ∧ d = abs ns.
Proof.
  unfold _canonical_destination. rewrite !then_Ok, !raise_if_iff, require_iff, orb_false_iff, negb_false_iff, bool_decide_eq_false, bool_decide_eq_true. split.
  - intros ([[t ->]%startswith_spec Hnul] & _ & Hparts & [= <-]). split_and!; [done..|]. exists (split_on 47 t).
    split; [apply split_on_not_nil|]. split; [|unfold abs; cbn; f_equal; symmetry; apply join_split_on].
    change (split_on 47 ([47] ++ t)) with ([] :: split_on 47 t) in Hparts. cbn [tail] in Hparts.
    apply Forall_forall. intros c Hc. apply name_ok_spec.
    assert (Hs : 47 ∉ c) by (pose proof (split_on_no_sep 47 t) as Hno; rewrite Forall_forall in Hno; auto).
    assert (Hp : c ∉ [[]; dot; dotdot]); [|set_solver].
    intros Hin. rewrite <- not_true_iff_false in Hparts. apply Hparts. apply existsb_exists. exists c. rewrite <- list_elem_of_In.
    split; [done|by apply bool_decide_eq_true].
  - intros (-> & Hnul & ns & Hne & Hns & ->). split_and!; [apply startswith_spec; by exists (join [47] ns)|done|by apply normpath_abs| |done].
    rewrite split_abs by done. cbn [tail]. apply not_true_iff_false. intros (c & Hc & Hin%bool_decide_eq_true)%existsb_exists.
    apply list_elem_of_In in Hc. unfold names_ok in Hns. rewrite Forall_forall in Hns. apply Hns, name_ok_spec in Hc. set_solver.
Qed.

Lemma split_join_app ms t : ms ≠ [] → names_ok ms → split_on 47 (join [47] ms ++ 47 :: t) = ms ++ split_on 47 t.
Proof.
  intros Hne Hms%names_no_slash. induction ms as [|m ms IH]; [done|]. apply Forall_cons in Hms as [Hm Hms].
  destruct ms as [|m' ms]; [by cbn [join app]; rewrite split_on_app|].
  rewrite join_cons2, <- !app_assoc. cbn [app]. rewrite split_on_app by done. by rewrite IH.
Qed.

Lemma under_abs ns ms : names_ok ns → names_ok ms → ms ≠ [] → _under (abs ns) (abs ms) = true ↔ ms `prefix_of` ns.
Proof.
  intros Hns Hms Hne. unfold _under. rewrite orb_true_iff, bool_decide_eq_true, startswith_spec. split.
  - intros [[= Heq]|[t Ht]]; [by apply rel_inj in Heq as ->|]. unfold abs in Ht. cbn in Ht. injection Ht as Ht. rewrite <- app_assoc in Ht. cbn in Ht.
    exists (split_on 47 t). rewrite <- split_join_app, <- Ht by done. symmetry. apply split_rel; [|done]. intros ->. cbn in Ht. by destruct (join [47] ms).
  - intros [cs ->]. destruct cs as [|c cs]; [left; by rewrite app_nil_r|]. right. exists (join [47] (c :: cs)).
    unfold abs. rewrite join_app1 by done. cbn. by rewrite <- app_assoc.
Qed.

(** ** One bind *)

Definition roots_of (kind : bind_kind) : list text := match kind with RoBind => [lit "inputs"] | RwBind => [lit "workspace"; lit "outputs"] end.

Section binds.
Context `{LauncherHost}.

(** The bind that a specification SRC:DEST stands for. *)
Definition accepted_bind (kind : bind_kind) (specification : text) (b : bind) : Prop :=
  ∃ source names, specification = source ++ 58 :: b_destination b ∧ 58 ∉ source ∧ [47] `prefix_of` source ∧ 0 ∉ source ∧
    b_source b = h_realpath source ∧ h_stat (b_source b) = Some (b_device b, b_inode b, b_directory b) ∧
    b_destination b = abs names ∧ 0 ∉ b_destination b ∧ names_ok names ∧ (2 ≤ length names)%nat ∧ ∃ root, root ∈ roots_of kind ∧ head names = Some root.

Lemma abs_inj ns ms : names_ok ns → names_ok ms → abs ns = abs ms → ns = ms.
Proof. intros Hns Hms [= Heq]. by apply rel_inj. Qed.

Definition mount_names : list text := lit <$> ["root"; "tmp"; "proc"; "dev"; "workspace"; "inputs"; "outputs"].

Lemma mount_roots_abs : _MOUNT_ROOTS = (λ n, abs [n]) <$> mount_names.
Proof. by_compute. Qed.

Lemma mount_names_ok : names_ok mount_names.
Proof. apply (bool_decide_unpack _). vm_compute. exact I. Qed.

Lemma reserved_iff names : names_ok names → abs names ∈ [47] :: _MOUNT_ROOTS ↔ names = [] ∨ ∃ n, n ∈ mount_names ∧ names = [n].
Proof.
  intros Hns. rewrite mount_roots_abs. change [47] with (abs []). pose proof mount_names_ok as Hok. unfold names_ok in Hok. rewrite Forall_forall in Hok.
  rewrite elem_of_cons, list_elem_of_fmap. split.
  - intros [Heq|(n & Heq & Hn)]; [left; apply abs_inj; [done|constructor|done]|right]. exists n. split; [done|].
    apply abs_inj; [done| |done]. constructor; [by apply Hok|constructor].
  - intros [->|(n & Hn & ->)]; [by left|right; eauto].
Qed.

Lemma kind_root_mount kind root : root ∈ roots_of kind → root ∈ mount_names.
Proof. destruct kind; cbn [roots_of]; rewrite ?elem_of_cons, ?elem_of_nil; intros Hr; destruct_or?; subst; try done; apply (bool_decide_unpack _); vm_compute; exact I. Qed.

Lemma head_prefix (r : text) ns : [r] `prefix_of` ns ↔ head ns = Some r.
Proof. destruct ns as [|n ns]; [split; [by intros [? ?]|done]|]. cbn. split; [by intros [? [= ->]]|]. intros [= ->]. by exists ns. Qed.

Lemma under_root ns r : names_ok ns → name_ok r = true → _under (abs ns) (abs [r]) = true ↔ head ns = Some r.
Proof. intros Hns Hr. rewrite under_abs; [apply head_prefix|done|by constructor|done]. Qed.

Lemma kind_check_iff kind ns : names_ok ns → kind_check kind (abs ns) = Ok tt ↔ ∃ root, root ∈ roots_of kind ∧ head ns = Some root.
Proof.
  intros Hns. destruct kind; cbn [kind_check roots_of]; rewrite require_iff, ?orb_true_iff.
  - change (lit "/inputs") with (abs [lit "inputs"]). rewrite under_root by done. set_solver.
  - change (lit "/workspace") with (abs [lit "workspace"]). change (lit "/outputs") with (abs [lit "outputs"]). rewrite !under_root by done. set_solver.
Qed.

Lemma split_colon (a b c d : text) : a ++ 58 :: b = c ++ 58 :: d → 58 ∉ a → 58 ∉ c → a = c.
Proof.
  intros Heq Ha Hc. assert (Hp := proj2 (partition_on_Some 58 (c ++ 58 :: d) c d) (conj eq_refl Hc)).
  rewrite <- Heq, (proj2 (partition_on_Some 58 (a ++ 58 :: b) a b) (conj eq_refl Ha)) in Hp. by injection Hp.
Qed.

Lemma parse_bind_iff kind source destination b :
  58 ∉ source → _parse_bind kind source destination = Ok b ↔ b_destination b = destination ∧ accepted_bind kind (source ++ 58 :: destination) b.
Proof.
  intros Hcolon. unfold _parse_bind. split.
  - intros ([] & Hsrc%raise_if_Ok & Hb)%bind_Ok_inv. apply orb_false_iff in Hsrc as [Habs Hnul].
    apply negb_false_iff, startswith_spec in Habs as [rest Habs]. apply bool_decide_eq_false in Hnul.
    apply bind_Ok_inv in Hb as ([[device inode] directory] & Hstat%of_option_Ok & Hb). apply bind_Ok_inv in Hb as (d & Hd%canonical_iff & Hb).
    destruct Hd as (-> & Hnuld & ns & Hne & Hns & ->). apply bind_Ok_inv in Hb as ([] & Hres%raise_if_Ok & Hb). apply bool_decide_eq_false in Hres.
    rewrite reserved_iff in Hres by done. apply bind_Ok_inv in Hb as ([] & Hkind & [= <-]). apply kind_check_iff in Hkind as (root & Hroot & Hhead); [|done].
    cbn. split; [done|]. exists source, ns. split_and!; try done; [by exists rest| |eauto].
    destruct ns as [|n [|n' ns]]; [done| |cbn; lia]. injection Hhead as ->. destruct Hres. right. exists root. split; [|done]. by eapply kind_root_mount.
  - intros (<- & source' & ns & Heq & Hcolon' & [rest Habs] & Hnul & Hsrc & Hstat & Hdest & Hnuld & Hns & Hlen & root & Hroot & Hhead).
    assert (source' = source) as -> by (by apply split_colon in Heq).
    rewrite Habs at 1. rewrite (proj2 (startswith_spec _ _)) by eauto. rewrite (bool_decide_eq_false_2 (0 ∈ source)) by done. cbn [negb orb raise_if mbind result_bind].
    rewrite <- Hsrc, Hstat. cbn [of_option mbind result_bind].
    rewrite (proj2 (canonical_iff _ (b_destination b))) by (split_and!; [done..|]; exists ns; split_and!; [by intros ->|done|done]).
    cbn [mbind result_bind]. rewrite (bool_decide_eq_false_2 (b_destination b ∈ _)).
    2:{ rewrite Hdest, reserved_iff by done. intros [->|(n & _ & ->)]; cbn in Hlen; lia. }
    assert (Hk : kind_check kind (b_destination b) = Ok tt) by (rewrite Hdest; apply kind_check_iff; eauto).
    cbn [raise_if mbind result_bind]. rewrite Hk. cbn [mbind result_bind]. by destruct b.
Qed.

(** ** All binds *)

(** The components of one path are not a prefix of those of the other. *)
Definition separate (a b : text) : Prop := ¬ split_on 47 a `prefix_of` split_on 47 b ∧ ¬ split_on 47 b `prefix_of` split_on 47 a.
Definition canonical (d : text) : Prop := ∃ ns, ns ≠ [] ∧ names_ok ns ∧ d = abs ns.

Lemma prefix_same_head {A} (x : A) a b : x :: a `prefix_of` x :: b ↔ a `prefix_of` b.
Proof. split; [apply prefix_cons_inv_2|apply prefix_cons]. Qed.

Lemma overlap_iff a b : canonical a → canonical b → overlap a b = false ↔ separate a b.
Proof.
  intros (ns & Hn & Hns & ->) (ms & Hm & Hms & ->). unfold overlap, separate. rewrite !split_abs by done.
  rewrite !prefix_same_head, <- !under_abs by done. rewrite !orb_false_iff, !not_true_iff_false, bool_decide_eq_false.
  assert (Heq : abs ns = abs ms → _under (abs ns) (abs ms) = true) by (intros Heq; rewrite Heq; by apply under_abs).
  split; [by intros [[_ H1] H2]|]. intros [H2 H1]. split_and!; [|done..]. intros Hab%Heq. congruence.
Qed.

Fixpoint fresh_from (ds : list text) (bs : list bind) : Prop :=
  match bs with [] => True | b :: bs => Forall (separate (b_destination b)) ds ∧ fresh_from (ds ++ [b_destination b]) bs end.

Lemma accepted_canonical kind specification b : accepted_bind kind specification b → canonical (b_destination b).
Proof. intros (source & ns & _ & _ & _ & _ & _ & _ & -> & _ & Hns & Hlen & _). exists ns. split_and!; [intros ->; cbn in Hlen; lia|done|done]. Qed.

Lemma existsb_overlap d ds : canonical d → Forall canonical ds → existsb (overlap d) ds = false ↔ Forall (separate d) ds.
Proof.
  intros Hd Hds. induction Hds as [|x ds Hx Hds IH]; [split; [constructor|done]|]. cbn [existsb]. rewrite orb_false_iff, overlap_iff, IH by done.
  by rewrite Forall_cons.
Qed.

Definition add (kind : bind_kind) (bs : list bind) (p : list bind * list bind) : list bind * list bind :=
  match kind with RoBind => (fst p ++ bs, snd p) | RwBind => (fst p, snd p ++ bs) end.

Lemma validate_stage kind specifications more ro rw ds x :
  Forall canonical ds →
  validate_loop ((specifications ≫= λ specification, [option_of kind; specification]) ++ more) ro rw ds = Ok x ↔
  ∃ bs, Forall2 (accepted_bind kind) specifications bs ∧ fresh_from ds bs ∧
    validate_loop more (fst (add kind bs (ro, rw))) (snd (add kind bs (ro, rw))) (ds ++ (b_destination <$> bs)) = Ok x.
Proof.
  revert ro rw ds. induction specifications as [|specification specifications IH]; intros ro rw ds Hds.
  - cbn [mbind list_bind app]. split.
    + intros Hx. exists []. cbn. rewrite app_nil_r. destruct kind; cbn; rewrite ?app_nil_r; done.
    + intros (bs & Hbs & _ & Hx). inv Hbs. cbn in Hx. rewrite app_nil_r in Hx. destruct kind; cbn in Hx; by rewrite ?app_nil_r in Hx.
  - rewrite bind_cons, <- app_assoc. cbn [app validate_loop]. replace (kind_of (option_of kind)) with (Some kind) by (by destruct kind).
    destruct (partition_on 58 specification) as [source [destination|]] eqn:Hpart.
    2:{ apply partition_on_None in Hpart as [-> Hcolon]. split; [done|]. intros (bs & Hbs & _). inv Hbs.
        match goal with H : accepted_bind _ _ _ |- _ => destruct H as (source & ns & -> & _) end. set_solver. }
    apply partition_on_Some in Hpart as [-> Hcolon]. rewrite bind_Ok_iff. setoid_rewrite (parse_bind_iff kind source destination _ Hcolon).
    assert (Hstep : ∀ b, canonical (b_destination b) →
      (raise_if (existsb (overlap (b_destination b)) ds) (RuntimeError "namespace bind destinations overlap: %s and %s" [AText (b_destination b)]);;
       match kind with
       | RoBind => validate_loop ((specifications ≫= λ specification, [option_of kind; specification]) ++ more) (ro ++ [b]) rw (ds ++ [b_destination b])
       | RwBind => validate_loop ((specifications ≫= λ specification, [option_of kind; specification]) ++ more) ro (rw ++ [b]) (ds ++ [b_destination b])
       end) = Ok x ↔
      Forall (separate (b_destination b)) ds ∧ ∃ bs, Forall2 (accepted_bind kind) specifications bs ∧ fresh_from (ds ++ [b_destination b]) bs ∧
        validate_loop more (fst (add kind (b :: bs) (ro, rw))) (snd (add kind (b :: bs) (ro, rw))) (ds ++ (b_destination <$> b :: bs)) = Ok x).
    { intros b Hb. rewrite then_Ok, raise_if_iff, existsb_overlap by done. apply and_iff_compat_l.
      assert (Hds' : Forall canonical (ds ++ [b_destination b])) by (apply Forall_app_2; [done|by constructor]).
      destruct kind; rewrite IH by done; apply exist_proper; intros bs; cbn [add fst snd]; by rewrite fmap_cons, <- !app_assoc. }
    split.
    + intros (b & [<- Hb] & Hx). pose proof (accepted_canonical _ _ _ Hb) as Hcan. apply Hstep in Hx as (Hsep & bs & Hbs & Hfresh & Hx); [|done].
      exists (b :: bs). split; [by constructor|]. split; [exact (conj Hsep Hfresh)|exact Hx].
    + intros (bs & Hbs & Hfresh & Hx). apply Forall2_cons_inv_l in Hbs as (b & bs' & Hb & Hbs & ->). destruct Hfresh as [Hsep Hfresh].
      assert (b_destination b = destination) as Hd.
      { destruct Hb as (source' & ns & Heq & Hcolon' & _). assert (source = source') as -> by (by eapply split_colon). by apply app_inv_head in Heq as [= ->]. }
      exists b. split; [done|]. apply Hstep; [by eapply accepted_canonical|]. eauto.
Qed.

Lemma fresh_apart ds bs :
  fresh_from ds bs ↔ (∀ i b, bs !! i = Some b → Forall (separate (b_destination b)) (ds ++ (b_destination <$> take i bs))).
Proof.
  revert ds. induction bs as [|b bs IH]; intros ds; cbn [fresh_from]; [split; [by intros _ ? ?|done]|]. rewrite IH. split.
  - intros [Hb Hbs] [|i] b' Hi; [injection Hi as <-; cbn; by rewrite app_nil_r|]. specialize (Hbs i b' Hi). by rewrite <- app_assoc in Hbs.
  - intros Hall. split; [specialize (Hall O b eq_refl); cbn in Hall; by rewrite app_nil_r in Hall|]. intros i b' Hi. rewrite <- app_assoc. exact (Hall (S i) b' Hi).
Qed.

Lemma separate_sym a b : separate a b → separate b a.
Proof. unfold separate. tauto. Qed.

Lemma fresh_from_app ds bs cs : fresh_from ds (bs ++ cs) ↔ fresh_from ds bs ∧ fresh_from (ds ++ (b_destination <$> bs)) cs.
Proof.
  revert ds. induction bs as [|b bs IH]; intros ds; cbn [app fresh_from fmap list_fmap]; [rewrite app_nil_r; tauto|].
  rewrite IH, <- app_assoc. tauto.
Qed.

Lemma apart_fresh bs :
  (∀ i j a b, i ≠ j → bs !! i = Some a → bs !! j = Some b → separate (b_destination a) (b_destination b)) ↔ fresh_from [] bs.
Proof.
  rewrite fresh_apart. cbn [app]. setoid_rewrite Forall_fmap. setoid_rewrite Forall_lookup. split.
  - intros Hall i b Hi j a Hj. apply lookup_take_Some in Hj as [Hj Hlt]. apply (Hall i j b a); [lia|done..].
  - intros Hall i j a b Hne Hi Hj. destruct (decide (j < i)%nat) as [Hlt|Hge].
    + exact (Hall i a Hi j b (proj2 (lookup_take_Some _ _ _ _) (conj Hj Hlt))).
    + apply separate_sym. assert (Hlt : (i < j)%nat) by lia. exact (Hall j b Hj i a (proj2 (lookup_take_Some _ _ _ _) (conj Hi Hlt))).
Qed.

(** C23: The launcher accepts the binds of its command line exactly when every one names an absolute source that exists and
    a canonical destination with at least two components, below /inputs for a read-only bind and below /workspace or
    /outputs for a read-write bind, and no destination lies at or below another one. The accepted binds carry the resolved
    source with its device and inode, in the order of the command line. *)
Theorem validate_binds_exact ro_specifications rw_specifications ro rw rest :
  _validate_binds (_bind_arguments ro_specifications rw_specifications) = Ok (ro, rw, rest) ↔
  rest = [] ∧ Forall2 (accepted_bind RoBind) ro_specifications ro ∧ Forall2 (accepted_bind RwBind) rw_specifications rw ∧
  ∀ i j a b, i ≠ j → (ro ++ rw) !! i = Some a → (ro ++ rw) !! j = Some b → separate (b_destination a) (b_destination b).
Proof.
  unfold _validate_binds, _bind_arguments. rewrite <- (app_nil_r (rw_specifications ≫= _)), validate_stage by constructor. cbn [add fst snd app].
  assert (Hcanonical : ∀ kind specifications bs, Forall2 (accepted_bind kind) specifications bs → Forall canonical (b_destination <$> bs)).
  { intros kind specifications bs Hbs. apply Forall_fmap. induction Hbs; constructor; [by eapply accepted_canonical|done]. }
  split.
  - intros (bs & Hro & Hfresh & Hx). apply validate_stage in Hx as (cs & Hrw & Hfresh' & Hx); [|by eapply Hcanonical].
    apply Ok_inj in Hx. cbn in Hx. injection Hx as <- <- <-. split_and!; [done..|]. apply apart_fresh.
    by apply fresh_from_app.
  - intros (-> & Hro & Hrw & Hapart). apply apart_fresh, fresh_from_app in Hapart as [H1 H2]. exists ro. split_and!; [done..|].
    apply validate_stage; [by eapply Hcanonical|]. by exists rw.
Qed.

(** ** The tools tree *)

(** The path resolves to the resolved root or to a path below it: the components of the one are a prefix of those of the other. *)
Definition at_or_below (root path : text) : Prop := split_on 47 (h_realpath root) `prefix_of` split_on 47 (h_realpath path).

Lemma split_on_sep sep a t : split_on sep (a ++ sep :: t) = split_on sep a ++ split_on sep t.
Proof.
  induction a as [|c a IH]; cbn [app split_on]; [by rewrite Z.eqb_refl|]. rewrite IH. destruct (c =? sep); [done|].
  pose proof (split_on_not_nil sep a). by destruct (split_on sep a).
Qed.

Lemma inside_iff root path : _inside_root root path = true ↔ at_or_below root path.
Proof.
  unfold _inside_root, at_or_below. cbv zeta. rewrite orb_true_iff, bool_decide_eq_true, startswith_spec. split.
  - intros [->|[t ->]]; [done|]. rewrite <- app_assoc. cbn [app]. rewrite split_on_sep. by apply prefix_app_r.
  - intros [[|k ks] Hk]; apply (f_equal (join [47])) in Hk; rewrite ?app_nil_r, ?join_app1, !join_split_on in Hk by apply split_on_not_nil; [by left|].
    right. exists (join [47] (k :: ks)). by rewrite <- app_assoc.
Qed.

Definition tool_ok (root tool : text) : Prop :=
  let path := below_root root tool in h_isfile path = true ∧ h_executable path = true ∧ at_or_below root path.

(** Directories below /lib may be links, such as /lib itself. *)
Definition directory_ok (root relative : text) (link : bool) : Prop :=
  let path := below_root root relative in h_isdir path = true ∧ (h_islink path = true → link = true) ∧ at_or_below root path.

Lemma require_directory_Ok root relative link : _require_directory root relative link = Ok tt → directory_ok root relative link.
Proof.
  unfold _require_directory, directory_ok. cbv zeta. intros Hok%raise_if_Ok. rewrite !orb_false_iff, !negb_false_iff, andb_false_iff, negb_false_iff, inside_iff in Hok.
  destruct Hok as [[Hd Hl] Hi]. split_and!; [done| |done]. destruct Hl as [Hl|]; congruence.
Qed.

Lemma require_executable_Ok root relative description path : _require_executable root relative description = Ok path → path = below_root root relative ∧ tool_ok root relative.
Proof.
  unfold _require_executable, tool_ok. intros ([] & Hok%raise_if_Ok & [= <-])%bind_Ok_inv. rewrite !orb_false_iff, !negb_false_iff, inside_iff in Hok. naive_solver.
Qed.

Lemma require_mapped_Ok root tool tools acc found :
  foldM (require_mapped root tool) acc tools = Ok found →
  (∀ t, t ∈ tools → tool_ok root t) ∧ found = if bool_decide (tool ∈ tools) then Some (below_root root tool) else acc.
Proof.
  revert acc. induction tools as [|t tools IH]; intros acc Hf; cbn [foldM] in Hf; [injection Hf as <-; split; [set_solver|done]|].
  apply bind_Ok_inv in Hf as (acc' & Ht & Hf). unfold require_mapped in Ht. apply bind_Ok_inv in Ht as (path & Hpath & [= <-]).
  apply require_executable_Ok in Hpath as [-> Ht]. apply IH in Hf as [Hall ->]. split; [set_solver|].
  destruct (decide (t = tool)) as [->|Hne].
  - rewrite (bool_decide_eq_true_2 (tool ∈ tool :: tools)) by left. rewrite (bool_decide_eq_true_2 (tool = tool)) by done. by case_bool_decide.
  - rewrite (bool_decide_eq_false_2 (t = tool)) by done. by rewrite (bool_decide_ext (tool ∈ t :: tools) (tool ∈ tools)) by set_solver.
Qed.

(** C24: A tools tree that the launcher accepts confines what it runs: the root is a directory and no link; the mount
    roots and /etc, /usr, /usr/bin and /usr/sbin are directories and no links, the library directories are directories, links
    only where their path starts with /lib, the CA bundle is a nonempty file and no link, the loader, which is one of the candidates,
    and every tool of the table are executable files, and all of them resolve to the resolved root or to a path below it.
    The tool is one of the table, and the path returned for it is its own. *)
Theorem validate_root_confined root tool loader executable :
  _validate_root root tool = Ok (loader, executable) →
  tool ∈ dvalues TOOLS ∧ executable = Some (below_root root tool) ∧ h_isdir root = true ∧ h_islink root = false ∧
  loader ∈ os_join root <$> _LOADER_CANDIDATES ∧ h_isfile loader = true ∧ h_executable loader = true ∧ at_or_below root loader ∧
  (∀ mapped, mapped ∈ dvalues TOOLS → tool_ok root mapped) ∧
  (∀ mount, mount ∈ _MOUNT_ROOTS ++ (lit <$> ["/etc"; "/usr"; "/usr/bin"; "/usr/sbin"]%string) → directory_ok root mount false) ∧
  (∀ library, library ∈ _LIBRARY_DIRECTORIES → directory_ok root library (startswith library (lit "/lib"))) ∧
  (let bundle := os_join root (lit "etc/ssl/certs/ca-certificates.crt") in
   h_isfile bundle = true ∧ h_islink bundle = false ∧ h_getsize bundle ≠ 0 ∧ at_or_below root bundle).
Proof.
  unfold _validate_root. intros ([] & Hroot%raise_if_Ok & Hv)%bind_Ok_inv. apply orb_false_iff in Hroot as [Hdir%negb_false_iff Hlink].
  apply bind_Ok_inv in Hv as ([] & Hdirs & Hv). rewrite (foldM_checks (λ relative, _require_directory root relative false)) in Hdirs.
  apply bind_Ok_inv in Hv as ([] & Hca%raise_if_Ok & Hv). apply bind_Ok_inv in Hv as (loader' & Hloader%of_option_Ok & Hv).
  apply bind_Ok_inv in Hv as (found & Htools & Hv). apply bind_Ok_inv in Hv as ([] & Hlibs & [= <- <-]).
  rewrite (foldM_checks (λ library, _require_directory root library (startswith library (lit "/lib")))) in Hlibs.
  apply find_some in Hloader as [Hcand Hloader]. rewrite !andb_true_iff, inside_iff in Hloader. destruct Hloader as [[Hfile Hexe] Hin].
  unfold _require_tools in Htools. apply bind_Ok_inv in Htools as ([] & Htool%require_Ok & Htools). apply bool_decide_eq_true in Htool.
  apply require_mapped_Ok in Htools as [Hall ->]. rewrite bool_decide_eq_true_2 by done. rewrite !orb_false_iff, !negb_false_iff, Z.eqb_neq, inside_iff in Hca.
  destruct Hca as [[[Hbf Hbl] Hbs] Hbi]. split_and!; try done; [by apply list_elem_of_In| |].
  - intros mount Hmount. by apply require_directory_Ok, Hdirs.
  - intros library Hlibrary. by apply require_directory_Ok, Hlibs.
Qed.
End binds.

(** ** A demonstration *)

Definition demo_host : LauncherHost :=
  {| h_realpath := λ p, p; h_isdir := λ _, true; h_isfile := λ _, true; h_islink := λ _, false; h_executable := λ _, true; h_getsize := λ _, 1;
     h_stat := λ p, if bool_decide (p = lit "/src/missing") then None else Some (1, len p, endswith p (lit "tree")); h_cwd := lit "/" |}.

Example demo_binds :
  @_validate_binds demo_host (_bind_arguments [lit "/src/tree:/inputs/a/tree"] [lit "/src/out:/outputs/x"; lit "/src/w:/workspace/w"])
  = Ok ([{| b_source := lit "/src/tree"; b_destination := lit "/inputs/a/tree"; b_device := 1; b_inode := 9; b_directory := true |}],
        [{| b_source := lit "/src/out"; b_destination := lit "/outputs/x"; b_device := 1; b_inode := 8; b_directory := false |};
         {| b_source := lit "/src/w"; b_destination := lit "/workspace/w"; b_device := 1; b_inode := 6; b_directory := false |}], []).
Proof. by_compute. Qed.

Lemma validate_root_confined_witness :
  @_validate_root demo_host (lit "/root") (lit "/usr/bin/sqv") = Ok (lit "/root/lib64/ld-linux-x86-64.so.2", Some (lit "/root/usr/bin/sqv")) ∧
  @at_or_below demo_host (lit "/root") (lit "/root/lib64/ld-linux-x86-64.so.2") ∧ @tool_ok demo_host (lit "/root") (lit "/usr/bin/sqv").
Proof.
  assert (H : @_validate_root demo_host (lit "/root") (lit "/usr/bin/sqv") = Ok (lit "/root/lib64/ld-linux-x86-64.so.2", Some (lit "/root/usr/bin/sqv"))) by by_compute.
  split; [exact H|]. destruct (@validate_root_confined demo_host _ _ _ _ H) as (Htool & _ & _ & _ & _ & _ & _ & Hin & Htools & _).
  split; [exact Hin|exact (Htools _ Htool)].
Defined.

(** A sibling of the root whose name starts with the root's is not below it. *)
Example sibling_outside : @_inside_root demo_host (lit "/root") (lit "/root-other/ld.so") = false.
Proof. by_compute. Qed.
