(* ===== verification/MkosiContract.v ===== *)
(** * The contract with mkosi's internals: [mkosi/private/mkosi_runner/mkosi_contract.py]

    Release mode replaces functions of mkosi, and refuses an mkosi whose internals differ from the reviewed ones. The importable mkosi is
    the interface [Interpreter]: modules, attributes, source texts, signatures and code objects as importlib, inspect and dis give
    them. A description of a difference is its template with the arguments it is formatted with. *)
From S2P Require Import Prelude Bytes PyText Decimal Hashing Collections.

(** ** The contract *)

Record Patched := { p_name : text; p_patch : text; p_sha256 : text; p_recheck : text; p_callers : list text }.
Record Contract := {
  c_patched : list Patched; c_inherited : list (text * text); c_signatures : dict text text; c_fields : dict text (list text) }.

Definition patched (name patch sha256 recheck : string) (callers : list string) : Patched :=
  {| p_name := lit name; p_patch := lit patch; p_sha256 := lit sha256; p_recheck := lit recheck; p_callers := lit <$> callers |}.

Definition contract_27_1 : Contract := {|
  c_patched := [
    patched "mkosi.installer:PackageManager.mounts" "_patch_mounts" "6b90b94985733b28e30f66cd839fe92e0e6f28b87ed29bb152e65cc5ce5bf7bd"
      "it still binds Context.repository read-write at /repository, which the patch makes read-only" [];
    patched "mkosi.context:Context.__init__" "_patch_context_repository" "3a8b4a2472bb5c930e7ab43590effa2b206a6e970fb9e77bc1ec3d80e4c95512"
      "it reads Context.repository only to create the workspace repository directory, and caches no path derived from it, because the patch switches the property to the mirror only after it returns" [];
    patched "mkosi.context:Context.repository" "_patch_context_repository" "5828c766cc7063ff43957c152a97cc05a1cf91ff386bd9bd4af44c2a8120f7bc"
      "it is still the host side of the /repository mount, to which the Debian bootstrap also maps deb paths" [];
    patched "mkosi.config:parse_config" "_FirstConfiguration.parse_config" "8f949208698e7047d38a27eb1b07e6560994d7483743522f93411f97c90e0171"
      "it still returns (args, tools, images) and its callers pass resources= by keyword" ["mkosi.__main__:main"];
    patched "mkosi.config:parse_ini" "_ConfigurationValidator.parse_ini" "8a0f255f47432ec48b271a7df1b4021bf5e2a1e85270f8525ae1c9abe43c5375"
      "it still yields (section, setting, value) for every setting, including [Match] sections"
      ["mkosi.config:ParseContext.match_config"; "mkosi.config:ParseContext.parse_config_one"; "mkosi.config:make_simple_config_parser"];
    patched "mkosi.distribution.debian:install_apt_sources" "_remove_apt_sources" "f180a8169774fc63a5db16397030ff849244b51f1bfd9d3339727488f5e0253f"
      "it is still the only function that writes APT sources into the image" ["mkosi.distribution.debian:Installer.install_packages"];
    patched "mkosi:install_sandbox_trees" "_install_sandbox_trees" "cf203faf5bd9cbb4939115a61590c46521472e41bb2b66f671b8d1177bb2b5e7"
      "the replacement still mirrors it, except that it copies no host passwd, group or resolver files"
      ["mkosi:run_sync_scripts"; "mkosi:build_image"; "mkosi:sync_repository_metadata"];
    patched "mkosi:make_tar" "deterministic_make_tar" "939b475f25dcea19491ee4925fa93af5c487b0e1a7c0b59fcde5c44764237ab2"
      "the replacement passes the same tar options, apart from adding --sort=name and omitting --sparse" ["mkosi:build_image"];
    patched "mkosi.manifest:Manifest.record_deb_packages" "include_base_packages_in_manifest" "39dadbf7082a59af18a2c3ee67059e5b648414f0bc38a3b9695e81822cbc14ea"
      "it still omits base tree packages only by comparing their install time with _init_timestamp" []];
  c_inherited := [(lit "mkosi.installer.apt:Apt", lit "mounts")];
  c_signatures := (λ s, (lit (fst s), lit (snd s))) <$> [
    ("mkosi:copy_tree", "src, dst, *, preserve=, dereference=, use_subvolumes=, sandbox=");
    ("mkosi:complete_step", "text, text2=");
    ("mkosi:install_tree", "config, src, dst, *, target=, preserve=");
    ("mkosi.archive:tar_exclude_apivfs_tmp", "");
    ("mkosi.log:complete_step", "text, text2=");
    ("mkosi.run:finalize_passwd_symlinks", "root");
    ("mkosi.run:nosandbox", "*, options=");
    ("mkosi.run:run", "cmdline, check=, stdin=, stdout=, stderr=, input=, env=, log=, success_exit_status=, setup=, sandbox=, cwd=");
    ("mkosi.run:workdir", "path, sandbox=");
    ("mkosi.config:Config.tools", "self");
    ("mkosi.config:Config.sandbox", "self, *, network=, devices=, relaxed=, tools=, scripts=, overlay=, options=")];
  c_fields := [
    (lit "mkosi.config:Config", lit <$> ["image"; "release"; "repositories"; "sandbox_trees"; "proxy_peer_certificate"; "proxy_client_certificate"; "proxy_client_key"]);
    (lit "mkosi.manifest:Manifest", [lit "_init_timestamp"])] |}.

Definition CONTRACTS : dict text Contract := [(lit "27.1", contract_27_1)].

(** ** The importable mkosi *)

Inductive parameter_kind := POSITIONAL_ONLY | POSITIONAL_OR_KEYWORD | VAR_POSITIONAL | KEYWORD_ONLY | VAR_KEYWORD.
Record parameter := { pa_name : text; pa_kind : parameter_kind; pa_default : bool }.

(** The instructions of a code object, as operation and argument, and the code objects among its constants. *)
Inductive code := Code (instructions : list (text * text)) (nested : list code).

(** What wraps a function in the namespace of a class. *)
Inductive descriptor (obj : Type) := Func (__func__ : obj) | Property (fget : obj) | Plain.
Arguments Func {obj} _. Arguments Property {obj} _. Arguments Plain {obj}.

Class Interpreter := {
  obj : Type;
  import_module : text → option obj;
  is_class : obj → bool;
  vars : obj → text → option obj;
  getattr : obj → text → option obj;
  descriptor_of : obj → descriptor obj;
  getsource : obj → result text;
  unwrap : obj → obj;
  signature : obj → result (list parameter);
  __code__ : obj → result code;
  dataclass_fields : obj → result (list text) }.

Definition message : Type := string * list text.

Section contract.
Context `{Interpreter}.

Fixpoint resolve_parts (value : obj) (parts : list text) : option obj :=
  match parts with
  | [] => Some value
  | part :: parts =>
      match (if is_class value then vars value part else None) with
      | Some found => resolve_parts found parts
      | None => found ← getattr value part; resolve_parts found parts
      end
  end.

(** [None] is LookupError. *)
Definition resolve (name : text) : option obj :=
  let '(module_name, qualified) := partition_on 58 name in
  value ← import_module module_name;
  resolve_parts value (split_on 46 (default [] qualified)).

Definition _function (value : obj) : obj := match descriptor_of value with Func f => f | Property f => f | Plain => value end.

Definition source_sha256 (value : obj) : result text :=
  source ← getsource (_function value);
  mret (hex (sha256 (utf8_encode source))).

Definition describe (st : list text * bool) (p : parameter) : list text * bool :=
  let '(described, keyword_only) := st in
  let '(described, keyword_only) :=
    match pa_kind p with KEYWORD_ONLY => if keyword_only then (described, keyword_only) else (described ++ [lit "*"], true) | _ => (described, keyword_only) end in
  let prefix := match pa_kind p with VAR_POSITIONAL => lit "*" | VAR_KEYWORD => lit "**" | _ => [] end in
  let default := if pa_default p then lit "=" else [] in
  let keyword_only := keyword_only || match pa_kind p with VAR_POSITIONAL => true | _ => false end in
  (described ++ [prefix ++ pa_name p ++ default], keyword_only).

Definition parameters (value : obj) : result text :=
  ps ← signature (unwrap (_function value));
  mret (join (lit ", ") (fst (foldl describe ([], false) ps))).

Definition _GLOBAL_LOADS : list text := lit <$> ["LOAD_GLOBAL"; "LOAD_NAME"; "LOAD_FROM_DICT_OR_GLOBALS"].

(** The names as a list; only membership is read. *)
Fixpoint _global_names (c : code) : list text :=
  match c with
  | Code instructions nested =>
      omap (λ i, if bool_decide (fst i ∈ _GLOBAL_LOADS) then Some (snd i) else None) instructions ++ concat (List.map _global_names nested)
  end.

Definition _caller_violations (attribute : text) (p : Patched) (caller : text) : result (list message) :=
  match resolve caller with
  | None => mret [("{} no longer exists; {} relies on it to call {}", [caller; p_patch p; p_name p])]
  | Some value =>
      c ← __code__ (unwrap (_function value));
      mret (if bool_decide (attribute ∈ _global_names c) then []
            else [("{} no longer reads {} from its module; {} would not take effect", [caller; attribute; p_patch p])])
  end.

(** [name.rpartition(".")[2].rpartition(":")[2]]. *)
Definition attribute_of (name : text) : text := (rpartition_on 58 (rpartition_on 46 name).2).2.

Definition _patched_violations (p : Patched) : result (list message) :=
  match resolve (p_name p) with
  | None => mret [("{} no longer exists; {} cannot patch it. Re-verify that {}", [p_name p; p_patch p; p_recheck p])]
  | Some value =>
      actual ← source_sha256 value;
      let found := if bool_decide (actual = p_sha256 p) then []
                   else [("{} changed (source sha256 {}); {} replaces or wraps it. Re-verify that {}", [p_name p; actual; p_patch p; p_recheck p])] in
      callers ← mapM (_caller_violations (attribute_of (p_name p)) p) (p_callers p);
      mret (found ++ concat callers)
  end.

Definition _inherited_violations (inherited : text * text) : result (list message) :=
  let '(owner, attribute) := inherited in
  match resolve owner with
  | None => mret [("{} no longer exists", [owner])]
  | Some cls =>
      mret (match vars cls attribute with
            | Some _ => [("{} now overrides {}, which release mode patches in its base class", [owner; attribute])]
            | None => []
            end)
  end.

Definition _signature_violations (entry : text * text) : result (list message) :=
  let '(name, expected) := entry in
  match resolve name with
  | None => mret [("{} no longer exists; release mode calls it", [name])]
  | Some value =>
      actual ← parameters value;
      mret (if bool_decide (actual = expected) then [] else [("{} parameters changed from ({}) to ({}); release mode calls it", [name; expected; actual])])
  end.

Definition _field_violations (entry : text * list text) : result (list message) :=
  let '(owner, names) := entry in
  match resolve owner with
  | None => mret [("{} no longer exists", [owner])]
  | Some cls =>
      fields ← dataclass_fields cls;
      mret ((λ name, ("{} has no field {}; release mode reads it", [owner; name])) <$> List.filter (λ name, negb (bool_decide (name ∈ fields))) names)
  end.

(** *** Versions *)

(** [re.findall(r"\d+", version)] of the table's versions, whose digits are ASCII. *)
Fixpoint digit_runs (cur version : text) : list text :=
  match version with
  | [] => match cur with [] => [] | _ => [reverse cur] end
  | c :: version => if ascii_digit c then digit_runs (c :: cur) version else match cur with [] => digit_runs [] version | _ => reverse cur :: digit_runs [] version end
  end.
Definition _version_key (version : text) : list Z := foldl (λ n c, n * 10 + (c - 48)) 0 <$> digit_runs [] version.

(** [a < b] of tuples. *)
Fixpoint key_lt (a b : list Z) : bool :=
  match a, b with
  | [], _ :: _ => true
  | x :: a, y :: b => (x <? y) || ((x =? y) && key_lt a b)
  | _, [] => false
  end.

(** [max(versions, key=_version_key)]: the first of the greatest. *)
Definition newest (versions : list text) : option text :=
  match versions with
  | [] => None
  | v :: versions => Some (foldl (λ best v, if key_lt (_version_key best) (_version_key v) then v else best) v versions)
  end.

Definition contract_violations (contract : Contract) : result (list message) :=
  ps ← mapM _patched_violations (c_patched contract);
  inherited ← mapM _inherited_violations (c_inherited contract);
  ss ← mapM _signature_violations (c_signatures contract);
  fs ← mapM _field_violations (c_fields contract);
  mret (concat ps ++ concat inherited ++ concat ss ++ concat fs).

(** [contract] is given, or that of the version, or the newest one after the message that the version is not supported. *)
Definition violations (contracts : dict text Contract) (version : text) (contract : option Contract) : result (list message) :=
  match contract with
  | Some contract => contract_violations contract
  | None =>
      match dget version contracts with
      | Some contract => contract_violations contract
      | None =>
          let found := [("mkosi {} is not supported by release mode; supported mkosi versions: {}",
            [version; join (lit ", ") (stable_sort (λ a b, key_lt (_version_key a) (_version_key b)) (dkeys contracts))])] in
          match newest (dkeys contracts) with
          | None => mret found
          | Some v =>
              contract ← of_option KeyError (dget v contracts);
              more ← contract_violations contract;
              mret (found ++ [("compared with the mkosi {} contract:", [v])] ++ more)
          end
      end
  end.

(** [version] is that of the importable mkosi. *)
Definition verify (version : text) : result unit :=
  found ← violations CONTRACTS version None;
  raise_if (negb (bool_decide (found = []))) (SystemExit "mkosi {} internals that rules_mkosi release mode patches differ from the reviewed ones:\n{}\n{}" [AText version]).

(** ** What the contract demands *)

(** The object that a dotted name leads to: an entry of a class's own namespace comes before its inherited attributes. *)
Inductive leads : obj → list text → obj → Prop :=
  | leads_here value : leads value [] value
  | leads_own value part parts found target :
      is_class value = true → vars value part = Some found → leads found parts target → leads value (part :: parts) target
  | leads_attribute value part parts found target :
      is_class value = false ∨ vars value part = None → getattr value part = Some found → leads found parts target → leads value (part :: parts) target.

Definition names (name : text) (target : obj) : Prop :=
  ∃ module_name qualified value, name = module_name ++ 58 :: qualified ∧ 58 ∉ module_name ∧ import_module module_name = Some value ∧
    leads value (split_on 46 qualified) target.

(** A code object, or one nested in it, reads a name from the globals of its module. *)
Inductive reads_global : code → text → Prop :=
  | reads_here instructions nested operation name :
      operation ∈ _GLOBAL_LOADS → (operation, name) ∈ instructions → reads_global (Code instructions nested) name
  | reads_nested instructions nested inner name : inner ∈ nested → reads_global inner name → reads_global (Code instructions nested) name.

Definition patched_kept (p : Patched) : Prop :=
  ∃ value source, names (p_name p) value ∧ getsource (_function value) = Ok source ∧ hex (sha256 (utf8_encode source)) = p_sha256 p ∧
    ∀ caller, caller ∈ p_callers p → ∃ f c, names caller f ∧ __code__ (unwrap (_function f)) = Ok c ∧ reads_global c (attribute_of (p_name p)).

Record kept (contract : Contract) : Prop := {
  patched_reviewed : ∀ p, p ∈ c_patched contract → patched_kept p;
  not_overridden : ∀ owner attribute, (owner, attribute) ∈ c_inherited contract → ∃ cls, names owner cls ∧ vars cls attribute = None;
  signatures_kept : ∀ name expected, (name, expected) ∈ c_signatures contract → ∃ value, names name value ∧ parameters value = Ok expected;
  fields_kept : ∀ owner needed, (owner, needed) ∈ c_fields contract →
    ∃ cls fields, names owner cls ∧ dataclass_fields cls = Ok fields ∧ ∀ name, name ∈ needed → name ∈ fields }.

Definition well_named (contract : Contract) : Prop :=
  (∀ p, p ∈ c_patched contract → 58 ∈ p_name p ∧ ∀ caller, caller ∈ p_callers p → 58 ∈ caller) ∧
  (∀ owner attribute, (owner, attribute) ∈ c_inherited contract → 58 ∈ owner) ∧
  (∀ name expected, (name, expected) ∈ c_signatures contract → 58 ∈ name) ∧
  (∀ owner needed, (owner, needed) ∈ c_fields contract → 58 ∈ owner).

Lemma resolve_parts_iff value parts target : resolve_parts value parts = Some target ↔ leads value parts target.
Proof.
  revert value. induction parts as [|part parts IH]; intros value; cbn [resolve_parts].
  - split; [intros [= <-]; constructor|]. by inversion 1.
  - destruct (is_class value) eqn:Hc; [destruct (vars value part) as [found|] eqn:Hv|].
    + rewrite IH. split; [intros; by eapply leads_own|]. inversion 1; simplify_eq; [done|].
      match goal with H : _ ∨ _ |- _ => destruct H; congruence end.
    + split.
      * intros (found & Hg & Hr)%bind_Some. apply IH in Hr. eapply leads_attribute; eauto.
      * inversion 1; subst; [congruence|]. apply bind_Some. eexists. split; [done|]. by apply IH.
    + split.
      * intros (found & Hg & Hr)%bind_Some. apply IH in Hr. eapply leads_attribute; eauto.
      * inversion 1; subst; [congruence|]. apply bind_Some. eexists. split; [done|]. by apply IH.
Qed.

Lemma resolve_iff name target : 58 ∈ name → resolve name = Some target ↔ names name target.
Proof.
  intros Hcolon. unfold resolve, names. destruct (partition_on 58 name) as [module_name [qualified|]] eqn:Hp.
  - apply partition_on_Some in Hp as [-> Hm]. cbn [default]. split.
    + intros (value & Hi & Hr)%bind_Some. apply resolve_parts_iff in Hr. eauto 10.
    + intros (m & q & value & Heq & Hm' & Hi & Hl). assert (Hq := proj2 (partition_on_Some 58 (m ++ 58 :: q) m q) (conj eq_refl Hm')).
      rewrite <- Heq, (proj2 (partition_on_Some 58 (module_name ++ 58 :: qualified) module_name qualified) (conj eq_refl Hm)) in Hq.
      injection Hq as -> ->. apply bind_Some. exists value. split; [done|]. by apply resolve_parts_iff.
  - apply partition_on_None in Hp as [_ Hn]. done.
Qed.

Lemma code_nested_ind (P : code → Prop) : (∀ instructions nested, Forall P nested → P (Code instructions nested)) → ∀ c, P c.
Proof.
  intros Hstep. fix IH 1. intros [instructions nested]. apply Hstep. induction nested as [|c nested IHn]; constructor; [apply IH|exact IHn].
Qed.

Lemma global_names_iff c name : name ∈ _global_names c ↔ reads_global c name.
Proof.
  induction c as [instructions nested IH] using code_nested_ind. cbn [_global_names]. rewrite elem_of_app, list_elem_of_omap.
  assert (Hnested : name ∈ concat (List.map _global_names nested) ↔ ∃ inner, inner ∈ nested ∧ reads_global inner name).
  { induction IH as [|c nested Hc _ IHn]; [set_solver|]. cbn. rewrite elem_of_app, Hc, IHn. clear Hc IHn. set_solver. }
  rewrite Hnested. split.
  - intros [([operation n] & Hin & Ho)|(inner & Hin & Hr)]; [|by eapply reads_nested]. cbn in Ho. case_bool_decide; [|done]. injection Ho as <-.
    by eapply reads_here.
  - inversion 1; subst; [left|right; eauto]. exists (operation, name). cbn. by rewrite bool_decide_eq_true_2.
Qed.

Lemma if_nil {A} (b : bool) (x : A) : (if b then [] else [x]) = [] ↔ b = true.
Proof. by destruct b. Qed.

Lemma caller_kept attribute p caller :
  58 ∈ caller → _caller_violations attribute p caller = Ok [] ↔ ∃ f c, names caller f ∧ __code__ (unwrap (_function f)) = Ok c ∧ reads_global c attribute.
Proof.
  intros Hcolon. unfold _caller_violations. setoid_rewrite <- (resolve_iff caller) ; [|done..]. destruct (resolve caller) as [f|]; [|naive_solver].
  rewrite bind_Ok_iff. setoid_rewrite <- global_names_iff. split.
  - intros (c & Hc & Hok%Ok_inj). apply if_nil, bool_decide_eq_true in Hok. eauto.
  - intros (f' & c & [= <-] & Hc & Hr). exists c. split; [done|]. by rewrite bool_decide_eq_true_2.
Qed.

Lemma patched_iff p :
  58 ∈ p_name p → (∀ caller, caller ∈ p_callers p → 58 ∈ caller) → _patched_violations p = Ok [] ↔ patched_kept p.
Proof.
  intros Hcolon Hcallers. unfold _patched_violations, patched_kept, source_sha256. setoid_rewrite <- (resolve_iff (p_name p)); [|done..].
  destruct (resolve (p_name p)) as [value|]; [|naive_solver]. split.
  - intros (actual & Hsha & H1)%bind_Ok_inv. apply bind_Ok_inv in Hsha as (source & Hsource & [= <-]).
    apply bind_Ok_inv in H1 as (callers & Hms & Hnil%Ok_inj). apply app_nil in Hnil as [Heq Hnil]. apply if_nil, bool_decide_eq_true in Heq.
    exists value, source. split_and!; [done..|]. intros caller Hc. apply (caller_kept _ p); [auto|].
    by apply (proj1 (mapM_concat_nil _ (p_callers p)) (ex_intro _ callers (conj Hms Hnil))).
  - intros (value' & source & [= <-] & Hsource & Heq & Hall).
    destruct (proj2 (mapM_concat_nil (_caller_violations (attribute_of (p_name p)) p) (p_callers p))) as (ms & Hms & Hnil).
    { intros caller Hc. apply caller_kept; auto. }
    rewrite bind_Ok_iff. exists (p_sha256 p). split; [by rewrite Hsource, <- Heq|]. rewrite bind_Ok_iff. exists ms. split; [done|].
    rewrite bool_decide_eq_true_2 by done. exact (f_equal Ok Hnil).
Qed.

Lemma inherited_iff owner attribute :
  58 ∈ owner → _inherited_violations (owner, attribute) = Ok [] ↔ ∃ cls, names owner cls ∧ vars cls attribute = None.
Proof.
  intros Hcolon. unfold _inherited_violations. setoid_rewrite <- (resolve_iff owner); [|done..]. destruct (resolve owner) as [cls|]; [|naive_solver].
  destruct (vars cls attribute) eqn:Hv; naive_solver.
Qed.

Lemma signature_iff name expected :
  58 ∈ name → _signature_violations (name, expected) = Ok [] ↔ ∃ value, names name value ∧ parameters value = Ok expected.
Proof.
  intros Hcolon. unfold _signature_violations. setoid_rewrite <- (resolve_iff name); [|done..]. destruct (resolve name) as [value|]; [|naive_solver].
  rewrite bind_Ok_iff. split.
  - intros (actual & Hp & Hok%Ok_inj). apply if_nil, bool_decide_eq_true in Hok as ->. eauto.
  - intros (value' & [= <-] & Hp). exists expected. split; [done|]. by rewrite bool_decide_eq_true_2.
Qed.

Lemma field_iff owner needed :
  58 ∈ owner → _field_violations (owner, needed) = Ok [] ↔
  ∃ cls fields, names owner cls ∧ dataclass_fields cls = Ok fields ∧ ∀ name, name ∈ needed → name ∈ fields.
Proof.
  intros Hcolon. unfold _field_violations. setoid_rewrite <- (resolve_iff owner); [|done..]. destruct (resolve owner) as [cls|]; [|naive_solver].
  rewrite bind_Ok_iff. split.
  - intros (fields & Hf & Hok%Ok_inj). apply fmap_nil_inv in Hok. exists cls, fields. split_and!; [done..|]. intros name Hn.
    apply (proj1 (filter_rejects _ _) Hok) in Hn. apply negb_false_iff, bool_decide_eq_true in Hn. done.
  - intros (cls' & fields & [= <-] & Hf & Hall). exists fields. split; [done|]. rewrite (proj2 (filter_rejects _ _)); [done|].
    intros name Hn. by rewrite bool_decide_eq_true_2 by auto.
Qed.

(** A contract finds no difference exactly when it is kept. *)
Lemma contract_iff contract : well_named contract → contract_violations contract = Ok [] ↔ kept contract.
Proof.
  intros (Hp & Hi & Hs & Hf). transitivity (
    (∀ x, x ∈ c_patched contract → _patched_violations x = Ok []) ∧ (∀ x, x ∈ c_inherited contract → _inherited_violations x = Ok []) ∧
    (∀ x, x ∈ c_signatures contract → _signature_violations x = Ok []) ∧ (∀ x, x ∈ c_fields contract → _field_violations x = Ok [])).
  - rewrite <- !mapM_concat_nil. unfold contract_violations. split.
    + intros (ps & H1 & (ins & H2 & (ss & H3 & (fs & H4 & Hnil%Ok_inj)%bind_Ok_inv)%bind_Ok_inv)%bind_Ok_inv)%bind_Ok_inv.
      apply app_nil in Hnil as [? [? [? ?]%app_nil]%app_nil]. split_and!; [exists ps|exists ins|exists ss|exists fs]; done.
    + intros ((ps & -> & Hps) & (ins & -> & His) & (ss & -> & Hss) & (fs & -> & Hfs)). cbn. by rewrite Hps, His, Hss, Hfs.
  - split.
    + intros (H1 & H2 & H3 & H4). split.
      * intros p Hin. destruct (Hp p Hin). by apply patched_iff, H1.
      * intros owner attribute Hin. apply inherited_iff; eauto.
      * intros name expected Hin. apply signature_iff; eauto.
      * intros owner needed Hin. apply field_iff; eauto.
    + intros [H1 H2 H3 H4]. split_and!.
      * intros p Hin. destruct (Hp p Hin). apply patched_iff; auto.
      * intros [owner attribute] Hin. apply inherited_iff; eauto.
      * intros [name expected] Hin. apply signature_iff; eauto.
      * intros [owner needed] Hin. apply field_iff; eauto.
Qed.

Definition has_colon (name : text) : bool := bool_decide (58 ∈ name).

Lemma colons {A} (f : A → text) l : forallb (λ x, has_colon (f x)) l = true → ∀ x, x ∈ l → 58 ∈ f x.
Proof. intros Hall x Hx. rewrite forallb_forall in Hall. apply list_elem_of_In in Hx. by apply Hall, bool_decide_eq_true in Hx. Qed.

Lemma reviewed_well_named : well_named contract_27_1.
Proof.
  split_and!.
  - intros p Hp. split; [by apply (colons p_name (c_patched contract_27_1))|].
    assert (Hall : forallb (λ p, forallb has_colon (p_callers p)) (c_patched contract_27_1) = true) by reflexivity.
    rewrite forallb_forall in Hall. apply list_elem_of_In, Hall in Hp. by apply (colons id).
  - intros owner attribute. by apply (colons fst (c_inherited contract_27_1)).
  - intros name expected. by apply (colons fst (c_signatures contract_27_1)).
  - intros owner needed. by apply (colons fst (c_fields contract_27_1)).
Qed.

(** C21: release mode accepts the importable mkosi exactly when its version is a reviewed one and its internals keep that version's contract:
    every function that release mode patches resolves to a source text with the reviewed digest, every caller that must see the patch reads the
    patched name from the globals of its module, the class that inherits a patched method does not override it, the functions release mode
    calls have the reviewed parameters and the classes it reads have the fields. An mkosi of another version is refused even if it
    keeps the newest contract. *)
Theorem contract_exact version : verify version = Ok tt ↔ ∃ contract, dget version CONTRACTS = Some contract ∧ kept contract.
Proof.
  unfold verify, violations. destruct (dget version CONTRACTS) as [contract|] eqn:Hd.
  - assert (contract = contract_27_1) as ->.
    { revert Hd. unfold CONTRACTS, dget. cbn -[contract_27_1]. by repeat case_match; intros [= ?]. }
    split.
    + intros (found & Hf & Hr)%bind_Ok_inv. apply raise_if_Ok, negb_false_iff, bool_decide_eq_true in Hr as ->.
      exists contract_27_1. split; [done|]. by apply contract_iff; [apply reviewed_well_named|].
    + intros (contract & [= <-] & Hk). apply contract_iff in Hk; [|apply reviewed_well_named]. by rewrite Hk.
  - split; [|by intros (? & ? & _)]. intros (found & Hf & Hr)%bind_Ok_inv. exfalso. apply raise_if_Ok, negb_false_iff, bool_decide_eq_true in Hr as ->.
    destruct (newest (dkeys CONTRACTS)) as [v|]; [|done]. by apply bind_Ok_inv in Hf as (? & _ & (? & _ & [=])%bind_Ok_inv).
Qed.
End contract.

(** ** A small mkosi *)

(** Object 0 is the module m, 1 its function f, 2 its class Apt with the inherited attribute mounts, 3 the function g, which calls f in a
    nested function. *)
Definition demo_source : text := lit "def f(a, *, b=1): pass".
Definition demo_digest : text := Eval vm_compute in hex (sha256 (utf8_encode demo_source)).

#[local] Instance demo_mkosi : Interpreter := {|
  obj := Z;
  import_module name := if bool_decide (name = lit "m") then Some 0 else None;
  is_class value := value =? 2;
  vars value part := None;
  getattr value part :=
    dget (value, part) [((0, lit "f"), 1); ((0, lit "Apt"), 2); ((0, lit "g"), 3); ((2, lit "mounts"), 1)];
  descriptor_of value := Plain;
  getsource value := Ok demo_source;
  unwrap value := value;
  signature value := Ok [{| pa_name := lit "a"; pa_kind := POSITIONAL_OR_KEYWORD; pa_default := false |};
                         {| pa_name := lit "b"; pa_kind := KEYWORD_ONLY; pa_default := true |}];
  __code__ value := Ok (Code [(lit "LOAD_FAST", lit "f")] [Code [(lit "LOAD_GLOBAL", lit "f")] []]);
  dataclass_fields value := Ok [lit "image"] |}.

Definition demo_contract (attribute : string) (expected field : text) : Contract := {|
  c_patched := [{| p_name := lit "m:f"; p_patch := lit "_patch_f"; p_sha256 := demo_digest; p_recheck := lit "it passes"; p_callers := [lit "m:g"] |}];
  c_inherited := [(lit "m:Apt", lit attribute)];
  c_signatures := [(lit "m:Apt.mounts", expected)];
  c_fields := [(lit "m:Apt", [field])] |}.

(** A contract that this mkosi keeps, and one whose parameters and fields differ; mkosi itself has another version. *)
Example demo_violations :
  violations CONTRACTS (lit "27.1") (Some (demo_contract "mounts" (lit "a, *, b=") (lit "image"))) = Ok [] ∧
  violations CONTRACTS (lit "27.1") (Some (demo_contract "mounts" (lit "a, b=") (lit "release"))) =
    Ok [("{} parameters changed from ({}) to ({}); release mode calls it", [lit "m:Apt.mounts"; lit "a, b="; lit "a, *, b="]);
        ("{} has no field {}; release mode reads it", [lit "m:Apt"; lit "release"])] ∧
  (∃ e, verify (lit "28") = Err e).
Proof. split_and!; [vm_compute; reflexivity..|]. eexists. vm_compute. reflexivity. Qed.
