(* ===== verification/ReleasePatches.v ===== *)
(** * Release mode's patches of mkosi: [mkosi_runner/release_patches.py] and the mirror of [mkosi_runner/release_sandbox.py]

    The functions that release mode puts in place of mkosi's. mkosi's own [parse_config] is a [program]: it reads INI items and parses
    further configurations through the patched functions, sees what they return or raise, and returns or raises itself. The wrapper's
    flag and depth counter are the state that a program runs in, with the files that were
    written. *)
From S2P Require Import Prelude Bytes PyText Hashing Collections MkosiContract ReleaseValidation CommandLine.

(** ** release_sandbox.py: the mirror *)

Record SnapshotMirror := { directory : text; sandbox_tree : text }.

Definition _MIRROR_SOURCES : text := lit "etc/apt/sources.list.d/mkosi.sources".

Definition nl : text := [10].

(** The file that [write_sources] writes: its path and its content. *)
Definition write_sources (mirror : SnapshotMirror) (release : text) (components : list text) : text * text :=
  (child (sandbox_tree mirror) _MIRROR_SOURCES,
   lit "Types: deb" ++ nl ++ lit "URIs: file:///repository" ++ nl ++ lit "Suites: " ++ release ++ nl ++
   lit "Components: " ++ join (lit " ") components ++ nl ++ lit "Trusted: yes" ++ nl).

(** ** Mounts and the repository *)

Definition is_bind (kind source destination : text) (options : list text) : bool :=
  match options with
  | a :: b :: c :: _ => bool_decide (a = kind) && bool_decide (b = source) && bool_decide (c = destination)
  | _ => false
  end.

(** The index of the first of [options] where a bind starts; [os.fspath] of the options has been taken. *)
Fixpoint _find_bind (options : list text) (kind source destination : text) : option nat :=
  match options with
  | [] => None
  | _ :: rest => if is_bind kind source destination options then Some O else S <$> _find_bind rest kind source destination
  end.

Definition REPOSITORY : text := lit "/repository".

(** The patched [PackageManager.mounts] on the options of the original one. *)
Definition mounts (mirror : text) (options : list text) : result (list text) :=
  match _find_bind options (lit "--bind") mirror REPOSITORY with
  | None => Err (SystemExit "mkosi did not register the declared release mirror" [])
  | Some i => mret (<[i := lit "--ro-bind"]> options)
  end.

(** A context: its workspace, and whether its constructor has returned. *)
Record context := { workspace : text; _rules_mkosi_release_mirror : bool }.

Definition repository (mirror : text) (c : context) : text :=
  if negb (_rules_mkosi_release_mirror c) then child (workspace c) (lit "repository") else mirror.

(** The patched constructor: what the original one reads of [repository] is the workspace directory. *)
Definition init (original_init : (context → text) → text → context) (mirror ws : text) : context :=
  {| workspace := workspace (original_init (repository mirror) ws); _rules_mkosi_release_mirror := true |}.

(** ** The wrapped [parse_config] *)

Section configuration.
Context {args tools : Type}.

(** What [parse_config] returns. *)
Definition parsed : Type := args * tools * list config.

(** mkosi's [parse_config]: [ReadIni file section k] takes the next item of an INI file through [parse_ini], of which [file] is the first
    argument; [ParseConfig resources inner k] parses another configuration, [inner], with the given [resources=]. *)
Inductive program :=
  | Return (p : parsed)
  | Raise (e : exn)
  | ReadIni (file : option text) (section : text) (k : result unit → program)
  | ParseConfig (resources : option text) (inner : program) (k : result parsed → program).

Record state := { _pending : bool; _depth : Z; written : list (text * text) }.

(** The class of the wrapper: [_resolved] with the files it writes, and the roots whose INI files its [parse_ini] checks, if it
    patches that. *)
Record wrapper := { _resolved : parsed → result (parsed * list (text * text)); _declared_roots : option (list path) }.

Definition initial : state := {| _pending := true; _depth := 0; written := [] |}.

Definition enter (st : state) : state := {| _pending := _pending st; _depth := _depth st + 1; written := written st |}.
Definition leave (st : state) : state := {| _pending := _pending st; _depth := _depth st - 1; written := written st |}.
Definition done_with (files : list (text * text)) (st : state) : state :=
  {| _pending := false; _depth := _depth st; written := written st ++ files |}.

Definition primary (resources : option text) : bool := negb (contains (lit "mkosi-initrd") (default (lit "/") resources)).

Section wrapped.
Context `{Host} (w : wrapper).

Definition declared (file : option text) : bool :=
  match _declared_roots w, file with Some roots, Some file => is_declared (resolve file) roots | _, _ => false end.

(** One item of the patched generator. *)
Definition parse_ini (file : option text) (section : text) (st : state) : result unit :=
  if _pending st && (_depth st =? 1) && declared file then validate_ini_section section else Ok tt.

(** What follows the original [parse_config] in the patched one. *)
Definition finish (resources : option text) (outcome : result parsed * state) : result parsed * state :=
  let '(r, st) := outcome in
  let st := leave st in
  match r with
  | Err e => (Err e, st)
  | Ok p =>
      if _pending st && (_depth st =? 0) && primary resources then
        match _resolved w p with
        | Ok (p, files) => (Ok p, done_with files st)
        | Err e => (Err e, st)
        end
      else (Ok p, st)
  end.

Fixpoint exec (prog : program) (st : state) : result parsed * state :=
  match prog with
  | Return p => (Ok p, st)
  | Raise e => (Err e, st)
  | ReadIni file section k => exec (k (parse_ini file section st)) st
  | ParseConfig resources inner k => let '(r, st) := finish resources (exec inner (enter st)) in exec (k r) st
  end.

Definition parse_config (resources : option text) (original : program) (st : state) : result parsed * state :=
  finish resources (exec original (enter st)).

(** The calls of [parse_config] that mkosi's own code makes, one after the other. *)
Fixpoint session (calls : list (option text * program)) (st : state) : list (result parsed) * state :=
  match calls with
  | [] => ([], st)
  | (resources, original) :: calls =>
      let '(r, st) := parse_config resources original st in
      let '(rs, st) := session calls st in (r :: rs, st)
  end.

(** ** What the wrapper promises *)

(** mkosi without patches. *)
Fixpoint unpatched (prog : program) : result parsed :=
  match prog with
  | Return p => Ok p
  | Raise e => Err e
  | ReadIni _ _ k => unpatched (k (Ok tt))
  | ParseConfig _ inner k => unpatched (k (unpatched inner))
  end.

(** mkosi where the declared INI files that the requested image reads itself are checked. *)
Fixpoint checked (prog : program) : result parsed :=
  match prog with
  | Return p => Ok p
  | Raise e => Err e
  | ReadIni file section k => checked (k (if declared file then validate_ini_section section else Ok tt))
  | ParseConfig _ inner k => checked (k (unpatched inner))
  end.

(** Only the first configuration of the requested image that parses and resolves is replaced by what it resolves to, with the files
    written for it. *)
Fixpoint first_resolved (calls : list (option text * program)) : list (result parsed) * list (text * text) :=
  match calls with
  | [] => ([], [])
  | (resources, original) :: calls =>
      match checked original with
      | Ok p =>
          if primary resources then
            match _resolved w p with
            | Ok (p, files) => (Ok p :: (unpatched ∘ snd <$> calls), files)
            | Err e => let '(rs, files) := first_resolved calls in (Err e :: rs, files)
            end
          else let '(rs, files) := first_resolved calls in (Ok p :: rs, files)
      | Err e => let '(rs, files) := first_resolved calls in (Err e :: rs, files)
      end
  end.

Lemma parse_ini_free file section st : _pending st = false ∨ _depth st ≠ 1 → parse_ini file section st = Ok tt.
Proof.
  intros Hst. unfold parse_ini. replace (_pending st && (_depth st =? 1)) with false; [done|]. destruct Hst as [->|Hd]; [done|].
  rewrite (proj2 (Z.eqb_neq _ _) Hd). by rewrite andb_false_r.
Qed.

Lemma leave_enter st : leave (enter st) = st.
Proof. destruct st as [pending depth files]. unfold leave, enter. cbn. f_equal. lia. Qed.

Lemma finish_unresolved resources r st : _pending st = false ∨ _depth st ≠ 0 → finish resources (r, enter st) = (r, st).
Proof.
  intros Hst. unfold finish. rewrite leave_enter. replace (_pending st && (_depth st =? 0)) with false; [by destruct r|].
  destruct Hst as [->|Hd]; [done|]. rewrite (proj2 (Z.eqb_neq _ _) Hd). by rewrite andb_false_r.
Qed.

(** Below the outermost call, and once nothing is pending, the patches change nothing. *)
Lemma exec_unpatched prog st : _pending st = false ∨ 2 ≤ _depth st → exec prog st = (unpatched prog, st).
Proof.
  revert st. induction prog as [p|e|file section k IH|resources inner IHi k IHk]; intros st Hst; cbn [exec unpatched]; [done..| |].
  - rewrite parse_ini_free by (destruct Hst; [by left|right; lia]). by apply IH.
  - rewrite IHi by (destruct Hst; [by left|right; cbn; lia]). rewrite finish_unresolved by (destruct Hst; [by left|right; lia]). by apply IHk.
Qed.

Lemma exec_checked prog st : _pending st = true → _depth st = 1 → exec prog st = (checked prog, st).
Proof.
  revert st. induction prog as [p|e|file section k IH|resources inner _ k IHk]; intros st Hp Hd; cbn [exec checked]; [done..| |].
  - unfold parse_ini. rewrite Hp, Hd. by apply IH.
  - rewrite exec_unpatched by (right; cbn; lia). rewrite finish_unresolved by (right; lia). by apply IHk.
Qed.

(** Nothing is pending: the calls are mkosi's. *)
Lemma session_unpatched calls st : _pending st = false → session calls st = (unpatched ∘ snd <$> calls, st).
Proof.
  intros Hp. induction calls as [|[resources original] calls IH]; [done|]. cbn [session]. unfold parse_config.
  rewrite exec_unpatched by (by left). rewrite finish_unresolved by (by left). by rewrite IH.
Qed.

Lemma session_first calls st :
  _pending st = true → _depth st = 0 →
  let '(rs, st') := session calls st in first_resolved calls = (rs, drop (length (written st)) (written st')) ∧ written st `prefix_of` written st'.
Proof.
  intros Hp Hd. induction calls as [|[resources original] calls IH]; [cbn; by rewrite drop_all|]. cbn [session first_resolved]. unfold parse_config.
  rewrite exec_checked by (cbn; done || lia). unfold finish. rewrite leave_enter, Hp, Hd. cbn [andb Z.eqb].
  destruct (checked original) as [p|e]; [destruct (primary resources); [destruct (_resolved w p) as [[p' files]|e]|]|].
  1: { rewrite session_unpatched by done. cbn. split; [by rewrite drop_app_length|by apply prefix_app_r]. }
  all: destruct (session calls st) as [rs st']; destruct IH as [-> Hw]; done.
Qed.

(** The length of a session's results, and what the results before the first resolved configuration are. *)
Lemma first_resolved_spec calls i resources original p :
  calls !! i = Some (resources, original) → primary resources = true → (first_resolved calls).1 !! i = Some (Ok p) →
  ∃ j resources' original' q q' files, (j ≤ i)%nat ∧ calls !! j = Some (resources', original') ∧ primary resources' = true ∧
    checked original' = Ok q ∧ _resolved w q = Ok (q', files) ∧ (first_resolved calls).1 !! j = Some (Ok q') ∧ (first_resolved calls).2 = files.
Proof.
  revert i. induction calls as [|[r0 o0] calls IH]; intros i Hi Hprim Hp; [done|]. cbn [first_resolved] in *.
  destruct (checked o0) as [q|e] eqn:Hc; [destruct (primary r0) eqn:Hr; [destruct (_resolved w q) as [[q' files]|e] eqn:Hq|]|].
  1: { exists O, r0, o0, q, q', files. cbn. split_and!; [lia|done..]. }
  all: destruct (first_resolved calls) as [rs files]; destruct i as [|i]; cbn in Hi, Hp; [congruence|];
    destruct (IH i Hi Hprim Hp) as (j & r' & o' & q1 & q2 & fs & Hj & H1 & H2 & H3 & H4 & H5 & H6);
    exists (S j), r', o', q1, q2, fs; split_and!; [lia|done..].
Qed.
End wrapped.

(** ** The two wrappers *)

(** ["{}".format(v)]. *)
Definition formatted `{Host} (v : cval) : text := match v with CStr t => t | v => str_of v end.

Definition _write_mirror_sources `{Host} (mirror : SnapshotMirror) (images : list config) (components : list text) : result (text * text) :=
  match images with
  | [] => Err (SystemExit "mkosi parsed no image to install from the Debian snapshot mirror" [])
  | image :: _ =>
      release ← attr image "release";
      repositories ← attr image "repositories";
      repositories ← texts_of repositories;
      components ← release_apt_components repositories components;
      mret (write_sources mirror (formatted release) components)
  end.

Definition _MirrorConfiguration `{Host} (mirror : SnapshotMirror) (components : list text) : wrapper := {|
  _resolved p := file ← _write_mirror_sources mirror p.2 components; mret (p, [file]);
  _declared_roots := None |}.

Definition PROXY_CERTIFICATES : list text := lit <$> ["proxy_peer_certificate"; "proxy_client_certificate"; "proxy_client_key"].

(** [dataclasses.replace] refuses a name that is no field. *)
Definition _without_proxy_certificates (c : config) : result config :=
  require (forallb (λ name, dmem name c) PROXY_CERTIFICATES) TypeError;;
  mret (foldl (λ c name, dset name CNone c) c PROXY_CERTIFICATES).

Definition is_main (c : config) : bool := is_text (getattr c "image" (CStr (lit "main"))) (lit "main").

Definition _ConfigurationValidator `{Host} `{Ucd} (settings : ReleaseSettings) (allowed_paths : list text) (allowed_extra_tree : option path)
    (mirror : option SnapshotMirror) : wrapper := {|
  _resolved p :=
    images ← mapM _without_proxy_certificates p.2;
    validate_release_configuration (List.filter is_main images) settings allowed_paths allowed_extra_tree;;
    files ← match mirror with
            | Some mirror => file ← _write_mirror_sources mirror images (rs_components settings); mret [file]
            | None => mret []
            end;
    mret ((p.1, images), files);
  _declared_roots := Some (resolve <$> allowed_paths) |}.

(** ** Activation *)

(** What has been replaced in mkosi: the mirror that [mounts] and [Context.repository] serve, the wrapper of [parse_config], and
    the other functions. *)
Record patches := {
  served : option text; configuration : option wrapper; install_apt_sources : bool; install_sandbox_trees : bool; make_tar : bool;
  record_deb_packages : bool }.

Definition _serve_mirror (mirror : SnapshotMirror) (m : patches) : patches :=
  {| served := Some (directory mirror); configuration := configuration m; install_apt_sources := install_apt_sources m;
     install_sandbox_trees := install_sandbox_trees m; make_tar := make_tar m; record_deb_packages := record_deb_packages m |}.

Definition install (w : wrapper) (m : patches) : patches :=
  {| served := served m; configuration := Some w; install_apt_sources := install_apt_sources m;
     install_sandbox_trees := install_sandbox_trees m; make_tar := make_tar m; record_deb_packages := record_deb_packages m |}.

Definition include_base_packages_in_manifest (m : patches) : patches :=
  {| served := served m; configuration := configuration m; install_apt_sources := install_apt_sources m;
     install_sandbox_trees := install_sandbox_trees m; make_tar := make_tar m; record_deb_packages := true |}.

(** The assignments to mkosi's modules after the validator is installed. *)
Definition replace_functions (stage : text) (m : patches) : patches :=
  let m := {| served := served m; configuration := configuration m; install_apt_sources := true; install_sandbox_trees := true;
              make_tar := if bool_decide (stage = lit "base") then true else make_tar m; record_deb_packages := record_deb_packages m |} in
  if bool_decide (stage = lit "finalize") then include_base_packages_in_manifest m else m.

Definition activate_release_mode `{Interpreter} `{Host} `{Ucd} (version : text) (mirror : option SnapshotMirror) (settings : ReleaseSettings)
    (allowed_paths : list text) (allowed_extra_tree : option path) (m : patches) : result unit * patches :=
  match verify version with
  | Err e => (Err e, m)
  | Ok _ =>
      if negb (Bool.eqb (negb (is_some mirror)) (bool_decide (rs_stage settings = lit "finalize"))) then
        (Err (SystemExit "only the release finalize stage runs without the Debian snapshot mirror" []), m)
      else
        let m := match mirror with Some mirror => _serve_mirror mirror m | None => m end in
        let m := install (_ConfigurationValidator settings allowed_paths allowed_extra_tree mirror) m in
        (Ok tt, replace_functions (rs_stage settings) m)
  end.

Definition activate_snapshot_mirror `{Interpreter} `{Host} (version : text) (mirror : SnapshotMirror) (components : list text) (m : patches) :
    result unit * patches :=
  match verify version with
  | Err e => (Err e, m)
  | Ok _ => (Ok tt, install (_MirrorConfiguration mirror components) (_serve_mirror mirror m))
  end.
End configuration.

Definition tar_command (root : text) (excludes : list text) (uid : Z) : list text :=
  let ownership := if uid =? 0 then [] else lit <$> ["--owner=root:0"; "--group=root:0"] in
  (lit <$> ["tar"; "--create"; "--file"; "-"; "--directory"]) ++ [root] ++
  (lit <$> ["--sort=name"; "--acls"; "--selinux"; "--xattrs"; "--pax-option=delete=atime,delete=ctime,delete=mtime"; "--force-local"]) ++
  ownership ++ excludes ++ [lit "."].

(** ** Theorems *)

Lemma find_bind_Some options kind source destination i :
  _find_bind options kind source destination = Some i ↔
  (∃ pre post, options = pre ++ [kind; source; destination] ++ post ∧ length pre = i) ∧
  ∀ pre post, options = pre ++ [kind; source; destination] ++ post → (i ≤ length pre)%nat.
Proof.
  assert (Hbind : ∀ l, is_bind kind source destination l = true ↔ ∃ post, l = [kind; source; destination] ++ post).
  { intros [|a [|b [|c l]]]; cbn; rewrite ?andb_true_iff, ?bool_decide_eq_true; naive_solver. }
  revert i. induction options as [|o options IH]; intros i; cbn [_find_bind].
  - split; [done|]. intros [(pre & post & Hnil & _) _]. by destruct pre.
  - destruct (is_bind kind source destination (o :: options)) eqn:Hb.
    + apply Hbind in Hb as (post & Hb). split.
      * intros [= <-]. split; [by exists [], post|lia].
      * intros [_ Hmin]. specialize (Hmin [] post Hb). cbn in Hmin. f_equal. lia.
    + assert (Hno : ∀ post, o :: options ≠ [kind; source; destination] ++ post).
      { intros post Heq. by rewrite (proj2 (Hbind _)) in Hb by eauto. }
      destruct i as [|i].
      * split; [by intros (? & _ & ?)%fmap_Some|]. intros [(pre & post & Heq & Hl) _]. apply nil_length_inv in Hl as ->. by destruct (Hno post).
      * rewrite fmap_Some. setoid_rewrite IH. split.
        -- intros (j & [(pre & post & Heq & Hl) Hmin] & [= ->]). split; [exists (o :: pre), post; cbn; by rewrite Heq, Hl|].
           intros [|x pre'] post' Heq'; [by destruct (Hno post')|]. injection Heq' as _ Heq'. cbn. apply Hmin in Heq'. lia.
        -- intros [([|x pre] & post & Heq & Hl) Hmin]; [done|]. injection Heq as _ Heq. exists i. split; [|done]. split; [by exists pre, post; auto|].
           intros pre' post' Heq'. specialize (Hmin (o :: pre') post'). cbn in Hmin. rewrite Heq' in Hmin. specialize (Hmin eq_refl). lia.
Qed.
