(* ===== verification/ReleasePatchesProofs.v ===== *)
(** * What release mode's patches guarantee

    The wrapper of [parse_config] implements its specification, no configuration of the requested image reaches mkosi before one
    has been validated, and the mirror is mounted read-only. *)
From S2P Require Import Prelude Bytes PyText Hashing Collections MkosiContract ReleaseValidation CommandLine ReleasePatches RepartProofs ReleaseProofs.

(** C20: the patched [parse_config], with its flag and its depth counter, does what it is for in any sequence of calls that mkosi makes,
    however the calls nest and whatever they catch: declared INI files that the requested image reads itself are checked until a
    configuration is accepted, nested calls behave as in mkosi, the first outermost configuration that is not mkosi-initrd's, parses and
    resolves is replaced by what it resolves to, its files are the only ones written, and every later call is mkosi's. *)
Theorem session_refines {args tools} `{Host} (w : @wrapper args tools) calls :
  let '(rs, st) := session w calls initial in (rs, written st) = first_resolved w calls.
Proof.
  assert (Hfirst := session_first w calls initial eq_refl eq_refl). destruct (session w calls initial) as [rs st]. by destruct Hfirst as [-> _].
Qed.

Section validator.
Context {args tools : Type} `{Host} `{Ucd}.
Context (settings : ReleaseSettings) (allowed_paths : list text) (allowed_extra_tree : option path).

(** The configuration that a validated call returns for the parsed one, and the files written for it. *)
Record validated (mirror : option SnapshotMirror) (q q' : @parsed args tools) (files : list (text * text)) : Prop := {
  proxies_removed : mapM _without_proxy_certificates q.2 = Ok q'.2;
  rest_kept : q'.1 = q.1;
  main_accepted : ∃ roots, validate_release_configuration (List.filter is_main q'.2) settings allowed_paths allowed_extra_tree = Ok roots;
  sources_written : match mirror with
    | None => files = []
    | Some m => ∃ file, files = [file] ∧ _write_mirror_sources m q'.2 (rs_components settings) = Ok file
    end }.

Lemma resolved_validated mirror q q' files :
  _resolved (_ConfigurationValidator settings allowed_paths allowed_extra_tree mirror) q = Ok (q', files) ↔ validated mirror q q' files.
Proof.
  cbn [_resolved _ConfigurationValidator]. split.
  - intros (images & Hi & (roots & Hv & Hr)%bind_Ok_inv)%bind_Ok_inv. apply bind_Ok_inv in Hr as (files' & Hf & [= <- <-]).
    split; [done..|by exists roots|]. destruct mirror as [m|]; [|by injection Hf as <-]. apply bind_Ok_inv in Hf as (file & Hf & [= <-]). eauto.
  - intros [Hi Hrest (roots & Hv) Hs]. rewrite bind_Ok_iff. exists q'.2. split; [done|]. rewrite bind_Ok_iff. exists roots. split; [done|].
    rewrite bind_Ok_iff. exists files. split; [destruct mirror as [m|]; [destruct Hs as (file & -> & Hs); by rewrite Hs|by rewrite Hs]|].
    rewrite <- Hrest. by destruct q'.
Qed.

(** C19: under the release validator, mkosi gets no configuration of the requested image before one was validated: when a call that does not
    parse mkosi-initrd's resources returns, then that call or an earlier one returned the validated configuration. Its images are those that mkosi
    parsed, from declared INI files without host-dependent sections, less the host's proxy certificates; the main ones pass
    the release checks; and the files written in the whole session are the APT sources of the mirror for them, or none without mirror. *)
Theorem configuration_validated mirror calls rs st i resources original p :
  session (_ConfigurationValidator settings allowed_paths allowed_extra_tree mirror) calls initial = (rs, st) →
  calls !! i = Some (resources, original) → primary resources = true → rs !! i = Some (Ok p) →
  ∃ j resources' original' q q', (j ≤ i)%nat ∧ calls !! j = Some (resources', original') ∧ primary resources' = true ∧
    checked (_ConfigurationValidator settings allowed_paths allowed_extra_tree mirror) original' = Ok q ∧ rs !! j = Some (Ok q') ∧
    validated mirror q q' (written st).
Proof.
  set (w := _ConfigurationValidator settings allowed_paths allowed_extra_tree mirror). intros Hsession Hi Hprim Hp.
  assert (Hfirst := session_first w calls initial eq_refl eq_refl). rewrite Hsession in Hfirst. destruct Hfirst as [Hfirst _].
  destruct (first_resolved_spec w calls i resources original p Hi Hprim) as (j & r' & o' & q & q' & files & Hj & H1 & H2 & H3 & H4 & H5 & H6);
    [by rewrite Hfirst|]. rewrite Hfirst in H5, H6. cbn in H5, H6. rewrite drop_0 in H6. subst files.
  exists j, r', o', q, q'. split_and!; [done..|]. by apply resolved_validated.
Qed.
End validator.

(** The patched [mounts] returns options exactly when mkosi binds the mirror read-write at /repository, and then they are mkosi's with
    the first such bind made read-only and nothing else changed; otherwise it ends the build. *)
Theorem mounts_read_only mirror options options' :
  mounts mirror options = Ok options' ↔
  ∃ pre post, options = pre ++ [lit "--bind"; mirror; REPOSITORY] ++ post ∧ options' = pre ++ [lit "--ro-bind"; mirror; REPOSITORY] ++ post ∧
    ∀ pre' post', options = pre' ++ [lit "--bind"; mirror; REPOSITORY] ++ post' → (length pre ≤ length pre')%nat.
Proof.
  unfold mounts. split.
  - destruct (_find_bind options _ mirror REPOSITORY) as [i|] eqn:Hf; [|done]. apply find_bind_Some in Hf as [(pre & post & -> & <-) Hmin].
    intros [= <-]. exists pre, post. split_and!; [done|by rewrite insert_app_r_alt, Nat.sub_diag by lia|done].
  - intros (pre & post & -> & -> & Hmin). rewrite (proj2 (find_bind_Some _ _ _ _ (length pre))); [|by split; [exists pre, post|]].
    by rewrite insert_app_r_alt, Nat.sub_diag by lia.
Qed.

(** ** A release build *)

Module PatchesDemo.
Definition settings : ReleaseSettings := {|
  rs_seed := rs_seed ReleaseDemo.settings; rs_source_date_epoch := 1700000000; rs_distribution := lit "debian"; rs_codename := lit "trixie";
  rs_snapshot := lit "20250101T000000Z"; rs_firmware := lit "uefi"; rs_components := lit <$> ["main"; "contrib"]; rs_stage := lit "image";
  rs_base_tree := None; rs_base_initrd := None |}.

Definition proxies : config := (λ name, (name, CPath (lit "/etc/ssl/certs/ca-certificates.crt"))) <$> PROXY_CERTIFICATES.

Definition image : config :=
  [(lit "seed", CUuid 7); (lit "source_date_epoch", CInt 1700000000); (lit "distribution", CEnum (lit "debian") (lit "debian"));
   (lit "release", CStr (lit "trixie")); (lit "snapshot", CStr (lit "20250101T000000Z")); (lit "repositories", CSeq [CStr (lit "contrib")]);
   (lit "extra_trees", CSeq [CObject (CPath (lit "/work/extra"))])] ++ proxies.

Definition mirror : SnapshotMirror := {| directory := lit "/workspace/debian-snapshot"; sandbox_tree := lit "/workspace/release-sandbox" |}.

(** A configuration that reads one item of a declared file, parses another configuration and returns its image. *)
Definition reads (section : string) : @program unit unit :=
  ReadIni (Some (lit "/work/mkosi.conf")) (lit section) (λ r, match r with
    | Ok _ => ParseConfig None (Return (tt, tt, [])) (λ r, match r with Ok _ => Return (tt, tt, [image]) | Err e => Raise e end)
    | Err e => Raise e
    end).

Definition calls : list (option text * @program unit unit) :=
  [(Some (lit "/usr/lib/mkosi/resources/mkosi-initrd"), Return (tt, tt, [[]])); (None, reads "Match"); (None, reads "Output"); (None, reads "Match")].
End PatchesDemo.

Section demo.
#[local] Existing Instances RepartDemo.host RepartDemo.laws ascii_ucd.
Import PatchesDemo.

Definition demo_wrapper : @wrapper unit unit := _ConfigurationValidator settings [lit "/work"] (Some (split_on 47 (lit "/work/extra"))) (Some mirror).
Definition demo_session : list (result (@parsed unit unit)) * state := Eval vm_compute in session demo_wrapper calls initial.

Definition without_proxies (c : config) : bool := match dget (lit "proxy_client_key") c with Some CNone => true | _ => false end.

(** The configuration of mkosi-initrd is not the requested one, a [Match] section ends the second call, the third one is validated and
    loses its proxy certificates, and the last one is as mkosi parses it. *)
Example demo_session_outcomes :
  (λ r : result (@parsed unit unit), match r with Ok p => Some (forallb without_proxies p.2) | Err _ => None end) <$> demo_session.1 =
    [Some false; None; Some true; Some false] ∧
  written demo_session.2 = [write_sources mirror (lit "trixie") (lit <$> ["main"; "contrib"])].
Proof. split; vm_compute; reflexivity. Qed.

Lemma configuration_validated_witness :
  ∃ rs st p, session demo_wrapper calls initial = (rs, st) ∧ rs !! 3%nat = Some (Ok p) ∧
    ∃ j resources original q q', (j ≤ 3)%nat ∧ calls !! j = Some (resources, original) ∧ primary resources = true ∧
      checked demo_wrapper original = Ok q ∧ rs !! j = Some (Ok q') ∧
      validated settings [lit "/work"] (Some (split_on 47 (lit "/work/extra"))) (Some mirror) q q' (written st).
Proof.
  exists demo_session.1, demo_session.2, (tt, tt, [image]).
  assert (Hs : session demo_wrapper calls initial = (demo_session.1, demo_session.2)) by (vm_compute; reflexivity).
  split; [exact Hs|]. split; [vm_compute; reflexivity|].
  apply (configuration_validated settings [lit "/work"] (Some (split_on 47 (lit "/work/extra"))) (Some mirror) calls demo_session.1 demo_session.2 3%nat
    None (reads "Match") (tt, tt, [image]) Hs); vm_compute; reflexivity.
Defined.
End demo.

(** Binds that are not at /repository, and the second bind of the mirror there, stay as they are. *)
Example demo_mounts :
  mounts (lit "/m") (lit <$> ["--bind"; "/m"; "/other"; "--bind"; "/m"; "/repository"; "--bind"; "/m"; "/repository"]) =
    Ok (lit <$> ["--bind"; "/m"; "/other"; "--ro-bind"; "/m"; "/repository"; "--bind"; "/m"; "/repository"]) ∧
  mounts (lit "/m") (lit <$> ["--bind"; "/m"]) = Err (SystemExit "mkosi did not register the declared release mirror" []).
Proof. split; reflexivity. Qed.
