(* ===== verification/HttpDownload.v ===== *)
(** * Downloads with back-off: [mkosi/debian/http_download.py]

    The server is a function from the number of an attempt to the body it sends or the error it causes; [sleep] is the list of the
    seconds waited. *)
From S2P Require Import Prelude Bytes PyText DebVersion.

Definition MAX_DELAY_SECONDS : Z := 60.

(** An error of the network: the status of an HTTP error, and its Retry-After header if it has headers with one. *)
Record failure := { status : option Z; retry_after : option text }.

Definition is_transient (e : failure) : bool := match status e with None => true | Some s => (s =? 429) || (500 <=? s) end.

Section unicode.
Context `{Ucd}.

Definition retry_delay (e : failure) (attempt : nat) : result Z :=
  let header := default [] (retry_after e) in
  delay ← if all_digits header then of_option (ValueError "invalid literal for int() with base 10" []) (py_int header) else mret (2 ^ Z.of_nat attempt);
  mret (Z.min delay MAX_DELAY_SECONDS).

(** [DownloadError None] is the error of a download without attempts; [Raised] is any other exception. *)
Inductive outcome := Body (data : bytes) | DownloadError (cause : option failure) | Raised (e : exn).

(** The loop at [attempt], with [remaining] attempts to go. *)
Fixpoint attempt_loop (opener : nat → bytes + failure) (remaining attempt : nat) : outcome * list Z :=
  match remaining with
  | O => (DownloadError None, [])
  | S remaining =>
      match opener attempt with
      | inl data => (Body data, [])
      | inr e =>
          if negb (is_transient e) || bool_decide (remaining = O) then (DownloadError (Some e), [])
          else match retry_delay e attempt with
               | Err x => (Raised x, [])
               | Ok delay => let '(o, delays) := attempt_loop opener remaining (S attempt) in (o, delay :: delays)
               end
      end
  end.

Definition download (opener : nat → bytes + failure) (attempts : nat) : outcome * list Z := attempt_loop opener attempts 0.

(** ** What a download does *)

(** The attempt [i] fails for a reason that may pass, and the code waits [delay] seconds after it. *)
Definition waits (opener : nat → bytes + failure) (i : nat) (delay : Z) : Prop :=
  ∃ e, opener i = inr e ∧ is_transient e = true ∧ retry_delay e i = Ok delay.

(** How the attempt [i], of which [remaining] more could follow, ends the download. *)
Inductive ends (opener : nat → bytes + failure) (i remaining : nat) : outcome → Prop :=
  | ends_body data : opener i = inl data → ends opener i remaining (Body data)
  | ends_permanent e : opener i = inr e → is_transient e = false → ends opener i remaining (DownloadError (Some e))
  | ends_last e : opener i = inr e → remaining = O → ends opener i remaining (DownloadError (Some e))
  | ends_raised e x : opener i = inr e → is_transient e = true → remaining ≠ O → retry_delay e i = Err x → ends opener i remaining (Raised x).

Lemma retry_delay_bound e i delay : retry_delay e i = Ok delay → delay ≤ MAX_DELAY_SECONDS.
Proof. intros (d & _ & Hd%Ok_inj)%bind_Ok_inv. lia. Qed.

(** The attempts from [attempt] on, of which [remaining] follow the first. *)
Definition attempts_made opener (remaining attempt : nat) o delays : Prop :=
  (length delays ≤ remaining)%nat ∧ (∀ i delay, delays !! i = Some delay → waits opener (attempt + i) delay) ∧
  ends opener (attempt + length delays) (remaining - length delays) o.

Lemma ends_unique opener i remaining o o' : ends opener i remaining o → ends opener i remaining o' → o = o'.
Proof. destruct 1; inversion 1; congruence. Qed.

Lemma ends_no_wait opener i remaining o delay : ends opener i remaining o → remaining ≠ O → ¬ waits opener i delay.
Proof. destruct 1; intros Hr (e1 & He & Ht & Hd); congruence. Qed.

Lemma made_nil opener remaining attempt o : attempts_made opener remaining attempt o [] ↔ ends opener attempt remaining o.
Proof.
  unfold attempts_made. cbn. rewrite Nat.add_0_r, Nat.sub_0_r. split; [by intros (_ & _ & ?)|]. intros He. split_and!; [lia|done|done].
Qed.

Lemma made_cons opener remaining attempt o delay delays :
  attempts_made opener (S remaining) attempt o (delay :: delays) ↔ waits opener attempt delay ∧ attempts_made opener remaining (S attempt) o delays.
Proof.
  unfold attempts_made. cbn [length]. rewrite Nat.sub_succ, Nat.add_succ_r. split.
  - intros (Hl & Hw & He). split; [specialize (Hw O delay eq_refl); by rewrite Nat.add_0_r in Hw|]. split_and!; [lia| |done].
    intros i d Hi. specialize (Hw (S i) d Hi). by rewrite Nat.add_succ_r in Hw.
  - intros (Hfirst & Hl & Hw & He). split_and!; [lia| |done]. intros [|i] d Hi; cbn in Hi.
    + injection Hi as <-. by rewrite Nat.add_0_r.
    + rewrite Nat.add_succ_r. by apply Hw.
Qed.

Lemma stop_iff opener remaining attempt o0 o delays :
  ends opener attempt remaining o0 → (o0, []) = (o, delays) ↔ attempts_made opener remaining attempt o delays.
Proof.
  intros He. split; [intros [= <- <-]; by apply made_nil|]. destruct delays as [|d delays].
  - intros Hm%made_nil. by rewrite (ends_unique _ _ _ _ _ He Hm).
  - destruct remaining as [|remaining]; [intros (Hl & _); cbn in Hl; lia|]. intros [Hw _]%made_cons. by destruct (ends_no_wait _ _ _ _ d He).
Qed.

Lemma attempt_loop_S opener remaining attempt :
  attempt_loop opener (S remaining) attempt =
  match opener attempt with
  | inl data => (Body data, [])
  | inr e =>
      if negb (is_transient e) || bool_decide (remaining = O) then (DownloadError (Some e), [])
      else match retry_delay e attempt with
           | Err x => (Raised x, [])
           | Ok delay => prod_map id (cons delay) (attempt_loop opener remaining (S attempt))
           end
  end.
Proof. cbn [attempt_loop]. by repeat case_match. Qed.

Lemma attempt_loop_iff opener remaining attempt o delays :
  attempt_loop opener (S remaining) attempt = (o, delays) ↔ attempts_made opener remaining attempt o delays.
Proof.
  revert attempt o delays. induction remaining as [|remaining IH]; intros attempt o delays; rewrite attempt_loop_S.
  all: destruct (opener attempt) as [data|e] eqn:Ho; [by apply stop_iff, ends_body|].
  - rewrite bool_decide_eq_true_2, orb_true_r by done. by apply stop_iff, ends_last.
  - rewrite bool_decide_eq_false_2, orb_false_r by done. destruct (is_transient e) eqn:Ht; [|by apply stop_iff, ends_permanent]. cbn [negb].
    destruct (retry_delay e attempt) as [delay|x] eqn:Hd; [|by eapply stop_iff, ends_raised].
    assert (Hwait : waits opener attempt delay) by (by exists e).
    destruct (attempt_loop opener (S remaining) (S attempt)) as [o1 ds] eqn:Hloop. split.
    + intros [= <- <-]. apply made_cons. split; [done|]. by apply IH.
    + destruct delays as [|d delays]; [intros He%made_nil; by destruct (ends_no_wait _ _ _ _ delay He)|]. intros [(e' & He' & _ & Hd') Hm]%made_cons.
      apply IH in Hm. rewrite Hloop in Hm. injection Hm as -> ->. rewrite Ho in He'. injection He' as <-. rewrite Hd in Hd'. by injection Hd' as <-.
Qed.

(** A download of at least one attempt ends: it makes one attempt after each wait and at most [attempts] of them, waits only after failures that
    may pass and at most a minute each time, and its outcome is that of the last attempt: the body, an error that is permanent or
    that leaves no attempt, or the exception of a Retry-After header. *)
Theorem download_exact opener attempts o delays :
  download opener (S attempts) = (o, delays) ↔
  (length delays ≤ attempts)%nat ∧ (∀ i delay, delays !! i = Some delay → waits opener i delay ∧ delay ≤ MAX_DELAY_SECONDS) ∧
  ends opener (length delays) (attempts - length delays) o.
Proof.
  unfold download. rewrite attempt_loop_iff. unfold attempts_made. cbn [Nat.add]. split; intros (Hl & Hw & He); split_and!; try done.
  - intros i delay Hi. split; [by apply Hw|]. destruct (Hw i delay Hi) as (e & _ & _ & Hd). by apply retry_delay_bound in Hd.
  - intros i delay Hi. by apply Hw.
Qed.

(** C37: a Retry-After header that [str.isdigit] accepts and [int] rejects ends the download with ValueError although attempts are remaining,
    instead of a retry after the default delay. *)
Theorem retry_after_value_error opener attempts e header :
  opener 0%nat = inr e → is_transient e = true → retry_after e = Some header → all_digits header = true → py_int header = None →
  download opener (S (S attempts)) = (Raised (ValueError "invalid literal for int() with base 10" []), []).
Proof.
  intros Ho Ht Hr Hdigits Hint. apply attempt_loop_iff, made_nil. eapply ends_raised; [done..|].
  unfold retry_delay. rewrite Hr. cbn. by rewrite Hdigits, Hint.
Qed.
End unicode.

(** A server that throttles with a superscript two, which ISO 8859-1 headers can hold, and would answer the second request. *)
Definition superscript_server (attempt : nat) : bytes + failure :=
  match attempt with O => inr {| status := Some 429; retry_after := Some [178] |} | _ => inl [] end.

Lemma retry_after_value_error_witness :
  @download superscript_ucd superscript_server 8 = (Raised (ValueError "invalid literal for int() with base 10" []), []).
Proof. by apply (@retry_after_value_error superscript_ucd superscript_server 6 {| status := Some 429; retry_after := Some [178] |} [178]). Defined.

(** Throttled with a header, then unavailable, then served; a missing file is not retried. *)
Example demo_download :
  @download ascii_ucd (λ i, match i with
    | O => inr {| status := Some 429; retry_after := Some (lit "90") |}
    | 1%nat => inr {| status := None; retry_after := None |}
    | _ => inl [] end) 8 = (Body [], [60; 2]) ∧
  @download ascii_ucd (λ i, inr {| status := Some 404; retry_after := None |}) 8 = (DownloadError (Some {| status := Some 404; retry_after := None |}), []).
Proof. split; vm_compute; reflexivity. Qed.
