(* ===== verification/ImageEnvironment.v ===== *)
(** * The environment of image actions: [ci/image_environment_validator.py]

    Actions and targets are the objects of Bazel's aquery output, of which a missing field is [None]. A difference is its template with
    the arguments it is formatted with. *)
From S2P Require Import Prelude Bytes PyText Collections.

Record Action := {
  executionInfo : list (option text); environmentVariables : list (option text * option text); arguments : list text;
  mnemonic : option text; targetId : option Z }.
Record Graph := { targets : list (option Z * option text); actions : list Action }.

Definition message : Type := string * list text.

Section environment.
(** [str.isalnum] of a character that is not ASCII. *)
Context `{Ucd} (ucd_isalnum : Z → bool).

Definition isalnum (t : text) : bool :=
  negb (bool_decide (t = [])) && forallb (λ c, if is_ascii c then ascii_digit c || ascii_lower c || ascii_upper c else ucd_isalnum c) t.

Definition _EXECROOT_PREFIXES : list text := lit <$> ["external/"; "bazel-out/"].
Definition _PYTHONPATH_IGNORING_OPTIONS : list Z := lit "EI".

Definition execroot_entry (entry : text) : bool :=
  existsb (startswith entry) _EXECROOT_PREFIXES && negb (bool_decide (lit ".." ∈ split_on 47 entry)).

Definition _is_execroot_path_list (value : text) : bool := forallb execroot_entry (split_on 58 value).

Definition equals (expected : string) (value : text) : bool := bool_decide (value = lit expected).

Definition EXPECTED : dict text (text → bool) := [
  (lit "PATH", equals ""); (lit "PYTHONNOUSERSITE", equals "1"); (lit "MKOSI_FORCE_USERNS_FALLBACK", equals "1");
  (lit "PYTHONPATH", _is_execroot_path_list); (lit "MKOSI_HOST_DISTRIBUTION", isalnum); (lit "MKOSI_HOST_RELEASE", isalnum);
  (lit "SOURCE_DATE_EPOCH", all_digits)].

Definition REQUIRED : list text := lit <$> ["PATH"; "PYTHONNOUSERSITE"; "MKOSI_FORCE_USERNS_FALLBACK"; "PYTHONPATH"].
Definition RELEASE : list text := lit <$> ["MKOSI_HOST_DISTRIBUTION"; "MKOSI_HOST_RELEASE"; "SOURCE_DATE_EPOCH"].
Definition _VALUE_OPTIONS : list Z := lit "WX".
Definition _PROGRAM_OPTIONS : list Z := lit "cm".
Definition _VALUE_LONG_OPTIONS : list text := [lit "--check-hash-based-pycs"].

Definition is_release (action : Action) : bool := forallb (λ key, negb (bool_decide (key = Some (lit "no-cache")))) (executionInfo action).

(** The letters, whether the next argument is a value, and whether the cluster starts the program. *)
Fixpoint _scan_short_options (cluster : text) : list Z * bool * bool :=
  match cluster with
  | [] => ([], false, false)
  | letter :: rest =>
      if bool_decide (letter ∈ _PROGRAM_OPTIONS) then ([letter], false, true)
      else if bool_decide (letter ∈ _VALUE_OPTIONS) then ([letter], bool_decide (rest = []), false)
      else let '(letters, value, program) := _scan_short_options rest in (letter :: letters, value, program)
  end.

(** The loop over the arguments after the interpreter; a set of letters is the list of them, of which only membership is read. *)
Fixpoint flags_loop (expects_value : bool) (args : list text) : list Z :=
  match args with
  | [] => []
  | argument :: rest =>
      if expects_value then flags_loop false rest
      else if bool_decide (argument ∈ [lit "-"; lit "--"]) || negb (startswith argument (lit "-")) then []
      else if startswith argument (lit "--") then flags_loop (bool_decide (argument ∈ _VALUE_LONG_OPTIONS)) rest
      else
        let '(letters, expects_value, starts_program) := _scan_short_options (drop 1 argument) in
        letters ++ if starts_program then [] else flags_loop expects_value rest
  end.

Definition interpreter_flags (args : list text) : list Z := flags_loop false (drop 1 args).

Definition environment (action : Action) : result (dict text text) :=
  foldM (λ env variable, key ← of_option KeyError variable.1; mret (dset key (default [] variable.2) env)) [] (environmentVariables action).

Definition check_variable (release : bool) (variable : text * text) : list message :=
  let '(key, value) := variable in
  match dget key EXPECTED with
  | None => [("unexpected {key}={value}", [key; value])]
  | Some check =>
      if negb release && bool_decide (key ∈ RELEASE) then [("unexpected {key}={value}", [key; value])]
      else if check value then [] else [("invalid {key}={value}", [key; value])]
  end.

Definition missing (env : dict text text) (required : list text) : list message :=
  (λ key, ("missing {key}"%string, [key])) <$> sorted_texts (List.filter (λ key, negb (dmem key env)) required).

Definition environment_errors (action : Action) : result (list message) :=
  env ← environment action;
  let release := is_release action in
  let required := if release then REQUIRED ++ RELEASE else REQUIRED in
  let errors := missing env required ++ (stable_sort (λ a b, negb (text_leb b.1 a.1)) env ≫= check_variable release) in
  let ignoring := List.filter (λ flag, bool_decide (flag ∈ interpreter_flags (arguments action))) _PYTHONPATH_IGNORING_OPTIONS in
  mret (errors ++ if bool_decide (ignoring = []) then []
                  else [("interpreter options {} ignore PYTHONPATH", [join (lit ", ") ((λ flag, [45; flag]) <$> ignoring)])]).

Definition add_label (labels : dict Z text) (target : option Z * option text) : result (dict Z text) :=
  id ← of_option KeyError target.1;
  label ← of_option KeyError target.2;
  mret (dset id label labels).

Definition is_image (action : Action) : bool := bool_decide (mnemonic action = Some (lit "MkosiImage")).

Definition label_of (labels : dict Z text) (action : Action) : text := default (lit "<unknown target>") (targetId action ≫= λ id, dget id labels).

Definition labelled_errors (labels : dict Z text) (action : Action) : result (list (text * message)) :=
  fmap (M := list) (pair (label_of labels action)) <$> environment_errors action.

Definition graph_errors (graph : Graph) : result (list (text * message)) :=
  labels ← foldM add_label [] (targets graph);
  let images := List.filter is_image (actions graph) in
  let kinds := [("release"%string, true); ("tracer"%string, false)] ≫= (λ '(kind, release),
    if bool_decide (release ∈ is_release <$> images) then [] else [([], ("no {kind} MkosiImage action in the graph"%string, [lit kind]))]) in
  errors ← mapM (labelled_errors labels) images;
  mret (kinds ++ concat errors).

(** The exit status of a graph. *)
Definition main (graph : Graph) : result Z :=
  errors ← graph_errors graph;
  mret (if bool_decide (length errors = 0%nat) then 0 else 1).

(** ** What a clean environment is *)

(** What follows a cluster of short options: more options, the value of its last option, or the program. *)
Inductive following := Options | Value | Program.

(** The letters of a cluster that are options. *)
Inductive cluster : text → list Z → following → Prop :=
  | cluster_end : cluster [] [] Options
  | cluster_program c rest : c ∈ _PROGRAM_OPTIONS → cluster (c :: rest) [c] Program
  | cluster_value c : c ∈ _VALUE_OPTIONS → cluster [c] [c] Value
  | cluster_attached c d rest : c ∈ _VALUE_OPTIONS → cluster (c :: d :: rest) [c] Options
  | cluster_flag c rest letters next :
      c ∉ _PROGRAM_OPTIONS → c ∉ _VALUE_OPTIONS → cluster rest letters next → cluster (c :: rest) (c :: letters) next.

(** A short option argument: a dash and a cluster that is not empty and starts with no dash. *)
Definition short (argument letters : text) (next : following) : Prop :=
  ∃ c rest, argument = 45 :: c :: rest ∧ c ≠ 45 ∧ cluster (c :: rest) letters next.

(** The interpreter that is run with [args] reads the option [letter], before the program and outside the values of options. *)
Inductive passes (letter : Z) : list text → Prop :=
  | passes_here argument letters next args : short argument letters next → letter ∈ letters → passes letter (argument :: args)
  | passes_short argument letters args : short argument letters Options → passes letter args → passes letter (argument :: args)
  | passes_short_value argument letters value args : short argument letters Value → passes letter args → passes letter (argument :: value :: args)
  | passes_long name args : name ≠ [] → 45 :: 45 :: name ∉ _VALUE_LONG_OPTIONS → passes letter args → passes letter ((45 :: 45 :: name) :: args)
  | passes_long_value name value args : name ∈ _VALUE_LONG_OPTIONS → passes letter args → passes letter (name :: value :: args).

Definition next_of (value program : bool) : following := if program then Program else if value then Value else Options.

Lemma scan_cluster t letters next :
  cluster t letters next ↔ ∃ value program, _scan_short_options t = (letters, value, program) ∧ next = next_of value program.
Proof.
  split.
  - induction 1 as [|c rest Hc|c Hc|c d rest Hc|c rest letters next Hp Hv _ (value & program & IH & ->)]; cbn [_scan_short_options].
    + by exists false, false.
    + rewrite bool_decide_eq_true_2 by done. by exists false, true.
    + rewrite bool_decide_eq_false_2 by (unfold _VALUE_OPTIONS, _PROGRAM_OPTIONS, lit in *; cbn in *; set_solver).
      rewrite bool_decide_eq_true_2 by done. by exists true, false.
    + rewrite bool_decide_eq_false_2 by (unfold _VALUE_OPTIONS, _PROGRAM_OPTIONS, lit in *; cbn in *; set_solver).
      rewrite bool_decide_eq_true_2 by done. by exists false, false.
    + rewrite !bool_decide_eq_false_2 by done. rewrite IH. by exists value, program.
  - revert letters next. induction t as [|c rest IH]; cbn [_scan_short_options]; intros letters next (value & program & Heq & ->).
    + injection Heq as <- <- <-. constructor.
    + case_bool_decide as Hp; [injection Heq as <- <- <-; by constructor|]. case_bool_decide as Hv.
      { injection Heq as <- <- <-. destruct rest; by constructor. }
      destruct (_scan_short_options rest) as [[l v] p]. injection Heq as <- <- <-. apply cluster_flag; [done..|]. apply IH. by exists v, p.
Qed.

(** The first argument of a command line with options: a long option, or a short one. *)
Lemma passes_dash letter argument args : passes letter (argument :: args) → ∃ c rest, argument = 45 :: c :: rest ∧ argument ≠ lit "--".
Proof.
  assert (Hshort : ∀ l n, short argument l n → ∃ c rest, argument = 45 :: c :: rest ∧ argument ≠ lit "--").
  { intros l n (c & rest & -> & Hc & _). exists c, rest. split; [done|]. by intros [= ->]. }
  inversion 1 as [a l n r Hs|a l r Hs|a l v r Hs|n r Hn|n v r Hn]; subst; eauto.
  - exists 45, n. split; [done|]. by intros [= ->].
  - apply list_elem_of_singleton in Hn as ->. by eexists _, _.
Qed.

Section flags.
Context (letter : Z) (args : list text).
Hypothesis IH : letter ∈ flags_loop false args ↔ passes letter args.
Hypothesis IHv : letter ∈ flags_loop true args ↔ ∃ value rest, args = value :: rest ∧ passes letter rest.

Lemma passes_long_iff name : passes letter ((45 :: 45 :: name) :: args) ↔
  name ≠ [] ∧ letter ∈ flags_loop (bool_decide (45 :: 45 :: name ∈ _VALUE_LONG_OPTIONS)) args.
Proof.
  split.
  - inversion 1 as [a l n r Hs Hl|a l r Hs Hl|a l v r Hs Hl|n r Hn Hv Hl|n v r Hn Hl]; subst.
    1-3: by destruct Hs as (c & rest & [= <- <-] & ? & _).
    + split; [done|]. rewrite bool_decide_eq_false_2 by done. by apply IH.
    + split; [|rewrite bool_decide_eq_true_2 by done; apply IHv; eauto]. intros ->. by apply list_elem_of_singleton in Hn.
  - intros [Hn Hl]. case_bool_decide as Hv; [|apply passes_long; [done..|by apply IH]]. apply IHv in Hl as (v & rest & -> & Hp). by apply passes_long_value.
Qed.

Lemma passes_short_iff c rest : c ≠ 45 → passes letter ((45 :: c :: rest) :: args) ↔
  let '(letters, value, program) := _scan_short_options (c :: rest) in letter ∈ letters ++ if (program : bool) then [] else flags_loop value args.
Proof.
  intros Hc. destruct (_scan_short_options (c :: rest)) as [[letters value] program] eqn:Hscan.
  assert (Hshort : ∀ l n, short (45 :: c :: rest) l n ↔ l = letters ∧ n = next_of value program).
  { intros l n. split.
    - intros (c' & rest' & [= <- <-] & _ & (v & p & Heq & ->)%scan_cluster). rewrite Hscan in Heq. by injection Heq as <- <- <-.
    - intros [-> ->]. exists c, rest. split_and!; [done..|]. apply scan_cluster. by exists value, program. }
  rewrite elem_of_app. split.
  - inversion 1 as [a l n r Hs Hl|a l r Hs Hl|a l v r Hs Hl|n r Hn Hv Hl|n v r Hn Hl]; subst; [apply Hshort in Hs as [-> Hn]..|done|].
    + by left.
    + right. destruct program, value; try done. by apply IH.
    + right. destruct program, value; try done. apply IHv. eauto.
    + apply list_elem_of_singleton in Hn. cbn in Hn. congruence.
  - intros [Hl|Hl]; [eapply passes_here; [by apply Hshort|done]|]. destruct program; [by apply not_elem_of_nil in Hl|]. destruct value.
    + apply IHv in Hl as (v & r & -> & Hp). eapply passes_short_value; [by apply Hshort|done].
    + eapply passes_short; [by apply Hshort|]. by apply IH.
Qed.
End flags.

Lemma flags_passes letter args :
  (letter ∈ flags_loop false args ↔ passes letter args) ∧
  (letter ∈ flags_loop true args ↔ ∃ value rest, args = value :: rest ∧ passes letter rest).
Proof.
  induction args as [|argument args [IH IHv]]; [split; [split; [set_solver|by inversion 1]|split; [set_solver|by intros (? & ? & ? & _)]]|].
  split; [|cbn [flags_loop]; rewrite IH; naive_solver]. cbn [flags_loop].
  destruct (bool_decide (argument ∈ [lit "-"; lit "--"]) || negb (startswith argument (lit "-"))) eqn:Hstop.
  - split; [by intros ?%not_elem_of_nil|]. intros (c & rest & -> & Hne)%passes_dash. exfalso. apply orb_true_iff in Hstop as [Hin|Hs].
    + apply bool_decide_eq_true, elem_of_cons in Hin as [?|Hin%list_elem_of_singleton]; done.
    + apply negb_true_iff in Hs. unfold startswith in Hs. apply bool_decide_eq_false in Hs. destruct Hs. by exists (c :: rest).
  - apply orb_false_iff in Hstop as [Hin Hs]. apply bool_decide_eq_false in Hin. apply negb_false_iff, startswith_spec in Hs as (t & ->).
    destruct t as [|c rest]; [set_solver|]. change (lit "-" ++ c :: rest) with (45 :: c :: rest) in *. destruct (decide (c = 45)) as [->|Hc].
    + replace (startswith (45 :: 45 :: rest) (lit "--")) with true by (symmetry; apply startswith_spec; by exists rest).
      rewrite (passes_long_iff _ _ IH IHv). split; [|by intros [_ ?]]. intros Hl. split; [|done]. intros ->. set_solver.
    + replace (startswith (45 :: c :: rest) (lit "--")) with false.
      2: { symmetry. apply bool_decide_eq_false. intros (k & [= ? _]). done. }
      rewrite (passes_short_iff _ _ IH IHv) by done. change (drop 1 (45 :: c :: rest)) with (c :: rest).
      by destruct (_scan_short_options (c :: rest)) as [[letters value] program].
Qed.

(** The environment of an image action, and its command line. *)
Record clean_with (action : Action) (env : dict text text) : Prop := {
  always_set : ∀ key, key ∈ REQUIRED → is_Some (dget key env);
  release_set : is_release action = true → ∀ key, key ∈ RELEASE → is_Some (dget key env);
  tracer_unset : is_release action = false → ∀ key, key ∈ RELEASE → dget key env = None;
  values_expected : ∀ key value, dget key env = Some value → ∃ check, dget key EXPECTED = Some check ∧ check value = true;
  pythonpath_read : ∀ interpreter args, arguments action = interpreter :: args → ¬ passes 69 args ∧ ¬ passes 73 args }.

Definition clean (action : Action) : Prop := ∃ env, environment action = Ok env ∧ clean_with action env.

Lemma environment_ok action env : environment action = Ok env → dict_ok env.
Proof.
  apply (foldM_inv dict_ok); [|constructor]. intros d variable d' _ Hd (key & _ & [= <-])%bind_Ok_inv. by apply dict_ok_dset.
Qed.

Lemma dget_Some_iff {V} (d : dict text V) key value : dict_ok d → (key, value) ∈ d ↔ dget key d = Some value.
Proof. split; [by apply elem_dget|apply dget_Some_elem]. Qed.

Lemma missing_nil env required :
  missing env required = [] ↔ ∀ key, key ∈ required → is_Some (dget key env).
Proof.
  transitivity (List.filter (λ key, negb (dmem key env)) required = []).
  - unfold missing. split; [|by intros ->]. intros Hnil%fmap_nil_inv. unfold sorted_texts in Hnil. assert (Hp := merge_sort_Permutation text_le (List.filter (λ key, negb (dmem key env)) required)).
    rewrite Hnil in Hp. by apply Permutation_nil_l in Hp.
  - assert (Hmem : ∀ key, negb (dmem key env) = false ↔ is_Some (dget key env)).
    { intros key. unfold dmem. rewrite negb_false_iff, bool_decide_eq_true, <- not_eq_None_Some, dget_None. destruct (decide (key ∈ dkeys env)); tauto. }
    rewrite filter_rejects. by setoid_rewrite Hmem.
Qed.

Lemma check_variable_nil release key value :
  check_variable release (key, value) = [] ↔
  (∃ check, dget key EXPECTED = Some check ∧ check value = true) ∧ (release = false → key ∉ RELEASE).
Proof.
  cbn [check_variable]. destruct (dget key EXPECTED) as [check|]; [|split; [done|by intros [(? & ? & _) _]]].
  transitivity (check value = true ∧ (release = false → key ∉ RELEASE)).
  - assert (Hif : (if check value then [] else [("invalid {key}={value}"%string, [key; value])]) = [] ↔ check value = true) by (by destruct (check value)).
    destruct release; cbn [negb andb]; [rewrite Hif; by split; [|intros []]|].
    case_bool_decide as Hin; [|rewrite Hif; by split; [|intros []]].
    split; [done|]. intros [_ Hn]. by destruct (Hn eq_refl).
  - split; intros [Hc Hn]; (split; [|done]); [by exists check|]. by destruct Hc as (? & [= <-] & Hc).
Qed.

Lemma ignoring_nil action :
  List.filter (λ flag, bool_decide (flag ∈ interpreter_flags (arguments action))) _PYTHONPATH_IGNORING_OPTIONS = [] ↔
  ∀ interpreter args, arguments action = interpreter :: args → ¬ passes 69 args ∧ ¬ passes 73 args.
Proof.
  rewrite filter_rejects. unfold interpreter_flags. setoid_rewrite bool_decide_eq_false. setoid_rewrite (proj1 (flags_passes _ _)).
  transitivity (¬ passes 69 (drop 1 (arguments action)) ∧ ¬ passes 73 (drop 1 (arguments action))).
  - split; [intros Hall; split; apply Hall; unfold _PYTHONPATH_IGNORING_OPTIONS; cbn; set_solver|].
    intros [HE HI] flag Hflag. unfold _PYTHONPATH_IGNORING_OPTIONS in Hflag. cbn in Hflag. apply elem_of_cons in Hflag as [->|Hflag%list_elem_of_singleton]; [done|by subst].
  - destruct (arguments action) as [|interpreter args]; cbn.
    + split; [done|]. intros _. split; by inversion 1.
    + split; [by intros ? ? ? [= <- <-]|]. intros Hall. by apply (Hall interpreter).
Qed.

Lemma environment_errors_nil action : environment_errors action = Ok [] ↔ clean action.
Proof.
  unfold environment_errors, clean. rewrite bind_Ok_iff. apply exist_proper. intros env.
  split; intros [Henv Hc]; (split; [done|]); assert (Hok := environment_ok _ _ Henv).
  - apply Ok_inj, app_nil in Hc as [[Hm Hv]%app_nil Hi]. assert (Hm' := proj1 (missing_nil _ _) Hm). rewrite list_bind_nil in Hv.
    assert (Hval : ∀ key value, dget key env = Some value → check_variable (is_release action) (key, value) = []).
    { intros key value Hk. apply Hv. rewrite stable_sort_perm. by apply dget_Some_iff. }
    split.
    + intros key Hk. apply Hm'. destruct (is_release action); set_solver.
    + intros Hr key Hk. apply Hm'. rewrite Hr. set_solver.
    + intros Hr key Hk. destruct (dget key env) as [value|] eqn:Hd; [|done]. apply Hval, check_variable_nil in Hd as [_ Hn]. by destruct (Hn Hr).
    + intros key value Hd. by apply Hval, check_variable_nil in Hd as [? _].
    + apply ignoring_nil. by case_bool_decide.
  - destruct Hc as [Ha Hr Ht Hval Hp]. apply ignoring_nil in Hp. rewrite Hp, bool_decide_eq_true_2 by done. rewrite app_nil_r. unfold mret, result_ret. f_equal.
    apply app_nil. split.
    + apply missing_nil. destruct (is_release action); [|done]. intros key [?|?]%elem_of_app; auto.
    + apply list_bind_nil. intros [key value] Hin. rewrite stable_sort_perm in Hin. apply dget_Some_iff in Hin; [|done]. apply check_variable_nil. split; [eauto|].
      intros Hrel Hin'. rewrite (Ht Hrel key Hin') in Hin. done.
Qed.

Definition image (graph : Graph) (action : Action) : Prop := action ∈ actions graph ∧ mnemonic action = Some (lit "MkosiImage").

Lemma elem_images graph action : action ∈ List.filter is_image (actions graph) ↔ image graph action.
Proof. rewrite list_elem_of_In, filter_In, <- list_elem_of_In. unfold is_image, image. by rewrite bool_decide_eq_true. Qed.

Lemma labels_iff l : (∃ labels, foldM add_label [] l = Ok labels) ↔ ∀ target, target ∈ l → is_Some target.1 ∧ is_Some target.2.
Proof.
  generalize (@nil (Z * text)). induction l as [|[id label] l IH]; intros labels; cbn [foldM]; [split; [set_solver|by exists labels]|]. split.
  - intros (final & (labels' & Ha & Hf)%bind_Ok_inv). apply bind_Ok_inv in Ha as (i & Hi & (t & Ht & _)%bind_Ok_inv).
    apply of_option_Ok in Hi, Ht. cbn in Hi, Ht. intros target [->|Hin]%elem_of_cons; [by rewrite Hi, Ht|]. by apply (proj1 (IH labels')); eauto.
  - intros Hall. destruct (Hall (id, label)) as [[i Hi] [t Ht]]; [by left|]. cbn in Hi, Ht. subst. cbn. apply IH. intros target Hin. apply Hall. by right.
Qed.

Lemma kinds_nil (images : list Action) :
  ([("release"%string, true); ("tracer"%string, false)] ≫= (λ '(kind, release),
    if bool_decide (release ∈ is_release <$> images) then [] else [(([] : text), ("no {kind} MkosiImage action in the graph"%string, [lit kind]))])) = [] ↔
  (∃ a, a ∈ images ∧ is_release a = true) ∧ (∃ a, a ∈ images ∧ is_release a = false).
Proof.
  assert (Hin : ∀ b, b ∈ is_release <$> images ↔ ∃ a, a ∈ images ∧ is_release a = b) by (intros b; rewrite list_elem_of_fmap; naive_solver).
  cbn. rewrite <- !Hin, app_nil_r. do 2 case_bool_decide; cbn; split; try done; try (by intros [? ?]).
Qed.

(** C25: the check succeeds exactly when the targets are labelled, the graph has a release image action and one that is not cached, and every image action is
    clean: the variables that all of them need are set, a release also pins the host distribution and the timestamp and a tracer does not, there
    is no variable without an expectation and every value meets it (an empty PATH, a PYTHONPATH of entries below the execution root), and
    the command line gives the interpreter no option that makes it ignore PYTHONPATH, whether alone, in a cluster of options or after
    options with values. *)
Theorem graph_clean graph :
  main graph = Ok 0 ↔
  (∀ target, target ∈ targets graph → is_Some target.1 ∧ is_Some target.2) ∧
  (∃ a, image graph a ∧ is_release a = true) ∧ (∃ a, image graph a ∧ is_release a = false) ∧ ∀ a, image graph a → clean a.
Proof.
  setoid_rewrite <- elem_images. transitivity (graph_errors graph = Ok []).
  - unfold main. rewrite bind_Ok_iff. split; [|by intros ->; exists []]. intros (errors & Herr & Hok%Ok_inj). case_bool_decide as Hl; [|done].
    by apply length_zero_iff_nil in Hl as ->.
  - rewrite <- labels_iff. unfold graph_errors. setoid_rewrite <- environment_errors_nil. split.
    + intros (labels & Hlab & (errors & Herr & Hnil%Ok_inj)%bind_Ok_inv)%bind_Ok_inv. apply app_nil in Hnil as [Hk He].
      destruct (proj1 (kinds_nil (List.filter is_image (actions graph))) Hk) as [Hr Ht]. split_and!; [by exists labels|done..|]. intros a Ha.
      assert (Hcheck := proj1 (mapM_concat_nil _ _) (ex_intro _ errors (conj Herr He)) a Ha). apply fmap_Ok_inv in Hcheck as (es & Hes & Hnil).
      symmetry in Hnil. by apply fmap_nil_inv in Hnil as ->.
    + intros ((labels & Hlab) & Hr & Ht & Hall). rewrite bind_Ok_iff. exists labels. split; [done|].
      destruct (proj2 (mapM_concat_nil (labelled_errors labels) (List.filter is_image (actions graph))))
        as (errors & Herr & Hnil); [intros a Ha; unfold labelled_errors; by rewrite (Hall a Ha)|].
      rewrite bind_Ok_iff. exists errors. split; [done|]. rewrite (proj2 (kinds_nil (List.filter is_image (actions graph)))) by done. exact (f_equal Ok Hnil).
Qed.
End environment.

(** A release action and a tracer action, and the same graph whose release action isolates the interpreter in a cluster after an option value. *)
Definition demo_action (release : bool) (args : list string) : Action := {|
  executionInfo := if release then [] else [Some (lit "no-cache")];
  environmentVariables := (λ v : string * string, (Some (lit v.1), Some (lit v.2))) <$>
    ([("PYTHONNOUSERSITE", "1"); ("MKOSI_FORCE_USERNS_FALLBACK", "1"); ("PYTHONPATH", "external/mkosi:bazel-out/bin/x"); ("PATH", "")] ++
     (if release then [("MKOSI_HOST_DISTRIBUTION", "debian"); ("MKOSI_HOST_RELEASE", "trixie"); ("SOURCE_DATE_EPOCH", "0")] else []))%list;
  arguments := lit <$> args; mnemonic := Some (lit "MkosiImage"); targetId := Some 1 |}.

Example demo_graph :
  @main ascii_ucd (λ _, false) {| targets := [(Some 1, Some (lit "//:image"))];
    actions := [demo_action true ["python"; "-X"; "-I"; "-sB"; "run.py"; "-I"]; demo_action false ["python"; "run.py"]] |} = Ok 0 ∧
  @graph_errors ascii_ucd (λ _, false) {| targets := [(Some 1, Some (lit "//:image"))];
    actions := [demo_action true ["python"; "-W"; "error"; "-sI"; "run.py"]; demo_action false []] |} =
    Ok [(lit "//:image", ("interpreter options {} ignore PYTHONPATH", [lit "-I"]))]%string.
Proof. split; vm_compute; reflexivity. Qed.
