(* ===== verification/ExecutionLog.v ===== *)
(** * Checks of Bazel's execution log: [ci/execution_log.py], [ci/verify_reproducibility_execution.py] and [ci/verify_two_stage_cache.py]

    The JSON decoder is the interface [Decoder]: [raw_decode content index] decodes the value that starts at [index] and returns it with the
    index after it, which is a later one. *)
From S2P Require Import Prelude Bytes PyText Collections Json.

Class Decoder := {
  raw_decode : text → Z → result (json * Z);
  raw_decode_later : ∀ content index entry index', raw_decode content index = Ok (entry, index') → index < index' }.

Section log.
Context `{Decoder}.

(** ** execution_log.py *)

(** The index after the white space at [index]. *)
Definition skip_spaces (content : text) (index : Z) : Z := index + len (take_while isspace (drop (Z.to_nat index) content)).

Fixpoint entries_loop (fuel : nat) (content : text) (index : Z) (entries : list json) : result (list json) :=
  if index <? len content then
    match fuel with
    | O => Err OutOfFuel
    | S fuel =>
        let index := skip_spaces content index in
        if index <? len content then
          '(entry, index) ← raw_decode content index;
          entries_loop fuel content index (entries ++ [entry])
        else entries_loop fuel content index entries
    end
  else mret entries.

Definition read_entries (content : text) : result (list json) := entries_loop (length content) content 0 [].

(** ** verify_reproducibility_execution.py *)

Abbreviation key := (text * text)%type.

Definition _DEBIAN_TOOLS : text := lit "@@+debian_tools+mkosi_debian_tools//".

Definition subject_key (k : string * string) : key := (lit k.1, lit k.2).
Definition tools_key (k : string * string) : key := (lit k.1, _DEBIAN_TOOLS ++ lit k.2).

Definition SUBJECTS : dict text (list key) := [
  (lit "release", subject_key <$> [
    ("MkosiImage", "//mkosi/tests:release_subject"); ("MkosiReproducibilityManifest", "//mkosi/tests:release_reproducibility");
    ("MkosiImage", "//mkosi/tests:erofs_release"); ("MkosiReproducibilityManifest", "//mkosi/tests:erofs_release_reproducibility");
    ("MkosiSysupdatePayload", "//mkosi/tests:erofs_release_payload"); ("MkosiBase", "//mkosi/tests:two_stage_base");
    ("MkosiImage", "//mkosi/tests:two_stage_release"); ("MkosiReproducibilityManifest", "//mkosi/tests:two_stage_reproducibility")]);
  (lit "bootstrap", (tools_key <$> [
    ("BuildDebianToolsArchive", ":tree"); ("CppCompile", ":launcher_binary"); ("CppLink", ":launcher_binary");
    ("CppCompile", ":namespace_runner_binary"); ("CppLink", ":namespace_runner_binary")]) ++
    (subject_key <$> [("CppCompile", "//mkosi/private:write_all"); ("CppCompile", "@@rules_cc+//cc/runfiles:runfiles")]))].

(** [entry.get(name)]. *)
Definition field (entry : json) (name : string) : result json := match entry with JObj items => Ok (jget (lit name) items) | _ => Err AttributeError end.

Definition hashable (j : json) : bool := match j with JList _ | JObj _ => false | _ => true end.

Definition is_false (j : json) : bool := match j with JBool false => true | _ => false end.

(** One entry of the log: a pair of strings among the expected ones gets the entry. *)
Definition observe (expected : list key) (observed : dict key (list json)) (entry : json) : result (dict key (list json)) :=
  mnemonic ← field entry "mnemonic";
  label ← field entry "targetLabel";
  require (hashable mnemonic && hashable label) TypeError;;
  mret match mnemonic, label with
  | JStr m, JStr l => if bool_decide ((m, l) ∈ expected) then dset (m, l) (default [] (dget (m, l) observed) ++ [entry]) observed else observed
  | _, _ => observed
  end.

Definition message : Type := string * list text.

Definition check_key (observed : dict key (list json)) (k : key) : result (list message) :=
  match default [] (dget k observed) with
  | [entry] =>
      hit ← field entry "cacheHit";
      mret (if is_false hit then [] else [("{} {}: action was satisfied from a cache"%string, [k.1; k.2])])
  | entries => mret [("{} {}: expected one execution, found {}"%string, [k.1; k.2; dec (len entries)])]
  end.

Definition key_lt (a b : key) : bool := negb (text_leb b.1 a.1) || (bool_decide (a.1 = b.1) && negb (text_leb b.2 a.2)).

Definition verify (content build_name subject : text) : result unit :=
  expected ← of_option KeyError (dget subject SUBJECTS);
  entries ← read_entries content;
  observed ← foldM (observe expected) [] entries;
  errors ← mapM (check_key observed) (stable_sort key_lt expected);
  require (bool_decide (length (concat errors) = 0%nat)) (SystemExit "{} independence check failed:\n{}" [AText build_name]).

(** ** verify_two_stage_cache.py *)

Definition BASE : key := subject_key ("MkosiBase", "//mkosi/tests:two_stage_base")%string.
Definition IMAGE : key := subject_key ("MkosiImage", "//mkosi/tests:two_stage_release")%string.

Definition has_key (k : key) (entry : json) : result bool :=
  mnemonic ← field entry "mnemonic"; label ← field entry "targetLabel"; mret (is_str mnemonic k.1 && is_str label k.2).

Fixpoint filterM {A} (f : A → result bool) (l : list A) : result (list A) :=
  match l with
  | [] => mret []
  | x :: l => b ← f x; rest ← filterM f l; mret (if (b : bool) then x :: rest else rest)
  end.

Definition _executions (entries : list json) (k : key) : result (list json) := filterM (has_key k) entries.

Definition _executed (entries : list json) (k : key) : result (list json) :=
  found ← _executions entries k; filterM (λ entry, is_false <$> field entry "cacheHit") found.

Definition falsy (j : json) : bool :=
  match j with JNull => true | JBool b => negb b | JInt z => z =? 0 | JFloat f => float_is f 0 | JStr t => bool_decide (t = []) | JList l => bool_decide (length l = 0%nat) | JObj l => bool_decide (length l = 0%nat) end.

Definition _wall_time (entry : json) : result json :=
  metrics ← field entry "metrics";
  total ← field (if falsy metrics then JObj [] else metrics) "totalTime";
  if falsy total then wall ← field entry "walltime"; mret (if falsy wall then JStr (lit "unknown") else wall) else mret total.

(** The difference of a build and a stage that must have run once in it. *)
Definition check_stage (stage : string * list json * key) : result (list message) :=
  let '(build, entries, k) := stage in
  found ← _executed entries k;
  mret (if bool_decide (length found = 1%nat) then [] else [("{} build: expected one executed {} {}"%string, [lit build; k.1; k.2])]).

(** The result is the three times that are printed. *)
Definition verify_two_stage (first_content second_content : text) : result (list json) :=
  first ← read_entries first_content;
  second ← read_entries second_content;
  errors ← mapM check_stage [("first"%string, first, BASE); ("first"%string, first, IMAGE); ("second"%string, second, IMAGE)];
  again ← _executed second BASE;
  let again := if bool_decide (length again = 0%nat) then [] else [("second build: {} {} was executed again for a new version"%string, [BASE.1; BASE.2])] in
  require (bool_decide (length (concat errors ++ again) = 0%nat)) (SystemExit "two-stage cache check failed:\n" []);;
  base ← _executed first BASE;
  first_finalize ← _executed first IMAGE;
  finalize ← _executed second IMAGE;
  mapM (λ found, entry ← get found 0; _wall_time entry) [base; first_finalize; finalize].

(** ** What a log says *)

(** The entries of a log from an index on: values after white space, up to trailing white space. *)
Inductive log (content : text) : Z → list json → Prop :=
  | log_end index : len content ≤ skip_spaces content index → log content index []
  | log_entry index entry index' entries :
      skip_spaces content index < len content → raw_decode content (skip_spaces content index) = Ok (entry, index') →
      log content index' entries → log content index (entry :: entries).

Lemma skip_later content index : index ≤ skip_spaces content index.
Proof. unfold skip_spaces, len. lia. Qed.

Lemma log_nil_iff content index rest : len content ≤ skip_spaces content index → log content index rest ↔ rest = [].
Proof. intros Hend. split; [inversion 1; [done|lia]|]. intros ->. by apply log_end. Qed.

Lemma log_stop content index seen entries :
  len content ≤ skip_spaces content index → (mret seen : result (list json)) = Ok entries ↔ ∃ rest, entries = seen ++ rest ∧ log content index rest.
Proof.
  intros Hend. setoid_rewrite log_nil_iff; [|done]. split; [intros [= ->]; exists []; by rewrite app_nil_r|]. intros (rest & -> & ->). by rewrite app_nil_r.
Qed.

(** The loop from an index on: it has fuel for every value. *)
Lemma entries_loop_iff fuel content index seen entries :
  0 ≤ index → len content - index ≤ Z.of_nat fuel →
  entries_loop fuel content index seen = Ok entries ↔ ∃ rest, entries = seen ++ rest ∧ log content index rest.
Proof.
  revert index seen. induction fuel as [|fuel IH]; intros index seen H0 Hfuel; cbn [entries_loop]; assert (Hskip := skip_later content index).
  all: destruct (Z.ltb_spec index (len content)) as [Hlt|Hge]; [|by apply log_stop; lia].
  - lia.
  - destruct (Z.ltb_spec (skip_spaces content index) (len content)) as [Hs|Hs].
    + rewrite bind_Ok_iff. split.
      * intros ([entry index'] & Hd & Hl). apply raw_decode_later in Hd as Hlater. apply IH in Hl as (rest & -> & Hlog); [|lia..].
        exists (entry :: rest). split; [by rewrite <- app_assoc|]. by eapply log_entry.
      * intros (rest & -> & Hlog). inversion Hlog as [? Hend|? entry index' rest' _ Hd Hrest]; subst; [lia|].
        apply raw_decode_later in Hd as Hlater. exists (entry, index'). split; [done|]. apply IH; [lia..|]. exists rest'. by rewrite <- app_assoc.
    + rewrite IH by lia. apply exist_proper. intros rest. apply and_iff_compat_l. by rewrite !log_nil_iff by (pose proof (skip_later content (skip_spaces content index)); lia).
Qed.

Lemma read_entries_iff content entries : read_entries content = Ok entries ↔ log content 0 entries.
Proof.
  unfold read_entries. rewrite entries_loop_iff by (unfold len; lia). split; [by intros (rest & -> & ?)|]. intros Hlog. by exists entries.
Qed.

(** An entry that the checks can read: an object whose mnemonic and label can be looked up in a set. *)
Definition readable (entry : json) : Prop :=
  ∃ items, entry = JObj items ∧ hashable (jget (lit "mnemonic") items) = true ∧ hashable (jget (lit "targetLabel") items) = true.

(** The entry is an execution of the action. *)
Definition is_key (k : key) (entry : json) : bool :=
  match entry with JObj items => is_str (jget (lit "mnemonic") items) k.1 && is_str (jget (lit "targetLabel") items) k.2 | _ => false end.

(** The entry says that the action ran, not that its outputs came from a cache. *)
Definition executed (entry : json) : bool := match entry with JObj items => is_false (jget (lit "cacheHit") items) | _ => false end.

Lemma observe_iff expected observed entry observed' :
  observe expected observed entry = Ok observed' → readable entry ∧
  ∀ k, k ∈ expected → default [] (dget k observed') = default [] (dget k observed) ++ List.filter (is_key k) [entry].
Proof.
  intros (m & Hm & (l & Hl & Hr)%bind_Ok_inv)%bind_Ok_inv. destruct entry as [| | | | | |items]; try done. injection Hm as <-. injection Hl as <-.
  apply then_Ok in Hr as [Hh Hr]. apply require_Ok, andb_true_iff in Hh as [Hh1 Hh2]. split; [by exists items|].
  intros [a b] Hk. cbn [List.filter is_key]. injection Hr as <-.
  destruct (jget (lit "mnemonic") items) as [| | | |m| |]; try (cbn; by rewrite app_nil_r).
  destruct (jget (lit "targetLabel") items) as [| | | |l| |]; try (rewrite andb_false_r; by rewrite app_nil_r). cbn [is_str].
  destruct (bool_decide ((m, l) ∈ expected)) eqn:He.
  - rewrite dget_dset. destruct (decide ((a, b) = (m, l))) as [[= -> ->]|Hne]; [by rewrite !bool_decide_eq_true_2 by done|].
    replace (bool_decide (m = a) && bool_decide (l = b)) with false; [by rewrite app_nil_r|]. symmetry. apply andb_false_iff.
    destruct (decide (m = a)) as [->|]; [right|left; by apply bool_decide_eq_false]. apply bool_decide_eq_false. congruence.
  - replace (bool_decide (m = a) && bool_decide (l = b)) with false; [by rewrite app_nil_r|]. symmetry. apply andb_false_iff. apply bool_decide_eq_false in He.
    destruct (decide (m = a)) as [->|]; [right|left; by apply bool_decide_eq_false]. apply bool_decide_eq_false. congruence.
Qed.

Lemma observe_readable expected observed entry : readable entry → ∃ observed', observe expected observed entry = Ok observed'.
Proof.
  intros (items & -> & H1 & H2). unfold observe. eexists. rewrite bind_Ok_iff. eexists. split; [reflexivity|]. rewrite bind_Ok_iff. eexists.
  split; [reflexivity|]. rewrite H1, H2. reflexivity.
Qed.

Lemma observed_iff expected entries observed :
  (∃ final, foldM (observe expected) observed entries = Ok final) ↔ Forall readable entries.
Proof.
  revert observed. induction entries as [|entry entries IH]; intros observed; [split; [constructor|by exists observed]|]. cbn [foldM]. rewrite Forall_cons, <- (IH observed). split.
  - intros (final & (observed' & Ho & Hf)%bind_Ok_inv). split; [by eapply observe_iff|]. apply IH. by apply (IH observed'); eauto.
  - intros [Hr Hrest]. destruct (observe_readable expected observed entry Hr) as (observed' & ->). apply IH in Hrest. by apply (IH observed').
Qed.

Lemma observed_entries expected entries observed final k :
  foldM (observe expected) observed entries = Ok final → k ∈ expected →
  default [] (dget k final) = default [] (dget k observed) ++ List.filter (is_key k) entries.
Proof.
  revert observed. induction entries as [|entry entries IH]; intros observed; [intros [= <-] _; by rewrite app_nil_r|]. cbn [foldM].
  intros (observed' & Ho & Hf)%bind_Ok_inv Hk. rewrite (IH observed' Hf Hk). apply observe_iff in Ho as [_ ->]; [|done].
  rewrite <- app_assoc. f_equal. cbn. by destruct (is_key k entry).
Qed.

Lemma check_key_nil expected entries observed k :
  foldM (observe expected) [] entries = Ok observed → k ∈ expected →
  check_key observed k = Ok [] ↔ ∃ entry, List.filter (is_key k) entries = [entry] ∧ executed entry = true.
Proof.
  intros Hf Hk. unfold check_key. rewrite (observed_entries _ _ _ _ _ Hf Hk). change (default [] (dget k [])) with (@nil json). rewrite app_nil_l.
  destruct (List.filter (is_key k) entries) as [|entry [|e2 rest]] eqn:Hfil; [split; [done|by intros (? & ? & _)]| |split; [done|by intros (? & ? & _)]].
  assert (Hkey : is_key k entry = true) by (apply (filter_In (is_key k) entry entries); rewrite Hfil; by left).
  destruct entry as [| | | | | |items]; try done. cbn [field executed]. split.
  - intros (hit & [= <-] & Hok%Ok_inj)%bind_Ok_inv. exists (JObj items). split; [done|]. cbn. by destruct (is_false _).
  - intros (e & [= <-] & He). cbn in He. cbn. by rewrite He.
Qed.

(** C26: The reproducibility check succeeds exactly when its subject is known, the log is a sequence of JSON values with
    white space around them, if any, and of objects only, whose mnemonic and label are no lists or objects, and for every action
    of the subject the log has exactly one execution, which did not come from a cache. *)
Theorem verify_exact content build_name subject :
  verify content build_name subject = Ok tt ↔
  ∃ expected entries, dget subject SUBJECTS = Some expected ∧ log content 0 entries ∧ Forall readable entries ∧
    ∀ k, k ∈ expected → ∃ entry, List.filter (is_key k) entries = [entry] ∧ executed entry = true.
Proof.
  unfold verify. rewrite bind_Ok_iff. apply exist_proper. intros expected. rewrite of_option_iff, bind_Ok_iff. split.
  - intros (Hs & entries & Hread & (observed & Hf & (errors & Herr & Hr)%bind_Ok_inv)%bind_Ok_inv). exists entries.
    split_and!; [done|by apply read_entries_iff|by apply (observed_iff expected entries []); eauto|]. intros k Hk.
    apply require_Ok, bool_decide_eq_true, length_zero_iff_nil in Hr. apply (check_key_nil expected entries observed k); [done..|].
    apply (proj1 (mapM_concat_nil _ _) (ex_intro _ errors (conj Herr Hr))). by rewrite stable_sort_perm.
  - intros (entries & Hs & Hlog & Hread & Hall). split; [done|]. exists entries. split; [by apply read_entries_iff|].
    apply (observed_iff expected entries []) in Hread as (observed & Hf). rewrite bind_Ok_iff. exists observed. split; [done|].
    destruct (proj2 (mapM_concat_nil (check_key observed) (stable_sort key_lt expected))) as (errors & Herr & Hnil).
    { intros k Hk. rewrite stable_sort_perm in Hk. apply (check_key_nil expected entries observed k); auto. }
    rewrite bind_Ok_iff. exists errors. split; [done|]. by rewrite Hnil.
Qed.

Lemma filterM_iff {A} (f : A → result bool) (g : A → bool) (P : A → Prop) l found :
  (∀ x b, f x = Ok b ↔ P x ∧ b = g x) → filterM f l = Ok found ↔ Forall P l ∧ found = List.filter g l.
Proof.
  intros Hf. revert found. induction l as [|x l IH]; intros found; cbn [filterM List.filter]; [split; [by intros [= <-]|by intros [_ ->]]|].
  rewrite bind_Ok_iff, Forall_cons. split.
  - intros (b & [Hx ->]%Hf & (rest & [Hl ->]%IH & [= <-])%bind_Ok_inv). by destruct (g x).
  - intros [[Hx Hl] ->]. exists (g x). split; [by apply Hf|]. rewrite bind_Ok_iff. exists (List.filter g l). split; [by apply IH|]. by destruct (g x).
Qed.

Definition is_object (entry : json) : Prop := ∃ items, entry = JObj items.

Lemma executed_iff entries k found :
  _executed entries k = Ok found ↔ Forall is_object entries ∧ found = List.filter executed (List.filter (is_key k) entries).
Proof.
  assert (Hkey : ∀ l found, filterM (has_key k) l = Ok found ↔ Forall is_object l ∧ found = List.filter (is_key k) l).
  { intros l f. apply filterM_iff. intros [| | | | | |items] answer; try (split; [done|by intros [[? ?] _]]).
    split; [intros [= <-]; split; [by eexists|done]|by intros [_ ->]]. }
  assert (Hhit : ∀ l found, filterM (λ entry, is_false <$> field entry "cacheHit") l = Ok found ↔ Forall is_object l ∧ found = List.filter executed l).
  { intros l f. apply filterM_iff. intros [| | | | | |items] answer; try (split; [done|by intros [[? ?] _]]).
    split; [intros [= <-]; split; [by eexists|done]|by intros [_ ->]]. }
  unfold _executed, _executions. rewrite bind_Ok_iff. setoid_rewrite Hkey. setoid_rewrite Hhit. split; [by intros (? & [Ho ->] & _ & ->)|].
  intros [Ho ->]. exists (List.filter (is_key k) entries). split_and!; [done..| |done]. rewrite Forall_forall in Ho |- *. intros x Hx.
  apply Ho. rewrite list_elem_of_In in Hx |- *. by apply filter_In in Hx as [? _].
Qed.

(** The executions of an action that did not come from a cache. *)
Definition runs (k : key) (entries : list json) : list json := List.filter executed (List.filter (is_key k) entries).

Lemma stage_nil build entries k : check_stage (build, entries, k) = Ok [] ↔ Forall is_object entries ∧ length (runs k entries) = 1%nat.
Proof.
  cbn [check_stage]. rewrite bind_Ok_iff. setoid_rewrite executed_iff. fold (runs k entries). split.
  - intros (found & [Ho ->] & Hok%Ok_inj). split; [done|]. by case_bool_decide.
  - intros [Ho Hl]. exists (runs k entries). split; [done|]. by rewrite bool_decide_eq_true_2.
Qed.

Lemma wall_times (l : list json) times :
  mapM (λ found, entry ← get found 0; _wall_time entry) ((λ entry, [entry]) <$> l) = Ok times ↔ Forall2 (λ entry time, _wall_time entry = Ok time) l times.
Proof. by rewrite mapM_Forall2, Forall2_fmap_l. Qed.

(** The cache check succeeds exactly when both logs are sequences of objects, the first build ran the base and the image once each, the second one ran
    the image once and the base not at all, and the times of those three executions can be read, which it then reports. *)
Theorem two_stage_exact first_content second_content times :
  verify_two_stage first_content second_content = Ok times ↔
  ∃ first second base finalize refinalize, log first_content 0 first ∧ log second_content 0 second ∧ Forall is_object (first ++ second) ∧
    runs BASE first = [base] ∧ runs IMAGE first = [finalize] ∧ runs IMAGE second = [refinalize] ∧ runs BASE second = [] ∧
    Forall2 (λ entry time, _wall_time entry = Ok time) [base; finalize; refinalize] times.
Proof.
  unfold verify_two_stage. rewrite bind_Ok_iff. apply exist_proper. intros first. rewrite read_entries_iff, bind_Ok_iff. split.
  - intros (Hfirst & second & Hsecond%read_entries_iff & (errors & Herr & (again & [Ho2 ->]%executed_iff & Hr)%bind_Ok_inv)%bind_Ok_inv).
    apply then_Ok in Hr as [Hok Hr]. apply require_Ok, bool_decide_eq_true, length_zero_iff_nil, app_nil in Hok as [Hnil Hagain]. fold (runs BASE second) in Hagain.
    assert (Hst := proj1 (mapM_concat_nil _ _) (ex_intro _ errors (conj Herr Hnil))).
    destruct (proj1 (stage_nil "first" first BASE)) as [Ho1 Hb]; [apply Hst; by left|].
    destruct (proj1 (stage_nil "first" first IMAGE)) as [_ Hi]; [apply Hst; right; by left|].
    destruct (proj1 (stage_nil "second" second IMAGE)) as [_ Hj]; [apply Hst; right; right; by left|].
    apply bind_Ok_inv in Hr as (b & [_ ->]%executed_iff & (i & [_ ->]%executed_iff & (j & [_ ->]%executed_iff & Ht)%bind_Ok_inv)%bind_Ok_inv).
    fold (runs BASE first) (runs IMAGE first) (runs IMAGE second) in Ht.
    destruct (runs BASE first) as [|base [|]] eqn:Eb, (runs IMAGE first) as [|finalize [|]] eqn:Ei, (runs IMAGE second) as [|refinalize [|]] eqn:Ej; try done.
    exists second, base, finalize, refinalize. split_and!; [done..|by apply Forall_app|done|done|done| |].
    + case_bool_decide as Hl; [by apply length_zero_iff_nil in Hl|done].
    + by apply (wall_times [base; finalize; refinalize]).
  - intros (second & base & finalize & refinalize & Hfirst & Hsecond & [Ho1 Ho2]%Forall_app & Eb & Ei & Ej & Ea & Ht).
    split; [done|]. exists second. split; [by apply read_entries_iff|].
    destruct (proj2 (mapM_concat_nil check_stage [("first"%string, first, BASE); ("first"%string, first, IMAGE); ("second"%string, second, IMAGE)])) as (errors & Herr & Hnil).
    { intros stage Hin. rewrite !elem_of_cons in Hin. destruct Hin as [->|[->|[->|Hin%not_elem_of_nil]]]; [apply stage_nil; by rewrite ?Eb, ?Ei, ?Ej..|done]. }
    assert (Hrun : ∀ entries k, Forall is_object entries → _executed entries k = Ok (runs k entries)) by (intros; by apply executed_iff).
    rewrite bind_Ok_iff. exists errors. split; [exact Herr|]. rewrite bind_Ok_iff. exists (runs BASE second). split; [by apply Hrun|].
    rewrite Ea, then_Ok. split; [unfold message in *; by rewrite Hnil|]. rewrite bind_Ok_iff. exists (runs BASE first). split; [by apply Hrun|].
    rewrite bind_Ok_iff. exists (runs IMAGE first). split; [by apply Hrun|]. rewrite bind_Ok_iff. exists (runs IMAGE second). split; [by apply Hrun|].
    rewrite Eb, Ei, Ej.
    by apply (wall_times [base; finalize; refinalize]).
Qed.
End log.

(** ** A log *)

(** A decoder of two values: x is an execution of the base, c one that came from a cache. *)
Definition demo_entry (hit : bool) : json :=
  JObj [(lit "mnemonic", JStr (lit "MkosiBase")); (lit "targetLabel", JStr (lit "//mkosi/tests:two_stage_base")); (lit "cacheHit", JBool hit)].

Definition demo_decode (content : text) (index : Z) : result (json * Z) :=
  match content !! Z.to_nat index with
  | Some 120 => Ok (demo_entry false, index + 1)
  | Some 99 => Ok (demo_entry true, index + 1)
  | _ => Err (ValueError "Expecting value" [])
  end.

#[local] Instance demo_decoder : Decoder.
Proof.
  refine {| raw_decode := demo_decode |}. intros content index entry index'. unfold demo_decode. intros Hd. repeat case_match; simplify_eq; lia.
Defined.

Example demo_log :
  read_entries (lit " x  c ") = Ok [demo_entry false; demo_entry true] ∧ _executed [demo_entry false; demo_entry true] BASE = Ok [demo_entry false] ∧
  read_entries (lit "x y") = Err (ValueError "Expecting value" []).
Proof. split_and!; vm_compute; reflexivity. Qed.
