(* ===== verification/RunMkosi.v ===== *)
(** * Running mkosi: [mkosi/private/diagnostics.py] and the decisions of [mkosi/private/run_mkosi.py]

    A process either cannot start or completes with a return code and its output. What [fail] does is the lines it prints on the standard
    error stream and the status the process exits with. *)
From S2P Require Import Prelude Bytes PyText Collections CommandLine.

(** ** diagnostics.py *)

Definition _ACTIONS : dict text text := (λ a : string * string, (lit a.1, lit a.2)) <$> [
  ("KERNEL_CAPABILITY_FAILURE", "select a Linux runner that satisfies the kernel contract");
  ("TOOLCHAIN_FAILURE", "register the required Bazel toolchain");
  ("NETWORK_FAILURE", "allow the declared package network access");
  ("ASSEMBLY_FAILURE", "inspect the preserved mkosi output");
  ("VM_FAILURE", "inspect the preserved serial, firmware, and QEMU logs")].
Definition _MIN_EXIT_STATUS : Z := 1.
Definition _MAX_EXIT_STATUS : Z := 255.

(** A completed process. *)
Record completed := { returncode : Z; stdout : bytes; stderr : bytes }.

(** What a step of the runner does: it goes on with a value, or prints lines and exits. *)
Inductive step (A : Type) := Done (a : A) | Exits (lines : list text) (status : Z).
Arguments Done {A} _. Arguments Exits {A} _ _.

Definition report (category detail : text) (original : bytes) : result (list text) :=
  action ← of_option (ValueError "unknown diagnostic category: {}" [AText category]) (dget category _ACTIONS);
  mret ([category ++ lit ": " ++ detail; lit "Action: " ++ action] ++
        if bool_decide (original = []) then [] else [lit "Original output:"; rstrip (utf8_replace original)]).

Definition fail {A} (category detail : text) (original : bytes) (exit_code : Z) : result (step A) :=
  require ((_MIN_EXIT_STATUS <=? exit_code) && (exit_code <=? _MAX_EXIT_STATUS)) (ValueError "diagnostic exit code must be an integer from 1 through 255" []);;
  lines ← report category detail original;
  mret (Exits lines exit_code).

Definition child_exit_code (returncode : Z) : result Z :=
  raise_if (returncode =? 0) (ValueError "child failure status must be a nonzero integer" []);;
  mret (if (_MIN_EXIT_STATUS <=? returncode) && (returncode <=? _MAX_EXIT_STATUS) then returncode
        else if (returncode <? 0) && (- returncode <=? _MAX_EXIT_STATUS - 128) then 128 - returncode else 1).

Definition network_signals : list text := lit <$>
  ["network"; "connection"; "download"; "fetch"; "temporary failure resolving"; "name or service not known"; "timed out"; "http://"; "https://"].
Definition toolchain_signals : list text := lit <$> ["not found"; "not executable"; "tools tree"; "debian-tools"; "systemd-repart"].

Section run.
Context `{Ucd}.

Definition classify_mkosi_output (output : bytes) : text :=
  let t := lower (utf8_replace output) in
  if existsb (λ signal, contains signal t) network_signals then lit "NETWORK_FAILURE"
  else if existsb (λ signal, contains signal t) toolchain_signals then lit "TOOLCHAIN_FAILURE"
  else lit "ASSEMBLY_FAILURE".

(** [run] is the text of the error of a process that cannot start, or the completed process. *)
Definition run_kernel_preflight (path action : text) (run : text + completed) : result (step bytes) :=
  match run with
  | inl error => fail (lit "TOOLCHAIN_FAILURE") (action ++ lit " cannot start the Bazel-built kernel preflight " ++ path ++ lit ": " ++ error) [] 1
  | inr c =>
      let output := stdout c ++ stderr c in
      if returncode c =? 0 then mret (Done output)
      else fail (lit "KERNEL_CAPABILITY_FAILURE")
        (action ++ lit " was rejected before it started (kernel preflight exited " ++ dec (returncode c) ++ lit ")") output 1
  end.

(** ** run_mkosi.py *)

Definition _fail_mkosi (c : completed) : result (step (bytes * bytes)) :=
  let original := stdout c ++ stderr c in
  let lines := splitlines (strip (utf8_replace original)) in
  let tail := drop (length lines - 8) lines in
  exit_code ← child_exit_code (returncode c);
  fail (classify_mkosi_output original) (lit "mkosi image assembly exited with status " ++ dec (returncode c) ++ lit ": " ++ join (lit " | ") tail) original exit_code.

(** The result of a run that succeeded is the output that is forwarded. *)
Definition _run_mkosi (script : text) (run : text + completed) : result (step (bytes * bytes)) :=
  match run with
  | inl error => fail (lit "TOOLCHAIN_FAILURE") (lit "mkosi executable cannot start " ++ script ++ lit ": " ++ error) [] 1
  | inr c => if returncode c =? 0 then mret (Done (stdout c, stderr c)) else _fail_mkosi c
  end.

Definition _RELEASE_PARENT_OPTIONS : list text := lit <$> ["--debian-snapshot-repository"; "--release-base-tree"].

Definition _requests_release_parent (preamble_arguments : list text) : bool :=
  existsb (λ option, is_some (preamble_value preamble_arguments option)) _RELEASE_PARENT_OPTIONS.

(** An attribute of the preamble, its text, and its truth value. *)
Definition attribute (preamble : Preamble) (name : string) : option preamble_arg := dget (lit name) (attributes preamble).
Definition attribute_text (preamble : Preamble) (name : string) : option text :=
  match attribute preamble name with Some (PText t) => Some t | _ => None end.
Definition attribute_set (a : option preamble_arg) : bool :=
  match a with None => false | Some (PText t) => negb (bool_decide (t = [])) | Some (PInt z) => negb (z =? 0) | Some (PTexts l) => negb (bool_decide (l = [])) end.

Definition debian_tools_options (preamble : Preamble) : list (option preamble_arg) :=
  attribute preamble <$> ["debian_tools_archive"; "debian_tools_extractor"; "debian_tools_sha256"].
Definition release_options (preamble : Preamble) : list (option preamble_arg) :=
  attribute preamble <$> ["release_seed"; "release_source_date_epoch"; "release_distribution"; "release_codename"; "release_snapshot"; "release_firmware"].

Definition _release_stage (preamble : Preamble) : result (option stage) :=
  let debian_tools := attribute_set <$> debian_tools_options preamble in
  raise_if (existsb id debian_tools && negb (forallb id debian_tools)) (SystemExit "incomplete Debian tools archive configuration" []);;
  let release := is_some <$> release_options preamble in
  raise_if (existsb id release && negb (forallb id release)) (SystemExit "incomplete release configuration" []);;
  raise_if ((existsb id release || attribute_set (attribute preamble "debian_snapshot_repository")) &&
            negb (is_some (attribute preamble "debian_snapshot_components")))
    (SystemExit "incomplete Debian snapshot configuration" []);;
  release_stage (existsb id release) (attribute_text preamble "debian_snapshot_repository") (attribute_text preamble "release_base_tree")
    (attribute_text preamble "release_initrd") (attribute_text preamble "release_base_initrd_output").

(** [redirect] of [_redirect_paths]. *)
Definition redirect (directory staged path : text) : text :=
  if startswith path (directory ++ [47]) then staged ++ drop (length directory) path else path.

Definition _redirect_paths `{Mkosi} (args : list text) (directory staged : text) : result (list text) :=
  found ← path_occurrences args;
  let moved := foldl (λ args oc, replace oc args (map_paths (oc_option oc) (default [] (oc_value oc)) (redirect directory staged))) args found in
  let path_indices := oc_index <$> found in
  mret (imap (λ i argument, if bool_decide (Z.of_nat i ∈ path_indices) then argument else redirect directory staged argument) moved).

(** ** The status of a failed build *)

Lemma child_exit_code_spec rc : rc ≠ 0 → ∃ status, child_exit_code rc = Ok status ∧ 1 ≤ status ≤ 255 ∧
  (1 ≤ rc ≤ 255 → status = rc) ∧ (-127 ≤ rc < 0 → status = 128 - rc).
Proof.
  intros Hrc. unfold child_exit_code, _MIN_EXIT_STATUS, _MAX_EXIT_STATUS. rewrite (proj2 (Z.eqb_neq rc 0)) by done. eexists. split; [reflexivity|].
  destruct (Z.leb_spec 1 rc), (Z.leb_spec rc 255), (Z.ltb_spec rc 0), (Z.leb_spec (- rc) (255 - 128)); cbn; lia.
Qed.

Lemma classify_known output : is_Some (dget (classify_mkosi_output output) _ACTIONS).
Proof. unfold classify_mkosi_output. repeat case_match; by eexists. Qed.

Lemma fail_known {A} category detail original status :
  is_Some (dget category _ACTIONS) → 1 ≤ status ≤ 255 → ∃ lines, fail (A := A) category detail original status = Ok (Exits lines status).
Proof.
  intros [action Ha] Hs. unfold fail, report, _MIN_EXIT_STATUS, _MAX_EXIT_STATUS. rewrite (proj2 (Z.leb_le 1 status)), (proj2 (Z.leb_le status 255)) by lia.
  cbn [require andb]. rewrite Ha. by eexists.
Qed.

(** A run of mkosi either succeeds, and only when the process started and returned zero, or ends the runner with a classified report and a status from 1
    to 255, which the operating system cannot cut to success: the status of the process if it is in that range, 128 plus the signal for
    signals up to 127, and 1 when the process cannot start. No diagnostic is itself an error. *)
Theorem run_mkosi_status script run :
  match run with
  | inl _ => ∃ lines, _run_mkosi script run = Ok (Exits lines 1)
  | inr c =>
      (returncode c = 0 ∧ _run_mkosi script run = Ok (Done (stdout c, stderr c))) ∨
      (returncode c ≠ 0 ∧ ∃ lines status, _run_mkosi script run = Ok (Exits lines status) ∧ 1 ≤ status ≤ 255 ∧
        (1 ≤ returncode c ≤ 255 → status = returncode c) ∧ (-127 ≤ returncode c < 0 → status = 128 - returncode c))
  end.
Proof.
  destruct run as [error|c]; cbn [_run_mkosi]; [apply fail_known; [by eexists|lia]|]. destruct (Z.eqb_spec (returncode c) 0) as [Hz|Hz]; [by left|].
  right. split; [done|]. unfold _fail_mkosi. destruct (child_exit_code_spec _ Hz) as (status & -> & Hs & Hrest).
  destruct (fail_known (A := bytes * bytes) (classify_mkosi_output (stdout c ++ stderr c))
    (lit "mkosi image assembly exited with status " ++ dec (returncode c) ++ lit ": " ++
     join (lit " | ") (drop (length (splitlines (strip (utf8_replace (stdout c ++ stderr c)))) - 8) (splitlines (strip (utf8_replace (stdout c ++ stderr c))))))
    (stdout c ++ stderr c) status (classify_known _) Hs) as (lines & Hf).
  exists lines, status. by split.
Qed.
End run.

(** A killed child, and output that names a download. *)
Example demo_run :
  @_run_mkosi ascii_ucd (lit "mkosi") (inr {| returncode := -9; stdout := []; stderr := utf8_encode (lit "Download failed") |}) =
    Ok (Exits [lit "NETWORK_FAILURE: mkosi image assembly exited with status -9: Download failed"; lit "Action: allow the declared package network access";
               lit "Original output:"; lit "Download failed"] 137) ∧
  redirect (lit "/c") (lit "/w/staging-root") (lit "/c/mkosi.conf") = lit "/w/staging-root/mkosi.conf" ∧
  redirect (lit "/c") (lit "/w/staging-root") (lit "/cache") = lit "/cache".
Proof. split_and!; vm_compute; reflexivity. Qed.
